(* ===== verification/_CoqProject ===== *)
-Q . S2P
Prelude.v
RustStr.v
Utf8.v
Net.v
Http.v
Errors.v
CacheEntry.v
CacheStore.v
Template.v
Vars.v
HeaderRules.v
Auth.v
Access.v
CachePolicy.v
CacheServe.v
Metrics.v
LoadBalancer.v
RateLimit.v
Matcher.v
Router.v
Host.v
Calendar.v
StaticFiles.v
ProxyProto.v
Compress.v
Grpc.v
Listeners.v
Cgi.v
Ws.v
ProxyRequest.v
Proxy.v
Jwt.v
Health.v
Oidc.v
OidcRoutes.v
Archive.v
AccessLog.v
Respond.v
Dispatch.v
Datagram.v
Kdl.v
ParseRules.v
ParseTls.v
ParseAuth.v
ParseHandler.v
ParseConfig.v
Config.v
ConfigOk.v
StreamProxy.v
Accept.v
Quic.v
Build.v
Reload.v
Acme.v
Tls.v
Ocsp.v
Dns.v
H3Client.v
Mtls.v
QuicAccept.v
Probe.v
Prom.v
Snapshots.v
Status.v
StatusPage.v
Startup.v
