(* ===== verification/Prelude.v ===== *)
(** * A verification of hypershunt

    hypershunt is a web server: it accepts HTTP/1.1, HTTP/2 and HTTP/3,
    chooses a virtual host and a location for each request, applies the
    location's access policy, rate limits and header rules, and answers from
    a handler (static files, a reverse proxy over a load-balanced pool, CGI
    gateways, status pages), with an optional response cache in between.

    ** Parts and files

    A request meets the parts in this order; each file models the source
    files it names, one Module per part, with the names of the source.

    - [Dispatch.v] (Module Dispatch; [dispatch_inner] and its helpers in
      src/listener/service.rs) is the pipeline itself: it composes the parts
      below in the order of the code, over one state [World] with the
      metrics, token caches, sessions, limiters, response cache and logs.
    - [Host.v] (Module Host; src/listener/service.rs, [normalize_host],
      [is_valid_host_value], [set_host], [presented_credentials]): the [Host]
      header and the request target's authority are reconciled.
    - [Health.v] (Module Health; src/handler/health.rs): the liveness and
      readiness endpoints.
    - [Jwt.v] (Module Jwt; src/jwt.rs): session tokens and the cache of
      verified ones.  [Oidc.v] (Module Oidc; src/oidc.rs, oidc/jws.rs,
      oidc/bearer.rs, oidc/backchannel.rs): login states, refresh sessions,
      bearer tokens, back-channel logout, discovery.  [OidcRoutes.v] (Module
      OidcRoutes; src/oidc/routes.rs): their endpoints and cookies.
    - [Router.v] (Module Router; src/router.rs): vhost tables per listener,
      [resolve_vhost], [pick_location], rewrites ([apply_rewrite] in the loop
      of [route]), and the inlining of named policies ([resolve_one],
      [resolve_rule_defs], [inline_rules]).  [Matcher.v] (Module Matcher;
      src/matcher.rs and [compile_predicates]) is what a location asks of a
      request.
    - [Access.v] (Module Access; src/access.rs): predicates and rules, with
      the principal resolved lazily by the authenticators of [Auth.v] (Module
      Auth; src/auth.rs, src/config/types_auth.rs).
    - [RateLimit.v] (Module RateLimit; src/rate_limit.rs): token buckets.
    - [Template.v] and [Vars.v] (Modules Template, Vars; src/headers.rs,
      src/vars.rs): templates in configuration values and the user variables
      they mention; [HeaderRules.v] (Module HeaderRules; src/headers.rs):
      header operations with rendered values.
    - [CacheEntry.v], [CacheStore.v], [CachePolicy.v], [CacheServe.v] (Modules
      Entry, Store, Policy, Serve; src/cache/entry.rs, store.rs, policy.rs,
      key.rs and [serve_with_cache] and [spawn_swr_refresh] of
      src/listener/service.rs): the response cache.
    - Handlers: [Respond.v] (Module Respond; src/handler/mod.rs,
      auth_request.rs: redirects, canned responses, subrequest answers),
      [StaticFiles.v] (Module StaticFiles;
      src/handler/static_files.rs), [Cgi.v] (Module Cgi;
      src/handler/cgi_util.rs, cgi.rs, fcgi.rs, scgi.rs), [LoadBalancer.v]
      (Module Lb; src/lb.rs: upstream choice, passive ejection and active
      probing), and the reverse proxy: [ProxyRequest.v] (Module ProxyReq;
      src/handler/proxy.rs, proxy/inner.rs: URIs and headers), [Proxy.v] (Module
      Proxy; the same files and proxy/upgrade.rs: transports, retries, protocol
      upgrades), [H3Client.v] (Module H3Client; proxy/h3.rs: the connection kept
      to an HTTP/3 upstream), [Probe.v] (Module Probe; src/handler/proxy.rs: active
      health probes) and [Ws.v] (Module Ws; proxy/upgrade/ws.rs: the
      translation of WebSocket frames).  [Errors.v] (Module Errors; src/error.rs): the response
      builder, fixed responses and error pages.
    - On the way out: [Compress.v] (Module Compress; src/compress.rs),
      [Grpc.v] (Module Grpc; src/grpc.rs), [AccessLog.v] (Module AccessLog;
      src/access_log.rs) and [Metrics.v] (Module Metrics; src/metrics.rs:
      counters, histograms, breakdowns).
    - What the counters are shown as: [Archive.v] (Module Archive;
      src/metrics.rs: the ring archives behind the charts), [Snapshots.v]
      (Module Snapshots; [Metrics::snapshot]), [Prom.v] (Module Prom;
      src/handler/metrics.rs: the Prometheus page), [Status.v] (Module Status;
      src/handler/status.rs, status/render_json.rs) and [StatusPage.v] (Module
      StatusPage; status/render_html.rs).
    - On the way in: [Listeners.v] (Modules Bind, Diff;
      src/config/types_socket.rs, src/reload/diff.rs: bind addresses, and what
      a reload does to the listeners), [ProxyProto.v] (Module ProxyProto;
      src/proxy_proto.rs), [Accept.v] (Module Accept; src/listener/http.rs: the
      accept loop), [Quic.v] and [QuicAccept.v] (Modules H3, QuicLoop;
      src/listener/quic.rs: HTTP/3 requests and their listener), [StreamProxy.v] (Module Stream; src/listener/stream.rs) and
      [Datagram.v] (Module Dgram; src/listener/datagram.rs).

    The configuration becomes a running server in these files:

    - [Kdl.v] (Module Kdl; src/config/kdl.rs, src/config/parse.rs): the document
      and its readers.  [ParseRules.v], [ParseTls.v], [ParseAuth.v],
      [ParseHandler.v], [ParseConfig.v] (Modules of the same names;
      src/config/parse/*.rs, src/config/parse.rs): the blocks.  [Config.v] and
      [ConfigOk.v] (Modules Config, ConfigOk; src/config/mod.rs): the whole, its
      validation, and what a configuration that loads promises.
    - [Build.v] (Module Build; [build_vhost] of src/router.rs, [build_handler]
      of src/handler/mod.rs): the router of a configuration.
    - [Acme.v] (Module Acme; src/cert/acme.rs, acme_alpn.rs, state.rs), [Dns.v]
      (Module Dns; src/dns_provider.rs), [Tls.v] (Module Tls; src/cert/tls.rs),
      [Ocsp.v] (Module Ocsp; src/cert/ocsp.rs) and [Mtls.v] (Module Mtls;
      src/cert/mtls.rs): certificates, from the order to the handshake and the
      identity of the client.
    - [Reload.v] (Module Reload; src/reload.rs, src/reload/builders.rs,
      src/task.rs, src/bootstrap.rs): a SIGHUP.  [Startup.v] (Module Startup;
      src/inherit.rs, src/privdrop.rs, src/listener/socket.rs, src/main.rs,
      src/reload/lifecycle.rs): sockets, privileges and the SIGUSR2 upgrade.

    Shared: this file (machine integers, durations, [Result], lists),
    [RustStr.v] ([str] operations on byte strings), [Utf8.v] (UTF-8
    validation), [Net.v] (addresses), [Http.v] (the interface to the [http]
    crate) and [Calendar.v] (the reference calendar of the date conversions).

    ** Conventions

    Unsigned machine integers are [N] with wrapping, saturation and checks
    written out; [i64] is [Z].  A Rust [str] is the string of its bytes.  State
    is passed explicitly; interior mutability (the cache's mutex, atomics, the
    memo slots of a request) is a state argument; where interleavings matter
    (the single-flight registry, login states, datagram flows, accept loops,
    staples, reloads, upgrades) there is a step relation,
    and an operation that waits takes what other tasks do meanwhile as an
    argument.  The dispatcher is a state monad whose result is an answer, a
    panic, or the drop of its future by a time-out.  Errors are
    [Result], an error being a short tag; panics and exhausted fuel are [None].

    Code outside the repository is a class of operations with, where a theorem
    needs them, a class of documented laws: [Http] and [HttpLaws], [HttpDate],
    [Regex] and [RegexLaws], [IpNets], [TextCodec], [HashCrates], [Ldap],
    [Pam], [Authorities], [F64], [F64Laws] and [F64Rounding],
    [Hasher] (the seeded hash of the standard library), [System] (file
    system, user database, MIME table), [IpText], [Encoders], [Json],
    [Base64Url], [Es256], [BoundedLru], [OpenId] (the exchanges of the
    [openidconnect] crate), [Uris], [WsDigest], [Kdl] (the document parser),
    [ConfigEnv] (what the parsers take from other crates), [Rustls],
    [PemFiles], [Floats] and [CloudflareZone] (the records of a zone behind
    its API).  Each has a concrete instance that
    satisfies the laws ([assoc_http], [fixed_regex], [exact_f64] and so on), on
    which the witnesses evaluate.

    ** Theorems

    - Policies: an allow needs a matching allow rule ([allow_iff_rule]); lazy
      evaluation computes the declarative decision and authenticates at most
      once ([evaluate_correct]); stream policies never authenticate; named
      policies are inlined to their expansion, failing exactly on undefined or
      circular references ([resolve_names_spec]).
    - Routing: longest accepted prefix ([pick_location_spec]), rewrites bounded
      and confined to the vhost ([route_spec]), one host per request
      ([normalize_host_single]).
    - Dispatch: a refused request reaches neither handler nor cache
      ([denied_never_served]), an identity has grounds ([identity_grounded]),
      and every request is accounted once, with the exceptions it states
      ([dispatch_accounted]).
    - Sessions: only genuine unexpired tokens are accepted, whatever the
      caches have seen ([jwt_valid_sound], [bearer_valid_sound]); issued
      tokens come back as their identity; login states work once and bind the
      browser; logout tokens are not replayed.
    - Metrics: counters and breakdowns are the tallies of the recorded events,
      and the ring archives refine plain histories
      ([archive_refines_history]).
    - Pages: the metrics page reads back as its samples
      ([page_reads_back]), every family is declared ([families_declared]), no
      name but the location's own path changes the markup of the status page
      ([names_write_no_markup]), and
      both show the history of the archives ([document_shows_history]).
    - Reverse proxy: what is sent upstream ([backend_request_spec]), which
      attempts are made ([proxy_retry_spec]), that a request whose
      attempts end is answered and accounted ([proxy_handle_total]), that frames survive the
      translation in any cut ([bridged_frames_conform]), and that an HTTP/3
      client keeps one connection, sends a request at most twice and is never
      stuck ([one_connection], [requests_end], [never_stuck]).
    - Streams and datagrams: only the configured upstream, only for allowed
      peers ([stream_confined]); one client per flow under every interleaving
      ([datagram_isolated]).
    - Listeners: what the cap bounds and the gauges count, with the socket
      that waits for a permit and the tunnels of upgraded connections
      ([listener_invariant], [quic_listener_invariant]), the drain
      ([drain_accounted]), and the limit on HTTP/3 bodies ([h3_body_capped]).
    - Configuration: parsing never panics ([parse_named_total]), what loads is
      servable ([loaded_listener_mode]), and its router is built, with
      a panic only for a host pattern that does not compile anchored
      ([router_built]).
    - Reloads and upgrades: a refused reload leaves the server as it was
      ([failed_reload_keeps_serving]), no accept loop is forgotten
      ([no_orphan_listener]), a new process takes over the sockets
      ([upgrade_shares_sockets]), the old one drains only after it is ready
      ([drains_after_ready]), and dropped privileges stay dropped
      ([drop_is_final]).
    - Certificates: the directory is never mixed, wherever a write stops
      ([cert_dir_never_mixed]), an order cleans up ([order_leaves_nothing]),
      a challenge set and cleared leaves the zone as it was
      ([set_then_clear]), client certificates stay demanded by HTTPS
      listeners through every rotation ([mtls_never_dropped]), and a staple belongs to the
      certificate it is served with ([staple_of_own_certificate]).
    - Access log: the columns of a line are those of the record
      ([log_columns_unforgeable]).
    - Gateways and wire formats: FastCGI end to end against an application
      that reads and writes the protocol on its own ([fcgi_end_to_end]), SCGI
      and CGI framing and responses,
      unforgeable meta-variables, PROXY headers and bind URLs round-trip,
      compression is transparent, gRPC mapping.
    - Templates and variables: cycle detection is exact, memoised rendering
      equals the denotation, rendering depends only on the declared needs.
    - Cache: the store's accounting and LRU order ([insert_spec]),
      single-flight under every interleaving, what may be stored
      ([evaluate_safe]) and served ([lookup_safe]), the store-then-hit round
      trip, and the number of origin calls of the service.
    - Load balancer: availability and group fallback ([pick_spec]), fairness,
      least load, ejection and probe hysteresis over whole histories.
    - Rate limits: admitted requests bounded by burst plus accrual over any
      sequence of clock readings, rounding errors counted ([admitted_rate]);
      idle eviction unobservable.
    - Static files: confinement of paths and of opened files, exact partial
      responses under any read schedule, the calendar arithmetic.
    - Authentication: escaping is injective for LDAP filters and DNs, file
      authentication is sound.
    - Behaviour that departs from what the code or the documentation intends
      is stated as theorems too: [encoded_path_evades_location],
      [index_link_escapes_root], [sweep_defeats_swr], [age_overflow_panics],
      [only_if_cached_revalidates], [ring_scan_wraps], [refresh_misses_edit],
      [missing_host_leaks], [long_path_panics], [refusal_drops_cookies],
      [user_key_unresolved], [return_target_leaves_site],
      [second_cookie_line_missed], [consolidation_wraps],
      [fcgi_body_injects_records], [cgi_boundary_misplaced],
      [cgi_passes_proxy_header], [script_filename_unchecked],
      [compression_discards_vary], [compression_breaks_ranges],
      and as lemmas [age_not_deducted], [set_keeps_client_value],
      [memo_stale_path], [escape_dn_nul_bare], [userinfo_names_vhost],
      [userdir_uid_always_checked], [retry_same_upstream],
      [connect_failure_not_retried], [unix_upgrade_goes_to_tcp],
      [upgrade_collapses_cookies], [evicted_flow_lives_on],
      [old_task_removes_new_flow], [shared_gauge_wraps],
      [user_moves_columns], [applied_identity_in_stream],
      [bad_redirect_code_panics], [negative_weight_wraps],
      [anonymous_becomes_authenticated], [comma_splits_group],
      [negative_ttl_wraps], [short_jti_window_accepted],
      [full_listener_waits], [zero_header_lifts_idle_cap],
      [cut_body_looks_complete], [acme_added_on_reload_panics],
      [refused_reload_moves_limiters], [removed_renewal_runs_on],
      [removed_listener_starts_late], [names_collide],
      [poll_error_leaves_token], [short_lived_every_minute],
      [renewal_undone], [unstapled_while_asleep], [expires_before_refresh],
      [der_crl_refused], [families_interleaved], [dangling_link],
      [unknown_ids], [failed_handshakes_hidden], [prefix_writes_markup],
      [ticks_read], [timeout_closes_stranger],
      [failed_upgrade_strands_path], [duplicate_stays_open],
      [setuid_program_keeps_root], [subdomain_writes_member],
      [long_download_cut], [stale_failure_evicts_fresh], [broken_upload_evicts],
      [zero_still_reuses], [response_trailers_lost],
      [request_while_draining], [full_quic_waits],
      [http3_only_given_up], [stale_ignores_max_age],
      [userinfo_subject_unchecked], [late_readings_credit_again],
      [tunnels_escape_cap], [stream_acceptor_asks_nothing].

    ** Fuel

    Recursion that is not structural takes fuel, and the theorems show it
    suffices: cycle detection and needs analysis recurse once per variable
    definition, so the number of definitions plus one; a variable's value
    likewise; template lexing consumes a byte per round, so the length plus
    one; named policies recurse at most once per definition; the readers of
    FastCGI records and parameters and of white-space separated words consume
    at least a byte per round, so the length, and so do the tokens of a log
    line and the labels of a metrics page; GeoIP needs recurse once per policy,
    so the size of the policies plus one; the frame translator takes at most
    [turns_left] turns, a measure of the bytes still to come.  The rewrite
    bound of ten is the program's own [MAX_REWRITES].

    ** Not modelled

    The bytes on sockets, the encoding of X.509 and OCSP requests and the reading of
    certificate bytes (what they yield is a parameter of the parts that use them),
    the ACME account file, the command line and the runtime, and the export of
    traces: each is the use of an external crate, with no decision of the
    program to verify. *)
From Stdlib Require Export Ascii.
From Stdlib Require Import Lia.
From stdpp Require Export base strings pretty numbers option gmap.
From stdpp Require Export list.

#[export] Set Warnings "-clear-no-such-hyp,-register-all".
#[global] Open Scope string_scope.
#[global] Open Scope list_scope.
#[global] Open Scope N_scope.

(** * Machine integers

    Unsigned machine integers are [N] with their width written out: a value
    of type [u64] is an [N] below [2 ^ 64], wrapping operations reduce
    explicitly, saturating ones clamp, and checked ones return [option]. *)

Definition u8_mod : N := 256.
Definition u16_max : N := 65535.
Definition u32_max : N := 4294967295.
Definition u64_max : N := 18446744073709551615.
Definition u64_mod : N := 18446744073709551616.

Definition wrap64 (n : N) : N := n mod u64_mod.
Definition wrap32 (n : N) : N := n mod 4294967296.
Definition sat_add32 (a b : N) : N := N.min (a + b) u32_max.
Definition sat_add64 (a b : N) : N := N.min (a + b) u64_max.
Definition sat_mul64 (a b : N) : N := N.min (a * b) u64_max.

(** [AtomicI64::fetch_add] and [fetch_sub] wrap. *)
Definition swrap64 (z : Z) : Z :=
  ((z + 9223372036854775808) mod 18446744073709551616 - 9223372036854775808)%Z.

Lemma swrap64_small z :
  (-9223372036854775808 ≤ z < 9223372036854775808)%Z → swrap64 z = z.
Proof. intros. unfold swrap64. rewrite Z.mod_small; lia. Qed.

Lemma swrap64_add_sub z d :
  (-9223372036854775808 ≤ z < 9223372036854775808)%Z → swrap64 (swrap64 (z + d) - d) = z.
Proof.
  intros Hz. rewrite <- (swrap64_small z Hz) at 2. unfold swrap64.
  set (m := 18446744073709551616%Z). set (h := 9223372036854775808%Z).
  replace ((z + d + h) mod m - h - d + h)%Z with ((z + d + h) mod m - d)%Z by lia.
  rewrite Zminus_mod_idemp_l. do 2 f_equal. lia.
Qed.

Lemma wrap64_small n : n < u64_mod → wrap64 n = n.
Proof. intros. by apply N.mod_small. Qed.

Lemma wrap64_idem n : wrap64 (wrap64 n) = wrap64 n.
Proof. unfold wrap64. apply N.Div0.mod_mod. Qed.

Lemma wrap64_lt n : wrap64 n < u64_mod.
Proof. unfold wrap64. apply N.mod_lt. done. Qed.

(** * Durations and instants

    A [Duration] is its length in nanoseconds, an [Instant] a reading of the
    monotonic clock in nanoseconds.  [Duration + Duration] panics on
    overflow, hence the [option]; subtraction on [N] is the saturating
    subtraction the source asks for. *)

Abbreviation Duration := N (only parsing).
Abbreviation Instant := N (only parsing).

Definition nanos_per_sec : N := 1000000000.
Definition duration_max : N := u64_max * nanos_per_sec + 999999999.

Definition from_secs (s : N) : Duration := s * nanos_per_sec.
Definition as_secs (d : Duration) : N := d / nanos_per_sec.
Definition duration_add (a b : Duration) : option Duration :=
  if decide (a + b ≤ duration_max) then Some (a + b) else None.

(** [Instant::saturating_duration_since]. *)
Definition since (now earlier : Instant) : Duration := now - earlier.

Lemma as_secs_from_secs s : as_secs (from_secs s) = s.
Proof. unfold as_secs, from_secs. by rewrite N.div_mul. Qed.

Lemma as_secs_le a b : a ≤ b → as_secs a ≤ as_secs b.
Proof. intros. unfold as_secs. by apply N.Div0.div_le_mono. Qed.

(** * Fallible code

    [anyhow::Result] and [io::Result]: an error carries a short tag naming
    the failing check; the text of the operator-facing message is not part of
    the model. *)
Inductive Result (A : Type) : Type :=
  | Ok (a : A)
  | Err (tag : string).
Arguments Ok {A} _.
Arguments Err {A} _.

#[global] Instance result_ret : MRet Result := λ _ a, Ok a.
#[global] Instance result_bind : MBind Result := λ _ _ f r,
  match r with Ok a => f a | Err e => Err e end.
#[global] Instance result_map : FMap Result := λ _ _ f r,
  match r with Ok a => Ok (f a) | Err e => Err e end.

Definition ok_or {A} (o : option A) (tag : string) : Result A :=
  match o with Some a => Ok a | None => Err tag end.

(** [iter.map(f).collect::<Result<Vec<_>>>()]. *)
Fixpoint try_map {A B} (f : A → Result B) (l : list A) : Result (list B) :=
  match l with
  | [] => Ok []
  | x :: l' => y ← f x; ys ← try_map f l'; Ok (y :: ys)
  end.

Definition is_ok {A} (r : Result A) : bool := match r with Ok _ => true | Err _ => false end.

Lemma bind_Ok {A B} (r : Result A) (f : A → Result B) b :
  r ≫= f = Ok b ↔ ∃ a, r = Ok a ∧ f a = Ok b.
Proof. destruct r; cbn; naive_solver. Qed.

Lemma try_map_Ok {A B} (f : A → Result B) l ys :
  try_map f l = Ok ys ↔ Forall2 (λ x y, f x = Ok y) l ys.
Proof.
  revert ys. induction l as [|x l IH]; intros ys; cbn.
  - split; [intros [= <-]; constructor|by inversion 1].
  - rewrite bind_Ok. split.
    + intros (y & Hy & H). apply bind_Ok in H as (ys' & Hys & [= <-]).
      constructor; [done|]. by apply IH.
    + inversion 1 as [|? y ? ys' Hy Hys]; subst. exists y. split; [done|].
      apply bind_Ok. exists ys'. split; [by apply IH|done].
Qed.

(** * Lists *)

Lemma filter_ext_in {A} (P Q : A → Prop) `{∀ x, Decision (P x), ∀ x, Decision (Q x)}
    (l : list A) :
  (∀ x, x ∈ l → P x ↔ Q x) → filter P l = filter Q l.
Proof.
  induction l as [|x l IH]; intros HPQ; [done|]. rewrite !filter_cons.
  rewrite IH by set_solver. destruct (HPQ x) as [HP HQ]; [set_solver|].
  repeat case_decide; naive_solver.
Qed.

Lemma filter_all {A} (P : A → Prop) `{∀ x, Decision (P x)} (l : list A) :
  (∀ x, x ∈ l → P x) → filter P l = l.
Proof.
  induction l as [|x l IH]; intros HP; [done|].
  rewrite filter_cons_True by set_solver. by rewrite IH by set_solver.
Qed.

(** With distinct keys, an entry is determined by its key. *)
Lemma NoDup_keys_inj {K V} (l : list (K * V)) k v v' :
  NoDup l.*1 → (k, v) ∈ l → (k, v') ∈ l → v = v'.
Proof.
  induction l as [|[k0 v0] l IH]; cbn; [set_solver|].
  rewrite NoDup_cons, !elem_of_cons. intros [Hk Hnd] [H1|H1] [H2|H2]; simplify_eq; eauto.
  - destruct Hk. apply list_elem_of_fmap. by exists (k0, v').
  - destruct Hk. apply list_elem_of_fmap. by exists (k0, v).
Qed.

Lemma NoDup_app_remove_mid {A} (l1 l2 : list A) x :
  NoDup (l1 ++ x :: l2) → NoDup (l1 ++ l2) ∧ x ∉ l1 ++ l2.
Proof.
  intros Hnd. rewrite <- (Permutation_middle l1 l2 x) in Hnd.
  apply NoDup_cons in Hnd as [??]. done.
Qed.

#[global] Arguments Ascii.eqb : simpl never.
#[global] Arguments String.eqb : simpl never.
#[global] Arguments N_of_ascii : simpl never.
#[global] Arguments N.leb : simpl never.
