(* ===== verification/RustStr.v ===== *)
(** Strings as the source manipulates them: the methods of [str] and
    [String] that hypershunt calls, as functions on byte strings, and
    decimal parsing and printing of unsigned integers.

    A Rust string is its byte sequence.  [trim] and friends remove ASCII
    white space: the source applies them to the result of
    [HeaderValue::to_str], which is visible ASCII, where this is exactly
    what the Unicode-aware method does. *)
From S2P Require Import Prelude.

(** * Characters *)

Definition ascii_ws (c : ascii) : bool :=
  let n := N_of_ascii c in
  (n =? 32) || ((9 <=? n) && (n <=? 13)).

Definition to_lower (c : ascii) : ascii :=
  let n := N_of_ascii c in
  if (65 <=? n) && (n <=? 90) then ascii_of_N (n + 32) else c.

(** [char::to_digit(10)]. *)
Definition digit_of (c : ascii) : option N :=
  let n := N_of_ascii c in
  if (48 <=? n) && (n <=? 57) then Some (n - 48) else None.

(** * Whole-string functions *)

Fixpoint str_map (f : ascii → ascii) (s : string) : string :=
  match s with
  | "" => ""
  | String c s' => String (f c) (str_map f s')
  end.

Definition to_ascii_lowercase (s : string) : string := str_map to_lower s.

Definition eq_ignore_ascii_case (a b : string) : bool :=
  String.eqb (to_ascii_lowercase a) (to_ascii_lowercase b).

Fixpoint str_all (p : ascii → bool) (s : string) : bool :=
  match s with
  | "" => true
  | String c s' => p c && str_all p s'
  end.

Definition is_empty (s : string) : bool := String.eqb s "".

(** [s.len()], in bytes. *)
Definition str_len (s : string) : N := N.of_nat (String.length s).

Definition starts_with (p s : string) : bool := String.prefix p s.

Fixpoint strip_prefix (p s : string) {struct p} : option string :=
  match p, s with
  | "", _ => Some s
  | String a p', String b s' => if Ascii.eqb a b then strip_prefix p' s' else None
  | String _ _, "" => None
  end.

(** [s.contains(needle)]. *)
Fixpoint contains_str (needle s : string) : bool :=
  starts_with needle s ||
  match s with
  | "" => false
  | String _ s' => contains_str needle s'
  end.

Fixpoint contains_char (c : ascii) (s : string) : bool :=
  match s with
  | "" => false
  | String x s' => Ascii.eqb x c || contains_char c s'
  end.

(** [s.split_once(c)]: at the first occurrence of [c]. *)
Fixpoint split_once (c : ascii) (s : string) : option (string * string) :=
  match s with
  | "" => None
  | String x s' =>
      if Ascii.eqb x c then Some ("", s')
      else match split_once c s' with
           | Some (a, b) => Some (String x a, b)
           | None => None
           end
  end.

(** [s.split(c)]: never empty; [k] separators give [k + 1] parts. *)
Fixpoint split (c : ascii) (s : string) : list string :=
  match s with
  | "" => [""]
  | String x s' =>
      if Ascii.eqb x c then "" :: split c s'
      else match split c s' with
           | [] => [String x ""]
           | h :: t => String x h :: t
           end
  end.

(** [s.splitn(n, c)]: at most [n] parts, the last one unsplit. *)
Fixpoint splitn (n : nat) (c : ascii) (s : string) : list string :=
  match n with
  | O => []
  | S O => [s]
  | S n' => match split_once c s with
            | Some (a, b) => a :: splitn n' c b
            | None => [s]
            end
  end.

(** [parts.join(sep)]. *)
Definition join (sep : string) (l : list string) : string := String.concat sep l.

(** * Trimming *)

Fixpoint trim_start_by (p : ascii → bool) (s : string) : string :=
  match s with
  | "" => ""
  | String c s' => if p c then trim_start_by p s' else s
  end.

Fixpoint trim_end_by (p : ascii → bool) (s : string) : string :=
  match s with
  | "" => ""
  | String c s' =>
      match trim_end_by p s' with
      | "" => if p c then "" else String c ""
      | r => String c r
      end
  end.

Definition trim_start (s : string) : string := trim_start_by ascii_ws s.
Definition trim (s : string) : string := trim_end_by ascii_ws (trim_start s).

(** [s.trim_matches(c)]. *)
Definition trim_matches (c : ascii) (s : string) : string :=
  trim_end_by (Ascii.eqb c) (trim_start_by (Ascii.eqb c) s).

(** * Decimal numbers *)

Fixpoint parse_digits (max acc : N) (s : string) : option N :=
  match s with
  | "" => Some acc
  | String c s' =>
      match digit_of c with
      | Some d => if acc * 10 + d <=? max then parse_digits max (acc * 10 + d) s' else None
      | None => None
      end
  end.

(** [str::parse::<uN>] with [max] the type's largest value: an optional
    leading [+], at least one digit, nothing else, no overflow. *)
Definition parse_uint (max : N) (s : string) : option N :=
  match s with
  | "" => None
  | String "+" "" => None
  | String "+" s' => parse_digits max 0 s'
  | _ => parse_digits max 0 s
  end.

(** [n.to_string()]. *)
Definition dec (n : N) : string := pretty n.

(** * Lemmas *)

Lemma str_app_cons c a b : String c a +:+ b = String c (a +:+ b).
Proof. done. Qed.

Lemma str_app_nil_l s : "" +:+ s = s.
Proof. done. Qed.

Lemma str_app_nil_r s : s +:+ "" = s.
Proof. induction s as [|c s IH]; [done|]. by rewrite str_app_cons, IH. Qed.

Lemma str_app_assoc a b c : (a +:+ b) +:+ c = a +:+ (b +:+ c).
Proof. induction a as [|x a IH]; [done|]. by rewrite !str_app_cons, IH. Qed.

Lemma str_length_app a b : String.length (a +:+ b) = (String.length a + String.length b)%nat.
Proof.
  induction a as [|c a IH]; [done|].
  rewrite str_app_cons. cbn [String.length]. by rewrite IH.
Qed.

Lemma str_all_app p a b : str_all p (a +:+ b) = str_all p a && str_all p b.
Proof.
  induction a as [|c a IH]; [done|].
  rewrite str_app_cons. cbn. by rewrite IH, andb_assoc.
Qed.

Lemma str_all_impl (p q : ascii → bool) s :
  (∀ c, p c = true → q c = true) → str_all p s = true → str_all q s = true.
Proof.
  intros Hpq. induction s as [|c s IH]; [done|]. cbn.
  rewrite !andb_true_iff. intros [??]; auto.
Qed.

Lemma contains_char_all c s :
  contains_char c s = negb (str_all (λ x, negb (Ascii.eqb x c)) s).
Proof.
  induction s as [|x s IH]; [done|]. cbn. rewrite IH.
  by destruct (Ascii.eqb x c).
Qed.

Lemma contains_char_app c a b : contains_char c (a +:+ b) = contains_char c a || contains_char c b.
Proof.
  induction a as [|x a IH]; [done|]. rewrite str_app_cons. cbn [contains_char].
  rewrite IH. by destruct (Ascii.eqb _ _).
Qed.

Lemma split_not_nil c s : split c s ≠ [].
Proof.
  destruct s as [|x s]; cbn; [done|].
  destruct (Ascii.eqb x c); [done|]. by destruct (split c s).
Qed.

Lemma split_app c a b :
  split c (a +:+ String c b) = split c a ++ split c b.
Proof.
  induction a as [|x a IH]; [rewrite str_app_nil_l; cbn; by rewrite Ascii.eqb_refl|].
  rewrite str_app_cons. cbn. rewrite IH.
  destruct (Ascii.eqb x c); [done|].
  destruct (split c a) eqn:E; [|done]. by destruct (split_not_nil c a).
Qed.

Lemma split_no_sep c s : contains_char c s = false → split c s = [s].
Proof.
  induction s as [|x s IH]; [done|]. cbn.
  rewrite orb_false_iff. intros [-> H]. by rewrite IH.
Qed.

Lemma split_once_no_sep c s : contains_char c s = false → split_once c s = None.
Proof.
  induction s as [|x s IH]; [done|]. cbn.
  rewrite orb_false_iff. intros [-> H]. by rewrite IH.
Qed.

Lemma split_once_app c a b :
  contains_char c a = false → split_once c (a +:+ String c b) = Some (a, b).
Proof.
  induction a as [|x a IH]; [rewrite str_app_nil_l; cbn; by rewrite Ascii.eqb_refl|].
  rewrite str_app_cons. cbn. rewrite orb_false_iff. intros [-> H]. by rewrite IH.
Qed.

Lemma split_once_Some c s a b :
  split_once c s = Some (a, b) → s = a +:+ String c b ∧ contains_char c a = false.
Proof.
  revert a b. induction s as [|x s IH]; cbn; intros a b; [done|].
  destruct (Ascii.eqb x c) eqn:E.
  - intros [= <- <-]. apply Ascii.eqb_eq in E. by subst.
  - destruct (split_once c s) as [[a' b']|]; [|done].
    intros [= <- <-]. destruct (IH a' b') as [-> Ha]; [done|].
    cbn. by rewrite E, Ha.
Qed.

(** Joining the parts of a split restores the string. *)
Lemma join_split c s : join (String c "") (split c s) = s.
Proof.
  induction s as [|x s IH]; [done|]. cbn.
  destruct (Ascii.eqb x c) eqn:E.
  - apply Ascii.eqb_eq in E as ->. unfold join in *.
    destruct (split c s) eqn:Es; [by destruct (split_not_nil c s)|].
    cbn in *. by rewrite IH.
  - destruct (split c s) eqn:Es; [by destruct (split_not_nil c s)|].
    unfold join in *. cbn in *. destruct l; cbn in *; by rewrite <- IH.
Qed.

Lemma strip_prefix_app p s : strip_prefix p (p +:+ s) = Some s.
Proof.
  induction p as [|c p IH]; [done|]. rewrite str_app_cons. cbn.
  by rewrite Ascii.eqb_refl.
Qed.

Lemma strip_prefix_Some p s r : strip_prefix p s = Some r → s = p +:+ r.
Proof.
  revert s. induction p as [|c p IH]; intros s; cbn; [by intros [= ->]|].
  destruct s as [|b s]; [done|].
  destruct (Ascii.eqb c b) eqn:E; [|done].
  apply Ascii.eqb_eq in E as ->. intros H. by rewrite (IH s H).
Qed.

Lemma starts_with_true p s : starts_with p s = true ↔ ∃ r, s = p +:+ r.
Proof.
  unfold starts_with. revert s. induction p as [|c p IH]; intros s.
  - split; [intros _; by exists s|by destruct s].
  - destruct s as [|b s].
    + split; [done|]. intros [r Hr]. done.
    + cbn. destruct (ascii_dec c b) as [->|Hn].
      * rewrite IH. split; intros [r Hr]; exists r.
        -- by rewrite Hr.
        -- rewrite str_app_cons in Hr. congruence.
      * split; [done|]. intros [r Hr]. rewrite str_app_cons in Hr. congruence.
Qed.

Lemma parse_digits_pretty max x s :
  x ≤ max → parse_digits max 0 (pretty_N_go x s) = parse_digits max x s.
Proof.
  revert s. induction (N.lt_wf_0 x) as [x _ IH]; intros s Hx.
  destruct (decide (0 < x)) as [Hpos|Hz].
  - rewrite pretty_N_go_step by done.
    rewrite IH; [|by apply N.div_lt|].
    2:{ etrans; [|exact Hx]. apply N.Div0.div_le_upper_bound. lia. }
    cbn [parse_digits].
    pose proof (N.mod_lt x 10 ltac:(done)) as Hm.
    assert (digit_of (pretty_N_char (x mod 10)) = Some (x mod 10)) as ->.
    { assert (∀ d, (d < 10)%N → digit_of (pretty_N_char d) = Some d) as H; [|by apply H].
      intros d Hd. assert (d = 0 ∨ d = 1 ∨ d = 2 ∨ d = 3 ∨ d = 4 ∨ d = 5 ∨ d = 6
        ∨ d = 7 ∨ d = 8 ∨ d = 9) as Hc by lia.
      by destruct_or!; subst. }
    replace (x `div` 10 * 10 + x `mod` 10) with x
      by (pose proof (N.div_mod x 10 ltac:(done)); lia).
    apply N.leb_le in Hx. by rewrite Hx.
  - assert (x = 0) as -> by lia. by rewrite pretty_N_go_0.
Qed.

Definition is_digit (c : ascii) : bool :=
  let n := N_of_ascii c in (48 <=? n) && (n <=? 57).

Lemma pretty_N_char_digit d : d < 10 → is_digit (pretty_N_char d) = true.
Proof.
  intros Hd. assert (d = 0 ∨ d = 1 ∨ d = 2 ∨ d = 3 ∨ d = 4 ∨ d = 5 ∨ d = 6
    ∨ d = 7 ∨ d = 8 ∨ d = 9) as Hc by lia.
  by destruct_or!; subst.
Qed.

Lemma pretty_N_go_digits x s :
  str_all is_digit s = true → str_all is_digit (pretty_N_go x s) = true.
Proof.
  revert s. induction (N.lt_wf_0 x) as [x _ IH]; intros s Hs.
  destruct (decide (0 < x)) as [Hpos|Hz].
  - rewrite pretty_N_go_step by done. apply IH; [by apply N.div_lt|].
    cbn. rewrite Hs, pretty_N_char_digit; [done|]. by apply N.mod_lt.
  - assert (x = 0) as -> by lia. by rewrite pretty_N_go_0.
Qed.

Lemma pretty_N_go_cons x s : 0 < x → ∃ c r, pretty_N_go x s = String c r.
Proof.
  revert s. induction (N.lt_wf_0 x) as [x _ IH]; intros s Hx.
  rewrite pretty_N_go_step by done.
  destruct (N.eq_0_gt_0_cases (x / 10)) as [->|Hd].
  - rewrite pretty_N_go_0. eauto.
  - apply IH; [by apply N.div_lt|done].
Qed.

Lemma dec_pos n : 0 < n → dec n = pretty_N_go n "".
Proof. intros Hn. unfold dec, pretty, pretty_N. rewrite decide_False; [done|lia]. Qed.

Lemma dec_digits n : str_all is_digit (dec n) = true.
Proof.
  destruct (decide (0 < n)) as [Hn|Hn].
  - rewrite dec_pos by done. by apply pretty_N_go_digits.
  - assert (n = 0) as -> by lia. done.
Qed.

Lemma pretty_N_go_length k x s :
  x < 10 ^ N.of_nat k → (String.length (pretty_N_go x s) ≤ k + String.length s)%nat.
Proof.
  revert x s. induction k as [|k IH]; intros x s Hx.
  { assert (x = 0) as -> by (cbn in Hx; lia). by rewrite pretty_N_go_0. }
  destruct (decide (0 < x)) as [Hpos|Hz].
  - rewrite pretty_N_go_step by done. etrans; [apply IH|cbn; lia].
    rewrite Nat2N.inj_succ, N.pow_succ_r' in Hx. by apply N.Div0.div_lt_upper_bound.
  - assert (x = 0) as -> by lia. rewrite pretty_N_go_0. lia.
Qed.

Lemma dec_length k n : (1 ≤ k)%nat → n < 10 ^ N.of_nat k → (String.length (dec n) ≤ k)%nat.
Proof.
  intros Hk Hn. destruct (decide (0 < n)) as [Hpos|Hz].
  - rewrite dec_pos by done. etrans; [by apply (pretty_N_go_length k)|cbn; lia].
  - assert (n = 0) as -> by lia. done.
Qed.

Lemma dec_cons n : ∃ c r, dec n = String c r.
Proof.
  destruct (decide (0 < n)) as [Hn|Hn].
  - rewrite dec_pos by done. by apply pretty_N_go_cons.
  - assert (n = 0) as -> by lia. by exists "0"%char, "".
Qed.

Lemma parse_uint_digit max c s :
  is_digit c = true → parse_uint max (String c s) = parse_digits max 0 (String c s).
Proof. by destruct c as [[] [] [] [] [] [] [] []]. Qed.

(** Parsing a printed number gives the number back. *)
Lemma parse_uint_dec max n : n ≤ max → parse_uint max (dec n) = Some n.
Proof.
  intros Hn. destruct (dec_cons n) as (c & r & E). pose proof (dec_digits n) as Hd.
  rewrite E in Hd |- *. cbn in Hd. apply andb_true_iff in Hd as [Hc _].
  rewrite parse_uint_digit, <- E by done.
  destruct (decide (0 < n)) as [Hp|Hp].
  - rewrite dec_pos, parse_digits_pretty by done. done.
  - assert (n = 0) as -> by lia. apply N.leb_le in Hn.
    change (dec 0) with "0". unfold parse_digits. cbn [digit_of].
    change (digit_of "0") with (Some 0). cbn iota. change (0 * 10 + 0) with 0. by rewrite Hn.
Qed.

(** * Slices of byte strings *)

(** The first [n] bytes of a text, and what follows them. *)
Fixpoint str_take (n : nat) (s : string) : string :=
  match n, s with
  | S n', String c s' => String c (str_take n' s')
  | _, _ => ""
  end.

Fixpoint str_drop (n : nat) (s : string) : string :=
  match n, s with
  | S n', String _ s' => str_drop n' s'
  | _, _ => s
  end.

Lemma str_take_nil n : str_take n "" = "".
Proof. by destruct n. Qed.

Lemma length_str_take n s : String.length (str_take n s) = Nat.min n (String.length s).
Proof. revert s. induction n as [|n IH]; intros [|c s]; cbn; [done..|]. by rewrite IH. Qed.

Lemma length_str_drop n s : String.length (str_drop n s) = (String.length s - n)%nat.
Proof. revert s. induction n as [|n IH]; intros [|c s]; cbn; [done..|]. by rewrite IH. Qed.

Lemma str_take_drop n s : str_take n s +:+ str_drop n s = s.
Proof.
  revert s. induction n as [|n IH]; intros [|c s]; cbn [str_take str_drop]; [done..|].
  by rewrite str_app_cons, IH.
Qed.

Lemma str_take_le_length k s : (String.length (str_take k s) ≤ k)%nat.
Proof. revert s. induction k as [|k IH]; intros [|c s]; cbn; [lia..|]. specialize (IH s). lia. Qed.

Lemma str_take_length k s : str_take (String.length (str_take k s)) s = str_take k s.
Proof.
  revert s. induction k as [|k IH]; intros [|c s]; cbn; [done..|]. by rewrite IH.
Qed.

Lemma str_take_step j n s :
  (j ≤ n)%nat → str_take n s = str_take j s +:+ str_take (n - j) (str_drop j s).
Proof.
  revert n s. induction j as [|j IH]; intros n s Hj.
  { by replace (n - 0)%nat with n by lia. }
  destruct n as [|n]; [lia|]. destruct s as [|c s]; cbn [str_take str_drop].
  { by destruct (S n - S j)%nat. }
  rewrite str_app_cons. f_equal. apply IH. lia.
Qed.

Lemma str_take_app a b : str_take (String.length a) (a +:+ b) = a.
Proof. induction a as [|c a IH]; [by destruct b|]. rewrite str_app_cons. cbn. by rewrite IH. Qed.

Lemma str_drop_app a b : str_drop (String.length a) (a +:+ b) = b.
Proof. induction a as [|c a IH]; [by destruct b|]. rewrite str_app_cons. cbn. done. Qed.

Lemma str_take_app_le n a b : (n ≤ String.length a)%nat → str_take n (a +:+ b) = str_take n a.
Proof.
  revert a. induction n as [|n IH]; intros a Hn; [done|]. destruct a as [|c a]; cbn in Hn; [lia|].
  rewrite str_app_cons. cbn. rewrite IH; [done|lia].
Qed.

Lemma str_drop_app_le n a b :
  (n ≤ String.length a)%nat → str_drop n (a +:+ b) = str_drop n a +:+ b.
Proof.
  revert a. induction n as [|n IH]; intros a Hn; [done|]. destruct a as [|c a]; cbn in Hn; [lia|].
  rewrite str_app_cons. cbn. apply IH. lia.
Qed.

(** [n] NUL bytes. *)
Fixpoint zeros (n : nat) : string :=
  match n with O => "" | S n' => String (ascii_of_N 0) (zeros n') end.

Lemma zeros_length n : String.length (zeros n) = n.
Proof. induction n; cbn; congruence. Qed.

Lemma str_drop_length n s : String.length (str_drop n s) = (String.length s - n)%nat.
Proof. revert s. induction n as [|n IH]; intros [|c s]; cbn; [done..|]. apply IH. Qed.

Lemma str_drop_add_app n a b : str_drop (String.length a + n) (a +:+ b) = str_drop n b.
Proof. induction a as [|c a IH]; [done|]. rewrite str_app_cons. cbn. done. Qed.

Lemma str_take_add_app n a b :
  str_take (String.length a + n) (a +:+ b) = a +:+ str_take n b.
Proof.
  induction a as [|c a IH]; [done|]. rewrite !str_app_cons. cbn [String.length Nat.add str_take].
  by rewrite IH.
Qed.

Lemma concat_empty_cons x l : String.concat "" (x :: l) = x +:+ String.concat "" l.
Proof. destruct l; cbn; [by rewrite str_app_nil_r|done]. Qed.

Lemma digits_not_contain c s :
  is_digit c = false → str_all is_digit s = true → contains_char c s = false.
Proof.
  intros Hc Hs. rewrite contains_char_all, (str_all_impl is_digit); [done| |done].
  intros x Hx. destruct (Ascii.eqb_spec x c) as [->|]; [by rewrite Hc in Hx|done].
Qed.

Lemma trim_start_id s : str_all (λ c, negb (ascii_ws c)) s = true → trim_start s = s.
Proof.
  intros Hs. destruct s as [|c s]; [done|]. cbn in *. apply andb_true_iff in Hs as [Hc _].
  by destruct (ascii_ws c).
Qed.

Lemma trim_id s : str_all (λ c, negb (ascii_ws c)) s = true → trim s = s.
Proof.
  intros Hs. unfold trim. rewrite trim_start_id by done.
  induction s as [|c s IH]; [done|]. cbn in *. apply andb_true_iff in Hs as [Hc Hs].
  rewrite IH by done. destruct s; [|done]. by destruct (ascii_ws c).
Qed.
