(* ===== verification/Utf8.v ===== *)
(** UTF-8 validation as the Rust standard library does it: [str::from_utf8],
    and [String::from_utf8_lossy], which replaces every maximal invalid
    prefix of a sequence by U+FFFD. *)
From S2P Require Import Prelude RustStr.

Definition byte_in (lo hi : N) (c : ascii) : bool :=
  (lo <=? N_of_ascii c) && (N_of_ascii c <=? hi).

(** A continuation byte. *)
Definition cont (c : ascii) : bool := byte_in 128 191 c.

(** The length of the sequence a byte starts, [0] for none. *)
Definition utf8_width (c : ascii) : nat :=
  if byte_in 0 127 c then 1
  else if byte_in 194 223 c then 2
  else if byte_in 224 239 c then 3
  else if byte_in 240 244 c then 4
  else 0.

(** The second byte of a three- and of a four-byte sequence. *)
Definition second3 (b0 b1 : ascii) : bool :=
  if N_of_ascii b0 =? 224 then byte_in 160 191 b1
  else if N_of_ascii b0 =? 237 then byte_in 128 159 b1
  else cont b1.

Definition second4 (b0 b1 : ascii) : bool :=
  if N_of_ascii b0 =? 240 then byte_in 144 191 b1
  else if N_of_ascii b0 =? 244 then byte_in 128 143 b1
  else cont b1.

Definition replacement : string :=
  String (ascii_of_N 239) (String (ascii_of_N 191) (String (ascii_of_N 189) "")).

Fixpoint from_utf8_lossy (s : string) : string :=
  match s with
  | "" => ""
  | String b0 s1 =>
      match utf8_width b0 with
      | 1%nat => String b0 (from_utf8_lossy s1)
      | 2%nat =>
          match s1 with
          | String b1 s2 =>
              if cont b1 then String b0 (String b1 (from_utf8_lossy s2))
              else replacement +:+ from_utf8_lossy s1
          | "" => replacement
          end
      | 3%nat =>
          match s1 with
          | String b1 s2 =>
              if second3 b0 b1 then
                match s2 with
                | String b2 s3 =>
                    if cont b2 then String b0 (String b1 (String b2 (from_utf8_lossy s3)))
                    else replacement +:+ from_utf8_lossy s2
                | "" => replacement
                end
              else replacement +:+ from_utf8_lossy s1
          | "" => replacement
          end
      | 4%nat =>
          match s1 with
          | String b1 s2 =>
              if second4 b0 b1 then
                match s2 with
                | String b2 s3 =>
                    if cont b2 then
                      match s3 with
                      | String b3 s4 =>
                          if cont b3
                          then String b0 (String b1 (String b2 (String b3 (from_utf8_lossy s4))))
                          else replacement +:+ from_utf8_lossy s3
                      | "" => replacement
                      end
                    else replacement +:+ from_utf8_lossy s2
                | "" => replacement
                end
              else replacement +:+ from_utf8_lossy s1
          | "" => replacement
          end
      | _ => replacement +:+ from_utf8_lossy s1
      end
  end.

Fixpoint valid_utf8 (s : string) : bool :=
  match s with
  | "" => true
  | String b0 s1 =>
      match utf8_width b0, s1 with
      | 1%nat, _ => valid_utf8 s1
      | 2%nat, String b1 s2 => cont b1 && valid_utf8 s2
      | 3%nat, String b1 (String b2 s3) => second3 b0 b1 && cont b2 && valid_utf8 s3
      | 4%nat, String b1 (String b2 (String b3 s4)) =>
          second4 b0 b1 && cont b2 && cont b3 && valid_utf8 s4
      | _, _ => false
      end
  end.

(** [String::from_utf8]. *)
Definition from_utf8 (s : string) : option string := if valid_utf8 s then Some s else None.

(** Strong induction on the length of a text. *)
Lemma string_len_ind (P : string → Prop) :
  (∀ s, (∀ t, (String.length t < String.length s)%nat → P t) → P s) → ∀ s, P s.
Proof.
  intros H s. remember (String.length s) as n eqn:E. revert s E.
  induction n as [n IH] using lt_wf_ind. intros s ->. apply H. intros t Ht. by eapply IH.
Qed.

Lemma from_utf8_lossy_valid s : valid_utf8 s = true → from_utf8_lossy s = s.
Proof.
  induction s as [s IH] using string_len_ind. destruct s as [|b0 s1]; [done|].
  cbn [valid_utf8 from_utf8_lossy].
  destruct (utf8_width b0) as [|[|[|[|[|]]]]]; try done.
  - intros Hv. f_equal. apply IH; [cbn; lia|done].
  - destruct s1 as [|b1 s2]; [done|]. intros [-> Hv]%andb_true_iff. do 2 f_equal.
    apply IH; [cbn; lia|done].
  - destruct s1 as [|b1 [|b2 s3]]; [done..|]. rewrite !andb_true_iff. intros [[-> ->] Hv].
    do 3 f_equal. apply IH; [cbn; lia|done].
  - destruct s1 as [|b1 [|b2 [|b3 s4]]]; [done..|]. rewrite !andb_true_iff.
    intros [[[-> ->] ->] Hv]. do 4 f_equal. apply IH; [cbn; lia|done].
Qed.

(** ASCII is UTF-8. *)
Lemma valid_utf8_ascii s : str_all (byte_in 0 127) s = true → valid_utf8 s = true.
Proof.
  induction s as [|c s IH]; [done|]. cbn. intros [Hc Hs]%andb_true_iff.
  unfold utf8_width. rewrite Hc. by apply IH.
Qed.

(** * White space ([char::is_whitespace]) in UTF-8 *)

Definition bytes_of (l : list N) : string := String.concat "" ((λ n, String (ascii_of_N n) "") <$> l).

(** The white-space characters outside ASCII: U+0085, U+00A0, U+1680, U+2000 to
    U+200A, U+2028, U+2029, U+202F, U+205F and U+3000. *)
Definition wide_spaces : list string :=
  bytes_of <$> ([[194; 133]; [194; 160]; [225; 154; 128]]
    ++ ((λ n, [226; 128; n]) <$> [128; 129; 130; 131; 132; 133; 134; 135; 136; 137; 138; 168; 169; 175])
    ++ [[226; 129; 159]; [227; 128; 128]]).

Definition ascii_space (c : ascii) : bool := byte_in 9 13 c || Ascii.eqb c " ".

Fixpoint strip_any (ps : list string) (s : string) : option string :=
  match ps with
  | [] => None
  | p :: ps' => match strip_prefix p s with Some r => Some r | None => strip_any ps' s end
  end.

(** What follows the white-space character a text starts with. *)
Definition ws_head (s : string) : option string :=
  match s with
  | "" => None
  | String c s' => if ascii_space c then Some s' else strip_any wide_spaces s
  end.

(** [str::trim_start] and [str::trim] on UTF-8; the length is enough fuel. *)
Fixpoint utrim_start_loop (fuel : nat) (s : string) : string :=
  match fuel with
  | O => s
  | S fuel' => match ws_head s with Some r => utrim_start_loop fuel' r | None => s end
  end.
Definition utrim_start (s : string) : string := utrim_start_loop (String.length s) s.

Fixpoint utrim_end (s : string) : string :=
  match s with
  | "" => ""
  | String c s' => if String.eqb (utrim_start s) "" then "" else String c (utrim_end s')
  end.

Definition utrim (s : string) : string := utrim_end (utrim_start s).

(** [s.split_whitespace().next()]. *)
Fixpoint until_ws (s : string) : string :=
  match s with
  | "" => ""
  | String c s' => match ws_head s with Some _ => "" | None => String c (until_ws s') end
  end.
Definition first_word (s : string) : option string :=
  let w := until_ws (utrim_start s) in if String.eqb w "" then None else Some w.

(** * Trimming ASCII text *)

Definition graph_char (c : ascii) : bool := byte_in 33 126 c.
Definition plain_char (c : ascii) : bool := byte_in 0 127 c.

Lemma strip_any_ascii c s : plain_char c = true → strip_any wide_spaces (String c s) = None.
Proof.
  unfold plain_char, byte_in. intros Hc.
  destruct (Ascii.eqb_spec c (ascii_of_N 194)) as [->|H1]; [done|].
  destruct (Ascii.eqb_spec c (ascii_of_N 225)) as [->|H2]; [done|].
  destruct (Ascii.eqb_spec c (ascii_of_N 226)) as [->|H3]; [done|].
  destruct (Ascii.eqb_spec c (ascii_of_N 227)) as [->|H4]; [done|].
  assert (∀ p d, p = String d (str_drop 1 p) → d ≠ c → strip_prefix p (String c s) = None) as Hno.
  { intros p d -> Hd. cbn. by rewrite (proj2 (Ascii.eqb_neq _ _)). }
  unfold wide_spaces. cbn [fmap list_fmap app strip_any].
  repeat (erewrite Hno by (done || congruence)). done.
Qed.

Lemma ws_head_ascii c s :
  plain_char c = true → ws_head (String c s) = if ascii_space c then Some s else None.
Proof. intros. cbn [ws_head]. destruct (ascii_space c); [done|]. by apply strip_any_ascii. Qed.

Lemma graph_plain c : graph_char c = true → plain_char c = true.
Proof. by destruct c as [[] [] [] [] [] [] [] []]. Qed.
Lemma graph_not_space c : graph_char c = true → ascii_space c = false.
Proof. by destruct c as [[] [] [] [] [] [] [] []]. Qed.

Lemma utrim_start_graph c s : graph_char c = true → utrim_start (String c s) = String c s.
Proof.
  intros Hc. unfold utrim_start. cbn [String.length utrim_start_loop].
  rewrite ws_head_ascii by (by apply graph_plain). by rewrite graph_not_space.
Qed.

Lemma utrim_start_spaces w s :
  str_all ascii_space w = true → utrim_start (w +:+ s) = utrim_start s.
Proof.
  intros Hw. induction w as [|c w IH]; [done|]. cbn in Hw. apply andb_true_iff in Hw as [Hc Hw].
  rewrite str_app_cons. unfold utrim_start at 1. cbn [String.length utrim_start_loop ws_head].
  rewrite Hc. by apply IH.
Qed.

Lemma utrim_start_blank w : str_all ascii_space w = true → utrim_start w = "".
Proof. intros Hw. rewrite <- (str_app_nil_r w). by rewrite utrim_start_spaces. Qed.

(** Text that holds a visible character is not trimmed away. *)
Lemma utrim_start_inner a c b :
  str_all plain_char a = true → graph_char c = true → utrim_start (a +:+ String c b) ≠ "".
Proof.
  intros Ha Hc. induction a as [|x a IH].
  - change ("" +:+ String c b) with (String c b). by rewrite utrim_start_graph.
  - cbn in Ha. apply andb_true_iff in Ha as [Hx Ha]. rewrite str_app_cons.
    unfold utrim_start. cbn [String.length utrim_start_loop]. rewrite ws_head_ascii by done.
    destruct (ascii_space x); [by apply IH|done].
Qed.

Lemma utrim_end_graph a c w :
  str_all plain_char a = true → graph_char c = true → str_all ascii_space w = true →
  utrim_end (a +:+ String c w) = a +:+ String c "".
Proof.
  intros Ha Hc Hw. induction a as [|x a IH].
  - change ("" +:+ ?x) with x. cbn [utrim_end]. rewrite utrim_start_graph by done.
    rewrite (proj2 (String.eqb_neq _ _)) by done. f_equal.
    destruct w as [|y w]; [done|]. cbn [utrim_end].
    by rewrite utrim_start_blank.
  - cbn in Ha. apply andb_true_iff in Ha as [Hx Ha]. rewrite !str_app_cons. cbn [utrim_end].
    rewrite <- str_app_cons, (proj2 (String.eqb_neq _ _)), IH; [done|done|].
    apply utrim_start_inner; [|done]. cbn. by rewrite Hx, Ha.
Qed.

(** A text is empty or has a last character. *)
Lemma string_rev_case s : s = "" ∨ ∃ m d, s = m +:+ String d "".
Proof.
  induction s as [|c s [->|(m & d & ->)]]; [by left|right..].
  - by exists "", c.
  - by exists (String c m), d.
Qed.

(** A word: visible ends, ASCII in between. *)
Definition word_like (s : string) : Prop :=
  ∃ c d m, graph_char c = true ∧ graph_char d = true ∧ str_all plain_char m = true ∧
           (s = String c "" ∨ s = String c (m +:+ String d "")).

Lemma utrim_word w s w' :
  word_like s → str_all ascii_space w = true → str_all ascii_space w' = true →
  utrim (w +:+ s +:+ w') = s.
Proof.
  intros (c & d & m & Hc & Hd & Hm & Hs) Hw Hw'. unfold utrim.
  rewrite utrim_start_spaces by done. destruct Hs as [->| ->].
  - rewrite str_app_cons, utrim_start_graph by done. by apply (utrim_end_graph "").
  - rewrite str_app_cons, utrim_start_graph by done.
    rewrite str_app_assoc, <- str_app_cons.
    change (String d "" +:+ w') with (String d w').
    rewrite utrim_end_graph; [done| |done|done]. cbn. by rewrite Hm, graph_plain.
Qed.

Lemma until_ws_graph s : str_all graph_char s = true → until_ws s = s.
Proof.
  induction s as [|c s IH]; [done|]. cbn [str_all]. intros [Hc Hs]%andb_true_iff.
  cbn [until_ws]. rewrite ws_head_ascii by (by apply graph_plain).
  rewrite graph_not_space by done. by rewrite IH.
Qed.

Lemma first_word_graph s : s ≠ "" → str_all graph_char s = true → first_word s = Some s.
Proof.
  intros Hne Hs. unfold first_word. destruct s as [|c s]; [done|].
  assert (graph_char c = true) as Hc by (cbn in Hs; by apply andb_true_iff in Hs as [? _]).
  by rewrite utrim_start_graph, until_ws_graph.
Qed.

Lemma word_like_graph s : s ≠ "" → str_all graph_char s = true → word_like s.
Proof.
  intros Hne Hs. destruct s as [|c s]; [done|]. cbn in Hs. apply andb_true_iff in Hs as [Hc Hs].
  clear Hne. destruct (string_rev_case s) as [->|(m & d & ->)].
  - exists c, c, "". naive_solver.
  - rewrite str_all_app in Hs. apply andb_true_iff in Hs as [Hm Hd]. cbn in Hd.
    rewrite andb_true_r in Hd. exists c, d, m. split_and!; [done..| |by right].
    eapply str_all_impl; [|done]. apply graph_plain.
Qed.

Lemma word_like_first s :
  word_like s → ∃ c s', s = String c s' ∧ graph_char c = true ∧ str_all plain_char s' = true.
Proof.
  intros (c & d & m & Hc & Hd & Hm & [->| ->]); exists c.
  - by exists "".
  - exists (m +:+ String d ""). split_and!; [done..|].
    rewrite str_all_app. cbn [str_all]. by rewrite Hm, graph_plain.
Qed.

Lemma word_like_last s :
  word_like s → ∃ m d, s = m +:+ String d "" ∧ graph_char d = true ∧ str_all plain_char m = true.
Proof.
  intros (c & d & m & Hc & Hd & Hm & [->| ->]).
  - by exists "", c.
  - exists (String c m), d. split_and!; [done..|]. cbn [str_all]. by rewrite Hm, graph_plain.
Qed.

Lemma word_like_app a m b :
  word_like a → str_all plain_char m = true → word_like b → word_like (a +:+ m +:+ b).
Proof.
  intros (c & a' & -> & Hc & Ha)%word_like_first Hm (b' & d & -> & Hd & Hb)%word_like_last.
  exists c, d, (a' +:+ m +:+ b'). split_and!; [done..| |].
  - by rewrite !str_all_app, Ha, Hm, Hb.
  - right. by rewrite str_app_cons, !str_app_assoc.
Qed.

Lemma word_like_plain s : word_like s → str_all plain_char s = true.
Proof.
  intros (c & s' & -> & Hc & Hs)%word_like_first. cbn [str_all]. by rewrite Hs, graph_plain.
Qed.

Lemma utrim_word_id s : word_like s → utrim s = s.
Proof.
  intros Hs. rewrite <- (utrim_word "" s "" Hs) at 2 by done.
  change ("" +:+ ?x) with x. by rewrite str_app_nil_r.
Qed.
