(* ===== verification/Net.v ===== *)
(** Internet addresses: [std::net::IpAddr], an address being its bits, and
    the networks of the [ipnet] crate as a class of operations. *)
From S2P Require Import Prelude RustStr.

Inductive IpAddr :=
  | V4 (bits : N)
  | V6 (bits : N).

#[global] Instance IpAddr_eq_dec : EqDecision IpAddr.
Proof. solve_decision. Defined.

(** [Ipv6Addr::to_ipv4_mapped]: [::ffff:a.b.c.d]. *)
Definition to_ipv4_mapped (bits : N) : option N :=
  if N.shiftr bits 32 =? 65535 then Some (N.land bits 4294967295) else None.

Class IpNets := {
  ip_net : Type;
  net_contains : ip_net → IpAddr → bool;
}.

(** * Network byte order *)

(** [n] big-endian octets. *)
Fixpoint octets (n : nat) (bits : N) : string :=
  match n with
  | O => ""
  | S n' => octets n' (bits / 256) +:+ String (ascii_of_N (bits mod 256)) ""
  end.

(** [from_be_bytes]. *)
Fixpoint be_value_from (acc : N) (s : string) : N :=
  match s with
  | "" => acc
  | String c s' => be_value_from (acc * 256 + N_of_ascii c) s'
  end.
Definition be_value (s : string) : N := be_value_from 0 s.

Lemma octets_length n bits : String.length (octets n bits) = n.
Proof.
  revert bits. induction n as [|n IH]; intros bits; [done|]. cbn. rewrite str_length_app, IH. cbn. lia.
Qed.

Lemma be_value_app acc s c :
  be_value_from acc (s +:+ String c "") = be_value_from acc s * 256 + N_of_ascii c.
Proof. revert acc. induction s as [|d s IH]; intros acc; [done|]. rewrite str_app_cons. cbn. apply IH. Qed.

Lemma be_value_octets n bits : bits < 256 ^ N.of_nat n → be_value (octets n bits) = bits.
Proof.
  unfold be_value. revert bits. induction n as [|n IH]; intros bits Hb; [cbn in *; lia|].
  cbn [octets]. rewrite be_value_app, IH.
  - rewrite N_ascii_embedding by (apply N.mod_lt; lia). rewrite N.mul_comm. symmetry.
    apply N.div_mod. lia.
  - rewrite Nat2N.inj_succ, N.pow_succ_r' in Hb. apply N.Div0.div_lt_upper_bound. done.
Qed.

(** Bytes [a], [a + 1], ... of a block as a number. *)
Definition field (a n : nat) (block : string) : N := be_value (str_take n (str_drop a block)).

Lemma field_app m n a b c :
  m = String.length a → n = String.length b → field m n (a +:+ b +:+ c) = be_value b.
Proof. intros -> ->. unfold field. by rewrite str_drop_app, str_take_app. Qed.

Lemma field_prefix m n a b : (m + n ≤ String.length a)%nat → field m n (a +:+ b) = field m n a.
Proof.
  intros Hl. unfold field. rewrite str_drop_app_le by lia. rewrite str_take_app_le; [done|].
  rewrite length_str_drop. lia.
Qed.

Lemma field_octets m n a bits c :
  m = String.length a → bits < 256 ^ N.of_nat n → field m n (a +:+ octets n bits +:+ c) = bits.
Proof. intros Hm Hb. rewrite field_app; [by apply be_value_octets|done|by rewrite octets_length]. Qed.

Lemma field_octets_last m n a bits :
  m = String.length a → bits < 256 ^ N.of_nat n → field m n (a +:+ octets n bits) = bits.
Proof. intros. rewrite <- (str_app_nil_r (octets n bits)). by apply field_octets. Qed.

