(* ===== verification/Http.v ===== *)
(** The interface to the [http] crate: header values, header names and the
    multi-valued [HeaderMap], as a class of operations ([Http]) with the
    documented laws ([HttpLaws]) the program relies on.  The crate's code is
    not part of the repository, so every component is developed against the
    class; [assoc_http] is a concrete instance on association lists that
    satisfies the laws and lets examples run.

    A [HeaderName] is its canonical (lower-case) text. *)
From S2P Require Import Prelude RustStr.

(** * Operations and laws *)

Abbreviation HeaderName := string (only parsing).

Class Http := {
  header_value : Type;
  header_map : Type;
  hv_as_bytes : header_value → string;
  hv_to_str : header_value → option string;
  hv_from_str : string → option header_value;
  hn_from_bytes : string → option HeaderName;
  hm_new : header_map;
  hm_iter : header_map → list (HeaderName * header_value);
  hm_get : header_map → HeaderName → option header_value;
  hm_get_all : header_map → HeaderName → list header_value;
  hm_contains_key : header_map → HeaderName → bool;
  hm_insert : header_map → HeaderName → header_value → header_map;
  hm_append : header_map → HeaderName → header_value → header_map;
  hm_remove : header_map → HeaderName → header_map;
}.

Class HttpLaws `{Http} : Prop := {
  hv_to_str_bytes v s : hv_to_str v = Some s → hv_as_bytes v = s;
  hv_from_str_bytes s v : hv_from_str s = Some v → hv_as_bytes v = s;
  hv_from_str_digits s : str_all is_digit s = true → is_Some (hv_from_str s);
  hv_from_str_to_str_digits s v :
    str_all is_digit s = true → hv_from_str s = Some v → hv_to_str v = Some s;
  hm_get_all_new k : hm_get_all hm_new k = [];
  hm_get_all_iter h k :
    hm_get_all h k = (filter (λ kv, kv.1 = k) (hm_iter h)).*2;
  hm_get_head h k : hm_get h k = head (hm_get_all h k);
  hm_contains_key_get_all h k :
    hm_contains_key h k = bool_decide (hm_get_all h k ≠ []);
  hm_get_all_insert_eq h k v : hm_get_all (hm_insert h k v) k = [v];
  hm_get_all_insert_ne h k k' v :
    k ≠ k' → hm_get_all (hm_insert h k v) k' = hm_get_all h k';
  hm_get_all_append_eq h k v : hm_get_all (hm_append h k v) k = hm_get_all h k ++ [v];
  hm_get_all_append_ne h k k' v :
    k ≠ k' → hm_get_all (hm_append h k v) k' = hm_get_all h k';
  hm_get_all_remove_eq h k : hm_get_all (hm_remove h k) k = [];
  hm_get_all_remove_ne h k k' :
    k ≠ k' → hm_get_all (hm_remove h k) k' = hm_get_all h k';
}.

Create Rewrite HintDb http.
#[global] Hint Rewrite @hm_get_all_new @hm_get_all_insert_eq @hm_get_all_append_eq
  @hm_get_all_remove_eq using typeclasses eauto : http.
#[global] Hint Rewrite @hm_get_all_insert_ne @hm_get_all_append_ne
  @hm_get_all_remove_ne using (typeclasses eauto || done || congruence) : http.

(** ** The dates of the [httpdate] crate

    A [SystemTime] is its offset from the Unix epoch in nanoseconds. *)
Abbreviation SystemTime := Z (only parsing).

Class HttpDate := {
  parse_http_date : string → option SystemTime;
  fmt_http_date : SystemTime → string;
}.

(** * Header names used by the program *)

Definition AGE : HeaderName := "age".
Definition AUTHORIZATION : HeaderName := "authorization".
Definition CACHE_CONTROL : HeaderName := "cache-control".
Definition CONTENT_ENCODING : HeaderName := "content-encoding".
Definition CONTENT_LENGTH : HeaderName := "content-length".
Definition CONTENT_TYPE : HeaderName := "content-type".
Definition COOKIE : HeaderName := "cookie".
Definition DATE : HeaderName := "date".
Definition ETAG : HeaderName := "etag".
Definition EXPIRES : HeaderName := "expires".
Definition HOST : HeaderName := "host".
Definition IF_MODIFIED_SINCE : HeaderName := "if-modified-since".
Definition IF_NONE_MATCH : HeaderName := "if-none-match".
Definition LAST_MODIFIED : HeaderName := "last-modified".
Definition SET_COOKIE : HeaderName := "set-cookie".
Definition VARY : HeaderName := "vary".

(** * Responses *)

(** A body is a stream: collecting it yields its bytes or fails. *)
Inductive Body :=
  | Full (bytes : string)
  | Failing.

Record HttpResponse `{Http} := {
  resp_status : N;
  resp_headers : header_map;
  resp_body : Body;
}.

(** [headers.get(name).and_then(|v| v.to_str().ok())]: the first value of a
    header as text. *)
Definition get_str `{Http} (h : header_map) (k : HeaderName) : option string :=
  v ← hm_get h k; hv_to_str v.

Section laws.
Context `{HttpLaws}.

Lemma hm_get_insert_eq h k v : hm_get (hm_insert h k v) k = Some v.
Proof. by rewrite hm_get_head, hm_get_all_insert_eq. Qed.

Lemma hm_get_insert_ne h k k' v : k ≠ k' → hm_get (hm_insert h k v) k' = hm_get h k'.
Proof. intros. by rewrite !hm_get_head, hm_get_all_insert_ne. Qed.

Lemma get_str_insert_ne h k k' v : k ≠ k' → get_str (hm_insert h k v) k' = get_str h k'.
Proof. intros. unfold get_str. by rewrite hm_get_insert_ne. Qed.

Lemma hm_get_remove_eq h k : hm_get (hm_remove h k) k = None.
Proof. by rewrite hm_get_head, hm_get_all_remove_eq. Qed.

Lemma hm_contains_key_remove h k : hm_contains_key (hm_remove h k) k = false.
Proof.
  rewrite hm_contains_key_get_all, hm_get_all_remove_eq. done.
Qed.

Lemma hm_contains_key_false h k : hm_contains_key h k = false ↔ hm_get_all h k = [].
Proof.
  rewrite hm_contains_key_get_all, bool_decide_eq_false.
  destruct (hm_get_all h k); naive_solver.
Qed.

(** Two maps with the same values for a name agree on every read of it. *)
Lemma get_str_get_all h h' k :
  hm_get_all h k = hm_get_all h' k → get_str h k = get_str h' k.
Proof. intros E. unfold get_str. by rewrite !hm_get_head, E. Qed.

End laws.

(** * A concrete instance *)

(** Bytes a header value may hold: visible ASCII and the tab for [to_str];
    additionally the opaque bytes above 127 for [from_str]. *)
Definition visible (c : ascii) : bool :=
  let n := N_of_ascii c in ((32 <=? n) && (n <=? 126)) || (n =? 9).
Definition value_byte (c : ascii) : bool :=
  let n := N_of_ascii c in ((32 <=? n) && negb (n =? 127)) || (n =? 9).

(** [HeaderValue::from_static] and [parse]: visible text is a value that reads
    back as that text. *)
Class HttpTextLaws `{Http} : Prop := {
  hv_from_str_visible s : str_all visible s = true →
    ∃ v, hv_from_str s = Some v ∧ hv_to_str v = Some s;
  hv_to_str_visible v s : hv_to_str v = Some s → str_all visible s = true;
}.

(** The [tchar]s of a header name. *)
Definition token_char (c : ascii) : bool :=
  let n := N_of_ascii c in
  ((48 <=? n) && (n <=? 57)) || ((65 <=? n) && (n <=? 90)) ||
  ((97 <=? n) && (n <=? 122)) || contains_char c "!#$%&'*+-.^_`|~".

#[global] Instance assoc_http : Http := {
  header_value := string;
  header_map := list (string * string);
  hv_as_bytes v := v;
  hv_to_str v := if str_all visible v then Some v else None;
  hv_from_str s := if str_all value_byte s then Some s else None;
  hn_from_bytes s :=
    if negb (is_empty s) && str_all token_char s
    then Some (to_ascii_lowercase s) else None;
  hm_new := [];
  hm_iter h := h;
  hm_get h k := head ((filter (λ kv, kv.1 = k) h).*2);
  hm_get_all h k := (filter (λ kv, kv.1 = k) h).*2;
  hm_contains_key h k := bool_decide ((filter (λ kv, kv.1 = k) h).*2 ≠ []);
  hm_insert h k v := filter (λ kv, kv.1 ≠ k) h ++ [(k, v)];
  hm_append h k v := h ++ [(k, v)];
  hm_remove h k := filter (λ kv, kv.1 ≠ k) h;
}.

Lemma filter_key_ne (h : list (string * string)) k k' :
  k ≠ k' →
  filter (λ kv, kv.1 = k') (filter (λ kv, kv.1 ≠ k) h) = filter (λ kv, kv.1 = k') h.
Proof.
  intros. rewrite list_filter_filter. apply list_filter_iff. intros [a b]; cbn. intuition congruence.
Qed.

Lemma filter_key_eq (h : list (string * string)) k :
  filter (λ kv, kv.1 = k) (filter (λ kv, kv.1 ≠ k) h) = [].
Proof.
  induction h as [|[a b] h IH]; [done|]. rewrite filter_cons.
  case_decide; [|done]. rewrite filter_cons. by rewrite decide_False.
Qed.

#[global] Instance assoc_http_laws : HttpLaws (H := assoc_http).
Proof.
  split; cbn.
  - intros v s. case_match; naive_solver.
  - intros s v. case_match; naive_solver.
  - intros s Hs. rewrite (str_all_impl is_digit value_byte); [eauto| |done].
    by intros [[] [] [] [] [] [] [] []].
  - intros s v Hs. case_match; [|done]. intros [= ->].
    rewrite (str_all_impl is_digit visible); [done| |done].
    by intros [[] [] [] [] [] [] [] []].
  - done.
  - done.
  - done.
  - done.
  - intros h k v. rewrite filter_app, filter_key_eq. cbn. by rewrite decide_True.
  - intros h k k' v Hk. rewrite filter_app, filter_key_ne by done.
    cbn. rewrite decide_False by done. by rewrite app_nil_r.
  - intros h k v. rewrite filter_app, fmap_app. cbn. by rewrite decide_True.
  - intros h k k' v Hk. rewrite filter_app, fmap_app.
    cbn. rewrite decide_False by done. by rewrite app_nil_r.
  - intros h k. by rewrite filter_key_eq.
  - intros h k k' Hk. by rewrite filter_key_ne.
Qed.

#[global] Instance assoc_http_text : HttpTextLaws (H := assoc_http).
Proof.
  split.
  - intros s Hs. exists s. cbn. rewrite Hs. split; [|done].
    rewrite (str_all_impl visible value_byte); [done| |done]. by intros [[] [] [] [] [] [] [] []].
  - intros v s. cbn. case_match; [|done]. by intros [= <-].
Qed.

(** Dates written as decimal seconds, for examples. *)
Definition dec_dates : HttpDate := {|
  parse_http_date s := (λ n, Z.of_N (from_secs n)) <$> parse_uint u64_max s;
  fmt_http_date t := dec (as_secs (Z.to_N t));
|}.
