(* ===== verification/Errors.v ===== *)
(** Building responses: the [http] crate's response builder as the program
    uses it, and the fixed responses and error pages of [src/error.rs].

    A builder remembers the first refused part and fails at [body]; the
    program turns that into a panic with [expect], so a response is an
    [option] here and the theorems say when it is there. *)
From S2P Require Import Prelude RustStr Http.

Module Errors.

(** A configured error page: read from disk on every use, or inline. *)
Inductive ErrorPageEntry :=
  | PageFile (path : string)
  | PageInline (html : string).

Abbreviation ErrorPages := (gmap N ErrorPageEntry).

Section errors.
Context `{Http}.

(** * The builder *)

(** The headers are [None] once a part has been refused. *)
Record Builder := {
  b_status : N;
  b_headers : option header_map;
}.

Definition builder : Builder := {| b_status := 200; b_headers := Some hm_new |}.

Definition valid_status (code : N) : bool := (100 <=? code) && (code <=? 999).

Definition builder_status (b : Builder) (code : N) : Builder :=
  {| b_status := code; b_headers := if valid_status code then b_headers b else None |}.

Definition builder_header (b : Builder) (key val : string) : Builder :=
  {| b_status := b_status b;
     b_headers := h ← b_headers b; n ← hn_from_bytes key; v ← hv_from_str val;
                  Some (hm_append h n v) |}.

Definition builder_body (b : Builder) (body : string) : option HttpResponse :=
  h ← b_headers b;
  Some {| resp_status := b_status b; resp_headers := h; resp_body := Full body |}.

(** [Response::builder().status(code).header(..)...body(..)]. *)
Definition build (code : N) (headers : list (string * string)) (body : string)
    : option HttpResponse :=
  builder_body (fold_left (λ b kv, builder_header b (fst kv) (snd kv)) headers
                  (builder_status builder code)) body.

(** * Fixed responses *)

Definition html_type : string * string := ("Content-Type", "text/html; charset=utf-8").

Definition html_response (status : N) (body : string) : option HttpResponse :=
  build status [html_type] body.

Definition response_400 := html_response 400 "<h1>400 Bad Request</h1>".
Definition response_403 := html_response 403 "<h1>403 Forbidden</h1>".
Definition response_404 := html_response 404 "<h1>404 Not Found</h1>".
Definition response_500 := html_response 500 "<h1>500 Internal Server Error</h1>".
Definition response_502 := html_response 502 "<h1>502 Bad Gateway</h1>".
Definition response_413 := html_response 413 "<h1>413 Content Too Large</h1>".

Definition response_429 (retry_after_secs : N) : option HttpResponse :=
  build 429 [("Retry-After", dec retry_after_secs); html_type] "<h1>429 Too Many Requests</h1>".

Definition response_503_retry (secs : N) : option HttpResponse :=
  build 503 [("Retry-After", dec secs); html_type] "<h1>503 Service Unavailable</h1>".

Definition response_redirect (to : string) (code : N) : option HttpResponse :=
  build code [("Location", to)] "".

(** * Error pages *)

(** The file is read on every use: [read_file] is the file system now. *)
Definition page_get (read_file : string → option string) (pages : ErrorPages) (code : N)
    : option string :=
  e ← pages !! code;
  match e with
  | PageInline b => Some b
  | PageFile path => read_file path
  end.

Definition error_body (read_file : string → option string) (pages : option ErrorPages)
    (code : N) (fallback : string) : string :=
  default fallback (p ← pages; page_get read_file p code).

Definition response_status (read_file : string → option string) (code : N)
    (pages : option ErrorPages) : option HttpResponse :=
  let body := error_body read_file pages code ("<h1>" +:+ dec code +:+ "</h1>") in
  match build code [html_type] body with
  | Some r => Some r
  | None => build 403 [html_type] "<h1>403 Forbidden</h1>"
  end.

(** The two [replace] calls on the realm: backslashes first, then quotes. *)
Definition quote : ascii := ascii_of_N 34.
Definition backslash : ascii := ascii_of_N 92.
Fixpoint replace_char (c : ascii) (by_ s : string) : string :=
  match s with
  | "" => ""
  | String x s' => if Ascii.eqb x c then by_ +:+ replace_char c by_ s'
                   else String x (replace_char c by_ s')
  end.
Definition escape_realm (realm : string) : string :=
  replace_char quote (String backslash (String quote ""))
    (replace_char backslash (String backslash (String backslash "")) realm).

Definition basic_challenge (realm : string) : string :=
  "Basic realm=" +:+ String quote (escape_realm realm +:+ String quote "").

Definition response_www_auth (read_file : string → option string) (realm : string)
    (pages : option ErrorPages) : option HttpResponse :=
  build 401 [("WWW-Authenticate", basic_challenge realm); html_type]
    (error_body read_file pages 401 "<h1>401 Unauthorized</h1>").

(** * Lemmas *)

Lemma fold_failed l b :
  b_headers b = None →
  b_headers (fold_left (λ b kv, builder_header b (fst kv) (snd kv)) l b) = None.
Proof.
  revert b. induction l as [|kv l IH]; intros b Hb; [done|]. apply IH. cbn. by rewrite Hb.
Qed.

Lemma fold_status l b :
  b_status (fold_left (λ b kv, builder_header b (fst kv) (snd kv)) l b) = b_status b.
Proof. revert b. induction l as [|kv l IH]; intros b; [done|]. cbn. by rewrite IH. Qed.

Lemma build_inv code l body r :
  build code l body = Some r →
  resp_status r = code ∧ resp_body r = Full body ∧ valid_status code = true.
Proof.
  unfold build, builder_body. intros (h & Hh & [= <-])%bind_Some. cbn.
  rewrite fold_status. cbn. split_and!; [done..|].
  destruct (valid_status code) eqn:E; [done|].
  by rewrite fold_failed in Hh by (cbn; by rewrite E).
Qed.

Lemma build_is_Some code l body :
  valid_status code = true →
  (∀ k v, (k, v) ∈ l → is_Some (hn_from_bytes k) ∧ is_Some (hv_from_str v)) →
  is_Some (build code l body).
Proof.
  intros Hc Hl. unfold build, builder_body.
  assert (is_Some (b_headers (builder_status builder code))) as Hb by (cbn; rewrite Hc; eauto).
  revert Hb Hl. generalize (builder_status builder code) as b.
  induction l as [|[k v] l IH]; intros b [h Hh] Hl; cbn.
  - rewrite Hh. cbn. eauto.
  - apply IH; [|set_solver]. cbn. rewrite Hh. cbn.
    destruct (Hl k v) as [[n ->] [w ->]]; [set_solver|]. cbn. eauto.
Qed.

(** ** Quoted strings *)

(** The receiver's reading of a quoted string: a backslash quotes the next
    byte, the first bare quote ends it. *)
Fixpoint unquote (s : string) : option (string * string) :=
  match s with
  | "" => None
  | String c s' =>
      if Ascii.eqb c quote then Some ("", s')
      else if Ascii.eqb c backslash then
        match s' with
        | "" => None
        | String d s'' => '(a, b) ← unquote s''; Some (String d a, b)
        end
      else '(a, b) ← unquote s'; Some (String c a, b)
  end.

Lemma escape_realm_cons c s :
  escape_realm (String c s) =
  (if Ascii.eqb c quote || Ascii.eqb c backslash
   then String backslash (String c (escape_realm s)) else String c (escape_realm s)).
Proof.
  unfold escape_realm. cbn [replace_char].
  destruct (Ascii.eqb_spec c backslash) as [->|Hb]; cbn [orb].
  - rewrite orb_true_r. done.
  - rewrite orb_false_r. cbn [replace_char].
    destruct (Ascii.eqb_spec c quote) as [->|Hq]; [done|done].
Qed.

Lemma unquote_escape s rest :
  unquote (escape_realm s +:+ String quote rest) = Some (s, rest).
Proof.
  induction s as [|c s IH]; [done|]. rewrite escape_realm_cons.
  destruct (Ascii.eqb_spec c quote) as [->|Hq]; cbn [orb].
  { rewrite !str_app_cons. cbn [unquote]. by rewrite IH. }
  destruct (Ascii.eqb_spec c backslash) as [->|Hb].
  { rewrite !str_app_cons. cbn [unquote]. by rewrite IH. }
  rewrite str_app_cons. cbn [unquote].
  rewrite (proj2 (Ascii.eqb_neq _ _)) by done. rewrite (proj2 (Ascii.eqb_neq _ _)) by done.
  by rewrite IH.
Qed.

End errors.
End Errors.
