(* ===== verification/CacheEntry.v ===== *)
(** Stored responses ([src/cache/entry.rs]): what is kept of a response, its
    freshness clock, [Vary] matching, conditional requests, and the refresh
    after a successful revalidation.  Rebuilding a response adds two
    durations, which panics on overflow in the source: the operations that
    do so return [option], [None] being the panic. *)
From S2P Require Import Prelude RustStr Http.

Module Entry.

Definition SKIP_ON_STORE : list string :=
  ["connection"; "keep-alive"; "proxy-authenticate"; "proxy-authorization";
   "te"; "trailers"; "transfer-encoding"; "upgrade"; "age"].

(** One cached response variant. *)
Record StoredResponse `{Http} := {
  status : N;
  headers : header_map;
  body : string;
  stored_at : Instant;
  freshness_lifetime : Duration;
  initial_age : Duration;
  etag : option string;
  last_modified : option SystemTime;
  vary : list (HeaderName * option string);
  swr : Duration;
  sie : Duration;
  size : N;
}.

(** Strip a leading [W/] so weak and strong forms compare equal. *)
Definition strip_weak (tag : string) : string := default tag (strip_prefix "W/" tag).

(** [If-None-Match] against the stored tag, by weak comparison. *)
Definition if_none_match_hits (inm : string) (etag : option string) : bool :=
  let inm := trim inm in
  if String.eqb inm "*" then bool_decide (is_Some etag)
  else match etag with
       | None => false
       | Some etag =>
           let want := strip_weak etag in
           existsb (λ t, String.eqb (strip_weak (trim t)) want) (split "," inm)
       end.

Section entry.
Context `{Http} `{HttpDate}.

(** The loop of [new] that copies the headers to replay. *)
Definition keep_headers (src : header_map) : header_map :=
  fold_left
    (λ h '(name, value),
      if bool_decide (name ∈ SKIP_ON_STORE) then h else hm_append h name value)
    (hm_iter src) hm_new.

Definition header_date (h : header_map) (name : HeaderName) : option SystemTime :=
  s ← get_str h name; parse_http_date s.

Definition new (st : N) (src_headers : header_map) (bytes : string)
    (lifetime init_age : Duration) (vary : list (HeaderName * option string))
    (now : Instant) : StoredResponse :=
  let hs := keep_headers src_headers in
  {| status := st; headers := hs; body := bytes; stored_at := now;
     freshness_lifetime := lifetime; initial_age := init_age;
     etag := get_str hs ETAG; last_modified := header_date hs LAST_MODIFIED;
     vary := vary; swr := 0; sie := 0; size := str_len bytes |}.

Definition with_stale_windows (e : StoredResponse) (swr sie : Duration) : StoredResponse :=
  {| status := status e; headers := headers e; body := body e;
     stored_at := stored_at e; freshness_lifetime := freshness_lifetime e;
     initial_age := initial_age e; etag := etag e;
     last_modified := last_modified e; vary := vary e;
     swr := swr; sie := sie; size := size e |}.

Definition is_fresh (e : StoredResponse) (now : Instant) : bool :=
  since now (stored_at e) <? freshness_lifetime e.

Definition current_age (e : StoredResponse) (now : Instant) : option Duration :=
  duration_add (initial_age e) (since now (stored_at e)).

Definition remaining_freshness (e : StoredResponse) (now : Instant) : Duration :=
  freshness_lifetime e - since now (stored_at e).

Definition staleness (e : StoredResponse) (now : Instant) : Duration :=
  since now (stored_at e) - freshness_lifetime e.

Definition vary_matches (e : StoredResponse) (req_headers : header_map) : bool :=
  forallb (λ '(name, stored), bool_decide (get_str req_headers name = stored)) (vary e).

Definition client_not_modified (e : StoredResponse) (req_headers : header_map) : bool :=
  match get_str req_headers IF_NONE_MATCH with
  | Some inm => if_none_match_hits inm (etag e)
  | None =>
      match last_modified e, header_date req_headers IF_MODIFIED_SINCE with
      | Some stored, Some ims => (stored <=? ims)%Z
      | _, _ => false
      end
  end.

(** Write [Age: <whole seconds>], replacing any prior value. *)
Definition set_age (h : header_map) (age : Duration) : header_map :=
  match hv_from_str (dec (as_secs age)) with
  | Some v => hm_insert h AGE v
  | None => h
  end.

Definition to_response (e : StoredResponse) (now : Instant) : option HttpResponse :=
  age ← current_age e now;
  Some {| resp_status := status e; resp_headers := set_age (headers e) age;
          resp_body := Full (body e) |}.

Definition not_modified_response (e : StoredResponse) (now : Instant) : option HttpResponse :=
  let h := fold_left
    (λ h name, match hm_get (headers e) name with
               | Some v => hm_append h name v
               | None => h
               end) [ETAG; LAST_MODIFIED; CACHE_CONTROL] hm_new in
  age ← current_age e now;
  Some {| resp_status := 304; resp_headers := hm_remove (set_age h age) CONTENT_LENGTH;
          resp_body := Full "" |}.

Definition has_validators (e : StoredResponse) : bool :=
  bool_decide (is_Some (etag e)) || bool_decide (is_Some (last_modified e)).

Definition revalidation_headers (e : StoredResponse) : list (HeaderName * header_value) :=
  match etag e ≫= hv_from_str with
  | Some v => [(IF_NONE_MATCH, v)]
  | None => []
  end ++
  match last_modified e ≫= λ lm, hv_from_str (fmt_http_date lm) with
  | Some v => [(IF_MODIFIED_SINCE, v)]
  | None => []
  end.

Definition overlaid : list HeaderName :=
  [CACHE_CONTROL; DATE; EXPIRES; ETAG; LAST_MODIFIED; VARY].

Definition overlay (update h : header_map) (name : HeaderName) : header_map :=
  match hm_get update name with
  | Some v => hm_insert h name v
  | None => h
  end.

Definition refreshed (e : StoredResponse) (update : header_map)
    (lifetime init_age : Duration) (now : Instant) : StoredResponse :=
  let hs := fold_left (overlay update) overlaid (headers e) in
  {| status := status e; headers := hs; body := body e; stored_at := now;
     freshness_lifetime := lifetime; initial_age := init_age;
     etag := get_str hs ETAG; last_modified := header_date hs LAST_MODIFIED;
     vary := vary e; swr := swr e; sie := sie e; size := size e |}.

(** * Well-formedness: the derived fields agree with what they are derived
    from, and no connection-level header is held. *)
Record entry_wf (e : StoredResponse) : Prop := {
  wf_etag : etag e = get_str (headers e) ETAG;
  wf_last_modified : last_modified e = header_date (headers e) LAST_MODIFIED;
  wf_size : size e = str_len (body e);
  wf_hop : ∀ name, name ∈ SKIP_ON_STORE → hm_get_all (headers e) name = [];
}.

(** * What is stored *)

Section stored.
Context `{!HttpLaws}.

Lemma keep_headers_acc l h k :
  hm_get_all (fold_left
    (λ h '(name, value),
      if bool_decide (name ∈ SKIP_ON_STORE) then h else hm_append h name value) l h) k =
  hm_get_all h k ++
    (if decide (k ∈ SKIP_ON_STORE) then [] else (filter (λ kv, kv.1 = k) l).*2).
Proof.
  revert h. induction l as [|[n v] l IH]; intros h; cbn [fold_left].
  - case_decide; by rewrite app_nil_r.
  - rewrite IH. destruct (decide (n = k)) as [->|Hne].
    + case_bool_decide as Hk.
      * rewrite !decide_True by done. done.
      * rewrite !decide_False, hm_get_all_append_eq by done.
        rewrite filter_cons_True by done. by rewrite <- app_assoc.
    + rewrite (filter_cons_False _ (n, v)) by done.
      case_bool_decide; [done|]. by rewrite hm_get_all_append_ne.
Qed.

(** The headers kept are exactly the end-to-end ones, values in order. *)
Lemma keep_headers_get_all src k :
  hm_get_all (keep_headers src) k =
    if decide (k ∈ SKIP_ON_STORE) then [] else hm_get_all src k.
Proof.
  unfold keep_headers. rewrite keep_headers_acc, hm_get_all_new.
  by rewrite hm_get_all_iter.
Qed.

Lemma overlay_get_all update names h k :
  NoDup names →
  hm_get_all (fold_left (overlay update) names h) k =
    if decide (k ∈ names)
    then match hm_get update k with Some v => [v] | None => hm_get_all h k end
    else hm_get_all h k.
Proof.
  revert h. induction names as [|n names IH]; intros h Hnd; cbn [fold_left].
  - done.
  - apply NoDup_cons in Hnd as [Hn Hnd]. rewrite IH by done. unfold overlay.
    destruct (decide (k = n)) as [->|Hk].
    + rewrite decide_False by done. rewrite decide_True by set_solver.
      destruct (hm_get update n); [|done]. by rewrite hm_get_all_insert_eq.
    + destruct (decide (k ∈ names)).
      * rewrite decide_True by set_solver.
        destruct (hm_get update k); [done|].
        destruct (hm_get update n); [|done]. by rewrite hm_get_all_insert_ne.
      * rewrite decide_False by set_solver.
        destruct (hm_get update n); [|done]. by rewrite hm_get_all_insert_ne.
Qed.

Lemma overlaid_NoDup : NoDup overlaid.
Proof. by apply (bool_decide_unpack _). Qed.

Lemma skip_not_overlaid name : name ∈ SKIP_ON_STORE → name ∉ overlaid.
Proof.
  revert name. apply Forall_forall. by apply (bool_decide_unpack _).
Qed.

Lemma set_age_get_all h age k :
  hm_get_all (set_age h age) k =
    if decide (k = AGE) then default [] (hv_from_str (dec (as_secs age)) ≫= λ v, Some [v])
    else hm_get_all h k.
Proof.
  unfold set_age.
  destruct (hv_from_str_digits (dec (as_secs age)) (dec_digits _)) as [v Hv]. rewrite Hv.
  case_decide; subst; cbn; [by rewrite hm_get_all_insert_eq|].
  by rewrite hm_get_all_insert_ne.
Qed.

Lemma set_age_str h age : get_str (set_age h age) AGE = Some (dec (as_secs age)).
Proof.
  destruct (hv_from_str_digits (dec (as_secs age)) (dec_digits _)) as [v Hv].
  unfold get_str, set_age. rewrite Hv, hm_get_insert_eq. cbn.
  by apply hv_from_str_to_str_digits; [apply dec_digits|].
Qed.

End stored.

(** * Freshness arithmetic *)

Lemma fresh_remaining e now : is_fresh e now = true ↔ 0 < remaining_freshness e now.
Proof. unfold is_fresh, remaining_freshness. rewrite N.ltb_lt. lia. Qed.

Lemma fresh_staleness e now : is_fresh e now = true → staleness e now = 0.
Proof. unfold is_fresh, staleness. rewrite N.ltb_lt. lia. Qed.

Lemma fresh_mono e now now' :
  now ≤ now' → is_fresh e now' = true → is_fresh e now = true.
Proof. unfold is_fresh, since. rewrite !N.ltb_lt. lia. Qed.

(** * Properties *)

Section properties.
Context `{!HttpLaws}.

(** A stored entry is well formed - its validators are the ones its own
    headers carry, its size is its body's length - and holds none of the
    connection-level headers nor [Age], while every other header of the
    response is replayed with all its values in order. *)
Theorem stored_entry_wf st src bytes lifetime init_age vy now w1 w2 :
  let e := with_stale_windows (new st src bytes lifetime init_age vy now) w1 w2 in
  entry_wf e ∧
  ∀ k, k ∉ SKIP_ON_STORE → hm_get_all (headers e) k = hm_get_all src k.
Proof.
  split; [split; try done|].
  - intros k Hk. cbn. by rewrite keep_headers_get_all, decide_True.
  - intros k Hk. cbn. by rewrite keep_headers_get_all, decide_False.
Qed.

(** Refreshing an entry after an origin 304 keeps it well formed, keeps
    status and body, restarts its freshness clock, takes over each metadata
    header the 304 carries and leaves every other header alone. *)
Theorem refreshed_spec e update lifetime init_age now :
  entry_wf e →
  let e' := refreshed e update lifetime init_age now in
  entry_wf e' ∧ status e' = status e ∧ body e' = body e ∧
  (0 < lifetime → is_fresh e' now = true) ∧
  (∀ k, hm_get_all (headers e') k =
     match (if decide (k ∈ overlaid) then hm_get update k else None) with
     | Some v => [v]
     | None => hm_get_all (headers e) k
     end).
Proof.
  intros [He Hlm Hs Hh]. cbn.
  assert (∀ k, hm_get_all (fold_left (overlay update) overlaid (headers e)) k =
     match (if decide (k ∈ overlaid) then hm_get update k else None) with
     | Some v => [v] | None => hm_get_all (headers e) k end) as Hk.
  { intros k. rewrite overlay_get_all by apply overlaid_NoDup. by case_decide. }
  split_and!; [split|..]; try done.
  - intros k Hk'. cbn. rewrite Hk, decide_False by by apply skip_not_overlaid. auto.
  - intros Hl. unfold is_fresh, since; cbn. apply N.ltb_lt. lia.
Qed.

(** When the age does not overflow, a hit replays the stored status and
    body, stamps [Age] with the origin's age plus the time in the cache in
    whole seconds, and changes no other header. *)
Theorem to_response_spec e now :
  initial_age e + since now (stored_at e) ≤ duration_max →
  ∃ r, to_response e now = Some r ∧
    resp_status r = status e ∧ resp_body r = Full (body e) ∧
    get_str (resp_headers r) AGE =
      Some (dec (as_secs (initial_age e + since now (stored_at e)))) ∧
    ∀ k, k ≠ AGE → hm_get_all (resp_headers r) k = hm_get_all (headers e) k.
Proof.
  intros Hle. unfold to_response, current_age, duration_add.
  rewrite decide_True by done. eexists. split; [done|].
  split_and!; try done; cbn.
  - apply set_age_str.
  - intros k Hk. by rewrite set_age_get_all, decide_False.
Qed.

(** The 304 built from an entry has no body and no [Content-Length], and
    the only headers it can carry are the validators, [Cache-Control] and
    [Age]. *)
Theorem not_modified_headers e now r :
  not_modified_response e now = Some r →
  resp_status r = 304 ∧ resp_body r = Full "" ∧
  ∀ k, k ∉ [ETAG; LAST_MODIFIED; CACHE_CONTROL; AGE] → hm_get_all (resp_headers r) k = [].
Proof.
  unfold not_modified_response. destruct (current_age e now) as [age|]; [|done].
  intros [= <-]. split_and!; [done..|]. intros k Hk. cbn.
  assert (k ≠ ETAG ∧ k ≠ LAST_MODIFIED ∧ k ≠ CACHE_CONTROL ∧ k ≠ AGE) as (?&?&?&?)
    by (set_solver).
  destruct (decide (k = CONTENT_LENGTH)) as [->|Hcl]; [by rewrite hm_get_all_remove_eq|].
  rewrite hm_get_all_remove_ne, set_age_get_all, decide_False by done.
  repeat case_match; by rewrite ?hm_get_all_append_ne, ?hm_get_all_new by done.
Qed.

End properties.

(** An origin that reports an [Age] near the top of its range makes the
    cached entry unservable: once the entry has spent a second in the cache,
    computing its current age overflows and the serving task panics. *)
Theorem age_overflow_panics e now :
  initial_age e = from_secs u64_max → stored_at e + nanos_per_sec ≤ now →
  to_response e now = None.
Proof.
  intros Ha Hn. unfold to_response, current_age, duration_add, since. rewrite Ha.
  rewrite decide_False; [done|]. unfold from_secs, duration_max, nanos_per_sec in *. lia.
Qed.

End entry.

(** [If-None-Match] against a stored tag: the wildcard matches any entry
    that has a tag, and otherwise the header matches exactly when one of its
    comma-separated members names the tag, weakness prefixes ignored. *)
Theorem if_none_match_hits_spec inm tag :
  if_none_match_hits inm tag = true ↔
  (trim inm = "*" ∧ is_Some tag) ∨
  (trim inm ≠ "*" ∧ ∃ t m, tag = Some t ∧ m ∈ split "," (trim inm) ∧
     strip_weak (trim m) = strip_weak t).
Proof.
  unfold if_none_match_hits. destruct (String.eqb_spec (trim inm) "*") as [->|Hn].
  - rewrite bool_decide_eq_true. naive_solver.
  - destruct tag as [t|]; [|naive_solver].
    rewrite existsb_exists. setoid_rewrite String.eqb_eq.
    setoid_rewrite <- list_elem_of_In. naive_solver.
Qed.

(** * Examples *)

#[local] Existing Instance dec_dates.

Definition demo_headers : header_map :=
  [("connection", "close"); ("etag", "v1"); ("age", "7"); ("content-type", "text/plain");
   ("last-modified", "100")].

Definition demo_entry : StoredResponse :=
  with_stale_windows (new 200 demo_headers "hello" (from_secs 60) (from_secs 7) [] 1000) 0 0.

Lemma stored_entry_wf_witness :
  entry_wf demo_entry ∧
  ∀ k, k ∉ SKIP_ON_STORE → hm_get_all (headers demo_entry) k = hm_get_all demo_headers k.
Proof.
  apply (stored_entry_wf 200 demo_headers "hello" (from_secs 60) (from_secs 7) [] 1000 0 0).
Defined.

Lemma demo_entry_wf : entry_wf demo_entry.
Proof.
  split; try done. intros name Hn. repeat (apply elem_of_cons in Hn as [->|Hn]; [done|]).
  by apply elem_of_nil in Hn.
Qed.

Lemma refreshed_spec_witness :
  is_fresh (refreshed demo_entry [("etag", "v2")] (from_secs 10) 0 5000) 5000 = true ∧
  hm_get_all (headers (refreshed demo_entry [("etag", "v2")] (from_secs 10) 0 5000)) ETAG = ["v2"].
Proof.
  destruct (refreshed_spec demo_entry [("etag", "v2")] (from_secs 10) 0 5000 demo_entry_wf)
    as (_ & _ & _ & Hf & Hk).
  split; [apply Hf; done|]. rewrite Hk. done.
Defined.

Lemma to_response_spec_witness :
  ∃ r, to_response demo_entry (1000 + from_secs 5) = Some r ∧
       get_str (resp_headers r) AGE = Some "12".
Proof.
  destruct (to_response_spec demo_entry (1000 + from_secs 5)) as (r & Hr & _ & _ & Ha & _).
  - vm_compute. discriminate.
  - exists r. split; [exact Hr|exact Ha].
Defined.

Lemma not_modified_headers_witness :
  ∃ r, not_modified_response demo_entry 1000 = Some r ∧
       resp_status r = 304 ∧ hm_get_all (resp_headers r) CONTENT_LENGTH = [].
Proof.
  destruct (not_modified_response demo_entry 1000) as [r|] eqn:E; [|done].
  exists r. destruct (not_modified_headers demo_entry 1000 r E) as (Hs & _ & Hk).
  split; [done|]. split; [done|]. apply Hk. by apply (bool_decide_unpack _).
Defined.

Definition overflow_entry : StoredResponse :=
  new 200 demo_headers "hello" (from_secs 60) (from_secs u64_max) [] 1000.

Lemma age_overflow_panics_witness :
  is_fresh overflow_entry (1000 + from_secs 2) = true ∧
  to_response overflow_entry (1000 + from_secs 2) = None.
Proof.
  split; [done|]. apply age_overflow_panics; [done|]. vm_compute. discriminate.
Defined.

End Entry.
