(* ===== verification/CacheStore.v ===== *)
(** The process-wide response store ([src/cache/store.rs]): a byte-bounded
    LRU map, its sweeper, and the single-flight registry of fetches.

    The recency list is the [lru] crate's [LruCache]; the class [Lru] holds
    the operations the store calls and [LruLaws] their documented behaviour,
    stated on the iteration order (most recently used first).  The mutexes
    make each method one atomic step; the interleaving of [begin_fetch] with
    the two halves of dropping a [LeaderGuard] (removing the key, closing the
    channel) is a step relation. *)
From S2P Require Import Prelude RustStr Http CacheEntry.

(** * The LRU interface *)

Section assoc.
Context {V : Type}.

Definition assoc (k : string) (l : list (string * V)) : option V :=
  snd <$> head (filter (λ kv, kv.1 = k) l).

Definition remove_key (k : string) (l : list (string * V)) : list (string * V) :=
  filter (λ kv, kv.1 ≠ k) l.

End assoc.

Class Lru (V : Type) := {
  lru : Type;
  lru_unbounded : lru;
  lru_iter : lru → list (string * V);
  lru_len : lru → N;
  lru_get : lru → string → option V * lru;
  lru_put : lru → string → V → option V * lru;
  lru_pop : lru → string → option V * lru;
  lru_pop_lru : lru → option (string * V) * lru;
}.

Class LruLaws {V} `{Lru V} : Prop := {
  lru_iter_new : lru_iter lru_unbounded = [];
  lru_iter_NoDup m : NoDup (lru_iter m).*1;
  lru_len_iter m : lru_len m = N.of_nat (length (lru_iter m));
  lru_get_spec m k :
    (lru_get m k).1 = assoc k (lru_iter m) ∧
    lru_iter (lru_get m k).2 =
      match assoc k (lru_iter m) with
      | Some v => (k, v) :: remove_key k (lru_iter m)
      | None => lru_iter m
      end;
  lru_put_spec m k v :
    (lru_put m k v).1 = assoc k (lru_iter m) ∧
    lru_iter (lru_put m k v).2 = (k, v) :: remove_key k (lru_iter m);
  lru_pop_spec m k :
    (lru_pop m k).1 = assoc k (lru_iter m) ∧
    lru_iter (lru_pop m k).2 = remove_key k (lru_iter m);
  lru_pop_lru_spec m :
    (lru_pop_lru m).1 = last (lru_iter m) ∧
    lru_iter (lru_pop_lru m).2 = removelast (lru_iter m);
}.

(** ** A concrete recency list *)

Section keyed.
Context {V : Type}.
Implicit Types l : list (string * V).

Lemma remove_key_notin k l : k ∉ l.*1 → remove_key k l = l.
Proof.
  intros Hk. apply filter_all. intros [k' v] Hin. cbn. intros ->. apply Hk.
  apply list_elem_of_fmap. by exists (k, v).
Qed.

Lemma remove_key_elem k l : k ∉ (remove_key k l).*1.
Proof.
  intros Hin. apply list_elem_of_fmap in Hin as ([k' v] & -> & Hin).
  by apply list_elem_of_filter in Hin as [? _].
Qed.

Lemma remove_key_NoDup k l : NoDup l.*1 → NoDup (remove_key k l).*1.
Proof.
  induction l as [|[k' v] l IH]; [done|]. cbn [fmap list_fmap]. rewrite NoDup_cons.
  intros [Hk Hnd]. unfold remove_key. rewrite filter_cons. case_decide; [|by auto].
  cbn [fmap list_fmap]. apply NoDup_cons. split; [|by auto].
  intros Hin. apply Hk. apply list_elem_of_fmap in Hin as (kv & -> & Hin).
  apply list_elem_of_fmap. exists kv. split; [done|].
  by apply list_elem_of_filter in Hin as [_ ?].
Qed.

Lemma put_NoDup k v l : NoDup l.*1 → NoDup ((k, v) :: remove_key k l).*1.
Proof.
  intros. cbn [fmap list_fmap]. apply NoDup_cons. split.
  - apply remove_key_elem.
  - by apply remove_key_NoDup.
Qed.

Lemma removelast_NoDup l : NoDup l.*1 → NoDup (removelast l).*1.
Proof.
  destruct l as [|[k v] l _] using rev_ind; [done|].
  rewrite removelast_last, fmap_app, NoDup_app. by intros [? _].
Qed.

End keyed.

#[global, program] Instance list_lru V : Lru V := {
  lru := { l : list (string * V) | NoDup l.*1 };
  lru_unbounded := exist _ [] _;
  lru_iter m := proj1_sig m;
  lru_len m := N.of_nat (length (proj1_sig m));
  lru_get m k :=
    match assoc k (proj1_sig m) with
    | Some v => (Some v, exist _ ((k, v) :: remove_key k (proj1_sig m)) _)
    | None => (None, m)
    end;
  lru_put m k v :=
    (assoc k (proj1_sig m), exist _ ((k, v) :: remove_key k (proj1_sig m)) _);
  lru_pop m k := (assoc k (proj1_sig m), exist _ (remove_key k (proj1_sig m)) _);
  lru_pop_lru m := (last (proj1_sig m), exist _ (removelast (proj1_sig m)) _);
}.
Next Obligation. intros V. constructor. Qed.
Next Obligation. intros V m k o v _. apply put_NoDup, (proj2_sig m). Qed.
Next Obligation. intros V m k v. apply put_NoDup, (proj2_sig m). Qed.
Next Obligation. intros V m k. apply remove_key_NoDup, (proj2_sig m). Qed.
Next Obligation. intros V m. apply removelast_NoDup, (proj2_sig m). Qed.

#[global] Instance list_lru_laws V : LruLaws (V := V).
Proof.
  split; try done.
  - intros m. apply (proj2_sig m).
  - intros m k. cbn. by destruct (assoc k (proj1_sig m)).
Qed.

Module Store.
Import Entry.

(** The cache counters of [src/metrics.rs]; each is a wrapping [u64]. *)
Record CacheMetrics := {
  cache_hits : N;
  cache_misses : N;
  cache_stores : N;
  cache_bypass : N;
  cache_revalidations : N;
  cache_evictions : N;
}.

Definition add_evictions (n : N) (m : CacheMetrics) : CacheMetrics :=
  {| cache_hits := cache_hits m; cache_misses := cache_misses m;
     cache_stores := cache_stores m; cache_bypass := cache_bypass m;
     cache_revalidations := cache_revalidations m;
     cache_evictions := wrap64 (cache_evictions m + n) |}.

Definition add_stores (n : N) (m : CacheMetrics) : CacheMetrics :=
  {| cache_hits := cache_hits m; cache_misses := cache_misses m;
     cache_stores := wrap64 (cache_stores m + n); cache_bypass := cache_bypass m;
     cache_revalidations := cache_revalidations m;
     cache_evictions := cache_evictions m |}.

(** A [watch] channel is a number; a receiver is the channel it listens to. *)
Abbreviation channel := nat (only parsing).

Section store.
Context `{Http} `{Lru StoredResponse}.

Record Inner := {
  map : lru;
  bytes : N;
}.

Record CacheStore := {
  inner : Inner;
  max_bytes : N;
  inflight : gmap string channel;
  metrics : CacheMetrics;
}.

Definition set_inner (st : CacheStore) (i : Inner) : CacheStore :=
  {| inner := i; max_bytes := max_bytes st; inflight := inflight st;
     metrics := metrics st |}.

Definition set_inflight (st : CacheStore) (m : gmap string channel) : CacheStore :=
  {| inner := inner st; max_bytes := max_bytes st; inflight := m;
     metrics := metrics st |}.

Definition set_metrics (st : CacheStore) (m : CacheMetrics) : CacheStore :=
  {| inner := inner st; max_bytes := max_bytes st; inflight := inflight st;
     metrics := m |}.

Definition new (max_bytes : N) (metrics : CacheMetrics) : CacheStore :=
  {| inner := {| map := lru_unbounded; bytes := 0 |}; max_bytes := max_bytes;
     inflight := ∅; metrics := metrics |}.

Definition get (st : CacheStore) (key : string) : option StoredResponse * CacheStore :=
  let '(r, m) := lru_get (map (inner st)) key in
  (r, set_inner st {| map := m; bytes := bytes (inner st) |}).

(** The eviction loop of [insert]; the second component counts evictions.
    Each round removes an entry, so the number of entries bounds the rounds. *)
Fixpoint evict_loop (fuel : nat) (max : N) (i : Inner) : Inner * N :=
  match fuel with
  | O => (i, 0)
  | S fuel' =>
      if (max <? bytes i) && (1 <? lru_len (map i)) then
        match lru_pop_lru (map i) with
        | (Some (_, evicted), m) =>
            let '(i', n) :=
              evict_loop fuel' max {| map := m; bytes := bytes i - size evicted |} in
            (i', n + 1)
        | (None, m) => ({| map := m; bytes := bytes i |}, 0)
        end
      else (i, 0)
  end.

Definition insert (st : CacheStore) (key : string) (entry : StoredResponse) : CacheStore :=
  let sz := size entry in
  if max_bytes st <? sz then st
  else
    let '(old, m) := lru_put (map (inner st)) key entry in
    let b := match old with
             | Some o => bytes (inner st) - size o
             | None => bytes (inner st)
             end in
    let i := {| map := m; bytes := wrap64 (b + sz) |} in
    let '(i', evicted) := evict_loop (N.to_nat (lru_len m)) (max_bytes st) i in
    set_metrics (set_inner st i') (add_stores 1 (add_evictions evicted (metrics st))).

Definition remove (st : CacheStore) (key : string) : CacheStore :=
  match lru_pop (map (inner st)) key with
  | (Some old, m) => set_inner st {| map := m; bytes := bytes (inner st) - size old |}
  | (None, m) => set_inner st {| map := m; bytes := bytes (inner st) |}
  end.

(** One round of the sweep: pop a key that was found stale. *)
Definition evict_key (st : CacheStore) (k : string) : CacheStore :=
  match lru_pop (map (inner st)) k with
  | (Some old, m) =>
      set_metrics
        (set_inner st {| map := m; bytes := bytes (inner st) - size old |})
        (add_evictions 1 (metrics st))
  | (None, m) => set_inner st {| map := m; bytes := bytes (inner st) |}
  end.

Definition evict_expired (st : CacheStore) (now : Instant) : CacheStore :=
  let stale := (filter (λ kv, is_fresh kv.2 now = false) (lru_iter (map (inner st)))).*1 in
  fold_left evict_key stale st.

Definition stats (st : CacheStore) : N * N :=
  (lru_len (map (inner st)), bytes (inner st)).

(** * Single flight *)

(** [LeaderGuard]: the key it leads and the channel whose sender it holds. *)
Inductive FetchRole :=
  | Leader (key : string) (tx : channel)
  | Follower (rx : channel).

(** [fresh] is the channel [watch::channel] would create. *)
Definition begin_fetch (st : CacheStore) (key : string) (fresh : channel)
    : FetchRole * CacheStore :=
  match inflight st !! key with
  | Some rx => (Follower rx, st)
  | None => (Leader key fresh, set_inflight st (<[key := fresh]> (inflight st)))
  end.

(** [LeaderGuard::drop] body; the sender is dropped after it returns. *)
Definition drop_guard (st : CacheStore) (key : string) : CacheStore :=
  set_inflight st (delete key (inflight st)).

(** * Byte accounting *)

Definition items (st : CacheStore) : list (string * StoredResponse) :=
  lru_iter (map (inner st)).

Definition total (l : list (string * StoredResponse)) : N :=
  foldr (λ kv a, size kv.2 + a) 0 l.

(** The running sum is the true sum and respects the budget. *)
Record store_inv (st : CacheStore) : Prop := {
  inv_sum : bytes (inner st) = total (items st);
  inv_budget : bytes (inner st) ≤ max_bytes st;
}.

Lemma total_cons k v l : total ((k, v) :: l) = size v + total l.
Proof. done. Qed.

#[local] Arguments total : simpl never.

Lemma total_nil : total [] = 0.
Proof. done. Qed.

Lemma total_app l l' : total (l ++ l') = total l + total l'.
Proof.
  induction l as [|[k v] l IH]; [done|].
  change (((k, v) :: l) ++ l') with ((k, v) :: (l ++ l')).
  rewrite !total_cons, IH. lia.
Qed.

Lemma remove_key_none k (l : list (string * StoredResponse)) :
  assoc k l = None → remove_key k l = l.
Proof.
  unfold assoc, remove_key. induction l as [|[k' v] l IH]; [done|].
  rewrite !filter_cons. cbn. intros Ha.
  destruct (decide (k' = k)) as [->|Hne]; [done|].
  rewrite decide_True by done. by rewrite IH.
Qed.

Lemma assoc_cons k k' v (l : list (string * StoredResponse)) :
  assoc k ((k', v) :: l) = if decide (k' = k) then Some v else assoc k l.
Proof. unfold assoc. rewrite filter_cons. cbn. by case_decide. Qed.

Lemma assoc_elem k v (l : list (string * StoredResponse)) :
  assoc k l = Some v → (k, v) ∈ l.
Proof.
  induction l as [|[k' v'] l IH]; [done|]. rewrite assoc_cons.
  case_decide; [intros [= ->]; subst; by left|]. intros Ha. right. by apply IH.
Qed.

Lemma remove_key_cons k k' v (l : list (string * StoredResponse)) :
  remove_key k ((k', v) :: l) =
    if decide (k' = k) then remove_key k l else (k', v) :: remove_key k l.
Proof.
  unfold remove_key. rewrite filter_cons. cbn.
  destruct (decide (k' = k)); [by rewrite decide_False by auto|by rewrite decide_True].
Qed.

Lemma total_remove k v l :
  NoDup l.*1 → assoc k l = Some v → total l = size v + total (remove_key k l).
Proof.
  induction l as [|[k' v'] l IH]; [done|]. cbn [fmap list_fmap].
  rewrite NoDup_cons, assoc_cons, remove_key_cons. intros [Hk Hnd].
  case_decide as Heq; rewrite ?total_cons.
  - subst. intros [= ->]. by rewrite remove_key_notin.
  - intros Ha. rewrite (IH Hnd Ha). lia.
Qed.

(** The budget left after taking a key out of the sum. *)
Lemma total_without k l :
  NoDup l.*1 →
  match assoc k l with Some o => total l - size o | None => total l end =
  total (remove_key k l).
Proof.
  intros Hnd. destruct (assoc k l) as [o|] eqn:E.
  - rewrite (total_remove k o l) by done. lia.
  - by rewrite remove_key_none.
Qed.

Section laws.
Context `{!LruLaws}.

(** The eviction loop, started with enough fuel on an exact sum, keeps the
    longest prefix (in recency order) that fits the budget, or one entry. *)
Lemma evict_loop_spec fuel max i :
  bytes i = total (lru_iter (map i)) → (length (lru_iter (map i)) ≤ fuel)%nat →
  ∃ kept dropped,
    lru_iter (map i) = kept ++ dropped ∧
    lru_iter (map (evict_loop fuel max i).1) = kept ∧
    bytes (evict_loop fuel max i).1 = total kept ∧
    (evict_loop fuel max i).2 = N.of_nat (length dropped) ∧
    (total kept ≤ max ∨ (length kept ≤ 1)%nat) ∧
    (∀ x d, dropped = x :: d → max < total (kept ++ [x]) ∧ kept ≠ []).
Proof.
  revert i. induction fuel as [|fuel IH]; intros i Hb Hf.
  { exists [], []. destruct (lru_iter (map i)) eqn:E; [|cbn in Hf; lia].
    cbn. rewrite E, Hb. split_and!; try done. left. rewrite total_nil. lia. }
  cbn [evict_loop].
  destruct ((max <? bytes i) && (1 <? lru_len (map i))) eqn:Hc.
  2:{ exists (lru_iter (map i)), []. cbn. rewrite app_nil_r. split_and!; try done.
      apply andb_false_iff in Hc as [Hc|Hc]; apply N.ltb_ge in Hc; [left; lia|right].
      rewrite lru_len_iter in Hc. lia. }
  apply andb_true_iff in Hc as [Hmax Hlen]. apply N.ltb_lt in Hmax, Hlen.
  rewrite lru_len_iter in Hlen.
  destruct (lru_pop_lru_spec (map i)) as [Hl Hr].
  destruct (lru_iter (map i)) as [|[k v] l _] eqn:E using rev_ind; [cbn in Hlen; lia|].
  rewrite last_snoc in Hl. rewrite removelast_last in Hr.
  destruct (lru_pop_lru (map i)) as [r m]. cbn in Hl, Hr. subst r.
  rewrite length_app in Hlen, Hf. cbn in Hlen, Hf.
  rewrite total_app, total_cons, total_nil in Hb.
  destruct (IH {| map := m; bytes := bytes i - size v |}) as
    (kept & dropped & K1 & K2 & K3 & K4 & K5 & K6); cbn in *.
  { rewrite Hr, Hb. lia. }
  { rewrite Hr. lia. }
  destruct (evict_loop fuel max _) as [i' n] eqn:El. cbn in *. rewrite Hr in K1.
  exists kept, (dropped ++ [(k, v)]). split_and!; try done.
  - by rewrite K1, <- app_assoc.
  - rewrite length_app. cbn. lia.
  - intros x d Hd. destruct dropped as [|y dropped]; cbn in Hd; simplify_eq.
    + rewrite app_nil_r in *. rewrite total_app, total_cons, total_nil. rewrite <- K1 in *.
      split; [lia|]. intros Hnil. rewrite Hnil in Hlen. cbn in Hlen. lia.
    + by eapply K6.
Qed.

Lemma items_set_metrics st m : items (set_metrics st m) = items st.
Proof. done. Qed.

Lemma store_inv_set_metrics st m : store_inv (set_metrics st m) ↔ store_inv st.
Proof. split; intros [??]; split; done. Qed.

Lemma items_remove st k : items (remove st k) = remove_key k (items st).
Proof.
  unfold remove, items. destruct (lru_pop_spec (map (inner st)) k) as [_ E].
  by destruct (lru_pop (map (inner st)) k) as [[o|] m].
Qed.

Lemma remove_inv st k : store_inv st → store_inv (remove st k).
Proof.
  intros [Hs Hb]. pose proof (items_remove st k) as Hi.
  pose proof (total_without k (items st) (lru_iter_NoDup _)) as Ht.
  destruct (lru_pop_spec (map (inner st)) k) as [Ho _].
  unfold remove in *. fold (items st) in Ho. rewrite <- Ho in Ht.
  destruct (lru_pop (map (inner st)) k) as [[o|] m]; cbn in *;
    split; rewrite ?Hi, <- ?Ht; cbn; lia.
Qed.

Lemma evict_key_remove st k :
  evict_key st k =
    set_metrics (remove st k)
      (if decide (is_Some (assoc k (items st))) then add_evictions 1 (metrics st)
       else metrics st).
Proof.
  unfold evict_key, remove. destruct (lru_pop_spec (map (inner st)) k) as [Ho _].
  fold (items st) in Ho. rewrite <- Ho.
  destruct (lru_pop (map (inner st)) k) as [[o|] m]; cbn; [done|].
  by destruct st as [[]].
Qed.

Lemma sweep_items ks st :
  items (fold_left evict_key ks st) = filter (λ kv, kv.1 ∉ ks) (items st).
Proof.
  revert st. induction ks as [|k ks IH]; intros st; cbn [fold_left].
  - symmetry. apply filter_all. set_solver.
  - rewrite IH, evict_key_remove, items_set_metrics, items_remove.
    unfold remove_key. rewrite list_filter_filter. apply list_filter_iff. set_solver.
Qed.

Lemma sweep_inv ks st : store_inv st → store_inv (fold_left evict_key ks st).
Proof.
  revert st. induction ks as [|k ks IH]; intros st Hst; [done|]. cbn. apply IH.
  rewrite evict_key_remove, store_inv_set_metrics. by apply remove_inv.
Qed.

Lemma get_items st key : (get st key).1 = assoc key (items st).
Proof.
  unfold get, items. destruct (lru_get_spec (map (inner st)) key) as [<- _].
  by destruct (lru_get (map (inner st)) key).
Qed.

Lemma insert_effect st key entry :
  store_inv st → size entry ≤ max_bytes st → 2 * max_bytes st < u64_mod →
  let st' := insert st key entry in
  store_inv st' ∧
  ∃ kept dropped,
    items st' = (key, entry) :: kept ∧
    remove_key key (items st) = kept ++ dropped ∧
    (∀ x d, dropped = x :: d → max_bytes st < total ((key, entry) :: kept ++ [x])) ∧
    cache_evictions (metrics st') =
      wrap64 (cache_evictions (metrics st) + N.of_nat (length dropped)) ∧
    cache_stores (metrics st') = wrap64 (cache_stores (metrics st) + 1).
Proof.
  intros [Hs Hb] Hsz Hmax. unfold insert.
  destruct (N.ltb_spec (max_bytes st) (size entry)); [lia|].
  pose proof (total_without key (items st) (lru_iter_NoDup _)) as Ht.
  destruct (lru_put_spec (map (inner st)) key entry) as [Ho Hi].
  fold (items st) in Ho, Hi. rewrite <- Ho in Ht. rewrite Hs.
  destruct (lru_put (map (inner st)) key entry) as [old m]. cbn in Ho, Hi, Ht.
  rewrite Ht. assert (total (remove_key key (items st)) ≤ total (items st)) as Hle
    by (rewrite <- Ht; case_match; lia).
  rewrite wrap64_small by lia.
  destruct (evict_loop_spec (N.to_nat (lru_len m)) (max_bytes st)
    {| map := m; bytes := total (remove_key key (items st)) + size entry |})
    as (kept & dropped & K1 & K2 & K3 & K4 & K5 & K6).
  { cbn. rewrite Hi, total_cons. lia. }
  { cbn. rewrite lru_len_iter. lia. }
  destruct (evict_loop _ _ _) as [i' n]. cbn in *. rewrite Hi in K1.
  destruct kept as [|[k0 v0] kept].
  { cbn in K1. destruct (K6 (key, entry) (remove_key key (items st))); done. }
  cbn in K1. injection K1 as <- <- Hrest.
  split.
  - split; cbn; [by rewrite K3, <- K2|]. rewrite K3. destruct K5 as [|Hl]; [done|].
    destruct kept; [|cbn in Hl; lia]. rewrite total_cons, total_nil. lia.
  - exists kept, dropped. rewrite K4. split_and!; try done. intros x d Hd.
    by destruct (K6 x d Hd).
Qed.

(** * Properties *)

(** C1: storing an entry that fits the budget keeps the byte count exact and
    within the budget, puts the entry at the most-recently-used end, and
    evicts exactly the least recently used entries that do not fit: what is
    kept is the longest prefix, in recency order, whose bytes fit. *)
Theorem insert_spec st key entry :
  store_inv st → size entry ≤ max_bytes st → 2 * max_bytes st < u64_mod →
  let st' := insert st key entry in
  store_inv st' ∧
  ∃ kept dropped,
    items st' = (key, entry) :: kept ∧
    remove_key key (items st) = kept ++ dropped ∧
    (∀ x d, dropped = x :: d → max_bytes st < total ((key, entry) :: kept ++ [x])) ∧
    cache_evictions (metrics st') =
      wrap64 (cache_evictions (metrics st) + N.of_nat (length dropped)) ∧
    cache_stores (metrics st') = wrap64 (cache_stores (metrics st) + 1).
Proof. apply insert_effect. Qed.

(** An entry just stored is the one the next lookup of its key returns,
    whatever had to be evicted for it. *)
Theorem insert_get st key entry :
  store_inv st → size entry ≤ max_bytes st → 2 * max_bytes st < u64_mod →
  (get (insert st key entry) key).1 = Some entry.
Proof.
  intros Hst Hsz Hm. rewrite get_items.
  destruct (insert_effect st key entry Hst Hsz Hm) as (_ & kept & dropped & -> & _).
  rewrite assoc_cons. by rewrite decide_True.
Qed.

(** The sweep drops exactly the entries that are no longer fresh, keeps
    the recency order of the others, and keeps the byte count exact. *)
Theorem evict_expired_spec st now :
  store_inv st →
  store_inv (evict_expired st now) ∧
  items (evict_expired st now) = filter (λ kv, is_fresh kv.2 now = true) (items st).
Proof.
  intros Hst. split; [by apply sweep_inv|].
  unfold evict_expired. rewrite sweep_items. fold (items st).
  apply filter_ext_in. intros [k v] Hin. cbn. split.
  - intros Hk. destruct (is_fresh v now) eqn:E; [done|]. destruct Hk.
    apply list_elem_of_fmap. exists (k, v). by rewrite list_elem_of_filter.
  - intros Hf Hk. apply list_elem_of_fmap in Hk as ([k' v'] & Heq & Hk).
    apply list_elem_of_filter in Hk as [Hs Hk]. cbn in *. subst k'.
    rewrite (NoDup_keys_inj (items st) k v v') in Hf by (done || apply lru_iter_NoDup).
    congruence.
Qed.

End laws.

(** * The single-flight machine

    Requests call [begin_fetch]; a guard is dropped in two steps, first the
    body of [LeaderGuard::drop], then its sender, which closes the channel
    and wakes the followers. *)
Record World := {
  w_store : CacheStore;
  w_next : channel;
  w_guards : list (string * channel);
  w_dropping : list channel;
  w_closed : list channel;
  w_followers : list (string * channel);
}.

Definition world_init (st : CacheStore) : World :=
  {| w_store := set_inflight st ∅; w_next := 0; w_guards := []; w_dropping := [];
     w_closed := []; w_followers := [] |}.

Inductive step : World → World → Prop :=
  | step_lead w key tx st' :
      begin_fetch (w_store w) key (w_next w) = (Leader key tx, st') →
      step w {| w_store := st'; w_next := S (w_next w);
                w_guards := (key, tx) :: w_guards w; w_dropping := w_dropping w;
                w_closed := w_closed w; w_followers := w_followers w |}
  | step_follow w key rx st' :
      begin_fetch (w_store w) key (w_next w) = (Follower rx, st') →
      step w {| w_store := st'; w_next := w_next w; w_guards := w_guards w;
                w_dropping := w_dropping w; w_closed := w_closed w;
                w_followers := (key, rx) :: w_followers w |}
  | step_drop w l1 l2 key tx :
      w_guards w = l1 ++ (key, tx) :: l2 →
      step w {| w_store := drop_guard (w_store w) key; w_next := w_next w;
                w_guards := l1 ++ l2; w_dropping := tx :: w_dropping w;
                w_closed := w_closed w; w_followers := w_followers w |}
  | step_close w l1 l2 tx :
      w_dropping w = l1 ++ tx :: l2 →
      step w {| w_store := w_store w; w_next := w_next w; w_guards := w_guards w;
                w_dropping := l1 ++ l2; w_closed := tx :: w_closed w;
                w_followers := w_followers w |}.

Record flight_inv (w : World) : Prop := {
  fl_keys : NoDup (w_guards w).*1;
  fl_map : ∀ k c, inflight (w_store w) !! k = Some c ↔ (k, c) ∈ w_guards w;
  fl_follow : ∀ k c, (k, c) ∈ w_followers w →
    c ∈ w_closed w ∨ c ∈ w_dropping w ∨ (k, c) ∈ w_guards w;
}.

Lemma flight_init st : flight_inv (world_init st).
Proof.
  split; cbn; [constructor| |set_solver].
  intros k c. rewrite lookup_empty. set_solver.
Qed.

Lemma flight_step w w' : step w w' → flight_inv w → flight_inv w'.
Proof.
  intros Hstep [Hk Hm Hf]. destruct Hstep as
    [w key tx st' Hb|w key rx st' Hb|w l1 l2 key tx Hg|w l1 l2 tx Hd].
  - unfold begin_fetch in Hb. destruct (inflight (w_store w) !! key) eqn:E; simplify_eq.
    assert (key ∉ (w_guards w).*1) as Hnew.
    { intros Hin. apply list_elem_of_fmap in Hin as ([k c] & -> & Hin).
      apply Hm in Hin. cbn in *. congruence. }
    split; cbn.
    + by apply NoDup_cons.
    + intros k c. rewrite lookup_insert_Some, elem_of_cons, Hm. split; [naive_solver|].
      intros [[= -> ->]|Hin]; [by left|]. right. split; [|done]. intros ->. apply Hnew.
      apply list_elem_of_fmap. by exists (k, c).
    + intros k c Hin. apply Hf in Hin. set_solver.
  - unfold begin_fetch in Hb. destruct (inflight (w_store w) !! key) eqn:E; simplify_eq.
    split; cbn; [done..|]. intros k c. rewrite elem_of_cons.
    intros [[= -> ->]|Hin]; [|by apply Hf]. right. right. by apply Hm.
  - rewrite Hg in *. rewrite fmap_app in Hk. cbn in Hk.
    pose proof (NoDup_app_remove_mid _ _ _ Hk) as [Hk' Hnot]. split; cbn.
    + by rewrite fmap_app.
    + intros k c. rewrite lookup_delete_Some, Hm. split.
      * intros [Hne Hin]. set_solver.
      * intros Hin. split; [|set_solver]. intros ->. apply Hnot. rewrite <- fmap_app.
        apply list_elem_of_fmap. by exists (k, c).
    + intros k c Hin. apply Hf in Hin as [?|[?|Hin]]; [set_solver..|].
      destruct (decide (c = tx)) as [->|]; [set_solver|]. set_solver.
  - rewrite Hd in *. split; cbn; [done..|]. intros k c Hin. apply Hf in Hin. set_solver.
Qed.

(** C9: however fetches interleave, there is never more than one live leader
    for a key, the registry lists exactly the live leaders, and no follower
    is ever stranded: once the leaders are gone and their senders dropped,
    every follower's channel is closed. *)
Theorem single_flight st w :
  rtc step (world_init st) w →
  NoDup (w_guards w).*1 ∧
  (∀ k, is_Some (inflight (w_store w) !! k) ↔ k ∈ (w_guards w).*1) ∧
  (w_guards w = [] → w_dropping w = [] →
     ∀ k c, (k, c) ∈ w_followers w → c ∈ w_closed w).
Proof.
  intros Hr. assert (flight_inv w) as [Hk Hm Hf].
  { revert Hr. generalize (flight_init st). generalize (world_init st).
    intros w0 Hi Hr. induction Hr; eauto using flight_step. }
  split_and!; [done| |].
  - intros k. rewrite list_elem_of_fmap. split.
    + intros [c Hc]. exists (k, c). split; [done|]. by apply Hm.
    + intros ([k' c] & -> & Hin). exists c. by apply Hm.
  - intros Hg Hd k c Hin. destruct (Hf k c Hin) as [|[Hx|Hx]]; [done|..];
      [rewrite Hd in Hx|rewrite Hg in Hx]; by apply elem_of_nil in Hx.
Qed.

End store.
(** * Examples *)

Definition no_metrics : CacheMetrics :=
  {| cache_hits := 0; cache_misses := 0; cache_stores := 0; cache_bypass := 0;
     cache_revalidations := 0; cache_evictions := 0 |}.

(** A ten-byte store already holding two five-byte entries. *)
Definition demo_store : CacheStore :=
  insert (insert (new 10 no_metrics) "a" demo_entry) "b" demo_entry.

Lemma demo_store_inv : store_inv demo_store.
Proof. split; by vm_compute. Qed.

Example demo_store_evicts : (items (insert demo_store "c" demo_entry)).*1 = ["c"; "b"].
Proof. reflexivity. Qed.

Lemma insert_spec_witness :
  store_inv (insert demo_store "c" demo_entry) ∧
  cache_evictions (metrics (insert demo_store "c" demo_entry)) = 1.
Proof.
  split; [|reflexivity]. eapply (insert_spec demo_store "c" demo_entry);
    [apply demo_store_inv|vm_compute; discriminate|reflexivity].
Defined.

Lemma insert_get_witness : (get (insert demo_store "c" demo_entry) "c").1 = Some demo_entry.
Proof.
  apply insert_get; [apply demo_store_inv|vm_compute; discriminate|reflexivity].
Defined.

Lemma evict_expired_spec_witness :
  store_inv (evict_expired demo_store (1000 + from_secs 60)) ∧
  items (evict_expired demo_store (1000 + from_secs 60)) = [].
Proof.
  destruct (evict_expired_spec demo_store (1000 + from_secs 60) demo_store_inv) as [? ->].
  done.
Defined.

Definition demo_world : World :=
  {| w_store := drop_guard (set_inflight (set_inflight demo_store ∅) (<["k" := 0%nat]> ∅)) "k";
     w_next := 1; w_guards := []; w_dropping := []; w_closed := [0%nat];
     w_followers := [("k", 0%nat)] |}.

Lemma demo_world_reachable : rtc step (world_init demo_store) demo_world.
Proof.
  eapply rtc_l; [by apply (step_lead _ "k")|].
  eapply rtc_l; [by apply (step_follow _ "k" 0%nat)|].
  eapply rtc_l; [by apply (step_drop _ [] [] "k" 0%nat)|].
  eapply rtc_l; [by apply (step_close _ [] [] 0%nat)|]. apply rtc_refl.
Qed.

Lemma single_flight_witness : 0%nat ∈ w_closed demo_world.
Proof.
  destruct (single_flight demo_store demo_world demo_world_reachable) as (_ & _ & Hf).
  apply (Hf eq_refl eq_refl "k"). by left.
Defined.

End Store.
