(* ===== verification/Template.v ===== *)
(** Value templates and header rules ([src/headers.rs]): lexing [{name}]
    tokens, compiling them against the variable table's names and an arm's
    capture groups, rendering, and the set/add/remove rules on header maps.

    Rendering asks for the values of config-defined variables, which
    [Vars.v] computes lazily from templates; [render_inner] therefore takes
    the variable lookup as an argument, in a state-passing style ([None] is
    exhausted fuel, which [Vars.v] shows not to happen). *)
From S2P Require Import Prelude RustStr Http.

(** * The [regex] crate *)

Class Regex := {
  regex : Type;
  regex_new : string → option regex;
  regex_is_match : regex → string → bool;
  (** The capture groups of the first match, group 0 included. *)
  regex_captures : regex → string → option (list (option string));
  regex_capture_names : regex → list (option string);
  regex_replace : regex → string → string → string;
}.

Class RegexLaws `{Regex} : Prop := {
  regex_captures_match re s : is_Some (regex_captures re s) ↔ regex_is_match re s = true;
  regex_captures_length re s caps :
    regex_captures re s = Some caps → length caps = length (regex_capture_names re);
  regex_has_group0 re : (1 ≤ length (regex_capture_names re))%nat;
}.

(** Fixed-string patterns, matched against the whole text: a concrete
    instance on which examples run. *)
#[export] Instance fixed_regex : Regex := {|
  regex := string;
  regex_new s := Some s;
  regex_is_match re s := String.eqb re s;
  regex_captures re s := if String.eqb re s then Some [Some s] else None;
  regex_capture_names _ := [None];
  regex_replace re s r := if String.eqb re s then r else s;
|}.

#[export] Instance fixed_regex_laws : RegexLaws.
Proof.
  split; cbn; intros; [destruct (String.eqb re s); naive_solver|case_match; by simplify_eq|lia].
Qed.

Module Template.

(** * Data *)

Abbreviation VarId := nat (only parsing).

Inductive KnownVar :=
  | ClientIp | Username | Groups | Method | Path | Query | PathAndQuery
  | Host | Scheme | ClientCertSubject | ClientCertSans | Country.

#[global] Instance KnownVar_eq_dec : EqDecision KnownVar.
Proof. solve_decision. Defined.

Inductive TemplatePart :=
  | Literal (s : string)
  | Var (v : KnownVar) (fallback : option string)
  | Custom (id : VarId) (fallback : option string)
  | Header (name : HeaderName) (fallback : option string)
  | Capture (group : nat) (fallback : option string)
  | Unknown (raw : string).

Abbreviation Template := (list TemplatePart) (only parsing).

Definition BUILTIN_VARS : list string :=
  ["client_ip"; "username"; "groups"; "method"; "path"; "query"; "path_and_query";
   "host"; "scheme"; "client_cert_subject"; "client_cert_sans"; "country"].

Definition known_var (name : string) : option KnownVar :=
  if String.eqb name "client_ip" then Some ClientIp
  else if String.eqb name "username" then Some Username
  else if String.eqb name "groups" then Some Groups
  else if String.eqb name "method" then Some Method
  else if String.eqb name "path" then Some Path
  else if String.eqb name "query" then Some Query
  else if String.eqb name "path_and_query" then Some PathAndQuery
  else if String.eqb name "host" then Some Host
  else if String.eqb name "scheme" then Some Scheme
  else if String.eqb name "client_cert_subject" then Some ClientCertSubject
  else if String.eqb name "client_cert_sans" then Some ClientCertSans
  else if String.eqb name "country" then Some Country
  else None.

(** * Lexing *)

Inductive RawTok :=
  | RLiteral (s : string)
  | RToken (name : string) (fallback : option string) (raw : string).

(** The loop of [lex]; every round consumes at least the opening brace. *)
Fixpoint lex_loop (fuel : nat) (rest : string) : list RawTok :=
  match fuel with
  | O => []
  | S fuel' =>
      match split_once "{" rest with
      | Some (pre, after) =>
          (if is_empty pre then [] else [RLiteral pre]) ++
          match split_once "}" after with
          | Some (token, rest') =>
              let '(name, fallback) :=
                match split_once "|" token with
                | Some (n, f) => (n, Some f)
                | None => (token, None)
                end in
              RToken name fallback ("{" +:+ token +:+ "}") :: lex_loop fuel' rest'
          | None => [RLiteral ("{" +:+ after)]
          end
      | None => if is_empty rest then [] else [RLiteral rest]
      end
  end.

Definition lex (s : string) : list RawTok := lex_loop (S (String.length s)) s.

(** * Compilation *)

(** [VarNames]: the names in slot order and their index. *)
Record VarNames := {
  vn_names : list string;
  vn_index : gmap string nat;
}.

Definition vn_default : VarNames := {| vn_names := []; vn_index := ∅ |}.

Definition vn_get (n : VarNames) (name : string) : option VarId := vn_index n !! name.

Definition vn_insert (n : VarNames) (name : string) : VarNames :=
  {| vn_names := vn_names n ++ [name];
     vn_index := <[name := length (vn_names n)]> (vn_index n) |}.

Record CaptureScope := {
  cs_groups : nat;
  cs_names : list (string * nat);
}.

Definition from_regex `{Regex} (re : regex) : CaptureScope :=
  {| cs_groups := length (regex_capture_names re) - 1;
     cs_names := omap (λ '(i, n), n ≫= λ n, Some (n, i)) (imap pair (regex_capture_names re)) |}.

Definition empty_scope : CaptureScope := {| cs_groups := 0; cs_names := [] |}.

(** [{1}]..[{9}]. *)
Definition digit_group (token : string) : option nat :=
  match token with
  | String c "" => d ← digit_of c; if d =? 0 then None else Some (N.to_nat d)
  | _ => None
  end.

Definition cs_lookup (cs : CaptureScope) (token : string) : option nat :=
  match find (λ '(n, _), String.eqb n token) (cs_names cs) with
  | Some (_, i) => Some i
  | None => i ← digit_group token; if (i <=? cs_groups cs)%nat then Some i else None
  end.

Section compile.
Context `{Http}.

(** What one token compiles to. *)
Definition build_token (vars : option VarNames) (caps : option CaptureScope)
    (name : string) (fb : option string) (raw : string) : Result TemplatePart :=
  match known_var name with
  | Some v => Ok (Var v fb)
  | None =>
      match vars with
      | None => Ok (Unknown raw)
      | Some vars =>
          match strip_prefix "header:" name ≫= hn_from_bytes with
          | Some hname => Ok (Header hname fb)
          | None =>
              match caps ≫= λ cs, cs_lookup cs name with
              | Some i => Ok (Capture i fb)
              | None =>
                  match caps ≫= λ _, digit_group name with
                  | Some _ => Err "value references a capture the pattern does not have"
                  | None =>
                      match vn_get vars name with
                      | Some id => Ok (Custom id fb)
                      | None => Ok (Unknown raw)
                      end
                  end
              end
          end
      end
  end.

Definition build_part (vars : option VarNames) (caps : option CaptureScope)
    (tok : RawTok) : Result TemplatePart :=
  match tok with
  | RLiteral l => Ok (Literal l)
  | RToken name fb raw => build_token vars caps name fb raw
  end.

Definition build (s : string) (vars : option VarNames) (caps : option CaptureScope)
    : Result Template :=
  try_map (build_part vars caps) (lex s).

Definition parse (s : string) : Template :=
  match build s None None with
  | Ok t => t
  | Err _ => [Literal s]
  end.

Definition compile (s : string) (vars : VarNames) : Result Template := build s (Some vars) None.

Definition compile_with_captures (s : string) (vars : VarNames) (caps : CaptureScope)
    : Result Template := build s (Some vars) (Some caps).

End compile.

(** * Rendering *)

(** [RequestContext] without its variable scope. *)
Record RequestContext := {
  client_ip : string;
  username : string;
  groups : string;
  method : string;
  path : string;
  query : string;
  path_and_query : string;
  host : string;
  scheme : string;
  client_cert_subject : string;
  client_cert_sans : string;
  country : string;
  ctx_headers : list (HeaderName * string);
}.

Definition empty_context : RequestContext :=
  {| client_ip := ""; username := ""; groups := ""; method := ""; path := "";
     query := ""; path_and_query := ""; host := ""; scheme := "";
     client_cert_subject := ""; client_cert_sans := ""; country := "";
     ctx_headers := [] |}.

Definition known_value (ctx : RequestContext) (v : KnownVar) : string :=
  match v with
  | ClientIp => client_ip ctx
  | Username => username ctx
  | Groups => groups ctx
  | Method => method ctx
  | Path => path ctx
  | Query => query ctx
  | PathAndQuery => path_and_query ctx
  | Host => host ctx
  | Scheme => scheme ctx
  | ClientCertSubject => client_cert_subject ctx
  | ClientCertSans => client_cert_sans ctx
  | Country => country ctx
  end.

Definition header_value_of (ctx : RequestContext) (name : HeaderName) : string :=
  match find (λ '(n, _), String.eqb n name) (ctx_headers ctx) with
  | Some (_, v) => v
  | None => ""
  end.

Definition capture_value (caps : option (list (option string))) (i : nat) : string :=
  default "" (c ← caps; m ← c !! i; m).

(** An empty value renders the token's fallback. *)
Definition with_fallback (value : string) (fallback : option string) : string :=
  if is_empty value then default "" fallback else value.

(** The loop of [render_inner]; [getv] is the lookup of a variable's value,
    which may fill memoization slots of type [S]. *)
Fixpoint render_inner {S} (ctx : RequestContext) (caps : option (list (option string)))
    (getv : VarId → S → option (string * S)) (t : Template) (out : string) (s : S)
    : option (string * S) :=
  match t with
  | [] => Some (out, s)
  | Literal l :: t' | Unknown l :: t' => render_inner ctx caps getv t' (out +:+ l) s
  | Var v fb :: t' =>
      render_inner ctx caps getv t' (out +:+ with_fallback (known_value ctx v) fb) s
  | Header n fb :: t' =>
      render_inner ctx caps getv t' (out +:+ with_fallback (header_value_of ctx n) fb) s
  | Capture i fb :: t' =>
      render_inner ctx caps getv t' (out +:+ with_fallback (capture_value caps i) fb) s
  | Custom id fb :: t' =>
      '(value, s') ← getv id s;
      render_inner ctx caps getv t' (out +:+ with_fallback value fb) s'
  end.

(** * References *)

Definition references_principal (t : Template) : bool :=
  existsb (λ p, match p with Var Username _ | Var Groups _ => true | _ => false end) t.

Record TemplateRefs := {
  r_principal : bool;
  r_geoip : bool;
  r_headers : list HeaderName;
  r_vars : list VarId;
}.

(** [if !v.contains(x) { v.push(x) }]. *)
Definition push_new {A} `{EqDecision A} (l : list A) (x : A) : list A :=
  if decide (x ∈ l) then l else l ++ [x].

Definition refs_part (r : TemplateRefs) (p : TemplatePart) : TemplateRefs :=
  match p with
  | Var Username _ | Var Groups _ =>
      {| r_principal := true; r_geoip := r_geoip r; r_headers := r_headers r;
         r_vars := r_vars r |}
  | Var Country _ =>
      {| r_principal := r_principal r; r_geoip := true; r_headers := r_headers r;
         r_vars := r_vars r |}
  | Header n _ =>
      {| r_principal := r_principal r; r_geoip := r_geoip r;
         r_headers := push_new (r_headers r) n; r_vars := r_vars r |}
  | Custom id _ =>
      {| r_principal := r_principal r; r_geoip := r_geoip r; r_headers := r_headers r;
         r_vars := push_new (r_vars r) id |}
  | _ => r
  end.

Definition refs_default : TemplateRefs :=
  {| r_principal := false; r_geoip := false; r_headers := []; r_vars := [] |}.

Definition refs (t : Template) : TemplateRefs := fold_left refs_part t refs_default.

(** * Lemmas *)

(** ** Lexing loses nothing *)

Definition tok_text (t : RawTok) : string :=
  match t with RLiteral s => s | RToken _ _ raw => raw end.

Fixpoint str_concat (l : list string) : string :=
  match l with [] => "" | x :: l' => x +:+ str_concat l' end.

Lemma str_concat_app l l' : str_concat (l ++ l') = str_concat l +:+ str_concat l'.
Proof. induction l as [|x l IH]; [done|]. cbn. by rewrite IH, str_app_assoc. Qed.

Lemma lex_loop_text fuel s :
  (String.length s < fuel)%nat → str_concat (tok_text <$> lex_loop fuel s) = s.
Proof.
  revert s. induction fuel as [|fuel IH]; intros s Hf; [lia|]. cbn [lex_loop].
  destruct (split_once "{" s) as [[pre after]|] eqn:E.
  2:{ unfold is_empty. destruct (String.eqb_spec s "") as [->|]; [done|].
      cbn. by rewrite str_app_nil_r. }
  apply split_once_Some in E as [-> _].
  rewrite fmap_app, str_concat_app.
  assert (str_concat (tok_text <$> (if is_empty pre then [] else [RLiteral pre])) = pre) as ->.
  { unfold is_empty. destruct (String.eqb_spec pre "") as [->|]; [done|].
    cbn. by rewrite str_app_nil_r. }
  f_equal. rewrite str_length_app in Hf. cbn [String.length] in Hf.
  destruct (split_once "}" after) as [[token rest]|] eqn:E'.
  - apply split_once_Some in E' as [-> _].
    rewrite str_length_app in Hf. cbn [String.length] in Hf.
    destruct (match split_once "|" token with Some (n, f) => (n, Some f) | None => (token, None) end)
      as [name fb].
    cbn. rewrite IH by lia. by rewrite !str_app_assoc.
  - cbn. by rewrite str_app_nil_r.
Qed.

(** ** Rendering without memoization *)

Definition part_text (ctx : RequestContext) (caps : option (list (option string)))
    (env : VarId → string) (p : TemplatePart) : string :=
  match p with
  | Literal l | Unknown l => l
  | Var v fb => with_fallback (known_value ctx v) fb
  | Header n fb => with_fallback (header_value_of ctx n) fb
  | Capture i fb => with_fallback (capture_value caps i) fb
  | Custom id fb => with_fallback (env id) fb
  end.

Definition render_pure ctx caps env (t : Template) : string :=
  str_concat (part_text ctx caps env <$> t).

Definition uses_var (t : Template) (id : VarId) : Prop := ∃ fb, Custom id fb ∈ t.

(** If every variable a template mentions can be looked up, the loop yields
    the text of the parts in order. *)
Lemma render_inner_pure {S} (inv : S → Prop) ctx caps getv env t out s :
  (∀ id s, uses_var t id → inv s → ∃ s', getv id s = Some (env id, s') ∧ inv s') →
  inv s →
  ∃ s', render_inner ctx caps getv t out s = Some (out +:+ render_pure ctx caps env t, s')
    ∧ inv s'.
Proof.
  unfold render_pure. revert out s. induction t as [|p t IH]; intros out s Hg Hi.
  { exists s. cbn. by rewrite str_app_nil_r. }
  assert (∀ id s, uses_var t id → inv s → ∃ s', getv id s = Some (env id, s') ∧ inv s') as Hg'.
  { intros id s' [fb Hin]. apply Hg. exists fb. by right. }
  destruct p; cbn; try (rewrite <- str_app_assoc; by apply IH).
  destruct (Hg id s) as (s' & -> & Hi'); [exists fallback; by left|done|]. cbn.
  rewrite <- str_app_assoc. by apply IH.
Qed.

Lemma render_inner_empty {S} (inv : S → Prop) ctx caps getv env t s :
  (∀ id s, uses_var t id → inv s → ∃ s', getv id s = Some (env id, s') ∧ inv s') →
  inv s →
  ∃ s', render_inner ctx caps getv t "" s = Some (render_pure ctx caps env t, s') ∧ inv s'.
Proof. apply (render_inner_pure inv ctx caps getv env t ""). Qed.

(** ** What [refs] reports *)

Lemma push_new_elem {A} `{EqDecision A} (l : list A) x y : y ∈ push_new l x ↔ y ∈ l ∨ y = x.
Proof. unfold push_new. case_decide; set_solver. Qed.

Lemma refs_fold t r :
  let r' := fold_left refs_part t r in
  r_principal r' = r_principal r || references_principal t ∧
  (r_geoip r' = true ↔ r_geoip r = true ∨ ∃ fb, Var Country fb ∈ t) ∧
  (∀ n, n ∈ r_headers r' ↔ n ∈ r_headers r ∨ ∃ fb, Header n fb ∈ t) ∧
  (∀ id, id ∈ r_vars r' ↔ id ∈ r_vars r ∨ uses_var t id).
Proof.
  unfold uses_var. revert r. induction t as [|p t IH]; intros r; cbn [fold_left].
  { split_and!; [by rewrite orb_false_r|set_solver..]. }
  specialize (IH (refs_part r p)). destruct IH as (Hp & Hg & Hh & Hv).
  split_and!.
  - rewrite Hp. unfold references_principal. cbn.
    destruct p as [|[]| | | |]; cbn; by rewrite ?orb_true_r.
  - rewrite Hg. setoid_rewrite elem_of_cons. destruct p as [|[]| | | |]; cbn; naive_solver.
  - intros n. rewrite Hh. setoid_rewrite elem_of_cons.
    destruct p as [|[]| | | |]; cbn; rewrite ?push_new_elem; naive_solver.
  - intros id'. rewrite Hv. setoid_rewrite elem_of_cons.
    destruct p as [|[]| | | |]; cbn; rewrite ?push_new_elem; naive_solver.
Qed.

Lemma refs_principal t : r_principal (refs t) = references_principal t.
Proof. unfold refs. by destruct (refs_fold t refs_default) as [-> _]. Qed.

Lemma refs_vars t id : id ∈ r_vars (refs t) ↔ uses_var t id.
Proof.
  destruct (refs_fold t refs_default) as (_ & _ & _ & Hv). unfold refs. rewrite Hv.
  cbn. set_solver.
Qed.

Lemma refs_geoip t : r_geoip (refs t) = true ↔ ∃ fb, Var Country fb ∈ t.
Proof.
  destruct (refs_fold t refs_default) as (_ & Hg & _ & _). unfold refs. rewrite Hg.
  cbn. naive_solver.
Qed.

Lemma refs_headers t n : n ∈ r_headers (refs t) ↔ ∃ fb, Header n fb ∈ t.
Proof.
  destruct (refs_fold t refs_default) as (_ & _ & Hh & _). unfold refs. rewrite Hh.
  cbn. set_solver.
Qed.

Lemma references_principal_true t :
  references_principal t = true ↔ ∃ v fb, (v = Username ∨ v = Groups) ∧ Var v fb ∈ t.
Proof.
  unfold references_principal. rewrite existsb_exists. setoid_rewrite <- list_elem_of_In.
  split.
  - intros ([|[]| | | |] & Hin & Hp); try done; eauto 10.
  - intros (v & fb & [-> | ->] & Hin); eexists; split; done.
Qed.

Lemma lex_lossless_aux s : str_concat (tok_text <$> lex s) = s.
Proof. apply lex_loop_text. lia. Qed.

(** * Properties *)

(** Lexing loses nothing: the token and literal texts of a template
    string, in order, are the string itself, so an unrecognised token can be
    passed through verbatim. *)
Theorem lex_lossless s : str_concat (tok_text <$> lex s) = s.
Proof. apply lex_loop_text. lia. Qed.

(** Text without an opening brace is one literal and renders as itself,
    and in the lenient mode every token that is not a built-in variable is
    kept verbatim, so a template of such tokens renders to its own source. *)
Theorem parse_verbatim `{Http} ctx caps env s :
  (∀ v fb, Var v fb ∉ parse s) → render_pure ctx caps env (parse s) = s.
Proof.
  intros Hnv. unfold parse in *.
  assert (∃ t, build s None None = Ok t ∧ Forall2 (λ tok p, p = Literal (tok_text tok) ∨
    p = Unknown (tok_text tok) ∨ ∃ v fb, p = Var v fb) (lex s) t) as (t & Ht & Hf).
  { unfold build. induction (lex s) as [|tok l IH]; [by exists []|].
    destruct IH as (t & Ht & Hf). cbn. rewrite Ht.
    destruct tok as [x|name fb raw]; cbn; [eauto 10|].
    unfold build_token. destruct (known_var name); cbn; eauto 10. }
  rewrite Ht in *. transitivity (str_concat (tok_text <$> lex s)); [|apply lex_lossless_aux].
  clear Ht. unfold render_pure. induction Hf as [|tok p l t' Hp Hf IH]; [done|]. cbn.
  rewrite IH by (intros v fb Hin; apply (Hnv v fb); by right). f_equal.
  destruct Hp as [->|[->|(v & fb & ->)]]; [done..|]. destruct (Hnv v fb). by left.
Qed.

Lemma parse_verbatim_witness :
  let _ := assoc_http in
  render_pure empty_context None (λ _, "") (parse "a {b} {c") = "a {b} {c".
Proof.
  intros h. apply (parse_verbatim (H := h) empty_context None (λ _, "") "a {b} {c").
  intros v fb Hin%list_elem_of_In. vm_compute in Hin. intuition discriminate.
Defined.

End Template.
