(* ===== verification/Vars.v ===== *)
(** Config-defined variables ([src/vars.rs]): compiling the [variable]
    definitions of a scope chain into one table, rejecting dependency cycles,
    computing which request-time facilities each variable needs, and the
    lazy, memoized evaluation a request performs; then the header rules of
    [src/headers.rs], which render templates in such a scope.

    The recursions of the source follow the dependency graph.  Here they take
    fuel; [S n] for a table of [n] definitions is shown to be enough, both
    for the cycle check and, once that has accepted, for evaluation. *)
From S2P Require Import Prelude RustStr Http Template.

Module Vars.
Import Template.

(** * Configuration data ([src/config/mod.rs]) *)

Record VariableArm := {
  arm_pattern : option string;
  arm_text : string;
  arm_line : nat;
}.

Inductive VariableBody :=
  | Constant (template : string)
  | MatchOn (input : string) (arms : list VariableArm).

Record VariableDef := {
  def_name : string;
  def_body : VariableBody;
  def_line : nat;
}.

(** * Needs *)

Record VarNeeds := {
  n_principal : bool;
  n_geoip : bool;
  n_headers : list HeaderName;
  n_uses_vars : bool;
}.

Definition needs_default : VarNeeds :=
  {| n_principal := false; n_geoip := false; n_headers := []; n_uses_vars := false |}.

Definition merge (a b : VarNeeds) : VarNeeds :=
  {| n_principal := n_principal a || n_principal b;
     n_geoip := n_geoip a || n_geoip b;
     n_headers := fold_left push_new (n_headers b) (n_headers a);
     n_uses_vars := n_uses_vars a || n_uses_vars b |}.

Definition needs_any (n : VarNeeds) : bool :=
  n_principal n || n_geoip n || n_uses_vars n || bool_decide (n_headers n ≠ []).

Section vars.
Context `{Http} `{Regex}.

(** * The compiled table *)

Record Arm := {
  arm_regex : option regex;
  arm_value : Template;
}.

Inductive VarBody :=
  | Const (t : Template)
  | Match (input : Template) (arms : list Arm).

Record VarDef := {
  vd_name : string;
  vd_body : VarBody;
  vd_needs : VarNeeds;
}.

Record VarTable := {
  vt_defs : list VarDef;
  vt_names : VarNames;
}.

(** The templates of a body, in the order the source visits them. *)
Definition body_templates (b : VarBody) : list Template :=
  match b with
  | Const t => [t]
  | Match input arms => input :: (arm_value <$> arms)
  end.

Definition RESERVED : list string := ["request_id"; "port"; "header"].

Definition lower_char (c : ascii) : bool :=
  let n := N_of_ascii c in (97 <=? n) && (n <=? 122).

Definition name_char (c : ascii) : bool :=
  lower_char c || is_digit c || Ascii.eqb c "_".

Definition valid_name (s : string) : bool :=
  match s with
  | "" => false
  | String c s' => lower_char c && str_all name_char s'
  end.

(** ** Choosing the innermost definition of every name *)

Definition choose_spec (acc : VarNames * list VariableDef) (spec : VariableDef)
    : VarNames * list VariableDef :=
  let '(names, chosen) := acc in
  match vn_get names (def_name spec) with
  | Some id => (names, <[id := spec]> chosen)
  | None => (vn_insert names (def_name spec), chosen ++ [spec])
  end.

Fixpoint choose_layer (seen : gset string) (layer : list VariableDef)
    (acc : VarNames * list VariableDef) : Result (VarNames * list VariableDef) :=
  match layer with
  | [] => Ok acc
  | spec :: layer' =>
      if negb (valid_name (def_name spec)) then Err "invalid variable name"
      else if bool_decide (def_name spec ∈ BUILTIN_VARS ∨ def_name spec ∈ RESERVED)
      then Err "variable collides with a built-in or reserved variable name"
      else if bool_decide (def_name spec ∈ seen) then Err "duplicate variable"
      else choose_layer ({[def_name spec]} ∪ seen) layer' (choose_spec acc spec)
  end.

Fixpoint choose_layers (layers : list (list VariableDef))
    (acc : VarNames * list VariableDef) : Result (VarNames * list VariableDef) :=
  match layers with
  | [] => Ok acc
  | layer :: layers' => acc' ← choose_layer ∅ layer acc; choose_layers layers' acc'
  end.

(** ** Compiling bodies *)

Definition compile_arm (arm : VariableArm) (names : VarNames) : Result Arm :=
  match arm_pattern arm with
  | None =>
      value ← compile_with_captures (arm_text arm) names empty_scope;
      Ok {| arm_regex := None; arm_value := value |}
  | Some pat =>
      re ← ok_or (regex_new pat) "invalid pattern";
      let caps := from_regex re in
      if bool_decide (Exists (λ n, n ∈ BUILTIN_VARS ∨ is_Some (vn_get names n)) (cs_names caps).*1)
      then Err "capture name collides with a variable name"
      else
        value ← compile_with_captures (arm_text arm) names caps;
        Ok {| arm_regex := Some re; arm_value := value |}
  end.

Fixpoint compile_arms (arms : list VariableArm) (names : VarNames) : Result (list Arm) :=
  match arms with
  | [] => Ok []
  | arm :: arms' =>
      if bool_decide (arm_pattern arm = None ∧ arms' ≠ [])
      then Err "arms after the catch-all are unreachable"
      else
        a ← compile_arm arm names;
        rest ← compile_arms arms' names;
        Ok (a :: rest)
  end.

Definition compile_body (spec : VariableDef) (names : VarNames) : Result VarBody :=
  match def_body spec with
  | Constant t => t ← compile t names; Ok (Const t)
  | MatchOn input arms =>
      input ← compile input names;
      arms ← compile_arms arms names;
      Ok (Match input arms)
  end.

Definition compile_def (names : VarNames) (spec : VariableDef) : Result VarDef :=
  body ← compile_body spec names;
  Ok {| vd_name := def_name spec; vd_body := body; vd_needs := needs_default |}.

(** ** Dependencies and the cycle check *)

Definition deps_of (tbl : VarTable) (i : nat) : list nat :=
  match vt_defs tbl !! i with
  | Some def =>
      fold_left (λ ids t, fold_left push_new (r_vars (refs t)) ids)
        (body_templates (vd_body def)) []
  | None => []
  end.

(** Visit each dependency in turn, stopping at the first error. *)
Fixpoint dfs_list (rec : nat → list nat → list nat → option (Result (list nat * list nat)))
    (ds : list nat) (state stack : list nat) : option (Result (list nat * list nat)) :=
  match ds with
  | [] => Some (Ok (state, stack))
  | d :: ds' =>
      r ← rec d state stack;
      match r with
      | Ok (state', stack') => dfs_list rec ds' state' stack'
      | Err e => Some (Err e)
      end
  end.

(** [state]: 0 = unvisited, 1 = on the current path, 2 = done.  [None] is
    exhausted fuel. *)
Fixpoint cycle_dfs (tbl : VarTable) (fuel : nat) (i : nat) (state stack : list nat)
    : option (Result (list nat * list nat)) :=
  match fuel with
  | O => None
  | S fuel' =>
      match state !! i with
      | None => Some (Err "index out of bounds")
      | Some 2%nat => Some (Ok (state, stack))
      | Some 1%nat => Some (Err "variable dependency cycle")
      | Some _ =>
          r ← dfs_list (cycle_dfs tbl fuel') (deps_of tbl i) (<[i := 1%nat]> state) (stack ++ [i]);
          match r with
          | Ok (state', stack') => Some (Ok (<[i := 2%nat]> state', removelast stack'))
          | Err e => Some (Err e)
          end
      end
  end.

Definition check_cycles (tbl : VarTable) : option (Result ()) :=
  let n := length (vt_defs tbl) in
  r ← dfs_list (cycle_dfs tbl (S n)) (seq 0 n) (replicate n 0%nat) [];
  match r with
  | Ok _ => Some (Ok ())
  | Err e => Some (Err e)
  end.

(** ** Transitive needs *)

(** [take]: fold one template's direct references into a variable's needs. *)
Definition take_needs (nd : VarNeeds) (t : Template) : VarNeeds :=
  let r := refs t in
  {| n_principal := n_principal nd || r_principal r;
     n_geoip := n_geoip nd || r_geoip r;
     n_headers := fold_left push_new (r_headers r) (n_headers nd);
     n_uses_vars := n_uses_vars nd |}.

Definition direct_needs (def : VarDef) : VarNeeds :=
  fold_left take_needs (body_templates (vd_body def)) needs_default.

(** Merge the needs of each dependency, resolving it first. *)
Fixpoint resolve_list
    (rec : nat → list (option VarNeeds) → option (VarNeeds * list (option VarNeeds)))
    (ds : list nat) (nd : VarNeeds) (resolved : list (option VarNeeds))
    : option (VarNeeds * list (option VarNeeds)) :=
  match ds with
  | [] => Some (nd, resolved)
  | d :: ds' =>
      '(sub, resolved') ← rec d resolved;
      resolve_list rec ds' (merge nd sub) resolved'
  end.

Fixpoint resolve_needs (tbl : VarTable) (fuel : nat) (i : nat)
    (resolved : list (option VarNeeds)) : option (VarNeeds * list (option VarNeeds)) :=
  match fuel with
  | O => None
  | S fuel' =>
      match resolved !! i with
      | Some (Some nd) => Some (nd, resolved)
      | _ =>
          def ← vt_defs tbl !! i;
          '(nd, resolved') ←
            resolve_list (resolve_needs tbl fuel') (deps_of tbl i) (direct_needs def) resolved;
          Some (nd, <[i := Some nd]> resolved')
      end
  end.

Fixpoint resolve_all (tbl : VarTable) (fuel : nat) (ixs : list nat)
    (resolved : list (option VarNeeds)) : option (list (option VarNeeds)) :=
  match ixs with
  | [] => Some resolved
  | i :: ixs' =>
      '(_, resolved') ← resolve_needs tbl fuel i resolved;
      resolve_all tbl fuel ixs' resolved'
  end.

Definition set_needs (def : VarDef) (r : option VarNeeds) : VarDef :=
  match r with
  | Some nd => {| vd_name := vd_name def; vd_body := vd_body def; vd_needs := nd |}
  | None => def
  end.

Definition compute_needs (tbl : VarTable) : option VarTable :=
  let n := length (vt_defs tbl) in
  resolved ← resolve_all tbl (S n) (seq 0 n) (replicate n None);
  Some {| vt_defs := zip_with set_needs (vt_defs tbl) resolved; vt_names := vt_names tbl |}.

Definition build_layered (layers : list (list VariableDef)) : option (Result VarTable) :=
  match choose_layers layers (vn_default, []) with
  | Err e => Some (Err e)
  | Ok (names, chosen) =>
      match try_map (compile_def names) chosen with
      | Err e => Some (Err e)
      | Ok defs =>
          let table := {| vt_defs := defs; vt_names := names |} in
          r ← check_cycles table;
          match r with
          | Err e => Some (Err e)
          | Ok _ => table' ← compute_needs table; Some (Ok table')
          end
      end
  end.

Definition build_table (specs : list VariableDef) : option (Result VarTable) :=
  build_layered [specs].

Definition needs_of (tbl : VarTable) (id : VarId) : option VarNeeds :=
  vd_needs <$> vt_defs tbl !! id.

Definition any_needs_geoip (tbl : VarTable) : bool :=
  existsb (λ d, n_geoip (vd_needs d)) (vt_defs tbl).

(** [VarNeeds::absorb]; an id outside the table would panic. *)
Definition absorb (nd : VarNeeds) (t : Template) (tbl : VarTable) : option VarNeeds :=
  let r := refs t in
  let nd := {| n_principal := n_principal nd || r_principal r;
               n_geoip := n_geoip nd || r_geoip r;
               n_headers := fold_left push_new (r_headers r) (n_headers nd);
               n_uses_vars := n_uses_vars nd |} in
  foldl (λ acc id,
      nd ← acc;
      sub ← needs_of tbl id;
      Some (merge {| n_principal := n_principal nd; n_geoip := n_geoip nd;
                     n_headers := n_headers nd; n_uses_vars := true |} sub))
    (Some nd) (r_vars r).

(** * Evaluation *)

Abbreviation slots := (list (option string)) (only parsing).

Definition new_slots (tbl : VarTable) : slots := replicate (length (vt_defs tbl)) None.

Fixpoint eval_arms {S} (ctx : RequestContext) (getv : VarId → S → option (string * S))
    (input : string) (arms : list Arm) (s : S) : option (string * S) :=
  match arms with
  | [] => Some ("", s)
  | arm :: arms' =>
      match arm_regex arm with
      | None => render_inner ctx None getv (arm_value arm) "" s
      | Some re =>
          match regex_captures re input with
          | Some caps => render_inner ctx (Some caps) getv (arm_value arm) "" s
          | None => eval_arms ctx getv input arms' s
          end
      end
  end.

Definition eval {S} (tbl : VarTable) (ctx : RequestContext)
    (getv : VarId → S → option (string * S)) (id : VarId) (s : S) : option (string * S) :=
  match vt_defs tbl !! id with
  | None => Some ("", s)
  | Some def =>
      match vd_body def with
      | Const t => render_inner ctx None getv t "" s
      | Match input arms =>
          '(input, s') ← render_inner ctx None getv input "" s;
          eval_arms ctx getv input arms s'
      end
  end.

(** [VarScope::get] on a live scope: serve the slot, or compute and set it. *)
Fixpoint scope_get (fuel : nat) (tbl : VarTable) (ctx : RequestContext) (id : VarId)
    (s : slots) : option (string * slots) :=
  match fuel with
  | O => None
  | S fuel' =>
      match s !! id with
      | None => Some ("", s)
      | Some (Some v) => Some (v, s)
      | Some None =>
          '(value, s1) ← eval tbl ctx (scope_get fuel' tbl ctx) id s;
          let s2 := match s1 !! id with
                    | Some None => <[id := Some value]> s1
                    | _ => s1
                    end in
          Some (default "" (mjoin (s2 !! id)), s2)
      end
  end.

(** [VarScope]: [None] is the empty scope of a route without variables. *)
Abbreviation VarScope := (option VarTable) (only parsing).

Definition get_var (sc : VarScope) (ctx : RequestContext) (id : VarId) (s : slots)
    : option (string * slots) :=
  match sc with
  | None => Some ("", s)
  | Some tbl => scope_get (S (length (vt_defs tbl))) tbl ctx id s
  end.

Definition render (sc : VarScope) (ctx : RequestContext) (t : Template) (s : slots)
    : option (string * slots) :=
  render_inner ctx None (get_var sc ctx) t "" s.

Definition render_with_captures (sc : VarScope) (ctx : RequestContext) (t : Template)
    (caps : list (option string)) (s : slots) : option (string * slots) :=
  render_inner ctx (Some caps) (get_var sc ctx) t "" s.

(** * Dependency graphs *)

Definition dep (tbl : VarTable) (i d : nat) : Prop := d ∈ deps_of tbl i.

(** A variable is grounded when everything it depends on is. *)
Definition grounded (tbl : VarTable) (i : nat) : Prop := Acc (λ d i, dep tbl i d) i.

(** Every dependency names a definition of the table. *)
Definition deps_in_range (tbl : VarTable) : Prop :=
  ∀ i d, dep tbl i d → (d < length (vt_defs tbl))%nat.

Lemma fold_push_new_elem {A} `{EqDecision A} (l acc : list A) x :
  x ∈ fold_left push_new l acc ↔ x ∈ acc ∨ x ∈ l.
Proof.
  revert acc. induction l as [|y l IH]; intros acc; cbn; [set_solver|].
  rewrite IH, push_new_elem. set_solver.
Qed.

Lemma dep_spec tbl i d :
  dep tbl i d ↔ ∃ def t, vt_defs tbl !! i = Some def ∧
    t ∈ body_templates (vd_body def) ∧ uses_var t d.
Proof.
  unfold dep, deps_of. destruct (vt_defs tbl !! i) as [def|] eqn:E; [|set_solver].
  assert (∀ ts acc, d ∈ fold_left (λ ids t, fold_left push_new (r_vars (refs t)) ids) ts acc
    ↔ d ∈ acc ∨ ∃ t, t ∈ ts ∧ uses_var t d) as Hf.
  { induction ts as [|t ts IH]; intros acc; cbn; [set_solver|].
    rewrite IH, fold_push_new_elem, refs_vars. set_solver. }
  rewrite Hf. split.
  - intros [Hd|(t & Hin & Hu)]; [by apply elem_of_nil in Hd|]. eauto.
  - intros (def' & t & [= <-] & Hin & Hu). eauto.
Qed.

Lemma grounded_irrefl tbl i : grounded tbl i → ¬ tc (dep tbl) i i.
Proof.
  induction 1 as [i _ IH]. inversion 1 as [? ? Hd|? y ? Hd Ht]; subst.
  - eapply IH; [exact Hd|]. by apply tc_once.
  - eapply IH; [exact Hd|]. by eapply tc_r.
Qed.

(** ** The cycle check *)

Definition black (st : list nat) (j : nat) : Prop := st !! j = Some 2%nat.
Definition gray (st : list nat) (j : nat) : Prop := st !! j = Some 1%nat.

Definition blacks_ok (tbl : VarTable) (st : list nat) : Prop :=
  ∀ j, black st j → grounded tbl j.

(** What a successful visit may do to the colouring. *)
Record visits (st st' : list nat) : Prop := {
  v_length : length st' = length st;
  v_black : ∀ j, black st j → black st' j;
  v_gray : ∀ j, gray st' j ↔ gray st j;
}.

Lemma visits_refl st : visits st st.
Proof. by split. Qed.

Lemma visits_trans st1 st2 st3 : visits st1 st2 → visits st2 st3 → visits st1 st3.
Proof.
  intros [L1 B1 G1] [L2 B2 G2]. split; [congruence|auto|].
  intros j. by rewrite G2, G1.
Qed.

(** Colour a node grey, visit, colour it black. *)
Lemma visits_node st st' i c :
  st !! i = Some c → c ≠ 1%nat → c ≠ 2%nat →
  visits (<[i := 1%nat]> st) st' → visits st (<[i := 2%nat]> st').
Proof.
  intros Hi Hc1 Hc2 [L B G]. rewrite length_insert in L.
  assert (i < length st)%nat as Hlt by (by eapply lookup_lt_Some).
  split; [by rewrite length_insert|..].
  - intros j Hj. unfold black in *. destruct (decide (i = j)) as [->|Hne].
    + rewrite list_lookup_insert_eq; [done|lia].
    + rewrite list_lookup_insert_ne by done. apply B. unfold black.
      by rewrite list_lookup_insert_ne.
  - intros j. unfold gray in *. destruct (decide (i = j)) as [->|Hne].
    + rewrite list_lookup_insert_eq by lia. split; [done|congruence].
    + rewrite list_lookup_insert_ne, G by done. by rewrite list_lookup_insert_ne.
Qed.

Section dfs_list.
Context (rec : nat → list nat → list nat → option (Result (list nat * list nat))).

Lemma dfs_list_sound tbl ds st sk st' sk' :
  (∀ d st sk st' sk', rec d st sk = Some (Ok (st', sk')) → blacks_ok tbl st →
     blacks_ok tbl st' ∧ visits st st' ∧ black st' d) →
  dfs_list rec ds st sk = Some (Ok (st', sk')) → blacks_ok tbl st →
  blacks_ok tbl st' ∧ visits st st' ∧ ∀ d, d ∈ ds → black st' d.
Proof.
  intros Hrec. revert st sk. induction ds as [|d ds IH]; intros st sk; cbn.
  - intros [= <- <-] Hok. split; [exact Hok|]. split; [apply visits_refl|].
    intros d Hd. by apply elem_of_nil in Hd.
  - destruct (rec d st sk) as [[[st1 sk1]|]|] eqn:E; cbn; [|discriminate..].
    intros Hds Hok. destruct (Hrec _ _ _ _ _ E Hok) as (Hok1 & V1 & B1).
    destruct (IH _ _ Hds Hok1) as (Hok' & V' & B').
    split; [exact Hok'|]. split; [by eapply visits_trans|].
    intros x [->|Hx]%elem_of_cons; [by apply V'|by apply B'].
Qed.

(** Fuel: the visit of each dependency succeeds or fails with an error, and
    leaves no more unvisited nodes than before. *)
Lemma dfs_list_total (white : list nat → nat) (bound : nat) ds st sk :
  (∀ d st sk, (white st ≤ bound)%nat → ∃ r, rec d st sk = Some r ∧
     ∀ st' sk', r = Ok (st', sk') → (white st' ≤ white st)%nat) →
  (white st ≤ bound)%nat →
  ∃ r, dfs_list rec ds st sk = Some r ∧
    ∀ st' sk', r = Ok (st', sk') → (white st' ≤ white st)%nat.
Proof.
  intros Hrec. revert st sk. induction ds as [|d ds IH]; intros st sk Hw; cbn.
  - eexists. split; [done|]. by intros ?? [= <- <-].
  - destruct (Hrec d st sk Hw) as ([[st1 sk1]|e] & -> & Hr); cbn; [|by eexists].
    specialize (Hr _ _ eq_refl). destruct (IH st1 sk1) as (r & -> & Hr'); [lia|].
    eexists. split; [done|]. intros st' sk' ->. specialize (Hr' _ _ eq_refl). lia.
Qed.

Lemma dfs_list_complete (ok : list nat → nat → Prop) ds st sk e :
  (∀ d st st', ok st d → visits st st' → ok st' d) →
  (∀ d st sk, ok st d → ∀ e, rec d st sk ≠ Some (Err e)) →
  (∀ d st sk st' sk', rec d st sk = Some (Ok (st', sk')) → visits st st') →
  (∀ d, d ∈ ds → ok st d) →
  dfs_list rec ds st sk ≠ Some (Err e).
Proof.
  intros Hmono Hok Hv. revert st sk. induction ds as [|d ds IH]; intros st sk Hds; cbn; [done|].
  destruct (rec d st sk) as [[[st1 sk1]|e']|] eqn:E; cbn; [| |done].
  - apply IH. intros x Hx. eapply Hmono; [|by eapply Hv]. apply Hds. by right.
  - intros _. eapply Hok; [|exact E]. apply Hds. by left.
Qed.

End dfs_list.

Lemma dfs_list_visits rec ds st sk st' sk' :
  (∀ d st sk st' sk', rec d st sk = Some (Ok (st', sk')) → visits st st') →
  dfs_list rec ds st sk = Some (Ok (st', sk')) → visits st st'.
Proof.
  intros Hrec. revert st sk. induction ds as [|d ds IH]; intros st sk; cbn.
  - intros [= <- <-]. apply visits_refl.
  - destruct (rec d st sk) as [[[st1 sk1]|]|] eqn:E; cbn; [|discriminate..].
    intros Hds. eapply visits_trans; [by eapply Hrec|by eapply IH].
Qed.

(** The visit of an unvisited node. *)
Lemma cycle_dfs_white tbl fuel i st sk c :
  st !! i = Some c → c ≠ 1%nat → c ≠ 2%nat →
  cycle_dfs tbl (S fuel) i st sk =
    (r ← dfs_list (cycle_dfs tbl fuel) (deps_of tbl i) (<[i := 1%nat]> st) (sk ++ [i]);
     match r with
     | Ok (st', sk') => Some (Ok (<[i := 2%nat]> st', removelast sk'))
     | Err e => Some (Err e)
     end).
Proof. intros E H1 H2. cbn. rewrite E. destruct c as [|[|[|c]]]; congruence. Qed.

Lemma cycle_dfs_visits tbl fuel i st sk st' sk' :
  cycle_dfs tbl fuel i st sk = Some (Ok (st', sk')) → visits st st'.
Proof.
  revert i st sk st' sk'. induction fuel as [|fuel IH]; intros i st sk st' sk'; [discriminate|].
  destruct (st !! i) as [c|] eqn:E; [|cbn; rewrite E; discriminate].
  destruct (decide (c = 1%nat)) as [->|H1]; [cbn; rewrite E; discriminate|].
  destruct (decide (c = 2%nat)) as [->|H2].
  { cbn. rewrite E. intros [= <- <-]. apply visits_refl. }
  rewrite (cycle_dfs_white _ _ _ _ _ c) by done.
  destruct (dfs_list _ _ _ _) as [[[st1 sk1]|]|] eqn:Ed; cbn; [|discriminate..].
  intros [= <- <-]. eapply visits_node; [done..|]. eapply dfs_list_visits; [|exact Ed].
  intros. by eapply IH.
Qed.

Lemma cycle_dfs_sound tbl fuel i st sk st' sk' :
  cycle_dfs tbl fuel i st sk = Some (Ok (st', sk')) → blacks_ok tbl st →
  blacks_ok tbl st' ∧ visits st st' ∧ black st' i.
Proof.
  intros Hr Hok. pose proof (cycle_dfs_visits _ _ _ _ _ _ _ Hr) as V.
  revert i st sk st' sk' Hr Hok V.
  induction fuel as [|fuel IH]; intros i st sk st' sk'; [discriminate|].
  destruct (st !! i) as [c|] eqn:E; [|cbn; rewrite E; discriminate].
  destruct (decide (c = 1%nat)) as [->|H1]; [cbn; rewrite E; discriminate|].
  destruct (decide (c = 2%nat)) as [->|H2].
  { cbn. rewrite E. intros [= <- <-] Hok V. split; [exact Hok|]. by split. }
  rewrite (cycle_dfs_white _ _ _ _ _ c) by done.
  destruct (dfs_list _ _ _ _) as [[[st1 sk1]|]|] eqn:Ed; cbn; [|discriminate..].
  intros [= <- <-] Hok V. assert (i < length st)%nat as Hlt by (by eapply lookup_lt_Some).
  destruct (dfs_list_sound _ tbl _ _ _ _ _ (λ d st sk st' sk' Hr Ho,
    IH d st sk st' sk' Hr Ho (cycle_dfs_visits _ _ _ _ _ _ _ Hr)) Ed) as (Hok1 & V1 & B1).
  { intros j Hj. apply Hok. unfold black in *. destruct (decide (i = j)) as [->|].
    - rewrite list_lookup_insert_eq in Hj by done. discriminate.
    - by rewrite list_lookup_insert_ne in Hj. }
  assert (i < length st1)%nat by (rewrite (v_length _ _ V1), length_insert; done).
  split; [|split; [exact V|unfold black; by rewrite list_lookup_insert_eq]].
  intros j Hj. unfold black in Hj. destruct (decide (i = j)) as [->|Hne].
  - constructor. intros d Hd. by apply Hok1, B1.
  - apply Hok1. unfold black. by rewrite list_lookup_insert_ne in Hj.
Qed.

(** Number of nodes neither on the path nor done. *)
Definition whites (st : list nat) : nat :=
  length (filter (λ c, c ≠ 1%nat ∧ c ≠ 2%nat) st).

Lemma whites_insert st i c x :
  st !! i = Some c → x = 1%nat ∨ x = 2%nat →
  (whites (<[i := x]> st) + (if decide (c ≠ 1%nat ∧ c ≠ 2%nat) then 1 else 0) = whites st)%nat.
Proof.
  unfold whites. intros Hi Hx. revert i Hi.
  induction st as [|y st IH]; intros i Hi; [done|]. destruct i as [|i]; cbn in Hi.
  - injection Hi as ->. change (<[0%nat := x]> (c :: st)) with (x :: st). rewrite !filter_cons.
    rewrite (decide_False (P := x ≠ 1%nat ∧ x ≠ 2%nat)) by (destruct Hx; lia).
    case_decide; cbn; lia.
  - change (<[S i := x]> (y :: st)) with (y :: <[i := x]> st).
    rewrite !filter_cons. specialize (IH i Hi).
    destruct (decide (y ≠ 1%nat ∧ y ≠ 2%nat)); cbn [length]; lia.
Qed.

Lemma cycle_dfs_total tbl fuel i st sk :
  (whites st < fuel)%nat → ∃ r, cycle_dfs tbl fuel i st sk = Some r ∧
    ∀ st' sk', r = Ok (st', sk') → (whites st' ≤ whites st)%nat.
Proof.
  revert i st sk. induction fuel as [|fuel IH]; intros i st sk Hw; [lia|].
  destruct (st !! i) as [c|] eqn:E; [|cbn; rewrite E; by eexists].
  destruct (decide (c = 1%nat)) as [->|H1]; [cbn; rewrite E; by eexists|].
  destruct (decide (c = 2%nat)) as [->|H2].
  { cbn. rewrite E. eexists. split; [done|]. by intros ?? [= <- <-]. }
  rewrite (cycle_dfs_white _ _ _ _ _ c) by done.
  pose proof (whites_insert st i c 1 E ltac:(by left)) as Hwi.
  rewrite decide_True in Hwi by done.
  destruct (dfs_list_total (cycle_dfs tbl fuel) whites (fuel - 1) (deps_of tbl i)
    (<[i := 1%nat]> st) (sk ++ [i])) as (r & -> & Hr).
  - intros d st1 sk1 Hle. apply IH. lia.
  - lia.
  - cbn. destruct r as [[st1 sk1]|e]; [|by eexists]. specialize (Hr _ _ eq_refl).
    eexists. split; [done|]. intros ?? [= <- <-].
    destruct (st1 !! i) as [c1|] eqn:E1.
    + pose proof (whites_insert st1 i c1 2 E1 ltac:(by right)). case_decide; lia.
    + rewrite list_insert_ge; [lia|]. by apply lookup_ge_None.
Qed.

(** A visit cannot fail when the node is grounded and every node on the
    current path leads to it. *)
Definition path_ok (tbl : VarTable) (st : list nat) (d : nat) : Prop :=
  (d < length st)%nat ∧ grounded tbl d ∧ ∀ j, gray st j → tc (dep tbl) j d.

Lemma path_ok_visits tbl st st' d : path_ok tbl st d → visits st st' → path_ok tbl st' d.
Proof.
  intros (Hl & Hg & Hj) [L B G]. split; [lia|]. split; [exact Hg|].
  intros j Hgj. by apply Hj, G.
Qed.

Lemma cycle_dfs_complete tbl fuel i st sk e :
  deps_in_range tbl → length st = length (vt_defs tbl) → path_ok tbl st i →
  cycle_dfs tbl fuel i st sk ≠ Some (Err e).
Proof.
  intros Hrange. revert e i st sk. induction fuel as [|fuel IH]; intros e i st sk Hlen; [done|].
  intros (Hl & Hg & Hj).
  destruct (st !! i) as [c|] eqn:E; [|apply lookup_ge_None in E; lia].
  destruct (decide (c = 1%nat)) as [->|H1].
  { exfalso. by eapply grounded_irrefl, Hj. }
  destruct (decide (c = 2%nat)) as [->|H2]; [cbn; rewrite E; discriminate|].
  rewrite (cycle_dfs_white _ _ _ _ _ c) by done.
  destruct (dfs_list _ _ _ _) as [[[st1 sk1]|e']|] eqn:Ed; cbn; [discriminate| |discriminate].
  exfalso. revert Ed. apply (dfs_list_complete (cycle_dfs tbl fuel)
    (λ st d, length st = length (vt_defs tbl) ∧ path_ok tbl st d)).
  - intros d s1 s2 [Hs1 Hp] V. split; [by rewrite (v_length _ _ V)|by eapply path_ok_visits].
  - intros d s1 sk1 [Hs1 Hp] e1. by apply IH.
  - intros. by eapply cycle_dfs_visits.
  - intros d Hd. split; [by rewrite length_insert|]. split; [|split].
    + rewrite length_insert, Hlen. by eapply Hrange.
    + by apply (Acc_inv Hg).
    + intros j Hgj. unfold gray in Hgj. destruct (decide (i = j)) as [->|Hne].
      * by apply tc_once.
      * rewrite list_lookup_insert_ne in Hgj by done. eapply tc_r; [by apply Hj|done].
Qed.

Lemma whites_replicate n : whites (replicate n 0%nat) = n.
Proof.
  unfold whites. induction n as [|n IH]; [done|].
  change (replicate (S n) 0%nat) with (0%nat :: replicate n 0%nat).
  rewrite filter_cons_True by lia. cbn [length]. by rewrite IH.
Qed.

Lemma check_cycles_total tbl : ∃ r, check_cycles tbl = Some r.
Proof.
  unfold check_cycles. set (n := length (vt_defs tbl)).
  destruct (dfs_list_total (cycle_dfs tbl (S n)) whites n (seq 0 n) (replicate n 0%nat) [])
    as (r & -> & _).
  - intros d st sk Hw. apply cycle_dfs_total. lia.
  - by rewrite whites_replicate.
  - destruct r; by eexists.
Qed.

Lemma check_cycles_grounded tbl :
  check_cycles tbl = Some (Ok ()) →
  ∀ i, (i < length (vt_defs tbl))%nat → grounded tbl i.
Proof.
  unfold check_cycles. set (n := length (vt_defs tbl)).
  destruct (dfs_list _ _ _ _) as [[[st sk]|]|] eqn:E; cbn; [|discriminate..]. intros _.
  destruct (dfs_list_sound (cycle_dfs tbl (S n)) tbl (seq 0 n) (replicate n 0%nat) [] st sk)
    as (Hok & _ & B); [|exact E|..].
  - intros. by eapply cycle_dfs_sound.
  - intros j Hj. unfold black in Hj. apply lookup_replicate in Hj as [? _]. discriminate.
  - intros i Hi. apply Hok, B. apply elem_of_seq. lia.
Qed.

Lemma grounded_check_cycles tbl :
  deps_in_range tbl → (∀ i, (i < length (vt_defs tbl))%nat → grounded tbl i) →
  check_cycles tbl = Some (Ok ()).
Proof.
  intros Hrange Hg. destruct (check_cycles_total tbl) as [[[]|e] Hr]; [done|]. exfalso.
  unfold check_cycles in Hr. set (n := length (vt_defs tbl)) in *.
  destruct (dfs_list _ _ _ _) as [[[st sk]|e']|] eqn:E; cbn in Hr; [discriminate| |discriminate].
  revert E. apply (dfs_list_complete (cycle_dfs tbl (S n))
    (λ st d, length st = n ∧ path_ok tbl st d)).
  - intros d s1 s2 [Hs1 Hp] V. split; [by rewrite (v_length _ _ V)|by eapply path_ok_visits].
  - intros d s1 sk1 [Hs1 Hp] e1. by apply cycle_dfs_complete.
  - intros. by eapply cycle_dfs_visits.
  - intros d Hd. apply elem_of_seq in Hd. split; [by rewrite length_replicate|].
    split; [rewrite length_replicate; lia|]. split; [apply Hg; lia|].
    intros j Hj. unfold gray in Hj. apply lookup_replicate in Hj as [? _]. discriminate.
Qed.

(** ** Walking an acyclic table

    The ancestors of a node on a dependency walk are distinct and in range,
    so a walk is never longer than the table. *)

Definition acyclic (tbl : VarTable) : Prop :=
  deps_in_range tbl ∧ ∀ i, (i < length (vt_defs tbl))%nat → grounded tbl i.

Record on_path (tbl : VarTable) (path : list nat) (i : nat) : Prop := {
  op_nodup : NoDup (i :: path);
  op_range : Forall (λ j, j < length (vt_defs tbl))%nat (i :: path);
  op_leads : ∀ p, p ∈ path → tc (dep tbl) p i;
}.

Lemma on_path_nil tbl i : (i < length (vt_defs tbl))%nat → on_path tbl [] i.
Proof.
  intros Hi. split.
  - apply NoDup_singleton.
  - by repeat constructor.
  - intros p Hp. by apply elem_of_nil in Hp.
Qed.

Lemma on_path_length tbl path i : on_path tbl path i → (length path < length (vt_defs tbl))%nat.
Proof.
  intros [Hnd Hr _].
  assert (length (i :: path) ≤ length (seq 0 (length (vt_defs tbl))))%nat as Hle.
  { apply submseteq_length, NoDup_submseteq; [done|]. intros x Hx.
    rewrite Forall_forall in Hr. apply Hr in Hx. apply elem_of_seq. lia. }
  rewrite length_seq in Hle. cbn in Hle. lia.
Qed.

Lemma on_path_step tbl path i d :
  acyclic tbl → on_path tbl path i → dep tbl i d → on_path tbl (i :: path) d.
Proof.
  intros [Hrange Hg] [Hnd Hr Hl] Hd.
  assert (∀ p, p ∈ i :: path → tc (dep tbl) p d) as Hl'.
  { intros p [->|Hp]%elem_of_cons; [by apply tc_once|]. eapply tc_r; [by apply Hl|done]. }
  split; [|by constructor; [eapply Hrange|]|done].
  apply NoDup_cons. split; [|done]. intros Hin.
  eapply (grounded_irrefl tbl d); [apply Hg; by eapply Hrange|by apply Hl'].
Qed.

(** ** The value of a variable *)

Fixpoint arms_value (ctx : RequestContext) (env : nat → string) (input : string)
    (arms : list Arm) : string :=
  match arms with
  | [] => ""
  | arm :: arms' =>
      match arm_regex arm with
      | None => render_pure ctx None env (arm_value arm)
      | Some re =>
          match regex_captures re input with
          | Some caps => render_pure ctx (Some caps) env (arm_value arm)
          | None => arms_value ctx env input arms'
          end
      end
  end.

(** The right-hand side of the defining equation of variable [i]. *)
Definition body_value (tbl : VarTable) (ctx : RequestContext) (env : nat → string)
    (i : nat) : string :=
  match vt_defs tbl !! i with
  | None => ""
  | Some def =>
      match vd_body def with
      | Const t => render_pure ctx None env t
      | Match input arms => arms_value ctx env (render_pure ctx None env input) arms
      end
  end.

Fixpoint denote (fuel : nat) (tbl : VarTable) (ctx : RequestContext) (i : nat) : string :=
  match fuel with
  | O => ""
  | S fuel' => body_value tbl ctx (denote fuel' tbl ctx) i
  end.

Lemma render_pure_ext ctx ctx' caps env env' t :
  (∀ p, p ∈ t → part_text ctx caps env p = part_text ctx' caps env' p) →
  render_pure ctx caps env t = render_pure ctx' caps env' t.
Proof.
  intros Hp. unfold render_pure. f_equal. apply list_fmap_ext.
  intros k p Hk. apply Hp. by eapply list_elem_of_lookup_2.
Qed.

(** The value only depends on the context through the templates of the body
    and on the environment through the dependencies. *)
Lemma body_value_ext tbl ctx ctx' env env' i :
  (∀ def t caps p, vt_defs tbl !! i = Some def → t ∈ body_templates (vd_body def) → p ∈ t →
     part_text ctx caps env p = part_text ctx' caps env' p) →
  body_value tbl ctx env i = body_value tbl ctx' env' i.
Proof.
  unfold body_value. destruct (vt_defs tbl !! i) as [def|]; [|done]. intros Hp.
  destruct (vd_body def) as [t|input arms] eqn:Eb.
  - apply render_pure_ext. intros p Hin. eapply Hp; [done| |done]. rewrite Eb. by left.
  - assert (render_pure ctx None env input = render_pure ctx' None env' input) as ->.
    { apply render_pure_ext. intros p Hin. eapply Hp; [done| |done]. rewrite Eb. by left. }
    assert (∀ arm, arm ∈ arms → ∀ caps,
      render_pure ctx caps env (arm_value arm) = render_pure ctx' caps env' (arm_value arm)) as Ha.
    { intros arm Hin caps. apply render_pure_ext. intros p Hp'. eapply Hp; [done| |done].
      rewrite Eb. right. by apply list_elem_of_fmap_2. }
    clear Hp Eb. induction arms as [|arm arms IH]; [done|]. cbn.
    rewrite <- IH by (intros; apply Ha; by right).
    destruct (arm_regex arm); [case_match; [|done]|]; apply Ha; by left.
Qed.

Lemma body_value_env tbl ctx env env' i :
  (∀ d, dep tbl i d → env d = env' d) → body_value tbl ctx env i = body_value tbl ctx env' i.
Proof.
  intros He. apply body_value_ext. intros def t caps p Hd Ht Hp.
  destruct p; cbn; try done. f_equal. apply He. apply dep_spec. exists def, t.
  split; [done|]. split; [done|]. by eexists.
Qed.

Lemma denote_stable tbl ctx f g path i :
  acyclic tbl → on_path tbl path i →
  (length (vt_defs tbl) ≤ f + length path)%nat → (length (vt_defs tbl) ≤ g + length path)%nat →
  denote f tbl ctx i = denote g tbl ctx i.
Proof.
  intros Ha. revert g path i. induction f as [|f IH]; intros g path i Hp Hf Hg.
  { apply on_path_length in Hp. lia. }
  destruct g as [|g]; [apply on_path_length in Hp; lia|]. cbn.
  apply body_value_env. intros d Hd. apply (IH g (i :: path)); cbn; [|lia..].
  by apply on_path_step.
Qed.

Definition env_of (tbl : VarTable) (ctx : RequestContext) : nat → string :=
  denote (length (vt_defs tbl)) tbl ctx.

Lemma env_of_eq tbl ctx i :
  acyclic tbl → env_of tbl ctx i = body_value tbl ctx (env_of tbl ctx) i.
Proof.
  intros Ha. destruct (decide (i < length (vt_defs tbl)))%nat as [Hi|Hi].
  - unfold env_of. transitivity (denote (S (length (vt_defs tbl))) tbl ctx i); [|done].
    apply denote_stable with []; cbn; [done|by apply on_path_nil|lia..].
  - assert (∀ env, body_value tbl ctx env i = "") as Hb.
    { intros env. unfold body_value. rewrite lookup_ge_None_2 by lia. done. }
    rewrite Hb. unfold env_of. destruct (length (vt_defs tbl)); cbn; [done|apply Hb].
Qed.

(** ** Memoized evaluation *)

Definition consistent (env : nat → string) (n : nat) (s : slots) : Prop :=
  length s = n ∧ ∀ j v, s !! j = Some (Some v) → v = env j.

Lemma eval_arms_pure {S} (inv : S → Prop) ctx getv env input arms s :
  (∀ arm id s, arm ∈ arms → uses_var (arm_value arm) id → inv s →
     ∃ s', getv id s = Some (env id, s') ∧ inv s') →
  inv s → ∃ s', eval_arms ctx getv input arms s = Some (arms_value ctx env input arms, s') ∧ inv s'.
Proof.
  revert s. induction arms as [|arm arms IH]; intros s Hg Hi; [by exists s|]. cbn.
  assert (∀ caps, ∃ s', render_inner ctx caps getv (arm_value arm) "" s =
    Some (render_pure ctx caps env (arm_value arm), s') ∧ inv s') as Hr.
  { intros caps. apply render_inner_empty; [|done]. intros id s0 Hu. apply (Hg arm); [by left|done]. }
  destruct (arm_regex arm); [case_match|]; [apply Hr| |apply Hr].
  apply IH; [|done]. intros arm' id s0 Hin. apply Hg. by right.
Qed.

Lemma eval_pure {S} (inv : S → Prop) tbl ctx getv env i s :
  (∀ d s, dep tbl i d → inv s → ∃ s', getv d s = Some (env d, s') ∧ inv s') →
  inv s → ∃ s', eval tbl ctx getv i s = Some (body_value tbl ctx env i, s') ∧ inv s'.
Proof.
  intros Hg Hi. unfold eval, body_value.
  destruct (vt_defs tbl !! i) as [def|] eqn:Ed; [|by exists s].
  assert (∀ t id s, t ∈ body_templates (vd_body def) → uses_var t id → inv s →
    ∃ s', getv id s = Some (env id, s') ∧ inv s') as Hg'.
  { intros t id s' Ht Hu. apply Hg. apply dep_spec. by exists def, t. }
  destruct (vd_body def) as [t|input arms].
  - apply render_inner_empty; [|done]. intros id s'. apply Hg'. by left.
  - destruct (render_inner_empty inv ctx None getv env input s) as (s1 & -> & Hi1); [|done|].
    + intros id s'. apply Hg'. by left.
    + cbn. apply eval_arms_pure; [|done]. intros arm id s' Hin. apply Hg'. right.
      by apply list_elem_of_fmap_2.
Qed.

Lemma scope_get_correct tbl ctx fuel path i s :
  acyclic tbl → on_path tbl path i → (length (vt_defs tbl) < fuel + length path)%nat →
  consistent (env_of tbl ctx) (length (vt_defs tbl)) s →
  ∃ s', scope_get fuel tbl ctx i s = Some (env_of tbl ctx i, s') ∧
    consistent (env_of tbl ctx) (length (vt_defs tbl)) s'.
Proof.
  intros Ha. revert path i s. induction fuel as [|fuel IH]; intros path i s Hp Hf Hs.
  { apply on_path_length in Hp. lia. }
  cbn [scope_get]. destruct Hs as [Hl Hs].
  destruct (s !! i) as [[v|]|] eqn:Ei.
  - exists s. rewrite (Hs i v Ei). done.
  - destruct (eval_pure (consistent (env_of tbl ctx) (length (vt_defs tbl))) tbl ctx
      (scope_get fuel tbl ctx) (env_of tbl ctx) i s) as (s1 & -> & Hl1 & Hs1); [|done|].
    + intros d s' Hd. apply (IH (i :: path)); [by apply on_path_step|cbn; lia].
    + rewrite <- env_of_eq by done. cbn.
      assert (i < length s1)%nat as Hi.
      { rewrite Hl1. by destruct Hp as [_ [Hr _]%Forall_cons _]. }
      destruct (s1 !! i) as [[v|]|] eqn:E1; [| |apply lookup_ge_None in E1; lia].
      * exists s1. rewrite E1. cbn. by rewrite (Hs1 i v E1).
      * exists (<[i := Some (env_of tbl ctx i)]> s1).
        rewrite list_lookup_insert_eq by done. split; [done|].
        split; [by rewrite length_insert|]. intros j v Hj.
        destruct (decide (i = j)) as [->|Hne].
        -- rewrite list_lookup_insert_eq in Hj by done. congruence.
        -- rewrite list_lookup_insert_ne in Hj by done. by apply Hs1.
  - apply lookup_ge_None in Ei. destruct Hp as [_ [Hr _]%Forall_cons _]. lia.
Qed.

(** ** Compiled tables are in range *)

Definition names_ok (names : VarNames) (n : nat) : Prop :=
  length (vn_names names) = n ∧ ∀ name id, vn_get names name = Some id → (id < n)%nat.

Definition chosen_ok (acc : VarNames * list VariableDef) : Prop :=
  names_ok acc.1 (length acc.2).

Lemma choose_spec_ok acc spec : chosen_ok acc → chosen_ok (choose_spec acc spec).
Proof.
  destruct acc as [names chosen]. intros [Hl Hn]. cbn in *.
  unfold choose_spec. destruct (vn_get names (def_name spec)) as [id|] eqn:E.
  - split; cbn; [by rewrite length_insert|]. intros name id'. rewrite length_insert. apply Hn.
  - split; cbn; [rewrite !length_app; cbn; lia|]. intros name id'. unfold vn_get. cbn.
    rewrite length_app, lookup_insert_Some, Hl. cbn.
    intros [[_ <-]|[_ Hid]]; [lia|]. apply Hn in Hid. lia.
Qed.

Lemma choose_layer_ok seen layer acc acc' :
  choose_layer seen layer acc = Ok acc' → chosen_ok acc → chosen_ok acc'.
Proof.
  revert seen acc. induction layer as [|spec layer IH]; intros seen acc; cbn; [congruence|].
  repeat (case_match; [discriminate|]). intros Hc Hok.
  eapply IH; [exact Hc|]. by apply choose_spec_ok.
Qed.

Lemma choose_layers_ok layers acc acc' :
  choose_layers layers acc = Ok acc' → chosen_ok acc → chosen_ok acc'.
Proof.
  revert acc. induction layers as [|layer layers IH]; intros acc; cbn; [congruence|].
  intros (acc1 & H1 & H2)%bind_Ok Hok. eapply IH; [exact H2|]. by eapply choose_layer_ok.
Qed.

Lemma build_uses s names caps t id :
  build s (Some names) caps = Ok t → uses_var t id → ∃ name, vn_get names name = Some id.
Proof.
  unfold build. intros Hf%try_map_Ok [fb Hin].
  apply list_elem_of_lookup in Hin as [k Hk].
  destruct (Forall2_lookup_r _ _ _ _ _ Hf Hk) as ([l|name fb' raw] & _ & Hp); cbn in Hp; [done|].
  unfold build_token in Hp. repeat (case_match; try congruence). simplify_eq. eauto.
Qed.

Lemma compile_arms_uses arms names compiled arm id :
  compile_arms arms names = Ok compiled → arm ∈ compiled → uses_var (arm_value arm) id →
  ∃ name, vn_get names name = Some id.
Proof.
  revert compiled. induction arms as [|a arms IH]; intros compiled; cbn.
  - intros [= <-] Hin. by apply elem_of_nil in Hin.
  - case_bool_decide; [discriminate|].
    intros (a' & Ha & (rest & Hr & [= <-])%bind_Ok)%bind_Ok [->|Hin]%elem_of_cons Hu; [|by eapply IH].
    unfold compile_arm in Ha. destruct (arm_pattern a).
    + apply bind_Ok in Ha as (re & _ & Ha). case_bool_decide; [discriminate|].
      apply bind_Ok in Ha as (v & Hv & [= <-]). by eapply build_uses.
    + apply bind_Ok in Ha as (v & Hv & [= <-]). by eapply build_uses.
Qed.

Lemma compile_body_uses spec names body t id :
  compile_body spec names = Ok body → t ∈ body_templates body → uses_var t id →
  ∃ name, vn_get names name = Some id.
Proof.
  unfold compile_body. destruct (def_body spec) as [c|input arms].
  - intros (t' & Ht & [= <-])%bind_Ok. cbn. rewrite list_elem_of_singleton. intros ->.
    by eapply build_uses.
  - intros (i & Hi & (a & Ha & [= <-])%bind_Ok)%bind_Ok. cbn.
    intros [->|Hin]%elem_of_cons Hu; [by eapply build_uses|].
    apply list_elem_of_fmap in Hin as (arm & -> & Hin). by eapply compile_arms_uses.
Qed.

(** The table as it stands before the needs are filled in. *)
Lemma compiled_in_range names chosen defs :
  names_ok names (length chosen) → try_map (compile_def names) chosen = Ok defs →
  deps_in_range {| vt_defs := defs; vt_names := names |}.
Proof.
  intros [Hl Hn] Hf%try_map_Ok i d Hd. cbn. rewrite <- (Forall2_length _ _ _ Hf).
  apply dep_spec in Hd as (def & t & Hi & Ht & Hu). cbn in Hi.
  destruct (Forall2_lookup_r _ _ _ _ _ Hf Hi) as (spec & _ & Hc).
  apply bind_Ok in Hc as (body & Hb & [= <-]).
  destruct (compile_body_uses _ _ _ _ _ Hb Ht Hu) as [name Hname]. by eapply Hn.
Qed.

(** ** Needs *)

Record needs_le (a b : VarNeeds) : Prop := {
  le_principal : n_principal a = true → n_principal b = true;
  le_geoip : n_geoip a = true → n_geoip b = true;
  le_headers : ∀ h, h ∈ n_headers a → h ∈ n_headers b;
}.

#[global] Instance needs_le_preorder : PreOrder needs_le.
Proof.
  split; [by split|]. intros a b c [P1 G1 H1] [P2 G2 H2]. split; auto.
Qed.

Lemma merge_le_l a b : needs_le a (merge a b).
Proof.
  split; cbn; [by intros ->|by intros ->|].
  intros h Hh. apply fold_push_new_elem. by left.
Qed.

Lemma merge_le_r a b : needs_le b (merge a b).
Proof.
  split; cbn; [intros ->; apply orb_true_r|intros ->; apply orb_true_r|].
  intros h Hh. apply fold_push_new_elem. by right.
Qed.

Lemma take_needs_le nd t : needs_le nd (take_needs nd t).
Proof.
  split; cbn; [by intros ->|by intros ->|].
  intros h Hh. apply fold_push_new_elem. by left.
Qed.

(** What a template reads directly is within [nd]. *)
Definition reads_within (nd : VarNeeds) (t : Template) : Prop :=
  (∀ v fb, Var v fb ∈ t → v = Username ∨ v = Groups → n_principal nd = true) ∧
  (∀ fb, Var Country fb ∈ t → n_geoip nd = true) ∧
  (∀ h fb, Header h fb ∈ t → h ∈ n_headers nd).

Lemma reads_within_le nd nd' t : needs_le nd nd' → reads_within nd t → reads_within nd' t.
Proof. intros [P G L] (R1 & R2 & R3). split_and!; eauto. Qed.

Lemma take_needs_reads nd t : reads_within (take_needs nd t) t.
Proof.
  split_and!; cbn.
  - intros v fb Hin Hv. apply orb_true_iff. right. rewrite refs_principal.
    apply references_principal_true. eauto.
  - intros fb Hin. apply orb_true_iff. right. apply refs_geoip. eauto.
  - intros h fb Hin. apply fold_push_new_elem. right. apply refs_headers. eauto.
Qed.

Lemma direct_needs_reads def t :
  t ∈ body_templates (vd_body def) → reads_within (direct_needs def) t.
Proof.
  unfold direct_needs. generalize needs_default.
  induction (body_templates (vd_body def)) as [|t' ts IH]; intros nd Hin; cbn.
  { by apply elem_of_nil in Hin. }
  apply elem_of_cons in Hin as [->|Hin]; [|by apply IH].
  eapply reads_within_le; [|apply take_needs_reads with (nd := nd)].
  generalize (take_needs nd t'). clear. induction ts as [|t ts IH]; intros nd; cbn; [done|].
  etrans; [apply take_needs_le|apply IH].
Qed.

(** [nd] covers everything variable [i] can come to read. *)
Definition covers (tbl : VarTable) (nd : VarNeeds) (i : nat) : Prop :=
  ∀ j def, rtc (dep tbl) i j → vt_defs tbl !! j = Some def → needs_le (direct_needs def) nd.

Lemma covers_le tbl nd nd' i : needs_le nd nd' → covers tbl nd i → covers tbl nd' i.
Proof. intros Hle Hc j def Hj Hd. etrans; [by eapply Hc|done]. Qed.

Lemma covers_dep tbl nd i d : covers tbl nd i → dep tbl i d → covers tbl nd d.
Proof. intros Hc Hd j def Hj. apply Hc. by eapply rtc_l. Qed.

Record resolved_ok (tbl : VarTable) (r : list (option VarNeeds)) : Prop := {
  ro_length : length r = length (vt_defs tbl);
  ro_covers : ∀ j nd, r !! j = Some (Some nd) → covers tbl nd j;
}.

Definition keeps (r r' : list (option VarNeeds)) : Prop :=
  ∀ j, r !! j ≠ Some None → r' !! j = r !! j.

Lemma resolve_list_correct tbl rec ds nd r :
  (∀ d r, d ∈ ds → resolved_ok tbl r → ∃ nd r', rec d r = Some (nd, r') ∧
     resolved_ok tbl r' ∧ covers tbl nd d ∧ keeps r r') →
  resolved_ok tbl r →
  ∃ nd' r', resolve_list rec ds nd r = Some (nd', r') ∧ resolved_ok tbl r' ∧ keeps r r' ∧
    needs_le nd nd' ∧ ∀ d, d ∈ ds → covers tbl nd' d.
Proof.
  revert nd r. induction ds as [|d ds IH]; intros nd r Hrec Hr; cbn.
  { exists nd, r. split_and!; try done. intros d Hd. by apply elem_of_nil in Hd. }
  destruct (Hrec d r) as (sub & r1 & -> & Hr1 & Hc & Hk); [by left|done|]. cbn.
  destruct (IH (merge nd sub) r1) as (nd' & r' & -> & Hr' & Hk' & Hle & Hds); [|done|].
  { intros d' r2 Hin. apply Hrec. by right. }
  exists nd', r'. split; [done|]. split; [done|]. split; [|split].
  - intros j Hj. rewrite Hk'; rewrite Hk; done.
  - etrans; [apply merge_le_l|done].
  - intros x [->|Hx]%elem_of_cons; [|by apply Hds].
    eapply covers_le; [|done]. etrans; [apply merge_le_r|done].
Qed.

Lemma resolve_needs_correct tbl fuel path i r :
  acyclic tbl → on_path tbl path i → (length (vt_defs tbl) ≤ fuel + length path)%nat →
  resolved_ok tbl r →
  ∃ nd r', resolve_needs tbl fuel i r = Some (nd, r') ∧ resolved_ok tbl r' ∧
    covers tbl nd i ∧ keeps r r' ∧ r' !! i = Some (Some nd).
Proof.
  intros Ha. revert path i r. induction fuel as [|fuel IH]; intros path i r Hp Hf Hr.
  { apply on_path_length in Hp. lia. }
  assert (i < length (vt_defs tbl))%nat as Hi by (by destruct Hp as [_ [? _]%Forall_cons _]).
  destruct (lookup_lt_is_Some_2 _ _ Hi) as [def Hdef].
  assert (r !! i = Some None ∨ ∃ nd, r !! i = Some (Some nd)) as [Ei|[nd Ei]].
  { destruct (r !! i) as [[nd|]|] eqn:E; [eauto..|].
    apply lookup_ge_None in E. rewrite (ro_length _ _ Hr) in E. lia. }
  2:{ exists nd, r. cbn [resolve_needs]. rewrite Ei. split_and!; try done.
      by apply (ro_covers _ _ Hr). }
  cbn [resolve_needs]. rewrite Ei, Hdef. cbn.
  destruct (resolve_list_correct tbl (resolve_needs tbl fuel) (deps_of tbl i)
    (direct_needs def) r) as (nd & r1 & -> & Hr1 & Hk & Hle & Hds); [|done|].
  { intros d r0 Hd Hr0.
    destruct (IH (i :: path) d r0) as (nd & r' & E1 & E2 & E3 & E4 & _);
      [by apply on_path_step|cbn; lia|exact Hr0|].
    exists nd, r'. split; [exact E1|]. split; [exact E2|]. split; [exact E3|exact E4]. }
  assert (covers tbl nd i) as Hc.
  { intros j def' Hj Hd'. inversion Hj as [|? y ? Hy Hyj]; subst.
    - by simplify_eq.
    - by eapply Hds. }
  cbn. exists nd, (<[i := Some nd]> r1). split; [done|].
  assert (i < length r1)%nat as Hi1 by (by rewrite (ro_length _ _ Hr1)).
  split; [|split; [done|split]].
  - split; [rewrite length_insert; apply Hr1|]. intros j nd'.
    destruct (decide (i = j)) as [->|Hne].
    + rewrite list_lookup_insert_eq by done. by intros [= <-].
    + rewrite list_lookup_insert_ne by done. apply Hr1.
  - intros j Hj. destruct (decide (i = j)) as [->|Hne]; [congruence|].
    rewrite list_lookup_insert_ne by done. by apply Hk.
  - by rewrite list_lookup_insert_eq.
Qed.

Lemma resolve_all_correct tbl ixs r :
  acyclic tbl → (∀ i, i ∈ ixs → i < length (vt_defs tbl))%nat → resolved_ok tbl r →
  ∃ r', resolve_all tbl (S (length (vt_defs tbl))) ixs r = Some r' ∧ resolved_ok tbl r' ∧
    keeps r r' ∧ ∀ i, i ∈ ixs → ∃ nd, r' !! i = Some (Some nd).
Proof.
  intros Ha. revert r. induction ixs as [|i ixs IH]; intros r Hix Hr.
  { exists r. split; [done|]. split; [done|]. split; [done|].
    intros i Hi. by apply elem_of_nil in Hi. }
  destruct (resolve_needs_correct tbl (S (length (vt_defs tbl))) [] i r)
    as (nd & r1 & E1 & Hr1 & _ & Hk1 & Hi1); [done| |lia|done|].
  { apply on_path_nil, Hix. by left. }
  destruct (IH r1) as (r' & E' & Hr' & Hk' & Hall); [|done|].
  { intros j Hj. apply Hix. by right. }
  cbn [resolve_all]. rewrite E1. cbn [mbind option_bind]. rewrite E'.
  exists r'. split; [done|]. split; [done|]. split.
  - intros j Hj. rewrite Hk'; rewrite Hk1; done.
  - intros j [->|Hj]%elem_of_cons; [|by apply Hall].
    exists nd. rewrite Hk'; by rewrite Hi1.
Qed.

(** Filling in the needs changes nothing else. *)
Definition same_bodies (tbl tbl' : VarTable) : Prop :=
  vt_names tbl' = vt_names tbl ∧ (vd_body <$> vt_defs tbl') = (vd_body <$> vt_defs tbl).

Lemma same_bodies_lookup tbl tbl' i def' :
  same_bodies tbl tbl' → vt_defs tbl' !! i = Some def' →
  ∃ def, vt_defs tbl !! i = Some def ∧ vd_body def = vd_body def'.
Proof.
  intros [_ Hb] Hi. assert ((vd_body <$> vt_defs tbl) !! i = Some (vd_body def')) as Hl.
  { rewrite <- Hb, list_lookup_fmap, Hi. done. }
  rewrite list_lookup_fmap in Hl. apply fmap_Some in Hl as (def & Hd & ->). eauto.
Qed.

Lemma same_bodies_length tbl tbl' :
  same_bodies tbl tbl' → length (vt_defs tbl') = length (vt_defs tbl).
Proof. intros [_ Hb]. apply (f_equal length) in Hb. by rewrite !length_fmap in Hb. Qed.

Lemma same_bodies_sym tbl tbl' : same_bodies tbl tbl' → same_bodies tbl' tbl.
Proof. by intros []. Qed.

Lemma same_bodies_dep tbl tbl' i d : same_bodies tbl tbl' → dep tbl' i d → dep tbl i d.
Proof.
  intros Hs (def' & t & Hi & Ht & Hu)%dep_spec.
  destruct (same_bodies_lookup _ _ _ _ Hs Hi) as (def & Hd & Hb).
  apply dep_spec. exists def, t. by rewrite Hb.
Qed.

Lemma same_bodies_acyclic tbl tbl' : same_bodies tbl tbl' → acyclic tbl → acyclic tbl'.
Proof.
  intros Hs [Hr Hg]. pose proof (same_bodies_length _ _ Hs) as Hl. split.
  - intros i d Hd. rewrite Hl. eapply Hr. by eapply same_bodies_dep.
  - intros i Hi. rewrite Hl in Hi. apply Hg in Hi. induction Hi as [i _ IH].
    constructor. intros d Hd. apply IH. by eapply same_bodies_dep.
Qed.

Lemma same_bodies_covers tbl tbl' nd i :
  same_bodies tbl tbl' → covers tbl nd i → covers tbl' nd i.
Proof.
  intros Hs Hc j def' Hj Hd'. destruct (same_bodies_lookup _ _ _ _ Hs Hd') as (def & Hd & Hb).
  assert (direct_needs def' = direct_needs def) as -> by (unfold direct_needs; by rewrite Hb).
  apply (Hc j); [|done]. clear Hd Hd' Hb. induction Hj as [|i y j Hy Hyj IH]; [done|].
  apply same_bodies_dep with (1 := Hs) in Hy. eapply rtc_l; [done|].
  apply IH. by eapply covers_dep.
Qed.

Definition needs_filled (tbl : VarTable) : Prop :=
  ∀ i def, vt_defs tbl !! i = Some def → covers tbl (vd_needs def) i.

Lemma compute_needs_correct tbl :
  acyclic tbl → ∃ tbl', compute_needs tbl = Some tbl' ∧ same_bodies tbl tbl' ∧ needs_filled tbl'.
Proof.
  intros Ha. remember (length (vt_defs tbl)) as n eqn:Hn.
  destruct (resolve_all_correct tbl (seq 0 n) (replicate n None))
    as (r & Er & [Hl Hc] & _ & Hall); [done| | |].
  { intros i Hi%elem_of_seq. lia. }
  { split; [rewrite length_replicate; lia|]. intros j nd Hj.
    apply lookup_replicate in Hj as [Hj _]. discriminate. }
  unfold compute_needs. rewrite <- Hn in *. rewrite Er. cbn [mbind option_bind].
  eexists. split; [reflexivity|].
  set (tbl' := Build_VarTable _ _).
  assert (same_bodies tbl tbl') as Hs.
  { split; [done|]. cbn. clear Er Hall Hc Ha. subst n. generalize dependent r.
    induction (vt_defs tbl) as [|d ds IH]; intros [|x r] Hr; try done. cbn in *. f_equal.
    - by destruct x.
    - apply IH. lia. }
  split; [done|]. intros i def' Hd'. cbn in Hd'.
  apply lookup_zip_with_Some in Hd' as (def & x & -> & Hd & Hx).
  destruct (Hall i) as [nd Hnd].
  { apply elem_of_seq. apply lookup_lt_Some in Hd. lia. }
  rewrite Hnd in Hx. injection Hx as <-. cbn.
  apply (same_bodies_covers tbl); [done|]. by apply Hc.
Qed.

(** What a successful build establishes. *)
Record well_built (tbl : VarTable) : Prop := {
  wb_acyclic : acyclic tbl;
  wb_needs : needs_filled tbl;
  wb_names : names_ok (vt_names tbl) (length (vt_defs tbl));
}.

Lemma build_layered_correct layers :
  ∃ r, build_layered layers = Some r ∧ ∀ tbl, r = Ok tbl → well_built tbl.
Proof.
  unfold build_layered. destruct (choose_layers layers (vn_default, [])) as [[names chosen]|e] eqn:Ec.
  2:{ by eexists. }
  apply choose_layers_ok in Ec; [|split; [done|intros name id; unfold vn_get; cbn;
    by rewrite lookup_empty]].
  destruct (try_map (compile_def names) chosen) as [defs|e] eqn:Ed; [|by eexists].
  set (tbl := Build_VarTable defs names).
  destruct (check_cycles_total tbl) as [[[]|e] E]; rewrite E; cbn [mbind option_bind]; [|by eexists].
  assert (acyclic tbl) as Ha.
  { split; [by apply (compiled_in_range names chosen)|by apply check_cycles_grounded]. }
  destruct (compute_needs_correct tbl Ha) as (tbl' & E' & Hs & Hn).
  rewrite E'. cbn [mbind option_bind]. eexists. split; [reflexivity|]. intros ? [= <-]. split; [|done|].
  - by eapply same_bodies_acyclic.
  - rewrite (same_bodies_length _ _ Hs). destruct Hs as [-> _]. cbn.
    apply try_map_Ok in Ed. rewrite <- (Forall2_length _ _ _ Ed). exact Ec.
Qed.

Lemma built_well layers tbl : build_layered layers = Some (Ok tbl) → well_built tbl.
Proof.
  intros Hb. destruct (build_layered_correct layers) as (r & Er & Hr).
  apply Hr. rewrite Hb in Er. by injection Er.
Qed.

(** ** A built table has exactly one solution *)

Lemma env_of_unique tbl ctx env :
  acyclic tbl → (∀ i, env i = body_value tbl ctx env i) → ∀ i, env i = env_of tbl ctx i.
Proof.
  intros Ha He i. destruct (decide (i < length (vt_defs tbl)))%nat as [Hi|Hi].
  - destruct Ha as [Hr Hg]. pose proof (Hg i Hi) as Hgi. induction Hgi as [i _ IH].
    rewrite He, env_of_eq by done. apply body_value_env. intros d Hd.
    apply IH; [done|by eapply Hr].
  - rewrite He, env_of_eq by done. unfold body_value. by rewrite lookup_ge_None_2 by lia.
Qed.

Lemma compile_in_range tbl s caps t id :
  well_built tbl → build s (Some (vt_names tbl)) caps = Ok t → uses_var t id →
  (id < length (vt_defs tbl))%nat.
Proof.
  intros Hw Hb Hu. destruct (build_uses _ _ _ _ _ Hb Hu) as [name Hname].
  destruct Hw as [_ _ [_ Hn]]. by eapply Hn.
Qed.

Lemma render_built tbl ctx s caps t sl gcaps :
  well_built tbl → build s (Some (vt_names tbl)) caps = Ok t →
  consistent (env_of tbl ctx) (length (vt_defs tbl)) sl →
  ∃ sl', render_inner ctx gcaps (get_var (Some tbl) ctx) t "" sl
           = Some (render_pure ctx gcaps (env_of tbl ctx) t, sl') ∧
    consistent (env_of tbl ctx) (length (vt_defs tbl)) sl'.
Proof.
  intros Hw Hb. apply render_inner_empty. intros id sl0 Hu.
  apply scope_get_correct with []; [apply Hw| |cbn; lia].
  apply on_path_nil. by eapply compile_in_range.
Qed.

Lemma new_slots_consistent tbl env : consistent env (length (vt_defs tbl)) (new_slots tbl).
Proof.
  split; [apply length_replicate|]. intros j v Hj.
  apply lookup_replicate in Hj as [Hj _]. discriminate.
Qed.

(** ** Contexts that agree on what is needed *)

Record agrees (nd : VarNeeds) (ctx ctx' : RequestContext) : Prop := {
  ag_known v : v ≠ Username → v ≠ Groups → v ≠ Country → known_value ctx v = known_value ctx' v;
  ag_principal :
    n_principal nd = true → username ctx = username ctx' ∧ groups ctx = groups ctx';
  ag_geoip : n_geoip nd = true → country ctx = country ctx';
  ag_headers h : h ∈ n_headers nd → header_value_of ctx h = header_value_of ctx' h;
}.

Lemma agrees_le nd nd' ctx ctx' : needs_le nd nd' → agrees nd' ctx ctx' → agrees nd ctx ctx'.
Proof. intros [P G L] [K AP AG AH]. split; auto. Qed.

Lemma part_text_agrees nd ctx ctx' caps env env' t p :
  reads_within nd t → agrees nd ctx ctx' → p ∈ t →
  (∀ id, uses_var t id → env id = env' id) →
  part_text ctx caps env p = part_text ctx' caps env' p.
Proof.
  intros (R1 & R2 & R3) [K AP AG AH] Hp He. destruct p as [l|v fb|id fb|h fb|g fb|raw]; cbn; try done.
  - f_equal. destruct v; try (by apply K).
    + cbn. apply AP. eapply R1; [exact Hp|by left].
    + cbn. apply AP. eapply R1; [exact Hp|by right].
    + cbn. apply AG. by eapply R2.
  - f_equal. apply He. by exists fb.
  - f_equal. apply AH. by eapply R3.
Qed.

Lemma env_of_agrees tbl nd ctx ctx' i :
  acyclic tbl → (i < length (vt_defs tbl))%nat → covers tbl nd i → agrees nd ctx ctx' →
  env_of tbl ctx i = env_of tbl ctx' i.
Proof.
  intros Ha Hi Hc Hag. destruct Ha as [Hr Hg]. pose proof (Hg i Hi) as Hgi.
  induction Hgi as [i _ IH]. rewrite !env_of_eq by done.
  apply body_value_ext. intros def t caps p Hd Ht Hp.
  apply part_text_agrees with nd t; [|done..|].
  - eapply reads_within_le; [|by apply direct_needs_reads]. by apply (Hc i def).
  - intros d Hu. assert (dep tbl i d) as Hdep by (apply dep_spec; by exists def, t).
    apply IH; [done|by eapply Hr|by eapply covers_dep].
Qed.

Lemma absorb_covers tbl nd t nd' :
  needs_filled tbl → absorb nd t tbl = Some nd' →
  reads_within nd' t ∧ needs_le nd nd' ∧ ∀ id, uses_var t id → covers tbl nd' id.
Proof.
  intros Hn. unfold absorb. fold (take_needs nd t).
  assert (∀ ids a b, foldl (λ acc id, nd ← acc; sub ← needs_of tbl id;
      Some (merge {| n_principal := n_principal nd; n_geoip := n_geoip nd;
                     n_headers := n_headers nd; n_uses_vars := true |} sub)) (Some a) ids = Some b →
    needs_le a b ∧ ∀ id, id ∈ ids → covers tbl b id) as Hfold.
  { clear nd nd'. induction ids as [|id ids IH]; intros a b; cbn.
    { intros [= ->]. split; [done|]. intros id Hid. by apply elem_of_nil in Hid. }
    unfold needs_of at 2. destruct (vt_defs tbl !! id) as [def|] eqn:Ed; cbn.
    2:{ intros Hb. exfalso. revert Hb. clear. induction ids as [|x ids IH]; cbn; [done|exact IH]. }
    intros [Hle Hc]%IH. split.
    - etrans; [|exact Hle]. etrans; [|apply merge_le_l]. by split.
    - intros x [->|Hx]%elem_of_cons; [|by apply Hc].
      eapply covers_le; [|by apply Hn]. etrans; [apply merge_le_r|exact Hle]. }
  intros [Hle Hc]%Hfold. split_and!.
  - eapply reads_within_le; [exact Hle|apply take_needs_reads].
  - etrans; [apply take_needs_le|exact Hle].
  - intros id Hu. apply Hc. by apply refs_vars.
Qed.

(** * Properties *)

(** C10: the cycle check always terminates with a verdict, and for a table
    whose references are in range it accepts exactly the tables in which
    every variable is grounded, i.e. no variable depends on itself. *)
Theorem check_cycles_correct tbl :
  (∃ r, check_cycles tbl = Some r) ∧
  (deps_in_range tbl →
   check_cycles tbl = Some (Ok ()) ↔
   ∀ i, (i < length (vt_defs tbl))%nat → grounded tbl i).
Proof.
  split; [apply check_cycles_total|]. intros Hr. split.
  - apply check_cycles_grounded.
  - by apply grounded_check_cycles.
Qed.

(** Compiling the variable definitions of any chain of scopes terminates,
    and a table it accepts is sound: references stay in the table, no
    variable depends on itself, and the needs recorded for each variable
    cover everything its templates and those of its dependencies read. *)
Theorem build_layered_sound layers :
  ∃ r, build_layered layers = Some r ∧
    ∀ tbl, r = Ok tbl → acyclic tbl ∧ needs_filled tbl.
Proof.
  destruct (build_layered_correct layers) as (r & Er & Hr). exists r. split; [done|].
  intros tbl Ht. by destruct (Hr tbl Ht).
Qed.

(** C26: the lazy, memoized rendering of a request computes the meaning of the
    definitions.  For an accepted table and a request, the defining equations
    of the variables have exactly one solution; rendering a template compiled
    against the table succeeds, never recurses forever, produces the text
    under that solution, and leaves slots from which every later rendering
    agrees with it again. *)
Theorem memo_render_correct layers tbl ctx :
  build_layered layers = Some (Ok tbl) →
  ∃ env,
    (∀ i, env i = body_value tbl ctx env i) ∧
    (∀ env', (∀ i, env' i = body_value tbl ctx env' i) → ∀ i, env' i = env i) ∧
    consistent env (length (vt_defs tbl)) (new_slots tbl) ∧
    ∀ s t sl, compile s (vt_names tbl) = Ok t → consistent env (length (vt_defs tbl)) sl →
      ∃ sl', render (Some tbl) ctx t sl = Some (render_pure ctx None env t, sl') ∧
        consistent env (length (vt_defs tbl)) sl'.
Proof.
  intros Hw%built_well. exists (env_of tbl ctx). split_and!.
  - intros i. apply env_of_eq, Hw.
  - intros env'. by apply env_of_unique, Hw.
  - apply new_slots_consistent.
  - intros s t sl Hc Hs. by eapply render_built.
Qed.

(** The needs computed for a template are what lets a request skip the
    authenticator, the GeoIP lookup and the header snapshot: two requests
    that agree on the facilities [absorb] reports, and differ at will in the
    others, render the template to the same text. *)
Theorem needs_noninterference layers tbl s t nd nd' ctx ctx' :
  build_layered layers = Some (Ok tbl) → compile s (vt_names tbl) = Ok t →
  absorb nd t tbl = Some nd' → agrees nd' ctx ctx' →
  ∃ text sl sl', render (Some tbl) ctx t (new_slots tbl) = Some (text, sl) ∧
    render (Some tbl) ctx' t (new_slots tbl) = Some (text, sl').
Proof.
  intros Hw%built_well Hc Hab Hag. destruct (absorb_covers _ _ _ _ (wb_needs _ Hw) Hab) as (Hr & _ & Hcov).
  destruct (render_built tbl ctx s None t (new_slots tbl) None Hw Hc (new_slots_consistent _ _))
    as (sl & E & _).
  destruct (render_built tbl ctx' s None t (new_slots tbl) None Hw Hc (new_slots_consistent _ _))
    as (sl' & E' & _).
  exists (render_pure ctx None (env_of tbl ctx) t), sl, sl'. split; [exact E|].
  unfold render. rewrite E'. do 2 f_equal. symmetry. apply render_pure_ext.
  intros p Hp. apply part_text_agrees with nd' t; [done..|]. intros id Hu.
  apply env_of_agrees with nd'; [apply Hw|by eapply compile_in_range|by apply Hcov|done].
Qed.

End vars.

(** * Examples *)

#[local] Existing Instance assoc_http.

(** [variable "tier" { match "{username}" { "root" "gold"; "" "none" } }] and
    [variable "label" "{tier}-{header:x-team|none}"]. *)
Definition demo_layers : list (list VariableDef) :=
  [[{| def_name := "tier";
       def_body := MatchOn "{username}"
         [{| arm_pattern := Some "root"; arm_text := "gold"; arm_line := 1 |};
          {| arm_pattern := None; arm_text := "basic"; arm_line := 2 |}];
       def_line := 1 |};
    {| def_name := "label"; def_body := Constant "{tier}-{header:x-team|none}"; def_line := 3 |}]].

Definition demo_table : VarTable :=
  match build_layered demo_layers with
  | Some (Ok tbl) => tbl
  | _ => {| vt_defs := []; vt_names := vn_default |}
  end.

Lemma demo_table_built : build_layered demo_layers = Some (Ok demo_table).
Proof. vm_compute. reflexivity. Qed.

Definition demo_template : Template := [Custom 1 None].

Lemma demo_template_compiled : compile "{label}" (vt_names demo_table) = Ok demo_template.
Proof. vm_compute. reflexivity. Qed.

Definition root_context : RequestContext :=
  {| client_ip := "192.0.2.1"; username := "root"; groups := ""; method := "GET"; path := "/";
     query := ""; path_and_query := "/"; host := "h"; scheme := "http";
     client_cert_subject := ""; client_cert_sans := ""; country := "AU"; ctx_headers := [] |}.

Example demo_render :
  fst <$> render (Some demo_table) root_context demo_template (new_slots demo_table)
  = Some "gold-none".
Proof. vm_compute. reflexivity. Qed.

Lemma demo_deps_in_range : deps_in_range demo_table.
Proof.
  intros i d Hd. assert (i < 2)%nat as Hi.
  { unfold dep, deps_of in Hd. destruct (vt_defs demo_table !! i) eqn:E.
    - by apply lookup_lt_Some in E.
    - by apply elem_of_nil in Hd. }
  apply list_elem_of_In in Hd. destruct i as [|[|i]]; [| |lia]; vm_compute in Hd.
  - by destruct Hd.
  - destruct Hd as [<-|[]]. by apply Nat.ltb_lt.
Qed.

Lemma check_cycles_correct_witness : grounded demo_table 1.
Proof.
  apply (proj2 (check_cycles_correct demo_table) demo_deps_in_range); [vm_compute; reflexivity|].
  by apply Nat.ltb_lt.
Defined.

Lemma memo_render_correct_witness :
  ∃ env, (∀ i, env i = body_value demo_table root_context env i).
Proof.
  destruct (memo_render_correct demo_layers demo_table root_context demo_table_built)
    as (env & He & _). by exists env.
Defined.

Lemma needs_noninterference_witness :
  ∃ text sl sl',
    render (Some demo_table) root_context demo_template (new_slots demo_table) = Some (text, sl) ∧
    render (Some demo_table)
      {| client_ip := "192.0.2.1"; username := "root"; groups := ""; method := "GET"; path := "/";
         query := ""; path_and_query := "/"; host := "h"; scheme := "http";
         client_cert_subject := ""; client_cert_sans := ""; country := "NZ"; ctx_headers := [] |}
      demo_template (new_slots demo_table) = Some (text, sl').
Proof.
  eapply (needs_noninterference demo_layers demo_table "{label}" demo_template needs_default).
  - exact demo_table_built.
  - exact demo_template_compiled.
  - vm_compute. reflexivity.
  - split; cbn; [by intros []|done|discriminate|done].
Defined.

(** The memo slots belong to the request, but the context does not:
    rendering [{label}] where a variable reads [{path}] first with the
    request's path and then, on the same slots, with the location-relative
    path a try-files lookup substitutes, yields the first path twice. *)
Theorem memo_stale_path :
  let tbl := match build_table [{| def_name := "label"; def_body := Constant "{path}";
                                   def_line := 1 |}] with
             | Some (Ok tbl) => tbl
             | _ => {| vt_defs := []; vt_names := vn_default |}
             end in
  let ctx p := {| client_ip := ""; username := ""; groups := ""; method := ""; path := p;
                  query := ""; path_and_query := ""; host := ""; scheme := "";
                  client_cert_subject := ""; client_cert_sans := ""; country := "";
                  ctx_headers := [] |} in
  ∃ sl, render (Some tbl) (ctx "/docs/a") [Custom 0 None] (new_slots tbl) = Some ("/docs/a", sl) ∧
    fst <$> render (Some tbl) (ctx "a") [Custom 0 None] sl = Some "/docs/a" ∧
    fst <$> render (Some tbl) (ctx "a") [Custom 0 None] (new_slots tbl) = Some "a".
Proof. vm_compute. eexists. split_and!; reflexivity. Qed.

End Vars.
