(* ===== verification/HeaderRules.v ===== *)
(** Header rules ([src/headers.rs], [HeaderOp] and [apply]): the set, add and
    remove operations a location applies to request and response headers,
    rendering their values in the request's variable scope. *)
From S2P Require Import Prelude RustStr Http Template Vars.

Module HeaderRules.
Import Template Vars.

Inductive HeaderOp :=
  | OpSet (name : HeaderName) (template : Template)
  | OpAdd (name : HeaderName) (template : Template)
  | OpRemove (name : HeaderName).

Record HeaderRules := {
  hr_request : list HeaderOp;
  hr_response : list HeaderOp;
  hr_needs_principal : bool;
}.

Definition op_name (op : HeaderOp) : HeaderName :=
  match op with OpSet n _ | OpAdd n _ | OpRemove n => n end.

Definition op_template (op : HeaderOp) : option Template :=
  match op with OpSet _ t | OpAdd _ t => Some t | OpRemove _ => None end.

Definition new_rules (request response : list HeaderOp) : HeaderRules :=
  {| hr_request := request; hr_response := response;
     hr_needs_principal :=
       existsb (λ op, match op with
                      | OpSet _ t | OpAdd _ t => references_principal t
                      | OpRemove _ => false
                      end) (request ++ response) |}.

Section apply.
Context `{Http} `{Regex}.

(** [apply]; rendering threads the request's memo slots. *)
Fixpoint apply (headers : header_map) (ops : list HeaderOp) (sc : option VarTable)
    (ctx : RequestContext) (s : list (option string))
    : option (header_map * list (option string)) :=
  match ops with
  | [] => Some (headers, s)
  | OpSet name template :: ops' =>
      '(rendered, s') ← render sc ctx template s;
      if is_empty rendered then apply headers ops' sc ctx s'
      else match hv_from_str rendered with
           | Some val => apply (hm_insert headers name val) ops' sc ctx s'
           | None => apply headers ops' sc ctx s'
           end
  | OpAdd name template :: ops' =>
      '(rendered, s') ← render sc ctx template s;
      if is_empty rendered then apply headers ops' sc ctx s'
      else match hv_from_str rendered with
           | Some val => apply (hm_append headers name val) ops' sc ctx s'
           | None => apply headers ops' sc ctx s'
           end
  | OpRemove name :: ops' => apply (hm_remove headers name) ops' sc ctx s
  end.

Definition apply_request_headers headers (rules : HeaderRules) sc ctx s :=
  apply headers (hr_request rules) sc ctx s.

Definition apply_response_headers headers (rules : HeaderRules) sc ctx s :=
  apply headers (hr_response rules) sc ctx s.

(** * What the rules mean for one header *)

(** The value a rule contributes, if it renders to a usable one. *)
Definition op_value (text : Template → string) (t : Template) : option header_value :=
  if is_empty (text t) then None else hv_from_str (text t).

(** The values of the rule's header after it, given those before. *)
Definition op_values (text : Template → string) (vs : list header_value) (op : HeaderOp)
    : list header_value :=
  match op with
  | OpSet _ t => match op_value text t with Some v => [v] | None => vs end
  | OpAdd _ t => match op_value text t with Some v => vs ++ [v] | None => vs end
  | OpRemove _ => []
  end.

(** The rules for header [n], in order. *)
Definition ops_for (n : HeaderName) (ops : list HeaderOp) : list HeaderOp :=
  filter (λ op, op_name op = n) ops.

Lemma ops_for_cons n op ops :
  ops_for n (op :: ops) = if decide (op_name op = n) then op :: ops_for n ops else ops_for n ops.
Proof. unfold ops_for. by rewrite filter_cons. Qed.

Context `{!HttpLaws}.

(** One rule, given the text of its template. *)
Definition op_effect (text : Template → string) (h : header_map) (op : HeaderOp) : header_map :=
  match op with
  | OpSet n t => match op_value text t with Some v => hm_insert h n v | None => h end
  | OpAdd n t => match op_value text t with Some v => hm_append h n v | None => h end
  | OpRemove n => hm_remove h n
  end.

Lemma op_effect_values text h op n :
  hm_get_all (op_effect text h op) n =
  if decide (op_name op = n) then op_values text (hm_get_all h n) op else hm_get_all h n.
Proof.
  destruct op as [m t|m t|m]; cbn; try destruct (op_value text t);
    case_decide; subst; by autorewrite with http.
Qed.

(** A rule whose value renders acts as its effect. *)
Lemma apply_cons (text : Template → string) sc ctx op ops headers s s' :
  (∀ t, op_template op = Some t → render sc ctx t s = Some (text t, s')) →
  (op_template op = None → s' = s) →
  apply headers (op :: ops) sc ctx s = apply (op_effect text headers op) ops sc ctx s'.
Proof.
  intros Ht Hs. destruct op as [n t|n t|n]; cbn; [| |by rewrite Hs];
    rewrite (Ht t) by done; cbn; unfold op_value; repeat case_match; done.
Qed.

(** Rules act header by header: if every value can be rendered, each header's
    final values are its own rules folded over its initial values. *)
Lemma apply_by_name (text : Template → string) (inv : list (option string) → Prop)
    sc ctx ops headers s :
  (∀ op t s, op ∈ ops → op_template op = Some t → inv s →
     ∃ s', render sc ctx t s = Some (text t, s') ∧ inv s') →
  inv s →
  ∃ h' s', apply headers ops sc ctx s = Some (h', s') ∧ inv s' ∧
    ∀ n, hm_get_all h' n = fold_left (op_values text) (ops_for n ops) (hm_get_all headers n).
Proof.
  revert headers s. induction ops as [|op ops IH]; intros headers s Hr Hi.
  { exists headers, s. by split_and!. }
  assert (∃ s1, inv s1 ∧ apply headers (op :: ops) sc ctx s
    = apply (op_effect text headers op) ops sc ctx s1) as (s1 & Hi1 & ->).
  { destruct (op_template op) as [t|] eqn:Et.
    - destruct (Hr op t s) as (s1 & E & Hi1); [by left|done..|]. exists s1. split; [done|].
      apply apply_cons; [|congruence]. intros t' Ht'. by rewrite Et in Ht'; injection Ht' as <-.
    - exists s. split; [done|]. apply apply_cons; [congruence|done]. }
  destruct (IH (op_effect text headers op) s1) as (h' & s' & E & Hi' & Hn); [|done|].
  { intros op' t s0 Hin. apply Hr. by right. }
  exists h', s'. split_and!; [done..|]. intros n.
  rewrite Hn, op_effect_values, ops_for_cons. by case_decide.
Qed.

(** * Properties *)

(** Header rules whose templates were compiled against the route's
    variable table always apply, header by header and in declaration order:
    a set replaces the header's values, an add appends one, a remove clears
    them, a value that renders empty or is not a legal header value changes
    nothing, and a header no rule names keeps its values.  The values are the
    templates' texts under the unique meaning of the variables. *)
Theorem apply_correct layers tbl ctx ops headers :
  build_layered layers = Some (Ok tbl) →
  (∀ op t, op ∈ ops → op_template op = Some t → ∃ src, compile src (vt_names tbl) = Ok t) →
  ∃ h' s', apply headers ops (Some tbl) ctx (new_slots tbl) = Some (h', s') ∧
    ∀ n, hm_get_all h' n =
      fold_left (op_values (render_pure ctx None (env_of tbl ctx))) (ops_for n ops)
        (hm_get_all headers n).
Proof.
  intros Hw%built_well Hops.
  destruct (apply_by_name (render_pure ctx None (env_of tbl ctx))
    (consistent (env_of tbl ctx) (length (vt_defs tbl))) (Some tbl) ctx ops headers (new_slots tbl))
    as (h' & s' & E & _ & Hn).
  - intros op t s Hin Ht Hs. destruct (Hops op t Hin Ht) as [src Hsrc]. by eapply render_built.
  - apply new_slots_consistent.
  - by exists h', s'.
Qed.

End apply.

Lemma apply_correct_witness :
  let h0 := @hm_append assoc_http (@hm_new assoc_http) "x-tier" "client" in
  ∃ h' s', apply (H := assoc_http) h0 [OpSet "x-tier" demo_template] (Some demo_table)
      root_context (new_slots demo_table) = Some (h', s') ∧
    ∀ n, hm_get_all h' n =
      fold_left (op_values (render_pure root_context None (env_of demo_table root_context)))
        (ops_for n [OpSet "x-tier" demo_template]) (@hm_get_all assoc_http h0 n).
Proof.
  apply (@apply_correct assoc_http fixed_regex assoc_http_laws demo_layers demo_table root_context).
  - exact demo_table_built.
  - intros op t ->%list_elem_of_singleton [= <-]. exists "{label}". exact demo_template_compiled.
Defined.

(** A [set] rule does not always replace: for an anonymous request the
    value [{username}] renders empty, the rule is skipped, and the header
    keeps what the client itself sent. *)
Theorem set_keeps_client_value `{HttpLaws} `{Regex} headers name ctx s :
  username ctx = "" →
  apply headers [OpSet name [Var Username None]] None ctx s = Some (headers, s).
Proof.
  intros Hu. cbn. unfold render. cbn. by rewrite Hu.
Qed.

Lemma set_keeps_client_value_witness :
  let h0 := @hm_append assoc_http (@hm_new assoc_http) "x-user" "root" in
  apply (H := assoc_http) h0 [OpSet "x-user" [Var Username None]] None empty_context []
  = Some (h0, []).
Proof.
  apply (@set_keeps_client_value assoc_http assoc_http_laws fixed_regex). reflexivity.
Defined.

End HeaderRules.
