(* ===== verification/Auth.v ===== *)
(** Authentication back-ends ([src/auth.rs]): identities and principals, HTTP
    Basic credentials, the subrequest, LDAP, htpasswd-file and PAM
    authenticators, and the escaping that keeps user names from being read
    as LDAP syntax.

    What the repository calls but does not contain is a class of operations:
    base64 decoding, the password-hash crates, the LDAP and PAM
    libraries and the HTTP client.  A Rust [char] outside ASCII is a run of
    bytes above 127; every character the escaping routines look at is ASCII,
    so treating the text byte by byte is exact. *)
From S2P Require Import Prelude RustStr Utf8 Http.

(** * Libraries *)

(** The standard base64 alphabet. *)
Class TextCodec := {
  base64_decode : string → option string;
}.

(** A client's encoder. *)
Class TextCodecLaws `{TextCodec} (encode : string → string) : Prop := {
  base64_decode_encode s : base64_decode (encode s) = Some s;
}.

(** [bcrypt::verify], [sha512_crypt::verify] and the argon2 verifier, each
    [false] on a malformed hash. *)
Class HashCrates := {
  bcrypt_verify : string → string → bool;
  sha512_crypt_verify : string → string → bool;
  argon2_verify : string → string → bool;
}.

Module Auth.

(** * Principals *)

Record Identity := {
  id_username : string;
  id_groups : list string;
}.

Inductive Principal :=
  | Anonymous
  | Authenticated (id : Identity).

#[global] Instance Identity_eq_dec : EqDecision Identity.
Proof. solve_decision. Defined.
#[global] Instance Principal_eq_dec : EqDecision Principal.
Proof. solve_decision. Defined.

(** [principal_strings] of [src/headers.rs]. *)
Definition principal_strings (p : Principal) : string * string :=
  match p with
  | Anonymous => ("", "")
  | Authenticated id => (id_username id, join "," (id_groups id))
  end.

(** [s.split(',').map(str::trim).filter(|g| !g.is_empty())]. *)
Definition parse_groups (s : string) : list string :=
  List.filter (λ g, negb (is_empty g)) (trim <$> split "," s).

Section auth.
Context `{Http}.

(** ** The authenticators that never identify anybody *)

Definition anonymous_authenticate (headers : header_map) : Principal := Anonymous.
Definition oidc_authenticate (headers : header_map) : Principal := Anonymous.

(** * Subrequest authentication *)

Record SubrequestAuthConfig := {
  sc_url : string;
  sc_forward_headers : list string;
  sc_user_header : option string;
  sc_groups_header : option string;
  sc_timeout_secs : N;
}.

Record SubrequestAuthenticator := {
  sa_url : string;
  sa_forward_headers : list HeaderName;
  sa_user_header : option HeaderName;
  sa_groups_header : option HeaderName;
  sa_timeout : Duration;
}.

(** [opt.map(f).transpose()]. *)
Definition try_opt {A B} (f : A → Result B) (o : option A) : Result (option B) :=
  match o with
  | None => Ok None
  | Some a => b ← f a; Ok (Some b)
  end.

Definition header_name_or (tag s : string) : Result HeaderName := ok_or (hn_from_bytes s) tag.

(** [SubrequestAuthenticator::new]; [uri] is the parser of [hyper::Uri]. *)
Definition subrequest_new (uri : string → option string) (cfg : SubrequestAuthConfig)
    : Result SubrequestAuthenticator :=
  url ← ok_or (uri (sc_url cfg)) "invalid subrequest URL";
  forward ← try_map (header_name_or "invalid forward-header") (sc_forward_headers cfg);
  user ← try_opt (header_name_or "invalid user-header") (sc_user_header cfg);
  groups ← try_opt (header_name_or "invalid groups-header") (sc_groups_header cfg);
  Ok {| sa_url := url; sa_forward_headers := forward; sa_user_header := user;
        sa_groups_header := groups; sa_timeout := from_secs (sc_timeout_secs cfg) |}.

(** The headers of the subrequest: the first value of each forwarded name. *)
Definition forwarded (a : SubrequestAuthenticator) (headers : header_map) : header_map :=
  fold_left (λ h name,
    match hm_get headers name with Some v => hm_append h name v | None => h end)
    (sa_forward_headers a) hm_new.

(** How a client call ends: a response head, or a build or network error. *)
Inductive CallOutcome :=
  | Responded (status : N) (resp : header_map)
  | CallFailed.

(** [call], with the client as a parameter. *)
Definition subrequest_call (client : string → header_map → CallOutcome)
    (a : SubrequestAuthenticator) (headers : header_map) : Principal :=
  match client (sa_url a) (forwarded a headers) with
  | CallFailed => Anonymous
  | Responded status resp =>
      if negb (status =? 200) then Anonymous
      else
        let username := default "" (h ← sa_user_header a; get_str resp h) in
        let groups := default [] (h ← sa_groups_header a; s ← get_str resp h;
                                  Some (parse_groups s)) in
        Authenticated {| id_username := username; id_groups := groups |}
  end.

(** [authenticate]; [elapsed] is how long the call takes. *)
Definition subrequest_authenticate (client : string → header_map → CallOutcome)
    (elapsed : Duration) (a : SubrequestAuthenticator) (headers : header_map) : Principal :=
  if elapsed <? sa_timeout a then subrequest_call client a headers else Anonymous.

(** * HTTP Basic *)

Definition parse_basic_auth `{TextCodec} (headers : header_map) : option (string * string) :=
  val ← get_str headers AUTHORIZATION;
  encoded ← strip_prefix "Basic " val;
  bytes ← base64_decode encoded;
  decoded ← from_utf8 bytes;
  split_once ":" decoded.

End auth.

(** * LDAP *)

Fixpoint replace_loop (fuel : nat) (pat to s : string) : string :=
  match fuel with
  | O => s
  | S fuel' =>
      match s with
      | "" => ""
      | String c s' =>
          match strip_prefix pat s with
          | Some rest => to +:+ replace_loop fuel' pat to rest
          | None => String c (replace_loop fuel' pat to s')
          end
      end
  end.

(** [s.replace(pat, to)] for a pattern that is not empty. *)
Definition replace (pat to s : string) : string := replace_loop (String.length s) pat to s.

Definition normalize_ldapi_url (url : string) : string :=
  match strip_prefix "ldapi://" url with
  | None => url
  | Some rest =>
      if starts_with "%2F" rest || starts_with "%2f" rest then url
      else "ldapi://" +:+ replace "/" "%2F" rest
  end.

Definition DQUOTE : ascii := "034"%char.
Definition NUL : ascii := "000"%char.

(** The characters [escape_dn] escapes wherever they stand. *)
Definition dn_special (c : ascii) : bool :=
  Ascii.eqb c "," || Ascii.eqb c "+" || Ascii.eqb c DQUOTE || Ascii.eqb c "\"
  || Ascii.eqb c "<" || Ascii.eqb c ">" || Ascii.eqb c ";".

(** The loop body of [escape_dn] for every character; [first] is [i == 0]. *)
Fixpoint escape_dn_loop (first : bool) (s : string) : string :=
  match s with
  | "" => ""
  | String c s' =>
      let last := is_empty s' in
      let rest := escape_dn_loop false s' in
      if dn_special c then String "\" (String c rest)
      else if Ascii.eqb c "#" && first then String "\" (String "#" rest)
      else if Ascii.eqb c " " && (first || last) then String "\" (String " " rest)
      else String c rest
  end.

Definition escape_dn (s : string) : string :=
  if is_empty s then "" else escape_dn_loop true s.

Definition escape_filter_char (c : ascii) : string :=
  if Ascii.eqb c "\" then "\5c"
  else if Ascii.eqb c "*" then "\2a"
  else if Ascii.eqb c "(" then "\28"
  else if Ascii.eqb c ")" then "\29"
  else if Ascii.eqb c NUL then "\00"
  else String c "".

Fixpoint escape_filter (s : string) : string :=
  match s with
  | "" => ""
  | String c s' => escape_filter_char c +:+ escape_filter s'
  end.

Record LdapAuthConfig := {
  ld_url : string;
  ld_bind_dn : string;
  ld_base_dn : string;
  ld_group_filter : string;
  ld_group_attr : string;
  ld_starttls : bool;
  ld_timeout_secs : N;
}.

(** The LDAP client: opening a connection, a simple bind on it, a subtree
    search returning the attribute values of each entry, and unbinding. *)
Class Ldap := {
  ldap_conn : Type;
  ldap_connect : bool → Duration → string → option ldap_conn;
  ldap_simple_bind : ldap_conn → string → string → bool;
  ldap_search : ldap_conn → string → string → string → option (list (gmap string (list string)));
  ldap_unbind : ldap_conn → bool;
}.

Section ldap.
Context `{Http} `{TextCodec} `{Ldap}.

Definition ldap_authenticate (cfg : LdapAuthConfig) (username password : string)
    : Result (list string) :=
  let url := normalize_ldapi_url (ld_url cfg) in
  conn ← ok_or (ldap_connect (ld_starttls cfg) (from_secs (ld_timeout_secs cfg)) url) "connect";
  let dn := replace "{user}" (escape_dn username) (ld_bind_dn cfg) in
  if negb (ldap_simple_bind conn dn password) then Err "invalid credentials"
  else
    let filter := replace "{user}" (escape_filter username) (ld_group_filter cfg) in
    entries ← ok_or (ldap_search conn (ld_base_dn cfg) filter (ld_group_attr cfg)) "search";
    let groups : list string :=
      omap (λ attrs, vals ← (attrs : gmap string (list string)) !! ld_group_attr cfg; head vals)
        entries in
    if ldap_unbind conn then Ok groups else Err "unbind".

(** [LdapAuthenticator::authenticate]; [elapsed] is how long the directory takes. *)
Definition ldap_auth (cfg : LdapAuthConfig) (elapsed : Duration) (headers : header_map)
    : Principal :=
  match parse_basic_auth headers with
  | None => Anonymous
  | Some (username, password) =>
      if is_empty password then Anonymous
      else if from_secs (ld_timeout_secs cfg) <=? elapsed then Anonymous
      else match ldap_authenticate cfg username password with
           | Ok groups => Authenticated {| id_username := username; id_groups := groups |}
           | Err _ => Anonymous
           end
  end.

End ldap.

(** * The htpasswd file *)

Record FileAuthEntry := {
  fe_hash : string;
  fe_groups : list string;
}.

Record FileAuthState := {
  fs_entries : gmap string FileAuthEntry;
  fs_mtime : option SystemTime;
  fs_last_check : Instant;
}.

Definition is_supported_hash (hash : string) : bool :=
  starts_with "$2y$" hash || starts_with "$2b$" hash || starts_with "$2a$" hash
  || starts_with "$6$" hash || starts_with "$argon2id$" hash.

Definition verify_password `{HashCrates} (password hash : string) : bool :=
  if starts_with "$2y$" hash || starts_with "$2b$" hash || starts_with "$2a$" hash
  then bcrypt_verify password hash
  else if starts_with "$6$" hash then sha512_crypt_verify password hash
  else if starts_with "$argon2id$" hash then argon2_verify password hash
  else false.

(** [text.lines()]: a final line break opens no further line, and a carriage
    return before a line break belongs to it. *)
Definition lines (text : string) : list string :=
  let parts := split "010" text in
  let parts := match last parts with
               | Some "" => removelast parts
               | _ => parts
               end in
  (λ l, match last (String.list_ascii_of_string l) with
        | Some "013"%char => String.substring 0 (String.length l - 1) l
        | _ => l
        end) <$> parts.

(** What one line of the file adds to the table. *)
Definition htpasswd_line (entries : gmap string FileAuthEntry) (line : string)
    : gmap string FileAuthEntry :=
  let line := trim line in
  if is_empty line || starts_with "#" line then entries
  else match splitn 3 ":" line with
       | user :: hash :: rest =>
           if negb (is_supported_hash hash) then entries
           else
             let groups := match rest with g :: _ => parse_groups g | [] => [] end in
             <[user := {| fe_hash := hash; fe_groups := groups |}]> entries
       | _ => entries
       end.

Definition parse_htpasswd (text : string) : gmap string FileAuthEntry :=
  fold_left htpasswd_line (lines text) ∅.

(** [load_htpasswd]: the file's text at the moment of the read ([None] if it
    cannot be read or is not UTF-8) and its modification time at the moment
    of the [stat] that follows. *)
Definition load_htpasswd (read : option string) (stat : option SystemTime)
    : Result (gmap string FileAuthEntry * option SystemTime) :=
  text ← ok_or read "reading auth file";
  Ok (parse_htpasswd text, stat).

(** [FileAuthenticator::new]: the state, with the TTL kept beside it. *)
Definition file_new (read : option string) (stat : option SystemTime) (now : Instant)
    : Result FileAuthState :=
  '(entries, mtime) ← load_htpasswd read stat;
  Ok {| fs_entries := entries; fs_mtime := mtime; fs_last_check := now |}.

(** [maybe_refresh] as one thread runs it: [now_mtime] is the stat before the
    write lock is taken, [read] and [stat] are what the reload sees. *)
Definition maybe_refresh (cache_ttl : Duration) (now : Instant)
    (now_mtime : option SystemTime) (read : option string) (stat : option SystemTime)
    (s : FileAuthState) : FileAuthState :=
  if since now (fs_last_check s) <? cache_ttl then s
  else
    let s := {| fs_entries := fs_entries s; fs_mtime := fs_mtime s; fs_last_check := now |} in
    if decide (now_mtime = fs_mtime s) then s
    else match load_htpasswd read stat with
         | Ok (entries, mtime) =>
             {| fs_entries := entries; fs_mtime := mtime; fs_last_check := now |}
         | Err _ => s
         end.

Definition lookup_entry (s : FileAuthState) (username : string) : option FileAuthEntry :=
  fs_entries s !! username.

Section file.
Context `{Http} `{TextCodec} `{HashCrates}.

(** [FileAuthenticator::authenticate]; [refresh] is the cache refresh at this
    moment and [joined] whether the verification task could be joined. *)
Definition file_authenticate (refresh : FileAuthState → FileAuthState) (joined : bool)
    (headers : header_map) (s : FileAuthState) : Principal * FileAuthState :=
  match parse_basic_auth headers with
  | None => (Anonymous, s)
  | Some (username, password) =>
      if is_empty password then (Anonymous, s)
      else
        let s := refresh s in
        match lookup_entry s username with
        | None => (Anonymous, s)
        | Some entry =>
            let ok := if joined then verify_password password (fe_hash entry) else false in
            if ok
            then (Authenticated {| id_username := username; id_groups := fe_groups entry |}, s)
            else (Anonymous, s)
        end
  end.

(** * PAM *)

(** The PAM transaction and the group database. *)
Class Pam := {
  pam_ctx : Type;
  pam_context : string → string → string → option pam_ctx;
  pam_auth : pam_ctx → bool;
  pam_acct_mgmt : pam_ctx → bool;
  nix_groups : string → Result (list string);
}.

Definition pam_validate `{Pam} (service username password : string) : Result (list string) :=
  ctx ← ok_or (pam_context service username password) "PAM init";
  if negb (pam_auth ctx) then Err "PAM authenticate"
  else if negb (pam_acct_mgmt ctx) then Err "PAM account check"
  else nix_groups username.

Definition pam_authenticate `{Pam} (service : string) (joined : bool) (headers : header_map)
    : Principal :=
  match parse_basic_auth headers with
  | None => Anonymous
  | Some (username, password) =>
      if joined then
        match pam_validate service username password with
        | Ok groups => Authenticated {| id_username := username; id_groups := groups |}
        | Err _ => Anonymous
        end
      else Anonymous
  end.

End file.

(** * Reading escaped values back

    The grammars of RFC 4515 (assertion values) and RFC 4514 (attribute
    values in a DN), as readers: a value is read to the text it denotes, and
    a character that would end the value or be given a meaning is refused. *)

Definition hex_digit (c : ascii) : option N :=
  let n := N_of_ascii c in
  if (48 <=? n) && (n <=? 57) then Some (n - 48)
  else if (97 <=? n) && (n <=? 102) then Some (n - 87)
  else if (65 <=? n) && (n <=? 70) then Some (n - 55)
  else None.

Definition filter_meta (c : ascii) : bool :=
  Ascii.eqb c "*" || Ascii.eqb c "(" || Ascii.eqb c ")" || Ascii.eqb c NUL.

Fixpoint filter_value (s : string) : option string :=
  match s with
  | "" => Some ""
  | String "\" (String h (String l s')) =>
      a ← hex_digit h; b ← hex_digit l; r ← filter_value s';
      Some (String (ascii_of_N (16 * a + b)) r)
  | String "\" _ => None
  | String c s' => if filter_meta c then None else r ← filter_value s'; Some (String c r)
  end.

(** The characters a DN value may carry behind a backslash. *)
Definition dn_escapable (c : ascii) : bool :=
  dn_special c || Ascii.eqb c "#" || Ascii.eqb c " " || Ascii.eqb c "=".

Fixpoint dn_read (first : bool) (s : string) : option string :=
  match s with
  | "" => Some ""
  | String c s' =>
      if Ascii.eqb c "\" then
        match s' with
        | String e s'' => if dn_escapable e then r ← dn_read false s''; Some (String e r) else None
        | "" => None
        end
      else if dn_special c || Ascii.eqb c NUL then None
      else if first && (Ascii.eqb c "#" || Ascii.eqb c " ") then None
      else if is_empty s' && Ascii.eqb c " " then None
      else r ← dn_read false s'; Some (String c r)
  end.

Definition dn_value (s : string) : option string := dn_read true s.

Lemma filter_value_plain c s :
  Ascii.eqb c "\" = false → filter_meta c = false →
  filter_value (String c s) = r ← filter_value s; Some (String c r).
Proof. destruct c as [[] [] [] [] [] [] [] []]; done. Qed.

Lemma filter_value_escape s : filter_value (escape_filter s) = Some s.
Proof.
  induction s as [|c s IH]; [done|]. cbn [escape_filter]. unfold escape_filter_char.
  destruct (Ascii.eqb c "\") eqn:E1;
    [apply Ascii.eqb_eq in E1 as ->; rewrite !str_app_cons, str_app_nil_l; cbn; by rewrite IH|].
  destruct (Ascii.eqb c "*") eqn:E2;
    [apply Ascii.eqb_eq in E2 as ->; rewrite !str_app_cons, str_app_nil_l; cbn; by rewrite IH|].
  destruct (Ascii.eqb c "(") eqn:E3;
    [apply Ascii.eqb_eq in E3 as ->; rewrite !str_app_cons, str_app_nil_l; cbn; by rewrite IH|].
  destruct (Ascii.eqb c ")") eqn:E4;
    [apply Ascii.eqb_eq in E4 as ->; rewrite !str_app_cons, str_app_nil_l; cbn; by rewrite IH|].
  destruct (Ascii.eqb c NUL) eqn:E5;
    [apply Ascii.eqb_eq in E5 as ->; rewrite !str_app_cons, str_app_nil_l; cbn; by rewrite IH|].
  rewrite str_app_cons, str_app_nil_l, filter_value_plain, IH; [done|done|].
  unfold filter_meta. by rewrite E2, E3, E4, E5.
Qed.

Lemma escape_dn_loop_empty first s : is_empty (escape_dn_loop first s) = is_empty s.
Proof. destruct s; [done|]. cbn. repeat case_match; done. Qed.

Lemma dn_read_escaped first c s r :
  dn_escapable c = true → dn_read false s = Some r →
  dn_read first (String "\" (String c s)) = Some (String c r).
Proof. intros Hc Hs. cbn. by rewrite Hc, Hs. Qed.

Lemma dn_read_escape first s :
  contains_char NUL s = false → dn_read first (escape_dn_loop first s) = Some s.
Proof.
  revert first. induction s as [|c s IH]; intros first; [done|]. cbn [contains_char].
  rewrite orb_false_iff. intros [Hn Hs]. cbn [escape_dn_loop].
  destruct (dn_special c) eqn:Ec.
  { apply dn_read_escaped; [|by apply IH]. unfold dn_escapable. by rewrite Ec. }
  destruct (Ascii.eqb c "#" && first) eqn:E1.
  { apply andb_true_iff in E1 as [->%Ascii.eqb_eq _]. apply dn_read_escaped; [done|by apply IH]. }
  destruct (Ascii.eqb c " " && (first || is_empty s)) eqn:E2.
  { apply andb_true_iff in E2 as [->%Ascii.eqb_eq _]. apply dn_read_escaped; [done|by apply IH]. }
  cbn [dn_read]. assert (Ascii.eqb c "\" = false) as ->.
  { unfold dn_special in Ec. rewrite !orb_false_iff in Ec. naive_solver. }
  rewrite Ec, Hn, escape_dn_loop_empty, IH by done. cbn.
  destruct (Ascii.eqb c "#"), (Ascii.eqb c " "), first, (is_empty s); done.
Qed.

(** * The file table *)

(** Only supported hash schemes, and no blank group names. *)
Definition table_ok (entries : gmap string FileAuthEntry) : Prop :=
  map_Forall (λ _ e, is_supported_hash (fe_hash e) = true ∧ "" ∉ fe_groups e) entries.

Lemma parse_groups_nonempty s : "" ∉ parse_groups s.
Proof.
  unfold parse_groups. intros Hin%list_elem_of_In%filter_In. by destruct Hin.
Qed.

Lemma htpasswd_line_ok entries line : table_ok entries → table_ok (htpasswd_line entries line).
Proof.
  intros Ht. unfold htpasswd_line. case_match; [done|].
  destruct (splitn 3 ":" (trim line)) as [|user [|hash rest]]; [done..|].
  destruct (is_supported_hash hash) eqn:Eh; [|done]. cbn.
  apply map_Forall_insert_2; [|done]. cbn. split; [done|].
  destruct rest; [by apply not_elem_of_nil|apply parse_groups_nonempty].
Qed.

Lemma parse_htpasswd_ok text : table_ok (parse_htpasswd text).
Proof.
  unfold parse_htpasswd. assert (table_ok ∅) as H0 by apply map_Forall_empty. revert H0.
  generalize (∅ : gmap string FileAuthEntry).
  induction (lines text) as [|l ls IH]; intros m Hm; cbn; [done|].
  by apply IH, htpasswd_line_ok.
Qed.

Lemma maybe_refresh_cases ttl now m read stat s :
  let s' := maybe_refresh ttl now m read stat s in
  s' = s ∨ fs_last_check s' = now ∧
    (fs_entries s' = fs_entries s ∧ fs_mtime s' = fs_mtime s ∨
     ∃ text, read = Some text ∧ fs_entries s' = parse_htpasswd text ∧ fs_mtime s' = stat).
Proof.
  cbn. unfold maybe_refresh. destruct (_ <? _); [by left|]. right.
  case_decide; [by eauto|]. destruct read as [text|]; cbn; eauto 10.
Qed.

Lemma maybe_refresh_same ttl now m read stat s :
  fs_mtime s = m → fs_entries (maybe_refresh ttl now m read stat s) = fs_entries s.
Proof.
  intros Hm. unfold maybe_refresh. destruct (_ <? _); [done|].
  by rewrite decide_True by (by rewrite <- Hm).
Qed.

Lemma maybe_refresh_ok ttl now m read stat s :
  table_ok (fs_entries s) → table_ok (fs_entries (maybe_refresh ttl now m read stat s)).
Proof.
  intros Hs. destruct (maybe_refresh_cases ttl now m read stat s)
    as [->|[_ [[-> _]|(text & _ & -> & _)]]]; [done..|]. apply parse_htpasswd_ok.
Qed.

(** * Properties *)

(** An LDAP filter built from a user name cannot be subverted: the escaped
    text, read as an RFC 4515 assertion value, contains no bare
    metacharacter and denotes exactly the name the client sent. *)
Theorem escape_filter_safe s : filter_value (escape_filter s) = Some s.
Proof. apply filter_value_escape. Qed.

(** The user name put into the bind DN is read back, as an RFC 4514
    attribute value, as exactly that name: no separator, leading sharp or
    bordering space escapes quoting.  The hypothesis excludes the NUL byte,
    which the routine leaves bare. *)
Theorem escape_dn_safe s :
  contains_char NUL s = false → dn_value (escape_dn s) = Some s.
Proof.
  intros Hn. unfold escape_dn, dn_value. destruct s as [|c s]; [done|].
  change (is_empty (String c s)) with false. cbn iota. by apply dn_read_escape.
Qed.

Lemma escape_dn_safe_witness :
  dn_value (escape_dn " #a,b=\c ") = Some " #a,b=\c ".
Proof. apply (escape_dn_safe " #a,b=\c "). vm_compute. reflexivity. Defined.

(** The NUL byte is left bare in a DN although RFC 4514, which the
    routine implements, requires it to be escaped; the filter routine does
    escape it. *)
Theorem escape_dn_nul_bare :
  dn_value (escape_dn (String NUL "")) = None ∧
  filter_value (escape_filter (String NUL "")) = Some (String NUL "").
Proof. split; vm_compute; reflexivity. Qed.

(** A request is authenticated against the htpasswd file only with a
    non-empty password that verifies against the entry of the named user in
    the table current after the refresh; that entry uses a supported hash
    scheme and supplies the groups.  The refresh keeps the table sound, so
    this holds for every request of a run that starts with a loaded file. *)
Theorem file_authenticate_sound `{Http} `{TextCodec} `{HashCrates}
    ttl now m read stat joined headers s id s' :
  table_ok (fs_entries s) →
  file_authenticate (maybe_refresh ttl now m read stat) joined headers s = (Authenticated id, s') →
  table_ok (fs_entries s') ∧
  ∃ password entry,
    parse_basic_auth headers = Some (id_username id, password) ∧ password ≠ "" ∧
    s' = maybe_refresh ttl now m read stat s ∧
    fs_entries s' !! id_username id = Some entry ∧
    is_supported_hash (fe_hash entry) = true ∧
    verify_password password (fe_hash entry) = true ∧ id_groups id = fe_groups entry.
Proof.
  intros Hs. unfold file_authenticate.
  destruct (parse_basic_auth headers) as [[username password]|]; [|discriminate].
  destruct (String.eqb_spec password "") as [->|Hp]; [discriminate|].
  unfold is_empty. apply String.eqb_neq in Hp as Hp'. rewrite Hp'. clear Hp'.
  pose proof (maybe_refresh_ok ttl now m read stat s Hs) as Hok.
  destruct (lookup_entry _ username) as [entry|] eqn:El; [|discriminate].
  destruct joined; [|discriminate]. destruct (verify_password _ _) eqn:Ev; [|discriminate].
  intros [= <- <-]. split; [done|]. exists password, entry. cbn. split_and!; try done.
  by destruct (Hok username entry El).
Qed.

(** A hash crate that accepts one bcrypt hash, and a codec that is the
    identity. *)
Definition demo_codec : TextCodec := {| base64_decode s := Some s |}.

Definition demo_hashes : HashCrates :=
  {| bcrypt_verify p h := String.eqb ("$2y$" +:+ p) h;
     sha512_crypt_verify _ _ := false; argon2_verify _ _ := false |}.

Definition demo_credentials : @header_map assoc_http :=
  @hm_append assoc_http (@hm_new assoc_http) AUTHORIZATION "Basic alice:pw".

Definition demo_file : FileAuthState :=
  {| fs_entries := parse_htpasswd "alice:$2y$pw:ops, dev"; fs_mtime := Some 1%Z;
     fs_last_check := 0 |}.

Lemma file_authenticate_sound_witness :
  table_ok (fs_entries demo_file) ∧
  ∃ password entry,
    @parse_basic_auth assoc_http demo_codec demo_credentials = Some ("alice", password) ∧
    password ≠ "" ∧ demo_file = maybe_refresh 10 5 None None None demo_file ∧
    fs_entries demo_file !! "alice" = Some entry ∧ is_supported_hash (fe_hash entry) = true ∧
    @verify_password demo_hashes password (fe_hash entry) = true ∧
    ["ops"; "dev"] = fe_groups entry.
Proof.
  apply (@file_authenticate_sound assoc_http demo_codec demo_hashes 10 5 None None None true
    demo_credentials demo_file {| id_username := "alice"; id_groups := ["ops"; "dev"] |} demo_file).
  - apply parse_htpasswd_ok.
  - vm_compute. reflexivity.
Defined.

(** The refresh pairs the text it read with the modification time of a
    later [stat]: an edit that lands between the two is recorded as seen
    but not loaded, and every later refresh that sees the same time keeps
    the old table. *)
Theorem refresh_misses_edit old new t0 t1 s ttl now later read stat :
  fs_mtime s = Some t0 → t0 ≠ t1 → ttl ≤ since now (fs_last_check s) →
  let s1 := maybe_refresh ttl now (Some t1) (Some old) (Some t1) s in
  fs_entries s1 = parse_htpasswd old ∧
  fs_entries (maybe_refresh ttl later (Some t1) (Some new) stat s1) = parse_htpasswd old ∧
  fs_entries (maybe_refresh ttl later (Some t1) read stat s1) = parse_htpasswd old.
Proof.
  intros Hm Hne Httl. cbn. apply N.ltb_ge in Httl.
  assert (maybe_refresh ttl now (Some t1) (Some old) (Some t1) s =
    {| fs_entries := parse_htpasswd old; fs_mtime := Some t1; fs_last_check := now |}) as ->.
  { unfold maybe_refresh. rewrite Httl. cbn. rewrite Hm. by rewrite decide_False by congruence. }
  split_and!; [done|by rewrite maybe_refresh_same..].
Qed.

Lemma refresh_misses_edit_witness :
  let s1 := maybe_refresh 1 10 (Some 2%Z) (Some "alice:$2y$pw") (Some 2%Z) demo_file in
  fs_entries s1 = parse_htpasswd "alice:$2y$pw" ∧
  fs_entries (maybe_refresh 1 99 (Some 2%Z) (Some "") None s1) = parse_htpasswd "alice:$2y$pw" ∧
  fs_entries (maybe_refresh 1 99 (Some 2%Z) None None s1) = parse_htpasswd "alice:$2y$pw".
Proof.
  apply (refresh_misses_edit "alice:$2y$pw" "" 1%Z 2%Z demo_file 1 10 99 None None);
    [reflexivity|discriminate|vm_compute; discriminate].
Defined.

(** Credentials a client encodes as HTTP Basic are decoded to exactly the
    user name and password, colons in the password included. *)
Theorem parse_basic_auth_roundtrip `{HttpLaws} `{TextCodec}
    (enc : string → string) (laws : TextCodecLaws enc)
    headers v user pass :
  hm_get headers AUTHORIZATION = Some v →
  hv_to_str v = Some ("Basic " +:+ enc (user +:+ ":" +:+ pass)) →
  valid_utf8 (user +:+ ":" +:+ pass) = true → contains_char ":" user = false →
  parse_basic_auth headers = Some (user, pass).
Proof.
  intros Hg Hv Hu Hc. unfold parse_basic_auth, get_str. rewrite Hg.
  cbn [mbind option_bind]. rewrite Hv. cbn [mbind option_bind].
  rewrite strip_prefix_app. cbn [mbind option_bind].
  rewrite base64_decode_encode. cbn [mbind option_bind].
  unfold from_utf8. rewrite Hu. cbn [mbind option_bind]. by apply split_once_app.
Qed.

Lemma parse_basic_auth_roundtrip_witness :
  @parse_basic_auth assoc_http demo_codec demo_credentials = Some ("alice", "pw").
Proof.
  assert (@TextCodecLaws demo_codec (λ s, s)) as laws by done.
  apply (@parse_basic_auth_roundtrip assoc_http assoc_http_laws demo_codec (λ s, s) laws
    demo_credentials "Basic alice:pw" "alice" "pw"); done.
Defined.

End Auth.
