(* ===== verification/Access.v ===== *)
(** Access policies ([src/access.rs]): predicates over the client address,
    country and identity, rules tried in declaration order, and the lazily
    resolved principal.

    The authentication provider is an effect of the evaluation: [auth n] is
    what its [n]-th call of the request returns, and the context counts the
    calls, so that "called at most once" can be stated. *)
From S2P Require Import Prelude RustStr Net Http Auth Template.

Module Access.
Import Auth Template.

Section access.
Context `{IpNets} `{Http}.

(** * Predicates *)

Inductive Predicate :=
  | Address (nets : list ip_net)
  | PCountry (codes : list string)
  | User (names : list string)
  | Group (groups : list string)
  | PAuthenticated
  | Not (inner : Predicate)
  | And (preds : list Predicate).

(** Induction with a hypothesis for every conjunct. *)
Lemma Predicate_rect_nested (P : Predicate → Prop) :
  (∀ nets, P (Address nets)) → (∀ codes, P (PCountry codes)) → (∀ names, P (User names)) →
  (∀ groups, P (Group groups)) → P PAuthenticated → (∀ p, P p → P (Not p)) →
  (∀ ps, Forall P ps → P (And ps)) → ∀ p, P p.
Proof.
  intros HA HC HU HG HAu HN HAnd. fix IH 1. intros [nets|codes|names|groups| |p|ps].
  - apply HA.
  - apply HC.
  - apply HU.
  - apply HG.
  - apply HAu.
  - apply HN, IH.
  - apply HAnd. induction ps as [|p ps IHps]; constructor; [apply IH|apply IHps].
Qed.

Fixpoint needs_geoip (p : Predicate) : bool :=
  match p with
  | PCountry _ => true
  | Not inner => needs_geoip inner
  | And preds => existsb needs_geoip preds
  | _ => false
  end.

Fixpoint needs_auth (p : Predicate) : bool :=
  match p with
  | PAuthenticated | User _ | Group _ => true
  | Not inner => needs_auth inner
  | And preds => existsb needs_auth preds
  | _ => false
  end.

Inductive PredicateResult :=
  | PMatch
  | PNoMatch
  | Challenge (code : N).

(** * Evaluation *)

Record EvalContext := {
  ec_peer : IpAddr;
  ec_country : option string;
  ec_principal : option Principal;
  ec_calls : nat;
}.

Definition normalise (addr : IpAddr) : IpAddr :=
  match addr with
  | V6 v6 => match to_ipv4_mapped v6 with Some v4 => V4 v4 | None => addr end
  | _ => addr
  end.

(** [EvalContext::new]. *)
Definition new_context (peer : IpAddr) (country : option string) : EvalContext :=
  {| ec_peer := normalise peer; ec_country := country; ec_principal := None; ec_calls := 0 |}.

Definition take_principal (ctx : EvalContext) : Principal :=
  default Anonymous (ec_principal ctx).

Definition resolve_principal (auth : nat → Principal) (ctx : EvalContext)
    : Principal * EvalContext :=
  match ec_principal ctx with
  | Some p => (p, ctx)
  | None =>
      let p := auth (ec_calls ctx) in
      (p, {| ec_peer := ec_peer ctx; ec_country := ec_country ctx;
             ec_principal := Some p; ec_calls := S (ec_calls ctx) |})
  end.

Definition any_in (xs ys : list string) : bool :=
  existsb (λ x, bool_decide (x ∈ ys)) xs.

Fixpoint eval_predicate (auth : nat → Principal) (pred : Predicate) (ctx : EvalContext)
    : PredicateResult * EvalContext :=
  match pred with
  | Address nets =>
      (if existsb (λ n, net_contains n (ec_peer ctx)) nets then PMatch else PNoMatch, ctx)
  | PCountry codes =>
      (match ec_country ctx with
       | Some c => if existsb (λ code, String.eqb c code) codes then PMatch else PNoMatch
       | None => PNoMatch
       end, ctx)
  | PAuthenticated =>
      let '(p, ctx) := resolve_principal auth ctx in
      (match p with Authenticated _ => PMatch | Anonymous => Challenge 401 end, ctx)
  | User names =>
      let '(p, ctx) := resolve_principal auth ctx in
      (match p with
       | Authenticated id =>
           if bool_decide (id_username id ∈ names) then PMatch else PNoMatch
       | Anonymous => Challenge 401
       end, ctx)
  | Group groups =>
      let '(p, ctx) := resolve_principal auth ctx in
      (match p with
       | Authenticated id => if any_in (id_groups id) groups then PMatch else PNoMatch
       | Anonymous => Challenge 401
       end, ctx)
  | Not inner =>
      let '(r, ctx) := eval_predicate auth inner ctx in
      (match r with PMatch => PNoMatch | PNoMatch | Challenge _ => PMatch end, ctx)
  | And preds =>
      (fix go (preds : list Predicate) (ctx : EvalContext) : PredicateResult * EvalContext :=
         match preds with
         | [] => (PMatch, ctx)
         | p :: preds' =>
             let '(r, ctx) := eval_predicate auth p ctx in
             match r with PMatch => go preds' ctx | other => (other, ctx) end
         end) preds ctx
  end.

(** * Policies *)

Inductive PolicyAction :=
  | PAllow
  | PDeny (code : N)
  | PRedirect (to : string) (code : N).

Record PolicyRule := {
  rule_predicate : option Predicate;
  rule_action : PolicyAction;
}.

Record PolicyBlock := {
  pb_rules : list PolicyRule;
  pb_needs_geoip : bool;
  pb_redirect_templates : list (option Template);
}.

Inductive PolicyOutcome :=
  | Allow
  | Deny (code : N)
  | Redirect (to : Template) (code : N).

Definition assemble (rules : list PolicyRule) (templates : list (option Template)) : PolicyBlock :=
  {| pb_rules := rules;
     pb_needs_geoip :=
       existsb (λ r, match rule_predicate r with Some p => needs_geoip p | None => false end) rules;
     pb_redirect_templates := templates |}.

(** [PolicyBlock::new]. *)
Definition new_block (rules : list PolicyRule) : PolicyBlock :=
  assemble rules
    ((λ r, match rule_action r with PRedirect to _ => Some (parse to) | _ => None end) <$> rules).

Definition with_vars (rules : list PolicyRule) (names : VarNames) : Result PolicyBlock :=
  templates ← try_map (λ r, match rule_action r with
                            | PRedirect to _ => t ← compile to names; Ok (Some t)
                            | _ => Ok None
                            end) rules;
  Ok (assemble rules templates).

Definition redirect_templates (b : PolicyBlock) : list Template :=
  omap id (pb_redirect_templates b).

(** What a matching rule at position [i] does. *)
Definition fire (b : PolicyBlock) (i : nat) (action : PolicyAction) : PolicyOutcome :=
  match action with
  | PAllow => Allow
  | PDeny code => Deny code
  | PRedirect to code =>
      Redirect (match pb_redirect_templates b !! i with
                | Some (Some t) => t
                | _ => parse to
                end) code
  end.

Fixpoint evaluate_from (b : PolicyBlock) (auth : nat → Principal) (i : nat)
    (rules : list PolicyRule) (ctx : EvalContext) : PolicyOutcome * EvalContext :=
  match rules with
  | [] => (Deny 403, ctx)
  | rule :: rules' =>
      let '(result, ctx) := match rule_predicate rule with
                            | None => (PMatch, ctx)
                            | Some pred => eval_predicate auth pred ctx
                            end in
      match result with
      | PMatch => (fire b i (rule_action rule), ctx)
      | Challenge code => (Deny code, ctx)
      | PNoMatch => evaluate_from b auth (S i) rules' ctx
      end
  end.

Definition evaluate (b : PolicyBlock) (auth : nat → Principal) (ctx : EvalContext)
    : PolicyOutcome * EvalContext := evaluate_from b auth 0 (pb_rules b) ctx.

(** * Meaning

    A predicate as a function of the facts of the request, the principal
    among them. *)
Fixpoint meaning (peer : IpAddr) (country : option string) (p : Principal) (pred : Predicate)
    : PredicateResult :=
  match pred with
  | Address nets => if existsb (λ n, net_contains n peer) nets then PMatch else PNoMatch
  | PCountry codes =>
      if existsb (λ code, bool_decide (country = Some code)) codes then PMatch else PNoMatch
  | PAuthenticated => match p with Authenticated _ => PMatch | Anonymous => Challenge 401 end
  | User names =>
      match p with
      | Authenticated id => if bool_decide (id_username id ∈ names) then PMatch else PNoMatch
      | Anonymous => Challenge 401
      end
  | Group groups =>
      match p with
      | Authenticated id => if any_in (id_groups id) groups then PMatch else PNoMatch
      | Anonymous => Challenge 401
      end
  | Not inner =>
      match meaning peer country p inner with PMatch => PNoMatch | _ => PMatch end
  | And preds =>
      (fix go (preds : list Predicate) : PredicateResult :=
         match preds with
         | [] => PMatch
         | q :: preds' =>
             match meaning peer country p q with PMatch => go preds' | other => other end
         end) preds
  end.

Definition rule_meaning peer country p (r : PolicyRule) : PredicateResult :=
  match rule_predicate r with None => PMatch | Some pred => meaning peer country p pred end.

(** The first rule that decides. *)
Fixpoint decide_rules (b : PolicyBlock) peer country p (i : nat) (rules : list PolicyRule)
    : PolicyOutcome :=
  match rules with
  | [] => Deny 403
  | r :: rules' =>
      match rule_meaning peer country p r with
      | PMatch => fire b i (rule_action r)
      | Challenge code => Deny code
      | PNoMatch => decide_rules b peer country p (S i) rules'
      end
  end.

(** ** The context along an evaluation

    Either nobody asked for the principal yet, or it was resolved by the
    first and only call. *)
Definition lazy_ok (auth : nat → Principal) (ctx : EvalContext) : Prop :=
  ec_principal ctx = None ∧ ec_calls ctx = 0%nat ∨
  ec_principal ctx = Some (auth 0%nat) ∧ ec_calls ctx = 1%nat.

(** [ctx'] is [ctx] after some evaluation that asks for the principal only if
    [asks]. *)
Record advanced (auth : nat → Principal) (asks : bool) (ctx ctx' : EvalContext) : Prop := {
  adv_lazy : lazy_ok auth ctx';
  adv_peer : ec_peer ctx' = ec_peer ctx;
  adv_country : ec_country ctx' = ec_country ctx;
  adv_idle : asks = false → ctx' = ctx;
}.

Lemma advanced_refl auth b ctx : lazy_ok auth ctx → advanced auth b ctx ctx.
Proof. by split. Qed.

Lemma advanced_trans auth a b c ctx ctx' ctx'' :
  advanced auth a ctx ctx' → advanced auth b ctx' ctx'' → c = a || b → advanced auth c ctx ctx''.
Proof.
  intros [L1 P1 C1 I1] [L2 P2 C2 I2] ->. split; [done|congruence..|].
  intros [Ha Hb]%orb_false_iff. rewrite I2, I1 by done. done.
Qed.

Lemma resolve_principal_spec auth ctx :
  lazy_ok auth ctx → ∃ ctx', resolve_principal auth ctx = (auth 0%nat, ctx') ∧
    advanced auth true ctx ctx'.
Proof.
  intros [[Hp Hc]|[Hp Hc]]; unfold resolve_principal; rewrite Hp.
  - rewrite Hc. eexists. split; [done|]. split; cbn; try done. by right.
  - exists ctx. split; [done|]. apply advanced_refl. by right.
Qed.

Lemma country_meaning country codes :
  match country with
  | Some c => if existsb (λ code, String.eqb c code) codes then PMatch else PNoMatch
  | None => PNoMatch
  end = if existsb (λ code, bool_decide (country = Some code)) codes then PMatch else PNoMatch.
Proof.
  induction codes as [|c codes IH]; [by destruct country|]. cbn.
  destruct country as [k|]; [|done]. cbn in *.
  destruct (String.eqb_spec k c) as [->|Hn]; [by rewrite bool_decide_true|].
  by rewrite bool_decide_false by congruence.
Qed.

(** Lazy evaluation computes the meaning under the principal of the first
    call, and makes that call only for a predicate that mentions identity. *)
Lemma eval_predicate_correct auth pred ctx :
  lazy_ok auth ctx → ∃ ctx', eval_predicate auth pred ctx
    = (meaning (ec_peer ctx) (ec_country ctx) (auth 0%nat) pred, ctx') ∧
    advanced auth (needs_auth pred) ctx ctx'.
Proof.
  revert ctx. induction pred as [nets|codes|names|groups| |p IH|ps IH] using Predicate_rect_nested;
    intros ctx Hl; cbn.
  - exists ctx. split; [done|by apply advanced_refl].
  - exists ctx. rewrite country_meaning. split; [done|by apply advanced_refl].
  - destruct (resolve_principal_spec auth ctx Hl) as (ctx' & -> & Ha). by exists ctx'.
  - destruct (resolve_principal_spec auth ctx Hl) as (ctx' & -> & Ha). by exists ctx'.
  - destruct (resolve_principal_spec auth ctx Hl) as (ctx' & -> & Ha). by exists ctx'.
  - destruct (IH ctx Hl) as (ctx' & -> & Ha). exists ctx'. split; [|done]. by case_match.
  - revert ctx Hl. induction IH as [|p ps Hp _ IHps]; intros ctx Hl.
    { exists ctx. split; [done|by apply advanced_refl]. }
    destruct (Hp ctx Hl) as (ctx1 & -> & Ha1).
    destruct (meaning _ _ _ p).
    + destruct (IHps ctx1 (adv_lazy _ _ _ _ Ha1)) as (ctx' & -> & Ha').
      rewrite (adv_peer _ _ _ _ Ha1), (adv_country _ _ _ _ Ha1). exists ctx'. split; [done|].
      by eapply advanced_trans.
    + exists ctx1. split; [done|]. eapply advanced_trans; [done|apply advanced_refl, Ha1|done].
    + exists ctx1. split; [done|]. eapply advanced_trans; [done|apply advanced_refl, Ha1|done].
Qed.

Definition rule_needs_auth (r : PolicyRule) : bool :=
  match rule_predicate r with Some p => needs_auth p | None => false end.

Lemma evaluate_from_correct b auth i rules ctx :
  lazy_ok auth ctx → ∃ ctx', evaluate_from b auth i rules ctx
    = (decide_rules b (ec_peer ctx) (ec_country ctx) (auth 0%nat) i rules, ctx') ∧
    advanced auth (existsb rule_needs_auth rules) ctx ctx'.
Proof.
  revert i ctx. induction rules as [|r rules IH]; intros i ctx Hl; cbn.
  { exists ctx. split; [done|by apply advanced_refl]. }
  assert (∃ ctx1, match rule_predicate r with
                  | None => (PMatch, ctx)
                  | Some pred => eval_predicate auth pred ctx
                  end = (rule_meaning (ec_peer ctx) (ec_country ctx) (auth 0%nat) r, ctx1) ∧
    advanced auth (rule_needs_auth r) ctx ctx1) as (ctx1 & -> & Ha1).
  { unfold rule_meaning, rule_needs_auth. destruct (rule_predicate r) as [pred|].
    - by apply eval_predicate_correct.
    - exists ctx. split; [done|by apply advanced_refl]. }
  assert (advanced auth (rule_needs_auth r || existsb rule_needs_auth rules) ctx ctx1) as Hstop.
  { eapply advanced_trans; [done|apply advanced_refl, Ha1|done]. }
  destruct (rule_meaning _ _ _ r); [by eauto| |by eauto].
  destruct (IH (S i) ctx1 (adv_lazy _ _ _ _ Ha1)) as (ctx' & -> & Ha').
  rewrite (adv_peer _ _ _ _ Ha1), (adv_country _ _ _ _ Ha1). exists ctx'. split; [done|].
  eapply advanced_trans; [exact Ha1|exact Ha'|done].
Qed.

Lemma new_context_lazy auth peer country : lazy_ok auth (new_context peer country).
Proof. by left. Qed.

Lemma meaning_country peer c c' p pred :
  needs_geoip pred = false → meaning peer c p pred = meaning peer c' p pred.
Proof.
  induction pred as [nets|codes|names|groups| |q IH|ps IH] using Predicate_rect_nested;
    cbn; try done.
  - intros Hn. by rewrite (IH Hn).
  - induction IH as [|q ps Hq _ IHps]; cbn; [done|]. intros [H1 H2]%orb_false_iff.
    rewrite (Hq H1). by rewrite IHps.
Qed.

(** Without identity predicates the principal does not matter, and is not
    asked for. *)
Lemma meaning_principal peer c p p' pred :
  needs_auth pred = false → meaning peer c p pred = meaning peer c p' pred.
Proof.
  induction pred as [nets|codes|names|groups| |q IH|ps IH] using Predicate_rect_nested;
    cbn; try done.
  - intros Hn. by rewrite (IH Hn).
  - induction IH as [|q ps Hq _ IHps]; cbn; [done|]. intros [H1 H2]%orb_false_iff.
    rewrite (Hq H1). by rewrite IHps.
Qed.

Lemma decide_rules_principal b peer c p p' i rules :
  existsb rule_needs_auth rules = false →
  decide_rules b peer c p i rules = decide_rules b peer c p' i rules.
Proof.
  revert i. induction rules as [|r rules IH]; intros i; [done|]. cbn.
  intros [Hr Hrs]%orb_false_iff.
  assert (rule_meaning peer c p r = rule_meaning peer c p' r) as ->.
  { unfold rule_meaning, rule_needs_auth in *.
    destruct (rule_predicate r); [by apply meaning_principal|done]. }
  by destruct (rule_meaning peer c p' r); [|apply IH|].
Qed.

Lemma evaluate_from_no_auth b auth i rules ctx :
  existsb rule_needs_auth rules = false → lazy_ok auth ctx →
  evaluate_from b auth i rules ctx
    = (decide_rules b (ec_peer ctx) (ec_country ctx) (auth 0%nat) i rules, ctx).
Proof.
  intros Hn Hl. destruct (evaluate_from_correct b auth i rules ctx Hl) as (ctx' & -> & Ha).
  by rewrite (adv_idle _ _ _ _ Ha Hn).
Qed.

Lemma decide_rules_Allow b peer country p i rules :
  decide_rules b peer country p i rules = Allow ↔
  ∃ pre r post, rules = pre ++ r :: post ∧
    Forall (λ q, rule_meaning peer country p q = PNoMatch) pre ∧
    rule_meaning peer country p r = PMatch ∧ rule_action r = PAllow.
Proof.
  revert i. induction rules as [|r rules IH]; intros i; cbn.
  { split; [done|]. intros (pre & r & post & E & _). by destruct pre. }
  destruct (rule_meaning peer country p r) as [| |code] eqn:Em.
  - split.
    + intros Hf. exists [], r, rules. split_and!; try done. by destruct (rule_action r).
    + intros ([|q pre] & r' & post & [= <- E] & Hpre & Hm & Ha); [by rewrite Ha|].
      apply Forall_cons in Hpre as [Hq _]. congruence.
  - rewrite IH. split.
    + intros (pre & r' & post & -> & Hpre & Hrest). exists (r :: pre), r', post.
      split; [done|]. split; [by constructor|done].
    + intros ([|q pre] & r' & post & [= <- E] & Hpre & Hm & Ha); [congruence|].
      apply Forall_cons in Hpre as [_ Hpre]. by exists pre, r', post.
  - split; [done|].
    intros ([|q pre] & r' & post & [= <- E] & Hpre & Hm & Ha); [congruence|].
    apply Forall_cons in Hpre as [Hq _]. congruence.
Qed.

(** * Properties *)

(** C8: evaluating a policy with its lazily resolved principal gives the
    decision of the first rule that is not a mismatch, a failed identity test
    of an anonymous client counting as a denial with its challenge code and
    the end of the list as a 403; the authenticator runs at most once per
    request, and not at all when no rule mentions identity. *)
Theorem evaluate_correct b auth peer country :
  ∃ ctx', evaluate b auth (new_context peer country)
    = (decide_rules b (normalise peer) country (auth 0%nat) 0 (pb_rules b), ctx') ∧
    (ec_calls ctx' ≤ 1)%nat ∧
    (ec_calls ctx' = 1%nat → take_principal ctx' = auth 0%nat) ∧
    (existsb rule_needs_auth (pb_rules b) = false →
       ec_calls ctx' = 0%nat ∧ take_principal ctx' = Anonymous).
Proof.
  destruct (evaluate_from_correct b auth 0 (pb_rules b) (new_context peer country))
    as (ctx' & E & [Hl _ _ Hi]); [apply new_context_lazy|].
  exists ctx'. split; [done|]. unfold take_principal. split_and!.
  - destruct Hl as [[_ ->]|[_ ->]]; lia.
  - destruct Hl as [[_ ->]|[-> _]]; [lia|done].
  - intros Hn. rewrite Hi by done. done.
Qed.

(** C2: access is granted only by an explicit allow rule whose predicate holds
    for the request, every earlier rule having been a mismatch; in particular
    an empty policy, and one no rule of which matches, deny. *)
Theorem allow_iff_rule b auth peer country :
  fst (evaluate b auth (new_context peer country)) = Allow ↔
  ∃ pre r post, pb_rules b = pre ++ r :: post ∧
    Forall (λ q, rule_meaning (normalise peer) country (auth 0%nat) q = PNoMatch) pre ∧
    rule_meaning (normalise peer) country (auth 0%nat) r = PMatch ∧ rule_action r = PAllow.
Proof.
  destruct (evaluate_from_correct b auth 0 (pb_rules b) (new_context peer country))
    as (ctx' & E & _); [apply new_context_lazy|].
  unfold evaluate. rewrite E. apply decide_rules_Allow.
Qed.

(** When the block's GeoIP flag is off the country lookup can be skipped:
    the outcome is the same for every country. *)
Theorem geoip_flag_sound rules templates auth peer country country' :
  pb_needs_geoip (assemble rules templates) = false →
  fst (evaluate (assemble rules templates) auth (new_context peer country)) =
  fst (evaluate (assemble rules templates) auth (new_context peer country')).
Proof.
  set (b := assemble rules templates). intros Hg.
  destruct (evaluate_from_correct b auth 0 (pb_rules b) (new_context peer country))
    as (c1 & E1 & _); [apply new_context_lazy|].
  destruct (evaluate_from_correct b auth 0 (pb_rules b) (new_context peer country'))
    as (c2 & E2 & _); [apply new_context_lazy|].
  unfold evaluate. rewrite E1, E2. cbn [fst ec_peer ec_country new_context]. clear E1 E2.
  change (pb_rules b) with rules. cbn in Hg. clearbody b. generalize (auth 0%nat). intros p. generalize 0%nat.
  induction rules as [|r rules IH]; intros i; cbn [decide_rules]; [done|].
  cbn in Hg. apply orb_false_iff in Hg as [Hr Hrs].
  assert (rule_meaning (normalise peer) country p r =
          rule_meaning (normalise peer) country' p r) as Er.
  { unfold rule_meaning. destruct (rule_predicate r); [by apply meaning_country|done]. }
  rewrite Er. destruct (rule_meaning _ country' p r); [done| |done]. by apply IH.
Qed.

End access.

(** Exact-address networks, for examples. *)
Definition host_nets : IpNets :=
  {| ip_net := IpAddr; net_contains n a := bool_decide (n = a) |}.

Lemma geoip_flag_sound_witness :
  let rule := {| rule_predicate := Some (Address (H := host_nets) [V4 1]);
                 rule_action := PAllow |} in
  fst (evaluate (H0 := assoc_http) (assemble [rule] [None]) (λ _, Anonymous)
        (new_context (V6 281470681743361) (Some "AU"))) =
  fst (evaluate (H0 := assoc_http) (assemble [rule] [None]) (λ _, Anonymous)
        (new_context (V6 281470681743361) None)).
Proof.
  intros rule. apply (@geoip_flag_sound host_nets assoc_http [rule] [None] (λ _, Anonymous)).
  vm_compute. reflexivity.
Defined.

(** An IPv4-mapped peer is tested as the IPv4 address. *)
Example mapped_peer_allowed :
  fst (evaluate (H := host_nets) (H0 := assoc_http)
        (new_block [{| rule_predicate := Some (Address (H := host_nets) [V4 1]); rule_action := PAllow |}])
        (λ _, Anonymous) (new_context (V6 281470681743361) None)) = Allow.
Proof. vm_compute. reflexivity. Qed.

End Access.
