(* ===== verification/CachePolicy.v ===== *)
(** The cache policy of a location ([src/cache/policy.rs], [src/cache/key.rs]):
    the [Cache-Control] directives, whether and for how long a response may be
    stored, and how a request is answered from the store.

    A [None] of type [option] is a panic of the source, which only the
    addition of an entry's age can cause. *)
From S2P Require Import Prelude RustStr Http CacheEntry CacheStore Template Vars.

Module Policy.
Import Entry Store.

(** * Cache-Control *)

Section cache_control.
Context `{Http}.

(** The directives of every readable [Cache-Control] value, in order, names
    lower-cased, as both parsers of the source walk them. *)
Definition directive_of (directive : string) : string * option string :=
  let directive := trim directive in
  match split_once "=" directive with
  | Some (n, a) => (to_ascii_lowercase (trim n), Some (trim a))
  | None => (to_ascii_lowercase directive, None)
  end.

Definition directives (headers : header_map) : list (string * option string) :=
  concat ((λ value, match hv_to_str value with
                    | Some s => directive_of <$> split "," s
                    | None => []
                    end) <$> hm_get_all headers CACHE_CONTROL).

Definition DQ : ascii := "034"%char.

Definition parse_secs (arg : string) : option N := parse_uint u64_max (trim_matches DQ arg).

Record ResponseCacheControl := {
  rc_no_store : bool;
  rc_private : bool;
  rc_no_cache : bool;
  rc_public : bool;
  rc_max_age : option N;
  rc_s_maxage : option N;
  rc_swr : option N;
  rc_sie : option N;
}.

Definition response_default : ResponseCacheControl :=
  {| rc_no_store := false; rc_private := false; rc_no_cache := false; rc_public := false;
     rc_max_age := None; rc_s_maxage := None; rc_swr := None; rc_sie := None |}.

(** One round of [ResponseCacheControl::parse]. *)
Definition response_directive (cc : ResponseCacheControl) (d : string * option string)
    : ResponseCacheControl :=
  let '(name, arg) := d in
  let secs := arg ≫= parse_secs in
  if String.eqb name "no-store" then
    {| rc_no_store := true; rc_private := rc_private cc; rc_no_cache := rc_no_cache cc;
       rc_public := rc_public cc; rc_max_age := rc_max_age cc; rc_s_maxage := rc_s_maxage cc;
       rc_swr := rc_swr cc; rc_sie := rc_sie cc |}
  else if String.eqb name "private" then
    {| rc_no_store := rc_no_store cc; rc_private := true; rc_no_cache := rc_no_cache cc;
       rc_public := rc_public cc; rc_max_age := rc_max_age cc; rc_s_maxage := rc_s_maxage cc;
       rc_swr := rc_swr cc; rc_sie := rc_sie cc |}
  else if String.eqb name "no-cache" then
    {| rc_no_store := rc_no_store cc; rc_private := rc_private cc; rc_no_cache := true;
       rc_public := rc_public cc; rc_max_age := rc_max_age cc; rc_s_maxage := rc_s_maxage cc;
       rc_swr := rc_swr cc; rc_sie := rc_sie cc |}
  else if String.eqb name "public" then
    {| rc_no_store := rc_no_store cc; rc_private := rc_private cc; rc_no_cache := rc_no_cache cc;
       rc_public := true; rc_max_age := rc_max_age cc; rc_s_maxage := rc_s_maxage cc;
       rc_swr := rc_swr cc; rc_sie := rc_sie cc |}
  else if String.eqb name "max-age" then
    {| rc_no_store := rc_no_store cc; rc_private := rc_private cc; rc_no_cache := rc_no_cache cc;
       rc_public := rc_public cc; rc_max_age := secs; rc_s_maxage := rc_s_maxage cc;
       rc_swr := rc_swr cc; rc_sie := rc_sie cc |}
  else if String.eqb name "s-maxage" then
    {| rc_no_store := rc_no_store cc; rc_private := rc_private cc; rc_no_cache := rc_no_cache cc;
       rc_public := rc_public cc; rc_max_age := rc_max_age cc; rc_s_maxage := secs;
       rc_swr := rc_swr cc; rc_sie := rc_sie cc |}
  else if String.eqb name "stale-while-revalidate" then
    {| rc_no_store := rc_no_store cc; rc_private := rc_private cc; rc_no_cache := rc_no_cache cc;
       rc_public := rc_public cc; rc_max_age := rc_max_age cc; rc_s_maxage := rc_s_maxage cc;
       rc_swr := secs; rc_sie := rc_sie cc |}
  else if String.eqb name "stale-if-error" then
    {| rc_no_store := rc_no_store cc; rc_private := rc_private cc; rc_no_cache := rc_no_cache cc;
       rc_public := rc_public cc; rc_max_age := rc_max_age cc; rc_s_maxage := rc_s_maxage cc;
       rc_swr := rc_swr cc; rc_sie := secs |}
  else cc.

(** [ResponseCacheControl::parse]. *)
Definition parse_response (headers : header_map) : ResponseCacheControl :=
  fold_left response_directive (directives headers) response_default.

Record RequestCacheControl := {
  rq_no_store : bool;
  rq_no_cache : bool;
  rq_only_if_cached : bool;
  rq_max_age : option N;
  rq_min_fresh : option N;
  rq_max_stale : option (option N);
}.

Definition request_default : RequestCacheControl :=
  {| rq_no_store := false; rq_no_cache := false; rq_only_if_cached := false;
     rq_max_age := None; rq_min_fresh := None; rq_max_stale := None |}.

Definition request_directive (cc : RequestCacheControl) (d : string * option string)
    : RequestCacheControl :=
  let '(name, arg) := d in
  let secs := arg ≫= parse_secs in
  if String.eqb name "no-store" then
    {| rq_no_store := true; rq_no_cache := rq_no_cache cc;
       rq_only_if_cached := rq_only_if_cached cc; rq_max_age := rq_max_age cc;
       rq_min_fresh := rq_min_fresh cc; rq_max_stale := rq_max_stale cc |}
  else if String.eqb name "no-cache" then
    {| rq_no_store := rq_no_store cc; rq_no_cache := true;
       rq_only_if_cached := rq_only_if_cached cc; rq_max_age := rq_max_age cc;
       rq_min_fresh := rq_min_fresh cc; rq_max_stale := rq_max_stale cc |}
  else if String.eqb name "only-if-cached" then
    {| rq_no_store := rq_no_store cc; rq_no_cache := rq_no_cache cc;
       rq_only_if_cached := true; rq_max_age := rq_max_age cc;
       rq_min_fresh := rq_min_fresh cc; rq_max_stale := rq_max_stale cc |}
  else if String.eqb name "max-age" then
    {| rq_no_store := rq_no_store cc; rq_no_cache := rq_no_cache cc;
       rq_only_if_cached := rq_only_if_cached cc; rq_max_age := secs;
       rq_min_fresh := rq_min_fresh cc; rq_max_stale := rq_max_stale cc |}
  else if String.eqb name "min-fresh" then
    {| rq_no_store := rq_no_store cc; rq_no_cache := rq_no_cache cc;
       rq_only_if_cached := rq_only_if_cached cc; rq_max_age := rq_max_age cc;
       rq_min_fresh := secs; rq_max_stale := rq_max_stale cc |}
  else if String.eqb name "max-stale" then
    {| rq_no_store := rq_no_store cc; rq_no_cache := rq_no_cache cc;
       rq_only_if_cached := rq_only_if_cached cc; rq_max_age := rq_max_age cc;
       rq_min_fresh := rq_min_fresh cc; rq_max_stale := Some secs |}
  else cc.

(** [RequestCacheControl::parse]. *)
Definition parse_request (headers : header_map) : RequestCacheControl :=
  fold_left request_directive (directives headers) request_default.

End cache_control.

(** * The policy *)

Record CacheConfig := {
  cc_ttl_secs : N;
  cc_max_object_size : N;
  cc_methods : list string;
  cc_key : option string;
  cc_honor_client : bool;
}.

Record CachePolicy := {
  cp_key : option (list Template.TemplatePart);
  cp_ttl : Duration;
  cp_max_object_size : N;
  cp_methods : list string;
  cp_honor_client : bool;
}.

Record Decision := {
  d_lifetime : Duration;
  d_initial_age : Duration;
  d_vary : list (HeaderName * option string);
  d_swr : Duration;
  d_sie : Duration;
}.

Section policy.
Context `{Http} `{Regex} `{HttpDate} `{Lru StoredResponse}.

Inductive Lookup :=
  | Hit (r : HttpResponse)
  | StaleWhileRevalidate (entry : StoredResponse)
  | Revalidate (entry : StoredResponse) (serve_stale_on_error : bool)
  | Miss.

(** [CacheKey::compile]. *)
Definition compile_key (key : option string) (names : Template.VarNames)
    : Result (option (list Template.TemplatePart)) :=
  match key with
  | None => Ok None
  | Some k => t ← Template.compile k names; Ok (Some t)
  end.

(** [CachePolicy::compile]. *)
Definition compile_policy (cfg : CacheConfig) (names : Template.VarNames) : Result CachePolicy :=
  key ← compile_key (cc_key cfg) names;
  Ok {| cp_key := key; cp_ttl := from_secs (cc_ttl_secs cfg);
        cp_max_object_size := cc_max_object_size cfg; cp_methods := cc_methods cfg;
        cp_honor_client := cc_honor_client cfg |}.

Definition request_cacheable (p : CachePolicy) (method : string) : bool :=
  (String.eqb method "GET" || String.eqb method "HEAD")
  && existsb (λ m, String.eqb m method) (cp_methods p).

(** [CacheKey::build]; rendering threads the request's memo slots. *)
Definition build_key (p : CachePolicy) (sc : option Vars.VarTable)
    (ctx : Template.RequestContext) (s : list (option string))
    : option (string * list (option string)) :=
  match cp_key p with
  | Some t =>
      '(rendered, s') ← Vars.render sc ctx t s;
      Some (Template.method ctx +:+ " " +:+ rendered, s')
  | None =>
      Some (Template.method ctx +:+ " " +:+ Template.scheme ctx +:+ "://" +:+
            Template.host ctx +:+ Template.path_and_query ctx, s)
  end.

(** ** Freshness *)

Definition expires_minus_date (headers : header_map) : option Duration :=
  date ← header_date headers DATE;
  expires ← header_date headers EXPIRES;
  Some (Z.to_N (expires - date)).

Definition lifetime_from (p : CachePolicy) (cc : ResponseCacheControl) (headers : header_map)
    : Duration :=
  let origin :=
    match (match rc_s_maxage cc with Some s => Some s | None => rc_max_age cc end) with
    | Some s => Some (from_secs s)
    | None => expires_minus_date headers
    end in
  match origin with
  | Some o => N.min o (cp_ttl p)
  | None => cp_ttl p
  end.

Definition age_of (headers : header_map) : Duration :=
  default 0 (s ← get_str headers AGE; from_secs <$> parse_uint u64_max s).

Definition cacheable_status (status : N) : bool :=
  bool_decide (status ∈ [200; 203; 204; 300; 301; 404; 410]).

(** The [Vary] loop: the header names listed; [None] when a value cannot be
    read or contains a star. *)
Fixpoint vary_tokens (toks : list string) : option (list HeaderName) :=
  match toks with
  | [] => Some []
  | tok :: toks' =>
      let t := trim tok in
      if String.eqb t "*" then None
      else
        names ← vary_tokens toks';
        if is_empty t then Some names
        else match hn_from_bytes (to_ascii_lowercase t) with
             | Some name => Some (name :: names)
             | None => Some names
             end
  end.

Fixpoint vary_values (vs : list header_value) : option (list HeaderName) :=
  match vs with
  | [] => Some []
  | v :: vs' =>
      s ← hv_to_str v;
      names ← vary_tokens (split "," s);
      rest ← vary_values vs';
      Some (names ++ rest)
  end.

(** [evaluate]. *)
Definition evaluate (p : CachePolicy) (status : N) (resp req : header_map) : option Decision :=
  let cc := parse_response resp in
  if rc_no_store cc || rc_private cc || rc_no_cache cc then None
  else if hm_contains_key resp SET_COOKIE then None
  else if hm_contains_key resp CONTENT_ENCODING then None
  else
    vary_names ← vary_values (hm_get_all resp VARY);
    if hm_contains_key req AUTHORIZATION
       && negb (rc_public cc || bool_decide (is_Some (rc_s_maxage cc))) then None
    else if negb (cacheable_status status) then None
    else
      let lifetime := lifetime_from p cc resp in
      if lifetime =? 0 then None
      else Some {| d_lifetime := lifetime; d_initial_age := age_of resp;
                   d_vary := (λ name, (name, get_str req name)) <$> vary_names;
                   d_swr := default 0 (from_secs <$> rc_swr cc);
                   d_sie := default 0 (from_secs <$> rc_sie cc) |}.

(** ** Reading through *)

Definition lookup (st : CacheStore) (key : string) (req : header_map) (now : Instant)
    (rcc : RequestCacheControl) : option (Lookup * CacheStore) :=
  let '(found, st) := get st key in
  match found with
  | None => Some (Miss, st)
  | Some entry =>
      if negb (vary_matches entry req) then Some (Miss, st)
      else
        let fresh := is_fresh entry now in
        too_old ← match rq_max_age rcc with
                  | Some m => age ← current_age entry now; Some (m <? as_secs age)
                  | None => Some false
                  end;
        let min_fresh_unmet := match rq_min_fresh rcc with
                               | Some mf => as_secs (remaining_freshness entry now) <? mf
                               | None => false
                               end in
        let usable_fresh := fresh && negb (rq_no_cache rcc) && negb too_old
                            && negb min_fresh_unmet in
        if usable_fresh then
          r ← (if client_not_modified entry req then not_modified_response entry now
               else to_response entry now);
          Some (Hit r, st)
        else if fresh then
          Some (if has_validators entry then Revalidate entry false else Miss, st)
        else
          let stale := staleness entry now in
          let within := negb (rq_no_cache rcc) &&
            match rq_max_stale rcc with
            | Some None => true
            | Some (Some n) => as_secs stale <=? n
            | None => false
            end in
          if within then r ← to_response entry now; Some (Hit r, st)
          else if negb (rq_no_cache rcc) && negb (swr entry =? 0) && (stale <=? swr entry)
          then Some (StaleWhileRevalidate entry, st)
          else
            let sie_ok := negb (sie entry =? 0) && (stale <=? sie entry) in
            if has_validators entry || sie_ok then Some (Revalidate entry sie_ok, st)
            else Some (Miss, remove st key)
  end.

Definition stale_response (entry : StoredResponse) (now : Instant) : option HttpResponse :=
  to_response entry now.

(** ** Writing through *)

Definition add_bypass (st : CacheStore) : CacheStore :=
  let m := metrics st in
  set_metrics st {| cache_hits := cache_hits m; cache_misses := cache_misses m;
                    cache_stores := cache_stores m; cache_bypass := wrap64 (cache_bypass m + 1);
                    cache_revalidations := cache_revalidations m;
                    cache_evictions := cache_evictions m |}.

Definition serve_revalidated (p : CachePolicy) (st : CacheStore) (key : string)
    (entry : StoredResponse) (resp_304 : HttpResponse) (req : header_map) (now : Instant)
    : option (HttpResponse * CacheStore) :=
  let hs := resp_headers resp_304 in
  let cc := parse_response hs in
  let e := refreshed entry hs (lifetime_from p cc hs) (age_of hs) now in
  let st := insert st key e in
  r ← (if client_not_modified e req then not_modified_response e now else to_response e now);
  Some (r, st).

Definition bad_gateway : HttpResponse :=
  {| resp_status := 502; resp_headers := hm_new; resp_body := Full "<h1>502 Bad Gateway</h1>" |}.

Definition fits (p : CachePolicy) (headers : header_map) : bool :=
  match (s ← get_str headers CONTENT_LENGTH; parse_uint u64_max s) with
  | Some n => n <=? cp_max_object_size p
  | None => false
  end.

Definition maybe_store (p : CachePolicy) (st : CacheStore) (key : string) (req : header_map)
    (resp : HttpResponse) (now : Instant) : option (HttpResponse * CacheStore) :=
  match evaluate p (resp_status resp) (resp_headers resp) req with
  | None => Some (resp, add_bypass st)
  | Some d =>
      if negb (fits p (resp_headers resp)) then Some (resp, add_bypass st)
      else match resp_body resp with
           | Failing => Some (bad_gateway, st)
           | Full bytes =>
               let e := with_stale_windows
                          (Entry.new (resp_status resp) (resp_headers resp) bytes
                             (d_lifetime d) (d_initial_age d) (d_vary d) now)
                          (d_swr d) (d_sie d) in
               let st := insert st key e in
               r ← to_response e now;
               Some (r, st)
           end
  end.

End policy.

(** * Directives as facts *)

Definition has_directive `{Http} (name : string) (headers : header_map) : Prop :=
  ∃ arg, (name, arg) ∈ directives headers.

(** The argument of the last directive of that name. *)
Definition last_secs (name : string) (init : option N) (ds : list (string * option string))
    : option N :=
  fold_left (λ acc d, if String.eqb d.1 name then d.2 ≫= parse_secs else acc) ds init.

Lemma response_directive_fields cc name arg :
  let cc' := response_directive cc (name, arg) in
  let upd x old := if String.eqb name x then arg ≫= parse_secs else old in
  rc_no_store cc' = rc_no_store cc || String.eqb name "no-store" ∧
  rc_private cc' = rc_private cc || String.eqb name "private" ∧
  rc_no_cache cc' = rc_no_cache cc || String.eqb name "no-cache" ∧
  rc_public cc' = rc_public cc || String.eqb name "public" ∧
  rc_max_age cc' = upd "max-age" (rc_max_age cc) ∧
  rc_s_maxage cc' = upd "s-maxage" (rc_s_maxage cc) ∧
  rc_swr cc' = upd "stale-while-revalidate" (rc_swr cc) ∧
  rc_sie cc' = upd "stale-if-error" (rc_sie cc).
Proof.
  cbn. unfold response_directive.
  destruct (String.eqb_spec name "no-store") as [->|]; [by rewrite ?orb_true_r, ?orb_false_r|].
  destruct (String.eqb_spec name "private") as [->|]; [by rewrite ?orb_true_r, ?orb_false_r|].
  destruct (String.eqb_spec name "no-cache") as [->|]; [by rewrite ?orb_true_r, ?orb_false_r|].
  destruct (String.eqb_spec name "public") as [->|]; [by rewrite ?orb_true_r, ?orb_false_r|].
  rewrite !orb_false_r.
  destruct (String.eqb_spec name "max-age") as [->|]; [done|].
  destruct (String.eqb_spec name "s-maxage") as [->|]; [done|].
  destruct (String.eqb_spec name "stale-while-revalidate") as [->|]; [done|].
  by destruct (String.eqb_spec name "stale-if-error") as [->|].
Qed.

Lemma fold_flag {S} (get : S → bool) (f : S → string * option string → S) x ds s :
  (∀ s name arg, get (f s (name, arg)) = get s || String.eqb name x) →
  get (fold_left f ds s) = true ↔ get s = true ∨ ∃ arg, (x, arg) ∈ ds.
Proof.
  intros Hf. revert s. induction ds as [|[n a] ds IH]; intros s; cbn [fold_left].
  - setoid_rewrite elem_of_nil. naive_solver.
  - rewrite IH, Hf, orb_true_iff, String.eqb_eq. setoid_rewrite elem_of_cons.
    split; [naive_solver|]. intros [?|[a' [Heq|?]]]; [naive_solver| |naive_solver].
    simplify_eq. naive_solver.
Qed.

Lemma fold_secs {S} (get : S → option N) (f : S → string * option string → S) x ds s :
  (∀ s name arg, get (f s (name, arg)) = if String.eqb name x then arg ≫= parse_secs else get s) →
  get (fold_left f ds s) = last_secs x (get s) ds.
Proof.
  intros Hf. revert s. induction ds as [|[n a] ds IH]; intros s; cbn [fold_left]; [done|].
  rewrite IH, Hf. done.
Qed.

Lemma last_secs_app x i d1 d2 : last_secs x i (d1 ++ d2) = last_secs x (last_secs x i d1) d2.
Proof. unfold last_secs. by rewrite fold_left_app. Qed.

Lemma last_secs_Some x ds n : last_secs x None ds = Some n →
  ∃ arg, (x, Some arg) ∈ ds ∧ parse_secs arg = Some n.
Proof.
  induction ds as [|[y a] ds IH] using rev_ind; [done|].
  rewrite last_secs_app. cbn. destruct (String.eqb_spec y x) as [->|].
  - destruct a as [a|]; [|done]. cbn. intros Hp. exists a. split; [set_solver|done].
  - intros (arg & Hin & Hp)%IH. exists arg. set_solver.
Qed.

Section response.
Context `{Http}.

Lemma parse_response_flags h :
  (rc_no_store (parse_response h) = true ↔ has_directive "no-store" h) ∧
  (rc_private (parse_response h) = true ↔ has_directive "private" h) ∧
  (rc_no_cache (parse_response h) = true ↔ has_directive "no-cache" h) ∧
  (rc_public (parse_response h) = true ↔ has_directive "public" h).
Proof.
  unfold parse_response, has_directive.
  split_and!; (rewrite fold_flag; [naive_solver|]); intros cc n a;
    apply (response_directive_fields cc n a).
Qed.

Lemma parse_response_secs h :
  rc_max_age (parse_response h) = last_secs "max-age" None (directives h) ∧
  rc_s_maxage (parse_response h) = last_secs "s-maxage" None (directives h) ∧
  rc_swr (parse_response h) = last_secs "stale-while-revalidate" None (directives h) ∧
  rc_sie (parse_response h) = last_secs "stale-if-error" None (directives h).
Proof.
  unfold parse_response.
  split_and!; (erewrite fold_secs; [reflexivity|]); intros cc n a;
    apply (response_directive_fields cc n a).
Qed.

End response.

Section theorems.
Context `{Http} `{Regex} `{HttpDate} `{Lru StoredResponse} `{!HttpLaws} `{!LruLaws}.

(** ** Vary *)

Lemma vary_tokens_Some toks names :
  vary_tokens toks = Some names →
  ∀ tok, tok ∈ toks → trim tok ≠ "*" ∧
    ∀ n, trim tok ≠ "" → hn_from_bytes (to_ascii_lowercase (trim tok)) = Some n → n ∈ names.
Proof.
  revert names. induction toks as [|t toks IH]; intros names; cbn.
  { intros _ tok Hin. by apply elem_of_nil in Hin. }
  destruct (String.eqb_spec (trim t) "*") as [|Hs]; [done|].
  destruct (vary_tokens toks) as [names'|]; [|done]. cbn. unfold is_empty.
  intros Hn tok [->|Hin]%elem_of_cons.
  - split; [done|]. intros n He Hb. destruct (String.eqb_spec (trim t) ""); [done|].
    rewrite Hb in Hn. injection Hn as <-. by left.
  - destruct (IH names' eq_refl tok Hin) as [K1 K2]. split; [done|]. intros n He Hb.
    specialize (K2 n He Hb). repeat case_match; simplify_eq; set_solver.
Qed.

Lemma vary_values_Some vs names :
  vary_values vs = Some names →
  ∀ v, v ∈ vs → ∃ s, hv_to_str v = Some s ∧ ∀ tok, tok ∈ split "," s → trim tok ≠ "*" ∧
    ∀ n, trim tok ≠ "" → hn_from_bytes (to_ascii_lowercase (trim tok)) = Some n → n ∈ names.
Proof.
  revert names. induction vs as [|v vs IH]; intros names; cbn.
  { intros _ v Hin. by apply elem_of_nil in Hin. }
  destruct (hv_to_str v) as [s|] eqn:Es; [|done]. cbn.
  destruct (vary_tokens (split "," s)) as [ns|] eqn:Et; [|done]. cbn.
  destruct (vary_values vs) as [rest|]; [|done]. cbn. intros [= <-] w [->|Hin]%elem_of_cons.
  - exists s. split; [done|]. intros tok Hk. destruct (vary_tokens_Some _ _ Et tok Hk) as [K1 K2].
    split; [done|]. intros n He Hb. apply elem_of_app. left. by apply K2.
  - destruct (IH rest eq_refl w Hin) as (s' & Hs' & Hk). exists s'. split; [done|].
    intros tok Htok. destruct (Hk tok Htok) as [K1 K2]. split; [done|].
    intros n He Hb. apply elem_of_app. right. by apply K2.
Qed.

(** ** Lookups *)

Lemma lookup_absent st key req now rcc :
  assoc key (items st) = None → ∃ st', lookup st key req now rcc = Some (Miss, st').
Proof.
  intros Ha. pose proof (get_items st key) as Hg. unfold lookup.
  destruct (get st key) as [found st']. cbn in Hg. rewrite Hg, Ha. eauto.
Qed.

(** With no client directive, a lookup is decided by the entry alone. *)
Lemma lookup_default st key req now e :
  assoc key (items st) = Some e → vary_matches e req = true →
  ∃ st1, lookup st key req now request_default =
    if is_fresh e now then
      r ← (if client_not_modified e req then not_modified_response e now else to_response e now);
      Some (Hit r, st1)
    else if negb (swr e =? 0) && (staleness e now <=? swr e) then Some (StaleWhileRevalidate e, st1)
    else if has_validators e || (negb (sie e =? 0) && (staleness e now <=? sie e))
    then Some (Revalidate e (negb (sie e =? 0) && (staleness e now <=? sie e)), st1)
    else Some (Miss, remove st1 key).
Proof.
  intros Ha Hv. pose proof (get_items st key) as Hg. unfold lookup.
  destruct (get st key) as [found st1]. cbn in Hg. subst found. rewrite Ha, Hv. cbn.
  exists st1. by destruct (is_fresh e now).
Qed.

Definition stored_entry (resp : HttpResponse) (bytes : string) (d : Decision) (now : Instant)
    : StoredResponse :=
  with_stale_windows (Entry.new (resp_status resp) (resp_headers resp) bytes (d_lifetime d)
    (d_initial_age d) (d_vary d) now) (d_swr d) (d_sie d).

Lemma to_response_ok e now :
  initial_age e + since now (stored_at e) ≤ duration_max →
  to_response e now = Some {| resp_status := status e;
    resp_headers := set_age (headers e) (initial_age e + since now (stored_at e));
    resp_body := Full (body e) |}.
Proof.
  intros Hle. unfold to_response, current_age, duration_add. by rewrite decide_True.
Qed.

Lemma parse_digits_le max acc s n : acc ≤ max → parse_digits max acc s = Some n → n ≤ max.
Proof.
  revert acc. induction s as [|c s IH]; intros acc Ha; cbn; [by intros [= <-]|].
  destruct (digit_of c); [|done]. destruct (N.leb_spec (acc * 10 + n0) max); [|done]. by apply IH.
Qed.

Lemma parse_uint_le max s n : parse_uint max s = Some n → n ≤ max.
Proof.
  destruct s as [|c s]; [done|].
  assert (∀ t, parse_digits max 0 t = Some n → n ≤ max) as Hp
    by (intros t; apply parse_digits_le; lia).
  destruct (decide (c = "+"%char)) as [->|Hc]; [destruct s; [done|apply Hp]|].
  intros Hu. apply (Hp (String c s)). rewrite <- Hu.
  by destruct c as [[] [] [] [] [] [] [] []].
Qed.

Lemma age_of_le h : age_of h ≤ from_secs u64_max.
Proof.
  unfold age_of. destruct (get_str h AGE) as [s|]; cbn; [|done].
  destruct (parse_uint u64_max s) as [n|] eqn:E; cbn; [|done].
  apply parse_uint_le in E. unfold from_secs. nia.
Qed.

Lemma evaluate_age p status resp req d :
  evaluate p status resp req = Some d → d_initial_age d = age_of resp.
Proof.
  unfold evaluate. repeat (case_match; [done|]).
  destruct (vary_values _); [|done]. cbn. repeat (case_match; [done|]). by intros [= <-].
Qed.

Lemma maybe_store_stores p st key req resp now d bytes :
  evaluate p (resp_status resp) (resp_headers resp) req = Some d →
  fits p (resp_headers resp) = true → resp_body resp = Full bytes →
  ∃ r, maybe_store p st key req resp now = Some (r, insert st key (stored_entry resp bytes d now)).
Proof.
  intros He Hf Hb. unfold maybe_store. rewrite He, Hf, Hb. cbn [negb].
  rewrite to_response_ok; [by eexists|]. cbn.
  pose proof (age_of_le (resp_headers resp)) as Ha. rewrite (evaluate_age _ _ _ _ _ He).
  unfold since, duration_max, from_secs in *. lia.
Qed.

(** * Properties *)

(** C5: a response the policy agrees to store is one a shared cache may store:
    no directive on any [Cache-Control] line forbids it, it sets no cookie
    and is not content-encoded, no [Vary] value is a star or unreadable, its
    status is cacheable, a response to an authorized request is explicitly
    shared; its lifetime is positive and is the lesser of the configured TTL
    and what the origin declares, [s-maxage] before [max-age] before [Expires]
    less [Date], or the TTL where it declares nothing; its stale windows are
    those the origin declares; and the selecting value of every header [Vary]
    names is captured from the request. *)
Theorem evaluate_safe p status resp req d :
  evaluate p status resp req = Some d →
  ¬ has_directive "no-store" resp ∧ ¬ has_directive "private" resp ∧
  ¬ has_directive "no-cache" resp ∧
  hm_get_all resp SET_COOKIE = [] ∧ hm_get_all resp CONTENT_ENCODING = [] ∧
  status ∈ [200; 203; 204; 300; 301; 404; 410] ∧
  (hm_get_all req AUTHORIZATION ≠ [] →
     has_directive "public" resp ∨
     ∃ arg n, ("s-maxage", Some arg) ∈ directives resp ∧ parse_secs arg = Some n) ∧
  0 < d_lifetime d ≤ cp_ttl p ∧
  d_lifetime d = match last_secs "s-maxage" None (directives resp), last_secs "max-age" None (directives resp),
                       header_date resp EXPIRES, header_date resp DATE with
                 | Some n, _, _, _ | None, Some n, _, _ => from_secs n `min` cp_ttl p
                 | None, None, Some expires, Some date => Z.to_N (expires - date) `min` cp_ttl p
                 | None, None, _, _ => cp_ttl p
                 end ∧
  d_swr d = default 0 (from_secs <$> last_secs "stale-while-revalidate" None (directives resp)) ∧
  d_sie d = default 0 (from_secs <$> last_secs "stale-if-error" None (directives resp)) ∧
  (∀ v, v ∈ hm_get_all resp VARY → ∃ s, hv_to_str v = Some s ∧ ∀ tok, tok ∈ split "," s →
     trim tok ≠ "*" ∧
     ∀ n, trim tok ≠ "" → hn_from_bytes (to_ascii_lowercase (trim tok)) = Some n →
       (n, get_str req n) ∈ d_vary d).
Proof.
  unfold evaluate. destruct (parse_response_flags resp) as (F1 & F2 & F3 & F4).
  destruct (parse_response_secs resp) as (S1 & S2 & S3 & S4).
  destruct (rc_no_store _ || _ || _) eqn:Ef; [done|].
  apply orb_false_iff in Ef as [[Ef1 Ef2]%orb_false_iff Ef3].
  destruct (hm_contains_key resp SET_COOKIE) eqn:Ec; [done|].
  destruct (hm_contains_key resp CONTENT_ENCODING) eqn:Ee; [done|].
  destruct (vary_values _) as [names|] eqn:Ev; [|done]. cbn.
  destruct (hm_contains_key req AUTHORIZATION && _) eqn:Ea; [done|].
  destruct (cacheable_status status) eqn:Es; [|done]. cbn.
  destruct (N.eqb_spec (lifetime_from p (parse_response resp) resp) 0) as [|El]; [done|].
  intros [= <-]. cbn [d_lifetime d_vary d_swr d_sie].
  split; [intros Hd%F1; congruence|]. split; [intros Hd%F2; congruence|].
  split; [intros Hd%F3; congruence|]. split_and!.
  - by apply hm_contains_key_false.
  - by apply hm_contains_key_false.
  - unfold cacheable_status in Es. by apply bool_decide_eq_true in Es.
  - intros Hau. apply andb_false_iff in Ea as [Ea|Ea].
    { by apply hm_contains_key_false in Ea. }
    apply negb_false_iff, orb_true_iff in Ea as [Ea|Ea]; [left; by apply F4|right].
    apply bool_decide_eq_true in Ea as [n Hn]. rewrite S2 in Hn.
    apply last_secs_Some in Hn as (arg & ? & ?). eauto.
  - lia.
  - unfold lifetime_from. case_match; lia.
  - unfold lifetime_from, expires_minus_date. rewrite S1, S2.
    by destruct (last_secs "s-maxage" _ _), (last_secs "max-age" _ _), (header_date resp EXPIRES), (header_date resp DATE).
  - by rewrite S3.
  - by rewrite S4.
  - intros v Hin. destruct (vary_values_Some _ _ Ev v Hin) as (s & Hs & Hk). exists s.
    split; [done|]. intros tok Htok. destruct (Hk tok Htok) as [K1 K2]. split; [done|].
    intros n Hne Hb. apply list_elem_of_fmap. exists n. split; [done|]. by apply K2.
Qed.

(** A fresh entry the client refuses, and a stale one within a window of the
    origin. *)
Definition client_refuses (e : StoredResponse) (now : Instant) (rcc : RequestCacheControl) : Prop :=
  rq_no_cache rcc = true ∨
  (∃ m age, rq_max_age rcc = Some m ∧ current_age e now = Some age ∧ m < as_secs age) ∨
  (∃ m, rq_min_fresh rcc = Some m ∧ as_secs (remaining_freshness e now) < m).

Definition in_window (window : Duration) (e : StoredResponse) (now : Instant) : Prop :=
  0 < window ∧ staleness e now ≤ window.

(** Why an entry is not served: the client refuses a fresh one; a stale one is
    outside the origin's window for serving while it is refreshed, or the
    client asks for [no-cache]. *)
Definition not_served (e : StoredResponse) (now : Instant) (rcc : RequestCacheControl) : Prop :=
  if is_fresh e now then client_refuses e now rcc
  else rq_no_cache rcc = true ∨
    ¬ in_window (swr e) e now ∧
    ∀ limit, rq_max_stale rcc = Some limit → ∃ n, limit = Some n ∧ n < as_secs (staleness e now).

(** What a lookup may hand out, given the store it looked in. *)
Definition lookup_ok (st : CacheStore) (key : string) (req : header_map) (now : Instant)
    (rcc : RequestCacheControl) (out : Lookup) : Prop :=
  match out with
  | Hit r => ∃ e, assoc key (items st) = Some e ∧ vary_matches e req = true ∧
      rq_no_cache rcc = false ∧
      (is_fresh e now = true ∧
         (∀ m, rq_max_age rcc = Some m →
            ∃ age, current_age e now = Some age ∧ as_secs age ≤ m) ∧
         (∀ m, rq_min_fresh rcc = Some m → m ≤ as_secs (remaining_freshness e now)) ∧
         (if client_not_modified e req then not_modified_response e now else to_response e now)
           = Some r ∨
       is_fresh e now = false ∧ to_response e now = Some r ∧
         ∃ limit, rq_max_stale rcc = Some limit ∧
           ∀ n, limit = Some n → as_secs (staleness e now) ≤ n)
  | StaleWhileRevalidate e => assoc key (items st) = Some e ∧ vary_matches e req = true ∧
      is_fresh e now = false ∧ rq_no_cache rcc = false ∧ in_window (swr e) e now
  | Revalidate e fallback => assoc key (items st) = Some e ∧ vary_matches e req = true ∧
      not_served e now rcc ∧ (has_validators e = true ∨ fallback = true) ∧
      (fallback = true ↔ is_fresh e now = false ∧ in_window (sie e) e now)
  | Miss => ∀ e, assoc key (items st) = Some e → vary_matches e req = true →
      not_served e now rcc ∧ has_validators e = false ∧ (is_fresh e now = false → ¬ in_window (sie e) e now)
  end.

Lemma window_spec w e now : negb (w =? 0) && (staleness e now <=? w) = true ↔ in_window w e now.
Proof. unfold in_window. rewrite andb_true_iff, negb_true_iff, N.eqb_neq, N.leb_le. lia. Qed.

Lemma window_out w e now : negb (w =? 0) && (staleness e now <=? w) = false ↔ ¬ in_window w e now.
Proof. rewrite <- window_spec. by destruct (_ && _). Qed.

(** A fresh entry that is refused is revalidated where it can be. *)
Lemma refused_ok st key req now rcc e :
  assoc key (items st) = Some e → vary_matches e req = true → is_fresh e now = true → client_refuses e now rcc →
  lookup_ok st key req now rcc (if has_validators e then Revalidate e false else Miss).
Proof.
  intros Ha Hv Hf Hr. assert (not_served e now rcc) as Hn by (unfold not_served; by rewrite Hf).
  destruct (has_validators e) eqn:Hh; cbn.
  - split_and!; auto. rewrite Hf. split; [done|by intros [? _]].
  - intros e' He' _. assert (e' = e) as -> by congruence. rewrite Hf. done.
Qed.

(** A stale entry that is not served is revalidated where that can help. *)
Lemma expired_ok st key req now rcc e :
  assoc key (items st) = Some e → vary_matches e req = true → is_fresh e now = false → not_served e now rcc →
  let sie_ok := negb (sie e =? 0) && (staleness e now <=? sie e) in
  lookup_ok st key req now rcc (if has_validators e || sie_ok then Revalidate e sie_ok else Miss).
Proof.
  intros Ha Hv Hf Hn sie_ok. destruct (has_validators e || sie_ok) eqn:Hs; cbn.
  - apply orb_true_iff in Hs. split_and!; auto. rewrite Hf. unfold sie_ok. rewrite window_spec. tauto.
  - apply orb_false_iff in Hs as [Hh Hs%window_out]. intros e' He' _. assert (e' = e) as -> by congruence. done.
Qed.

Lemma lookup_outcome st key req now rcc out st' :
  lookup st key req now rcc = Some (out, st') → lookup_ok st key req now rcc out.
Proof.
  unfold lookup. pose proof (get_items st key) as Hg. destruct (get st key) as [found st1].
  cbn in Hg. destruct found as [e|]; [|intros [= <- <-] e He; congruence].
  destruct (vary_matches e req) eqn:Ev; cbn [negb];
    [|intros [= <- <-] e' He'; assert (e' = e) as -> by congruence; by rewrite Ev].
  destruct (match rq_max_age rcc with Some m => _ | None => _ end) as [old|] eqn:Eo; [|done].
  cbn [mbind option_bind].
  destruct (is_fresh e now) eqn:Ef; cbn [andb].
  - assert (client_refuses e now rcc → (if has_validators e then Revalidate e false else Miss, st1) = (out, st') →
      lookup_ok st key req now rcc out) as Href by (intros ? [= <- <-]; by apply refused_ok).
    destruct (rq_no_cache rcc) eqn:En; cbn [andb negb]; [intros [= H7]; apply Href; [by left|by f_equal]|].
    destruct old; cbn [andb negb].
    { intros [= H7]. apply Href; [|by f_equal]. right. left. destruct (rq_max_age rcc) as [m|]; [|done].
      destruct (current_age e now) as [age|]; [|done]. injection Eo as Hlt%N.ltb_lt. eauto. }
    destruct (match rq_min_fresh rcc with Some mf => _ | None => _ end) eqn:Em; cbn [andb negb].
    { intros [= H7]. apply Href; [|by f_equal]. right. right. destruct (rq_min_fresh rcc) as [m|]; [|done].
      apply N.ltb_lt in Em. eauto. }
    destruct (if client_not_modified e req then _ else _) as [r|] eqn:Er; [|done].
    intros [= <- <-]. exists e. split; [done|]. split; [done|]. split; [done|]. left.
    split; [done|]. split; [|split; [|by rewrite Er]].
    + intros m Hm. rewrite Hm in Eo. destruct (current_age e now) as [age|]; [|done].
      injection Eo as Hlt. exists age. split; [done|]. by apply N.ltb_ge.
    + intros m Hm. rewrite Hm in Em. by apply N.ltb_ge.
  - assert (not_served e now rcc →
      Some (if has_validators e || (negb (sie e =? 0) && (staleness e now <=? sie e))
            then (Revalidate e (negb (sie e =? 0) && (staleness e now <=? sie e)), st1) else (Miss, remove st1 key)) = Some (out, st') →
      lookup_ok st key req now rcc out) as Hexp.
    { intros Hn Ho. pose proof (expired_ok st key req now rcc e (eq_sym Hg) Ev Ef Hn) as Hok. cbn zeta in Hok.
      destruct (has_validators e || _); by injection Ho as <- <-. }
    unfold not_served in Hexp. rewrite Ef in Hexp.
    destruct (rq_no_cache rcc) eqn:En; cbn [andb negb].
    { intros Ho. apply Hexp; [by left|]. by destruct (has_validators e || _). }
    destruct (match rq_max_stale rcc with Some None => _ | Some (Some n) => _ | None => _ end) eqn:Ew.
    { destruct (to_response e now) as [r|] eqn:Er; [|done]. intros [= <- <-].
      exists e. split; [done|]. split; [done|]. split; [done|]. right.
      split; [done|]. split; [done|]. destruct (rq_max_stale rcc) as [limit|]; [|done].
      exists limit. split; [done|]. intros n ->. by apply N.leb_le. }
    destruct (negb (swr e =? 0) && _) eqn:Es.
    { intros [= <- <-]. apply window_spec in Es. by split_and!. }
    intros Ho. apply Hexp; [|by destruct (has_validators e || _)]. right. split; [by apply window_out|].
    intros limit Hl. rewrite Hl in Ew. destruct limit as [n|]; [|done]. exists n. split; [done|]. by apply N.leb_gt.
Qed.

(** C3: what a lookup may hand out.  A direct hit is the key's own entry, with
    matching [Vary] values: either a fresh one the client's [no-cache],
    [max-age] and [min-fresh] do not exclude, or a stale one the client
    accepted with [max-stale].  A stale-while-revalidate answer is of a stale
    entry within the origin's window, to a client that did not ask for
    [no-cache].  An entry is revalidated only if it may not be served and has
    a validator or a fallback, and it is a fallback exactly while it is stale
    within the origin's stale-if-error window; a matching entry is passed over
    only if it may not be served and neither helps.  Stale answers do not
    consult [max-age] and [min-fresh] ([stale_ignores_max_age]). *)
Theorem lookup_safe st key req now rcc out st' :
  lookup st key req now rcc = Some (out, st') → lookup_ok st key req now rcc out.
Proof. apply lookup_outcome. Qed.

(** The client's [max-age] and [min-fresh] do not keep a stale entry from being
    served: within the origin's window it is answered from the cache whatever
    they are, as long as its age can be computed. *)
Theorem stale_ignores_max_age st key req now rcc e age :
  assoc key (items st) = Some e → vary_matches e req = true → is_fresh e now = false → in_window (swr e) e now →
  rq_no_cache rcc = false → rq_max_stale rcc = None → current_age e now = Some age →
  ∃ st', lookup st key req now rcc = Some (StaleWhileRevalidate e, st').
Proof.
  intros Ha Hv Hf Hw Hn Hm Hage. unfold lookup. pose proof (get_items st key) as Hg. rewrite Ha in Hg.
  destruct (get st key) as [found st1]. cbn in Hg. subst found. rewrite Hv, Hf, Hn, Hm, Hage. cbn.
  apply window_spec in Hw. rewrite Hw. destruct (rq_max_age rcc); cbn; eauto.
Qed.

(** Write-through then read-through.  A cacheable response that fits the
    object and store limits is stored, and until its lifetime has passed an
    unconditional request whose [Vary]-selected headers agree is answered
    from the cache with the origin's status, body and end-to-end headers;
    a request that disagrees on one of them never is. *)
Theorem store_then_hit p st key req resp now d bytes req' now' :
  store_inv st → 2 * max_bytes st < u64_mod →
  evaluate p (resp_status resp) (resp_headers resp) req = Some d →
  fits p (resp_headers resp) = true → resp_body resp = Full bytes →
  str_len bytes ≤ max_bytes st →
  d_initial_age d + since now' now ≤ duration_max → since now' now < d_lifetime d →
  get_str req' IF_NONE_MATCH = None → get_str req' IF_MODIFIED_SINCE = None →
  ∃ r1 st1 out st2,
    maybe_store p st key req resp now = Some (r1, st1) ∧
    lookup st1 key req' now' request_default = Some (out, st2) ∧
    if forallb (λ '(n, v), bool_decide (get_str req' n = v)) (d_vary d)
    then ∃ r, out = Hit r ∧ resp_status r = resp_status resp ∧ resp_body r = Full bytes ∧
      ∀ k, k ∉ SKIP_ON_STORE →
        hm_get_all (resp_headers r) k = hm_get_all (resp_headers resp) k
    else out = Miss.
Proof.
  intros Hst Hmax He Hf Hb Hsz Hage Hlife Hinm Hims.
  destruct (maybe_store_stores p st key req resp now d bytes He Hf Hb) as [r1 Hs].
  set (e := stored_entry resp bytes d now) in *.
  destruct (insert_effect st key e Hst Hsz Hmax) as (_ & kept & dropped & Hi & _).
  assert (assoc key (items (insert st key e)) = Some e) as Ha
    by (rewrite Hi, assoc_cons; by rewrite decide_True).
  exists r1, (insert st key e).
  change (forallb _ (d_vary d)) with (vary_matches e req').
  destruct (vary_matches e req') eqn:Ev.
  - destruct (lookup_default _ _ _ now' _ Ha Ev) as [st2 Hl].
    assert (is_fresh e now' = true) as Hfresh by (by apply N.ltb_lt).
    assert (client_not_modified e req' = false) as Hnm.
    { unfold client_not_modified, header_date. rewrite Hinm, Hims. by destruct (last_modified e). }
    rewrite Hfresh, Hnm, to_response_ok in Hl by done. eexists _, st2.
    split; [done|]. split; [exact Hl|]. eexists. split; [reflexivity|].
    split; [done|]. split; [done|]. intros k Hk. cbn [resp_headers].
    rewrite set_age_get_all, decide_False by (intros ->; apply Hk; set_solver).
    cbn. by rewrite keep_headers_get_all, decide_False.
  - pose proof (get_items (insert st key e) key) as Hg. rewrite Ha in Hg. unfold lookup.
    destruct (get (insert st key e) key) as [found st2]. cbn in Hg. subst found.
    rewrite Ev. cbn. by eexists _, st2.
Qed.

(** The periodic sweep defeats the stale windows.  An entry within its
    stale-while-revalidate window is served at once by a lookup, but the
    sweep, which runs every minute, drops every entry that is merely stale:
    the same lookup right after it is a miss. *)
Theorem sweep_defeats_swr st key req now e :
  assoc key (items st) = Some e → vary_matches e req = true → is_fresh e now = false →
  0 < swr e → staleness e now ≤ swr e →
  (∃ st1, lookup st key req now request_default = Some (StaleWhileRevalidate e, st1)) ∧
  (∃ st2, lookup (evict_expired st now) key req now request_default = Some (Miss, st2)).
Proof.
  intros Ha Hv Hf Hw Hs. split.
  - destruct (lookup_default st key req now e Ha Hv) as [st1 ->]. exists st1. rewrite Hf.
    apply N.leb_le in Hs as ->. destruct (N.eqb_spec (swr e) 0); [lia|done].
  - apply lookup_absent. unfold evict_expired. rewrite sweep_items.
    destruct (assoc key (filter _ (items st))) as [e'|] eqn:E; [|done]. exfalso.
    apply assoc_elem in E. apply list_elem_of_filter in E as [Hn Hin]. apply Hn. cbn.
    apply list_elem_of_fmap. exists (key, e). split; [done|].
    apply list_elem_of_filter. split; [done|]. by apply assoc_elem.
Qed.

End theorems.

(** * Examples *)

#[local] Existing Instance dec_dates.

Definition demo_policy : CachePolicy :=
  {| cp_key := None; cp_ttl := from_secs 300; cp_max_object_size := 1000;
     cp_methods := ["GET"]; cp_honor_client := false |}.

Definition demo_response : HttpResponse :=
  {| resp_status := 200;
     resp_headers := [("cache-control", "max-age=100, stale-while-revalidate=60");
                      ("vary", "Accept-Language"); ("age", "100"); ("content-length", "2")];
     resp_body := Full "hi" |}.

Definition demo_request : header_map := [("accept-language", "en")].

Definition demo_decision : Decision :=
  {| d_lifetime := from_secs 100; d_initial_age := from_secs 100;
     d_vary := [("accept-language", Some "en")]; d_swr := from_secs 60; d_sie := 0 |}.

Lemma demo_decides :
  evaluate demo_policy 200 (resp_headers demo_response) demo_request = Some demo_decision.
Proof. vm_compute. reflexivity. Qed.

Lemma evaluate_safe_witness :
  (("accept-language" : HeaderName), Some "en") ∈ d_vary demo_decision.
Proof.
  destruct (evaluate_safe demo_policy 200 (resp_headers demo_response) demo_request demo_decision
    demo_decides) as (_ & _ & _ & _ & _ & _ & _ & _ & _ & _ & _ & Hv).
  destruct (Hv "Accept-Language") as (s & Hs & Hk).
  - apply list_elem_of_In. vm_compute. by left.
  - vm_compute in Hs. injection Hs as <-.
    apply (Hk "Accept-Language"); [|vm_compute; discriminate|vm_compute; reflexivity].
    apply list_elem_of_In. vm_compute. by left.
Defined.

Definition policy_store : CacheStore := Store.new 1000 no_metrics.

Lemma policy_store_inv : store_inv policy_store.
Proof. split; by vm_compute. Qed.

Definition filled_store : CacheStore :=
  match maybe_store demo_policy policy_store "k" demo_request demo_response 0 with
  | Some (_, st) => st
  | None => policy_store
  end.

Lemma store_then_hit_witness :
  ∃ r1 st1 out st2,
    maybe_store demo_policy policy_store "k" demo_request demo_response 0 = Some (r1, st1) ∧
    lookup st1 "k" demo_request (from_secs 99) request_default = Some (out, st2) ∧
    if forallb (λ '(n, v), bool_decide (get_str demo_request n = v)) (d_vary demo_decision)
    then ∃ r, out = Hit r ∧ resp_status r = 200 ∧ resp_body r = Full "hi" ∧
      ∀ k, k ∉ SKIP_ON_STORE →
        hm_get_all (resp_headers r) k = hm_get_all (resp_headers demo_response) k
    else out = Miss.
Proof.
  apply (store_then_hit demo_policy policy_store "k" demo_request demo_response 0 demo_decision
    "hi" demo_request (from_secs 99));
    [exact policy_store_inv|reflexivity|exact demo_decides|reflexivity|reflexivity|
     vm_compute; discriminate|vm_compute; discriminate|reflexivity|reflexivity|reflexivity].
Defined.

(** The response of a direct hit. *)
Definition hit_of (x : option (Lookup * CacheStore)) : option HttpResponse :=
  match x with Some (Hit r, _) => Some r | _ => None end.

Lemma hit_of_Some x r : hit_of x = Some r → ∃ st', x = Some (Hit r, st').
Proof. destruct x as [[[r'| | |] st']|]; try done. intros [= ->]. by exists st'. Qed.

Definition demo_hit : HttpResponse :=
  {| resp_status := 200;
     resp_headers := [("cache-control", "max-age=100, stale-while-revalidate=60");
                      ("vary", "Accept-Language"); ("content-length", "2"); ("age", "199")];
     resp_body := Full "hi" |}.

Lemma lookup_safe_witness :
  ∃ r st', lookup filled_store "k" demo_request (from_secs 99) request_default = Some (Hit r, st') ∧
    ∃ e, assoc "k" (items filled_store) = Some e ∧ vary_matches e demo_request = true.
Proof.
  destruct (hit_of_Some (lookup filled_store "k" demo_request (from_secs 99) request_default)
    demo_hit ltac:(vm_compute; reflexivity)) as [st' E]. set (r := demo_hit) in *.
  exists r, st'. split; [exact E|].
  destruct (lookup_safe filled_store "k" demo_request (from_secs 99) request_default (Hit r) st' E)
    as (e & He & Hv & _). by exists e.
Defined.

Definition filled_entry : StoredResponse := stored_entry demo_response "hi" demo_decision 0.

Lemma stale_ignores_max_age_witness :
  ∃ st', lookup filled_store "k" demo_request (from_secs 101)
    {| rq_no_store := false; rq_no_cache := false; rq_max_age := Some 0; rq_min_fresh := Some 60; rq_max_stale := None;
       rq_only_if_cached := false |} = Some (StaleWhileRevalidate filled_entry, st').
Proof.
  apply (stale_ignores_max_age filled_store "k" demo_request (from_secs 101) _ filled_entry (from_secs 201));
    [reflexivity|reflexivity|reflexivity|split; [reflexivity|by vm_compute]|reflexivity|reflexivity|reflexivity].
Defined.


Lemma sweep_defeats_swr_witness :
  ∃ st2, lookup (evict_expired filled_store (from_secs 101)) "k" demo_request (from_secs 101)
    request_default = Some (Miss, st2).
Proof.
  apply (sweep_defeats_swr filled_store "k" demo_request (from_secs 101) filled_entry);
    [vm_compute; reflexivity|vm_compute; reflexivity|vm_compute; reflexivity|
     reflexivity|vm_compute; discriminate].
Defined.

(** The age the origin reports is not deducted from the lifetime it
    declares: a response already 100 seconds old with [max-age=100] is still
    served as fresh 99 seconds later, with an [Age] of 199. *)
Theorem age_not_deducted :
  ∃ r st', lookup filled_store "k" demo_request (from_secs 99) request_default = Some (Hit r, st') ∧
    get_str (resp_headers r) AGE = Some "199" ∧
    last_secs "max-age" None (directives (resp_headers r)) = Some 100.
Proof.
  destruct (hit_of_Some (lookup filled_store "k" demo_request (from_secs 99) request_default)
    demo_hit ltac:(vm_compute; reflexivity)) as [st' E].
  exists demo_hit, st'. split; [exact E|]. split; reflexivity.
Qed.

(** The primary key starts with the method: the keys of requests with
    different methods never collide, whatever the template renders to. *)
Lemma build_key_method `{Http} `{Regex} p sc ctx s p' sc' ctx' s' k t t' :
  contains_char " " (Template.method ctx) = false →
  contains_char " " (Template.method ctx') = false →
  build_key p sc ctx s = Some (k, t) → build_key p' sc' ctx' s' = Some (k, t') →
  Template.method ctx = Template.method ctx'.
Proof.
  assert (∀ p sc ctx s t, build_key p sc ctx s = Some (k, t) →
    ∃ rest, k = Template.method ctx +:+ String " " rest) as Hk.
  { clear. intros p sc ctx s t. unfold build_key. destruct (cp_key p) as [tpl|].
    - destruct (Vars.render sc ctx tpl s) as [[v s']|]; [|done]. cbn. intros [= <- <-].
      exists v. done.
    - intros [= <- <-]. by eexists. }
  intros Hc Hc' [r ->]%Hk [r' E]%Hk.
  pose proof (split_once_app " " (Template.method ctx) r Hc) as E1.
  rewrite E, split_once_app in E1 by done. congruence.
Qed.

End Policy.
