(* ===== verification/CacheServe.v ===== *)
(** The cache on the dispatch path ([src/listener/service.rs],
    [serve_with_cache], [OwnedCtx] and [spawn_swr_refresh]): lookup, direct
    answers, revalidation, single flight, and the background refresh of
    stale-while-revalidate.

    The handler is a parameter, a function from the request it is given to
    its response.  While a request awaits it or awaits a leader, other tasks
    use the store: [during_fetch] and [during_wait] are what they do. *)
From S2P Require Import Prelude RustStr Http CacheEntry CacheStore Template Vars CachePolicy.

Module Serve.
Import Entry Store Policy.

Section serve.
Context `{Http} `{Regex} `{HttpDate} `{Lru StoredResponse}.

Record HttpRequest := {
  req_method : string;
  req_uri : string;
  req_headers : header_map;
}.

(** What surrounds one call of [serve_with_cache]. *)
Record Surroundings := {
  handler : HttpRequest → HttpResponse;
  now1 : Instant;
  now2 : Instant;
  fresh_channel : nat;
  during_fetch : CacheStore → CacheStore;
  during_wait : CacheStore → CacheStore;
}.

(** The response, the store afterwards, the requests the handler was given,
    and the entry whose background refresh was spawned. *)
Record Outcome := {
  out_response : HttpResponse;
  out_store : CacheStore;
  out_calls : list HttpRequest;
  out_refresh : option StoredResponse;
}.

Definition bump_hits (st : CacheStore) : CacheStore :=
  let m := metrics st in
  set_metrics st {| cache_hits := wrap64 (cache_hits m + 1); cache_misses := cache_misses m;
                    cache_stores := cache_stores m; cache_bypass := cache_bypass m;
                    cache_revalidations := cache_revalidations m;
                    cache_evictions := cache_evictions m |}.

Definition bump_misses (st : CacheStore) : CacheStore :=
  let m := metrics st in
  set_metrics st {| cache_hits := cache_hits m; cache_misses := wrap64 (cache_misses m + 1);
                    cache_stores := cache_stores m; cache_bypass := cache_bypass m;
                    cache_revalidations := cache_revalidations m;
                    cache_evictions := cache_evictions m |}.

Definition bump_revalidations (st : CacheStore) : CacheStore :=
  let m := metrics st in
  set_metrics st {| cache_hits := cache_hits m; cache_misses := cache_misses m;
                    cache_stores := cache_stores m; cache_bypass := cache_bypass m;
                    cache_revalidations := wrap64 (cache_revalidations m + 1);
                    cache_evictions := cache_evictions m |}.

(** Drop the client's validators and put the entry's in their place. *)
Definition swap_validators (entry : StoredResponse) (h : header_map) : header_map :=
  fold_left (λ h '(n, v), hm_insert h n v) (revalidation_headers entry)
    (hm_remove (hm_remove h IF_NONE_MATCH) IF_MODIFIED_SINCE).

Definition gateway_timeout : HttpResponse :=
  {| resp_status := 504; resp_headers := hm_new;
     resp_body := Full "<h1>504 Gateway Timeout</h1>" |}.

Definition is_server_error (status : N) : bool := (500 <=? status) && (status <? 600).

(** [serve_with_cache] after the key has been built; [None] is a panic. *)
Definition serve_with_cache (p : CachePolicy) (env : Surroundings) (req : HttpRequest)
    (key : string) (st : CacheStore) : option Outcome :=
  let now := now1 env in
  let rcc := if cp_honor_client p then parse_request (req_headers req) else request_default in
  if rq_no_store rcc then
    Some {| out_response := handler env req; out_store := during_fetch env st;
            out_calls := [req]; out_refresh := None |}
  else
    '(found, st) ← lookup st key (req_headers req) now rcc;
    match found with
    | Hit hit =>
        Some {| out_response := hit; out_store := bump_hits st; out_calls := [];
                out_refresh := None |}
    | StaleWhileRevalidate entry =>
        resp ← stale_response entry now;
        Some {| out_response := resp; out_store := bump_hits st; out_calls := [];
                out_refresh := Some entry |}
    | Revalidate entry serve_stale_on_error =>
        let st := bump_revalidations st in
        let sent := {| req_method := req_method req; req_uri := req_uri req;
                       req_headers := swap_validators entry (req_headers req) |} in
        let raw := handler env sent in
        let st := during_fetch env st in
        if resp_status raw =? 304 then
          '(r, st) ← serve_revalidated p st key entry raw (req_headers req) now;
          Some {| out_response := r; out_store := st; out_calls := [sent]; out_refresh := None |}
        else if serve_stale_on_error && is_server_error (resp_status raw) then
          r ← stale_response entry now;
          Some {| out_response := r; out_store := bump_hits st; out_calls := [sent];
                  out_refresh := None |}
        else
          '(r, st) ← maybe_store p st key (req_headers req) raw now;
          Some {| out_response := r; out_store := st; out_calls := [sent]; out_refresh := None |}
    | Miss =>
        if rq_only_if_cached rcc then
          Some {| out_response := gateway_timeout; out_store := bump_misses st;
                  out_calls := []; out_refresh := None |}
        else
          match begin_fetch st key (fresh_channel env) with
          | (Leader _ _, st) =>
              let st := bump_misses st in
              let raw := handler env req in
              let st := during_fetch env st in
              '(r, st) ← maybe_store p st key (req_headers req) raw now;
              Some {| out_response := r; out_store := drop_guard st key;
                      out_calls := [req]; out_refresh := None |}
          | (Follower _, st) =>
              let st := during_wait env st in
              '(found, st) ← lookup st key (req_headers req) (now2 env) rcc;
              match found with
              | Hit hit =>
                  Some {| out_response := hit; out_store := bump_hits st; out_calls := [];
                          out_refresh := None |}
              | _ =>
                  let st := bump_misses st in
                  let raw := handler env req in
                  let st := during_fetch env st in
                  '(r, st) ← maybe_store p st key (req_headers req) raw (now2 env);
                  Some {| out_response := r; out_store := st; out_calls := [req];
                          out_refresh := None |}
              end
          end
    end.

(** [OwnedCtx::from] followed by [as_ctx]: the context the background task
    rebuilds. *)
Definition owned_ctx (ctx : Template.RequestContext) : Template.RequestContext :=
  {| Template.client_ip := Template.client_ip ctx;
     Template.username := Template.username ctx;
     Template.groups := Template.groups ctx;
     Template.method := "GET";
     Template.path := Template.path ctx;
     Template.query := Template.query ctx;
     Template.path_and_query := Template.path_and_query ctx;
     Template.host := Template.host ctx;
     Template.scheme := if String.eqb (Template.scheme ctx) "https" then "https" else "http";
     Template.client_cert_subject := Template.client_cert_subject ctx;
     Template.client_cert_sans := Template.client_cert_sans ctx;
     Template.country := Template.country ctx;
     Template.ctx_headers := Template.ctx_headers ctx |}.

(** The task of [spawn_swr_refresh]: [valid] is whether the request could be
    built.  The result is the store and the request sent, if any. *)
Definition swr_refresh (p : CachePolicy) (env : Surroundings) (valid : bool) (uri : string)
    (key : string) (entry : StoredResponse) (base_headers : header_map) (st : CacheStore)
    : option (CacheStore * option HttpRequest) :=
  match begin_fetch st key (fresh_channel env) with
  | (Follower _, st) => Some (st, None)
  | (Leader _ _, st) =>
      if negb valid then Some (drop_guard st key, None)
      else
        let sent := {| req_method := "GET"; req_uri := uri;
                       req_headers := swap_validators entry base_headers |} in
        let raw := handler env sent in
        let st := bump_revalidations (during_fetch env st) in
        if resp_status raw =? 304 then
          '(_, st) ← serve_revalidated p st key entry raw base_headers (now1 env);
          Some (drop_guard st key, Some sent)
        else
          '(_, st) ← maybe_store p st key base_headers raw (now1 env);
          Some (drop_guard st key, Some sent)
  end.

(** * Lemmas *)

Section laws.
Context `{!HttpLaws} `{!LruLaws}.

Lemma swap_validators_get_all entry h k :
  hm_get_all (swap_validators entry h) k =
  if decide (k = IF_NONE_MATCH)
  then match etag entry ≫= hv_from_str with Some v => [v] | None => [] end
  else if decide (k = IF_MODIFIED_SINCE)
  then match last_modified entry ≫= λ lm, hv_from_str (fmt_http_date lm) with
       | Some v => [v]
       | None => []
       end
  else hm_get_all h k.
Proof.
  unfold swap_validators, revalidation_headers.
  assert (IF_NONE_MATCH ≠ IF_MODIFIED_SINCE) as Hne by done.
  destruct (etag entry ≫= hv_from_str) as [v|];
    destruct (last_modified entry ≫= _) as [w|]; cbn;
    repeat case_decide; subst; try done; by autorewrite with http.
Qed.

Lemma insert_inflight st key e : inflight (insert st key e) = inflight st.
Proof.
  unfold insert. case_match; [done|]. destruct (lru_put _ _ _) as [old m].
  by destruct (evict_loop _ _ _).
Qed.

Lemma maybe_store_inflight p st key req resp now r st' :
  maybe_store p st key req resp now = Some (r, st') → inflight st' = inflight st.
Proof.
  unfold maybe_store. destruct (evaluate _ _ _ _) as [d|]; [|by intros [= <- <-]].
  destruct (fits _ _); cbn [negb]; [|by intros [= <- <-]].
  destruct (resp_body resp); [|by intros [= <- <-]].
  destruct (to_response _ _); [|done]. intros [= <- <-]. apply insert_inflight.
Qed.

Lemma lookup_inflight st key req now rcc out st' :
  lookup st key req now rcc = Some (out, st') → inflight st' = inflight st.
Proof.
  unfold lookup. assert (inflight (get st key).2 = inflight st) as Hg.
  { unfold get. by destruct (lru_get _ _). }
  destruct (get st key) as [[e|] st1]; cbn in Hg; [|by intros [= <- <-]].
  intros Hl. rewrite <- Hg. clear Hg. revert Hl. case_match; [by intros [= <- <-]|].
  destruct (match rq_max_age rcc with Some m => _ | None => _ end); [|done].
  cbn [mbind option_bind]. destruct (is_fresh e now && _ && _ && _).
  { destruct (if client_not_modified e req then _ else _); [|done]. by intros [= <- <-]. }
  destruct (is_fresh e now); [by intros [= <- <-]|].
  destruct (negb (rq_no_cache rcc) && match rq_max_stale rcc with _ => _ end).
  { destruct (to_response e now); [|done]. by intros [= <- <-]. }
  destruct (negb (rq_no_cache rcc) && _ && _); [by intros [= <- <-]|].
  destruct (has_validators e || _); [by intros [= <- <-]|].
  intros [= <- <-]. unfold remove. destruct (lru_pop _ _) as [old m]. by destruct old.
Qed.

Lemma serve_revalidated_inflight p st key e raw req now r st' :
  serve_revalidated p st key e raw req now = Some (r, st') → inflight st' = inflight st.
Proof.
  unfold serve_revalidated.
  destruct (if client_not_modified _ _ then _ else _); [|done]. intros [= <- <-].
  apply insert_inflight.
Qed.

(** The requests one call can send to the handler. *)
Lemma serve_calls p env req key st o :
  serve_with_cache p env req key st = Some o →
  out_calls o = [] ∨ out_calls o = [req] ∨
  ∃ e (fb : bool), assoc key (items st) = Some e ∧ vary_matches e (req_headers req) = true ∧
    out_calls o = [{| req_method := req_method req; req_uri := req_uri req;
                      req_headers := swap_validators e (req_headers req) |}].
Proof.
  unfold serve_with_cache. destruct (rq_no_store _); [intros [= <-]; by eauto|].
  destruct (lookup _ _ _ _ _) as [[found st1]|] eqn:El; [|done]. cbn [mbind option_bind].
  apply lookup_outcome in El. destruct found as [hit|entry|entry flag|]; cbn in El.
  - intros [= <-]. by left.
  - destruct (stale_response _ _); [|done]. intros [= <-]. by left.
  - destruct El as (Ha & Hv & _). intros Hsv. right. right. exists entry, flag.
    split; [done|]. split; [done|]. revert Hsv. clear. case_match; [|case_match].
    + destruct (serve_revalidated _ _ _ _ _ _ _) as [[]|]; [|done]. by intros [= <-].
    + destruct (stale_response _ _); [|done]. by intros [= <-].
    + destruct (maybe_store _ _ _ _ _ _) as [[]|]; [|done]. by intros [= <-].
  - destruct (rq_only_if_cached _); [intros [= <-]; by left|].
    destruct (begin_fetch _ _ _) as [[key' tx|rx] st2].
    + destruct (maybe_store _ _ _ _ _ _) as [[]|]; [|done]. intros [= <-]. right. by left.
    + destruct (lookup _ _ _ _ _) as [[found st3]|]; [|done]. cbn [mbind option_bind].
      destruct found; try (intros [= <-]; by left);
        (destruct (maybe_store _ _ _ _ _ _) as [[]|]; [|done]); intros [= <-]; right; by left.
Qed.

(** * Properties *)

(** A client cannot bust the shared cache.  When the location does not
    honour client directives and the store holds a fresh entry for the key
    with matching [Vary] values, the request is answered from it and the
    origin is not contacted, whatever [Cache-Control] the client sends. *)
Theorem fresh_not_bustable p env req key st e :
  cp_honor_client p = false →
  assoc key (items st) = Some e → vary_matches e (req_headers req) = true →
  is_fresh e (now1 env) = true →
  initial_age e + since (now1 env) (stored_at e) ≤ duration_max →
  ∃ o, serve_with_cache p env req key st = Some o ∧ out_calls o = [] ∧
    (if client_not_modified e (req_headers req) then not_modified_response e (now1 env)
     else to_response e (now1 env)) = Some (out_response o).
Proof.
  intros Hh Ha Hv Hf Hage. unfold serve_with_cache. rewrite Hh. cbn [rq_no_store request_default].
  destruct (lookup_default st key (req_headers req) (now1 env) e Ha Hv) as [st1 ->].
  rewrite Hf.
  assert (∃ r, (if client_not_modified e (req_headers req) then not_modified_response e (now1 env)
     else to_response e (now1 env)) = Some r) as [r Er].
  { case_match; [|rewrite to_response_ok by done; by eexists].
    unfold not_modified_response, current_age, duration_add. rewrite decide_True by done.
    by eexists. }
  rewrite Er. cbn. by eexists.
Qed.

(** Every request contacts the origin at most once, and only when the
    cache cannot answer; the request sent is the client's own, except that a
    revalidation carries the stored validators, and only those, instead of
    the client's. *)
Theorem serve_origin_calls p env req key st o :
  serve_with_cache p env req key st = Some o →
  (length (out_calls o) ≤ 1)%nat ∧
  ∀ sent, sent ∈ out_calls o → sent = req ∨
    ∃ e, assoc key (items st) = Some e ∧ vary_matches e (req_headers req) = true ∧
      req_method sent = req_method req ∧ req_uri sent = req_uri req ∧
      ∀ k, hm_get_all (req_headers sent) k =
        if decide (k = IF_NONE_MATCH)
        then match etag e ≫= hv_from_str with Some v => [v] | None => [] end
        else if decide (k = IF_MODIFIED_SINCE)
        then match last_modified e ≫= λ lm, hv_from_str (fmt_http_date lm) with
             | Some v => [v]
             | None => []
             end
        else hm_get_all (req_headers req) k.
Proof.
  intros Hsv. destruct (serve_calls _ _ _ _ _ _ Hsv) as [->|[->|(e & fb & Ha & Hv & ->)]].
  - split; [cbn; lia|]. intros sent Hin. by apply elem_of_nil in Hin.
  - split; [cbn; lia|]. intros sent ->%list_elem_of_singleton. by left.
  - split; [cbn; lia|]. intros sent ->%list_elem_of_singleton. right. exists e.
    split_and!; try done. intros k. apply swap_validators_get_all.
Qed.

(** A request that fetched as the leader of its key leaves the in-flight
    registry as it found it, as does every other way of serving a request:
    no key stays locked. *)
Theorem serve_registry p env req key st o :
  (∀ s, inflight (during_fetch env s) = inflight s) →
  (∀ s, inflight (during_wait env s) = inflight s) →
  serve_with_cache p env req key st = Some o → inflight (out_store o) = inflight st.
Proof.
  intros Hfetch Hwait. unfold serve_with_cache.
  destruct (rq_no_store _); [intros [= <-]; apply Hfetch|].
  destruct (lookup _ _ _ _ _) as [[found st1]|] eqn:El; [|done]. cbn [mbind option_bind].
  rewrite <- (lookup_inflight _ _ _ _ _ _ _ El). clear El.
  destruct found as [hit|entry|entry flag|].
  - by intros [= <-].
  - destruct (stale_response _ _); [|done]. by intros [= <-].
  - destruct (resp_status _ =? 304); [|case_match].
    + destruct (serve_revalidated _ _ _ _ _ _ _) as [[r st2]|] eqn:E; [|done].
      intros [= <-]. cbn. by rewrite (serve_revalidated_inflight _ _ _ _ _ _ _ _ _ E), Hfetch.
    + destruct (stale_response _ _); [|done]. intros [= <-]. cbn. by rewrite Hfetch.
    + destruct (maybe_store _ _ _ _ _ _) as [[r st2]|] eqn:E; [|done].
      intros [= <-]. cbn. by rewrite (maybe_store_inflight _ _ _ _ _ _ _ _ E), Hfetch.
  - destruct (rq_only_if_cached _); [by intros [= <-]|]. unfold begin_fetch.
    destruct (inflight st1 !! key) as [rx|] eqn:Ek.
    + destruct (lookup _ _ _ _ _) as [[found st2]|] eqn:El; [|done]. cbn [mbind option_bind].
      apply lookup_inflight in El. rewrite Hwait in El. rewrite <- El.
      destruct found; try (by intros [= <-]);
        (destruct (maybe_store _ _ _ _ _ _) as [[r st3]|] eqn:E; [|done]);
        intros [= <-]; cbn; by rewrite (maybe_store_inflight _ _ _ _ _ _ _ _ E), Hfetch.
    + destruct (maybe_store _ _ _ _ _ _) as [[r st3]|] eqn:E; [|done]. intros [= <-]. cbn.
      rewrite (maybe_store_inflight _ _ _ _ _ _ _ _ E), Hfetch. cbn.
      by rewrite delete_insert_id.
Qed.

(** [only-if-cached] does not keep a request away from the origin: when
    the key holds a stale entry that carries a validator, the request is sent
    on to revalidate it. *)
Theorem only_if_cached_revalidates p env req key st e o :
  cp_honor_client p = true →
  parse_request (req_headers req) =
    {| rq_no_store := false; rq_no_cache := false; rq_only_if_cached := true;
       rq_max_age := None; rq_min_fresh := None; rq_max_stale := None |} →
  assoc key (items st) = Some e → vary_matches e (req_headers req) = true →
  is_fresh e (now1 env) = false → swr e = 0 → has_validators e = true →
  serve_with_cache p env req key st = Some o →
  out_calls o = [{| req_method := req_method req; req_uri := req_uri req;
                    req_headers := swap_validators e (req_headers req) |}].
Proof.
  intros Hh Hp Ha Hv Hf Hw Hval. unfold serve_with_cache. rewrite Hh, Hp. cbn [rq_no_store].
  change (lookup st key (req_headers req) (now1 env) _)
    with (lookup st key (req_headers req) (now1 env) request_default).
  destruct (lookup_default st key (req_headers req) (now1 env) e Ha Hv) as [st1 ->].
  rewrite Hf, Hw, Hval. cbn [andb orb negb N.eqb mbind option_bind].
  case_match; [|case_match].
  - destruct (serve_revalidated _ _ _ _ _ _ _) as [[]|]; [|done]. by intros [= <-].
  - destruct (stale_response _ _); [|done]. by intros [= <-].
  - destruct (maybe_store _ _ _ _ _ _) as [[]|]; [|done]. by intros [= <-].
Qed.

End laws.
End serve.

(** * Examples *)

#[local] Existing Instance dec_dates.

Definition honoring_policy : CachePolicy :=
  {| cp_key := None; cp_ttl := from_secs 300; cp_max_object_size := 1000;
     cp_methods := ["GET"]; cp_honor_client := true |}.

Definition demo_env (t : Instant) : Surroundings :=
  {| handler _ := {| resp_status := 304; resp_headers := []; resp_body := Full "" |};
     now1 := t; now2 := t; fresh_channel := 0; during_fetch s := s; during_wait s := s |}.

Definition serve_request (cc : string) : HttpRequest :=
  {| req_method := "GET"; req_uri := "/"; req_headers := [("cache-control", cc)] |}.

Definition serve_store : CacheStore := insert policy_store "k" demo_entry.

Lemma fresh_not_bustable_witness :
  ∃ o, serve_with_cache demo_policy (demo_env 2000) (serve_request "no-store, no-cache") "k"
    serve_store = Some o ∧ out_calls o = [] ∧
    (if client_not_modified demo_entry [("cache-control", "no-store, no-cache")]
     then not_modified_response demo_entry 2000 else to_response demo_entry 2000)
    = Some (out_response o).
Proof.
  apply (fresh_not_bustable demo_policy (demo_env 2000) (serve_request "no-store, no-cache") "k"
    serve_store demo_entry);
    [reflexivity|vm_compute; reflexivity|reflexivity|reflexivity|vm_compute; discriminate].
Defined.

Definition calls_of (x : option Outcome) : option (list HttpRequest) := out_calls <$> x.

Lemma calls_of_Some x l : calls_of x = Some l → ∃ o, x = Some o ∧ out_calls o = l.
Proof. destruct x as [o|]; [|done]. intros [= <-]. by exists o. Qed.

Definition stale_time : Instant := 1000 + from_secs 61.

Definition revalidation : HttpRequest :=
  {| req_method := "GET"; req_uri := "/";
     req_headers := [("cache-control", "only-if-cached"); ("if-none-match", "v1");
                     ("if-modified-since", "100")] |}.

Lemma stale_served :
  ∃ o, serve_with_cache honoring_policy (demo_env stale_time) (serve_request "only-if-cached") "k"
    serve_store = Some o ∧ out_calls o = [revalidation].
Proof. apply calls_of_Some. vm_compute. reflexivity. Qed.

Lemma serve_origin_calls_witness :
  ∃ o, serve_with_cache honoring_policy (demo_env stale_time) (serve_request "only-if-cached") "k"
    serve_store = Some o ∧ (length (out_calls o) ≤ 1)%nat.
Proof.
  destruct stale_served as (o & Ho & _). exists o. split; [exact Ho|].
  apply (serve_origin_calls honoring_policy (demo_env stale_time) (serve_request "only-if-cached")
    "k" serve_store o Ho).
Defined.

Lemma serve_registry_witness :
  ∃ o, serve_with_cache honoring_policy (demo_env stale_time) (serve_request "only-if-cached") "k"
    serve_store = Some o ∧ inflight (out_store o) = inflight serve_store.
Proof.
  destruct stale_served as (o & Ho & _). exists o. split; [exact Ho|].
  apply (serve_registry honoring_policy (demo_env stale_time) (serve_request "only-if-cached")
    "k" serve_store o); [reflexivity|reflexivity|exact Ho].
Defined.

Lemma only_if_cached_revalidates_witness :
  ∃ o, serve_with_cache honoring_policy (demo_env stale_time) (serve_request "only-if-cached") "k"
    serve_store = Some o ∧ out_calls o ≠ [].
Proof.
  destruct stale_served as (o & Ho & _). exists o. split; [exact Ho|].
  rewrite (only_if_cached_revalidates honoring_policy (demo_env stale_time)
    (serve_request "only-if-cached") "k" serve_store demo_entry o); try reflexivity.
  - discriminate.
  - exact Ho.
Defined.

End Serve.
