(* ===== verification/Metrics.v ===== *)
(** Request metrics ([src/metrics.rs]): the counters, the latency histograms
    and their six-bucket view, the per-handler and per-vhost breakdowns, the
    path counts and the in-flight gauge.

    Atomic counters are [u64] that wrap and the gauge is an [i64] that wraps.
    A listener's shared counters are found under its bind address. *)
From S2P Require Import Prelude RustStr Utf8.

Module Metrics.

(** * Handler kinds *)

Inductive HandlerKind :=
  | Static
  | Proxy
  | Redirect
  | Respond
  | FastCgi
  | Scgi
  | CgiKind
  | Status
  | AuthRequest
  | MetricsKind
  | Acme
  | Health
  | Jwks
  | Oidc.

#[global] Instance HandlerKind_eq_dec : EqDecision HandlerKind.
Proof. solve_decision. Defined.

Definition HANDLER_KINDS : nat := 14.

Definition HANDLER_KIND_ALL : list HandlerKind :=
  [Static; Proxy; Redirect; Respond; FastCgi; Scgi; CgiKind; Status; AuthRequest; MetricsKind;
   Acme; Health; Jwks; Oidc].

(** The discriminant. *)
Definition index (k : HandlerKind) : nat :=
  match k with
  | Static => 0 | Proxy => 1 | Redirect => 2 | Respond => 3 | FastCgi => 4 | Scgi => 5
  | CgiKind => 6 | Status => 7 | AuthRequest => 8 | MetricsKind => 9 | Acme => 10
  | Health => 11 | Jwks => 12 | Oidc => 13
  end.

Definition label (k : HandlerKind) : string :=
  match k with
  | Static => "static" | Proxy => "proxy" | Redirect => "redirect" | Respond => "respond"
  | FastCgi => "fastcgi" | Scgi => "scgi" | CgiKind => "cgi" | Status => "status"
  | AuthRequest => "auth-request" | MetricsKind => "metrics" | Acme => "acme"
  | Health => "health" | Jwks => "jwks" | Oidc => "oidc"
  end.

Definition BUILTIN_VHOST : string := "_builtin".

(** * Latency buckets *)

Definition LATENCY_BUCKETS : nat := 13.

Definition LATENCY_BOUNDS_US : list N :=
  [500; 1000; 5000; 10000; 25000; 50000; 100000; 200000; 500000; 1000000; 2500000; 10000000].

(** [bounds.iter().position(|b| us < b)], the number of bounds for none. *)
Fixpoint position_above (bounds : list N) (us : N) : nat :=
  match bounds with
  | [] => 0
  | b :: bounds' => if us <? b then 0 else S (position_above bounds' us)
  end.
Definition latency_bucket_us (us : N) : nat := position_above LATENCY_BOUNDS_US us.

Definition as_micros (d : Duration) : N := d / 1000.

(** [fetch_add(1)] on an element of an array. *)
Definition bump_at (l : list N) (i : nat) : list N := alter (λ n, wrap64 (n + 1)) i l.

Definition legacy6 (b : list N) : list N :=
  let at_ i := default 0 (b !! i) in
  [wrap64 (at_ 0%nat + at_ 1%nat); wrap64 (at_ 2%nat + at_ 3%nat); wrap64 (at_ 4%nat + at_ 5%nat);
   wrap64 (at_ 6%nat + at_ 7%nat); wrap64 (at_ 8%nat + at_ 9%nat);
   wrap64 (at_ 10%nat + at_ 11%nat + at_ 12%nat)].

(** * Tallies *)

Record ClassCounters := {
  total : N;
  s2xx : N;
  s3xx : N;
  s4xx : N;
  s5xx : N;
  latency : list N;
  latency_sum_us : N;
}.

Definition cc_default : ClassCounters :=
  {| total := 0; s2xx := 0; s3xx := 0; s4xx := 0; s5xx := 0;
     latency := replicate LATENCY_BUCKETS 0; latency_sum_us := 0 |}.

Definition bump_if (b : bool) (n : N) : N := if b then wrap64 (n + 1) else n.

Definition cc_record (c : ClassCounters) (status : N) (lat : Duration) : ClassCounters :=
  let us := as_micros lat in
  {| total := wrap64 (total c + 1);
     s2xx := bump_if (status / 100 =? 2) (s2xx c); s3xx := bump_if (status / 100 =? 3) (s3xx c);
     s4xx := bump_if (status / 100 =? 4) (s4xx c); s5xx := bump_if (status / 100 =? 5) (s5xx c);
     latency := bump_at (latency c) (latency_bucket_us us);
     latency_sum_us := wrap64 (latency_sum_us c + N.min us u64_max) |}.

Record ListenerMetrics := {
  tls_handshakes_total : N;
  tls_handshake_failures_total : N;
  tls_handshake_timeouts_total : N;
  conns_total : N;
  conns_active : Z;
  lm_requests_total : N;
}.
Definition lm_default : ListenerMetrics :=
  {| tls_handshakes_total := 0; tls_handshake_failures_total := 0;
     tls_handshake_timeouts_total := 0; conns_total := 0; conns_active := 0; lm_requests_total := 0 |}.

(** The counters bumped by name elsewhere. *)
Inductive Counter :=
  | auth_failures
  | jwt_failures
  | jwt_expiries
  | jwt_issued
  | oidc_refreshes
  | oidc_refresh_failures
  | oidc_logouts
  | oidc_bearer_validations
  | oidc_bearer_failures
  | oidc_backchannel_logouts
  | oidc_backchannel_failures
  | oidc_callback_iss_mismatches
  | geoip_lookups_total
  | geoip_lookup_misses_total
  | rate_limit_triggers
  | compress_responses_total
  | compress_bytes_in_total
  | compress_bytes_out_total
  | compress_gzip_total
  | compress_brotli_total
  | compress_zstd_total
  | compress_skipped_total.

#[global] Instance Counter_eq_dec : EqDecision Counter.
Proof. solve_decision. Defined.

Record Metrics := {
  requests : ClassCounters;
  requests_active : Z;
  named : Counter → N;
  per_kind : list ClassCounters;
  per_vhost : gmap string ClassCounters;
  listeners : gmap string ListenerMetrics;
  proxy_upstream_latency : list N;
  proxy_upstream_latency_sum_us : N;
  current_paths : gmap string N;
}.

(** [Metrics::new]. *)
Definition new : Metrics :=
  {| requests := cc_default; requests_active := 0; named := λ _, 0;
     per_kind := replicate HANDLER_KINDS cc_default; per_vhost := ∅; listeners := ∅;
     proxy_upstream_latency := replicate LATENCY_BUCKETS 0; proxy_upstream_latency_sum_us := 0;
     current_paths := ∅ |}.

Definition set_requests (m : Metrics) (r : ClassCounters) : Metrics :=
  {| requests := r; requests_active := requests_active m; named := named m; per_kind := per_kind m;
     per_vhost := per_vhost m; listeners := listeners m;
     proxy_upstream_latency := proxy_upstream_latency m;
     proxy_upstream_latency_sum_us := proxy_upstream_latency_sum_us m;
     current_paths := current_paths m |}.
Definition set_active (m : Metrics) (z : Z) : Metrics :=
  {| requests := requests m; requests_active := z; named := named m; per_kind := per_kind m;
     per_vhost := per_vhost m; listeners := listeners m;
     proxy_upstream_latency := proxy_upstream_latency m;
     proxy_upstream_latency_sum_us := proxy_upstream_latency_sum_us m;
     current_paths := current_paths m |}.
Definition set_named (m : Metrics) (f : Counter → N) : Metrics :=
  {| requests := requests m; requests_active := requests_active m; named := f; per_kind := per_kind m;
     per_vhost := per_vhost m; listeners := listeners m;
     proxy_upstream_latency := proxy_upstream_latency m;
     proxy_upstream_latency_sum_us := proxy_upstream_latency_sum_us m;
     current_paths := current_paths m |}.
Definition set_classes (m : Metrics) (k : list ClassCounters) (v : gmap string ClassCounters) : Metrics :=
  {| requests := requests m; requests_active := requests_active m; named := named m; per_kind := k;
     per_vhost := v; listeners := listeners m;
     proxy_upstream_latency := proxy_upstream_latency m;
     proxy_upstream_latency_sum_us := proxy_upstream_latency_sum_us m;
     current_paths := current_paths m |}.
Definition set_listeners (m : Metrics) (l : gmap string ListenerMetrics) : Metrics :=
  {| requests := requests m; requests_active := requests_active m; named := named m;
     per_kind := per_kind m; per_vhost := per_vhost m; listeners := l;
     proxy_upstream_latency := proxy_upstream_latency m;
     proxy_upstream_latency_sum_us := proxy_upstream_latency_sum_us m;
     current_paths := current_paths m |}.
Definition set_upstream (m : Metrics) (l : list N) (s : N) : Metrics :=
  {| requests := requests m; requests_active := requests_active m; named := named m;
     per_kind := per_kind m; per_vhost := per_vhost m; listeners := listeners m;
     proxy_upstream_latency := l; proxy_upstream_latency_sum_us := s;
     current_paths := current_paths m |}.
Definition set_paths (m : Metrics) (p : gmap string N) : Metrics :=
  {| requests := requests m; requests_active := requests_active m; named := named m;
     per_kind := per_kind m; per_vhost := per_vhost m; listeners := listeners m;
     proxy_upstream_latency := proxy_upstream_latency m;
     proxy_upstream_latency_sum_us := proxy_upstream_latency_sum_us m; current_paths := p |}.

(** * Operations *)

Definition count (c : Counter) (by_ : N) (m : Metrics) : Metrics :=
  set_named m (λ c', if decide (c' = c) then wrap64 (named m c' + by_) else named m c').

Definition MAX_TRACKED_PATHS : nat := 200.

(** [&path[..128]] of a longer path: a panic when byte 128 continues a
    character. *)
Definition path_prefix (path : string) : option string :=
  if (128 <? String.length path)%nat then
    match String.get 128 path with
    | Some b => if cont b then None else Some (str_take 128 path)
    | None => Some path
    end
  else Some path.

Definition record_path (path : string) (m : Metrics) : option Metrics :=
  p ← path_prefix path;
  let cur := current_paths m in
  if (size cur <? MAX_TRACKED_PATHS)%nat || bool_decide (is_Some (cur !! p))
  then Some (set_paths m (<[p := wrap64 (default 0 (cur !! p) + 1)]> cur))
  else Some m.

Definition record (status : N) (lat : Duration) (m : Metrics) : Metrics :=
  set_requests m (cc_record (requests m) status lat).

Definition record_class (kind : HandlerKind) (vhost : string) (status : N) (lat : Duration)
    (m : Metrics) : Metrics :=
  let kinds := alter (λ c, cc_record c status lat) (index kind) (per_kind m) in
  match per_vhost m !! vhost with
  | Some c => set_classes m kinds (<[vhost := cc_record c status lat]> (per_vhost m))
  | None => set_classes m kinds (<[vhost := cc_record cc_default status lat]> (per_vhost m))
  end.

Definition record_proxy_upstream_latency (lat : Duration) (m : Metrics) : Metrics :=
  let us := as_micros lat in
  set_upstream m (bump_at (proxy_upstream_latency m) (latency_bucket_us us))
    (wrap64 (proxy_upstream_latency_sum_us m + N.min us u64_max)).

(** [listener]: registers the bind address on the first call. *)
Definition listener (bind : string) (m : Metrics) : Metrics :=
  match listeners m !! bind with
  | Some _ => m
  | None => set_listeners m (<[bind := lm_default]> (listeners m))
  end.

(** [lmetrics.requests_total.fetch_add(1)] through the listener's handle. *)
Definition listener_request (bind : string) (m : Metrics) : Metrics :=
  set_listeners m (alter (λ l,
    {| tls_handshakes_total := tls_handshakes_total l;
       tls_handshake_failures_total := tls_handshake_failures_total l;
       tls_handshake_timeouts_total := tls_handshake_timeouts_total l; conns_total := conns_total l;
       conns_active := conns_active l; lm_requests_total := wrap64 (lm_requests_total l + 1) |})
    bind (listeners m)).

Definition inc_active (m : Metrics) : Metrics := set_active m (swrap64 (requests_active m + 1)).
Definition dec_active (m : Metrics) : Metrics := set_active m (swrap64 (requests_active m - 1)).

(** The rows of the per-handler table, in declaration order; indexing panics
    out of range. *)
Definition class_snapshots (m : Metrics)
    : option (list (string * ClassCounters)) * list (string * ClassCounters) :=
  (mapM (λ k, (λ c, (label k, c)) <$> per_kind m !! index k) HANDLER_KIND_ALL,
   map_to_list (per_vhost m)).

Definition listener_snapshots (m : Metrics) : list (string * ListenerMetrics) :=
  map_to_list (listeners m).

(** [uptime_human]. *)
Definition uptime_human (uptime : Duration) : string :=
  let s := as_secs uptime in
  let d := s / 86400 in
  let h := (s mod 86400) / 3600 in
  let m := (s mod 3600) / 60 in
  let s := s mod 60 in
  if 0 <? d then dec d +:+ "d " +:+ dec h +:+ "h " +:+ dec m +:+ "m"
  else if 0 <? h then dec h +:+ "h " +:+ dec m +:+ "m " +:+ dec s +:+ "s"
  else if 0 <? m then dec m +:+ "m " +:+ dec s +:+ "s"
  else dec s +:+ "s".

(** * What the tallies say *)

Definition events_of (P : N * Duration → bool) (l : list (N * Duration)) : N :=
  N.of_nat (length (List.filter P l)).

Lemma events_of_snoc P l e : events_of P (l ++ [e]) = events_of P l + (if P e then 1 else 0).
Proof.
  unfold events_of. rewrite List.filter_app, length_app. cbn. destruct (P e); cbn; lia.
Qed.

Lemma wrap64_succ n : wrap64 (wrap64 n + 1) = wrap64 (n + 1).
Proof. unfold wrap64. by rewrite N.Div0.add_mod_idemp_l. Qed.

Lemma wrap64_add a b : wrap64 (wrap64 a + wrap64 b) = wrap64 (a + b).
Proof. unfold wrap64. by rewrite <- N.Div0.add_mod. Qed.

Lemma wrap64_add3 a b c : wrap64 (wrap64 a + wrap64 b + wrap64 c) = wrap64 (a + b + c).
Proof.
  rewrite <- (wrap64_add (a + b) c), <- (wrap64_add a b). unfold wrap64.
  by rewrite N.Div0.add_mod_idemp_l.
Qed.

Definition class_is (c : N) (e : N * Duration) : bool := e.1 / 100 =? c.
Definition bucket_is (i : nat) (e : N * Duration) : bool :=
  Nat.eqb (latency_bucket_us (as_micros e.2)) i.

(** The tally of a list of requests, by status and latency. *)
Definition cc_of (l : list (N * Duration)) : ClassCounters :=
  fold_left (λ c e, cc_record c e.1 e.2) l cc_default.

Lemma cc_of_snoc l e : cc_of (l ++ [e]) = cc_record (cc_of l) e.1 e.2.
Proof. unfold cc_of. by rewrite fold_left_app. Qed.

Lemma bump_if_count P l e n :
  n = wrap64 (events_of P l) → bump_if (P e) n = wrap64 (events_of P (l ++ [e])).
Proof.
  intros ->. rewrite events_of_snoc. unfold bump_if. destruct (P e).
  - apply wrap64_succ.
  - by rewrite N.add_0_r.
Qed.

Lemma cc_of_statuses l :
  total (cc_of l) = wrap64 (N.of_nat (length l)) ∧
  s2xx (cc_of l) = wrap64 (events_of (class_is 2) l) ∧
  s3xx (cc_of l) = wrap64 (events_of (class_is 3) l) ∧
  s4xx (cc_of l) = wrap64 (events_of (class_is 4) l) ∧
  s5xx (cc_of l) = wrap64 (events_of (class_is 5) l).
Proof.
  induction l as [|e l (It & I2 & I3 & I4 & I5)] using rev_ind; [done|].
  rewrite cc_of_snoc. unfold cc_record. cbn [total s2xx s3xx s4xx s5xx]. split_and!.
  - rewrite It, wrap64_succ, length_app. f_equal. cbn. lia.
  - by apply (bump_if_count (class_is 2)).
  - by apply (bump_if_count (class_is 3)).
  - by apply (bump_if_count (class_is 4)).
  - by apply (bump_if_count (class_is 5)).
Qed.

Lemma position_above_le bounds us : (position_above bounds us ≤ length bounds)%nat.
Proof. induction bounds as [|b bounds IH]; cbn; [done|]. destruct (us <? b); lia. Qed.

Lemma cc_of_latency l :
  length (latency (cc_of l)) = LATENCY_BUCKETS ∧
  ∀ i, (i < LATENCY_BUCKETS)%nat →
    latency (cc_of l) !! i = Some (wrap64 (events_of (bucket_is i) l)).
Proof.
  induction l as [|e l [Hl IH]] using rev_ind.
  - split; [done|]. intros i Hi. unfold cc_of. cbn [fold_left latency cc_default].
    by rewrite lookup_replicate_2.
  - rewrite cc_of_snoc. unfold cc_record. cbn [latency]. split; [by unfold bump_at; rewrite length_alter|].
    intros i Hi. rewrite events_of_snoc. unfold bump_at, bucket_is at 2.
    destruct (Nat.eqb_spec (latency_bucket_us (as_micros e.2)) i) as [->|Hne].
    + rewrite list_lookup_alter_eq, IH by done. cbn. by rewrite wrap64_succ.
    + rewrite list_lookup_alter_ne by done. by rewrite N.add_0_r, IH.
Qed.

(** The bucketing of the status page. *)
Definition LEGACY_BOUNDS_US : list N := [1000; 10000; 50000; 200000; 1000000].
Definition legacy_is (j : nat) (e : N * Duration) : bool :=
  Nat.eqb (position_above LEGACY_BOUNDS_US (as_micros e.2)) j.

(** Which fine buckets make up a legacy one. *)
Definition legacy_of (i : nat) : nat := if (i <? 10)%nat then (i / 2)%nat else 5%nat.

Lemma legacy_of_bucket us : legacy_of (latency_bucket_us us) = position_above LEGACY_BOUNDS_US us.
Proof.
  unfold latency_bucket_us, LATENCY_BOUNDS_US, LEGACY_BOUNDS_US. cbn [position_above].
  repeat match goal with |- context [us <? ?b] => destruct (N.ltb_spec us b) end;
    try reflexivity; lia.
Qed.

Lemma events_of_or P Q R l :
  (∀ e, R e = P e || Q e) → (∀ e, P e && Q e = false) →
  events_of R l = events_of P l + events_of Q l.
Proof.
  intros Hor Hand. induction l as [|e l IH] using rev_ind; [done|].
  rewrite !events_of_snoc, IH, Hor. specialize (Hand e). destruct (P e), (Q e); cbn in *; lia || done.
Qed.

Lemma legacy_is_bucket j e :
  legacy_is j e = Nat.eqb (legacy_of (latency_bucket_us (as_micros e.2))) j.
Proof. unfold legacy_is. by rewrite legacy_of_bucket. Qed.

Lemma bucket_range (e : N * Duration) : (latency_bucket_us (as_micros e.2) < 13)%nat.
Proof. pose proof (position_above_le LATENCY_BOUNDS_US (as_micros e.2)). unfold latency_bucket_us. cbn in *. lia. Qed.

Lemma legacy_pair j l :
  (j < 5)%nat →
  events_of (legacy_is j) l = events_of (bucket_is (2 * j)) l + events_of (bucket_is (2 * j + 1)) l.
Proof.
  intros Hj. apply events_of_or; intros e; [rewrite legacy_is_bucket|]; unfold bucket_is;
    pose proof (bucket_range e) as Hr; generalize dependent (latency_bucket_us (as_micros e.2)); intros n Hr.
  - do 13 (destruct n as [|n]; [do 5 (destruct j as [|j]; [reflexivity|]); lia|]). lia.
  - destruct (Nat.eqb_spec n (2 * j)), (Nat.eqb_spec n (2 * j + 1)); cbn; lia || done.
Qed.

Lemma legacy_last l :
  events_of (legacy_is 5) l =
  events_of (bucket_is 10) l + events_of (bucket_is 11) l + events_of (bucket_is 12) l.
Proof.
  rewrite <- (events_of_or (bucket_is 10) (bucket_is 11) (λ e, bucket_is 10 e || bucket_is 11 e));
    [|done|].
  2: { intros e. unfold bucket_is. destruct (Nat.eqb_spec (latency_bucket_us (as_micros e.2)) 10) as [->|]; done. }
  apply events_of_or; intros e; [rewrite legacy_is_bucket|]; unfold bucket_is;
    pose proof (bucket_range e) as Hr; generalize dependent (latency_bucket_us (as_micros e.2)); intros n Hr;
    do 13 (destruct n as [|n]; [reflexivity|]); lia.
Qed.

(** Recording a list of requests. *)
Definition record_all (l : list (N * Duration)) (m : Metrics) : Metrics :=
  fold_left (λ m e, record e.1 e.2 m) l m.

Lemma record_all_requests l m :
  requests (record_all l m) = fold_left (λ c e, cc_record c e.1 e.2) l (requests m).
Proof. revert m. induction l as [|e l IH]; intros m; [done|]. cbn. by rewrite IH. Qed.

(** The global counters are exact (up to the 64-bit wrap): the totals by
    status class count the recorded requests, and the six-bucket histogram of
    the status page, although computed by merging thirteen finer buckets, is
    the histogram one would get by sorting every request into the six. *)
Theorem record_histogram_exact l :
  let c := requests (record_all l new) in
  total c = wrap64 (N.of_nat (length l)) ∧
  s2xx c = wrap64 (events_of (class_is 2) l) ∧ s3xx c = wrap64 (events_of (class_is 3) l) ∧
  s4xx c = wrap64 (events_of (class_is 4) l) ∧ s5xx c = wrap64 (events_of (class_is 5) l) ∧
  legacy6 (latency c) = (λ j, wrap64 (events_of (legacy_is j) l)) <$> seq 0 6.
Proof.
  intros c. assert (c = cc_of l) as -> by apply record_all_requests.
  destruct (cc_of_statuses l) as (-> & -> & -> & -> & ->). do 5 (split; [done|]).
  destruct (cc_of_latency l) as [_ Hl]. unfold legacy6.
  rewrite !Hl by (unfold LATENCY_BUCKETS; lia). cbn [from_option id seq fmap list_fmap].
  rewrite legacy_last. rewrite !legacy_pair by lia.
  by rewrite wrap64_add3, !wrap64_add.
Qed.

(** ** Breakdowns *)

Record Event := {
  ev_kind : HandlerKind;
  ev_vhost : string;
  ev_status : N;
  ev_latency : Duration;
}.

Definition record_classes (l : list Event) (m : Metrics) : Metrics :=
  fold_left (λ m e, record_class (ev_kind e) (ev_vhost e) (ev_status e) (ev_latency e) m) l m.

Lemma record_classes_snoc l e m :
  record_classes (l ++ [e]) m =
  record_class (ev_kind e) (ev_vhost e) (ev_status e) (ev_latency e) (record_classes l m).
Proof. unfold record_classes. by rewrite fold_left_app. Qed.

(** The status and latency of the requests of a handler kind or a vhost. *)
Definition tallied (P : Event → bool) (l : list Event) : list (N * Duration) :=
  (λ e, (ev_status e, ev_latency e)) <$> List.filter P l.

Lemma tallied_snoc P l e :
  tallied P (l ++ [e]) = tallied P l ++ (if P e then [(ev_status e, ev_latency e)] else []).
Proof.
  unfold tallied. rewrite List.filter_app, fmap_app. f_equal. cbn. by destruct (P e).
Qed.

Definition of_kind (k : HandlerKind) (e : Event) : bool := bool_decide (ev_kind e = k).
Definition of_vhost (v : string) (e : Event) : bool := bool_decide (ev_vhost e = v).

Lemma index_inj k k' : index k = index k' → k = k'.
Proof. by destruct k, k'. Qed.

Lemma kind_index_lookup k : HANDLER_KIND_ALL !! index k = Some k.
Proof. by destruct k. Qed.

Lemma record_class_kinds kind v st lat m :
  per_kind (record_class kind v st lat m) = alter (λ c, cc_record c st lat) (index kind) (per_kind m).
Proof. unfold record_class. by destruct (per_vhost m !! v). Qed.

Lemma record_class_vhosts kind v st lat m :
  per_vhost (record_class kind v st lat m) =
  <[v := cc_record (default cc_default (per_vhost m !! v)) st lat]> (per_vhost m).
Proof. unfold record_class. by destruct (per_vhost m !! v). Qed.

Lemma kinds_spec l k :
  per_kind (record_classes l new) !! index k = Some (cc_of (tallied (of_kind k) l)).
Proof.
  induction l as [|e l IH] using rev_ind; [by destruct k|].
  rewrite record_classes_snoc, record_class_kinds, tallied_snoc. unfold of_kind at 2.
  case_bool_decide as Hk.
  - by rewrite <- Hk, list_lookup_alter_eq, Hk, IH, cc_of_snoc.
  - rewrite list_lookup_alter_ne by (by intros ?%index_inj). by rewrite IH, app_nil_r.
Qed.

Lemma vhosts_spec l v :
  per_vhost (record_classes l new) !! v =
  match tallied (of_vhost v) l with [] => None | t => Some (cc_of t) end.
Proof.
  induction l as [|e l IH] using rev_ind; [done|].
  rewrite record_classes_snoc, record_class_vhosts, tallied_snoc. unfold of_vhost at 2.
  case_bool_decide as Hv.
  - rewrite Hv, lookup_insert_eq, IH. destruct (tallied (of_vhost v) l) as [|t ts]; [done|].
    cbn [from_option id]. change (t :: ts ++ ?x) with ((t :: ts) ++ x).
    destruct ((t :: ts) ++ _) eqn:E; [done|]. by rewrite <- E, cc_of_snoc.
  - by rewrite lookup_insert_ne, app_nil_r.
Qed.

(** The breakdowns are those of the recorded requests: the row of a handler
    kind tallies exactly the requests of that kind, a vhost has a row exactly
    when it had a request and the row tallies its requests, and the table is
    rendered with every kind under its own label. *)
Theorem class_breakdown_exact l :
  (class_snapshots (record_classes l new)).1 =
    Some ((λ k, (label k, cc_of (tallied (of_kind k) l))) <$> HANDLER_KIND_ALL) ∧
  ∀ v, per_vhost (record_classes l new) !! v =
    match tallied (of_vhost v) l with [] => None | t => Some (cc_of t) end.
Proof.
  split; [|apply vhosts_spec]. unfold class_snapshots. cbn [fst].
  apply mapM_Some_2, Forall2_fmap_r, Forall_Forall2_diag, Forall_true.
  intros k. by rewrite kinds_spec.
Qed.

(** ** Paths *)

Lemma str_take_long n s : (String.length s ≤ n)%nat → str_take n s = s.
Proof. revert s. induction n as [|n IH]; intros [|c s] Hl; cbn in *; [done|lia|done|]. by rewrite IH by lia. Qed.

Lemma get_None_length n s : String.get n s = None → (String.length s ≤ n)%nat.
Proof.
  revert n. induction s as [|c s IH]; intros n; cbn; [lia|]. destruct n as [|n]; [done|].
  intros E%IH. lia.
Qed.

Lemma path_prefix_ascii path :
  str_all (byte_in 0 127) path = true → path_prefix path = Some (str_take 128 path).
Proof.
  intros Ha. unfold path_prefix. destruct (Nat.ltb_spec 128 (String.length path)) as [Hl|Hl].
  - destruct (String.get 128 path) as [b|] eqn:E.
    + assert (cont b = false) as ->; [|done]. revert E Ha. clear. generalize 128%nat.
      induction path as [|c path IH]; intros n; [done|]. cbn [String.get str_all].
      intros E [Hc Hp]%andb_true_iff. destruct n as [|n].
      * injection E as <-. clear -Hc. by destruct c as [[] [] [] [] [] [] [] []].
      * by eapply IH.
    + by apply get_None_length in E; lia.
  - f_equal. symmetry. apply str_take_long. lia.
Qed.

Lemma path_prefix_Some path p : path_prefix path = Some p → p = str_take 128 path.
Proof.
  unfold path_prefix. destruct (Nat.ltb_spec 128 (String.length path)) as [Hl|Hl].
  - destruct (String.get 128 path) as [b|] eqn:E; [by destruct (cont b); intros [= <-]|].
    apply get_None_length in E. lia.
  - intros [= <-]. by rewrite str_take_long by lia.
Qed.

(** Path counts stay bounded and exact for tracked paths, with one fatal
    case: a recorded path counts under its first 128 bytes if that key is
    tracked or there is room for it, at most 200 keys are ever tracked, and a
    path longer than 128 bytes whose byte 128 lies inside a character makes
    the string slice panic. *)
Theorem record_path_spec path m :
  match record_path path m with
  | None => ∃ b, String.get 128 path = Some b ∧ cont b = true ∧ (128 < String.length path)%nat
  | Some m' =>
      let p := str_take 128 path in
      let tracked := (size (current_paths m) < MAX_TRACKED_PATHS)%nat ∨ is_Some (current_paths m !! p) in
      (tracked → current_paths m' !! p = Some (wrap64 (default 0 (current_paths m !! p) + 1))) ∧
      (¬ tracked → current_paths m' = current_paths m) ∧
      (∀ q, q ≠ p → current_paths m' !! q = current_paths m !! q) ∧
      ((size (current_paths m) ≤ MAX_TRACKED_PATHS)%nat →
       (size (current_paths m') ≤ MAX_TRACKED_PATHS)%nat)
  end.
Proof.
  unfold record_path. destruct (path_prefix path) as [p|] eqn:Ep; cbn [mbind option_bind].
  2: { unfold path_prefix in Ep. destruct (Nat.ltb_spec 128 (String.length path)); [|done].
       destruct (String.get 128 path) as [b|]; [|done]. exists b. by destruct (cont b). }
  apply path_prefix_Some in Ep as <-.
  destruct ((size (current_paths m) <? MAX_TRACKED_PATHS)%nat || _) eqn:E; cbn [current_paths set_paths].
  - apply orb_true_iff in E. rewrite Nat.ltb_lt, bool_decide_eq_true in E.
    split_and!; [by rewrite lookup_insert_eq|by intros []|by intros; rewrite lookup_insert_ne|].
    intros Hs. rewrite map_size_insert. destruct (current_paths m !! p); [done|].
    destruct E as [|[? [=]]]. lia.
  - apply orb_false_iff in E. rewrite Nat.ltb_ge, bool_decide_eq_false in E.
    split_and!; [by intros [?|?]; [lia|tauto]|done..].
Qed.

(** A path of 127 letters followed by an accented one, which is valid text. *)
Definition repeat_char (n : nat) (c : ascii) : string := Nat.iter n (String c) "".
Definition accent_path : string :=
  String "/" (repeat_char 126 "a") +:+ String (ascii_of_N 195) (String (ascii_of_N 169) "").

Lemma accent_path_panics m : valid_utf8 accent_path = true ∧ record_path accent_path m = None.
Proof. done. Qed.

Lemma record_path_spec_witness :
  ∃ b, String.get 128 accent_path = Some b ∧ cont b = true ∧ (128 < String.length accent_path)%nat.
Proof. exact (record_path_spec accent_path new). Defined.

End Metrics.
