(* ===== verification/LoadBalancer.v ===== *)
(** Load balancing ([src/lb.rs]): upstreams with their in-flight, error and
    health state, the pool with its weighted ring, the picker of each policy,
    passive ejection and active health probes.

    Atomics are plain fields updated one operation at a time.  Time is an
    argument, and so is the standard library's hasher, whose algorithm is
    not specified; [usize] is 64 bits wide. *)
From S2P Require Import Prelude RustStr Net Http Metrics.

(** [DefaultHasher] applied to an octet string, and to the counter and the
    clock's sub-second nanoseconds. *)
Class Hasher := {
  hash_octets : string → N;
  hash_salted : N → N → N;
}.

Module Lb.

(** * Configuration *)

Inductive LbPolicy :=
  | RoundRobin
  | LeastConn
  | Random
  | IpHash
  | HeaderHash.

#[global] Instance LbPolicy_eq_dec : EqDecision LbPolicy.
Proof. solve_decision. Defined.

Record UpstreamConfig := {
  uc_url : string;
  uc_weight : N;
  uc_group : option string;
}.

Record PassiveHealthConfig := {
  eject_after : N;
  eject_for_secs : N;
}.

Definition passive_default : PassiveHealthConfig :=
  {| eject_after := u32_max; eject_for_secs := 30 |}.

Record ActiveHealthConfig := {
  probe_path : string;
  interval_secs : N;
  timeout_secs : N;
  expect_status : N;
  unhealthy_after : N;
  healthy_after : N;
}.

(** * Upstreams *)

Record Upstream := {
  url : string;
  weight : N;
  group : option string;
  in_flight : N;
  consecutive_errors : N;
  ejected_until_ms : N;
  healthy : bool;
  requests_total : N;
  errors_total : N;
  latency : list N;
  latency_sum_us : N;
  bytes_in_total : N;
  bytes_out_total : N;
}.

(** [Upstream::new]. *)
Definition new_upstream (url : string) (weight : N) (group : option string) : Upstream :=
  {| url := url; weight := weight; group := group; in_flight := 0; consecutive_errors := 0;
     ejected_until_ms := 0; healthy := true; requests_total := 0; errors_total := 0;
     latency := replicate Metrics.LATENCY_BUCKETS 0; latency_sum_us := 0; bytes_in_total := 0;
     bytes_out_total := 0 |}.

(** The health-relevant fields, replaced. *)
Definition set_health (u : Upstream) (fl errs until : N) (h : bool) : Upstream :=
  {| url := url u; weight := weight u; group := group u; in_flight := fl;
     consecutive_errors := errs; ejected_until_ms := until; healthy := h;
     requests_total := requests_total u; errors_total := errors_total u;
     latency := latency u; latency_sum_us := latency_sum_us u;
     bytes_in_total := bytes_in_total u; bytes_out_total := bytes_out_total u |}.

(** [record_request]; the latency in microseconds. *)
Definition record_request (u : Upstream) (ok : bool) (us : N) : Upstream :=
  {| url := url u; weight := weight u; group := group u; in_flight := in_flight u;
     consecutive_errors := consecutive_errors u; ejected_until_ms := ejected_until_ms u;
     healthy := healthy u;
     requests_total := wrap64 (requests_total u + 1);
     errors_total := if ok then errors_total u else wrap64 (errors_total u + 1);
     latency := Metrics.bump_at (latency u) (Metrics.latency_bucket_us us);
     latency_sum_us := wrap64 (latency_sum_us u + N.min us u64_max);
     bytes_in_total := bytes_in_total u; bytes_out_total := bytes_out_total u |}.

Definition record_bytes (u : Upstream) (bytes_out bytes_in : N) : Upstream :=
  {| url := url u; weight := weight u; group := group u; in_flight := in_flight u;
     consecutive_errors := consecutive_errors u; ejected_until_ms := ejected_until_ms u;
     healthy := healthy u; requests_total := requests_total u; errors_total := errors_total u;
     latency := latency u; latency_sum_us := latency_sum_us u;
     bytes_in_total := wrap64 (bytes_in_total u + bytes_in);
     bytes_out_total := wrap64 (bytes_out_total u + bytes_out) |}.

Definition ejected_remaining_ms (u : Upstream) (now_ms : N) : N :=
  let until := ejected_until_ms u in if now_ms <? until then until - now_ms else 0.

Definition is_ejected (u : Upstream) (now_ms : N) : bool :=
  let until := ejected_until_ms u in negb (until =? 0) && (now_ms <? until).

Definition is_available (u : Upstream) (now_ms : N) : bool :=
  (0 <? weight u) && healthy u && negb (is_ejected u now_ms).

(** [in_flight_guard] and the guard's [drop]. *)
Definition in_flight_inc (u : Upstream) : Upstream :=
  set_health u (wrap32 (in_flight u + 1)) (consecutive_errors u) (ejected_until_ms u) (healthy u).

Definition in_flight_dec (u : Upstream) : Upstream :=
  set_health u (wrap32 (in_flight u + u32_max)) (consecutive_errors u) (ejected_until_ms u)
    (healthy u).

(** * The pool *)

Record LbMetrics := {
  lb_picks : N;
  lb_no_upstream : N;
  lb_ejections : N;
  lb_health_checks : N;
  lb_health_recoveries : N;
  lb_health_failures : N;
}.

Record UpstreamPool := {
  upstreams : list Upstream;
  policy : LbPolicy;
  hash_header_name : option string;
  weighted_ring : list nat;
  rr_counter : N;
  passive : PassiveHealthConfig;
  metrics : LbMetrics;
}.

(** [upstreams[i]] repeated [weight[i]] times. *)
Definition build_ring (us : list Upstream) : list nat :=
  concat (imap (λ i u, replicate (N.to_nat (weight u)) i) us).

Definition new_pool (us : list Upstream) (policy : LbPolicy) (hh : option string)
    (passive : PassiveHealthConfig) (m : LbMetrics) : UpstreamPool :=
  {| upstreams := us; policy := policy; hash_header_name := to_ascii_lowercase <$> hh;
     weighted_ring := build_ring us; rr_counter := 0; passive := passive; metrics := m |}.

Definition build_upstreams (cfgs : list UpstreamConfig) : list Upstream :=
  (λ c, new_upstream (uc_url c) (uc_weight c) (uc_group c)) <$> cfgs.

Definition set_counter (p : UpstreamPool) (c : N) : UpstreamPool :=
  {| upstreams := upstreams p; policy := policy p; hash_header_name := hash_header_name p;
     weighted_ring := weighted_ring p; rr_counter := c; passive := passive p;
     metrics := metrics p |}.

Definition set_upstreams (p : UpstreamPool) (us : list Upstream) : UpstreamPool :=
  {| upstreams := us; policy := policy p; hash_header_name := hash_header_name p;
     weighted_ring := weighted_ring p; rr_counter := rr_counter p; passive := passive p;
     metrics := metrics p |}.

Definition set_pool_metrics (p : UpstreamPool) (m : LbMetrics) : UpstreamPool :=
  {| upstreams := upstreams p; policy := policy p; hash_header_name := hash_header_name p;
     weighted_ring := weighted_ring p; rr_counter := rr_counter p; passive := passive p;
     metrics := m |}.

(** [rr_counter.fetch_add(1)]: the old value and the pool after. *)
Definition next_counter (p : UpstreamPool) : N * UpstreamPool :=
  (rr_counter p, set_counter p (wrap64 (rr_counter p + 1))).

(** * Picking *)

Section pick.
Context `{Http} `{Hasher}.

Record PickCtx := {
  peer_ip : option IpAddr;
  pick_headers : header_map;
  pick_group : option string;
}.

Definition hash_ip (ip : option IpAddr) : option N :=
  ip ← ip;
  Some match ip with
       | V4 v => hash_octets (octets 4 v)
       | V6 v => match to_ipv4_mapped v with
                 | Some v4 => hash_octets (octets 4 v4)
                 | None => hash_octets (octets 16 v)
                 end
       end.

Definition hash_header (name : string) (headers : header_map) : option N :=
  v ← hm_get headers name; Some (hash_octets (hv_as_bytes v)).

Definition or_counter (o : option N) (p : UpstreamPool) : N * UpstreamPool :=
  match o with Some h => (h, p) | None => next_counter p end.

(** [nanos] is the sub-second part of the wall clock. *)
Definition cheap_random (nanos : N) (p : UpstreamPool) : N * UpstreamPool :=
  let '(salt, p') := next_counter p in (hash_salted salt nanos, p').

(** The starting position of a ring scan. *)
Definition start_index (ctx : PickCtx) (nanos : N) (p : UpstreamPool) : N * UpstreamPool :=
  match policy p with
  | RoundRobin => next_counter p
  | Random => cheap_random nanos p
  | IpHash => or_counter (hash_ip (peer_ip ctx)) p
  | HeaderHash => or_counter (h ← hash_header_name p; hash_header h (pick_headers ctx)) p
  | LeastConn => (0, p)
  end.

Definition eligible (now_ms : N) (group : option string) (u : Upstream) : bool :=
  is_available u now_ms &&
  match group with None => true | Some g => bool_decide (Lb.group u = Some g) end.

(** The scan of the ring from [start]; every index of the ring is in range
    for a pool built by [new_pool]. *)
Fixpoint scan_ring (ok : Upstream → bool) (us : list Upstream) (ring : list nat) (start : N)
    (offsets : list nat) : option nat :=
  match offsets with
  | [] => None
  | offset :: offsets' =>
      let pos := N.to_nat (wrap64 (start + N.of_nat offset) mod N.of_nat (length ring)) in
      match ring !! pos with
      | Some idx =>
          match us !! idx with
          | Some u => if ok u then Some idx else scan_ring ok us ring start offsets'
          | None => None
          end
      | None => None
      end
  end.

(** in-flight requests per unit of weight, in thousandths. *)
Definition cost (u : Upstream) : N := sat_mul64 (in_flight u) 1000 / weight u.

(** The loop of [pick_least_conn] over the upstreams from index [i]. *)
Fixpoint least_conn_loop (ok : Upstream → bool) (salt : N) (i : nat) (us : list Upstream)
    (best : option (N * nat)) : option (N * nat) :=
  match us with
  | [] => best
  | u :: us' =>
      let best :=
        if ok u then
          let c := cost u in
          Some match best with
               | None => (c, i)
               | Some cur =>
                   if (c <? cur.1) || ((c =? cur.1) && (N.land (wrap64 (N.of_nat i + salt)) 1 =? 0))
                   then (c, i) else cur
               end
        else best in
      least_conn_loop ok salt (S i) us' best
  end.

Definition pick_least_conn (ok : Upstream → bool) (p : UpstreamPool) : option nat * UpstreamPool :=
  let '(salt, p) := next_counter p in
  (snd <$> least_conn_loop ok salt 0 (upstreams p) None, p).

(** [pick_where]: the index picked and the pool after. *)
Definition pick_where (ctx : PickCtx) (group : option string) (now_ms nanos : N)
    (p : UpstreamPool) : option nat * UpstreamPool :=
  let ok := eligible now_ms group in
  if decide (policy p = LeastConn) then pick_least_conn ok p
  else if decide (weighted_ring p = []) then (None, p)
  else
    let '(start, p) := start_index ctx nanos p in
    (scan_ring ok (upstreams p) (weighted_ring p) start (seq 0 (length (weighted_ring p))), p).

Definition count_pick (p : UpstreamPool) : UpstreamPool :=
  let m := metrics p in
  set_pool_metrics p {| lb_picks := wrap64 (lb_picks m + 1); lb_no_upstream := lb_no_upstream m;
    lb_ejections := lb_ejections m; lb_health_checks := lb_health_checks m;
    lb_health_recoveries := lb_health_recoveries m; lb_health_failures := lb_health_failures m |}.

Definition count_none (p : UpstreamPool) : UpstreamPool :=
  let m := metrics p in
  set_pool_metrics p {| lb_picks := lb_picks m; lb_no_upstream := wrap64 (lb_no_upstream m + 1);
    lb_ejections := lb_ejections m; lb_health_checks := lb_health_checks m;
    lb_health_recoveries := lb_health_recoveries m; lb_health_failures := lb_health_failures m |}.

(** [pick]; each selection pass reads the clock anew, hence two times. *)
Definition pick (ctx : PickCtx) (now1 now2 nanos1 nanos2 : N) (p : UpstreamPool)
    : option nat * UpstreamPool :=
  let p := count_pick p in
  if decide (upstreams p = []) then (None, p)
  else
    let '(first, p) :=
      match pick_group ctx with
      | Some g =>
          if existsb (λ u, bool_decide (Lb.group u = Some g)) (upstreams p)
          then pick_where ctx (Some g) now1 nanos1 p
          else (None, p)
      | None => (None, p)
      end in
    match first with
    | Some i => (Some i, p)
    | None =>
        let '(picked, p) := pick_where ctx None now2 nanos2 p in
        match picked with
        | Some i => (Some i, p)
        | None => (None, count_none p)
        end
    end.

End pick.

(** * Passive ejection *)

Definition record_success (u : Upstream) : Upstream :=
  set_health u (in_flight u) 0 (ejected_until_ms u) (healthy u).

(** [record_failure]: the upstream, and whether it was ejected. *)
Definition record_failure (cfg : PassiveHealthConfig) (now_ms : N) (u : Upstream)
    : Upstream * bool :=
  let n := wrap32 (consecutive_errors u + 1) in
  if negb (eject_after cfg =? u32_max) && (eject_after cfg <=? n) then
    let until := sat_add64 now_ms (wrap64 (eject_for_secs cfg * 1000)) in
    (set_health u (in_flight u) n until (healthy u), true)
  else (set_health u (in_flight u) n (ejected_until_ms u) (healthy u), false).

(** * Active probes *)

Record ProbeState := {
  failures : N;
  successes : N;
}.

Definition probe_default : ProbeState := {| failures := 0; successes := 0 |}.

(** One probe result applied to one upstream. *)
Definition probe_result (cfg : ActiveHealthConfig) (ok : bool) (s : ProbeState) (u : Upstream)
    : ProbeState * Upstream :=
  if ok then
    let s := {| failures := 0; successes := sat_add32 (successes s) 1 |} in
    (s, if negb (healthy u) && (healthy_after cfg <=? successes s)
        then set_health u (in_flight u) (consecutive_errors u) (ejected_until_ms u) true else u)
  else
    let s := {| failures := sat_add32 (failures s) 1; successes := 0 |} in
    (s, if healthy u && (unhealthy_after cfg <=? failures s)
        then set_health u (in_flight u) (consecutive_errors u) (ejected_until_ms u) false else u).

(** One tick of the task: every upstream is probed and updated in turn. *)
Fixpoint probe_tick (cfg : ActiveHealthConfig) (probe : string → bool)
    (runs : list ProbeState) (us : list Upstream) : list ProbeState * list Upstream :=
  match runs, us with
  | s :: runs', u :: us' =>
      let '(s', u') := probe_result cfg (probe (url u)) s u in
      let '(runs'', us'') := probe_tick cfg probe runs' us' in
      (s' :: runs'', u' :: us'')
  | _, _ => ([], us)
  end.

(** * The ring *)

Lemma ring_elem_gen (g : nat → nat) us idx :
  idx ∈ concat (imap (λ i u, replicate (N.to_nat (weight u)) (g i)) us) ↔
  ∃ i u, us !! i = Some u ∧ 0 < weight u ∧ idx = g i.
Proof.
  revert g. induction us as [|u us IH]; intros g.
  { cbn. rewrite elem_of_nil. naive_solver. }
  rewrite imap_cons. cbn [concat]. rewrite elem_of_app, elem_of_replicate.
  change ((λ i u, replicate (N.to_nat (weight u)) (g i)) ∘ S)
    with (λ i u, replicate (N.to_nat (weight u)) ((g ∘ S) i)).
  rewrite IH. split.
  - intros [[-> Hw]|(i & v & Hv & Hw & ->)]; [exists 0%nat, u|exists (S i), v]; split_and!; done || lia.
  - intros ([|i] & v & Hv & Hw & ->); [left|right; by exists i, v].
    injection Hv as ->. split; [done|lia].
Qed.

Lemma ring_elem us idx :
  idx ∈ build_ring us ↔ ∃ u, us !! idx = Some u ∧ 0 < weight u.
Proof. unfold build_ring. rewrite (ring_elem_gen (λ i, i)). naive_solver. Qed.

(** The ring of a pool is the one its upstreams define. *)
Definition pool_wf (p : UpstreamPool) : Prop := weighted_ring p = build_ring (upstreams p).

Lemma new_pool_wf us policy hh passive m : pool_wf (new_pool us policy hh passive m).
Proof. done. Qed.

Lemma scan_ring_Some ok us ring start offsets idx :
  scan_ring ok us ring start offsets = Some idx → ∃ u, us !! idx = Some u ∧ ok u = true.
Proof.
  induction offsets as [|o offsets IH]; [done|]. cbn.
  destruct (ring !! _) as [i|]; [|done]. destruct (us !! i) as [u|] eqn:Eu; [|done].
  destruct (ok u) eqn:Eo; [|done]. intros [= <-]. eauto.
Qed.

Lemma scan_ring_None ok us ring start offsets :
  (∀ i, i ∈ ring → is_Some (us !! i)) → ring ≠ [] →
  scan_ring ok us ring start offsets = None →
  ∀ o, o ∈ offsets → ∃ idx u,
    ring !! N.to_nat (wrap64 (start + N.of_nat o) mod N.of_nat (length ring)) = Some idx ∧
    us !! idx = Some u ∧ ok u = false.
Proof.
  intros Hr Hne. induction offsets as [|o offsets IH]; cbn.
  { intros _ x Hx. by apply elem_of_nil in Hx. }
  set (pos := N.to_nat _).
  assert (pos < length ring)%nat as Hpos.
  { unfold pos. destruct ring; [done|]. cbn [length].
    pose proof (N.mod_lt (wrap64 (start + N.of_nat o)) (N.of_nat (S (length ring)))). lia. }
  destruct (lookup_lt_is_Some_2 _ _ Hpos) as [idx Hidx]. rewrite Hidx.
  destruct (Hr idx) as [u Hu]; [by eapply list_elem_of_lookup_2|]. rewrite Hu.
  destruct (ok u) eqn:Eo; [done|]. intros Hs x [->|Hx]%elem_of_cons; [eauto|by apply IH].
Qed.

Lemma mod_shift m s p : m ≠ 0 → p < m → (s + (p + (m - s mod m))) mod m = p.
Proof.
  intros Hm Hp. pose proof (N.mod_lt s m Hm) as Hlt. pose proof (N.div_mod s m Hm) as Hdm.
  set (q := s / m) in *. set (r := s mod m) in *. clearbody q r.
  replace (s + (p + (m - r))) with (p + (q + 1) * m) by (rewrite N.mul_add_distr_r; lia).
  by rewrite N.Div0.mod_add, N.mod_small.
Qed.

(** Without a wrap of the position, the scan visits every entry of the ring. *)
Lemma scan_covers (n : nat) (start : N) (pos : nat) :
  (pos < n)%nat → start + N.of_nat n ≤ u64_mod →
  ∃ o, (o < n)%nat ∧ N.to_nat (wrap64 (start + N.of_nat o) mod N.of_nat n) = pos.
Proof.
  intros Hp Hs. set (m := N.of_nat n). assert (m ≠ 0) as Hm by (unfold m; lia).
  set (o := (N.of_nat pos + (m - start mod m)) mod m).
  assert (o < m) as Ho by (by apply N.mod_lt).
  exists (N.to_nat o). split; [unfold m in *; lia|]. rewrite N2Nat.id.
  rewrite wrap64_small by (unfold m in *; lia). unfold o.
  rewrite N.Div0.add_mod_idemp_r.
  rewrite mod_shift; [lia|done|unfold m; lia].
Qed.

Lemma scan_ring_complete ok us start :
  start + N.of_nat (length (build_ring us)) ≤ u64_mod → build_ring us ≠ [] →
  scan_ring ok us (build_ring us) start (seq 0 (length (build_ring us))) = None →
  ∀ i u, us !! i = Some u → 0 < weight u → ok u = false.
Proof.
  intros Hs Hne Hn i u Hu Hw.
  assert (i ∈ build_ring us) as Hin by (apply ring_elem; eauto).
  apply list_elem_of_lookup in Hin as [pos Hpos].
  destruct (scan_covers (length (build_ring us)) start pos) as (o & Ho & Heq);
    [by eapply lookup_lt_Some|done|].
  destruct (scan_ring_None ok us (build_ring us) start (seq 0 (length (build_ring us))))
    with (o := o) as (idx & v & Hidx & Hv & Hok); [|done|done|apply elem_of_seq; lia|].
  - intros j (w & Hw' & _)%ring_elem. eauto.
  - rewrite Heq, Hpos in Hidx. injection Hidx as <-. congruence.
Qed.

(** * Least connections *)

Definition best_ok (ok : Upstream → bool) (us : list Upstream) (best : option (N * nat)) : Prop :=
  match best with
  | None => ∀ i u, us !! i = Some u → ok u = false
  | Some (c, i) => ∃ u, us !! i = Some u ∧ ok u = true ∧ c = cost u ∧
      ∀ j v, us !! j = Some v → ok v = true → c ≤ cost v
  end.

Lemma least_conn_loop_correct ok salt pre us best :
  best_ok ok pre best →
  best_ok ok (pre ++ us) (least_conn_loop ok salt (length pre) us best).
Proof.
  revert pre best. induction us as [|u us IH]; intros pre best Hb; cbn [least_conn_loop].
  { by rewrite app_nil_r. }
  replace (pre ++ u :: us) with ((pre ++ [u]) ++ us) by (by rewrite <- app_assoc).
  replace (S (length pre)) with (length (pre ++ [u])) by (rewrite length_app; cbn; lia).
  apply IH. clear IH.
  assert (∀ j v, (pre ++ [u]) !! j = Some v → pre !! j = Some v ∨ j = length pre ∧ v = u) as Hsnoc.
  { intros j v [Hj|[Hj Hv]]%lookup_app_Some; [by left|right].
    apply list_lookup_singleton_Some in Hv as [? ->]. split; [lia|done]. }
  assert ((pre ++ [u]) !! length pre = Some u) as Hlast.
  { rewrite lookup_app_r by lia. by rewrite Nat.sub_diag. }
  destruct (ok u) eqn:Eo.
  - destruct best as [[c i]|]; cbn in Hb |- *.
    + destruct Hb as (w & Hw & Hok & -> & Hmin).
      destruct ((cost u <? cost w) || _) eqn:Et; cbn.
      * assert (cost u ≤ cost w) as Hle.
        { apply orb_true_iff in Et as [?%N.ltb_lt|[?%N.eqb_eq _]%andb_true_iff]; lia. }
        exists u. split_and!; try done. intros j v [Hj|[-> ->]]%Hsnoc Hv; [|done].
        etrans; [exact Hle|]. by eapply Hmin.
      * apply orb_false_iff in Et as [Hge%N.ltb_ge _].
        exists w. split_and!; [by apply lookup_app_l_Some|done..|].
        intros j v [Hj|[-> ->]]%Hsnoc Hv; [by eapply Hmin|done].
    + exists u. split_and!; try done. intros j v [Hj|[-> ->]]%Hsnoc Hv; [|done].
      apply Hb in Hj. congruence.
  - destruct best as [[c i]|]; cbn in Hb |- *.
    + destruct Hb as (w & Hw & Hok & -> & Hmin). exists w.
      split_and!; [by apply lookup_app_l_Some|done..|].
      intros j v [Hj|[-> ->]]%Hsnoc Hv; [by eapply Hmin|congruence].
    + intros j v [Hj|[-> ->]]%Hsnoc; [by eapply Hb|done].
Qed.

Section picking.
Context `{Http} `{Hasher}.

(** ** One pass *)

Lemma next_counter_upstreams p : upstreams (next_counter p).2 = upstreams p ∧
  weighted_ring (next_counter p).2 = weighted_ring p ∧ policy (next_counter p).2 = policy p.
Proof. done. Qed.

Lemma start_index_keeps ctx nanos p :
  let p' := (start_index ctx nanos p).2 in
  upstreams p' = upstreams p ∧ weighted_ring p' = weighted_ring p ∧ policy p' = policy p.
Proof.
  cbn. unfold start_index, or_counter. destruct (policy p) eqn:E; cbn; try done;
    by case_match.
Qed.

Lemma pick_where_keeps ctx g now nanos p :
  let p' := (pick_where ctx g now nanos p).2 in
  upstreams p' = upstreams p ∧ weighted_ring p' = weighted_ring p ∧ policy p' = policy p.
Proof.
  cbn. unfold pick_where. case_decide; [done|]. case_decide; [done|].
  pose proof (start_index_keeps ctx nanos p) as Hk.
  by destruct (start_index ctx nanos p) as [start p'].
Qed.

(** The scan of this pass does not run past the top of [usize]. *)
Definition no_wrap (ctx : PickCtx) (nanos : N) (p : UpstreamPool) : Prop :=
  fst (start_index ctx nanos p) + N.of_nat (length (weighted_ring p)) ≤ u64_mod.

Lemma eligible_weight now g u : eligible now g u = true → 0 < weight u.
Proof.
  unfold eligible, is_available. rewrite !andb_true_iff. intros [[[Hw _] _] _].
  by apply N.ltb_lt in Hw.
Qed.

Lemma pick_where_correct ctx g now nanos p :
  pool_wf p →
  match fst (pick_where ctx g now nanos p) with
  | Some i => ∃ u, upstreams p !! i = Some u ∧ eligible now g u = true
  | None => no_wrap ctx nanos p → ∀ i u, upstreams p !! i = Some u → eligible now g u = false
  end.
Proof.
  intros Hwf. unfold pick_where. case_decide as Hp.
  { unfold pick_least_conn. cbn.
    pose proof (least_conn_loop_correct (eligible now g) (rr_counter p) [] (upstreams p) None) as Hb.
    destruct (least_conn_loop _ _ _ _ _) as [[c i]|]; cbn in *.
    - destruct Hb as (u & Hu & Hok & _); [done|]. eauto.
    - intros _. by apply Hb. }
  case_decide as Hr.
  { cbn. intros _ i u Hu. destruct (eligible now g u) eqn:E; [|done].
    apply eligible_weight in E. assert (i ∈ build_ring (upstreams p)) as Hin
      by (apply ring_elem; eauto). rewrite <- Hwf, Hr in Hin. by apply elem_of_nil in Hin. }
  pose proof (start_index_keeps ctx nanos p) as (Hu & Hring & _).
  unfold no_wrap. destruct (start_index ctx nanos p) as [start p']. cbn in *.
  rewrite Hu, Hring. destruct (scan_ring _ _ _ _ _) as [i|] eqn:Es.
  - by eapply scan_ring_Some.
  - intros Hnw i u Hi. destruct (eligible now g u) eqn:E; [|done].
    rewrite Hwf in *. rewrite <- E. eapply scan_ring_complete; eauto using eligible_weight.
Qed.

(** ** Both passes *)

Lemma count_pick_keeps p : upstreams (count_pick p) = upstreams p ∧
  (pool_wf p → pool_wf (count_pick p)).
Proof. done. Qed.

Lemma pick_keeps ctx now1 now2 nanos1 nanos2 p :
  let p' := (pick ctx now1 now2 nanos1 nanos2 p).2 in
  upstreams p' = upstreams p ∧ weighted_ring p' = weighted_ring p ∧ policy p' = policy p.
Proof.
  cbn zeta. unfold pick. case_decide; [done|].
  set (first := match pick_group ctx with Some _ => _ | None => _ end).
  assert (upstreams first.2 = upstreams p ∧ weighted_ring first.2 = weighted_ring p ∧
          policy first.2 = policy p) as Hf.
  { subst first. destruct (pick_group ctx) as [g|]; [|done]. destruct (existsb _ _); [|done].
    apply (pick_where_keeps ctx (Some g) now1 nanos1 (count_pick p)). }
  destruct first as [[i|] p1]; cbn in Hf; [done|].
  pose proof (pick_where_keeps ctx None now2 nanos2 p1) as Hk.
  destruct (pick_where ctx None now2 nanos2 p1) as [[i|] p2]; cbn in Hk |- *;
    destruct Hf as (<- & <- & <-); done.
Qed.

(** The pool as the second pass finds it. *)
Definition second_pass (ctx : PickCtx) (now1 nanos1 : N) (p : UpstreamPool) : UpstreamPool :=
  match pick_group ctx with
  | Some g =>
      if existsb (λ u, bool_decide (Lb.group u = Some g)) (upstreams p)
      then (pick_where ctx (Some g) now1 nanos1 (count_pick p)).2
      else count_pick p
  | None => count_pick p
  end.

Definition in_group_available (now : N) (g : string) (us : list Upstream) : Prop :=
  ∃ i u, us !! i = Some u ∧ Lb.group u = Some g ∧ is_available u now = true.

Lemma eligible_group now g u :
  eligible now (Some g) u = true ↔ is_available u now = true ∧ Lb.group u = Some g.
Proof. unfold eligible. by rewrite andb_true_iff, bool_decide_eq_true. Qed.

Lemma eligible_none now u : eligible now None u = is_available u now.
Proof. unfold eligible. by rewrite andb_true_r. Qed.

Lemma pick_correct ctx now1 now2 nanos1 nanos2 p :
  pool_wf p →
  match fst (pick ctx now1 now2 nanos1 nanos2 p) with
  | Some i => ∃ u, upstreams p !! i = Some u ∧
      (is_available u now2 = true ∨
       ∃ g, pick_group ctx = Some g ∧ Lb.group u = Some g ∧ is_available u now1 = true) ∧
      (∀ g, pick_group ctx = Some g → no_wrap ctx nanos1 (count_pick p) →
         in_group_available now1 g (upstreams p) → Lb.group u = Some g)
  | None => no_wrap ctx nanos2 (second_pass ctx now1 nanos1 p) →
      ∀ i u, upstreams p !! i = Some u → is_available u now2 = false
  end.
Proof.
  intros Hwf. unfold pick, second_pass. change (upstreams (count_pick p)) with (upstreams p).
  destruct (decide (upstreams p = [])) as [Hnil|_].
  { cbn. intros _ i u Hu. by rewrite Hnil in Hu. }
  assert (∀ q, upstreams q = upstreams p → pool_wf q →
    (∀ g, pick_group ctx = Some g → no_wrap ctx nanos1 (count_pick p) →
       ¬ in_group_available now1 g (upstreams p)) →
    match fst (let '(picked, q) := pick_where ctx None now2 nanos2 q in
               match picked with Some i => (Some i, q) | None => (None, count_none q) end) with
    | Some i => ∃ u, upstreams p !! i = Some u ∧
      (is_available u now2 = true ∨
       ∃ g, pick_group ctx = Some g ∧ Lb.group u = Some g ∧ is_available u now1 = true) ∧
      (∀ g, pick_group ctx = Some g → no_wrap ctx nanos1 (count_pick p) →
         in_group_available now1 g (upstreams p) → Lb.group u = Some g)
    | None => no_wrap ctx nanos2 q →
        ∀ i u, upstreams p !! i = Some u → is_available u now2 = false
    end) as Hrest.
  { intros q Hq Hwfq Hno. pose proof (pick_where_correct ctx None now2 nanos2 q Hwfq) as Hc.
    destruct (pick_where ctx None now2 nanos2 q) as [[i|] q']; cbn in Hc |- *.
    - destruct Hc as (u & Hu & He). rewrite eligible_none in He. rewrite Hq in Hu.
      exists u. split; [done|]. split; [by left|]. intros g Hg Hnw Hav. by destruct (Hno g Hg Hnw).
    - intros Hnw i u Hu. rewrite <- eligible_none. rewrite <- Hq in Hu. by eapply Hc. }
  destruct (pick_group ctx) as [g|] eqn:Eg.
  2:{ apply Hrest; [done..|]. intros g [=]. }
  destruct (existsb _ _) eqn:Ex.
  2:{ apply Hrest; [done..|]. intros g' [= <-] _ (i & u & Hu & Hg & _).
      assert (existsb (λ u, bool_decide (Lb.group u = Some g)) (upstreams p) = true); [|congruence].
      apply existsb_exists. exists u. split; [|by apply bool_decide_eq_true].
      apply list_elem_of_In. by eapply list_elem_of_lookup_2. }
  pose proof (pick_where_correct ctx (Some g) now1 nanos1 (count_pick p) Hwf) as Hc.
  pose proof (pick_where_keeps ctx (Some g) now1 nanos1 (count_pick p)) as (Hu1 & Hr1 & _).
  destruct (pick_where ctx (Some g) now1 nanos1 (count_pick p)) as [[i|] p1]; cbn in Hc, Hu1, Hr1 |- *.
  - destruct Hc as (u & Hu & [Ha Hg]%eligible_group). exists u. split; [done|].
    split; [right; by exists g|]. by intros g' [= <-].
  - apply Hrest; [done| |].
    + unfold pool_wf. by rewrite Hr1, Hu1.
    + intros g' [= <-] Hnw (i & u & Hu & Hgu & Ha).
      assert (eligible now1 (Some g) u = true) as He by (by apply eligible_group).
      rewrite (Hc Hnw i u Hu) in He. done.
Qed.

End picking.

(** * Fairness *)

Lemma count_replicate n x y :
  count_occ Nat.eq_dec (replicate n x) y = if decide (x = y) then n else 0%nat.
Proof.
  induction n as [|n IH]; cbn [replicate count_occ]; [by case_decide|]. rewrite IH.
  destruct (Nat.eq_dec x y); case_decide; done.
Qed.

Lemma ring_count_gen (k : nat) us i u :
  us !! i = Some u →
  count_occ Nat.eq_dec (concat (imap (λ j u, replicate (N.to_nat (weight u)) (k + j)%nat) us))
    (k + i)%nat = N.to_nat (weight u).
Proof.
  revert k i. induction us as [|v us IH]; intros k i; [done|].
  rewrite imap_cons. cbn [concat]. rewrite count_occ_app.
  assert (imap ((λ j u, replicate (N.to_nat (weight u)) (k + j)%nat) ∘ S) us =
          imap (λ j u, replicate (N.to_nat (weight u)) (S k + j)%nat) us) as ->.
  { apply imap_ext. intros j w _. cbn. f_equal. lia. }
  destruct i as [|i]; intros Hu; cbn in Hu.
  - injection Hu as ->. rewrite count_replicate, decide_True by lia.
    enough (count_occ Nat.eq_dec
      (concat (imap (λ j u, replicate (N.to_nat (weight u)) (S k + j)%nat) us)) (k + 0)%nat = 0%nat)
      by lia.
    apply count_occ_not_In. intros Hin%list_elem_of_In.
    apply (ring_elem_gen (λ j, S k + j)%nat) in Hin as (j & w & _ & _ & Hj). lia.
  - rewrite count_replicate, decide_False by lia.
    replace (k + S i)%nat with (S k + i)%nat by lia. by apply IH.
Qed.

Lemma ring_count us i u :
  us !! i = Some u → count_occ Nat.eq_dec (build_ring us) i = N.to_nat (weight u).
Proof. intros Hu. apply (ring_count_gen 0 us i u Hu). Qed.

Definition option_eq_dec (x y : option nat) : {x = y} + {x ≠ y} := decide (x = y).

Lemma count_occ_Some (l : list nat) i :
  count_occ option_eq_dec (Some <$> l) (Some i) = count_occ Nat.eq_dec l i.
Proof.
  induction l as [|x l IH]; [done|]. cbn [fmap list_fmap count_occ]. rewrite IH.
  destruct (option_eq_dec (Some x) (Some i)), (Nat.eq_dec x i); congruence.
Qed.

(** A full turn of the cursor, from wherever it stands, visits the ring. *)
Lemma full_turn (ring : list nat) (c : N) :
  c + N.of_nat (length ring) ≤ u64_mod →
  (λ o, ring !! N.to_nat (wrap64 (c + N.of_nat o) mod N.of_nat (length ring)))
    <$> seq 0 (length ring) ≡ₚ Some <$> ring.
Proof.
  intros Hc.
  set (idx o := N.to_nat (wrap64 (c + N.of_nat o) mod N.of_nat (length ring))).
  change (λ o, ring !! _) with ((λ i, ring !! i) ∘ idx). rewrite list_fmap_compose.
  assert (idx <$> seq 0 (length ring) ≡ₚ seq 0 (length ring)) as ->.
  { symmetry. apply submseteq_length_Permutation; [|by rewrite length_fmap].
    apply NoDup_submseteq; [apply NoDup_seq|]. intros pos Hpos%elem_of_seq.
    destruct (scan_covers (length ring) c pos) as (o & Ho & Heq); [lia|done|].
    apply list_elem_of_fmap. exists o. split; [done|]. apply elem_of_seq. lia. }
  enough ((λ i, ring !! i) <$> seq 0 (length ring) = Some <$> ring) as -> by done.
  apply list_eq. intros i. rewrite !list_lookup_fmap.
  destruct (decide (i < length ring)%nat) as [Hi|Hi].
  - rewrite lookup_seq_lt by done. cbn. by destruct (lookup_lt_is_Some_2 _ _ Hi) as [x ->].
  - rewrite lookup_seq_ge, lookup_ge_None_2 by lia. done.
Qed.

Section fairness.
Context `{Http} `{Hasher}.

(** [n] picks in a row, all at the same time. *)
Fixpoint run_picks (ctx : PickCtx) (now nanos : N) (n : nat) (p : UpstreamPool)
    : list (option nat) * UpstreamPool :=
  match n with
  | O => ([], p)
  | S n' =>
      let '(i, p') := pick ctx now now nanos nanos p in
      let '(rest, p'') := run_picks ctx now nanos n' p' in
      (i :: rest, p'')
  end.

Definition all_available (now : N) (p : UpstreamPool) : Prop :=
  ∀ i u, upstreams p !! i = Some u → 0 < weight u → is_available u now = true.

Record rr_ready (ctx : PickCtx) (now : N) (p : UpstreamPool) : Prop := {
  rr_wf : pool_wf p;
  rr_policy : policy p = RoundRobin;
  rr_group : pick_group ctx = None;
  rr_up : all_available now p;
}.

Lemma pick_where_round_robin ctx now nanos p :
  pool_wf p → policy p = RoundRobin → all_available now p →
  weighted_ring p ≠ [] → rr_counter p < u64_mod →
  ∃ idx u, weighted_ring p !!
      N.to_nat (rr_counter p mod N.of_nat (length (weighted_ring p))) = Some idx ∧
    upstreams p !! idx = Some u ∧
    pick_where ctx None now nanos p = (Some idx, set_counter p (wrap64 (rr_counter p + 1))).
Proof.
  intros Hwf Hpol Hup Hne Hc. set (pos := N.to_nat _).
  assert (pos < length (weighted_ring p))%nat as Hpos.
  { unfold pos. destruct (weighted_ring p); [done|]. cbn [length].
    pose proof (N.mod_lt (rr_counter p) (N.of_nat (S (length l)))). lia. }
  destruct (lookup_lt_is_Some_2 _ _ Hpos) as [idx Hidx].
  assert (idx ∈ build_ring (upstreams p)) as (u & Hu & Hw)%ring_elem.
  { rewrite <- Hwf. by eapply list_elem_of_lookup_2. }
  exists idx, u. split; [done|]. split; [done|].
  unfold pick_where, start_index. rewrite Hpol. rewrite !decide_False by done.
  cbn [next_counter upstreams weighted_ring set_counter]. f_equal.
  destruct (weighted_ring p) as [|r0 ring] eqn:Er; [done|]. cbn [length seq scan_ring].
  rewrite N.add_0_r, wrap64_small by done.
  change (S (length ring)) with (length (r0 :: ring)). fold pos. rewrite Hidx, Hu.
  unfold eligible. by rewrite (Hup idx u Hu Hw).
Qed.

Lemma pick_round_robin ctx now nanos p :
  rr_ready ctx now p → weighted_ring p ≠ [] → rr_counter p < u64_mod →
  ∃ p', pick ctx now now nanos nanos p =
    (weighted_ring p !! N.to_nat (rr_counter p mod N.of_nat (length (weighted_ring p))), p') ∧
    rr_ready ctx now p' ∧ weighted_ring p' = weighted_ring p ∧ upstreams p' = upstreams p ∧
    rr_counter p' = wrap64 (rr_counter p + 1).
Proof.
  intros [Hwf Hpol Hg Hup] Hne Hc.
  destruct (pick_where_round_robin ctx now nanos (count_pick p) Hwf Hpol Hup Hne Hc)
    as (idx & u & Hidx & Hu & E).
  change (weighted_ring (count_pick p)) with (weighted_ring p) in Hidx.
  change (rr_counter (count_pick p)) with (rr_counter p) in Hidx.
  change (upstreams (count_pick p)) with (upstreams p) in Hu.
  unfold pick. rewrite Hg, Hidx. change (upstreams (count_pick p)) with (upstreams p).
  rewrite decide_False by (intros Hnil; by rewrite Hnil in Hu). rewrite E.
  eexists. split; [reflexivity|]. done.
Qed.

Lemma run_picks_ring ctx now nanos n p :
  rr_ready ctx now p → weighted_ring p ≠ [] → rr_counter p + N.of_nat n ≤ u64_mod →
  fst (run_picks ctx now nanos n p) =
    (λ o, weighted_ring p !!
       N.to_nat (wrap64 (rr_counter p + N.of_nat o) mod N.of_nat (length (weighted_ring p))))
      <$> seq 0 n.
Proof.
  revert p. induction n as [|n IH]; intros p Hr Hne Hc; [done|].
  destruct (pick_round_robin ctx now nanos p Hr Hne ltac:(lia)) as (p' & E & Hr' & Hring & Hus & Hcnt).
  cbn [run_picks seq fmap list_fmap]. rewrite E.
  assert (n = 0%nat ∨ rr_counter p' = rr_counter p + 1) as Hcase.
  { rewrite Hcnt. destruct n; [by left|right]. apply wrap64_small. lia. }
  destruct (run_picks ctx now nanos n p') as [rest p''] eqn:Ep. cbn [fst].
  rewrite N.add_0_r, (wrap64_small (rr_counter p)) by lia. f_equal.
  destruct Hcase as [->|Hc']; [by injection Ep as <- <-|].
  specialize (IH p' Hr'). rewrite Ep, Hring, Hc' in IH. cbn [fst] in IH. rewrite IH by (done || lia).
  rewrite <- fmap_S_seq, <- list_fmap_compose. apply list_fmap_ext. intros k o _. cbn.
  do 4 f_equal. lia.
Qed.

End fairness.

(** * Histories

    A history lists what happened to an upstream, the latest first. *)

Inductive Event :=
  | Success
  | Failure (at_ms : N).

Definition event_step (cfg : PassiveHealthConfig) (e : Event) (u : Upstream) : Upstream :=
  match e with
  | Success => record_success u
  | Failure t => fst (record_failure cfg t u)
  end.

(** Failures since the last success. *)
Fixpoint streak (h : list Event) : N :=
  match h with
  | Failure _ :: h' => 1 + streak h'
  | _ => 0
  end.

(** The time of the latest failure that ended a long enough streak. *)
Fixpoint last_ejection (after : N) (h : list Event) : option N :=
  match h with
  | [] => None
  | Success :: h' => last_ejection after h'
  | Failure t :: h' =>
      if after <=? 1 + streak h' then Some t else last_ejection after h'
  end.

Lemma streak_le h : streak h ≤ N.of_nat (length h).
Proof. induction h as [|[|t] h IH]; cbn [streak length]; lia. Qed.

(** The run of equal results a probe history starts with. *)
Fixpoint run_of (b : bool) (h : list bool) : N :=
  match h with
  | x :: h' => if Bool.eqb x b then 1 + run_of b h' else 0
  | [] => 0
  end.

Lemma run_of_le b h : run_of b h ≤ N.of_nat (length h).
Proof. induction h as [|x h IH]; cbn [run_of length]; [lia|]. case_match; lia. Qed.

(** The verdict: up to begin with, down after [unhealthy_after] failures in a
    row, up again after [healthy_after] successes in a row. *)
Fixpoint verdict (cfg : ActiveHealthConfig) (h : list bool) : bool :=
  match h with
  | [] => true
  | true :: h' => verdict cfg h' || (healthy_after cfg <=? run_of true (true :: h'))
  | false :: h' => verdict cfg h' && negb (unhealthy_after cfg <=? run_of false (false :: h'))
  end.

Definition probe_history (cfg : ActiveHealthConfig) (h : list bool) (u : Upstream)
    : ProbeState * Upstream :=
  foldr (λ ok su, probe_result cfg ok su.1 su.2) (probe_default, u) h.

(** * Properties *)

(** C4: the picker is sound and complete.  It only returns an upstream that is
    available (positive weight, healthy, not ejected) at the time of the pass
    that chose it; when the request names a group with an available member,
    the choice is in that group; and it gives up only when no upstream at all
    is available.  The two [no_wrap] conditions exclude a ring scan that runs
    past the top of [usize]. *)
Theorem pick_spec `{Http} `{Hasher} ctx now1 now2 nanos1 nanos2 p :
  pool_wf p →
  match fst (pick ctx now1 now2 nanos1 nanos2 p) with
  | Some i => ∃ u, upstreams p !! i = Some u ∧
      (is_available u now2 = true ∨
       ∃ g, pick_group ctx = Some g ∧ Lb.group u = Some g ∧ is_available u now1 = true) ∧
      (∀ g, pick_group ctx = Some g → no_wrap ctx nanos1 (count_pick p) →
         in_group_available now1 g (upstreams p) → Lb.group u = Some g)
  | None => no_wrap ctx nanos2 (second_pass ctx now1 nanos1 p) →
      ∀ i u, upstreams p !! i = Some u → is_available u now2 = false
  end.
Proof. apply pick_correct. Qed.

(** Round robin is fair: over one turn of the ring, from wherever the
    cursor stands, every upstream is picked exactly as often as its weight
    says, provided they are all available. *)
Theorem round_robin_fair `{Http} `{Hasher} ctx now nanos p i u :
  rr_ready ctx now p →
  rr_counter p + N.of_nat (length (weighted_ring p)) ≤ u64_mod →
  upstreams p !! i = Some u →
  count_occ option_eq_dec (fst (run_picks ctx now nanos (length (weighted_ring p)) p)) (Some i)
  = N.to_nat (weight u).
Proof.
  intros Hr Hc Hu. rewrite <- (ring_count _ _ _ Hu), <- (rr_wf _ _ _ Hr).
  destruct (decide (weighted_ring p = [])) as [->|Hne]; [done|].
  rewrite run_picks_ring by done.
  pose proof (full_turn (weighted_ring p) (rr_counter p) Hc) as Hp.
  rewrite (proj1 (Permutation_count_occ option_eq_dec _ _) Hp (Some i)). apply count_occ_Some.
Qed.

(** Least-connections picks an eligible upstream of minimal load per unit
    of weight, and none only when none is eligible. *)
Theorem least_conn_minimal ok p :
  match fst (pick_least_conn ok p) with
  | Some i => ∃ u, upstreams p !! i = Some u ∧ ok u = true ∧
      ∀ j v, upstreams p !! j = Some v → ok v = true → cost u ≤ cost v
  | None => ∀ i u, upstreams p !! i = Some u → ok u = false
  end.
Proof.
  unfold pick_least_conn. cbn.
  pose proof (least_conn_loop_correct ok (rr_counter p) [] (upstreams p) None) as Hb.
  destruct (least_conn_loop _ _ _ _ _) as [[c i]|]; cbn in *; [|by apply Hb].
  destruct Hb as (u & Hu & Hok & -> & Hmin); [done|]. eauto.
Qed.

(** Passive ejection as a function of the request history: the error
    counter is the length of the current failure streak, and the upstream is
    out exactly until [eject_for_secs] after the latest failure that made the
    streak reach [eject_after]; a success in between starts the count anew. *)
Theorem passive_ejection cfg u0 h :
  eject_after cfg ≠ u32_max → N.of_nat (length h) ≤ u32_max →
  eject_for_secs cfg * 1000 < u64_mod →
  (∀ t, Failure t ∈ h → t + eject_for_secs cfg * 1000 ≤ u64_max) →
  consecutive_errors u0 = 0 → ejected_until_ms u0 = 0 →
  let u := foldr (event_step cfg) u0 h in
  consecutive_errors u = streak h ∧
  ∀ now, is_ejected u now =
    match last_ejection (eject_after cfg) h with
    | Some t => now <? t + eject_for_secs cfg * 1000
    | None => false
    end.
Proof.
  intros Hne Hlen Hsecs Ht Hc0 Hu0. cbn.
  assert (∀ u until, ejected_until_ms u = until → ∀ now, is_ejected u now = (now <? until)) as Hej.
  { intros u until <- now. unfold is_ejected.
    destruct (N.eqb_spec (ejected_until_ms u) 0) as [->|]; [by destruct now|done]. }
  assert (let u := foldr (event_step cfg) u0 h in consecutive_errors u = streak h ∧
    ejected_until_ms u = match last_ejection (eject_after cfg) h with
                         | Some t => t + eject_for_secs cfg * 1000
                         | None => 0
                         end) as [H1 H2].
  2:{ split; [exact H1|]. intros now. rewrite (Hej _ _ H2). case_match; [done|by destruct now]. }
  induction h as [|[|t] h IH]; [done| |].
  - destruct IH as [_ IH]; [cbn in Hlen; lia|intros; apply Ht; by right|]. done.
  - cbn [length] in Hlen. destruct IH as [IH1 IH2]; [lia|intros; apply Ht; by right|].
    cbn [foldr event_step streak last_ejection]. unfold record_failure. rewrite IH1.
    pose proof (streak_le h) as Hs. unfold u32_max in Hlen.
    assert (wrap32 (streak h + 1) = 1 + streak h) as ->.
    { unfold wrap32. rewrite N.mod_small; lia. }
    destruct (N.eqb_spec (eject_after cfg) u32_max); [done|]. cbn [negb andb].
    destruct (N.leb_spec (eject_after cfg) (1 + streak h)); cbn; [|done]. split; [done|].
    rewrite wrap64_small by done. unfold sat_add64. apply N.min_l, Ht. by left.
Qed.

(** Active health checking has the hysteresis its two thresholds describe:
    whatever the results, the counters are the lengths of the current runs
    and the healthy flag is the verdict of the probe history. *)
Theorem probe_hysteresis cfg u0 h :
  healthy u0 = true → N.of_nat (length h) ≤ u32_max →
  let '(s, u) := probe_history cfg h u0 in
  failures s = run_of false h ∧ successes s = run_of true h ∧ healthy u = verdict cfg h.
Proof.
  intros Hu Hlen. induction h as [|ok h IH]; [done|]. cbn [length] in Hlen.
  unfold probe_history in *. cbn [foldr].
  destruct (foldr _ _ h) as [s u]. destruct IH as (IF & IS & IV); [lia|]. cbn [fst snd].
  pose proof (run_of_le false h) as Hf. pose proof (run_of_le true h) as Hs.
  unfold probe_result. destruct ok; cbn [run_of Bool.eqb verdict failures successes].
  - unfold sat_add32. rewrite IS, N.min_l, N.add_comm by lia. split_and!; try done.
    rewrite IV. destruct (verdict cfg h), (healthy_after cfg <=? _); done.
  - unfold sat_add32. rewrite IF, N.min_l, N.add_comm by lia. split_and!; try done.
    rewrite IV. destruct (verdict cfg h), (unhealthy_after cfg <=? _); done.
Qed.

(** A guard's drop undoes its creation. *)
Lemma in_flight_balanced u :
  in_flight u ≤ u32_max → in_flight (in_flight_dec (in_flight_inc u)) = in_flight u.
Proof.
  intros Hle. cbn. unfold wrap32, u32_max in *.
  rewrite N.Div0.add_mod_idemp_l. replace (in_flight u + 1 + 4294967295)
    with (in_flight u + 1 * 4294967296) by lia.
  rewrite N.Div0.mod_add, N.mod_small; lia.
Qed.

(** * Examples *)

Definition zero_hasher : Hasher := {| hash_octets _ := 0; hash_salted _ _ := 0 |}.
#[local] Existing Instance zero_hasher.

Definition lb_metrics0 : LbMetrics :=
  {| lb_picks := 0; lb_no_upstream := 0; lb_ejections := 0; lb_health_checks := 0;
     lb_health_recoveries := 0; lb_health_failures := 0 |}.

Definition demo_pool : UpstreamPool :=
  new_pool [new_upstream "http://a" 2 None; new_upstream "http://b" 1 (Some "g")] RoundRobin None
    passive_default lb_metrics0.

Definition demo_pick (g : option string) : PickCtx :=
  {| peer_ip := None; pick_headers := []; pick_group := g |}.

Lemma pick_spec_witness :
  match fst (pick (demo_pick (Some "g")) 5 5 0 0 demo_pool) with
  | Some i => ∃ u, upstreams demo_pool !! i = Some u ∧
      (is_available u 5 = true ∨
       ∃ g, Some "g" = Some g ∧ Lb.group u = Some g ∧ is_available u 5 = true) ∧
      (∀ g, Some "g" = Some g → no_wrap (demo_pick (Some "g")) 0 (count_pick demo_pool) →
         in_group_available 5 g (upstreams demo_pool) → Lb.group u = Some g)
  | None => no_wrap (demo_pick (Some "g")) 0 (second_pass (demo_pick (Some "g")) 5 0 demo_pool) →
      ∀ i u, upstreams demo_pool !! i = Some u → is_available u 5 = false
  end.
Proof. apply (pick_spec (demo_pick (Some "g")) 5 5 0 0 demo_pool). reflexivity. Defined.

Lemma demo_ready : rr_ready (demo_pick None) 5 demo_pool.
Proof.
  split; try done. intros [|[|i]] u Hu Hw; cbn in Hu; by simplify_eq.
Qed.

Lemma round_robin_fair_witness :
  count_occ option_eq_dec (fst (run_picks (demo_pick None) 5 0 3 demo_pool)) (Some 0%nat) = 2%nat.
Proof.
  apply (round_robin_fair (demo_pick None) 5 0 demo_pool 0 (new_upstream "http://a" 2 None));
    [exact demo_ready|vm_compute; discriminate|reflexivity].
Defined.

Lemma passive_ejection_witness :
  let u := foldr (event_step {| eject_after := 2; eject_for_secs := 60 |})
             (new_upstream "http://a" 1 None) [Failure 20; Failure 10; Success; Failure 5] in
  is_ejected u 60019 = true ∧ is_ejected u 60020 = false.
Proof.
  assert (∀ t, Failure t ∈ [Failure 20; Failure 10; Success; Failure 5] →
    t + eject_for_secs {| eject_after := 2; eject_for_secs := 60 |} * 1000 ≤ u64_max) as Ht.
  { intros t Hin. rewrite !elem_of_cons, elem_of_nil in Hin.
    destruct Hin as [E|[E|[E|[E|[]]]]]; try discriminate; injection E as ->; vm_compute; discriminate. }
  destruct (passive_ejection {| eject_after := 2; eject_for_secs := 60 |}
    (new_upstream "http://a" 1 None) [Failure 20; Failure 10; Success; Failure 5]
    ltac:(discriminate) ltac:(vm_compute; discriminate) ltac:(reflexivity) Ht eq_refl eq_refl)
    as [_ He].
  split; [rewrite (He 60019)|rewrite (He 60020)]; reflexivity.
Defined.

Lemma probe_hysteresis_witness :
  let '(s, u) := probe_history {| probe_path := "/"; interval_secs := 5; timeout_secs := 2; expect_status := 200; unhealthy_after := 2; healthy_after := 1 |}
                   [false; false; true] (new_upstream "http://a" 1 None) in
  failures s = 2 ∧ successes s = 0 ∧ healthy u = false.
Proof.
  apply (probe_hysteresis {| probe_path := "/"; interval_secs := 5; timeout_secs := 2; expect_status := 200; unhealthy_after := 2; healthy_after := 1 |}
    (new_upstream "http://a" 1 None) [false; false; true]); [reflexivity|vm_compute; discriminate].
Defined.

(** A ring scan that starts at the top of [usize] wraps to zero in the
    middle, skips part of the ring, and reports no upstream although one is
    available. *)
Theorem ring_scan_wraps :
  let down u := set_health u 0 0 0 false in
  let p := set_counter
    (new_pool [down (new_upstream "http://a" 1 None); down (new_upstream "http://b" 1 None);
               new_upstream "http://c" 1 None] RoundRobin None passive_default lb_metrics0)
    u64_max in
  fst (pick (demo_pick None) 5 5 0 0 p) = None ∧
  is_available (new_upstream "http://c" 1 None) 5 = true ∧
  fst (pick (demo_pick None) 5 5 0 0 (set_counter p 0)) = Some 2%nat.
Proof. vm_compute. split_and!; reflexivity. Qed.

End Lb.
