(* ===== verification/RateLimit.v ===== *)
(** Token-bucket rate limiting ([src/rate_limit.rs]).

    Token counts are [f64]: the arithmetic is a class of operations, [F64],
    and [F64Laws] states the IEEE 754 facts the limiter relies on, which hold
    of round-to-nearest arithmetic on numbers that are not NaN.
    [F64Rounding] adds how far a rounded result may exceed the exact one, and
    the admitted rate is bounded with those errors counted.  [exact_f64] is
    the instance without rounding, on rationals: it satisfies the laws with
    no error and runs the examples. *)
From Stdlib Require Import QArith Qcanon Qround Lqa.
From S2P Require Import Prelude RustStr Http Template.
#[local] Open Scope N_scope.

(** * Floating-point arithmetic *)

Class F64 := {
  f64 : Type;
  f0 : f64;
  f1 : f64;
  fadd : f64 → f64 → f64;
  fsub : f64 → f64 → f64;
  fmul : f64 → f64 → f64;
  fdiv : f64 → f64 → f64;
  fle : f64 → f64 → bool;
  fmin : f64 → f64 → f64;
  fmax : f64 → f64 → f64;
  (** [x.ceil() as u32], which saturates. *)
  fceil_u32 : f64 → N;
  (** [Duration::as_secs_f64]. *)
  as_secs_f64 : Duration → f64;
}.

(** [x < y] on numbers. *)
Definition flt `{F64} (x y : f64) : bool := negb (fle y x).

(** The laws speak of numbers at least zero, the infinity included; [finite]
    excludes it.  The two zeros, which compare equal, are one value. *)
Class F64Laws `{F64} (finite : f64 → Prop) : Prop := {
  fle_refl x : fle f0 x = true → fle x x = true;
  fle_trans x y z : fle x y = true → fle y z = true → fle x z = true;
  fle_total x y : fle f0 x = true → fle f0 y = true → fle x y = true ∨ fle y x = true;
  fle_antisym x y : fle f0 x = true → fle x y = true → fle y x = true → x = y;
  f0_nonneg : fle f0 f0 = true;
  fadd_nonneg x y : fle f0 x = true → fle f0 y = true → fle f0 (fadd x y) = true;
  fadd_mono x y z : fle f0 x = true → fle f0 y = true → fle y z = true →
    fle (fadd x y) (fadd x z) = true;
  fadd_0 x : fle f0 x = true → fadd x f0 = x;
  fmul_nonneg x r : fle f0 x = true → finite x → fle f0 r = true → finite r →
    fle f0 (fmul x r) = true;
  fmul_mono x y r : fle f0 x = true → fle x y = true → finite y → fle f0 r = true → finite r →
    fle (fmul x r) (fmul y r) = true;
  fmul_0 r : fle f0 r = true → finite r → fmul f0 r = f0;
  fsub_1_nonneg x : fle f1 x = true → fle f0 (fsub x f1) = true ∧ fle (fsub x f1) x = true;
  fmin_spec x y : fle f0 x = true → fle f0 y = true →
    fmin x y = if fle x y then x else y;
  as_secs_f64_0 : as_secs_f64 0 = f0;
  as_secs_f64_mono d d' : d ≤ d' → fle (as_secs_f64 d) (as_secs_f64 d') = true;
  as_secs_f64_finite d : finite (as_secs_f64 d);
}.

(** The value of a number that is not infinite, and how rounding errs: by a
    relative [eps] in each operation (for [f64] it is 2^-53), and by an
    absolute [eta] where a product underflows (2^-1075).  [upto x w] says
    that no number up to [x] exceeds [w]; of an infinity it says that [w] is
    past the largest number, as is a sum or a product that overflows. *)
Definition upto `{F64} (finite : f64 → Prop) (val : f64 → Q) (x : f64) (w : Q) : Prop :=
  ∀ z, finite z → fle z x = true → (val z <= w)%Q.

Definition secs_q (d : Duration) : Q := Z.of_N d # 1000000000.

Class F64Rounding `{F64} (finite : f64 → Prop) (val : f64 → Q) (eps eta : Q) : Prop := {
  eps_nonneg : (0 <= eps)%Q;
  eta_nonneg : (0 <= eta)%Q;
  val_f0 : (val f0 == 0)%Q;
  val_f1 : (val f1 == 1)%Q;
  val_le x y : finite x → finite y → fle x y = true → (val x <= val y)%Q;
  finite_f0 : finite f0;
  finite_f1 : finite f1;
  finite_le x y : fle f0 x = true → fle x y = true → finite y → finite x;
  fadd_upto x y w : finite x → fle f0 x = true → fle f0 y = true → upto finite val y w →
    upto finite val (fadd x y) ((1 + eps) * (val x + w))%Q;
  fmul_upto x y : finite x → finite y → fle f0 x = true → fle f0 y = true →
    upto finite val (fmul x y) ((1 + eps) * (val x * val y) + eta)%Q;
  fsub_1_le x : finite x → fle f1 x = true →
    (val (fsub x f1) <= (1 + eps) * (val x - 1))%Q;
  (** [secs as f64 + nanos as f64 / 1e9]: two roundings on the way. *)
  as_secs_f64_le d : (val (as_secs_f64 d) <= (1 + eps) * ((1 + eps) * secs_q d))%Q;
}.

Module RateLimit.

(** * Data *)

Inductive RateLimitKey :=
  | KClientIp
  | KUser
  | KHeader (name : HeaderName).

Inductive RateLimitOutcome :=
  | Allow
  | Deny (retry_after_secs : N).

Section limiter.
Context `{Http} `{F64}.

Record BucketEntry := {
  tokens : f64;
  last_refill : Instant;
}.

Record RateLimitRule := {
  rl_name : string;
  rate_per_sec : f64;
  burst : f64;
  rl_key : RateLimitKey;
  state : gmap string BucketEntry;
}.

Definition new_rule (name : string) (rate burst : f64) (key : RateLimitKey) : RateLimitRule :=
  {| rl_name := name; rate_per_sec := rate; burst := burst; rl_key := key; state := ∅ |}.

Definition set_state (r : RateLimitRule) (s : gmap string BucketEntry) : RateLimitRule :=
  {| rl_name := rl_name r; rate_per_sec := rate_per_sec r; burst := burst r;
     rl_key := rl_key r; state := s |}.

Definition key_string (r : RateLimitRule) (ctx : Template.RequestContext) (headers : header_map)
    : string :=
  match rl_key r with
  | KClientIp => Template.client_ip ctx
  | KUser => Template.username ctx
  | KHeader name => default "" (get_str headers name)
  end.

(** The bucket brought up to date at [now]. *)
Definition refill (r : RateLimitRule) (now : Instant) (e : BucketEntry) : f64 :=
  let elapsed := as_secs_f64 (since now (last_refill e)) in
  fmin (fadd (tokens e) (fmul elapsed (rate_per_sec r))) (burst r).

(** What a denied client is told to wait. *)
Definition retry_after (r : RateLimitRule) (held : f64) : N :=
  let need := fmax (fsub f1 held) f0 in
  let secs := if flt f0 (rate_per_sec r) then fceil_u32 (fdiv need (rate_per_sec r))
              else u32_max in
  N.max secs 1.

(** [check_at] once the key is known. *)
Definition check_key (r : RateLimitRule) (key : string) (now : Instant)
    : RateLimitOutcome * RateLimitRule :=
  let entry := match state r !! key with
               | Some e => e
               | None => {| tokens := burst r; last_refill := now |}
               end in
  let held := refill r now entry in
  let '(out, kept) := if fle f1 held then (Allow, fsub held f1)
                      else (Deny (retry_after r held), held) in
  (out, set_state r (<[key := {| tokens := kept; last_refill := now |}]> (state r))).

Definition check_at (r : RateLimitRule) (ctx : Template.RequestContext) (headers : header_map)
    (now : Instant) : RateLimitOutcome * RateLimitRule :=
  check_key r (key_string r ctx headers) now.

(** The condition of the sweep: recently touched, or not yet full again. *)
Definition keep_bucket (r : RateLimitRule) (idle_threshold : Duration) (now : Instant)
    (e : BucketEntry) : bool :=
  let elapsed := since now (last_refill e) in
  if elapsed <? idle_threshold then true else flt (refill r now e) (burst r).

(** [evict_idle_at]: the number of entries removed, and the rule. *)
Definition evict_idle_at (r : RateLimitRule) (idle_threshold : Duration) (now : Instant)
    : nat * RateLimitRule :=
  let s := filter (λ kv, keep_bucket r idle_threshold now kv.2 = true) (state r) in
  ((size (state r) - size s)%nat, set_state r s).

Definition bucket_count (r : RateLimitRule) : nat := size (state r).

(** * Invariant *)

Context (finite : f64 → Prop) `{!F64Laws finite}.

(** A usable configuration, and buckets that hold between nothing and a full
    burst. *)
Record rule_wf (r : RateLimitRule) : Prop := {
  wf_rate : fle f0 (rate_per_sec r) = true;
  wf_rate_finite : finite (rate_per_sec r);
  wf_burst : fle f0 (burst r) = true;
  wf_buckets : map_Forall (λ _ e, fle f0 (tokens e) = true ∧ fle (tokens e) (burst r) = true)
                 (state r);
}.

Lemma as_secs_f64_nonneg d : fle f0 (as_secs_f64 d) = true.
Proof. rewrite <- as_secs_f64_0 at 1. apply as_secs_f64_mono. lia. Qed.

(** What the bucket would hold without the cap. *)
Definition uncapped (r : RateLimitRule) (now : Instant) (e : BucketEntry) : f64 :=
  fadd (tokens e) (fmul (as_secs_f64 (since now (last_refill e))) (rate_per_sec r)).

Lemma uncapped_nonneg r now e :
  rule_wf r → fle f0 (tokens e) = true → fle f0 (uncapped r now e) = true.
Proof.
  intros Hr Ht. apply fadd_nonneg; [done|].
  apply fmul_nonneg; [apply as_secs_f64_nonneg|apply as_secs_f64_finite|apply Hr..].
Qed.

Lemma refill_spec r now e :
  rule_wf r → fle f0 (tokens e) = true →
  refill r now e = if fle (uncapped r now e) (burst r) then uncapped r now e else burst r.
Proof.
  intros Hr Ht. unfold refill. fold (uncapped r now e).
  rewrite fmin_spec; [done|by apply uncapped_nonneg|apply Hr].
Qed.

Lemma refill_bounds r now e :
  rule_wf r → fle f0 (tokens e) = true →
  fle f0 (refill r now e) = true ∧ fle (refill r now e) (burst r) = true.
Proof.
  intros Hr Ht. rewrite refill_spec by done. case_match.
  - split; [by apply uncapped_nonneg|done].
  - split; [apply Hr|apply fle_refl, Hr].
Qed.

(** Once full, a bucket stays full until it is used. *)
Lemma refill_full_stays r now now' e :
  rule_wf r → fle f0 (tokens e) = true → now ≤ now' →
  fle (burst r) (refill r now e) = true → refill r now' e = burst r.
Proof.
  intros Hr Ht Hn Hf. rewrite refill_spec in Hf |- * by done.
  destruct (fle (uncapped r now' e) (burst r)) eqn:E; [|done]. apply fle_antisym; [by apply uncapped_nonneg|done|].
  assert (fle (burst r) (uncapped r now e) = true) as Hu.
  { destruct (fle (uncapped r now e) (burst r)) eqn:E'; [done|]. destruct (fle_total (burst r) (uncapped r now e)) as [?|Hc];
      [apply Hr|by apply uncapped_nonneg|done|congruence]. }
  apply (fle_trans _ (uncapped r now e)); [done|]. apply fadd_mono; [done|..].
  - apply fmul_nonneg; [apply as_secs_f64_nonneg|apply as_secs_f64_finite|apply Hr..].
  - apply fmul_mono; [apply as_secs_f64_nonneg| |apply as_secs_f64_finite|apply Hr..].
    apply as_secs_f64_mono. unfold since. lia.
Qed.

Lemma check_key_wf r key now : rule_wf r → rule_wf (check_key r key now).2.
Proof.
  intros Hr. unfold check_key.
  set (e := match state r !! key with Some e => e | None => _ end).
  assert (fle f0 (tokens e) = true) as He.
  { unfold e. destruct (state r !! key) eqn:E; [by apply (wf_buckets _ Hr key)|apply Hr]. }
  destruct (refill_bounds r now e Hr He) as [B1 B2].
  assert (∀ x, fle f0 x = true → fle x (burst r) = true →
    rule_wf (set_state r (<[key := {| tokens := x; last_refill := now |}]> (state r)))) as Hset.
  { intros x Hx1 Hx2. split; cbn; try apply Hr.
    apply map_Forall_insert_2; [done|]. apply Hr. }
  destruct (fle f1 (refill r now e)) eqn:E1; cbn; [|by apply Hset].
  destruct (fsub_1_nonneg _ E1) as [S1 S2]. apply Hset; [done|]. by eapply fle_trans.
Qed.

Lemma refill_new r now :
  rule_wf r → refill r now {| tokens := burst r; last_refill := now |} = burst r.
Proof.
  intros Hr. assert (uncapped r now {| tokens := burst r; last_refill := now |} = burst r) as Hu.
  { unfold uncapped. cbn. unfold since. rewrite N.sub_diag, as_secs_f64_0, fmul_0 by apply Hr.
    apply fadd_0, Hr. }
  rewrite refill_spec, Hu by (done || apply Hr). by case_match.
Qed.

(** * Properties *)

(** The buckets stay between empty and a full burst whatever is asked of
    the limiter and whenever it is swept. *)
Theorem bucket_bounds r key now idle :
  rule_wf r → rule_wf (check_key r key now).2 ∧ rule_wf (evict_idle_at r idle now).2.
Proof.
  intros Hr. split; [by apply check_key_wf|]. split; cbn; try apply Hr.
  intros k e [Hk _]%map_lookup_filter_Some. by apply (wf_buckets _ Hr k).
Qed.

(** Forgetting an idle bucket cannot be observed: any later check of any
    key, at any time after the sweep, has the same outcome as if nothing had
    been evicted, and leaves the key with the same bucket. *)
Theorem eviction_unobservable r idle now key now' :
  rule_wf r → now ≤ now' →
  let swept := (evict_idle_at r idle now).2 in
  (check_key swept key now').1 = (check_key r key now').1 ∧
  state (check_key swept key now').2 !! key = state (check_key r key now').2 !! key.
Proof.
  intros Hr Hn swept.
  assert (refill swept now' match state swept !! key with
                            | Some e => e
                            | None => {| tokens := burst swept; last_refill := now' |}
                            end =
    refill r now' match state r !! key with
                  | Some e => e
                  | None => {| tokens := burst r; last_refill := now' |}
                  end) as Hrefill.
  { change (refill swept now') with (refill r now'). change (burst swept) with (burst r).
    unfold swept. cbn [evict_idle_at snd state set_state].
    rewrite map_lookup_filter. destruct (state r !! key) as [e|] eqn:E; [|done]. cbn.
    destruct (wf_buckets _ Hr key e E) as [T1 T2].
    unfold guard. case_decide as Hk; [done|]. cbn. rewrite refill_new by done.
    unfold keep_bucket in Hk. destruct (_ <? idle); [done|].
    unfold flt in Hk. apply not_true_is_false, negb_false_iff in Hk.
    by rewrite (refill_full_stays r now now' e). }
  unfold check_key. rewrite Hrefill. change (retry_after swept) with (retry_after r).
  destruct (fle f1 _); cbn [fst snd state set_state]; by rewrite !lookup_insert_eq.
Qed.

End limiter.

(** * The admitted rate *)

(** What happens to a rule under its lock: checks of any key and sweeps, with
    the clock reading each brought along. *)
Inductive Event :=
  | Check (key : string) (now : Instant)
  | Sweep (idle_threshold : Duration) (now : Instant).

Definition event_time (ev : Event) : Instant :=
  match ev with Check _ now | Sweep _ now => now end.

Section rate.
Context `{Http} `{F64} (finite : f64 → Prop) `{!F64Laws finite}.
Context (val : f64 → Q) (eps eta : Q) `{!F64Rounding finite val eps eta}.

(** The rule after one event, and whether it admitted a request of [key]. *)
Definition event (key : string) (r : RateLimitRule) (ev : Event) : bool * RateLimitRule :=
  match ev with
  | Check k now =>
      let '(out, r') := check_key r k now in
      (match out with Allow => bool_decide (k = key) | Deny _ => false end, r')
  | Sweep idle now => (false, (evict_idle_at r idle now).2)
  end.

(** The requests of [key] admitted by a sequence of events. *)
Fixpoint admitted (key : string) (r : RateLimitRule) (evs : list Event) : nat :=
  match evs with
  | [] => 0%nat
  | ev :: evs' =>
      let '(ok, r') := event key r ev in
      ((if ok then 1 else 0) + admitted key r' evs')%nat
  end.

(** How far the readings move forward, in all: the time elapsed when they
    are in order. *)
Fixpoint advanced (t : Instant) (evs : list Event) : Duration :=
  match evs with
  | [] => 0
  | ev :: evs' => since (event_time ev) t + advanced (event_time ev) evs'
  end.

Definition of_nat (n : nat) : Q := inject_Z (Z.of_nat n).

(** What accrues in a duration, with four roundings. *)
Definition accrual (r : RateLimitRule) (d : Duration) : Q :=
  (1 + eps) * ((1 + eps) * ((1 + eps) * ((1 + eps) * secs_q d) * val (rate_per_sec r))).

(** What the roundings of one event may add. *)
Definition slack (r : RateLimitRule) : Q := 2 * eps * val (burst r) + (1 + eps) * eta.

(** What the key may still spend, read at [t]. *)
Definition credit (r : RateLimitRule) (key : string) (t : Instant) : Q :=
  match state r !! key with
  | Some e => val (tokens e) + accrual r (since t (last_refill e))
  | None => val (burst r)
  end.

Lemma val_nonneg x : finite x → fle f0 x = true → (0 <= val x)%Q.
Proof.
  intros Hf Hx. rewrite <- val_f0. apply (val_le (finite := finite)); [apply finite_f0|done..].
Qed.

Lemma Qmult_nonneg (x y : Q) : (0 <= x → 0 <= y → 0 <= x * y)%Q.
Proof. apply Qmult_le_0_compat. Qed.

Lemma one_eps : (0 <= 1 + eps)%Q.
Proof. pose proof eps_nonneg. lra. Qed.

Lemma secs_q_le d d' : d ≤ d' → (secs_q d <= secs_q d')%Q.
Proof. unfold secs_q, Qle. cbn. lia. Qed.

Lemma secs_q_add d d' : (secs_q (d + d') == secs_q d + secs_q d')%Q.
Proof. unfold secs_q, Qeq. cbn. lia. Qed.

Lemma accrual_add r d d' : (accrual r (d + d') == accrual r d + accrual r d')%Q.
Proof. unfold accrual. rewrite secs_q_add. ring. Qed.

Lemma accrual_le r d d' : rule_wf finite r → d ≤ d' → (accrual r d <= accrual r d')%Q.
Proof.
  intros Hr Hd. unfold accrual. pose proof one_eps as He.
  assert (0 <= val (rate_per_sec r))%Q by (apply val_nonneg; apply Hr).
  rewrite !(Qmult_comm (1 + eps)).
  repeat (apply Qmult_le_compat_r; [|done]). by apply secs_q_le.
Qed.

Lemma accrual_0 r : (accrual r 0 == 0)%Q.
Proof. unfold accrual. assert (secs_q 0 == 0)%Q as -> by done. ring. Qed.

Lemma accrual_nonneg r d : rule_wf finite r → (0 <= accrual r d)%Q.
Proof. intros Hr. rewrite <- (accrual_0 r). apply accrual_le; [done|lia]. Qed.

Lemma slack_parts r :
  rule_wf finite r → finite (burst r) →
  (0 <= eps * val (burst r))%Q ∧ (0 <= (1 + eps) * eta)%Q.
Proof.
  intros Hr Hb. split; apply Qmult_nonneg; try apply eps_nonneg; [|apply one_eps|apply eta_nonneg].
  apply val_nonneg; [done|apply Hr].
Qed.

Lemma credit_forward r key t t' :
  rule_wf finite r → (credit r key t' <= credit r key t + accrual r (since t' t))%Q.
Proof.
  intros Hr. unfold credit. destruct (state r !! key) as [e|].
  - assert (accrual r (since t' (last_refill e)) <=
      accrual r (since t (last_refill e)) + accrual r (since t' t))%Q as Ha.
    { rewrite <- accrual_add. apply accrual_le; [done|]. unfold since. lia. }
    lra.
  - pose proof (accrual_nonneg r (since t' t) Hr). lra.
Qed.

(** A refilled bucket holds no more than was there and has accrued, but for
    the roundings. *)
Lemma refill_le r now e :
  rule_wf finite r → finite (burst r) →
  fle f0 (tokens e) = true → fle (tokens e) (burst r) = true →
  let held := refill r now e in
  finite held ∧ fle f0 held = true ∧ (val held <= val (burst r))%Q ∧
  (val held <= val (tokens e) + accrual r (since now (last_refill e))
               + eps * val (burst r) + (1 + eps) * eta)%Q.
Proof.
  intros Hr Hb Ht Htb held. destruct (refill_bounds finite r now e Hr Ht) as [B1 B2].
  assert (finite held) as Hf by (by apply (finite_le _ (burst r))).
  assert (finite (tokens e)) as Hft by (by apply (finite_le _ (burst r))).
  assert (finite (as_secs_f64 (since now (last_refill e)))) as Hfs by apply as_secs_f64_finite.
  assert (fle held (uncapped r now e) = true) as Hu.
  { unfold held. rewrite (refill_spec finite) by done.
    destruct (fle (uncapped r now e) (burst r)) eqn:E; [by apply fle_refl, (uncapped_nonneg finite)|].
    destruct (fle_total (burst r) (uncapped r now e)); [apply Hr|by apply (uncapped_nonneg finite)|done|congruence]. }
  split_and!; [done..|by apply (val_le (finite := finite))|].
  pose proof (as_secs_f64_nonneg finite (since now (last_refill e))) as Hs.
  pose proof (fadd_upto (tokens e) _ _ Hft Ht
    (fmul_nonneg _ _ Hs Hfs (wf_rate _ _ Hr) (wf_rate_finite _ _ Hr))
    (fmul_upto _ _ Hfs (wf_rate_finite _ _ Hr) Hs (wf_rate _ _ Hr)) held Hf Hu) as Hle.
  pose proof (as_secs_f64_le (since now (last_refill e))) as Hsecs.
  assert (0 <= val (rate_per_sec r))%Q as Hrate by (apply val_nonneg; apply Hr).
  assert (val (tokens e) <= val (burst r))%Q as Hv by (by apply (val_le (finite := finite))).
  pose proof (Qmult_le_compat_r _ _ _ Hsecs Hrate) as Hp.
  pose proof (Qmult_le_compat_r _ _ _ Hp one_eps) as Hp'.
  pose proof (Qmult_le_compat_r _ _ _ Hp' one_eps) as Hp''.
  pose proof (Qmult_le_compat_r _ _ _ Hv eps_nonneg) as Hv'.
  unfold accrual. lra.
Qed.

Definition admits (b : bool) : Q := if b then 1 else 0.

(** One check spends one token or admits nothing. *)
Lemma check_credit r key k now :
  rule_wf finite r → finite (burst r) →
  let '(ok, r') := event key r (Check k now) in
  (admits ok + credit r' key now <= credit r key now + slack r)%Q.
Proof.
  intros Hr Hb. destruct (slack_parts r Hr Hb) as [S1 S2]. cbn [event].
  pose proof (accrual_0 r) as Hz.
  unfold check_key. set (e := match state r !! k with Some e => e | None => _ end).
  assert (fle f0 (tokens e) = true ∧ fle (tokens e) (burst r) = true) as [T1 T2].
  { unfold e. destruct (state r !! k) eqn:E; [by apply (wf_buckets _ _ Hr k)|].
    split; [apply Hr|apply fle_refl, Hr]. }
  destruct (refill_le r now e Hr Hb T1 T2) as (Hf & Hp & Hcap & Hle).
  assert (k = key → val (refill r now e) <= credit r key now + eps * val (burst r) + (1 + eps) * eta)%Q
    as Hheld.
  { intros <-. unfold credit, e in *. destruct (state r !! k); lra. }
  destruct (fle f1 (refill r now e)) eqn:E; cbn;
    (destruct (decide (k = key)) as [->|Hk];
      [rewrite ?bool_decide_true by done|rewrite ?bool_decide_false by done]);
    unfold credit at 1, accrual; cbn [state set_state rate_per_sec burst];
    rewrite ?lookup_insert_eq, ?lookup_insert_ne by done; cbn [tokens last_refill];
    fold (accrual r); unfold admits, slack.
  - pose proof (fsub_1_le _ Hf E) as Hs. specialize (Hheld eq_refl).
    pose proof (Qmult_le_compat_r _ _ _ Hcap eps_nonneg) as Hc. pose proof eps_nonneg.
    unfold since. rewrite N.sub_diag. unfold accrual in Hz. lra.
  - fold (accrual r). unfold credit, accrual. destruct (state r !! key); lra.
  - specialize (Hheld eq_refl). unfold since. rewrite N.sub_diag. unfold accrual in Hz. lra.
  - unfold credit, accrual. destruct (state r !! key); lra.
Qed.

(** A sweep forgets only buckets that are full again. *)
Lemma sweep_credit r key idle now :
  rule_wf finite r → finite (burst r) →
  (credit (evict_idle_at r idle now).2 key now <= credit r key now + slack r)%Q.
Proof.
  intros Hr Hb. destruct (slack_parts r Hr Hb) as [S1 S2]. unfold slack.
  unfold credit at 1. cbn [evict_idle_at snd state set_state].
  change (accrual (set_state r _)) with (accrual r).
  rewrite map_lookup_filter. unfold credit.
  destruct (state r !! key) as [e|] eqn:E; cbn; [|lra].
  destruct (wf_buckets _ _ Hr key e E) as [T1 T2].
  destruct (refill_le r now e Hr Hb T1 T2) as (Hf & Hp & Hcap & Hle).
  unfold guard. case_decide as Hk; cbn; [lra|].
  unfold keep_bucket in Hk. destruct (_ <? idle); [done|].
  unfold flt in Hk. apply not_true_is_false, negb_false_iff in Hk.
  pose proof (val_le _ _ Hb Hf Hk). lra.
Qed.

Lemma event_rule key r ev :
  rule_wf finite r →
  let r' := (event key r ev).2 in
  rule_wf finite r' ∧ burst r' = burst r ∧ rate_per_sec r' = rate_per_sec r.
Proof.
  intros Hr. destruct ev as [k now|idle now]; cbn.
  - pose proof (check_key_wf finite r k now Hr) as Hk. revert Hk.
    unfold check_key. by destruct (fle f1 _).
  - split; [|done]. split; cbn; try apply Hr.
    intros k e [Hk _]%map_lookup_filter_Some. by apply (wf_buckets _ _ Hr k).
Qed.

Lemma event_credit r key t ev :
  rule_wf finite r → finite (burst r) →
  let '(ok, r') := event key r ev in
  (admits ok + credit r' key (event_time ev)
   <= credit r key t + accrual r (since (event_time ev) t) + slack r)%Q.
Proof.
  intros Hr Hb. pose proof (credit_forward r key t (event_time ev) Hr) as Hf.
  destruct ev as [k now|idle now]; cbn [event_time] in *.
  - pose proof (check_credit r key k now Hr Hb) as Hc. destruct (event key r _). lra.
  - pose proof (sweep_credit r key idle now Hr Hb) as Hc. cbn [event admits]. unfold admits. lra.
Qed.

Lemma of_nat_add n m : (of_nat (n + m) == of_nat n + of_nat m)%Q.
Proof. unfold of_nat. rewrite Nat2Z.inj_add, inject_Z_plus. done. Qed.

Lemma admitted_credit key r t evs :
  rule_wf finite r → finite (burst r) →
  (of_nat (admitted key r evs)
   <= credit r key t + accrual r (advanced t evs) + of_nat (length evs) * slack r)%Q.
Proof.
  revert r t. induction evs as [|ev evs IH]; intros r t Hr Hb; cbn [admitted advanced length].
  - rewrite accrual_0. change (of_nat 0) with 0%Q. unfold credit.
    assert (0 <= val (burst r))%Q by (apply val_nonneg; [done|apply Hr]).
    destruct (state r !! key) as [e|] eqn:E; [|lra].
    destruct (wf_buckets _ _ Hr key e E) as [T1 T2].
    pose proof (accrual_nonneg r (since t (last_refill e)) Hr).
    pose proof (val_nonneg (tokens e) (finite_le _ _ T1 T2 Hb) T1). lra.
  - pose proof (event_credit r key t ev Hr Hb) as He.
    destruct (event_rule key r ev Hr) as (Hr' & Hb' & Hrate').
    destruct (event key r ev) as [ok r']. cbn [snd] in *.
    specialize (IH r' (event_time ev) Hr'). rewrite Hb' in IH. specialize (IH Hb).
    assert (accrual r' (advanced (event_time ev) evs) == accrual r (advanced (event_time ev) evs))%Q
      as Ha by (unfold accrual; by rewrite Hrate').
    assert (slack r' == slack r)%Q as Hsl by (unfold slack; by rewrite Hb').
    rewrite Ha, Hsl in IH. rewrite of_nat_add, accrual_add.
    change (S (length evs)) with (1 + length evs)%nat. rewrite of_nat_add.
    assert (of_nat (if ok then 1 else 0) == admits ok)%Q as -> by (by destruct ok).
    change (of_nat 1) with 1%Q. lra.
Qed.

(** C27: the limiter enforces its rate: whatever checks of whatever keys and
    whatever sweeps reach a rule in whatever order, the requests of a new key
    admitted are at most the burst, the rate times the forward movement of
    the clock readings, and what the roundings of each event add: a few parts
    in 2^53 of the burst and of the rate. *)
Theorem admitted_rate r key t evs :
  rule_wf finite r → finite (burst r) → state r !! key = None →
  (of_nat (admitted key r evs)
   <= val (burst r)
      + (1 + eps) ^ 4 * (secs_q (advanced t evs) * val (rate_per_sec r))
      + of_nat (length evs) * (2 * eps * val (burst r) + (1 + eps) * eta))%Q.
Proof.
  intros Hr Hb Hn. pose proof (admitted_credit key r t evs Hr Hb) as H'.
  unfold credit, accrual, slack in H'. rewrite Hn in H'. eapply Qle_trans; [exact H'|].
  apply Qle_lteq. right. ring.
Qed.

(** Readings in order move forward by the time that elapses. *)
Fixpoint in_order (t : Instant) (evs : list Event) : Prop :=
  match evs with [] => True | ev :: evs' => t ≤ event_time ev ∧ in_order (event_time ev) evs' end.

Fixpoint final (t : Instant) (evs : list Event) : Instant :=
  match evs with [] => t | ev :: evs' => final (event_time ev) evs' end.

Lemma advanced_in_order t evs :
  in_order t evs → t ≤ final t evs ∧ advanced t evs = since (final t evs) t.
Proof.
  revert t. induction evs as [|ev evs IH]; intros t; cbn.
  - unfold since. lia.
  - intros [Ht Ho]. destruct (IH _ Ho) as [Hf ->]. unfold since. lia.
Qed.

End rate.

(** * Exact arithmetic *)

Definition secs_of (d : Duration) : Qc := Q2Qc (Z.of_N d # 1000000000).

#[local] Instance exact_f64 : F64 := {|
  f64 := Qc;
  f0 := 0%Qc;
  f1 := 1%Qc;
  fadd := Qcplus;
  fsub := Qcminus;
  fmul := Qcmult;
  fdiv := Qcdiv;
  fle x y := bool_decide (x ≤ y)%Qc;
  fmin x y := if decide (x ≤ y)%Qc then x else y;
  fmax x y := if decide (x ≤ y)%Qc then y else x;
  fceil_u32 x := Z.to_N (Z.min (Qceiling x) (Z.of_N u32_max));
  as_secs_f64 := secs_of;
|}.

(** Comparisons of canonical rationals, as linear arithmetic on rationals. *)
Ltac qc :=
  unfold Qcle, Qclt, secs_of in *;
  cbn [this Q2Qc Qcplus Qcminus Qcopp Qcmult] in *;
  rewrite ?Qred_correct in *; try (unfold Qeq, Qle in *; cbn in *; lia); try lra.

Lemma exact_laws : F64Laws (λ _, True).
Proof.
  split; cbn; intros; rewrite ?bool_decide_eq_true in *.
  - qc.
  - by etrans.
  - destruct (Qclt_le_dec x y) as [Hlt|Hle]; [left; by apply Qclt_le_weak|by right].
  - by apply Qcle_antisym.
  - qc.
  - qc.
  - qc.
  - ring.
  - rewrite <- (Qcmult_0_l r). by apply Qcmult_le_compat_r.
  - by apply Qcmult_le_compat_r.
  - ring.
  - split; qc.
  - by case_decide; case_bool_decide.
  - by apply Qc_is_canon.
  - qc.
  - done.
Qed.

(** The exact arithmetic errs by nothing. *)
Lemma exact_rounding : F64Rounding (λ _, True) this 0 0.
Proof.
  split; unfold upto; cbn; intros; rewrite ?bool_decide_eq_true in *; try done.
  - assert (y <= w)%Q as Hy by (apply H2; [done|]; apply bool_decide_eq_true, Qcle_refl).
    unfold Qcle in *. cbn in *. rewrite Qred_correct in *. lra.
  - unfold Qcle in *. cbn in *. rewrite Qred_correct in *. lra.
  - rewrite !Qred_correct. lra.
  - rewrite Qred_correct. unfold secs_q. lra.
Qed.

(** * Examples *)

Definition demo_rule : RateLimitRule :=
  new_rule "loc-0-rl-0" (Q2Qc 2) (Q2Qc 3) KClientIp.

Lemma demo_rule_wf : rule_wf (λ _, True) demo_rule.
Proof. split; cbn; done. Qed.

Definition demo_events : list Event :=
  [Check "192.0.2.1" 0; Check "192.0.2.2" 0; Check "192.0.2.1" 0; Sweep 0 0;
   Check "192.0.2.1" 0; Check "192.0.2.1" 0; Check "192.0.2.1" (from_secs 1)].

Example demo_admits : admitted "192.0.2.1" demo_rule demo_events = 4%nat.
Proof. vm_compute. reflexivity. Qed.

Lemma admitted_rate_witness :
  (of_nat 4 <= 3 + (1 + 0) ^ 4 * (secs_q (from_secs 1) * 2)
               + of_nat 7 * (2 * 0 * 3 + (1 + 0) * 0))%Q.
Proof.
  apply (admitted_rate (λ _, True) (F64Laws0 := exact_laws) this 0 0 (F64Rounding0 := exact_rounding)
    demo_rule "192.0.2.1" 0 demo_events demo_rule_wf I eq_refl).
Defined.

(** [check] reads the clock before it takes the lock, and [check_at] lets
    [last_refill] move back to an older reading: when threads take the lock
    out of the order of their readings, the same second is credited more than
    once.  Here the readings span ten seconds of a rule of one request a
    second with a burst of ten: thirty requests are admitted, not twenty. *)
Definition slow_rule : RateLimitRule := new_rule "loc-0-rl-0" (Q2Qc 1) (Q2Qc 10) KClientIp.

Definition late : list Event := repeat (Check "192.0.2.1" (from_secs 10)) 10.

Definition early : Event := Check "192.0.2.1" 0.

Lemma late_readings_credit_again :
  admitted "192.0.2.1" slow_rule (late ++ early :: late ++ early :: late) = 30%nat ∧
  admitted "192.0.2.1" slow_rule (early :: early :: late ++ late ++ late) = 12%nat.
Proof. vm_compute. done. Qed.

Lemma eviction_unobservable_witness :
  let r := (check_key demo_rule "192.0.2.1" 0).2 in
  let swept := (evict_idle_at r 1 (from_secs 600)).2 in
  (check_key swept "192.0.2.1" (from_secs 601)).1 = (check_key r "192.0.2.1" (from_secs 601)).1 ∧
  state (check_key swept "192.0.2.1" (from_secs 601)).2 !! "192.0.2.1" =
  state (check_key r "192.0.2.1" (from_secs 601)).2 !! "192.0.2.1".
Proof.
  apply (eviction_unobservable (λ _, True) (F64Laws0 := exact_laws)
    (check_key demo_rule "192.0.2.1" 0).2 1 (from_secs 600) "192.0.2.1" (from_secs 601)).
  - apply (check_key_wf (λ _, True) (F64Laws0 := exact_laws)). exact demo_rule_wf.
  - vm_compute. discriminate.
Defined.

Lemma bucket_bounds_witness :
  rule_wf (λ _, True) (check_key demo_rule "192.0.2.1" 0).2 ∧
  rule_wf (λ _, True) (evict_idle_at demo_rule 1 0).2.
Proof.
  apply (bucket_bounds (λ _, True) (F64Laws0 := exact_laws) demo_rule "192.0.2.1" 0 1).
  exact demo_rule_wf.
Defined.

End RateLimit.
