(* ===== verification/Matcher.v ===== *)
(** Request matchers of a location ([src/matcher.rs]) and their compilation
    from the configuration ([src/router.rs], [compile_predicates]). *)
From S2P Require Import Prelude RustStr Http Template.

Module Matcher.

Section matcher.
Context `{Http} `{Regex}.

(** What routing reads of a request. *)
Record Request := {
  rq_method : string;
  rq_path : string;
  rq_query : option string;
  rq_headers : header_map;
}.

Inductive HeaderMatch :=
  | Exact (want : string)
  | ReMatch (re : regex).

Inductive MatchPredicate :=
  | MMethod (methods : list string)
  | MHeader (name : HeaderName) (values : list HeaderMatch)
  | MHeaderAbsent (name : HeaderName)
  | MQuery (name : string) (values : list string)
  | MPath (patterns : list regex)
  | MNot (inner : list MatchPredicate).

(** The loop over the pairs of a query string: the first pair with the name
    decides. *)
Fixpoint query_matches (name : string) (values : list string) (pairs : list string) : bool :=
  match pairs with
  | [] => false
  | kv :: pairs' =>
      let parts := splitn 2 "=" kv in
      let k := default "" (parts !! 0%nat) in
      let v := default "" (parts !! 1%nat) in
      if String.eqb k name then existsb (λ w, String.eqb w v) values
      else query_matches name values pairs'
  end.

Fixpoint predicate_matches (p : MatchPredicate) (req : Request) : bool :=
  match p with
  | MMethod methods => existsb (λ m, String.eqb m (rq_method req)) methods
  | MHeader name values =>
      match hm_get (rq_headers req) name with
      | Some v =>
          match hv_to_str v with
          | Some s => existsb (λ m, match m with
                                    | Exact want => String.eqb want s
                                    | ReMatch re => regex_is_match re s
                                    end) values
          | None => false
          end
      | None => false
      end
  | MHeaderAbsent name => negb (hm_contains_key (rq_headers req) name)
  | MQuery name values =>
      match rq_query req with
      | Some q => query_matches name values (split "&" q)
      | None => false
      end
  | MPath patterns => existsb (λ re, regex_is_match re (rq_path req)) patterns
  | MNot inner =>
      negb ((fix all (ps : list MatchPredicate) : bool :=
               match ps with
               | [] => true
               | p :: ps' => predicate_matches p req && all ps'
               end) inner)
  end.

(** [Matcher::matches]. *)
Definition matches (m : list MatchPredicate) (req : Request) : bool :=
  forallb (λ p, predicate_matches p req) m.

(** * Compilation *)

Inductive MatchPredicateConfig :=
  | CMethod (methods : list string)
  | CHeader (name : string) (values : list string)
  | CHeaderAbsent (name : string)
  | CQuery (name : string) (values : list string)
  | CPath (patterns : list string)
  | CNot (inner : list MatchPredicateConfig).

(** [Method::from_bytes] of the [http] crate is the parameter. *)
Context (method_from_bytes : string → option string).

Definition compile_header_value (v : string) : Result HeaderMatch :=
  match strip_prefix "~" v with
  | Some re => re ← ok_or (regex_new re) "matcher invalid regex"; Ok (ReMatch re)
  | None => Ok (Exact v)
  end.

Fixpoint compile_predicate (c : MatchPredicateConfig) : Result MatchPredicate :=
  match c with
  | CMethod methods =>
      parsed ← try_map (λ m, ok_or (method_from_bytes m) "matcher invalid method") methods;
      Ok (MMethod parsed)
  | CHeader name values =>
      h ← ok_or (hn_from_bytes name) "matcher invalid header name";
      compiled ← try_map compile_header_value values;
      Ok (MHeader h compiled)
  | CHeaderAbsent name =>
      h ← ok_or (hn_from_bytes name) "matcher invalid header name";
      Ok (MHeaderAbsent h)
  | CQuery name values => Ok (MQuery name values)
  | CPath patterns =>
      compiled ← try_map (λ p, ok_or (regex_new p) "matcher invalid path regex") patterns;
      Ok (MPath compiled)
  | CNot inner =>
      compiled ← (fix all (cs : list MatchPredicateConfig) : Result (list MatchPredicate) :=
                    match cs with
                    | [] => Ok []
                    | c :: cs' => p ← compile_predicate c; ps ← all cs'; Ok (p :: ps)
                    end) inner;
      Ok (MNot compiled)
  end.

Definition compile_predicates (cs : list MatchPredicateConfig) : Result (list MatchPredicate) :=
  try_map compile_predicate cs.

(** * Lemmas *)

Lemma matches_not inner req : predicate_matches (MNot inner) req = negb (matches inner req).
Proof. reflexivity. Qed.

(** A query predicate looks at the first parameter of its name only. *)
Lemma query_matches_first name values pairs :
  query_matches name values pairs = true ↔
  ∃ pre kv post, pairs = pre ++ kv :: post ∧
    Forall (λ q, default "" (splitn 2 "=" q !! 0%nat) ≠ name) pre ∧
    default "" (splitn 2 "=" kv !! 0%nat) = name ∧
    default "" (splitn 2 "=" kv !! 1%nat) ∈ values.
Proof.
  induction pairs as [|p pairs IH]; cbn [query_matches].
  { split; [done|]. intros ([|] & ? & ? & [=] & _). }
  destruct (String.eqb_spec (default "" (splitn 2 "=" p !! 0%nat)) name) as [E|E].
  - rewrite existsb_exists. split.
    + intros (w & Hin & ->%String.eqb_eq). exists [], p, pairs. split_and!; try done.
      by apply list_elem_of_In.
    + intros ([|q pre] & kv & post & [= <- Hp] & Hpre & Hn & Hv).
      * eexists. split; [by apply list_elem_of_In|by apply String.eqb_eq].
      * apply Forall_cons in Hpre as [Hq _]. done.
  - rewrite IH. split.
    + intros (pre & kv & post & -> & Hpre & Hn & Hv). exists (p :: pre), kv, post.
      split; [done|]. split; [by constructor|done].
    + intros ([|q pre] & kv & post & [= <- Hp] & Hpre & Hn & Hv); [done|].
      apply Forall_cons in Hpre as [_ Hpre]. eauto 10.
Qed.

End matcher.
End Matcher.
