(* ===== verification/Router.v ===== *)
(** Routing ([src/router.rs]): the virtual-host tables of the listeners, the
    choice of a location, rewrites, and the inlining of named policies.

    Handlers, metrics labels and the other per-location attachments are
    carried by the route unchanged; they are one abstract payload here.  The
    [http] crate's parsing of a path-and-query and assembly of a URI are
    parameters. *)
From stdpp Require Import sorting.
From S2P Require Import Prelude RustStr Net Http Template Auth Access Matcher.

Module Router.
Import Matcher.

(** * Hosts *)

(** [host.find(']')], as the text up to and including it. *)
Fixpoint upto (c : ascii) (s : string) : option string :=
  match s with
  | "" => None
  | String x s' => if Ascii.eqb x c then Some (String x "")
                   else r ← upto c s'; Some (String x r)
  end.

Definition strip_port (host : string) : string :=
  match (if starts_with "[" host then upto "]" host else None) with
  | Some h => h
  | None => default host (head (split ":" host))
  end.

Section router.
Context `{Http} `{Regex} {payload : Type}.

(** * Tables *)

Record Rewrite := {
  rw_from : regex;
  rw_to : string;
}.

Record Location := {
  loc_path : string;
  loc_matcher : option (list MatchPredicate);
  loc_rewrite : option Rewrite;
  loc_payload : payload;
}.

Record VHost := {
  vh_name : string;
  vh_locations : list Location;
}.

Record VhostTable := {
  literals : gmap string VHost;
  patterns : list (regex * VHost);
  table_default : option VHost;
}.

Definition empty_table : VhostTable :=
  {| literals := ∅; patterns := []; table_default := None |}.

Record HostName := {
  hn_value : string;
  hn_regex : bool;
}.

Record VHostConfig := {
  vc_name : HostName;
  vc_aliases : list HostName;
  vc_handle : string;
  vc_explicit_only : bool;
}.

Record ListenerConfig := {
  lc_vhosts : list string;
  lc_reject_unknown_host : bool;
}.

(** The vhosts of a listener: its references, or every vhost that is not
    explicit-only, in declaration order. *)
Definition listener_indices (vhosts : list VHostConfig) (by_handle : gmap string nat)
    (l : ListenerConfig) : list nat :=
  if decide (lc_vhosts l = []) then
    omap (λ '(i, v), if vc_explicit_only v then None else Some i) (imap pair vhosts)
  else omap (λ h, by_handle !! h) (lc_vhosts l).

(** One name of a vhost entered into a table; the pattern was validated at
    load, so a regex that does not compile is a panic. *)
Definition add_name (vhost : VHost) (t : VhostTable) (n : HostName) : option VhostTable :=
  if hn_regex n then
    re ← regex_new ("^(?:" +:+ hn_value n +:+ ")$");
    Some {| literals := literals t; patterns := patterns t ++ [(re, vhost)];
            table_default := table_default t |}
  else Some {| literals := <[hn_value n := vhost]> (literals t); patterns := patterns t;
               table_default := table_default t |}.

Fixpoint add_names (vhost : VHost) (ns : list HostName) (t : VhostTable) : option VhostTable :=
  match ns with
  | [] => Some t
  | n :: ns' => t' ← add_name vhost t n; add_names vhost ns' t'
  end.

Fixpoint add_vhosts (vhosts : list VHostConfig) (built : list VHost) (ixs : list nat)
    (t : VhostTable) : option VhostTable :=
  match ixs with
  | [] => Some t
  | i :: ixs' =>
      vcfg ← vhosts !! i;
      vhost ← built !! i;
      t' ← add_names vhost (vc_name vcfg :: vc_aliases vcfg) t;
      add_vhosts vhosts built ixs' t'
  end.

(** The table of one listener. *)
Definition build_table (vhosts : list VHostConfig) (built : list VHost)
    (by_handle : gmap string nat) (l : ListenerConfig) : option VhostTable :=
  let ixs := listener_indices vhosts by_handle l in
  t ← add_vhosts vhosts built ixs empty_table;
  Some {| literals := literals t; patterns := patterns t;
          table_default := if lc_reject_unknown_host l then None
                           else (i ← head ixs; built !! i) |}.

(** * Resolution *)

Fixpoint first_pattern (ps : list (regex * VHost)) (host : string) : option VHost :=
  match ps with
  | [] => None
  | (re, v) :: ps' => if regex_is_match re host then Some v else first_pattern ps' host
  end.

(** The table of the listener, or the only one there is. *)
Definition find_table (tables : gmap string VhostTable) (bind : string) : option VhostTable :=
  match tables !! bind with
  | Some t => Some t
  | None => match map_to_list tables with
            | [(_, t)] => Some t
            | _ => None
            end
  end.

Definition resolve_vhost (tables : gmap string VhostTable) (host : option string) (bind : string)
    : option VHost :=
  table ← find_table tables bind;
  match host with
  | Some host =>
      match literals table !! host with
      | Some v => Some v
      | None => match first_pattern (patterns table) host with
                | Some v => Some v
                | None => table_default table
                end
      end
  | None => table_default table
  end.

(** * Locations *)

(** The order of candidates: longer prefix first, then declaration order. *)
Definition before (a b : nat * Location) : Prop :=
  (String.length (loc_path b.2) < String.length (loc_path a.2))%nat ∨
  String.length (loc_path a.2) = String.length (loc_path b.2) ∧ (a.1 ≤ b.1)%nat.

#[global] Instance before_dec a b : Decision (before a b).
Proof. unfold before. apply _. Defined.

Definition candidates (v : VHost) (path : string) : list (nat * Location) :=
  filter (λ c, starts_with (loc_path c.2) path = true) (imap pair (vh_locations v)).

Definition accepts (loc : Location) (req : Request) : bool :=
  match loc_matcher loc with Some m => matches m req | None => true end.

Fixpoint first_accepting (cs : list (nat * Location)) (req : Request) : option (nat * Location) :=
  match cs with
  | [] => None
  | c :: cs' => if accepts c.2 req then Some c else first_accepting cs' req
  end.

Definition pick_location (v : VHost) (req : Request) : option (nat * Location) :=
  first_accepting (merge_sort before (candidates v (rq_path req))) req.

(** * Rewrites *)

Context (parse_pq : string → option (string * option string)).
Context (from_parts : Request → string * option string → bool).

(** [apply_rewrite]: the request with its new URI, or [None] for no rewrite. *)
Definition apply_rewrite (req : Request) (rw : Rewrite) : option Request :=
  let path := rq_path req in
  if negb (regex_is_match (rw_from rw) path) then None
  else
    let replaced := regex_replace (rw_from rw) path (rw_to rw) in
    let '(new_path, new_query) := match split_once "?" replaced with
                                  | Some (p, q) => (p, Some q)
                                  | None => (replaced, None)
                                  end in
    let new_path := if is_empty new_path then "/" else new_path in
    let new_pq := match new_query with Some q => new_path +:+ "?" +:+ q | None => new_path end in
    pq ← parse_pq new_pq;
    if from_parts req pq
    then Some {| rq_method := rq_method req; rq_path := pq.1; rq_query := pq.2;
                 rq_headers := rq_headers req |}
    else None.

Definition MAX_REWRITES : nat := 10.

(** The rewrite loop: the request as finally routed, and its location. *)
Fixpoint route_loop (n : nat) (v : VHost) (req : Request) : option (Request * Location) :=
  match n with
  | O => None
  | S n' =>
      '(_, loc) ← pick_location v req;
      match loc_rewrite loc ≫= apply_rewrite req with
      | Some req' => route_loop n' v req'
      | None => Some (req, loc)
      end
  end.

(** [route]: the vhost is that of the [Host] header, ports stripped. *)
Definition route (tables : gmap string VhostTable) (bind : string) (req : Request)
    : option (VHost * Request * Location) :=
  let host := strip_port <$> get_str (rq_headers req) HOST in
  v ← resolve_vhost tables host bind;
  '(req', loc) ← route_loop MAX_REWRITES v req;
  Some (v, req', loc).

(** * Lemmas *)

#[global] Instance before_total : Total before.
Proof. intros [i a] [j b]. unfold before. cbn. lia. Qed.

#[global] Instance before_trans : Transitive before.
Proof. intros [i a] [j b] [k c]. unfold before. cbn. lia. Qed.

Lemma first_accepting_spec cs req c :
  StronglySorted before cs → first_accepting cs req = Some c →
  c ∈ cs ∧ accepts c.2 req = true ∧ ∀ d, d ∈ cs → accepts d.2 req = true → before c d.
Proof.
  induction 1 as [|x cs Hss IH Hall]; [done|]. cbn.
  destruct (accepts x.2 req) eqn:E.
  - intros [= <-]. split; [by left|]. split; [done|].
    intros d [->|Hd]%elem_of_cons Ha; [unfold before; lia|].
    rewrite Forall_forall in Hall. by apply Hall.
  - intros Hf. destruct (IH Hf) as (Hin & Ha & Hb). split; [by right|]. split; [done|].
    intros d [->|Hd]%elem_of_cons Hd'; [congruence|by apply Hb].
Qed.

Lemma first_accepting_None cs req :
  first_accepting cs req = None ↔ ∀ d, d ∈ cs → accepts d.2 req = false.
Proof.
  induction cs as [|x cs IH]; cbn.
  - split; [|done]. intros _ d Hd. by apply elem_of_nil in Hd.
  - destruct (accepts x.2 req) eqn:E.
    + split; [done|]. intros Ha. specialize (Ha x). rewrite E in Ha. discriminate Ha. by left.
    + rewrite IH. split.
      * intros Ha d [->|Hd]%elem_of_cons; [done|by apply Ha].
      * intros Ha d Hd. apply Ha. by right.
Qed.

Lemma candidates_spec v path i loc :
  (i, loc) ∈ candidates v path ↔
  vh_locations v !! i = Some loc ∧ ∃ rest, path = loc_path loc +:+ rest.
Proof.
  unfold candidates. rewrite list_elem_of_filter. cbn. rewrite starts_with_true.
  rewrite list_elem_of_lookup. setoid_rewrite list_lookup_imap_Some. naive_solver.
Qed.

Lemma pick_location_Some v req i loc :
  pick_location v req = Some (i, loc) →
  vh_locations v !! i = Some loc ∧ (∃ rest, rq_path req = loc_path loc +:+ rest) ∧
  accepts loc req = true ∧
  ∀ j other, vh_locations v !! j = Some other → (∃ rest, rq_path req = loc_path other +:+ rest) →
    accepts other req = true → before (i, loc) (j, other).
Proof.
  intros Hp. apply first_accepting_spec in Hp as (Hin & Ha & Hb);
    [|apply StronglySorted_merge_sort; apply _].
  rewrite merge_sort_Permutation in Hin. apply candidates_spec in Hin as [Hi Hpre].
  split_and!; try done. intros j other Hj Hpre' Ha'. apply (Hb (j, other)); [|done].
  rewrite merge_sort_Permutation. by apply candidates_spec.
Qed.

Lemma pick_location_None v req :
  pick_location v req = None ↔
  ∀ j other, vh_locations v !! j = Some other → (∃ rest, rq_path req = loc_path other +:+ rest) →
    accepts other req = false.
Proof.
  unfold pick_location. rewrite first_accepting_None. setoid_rewrite merge_sort_Permutation.
  split.
  - intros Hn j other Hj Hp. apply (Hn (j, other)). by apply candidates_spec.
  - intros Hn [j other] [Hj Hp]%candidates_spec. by eapply Hn.
Qed.

(** The requests reached from [req] by [k] rewrites. *)
Inductive rewrites (v : VHost) : nat → Request → Request → Prop :=
  | rewrites_done req : rewrites v 0 req req
  | rewrites_step k req req' req'' i loc rw :
      pick_location v req = Some (i, loc) → loc_rewrite loc = Some rw →
      apply_rewrite req rw = Some req' → rewrites v k req' req'' →
      rewrites v (S k) req req''.

(** A location on which the request settles: picked, and not rewritten. *)
Definition settles (v : VHost) (req : Request) (loc : Location) : Prop :=
  ∃ i, pick_location v req = Some (i, loc) ∧ loc_rewrite loc ≫= apply_rewrite req = None.

Lemma route_loop_iff n v req req' loc :
  route_loop n v req = Some (req', loc) ↔
  ∃ k, (k < n)%nat ∧ rewrites v k req req' ∧ settles v req' loc.
Proof.
  revert req. induction n as [|n IH]; intros req; cbn [route_loop].
  { split; [done|]. intros (k & Hk & _). lia. }
  destruct (pick_location v req) as [[i l]|] eqn:Ep; cbn [mbind option_bind].
  2:{ split; [done|]. intros (k & _ & Hr & i & Hs & _). inversion Hr; congruence. }
  destruct (loc_rewrite l ≫= apply_rewrite req) as [r1|] eqn:Er.
  - rewrite IH. split.
    + intros (k & Hk & Hr & Hs). exists (S k). split; [lia|]. split; [|done].
      destruct (loc_rewrite l) as [rw|] eqn:Erw; [|done]. by eapply rewrites_step.
    + intros (k & Hk & Hr & Hs). inversion Hr as [|k' ? r2 ? i' l' rw Hp Hrw Ha Hrest]; subst.
      * destruct Hs as (i' & Hp & Hn). rewrite Ep in Hp. injection Hp as <- <-. congruence.
      * rewrite Ep in Hp. injection Hp as <- <-. rewrite Hrw in Er. cbn in Er.
        rewrite Ha in Er. injection Er as ->. exists k'. split; [lia|done].
  - split.
    + intros [= <- <-]. exists 0%nat. split; [lia|]. split; [constructor|]. by exists i.
    + intros (k & Hk & Hr & Hs). inversion Hr as [|k' ? r2 ? i' l' rw Hp Hrw Ha Hrest]; subst.
      * destruct Hs as (i' & Hp & _). rewrite Ep in Hp. by injection Hp as <- <-.
      * rewrite Ep in Hp. injection Hp as <- <-. rewrite Hrw in Er. cbn in Er. congruence.
Qed.

(** * Properties *)

(** C6: the location picked is a declared one whose path is a prefix of the
    request path and whose matcher accepts the request, and no other such
    location has a longer path or, at the same length, an earlier
    declaration; none is picked exactly when no location qualifies. *)
Theorem pick_location_spec v req :
  match pick_location v req with
  | Some (i, loc) =>
      vh_locations v !! i = Some loc ∧ (∃ rest, rq_path req = loc_path loc +:+ rest) ∧
      accepts loc req = true ∧
      ∀ j other, vh_locations v !! j = Some other →
        (∃ rest, rq_path req = loc_path other +:+ rest) → accepts other req = true →
        (String.length (loc_path other) < String.length (loc_path loc))%nat ∨
        String.length (loc_path other) = String.length (loc_path loc) ∧ (i ≤ j)%nat
  | None =>
      ∀ j other, vh_locations v !! j = Some other →
        (∃ rest, rq_path req = loc_path other +:+ rest) → accepts other req = false
  end.
Proof.
  destruct (pick_location v req) as [[i loc]|] eqn:E; [|by apply pick_location_None].
  apply pick_location_Some in E as (Hi & Hp & Ha & Hb). split_and!; try done.
  intros j other Hj Hp' Ha'. destruct (Hb j other Hj Hp' Ha') as [?|[??]]; cbn in *; [by left|].
  right. split; [by symmetry|done].
Qed.

(** C7: routing answers with a location exactly when the vhost of the
    request's own [Host] exists and fewer than [MAX_REWRITES] successive
    rewrites lead to a request on which a location settles; the result is
    that request and that location.  A rewrite cycle is therefore no route,
    and a rewrite can never move a request to another vhost. *)
Theorem route_spec tables bind req v req' loc :
  route tables bind req = Some (v, req', loc) ↔
  resolve_vhost tables (strip_port <$> get_str (rq_headers req) HOST) bind = Some v ∧
  ∃ k, (k < MAX_REWRITES)%nat ∧ rewrites v k req req' ∧ settles v req' loc.
Proof.
  unfold route. destruct (resolve_vhost tables _ bind) as [w|]; cbn [mbind option_bind].
  2:{ split; [done|]. by intros [? _]. }
  destruct (route_loop MAX_REWRITES w req) as [[r l]|] eqn:E; cbn [mbind option_bind].
  - split.
    + intros [= <- <- <-]. split; [done|]. by apply route_loop_iff.
    + intros [[= <-] Hk]. apply route_loop_iff in Hk. rewrite E in Hk. by injection Hk as -> ->.
  - split; [done|]. intros [[= <-] Hk]. apply route_loop_iff in Hk. congruence.
Qed.

End router.

(** * Named policies *)

Section policies.
Context `{IpNets} `{Http}.
Import Access.

Inductive PolicyRuleDef :=
  | DRule (predicate : option Predicate) (action : PolicyAction)
  | DApply (name : string).

Abbreviation defs := (gmap string (list PolicyRuleDef)) (only parsing).
Abbreviation inlined := (gmap string (list PolicyRule)) (only parsing).

(** [resolve_rule_defs]; [rec] resolves a name.  The chain of names being
    visited is only extended around a recursive call, so it is an argument. *)
Fixpoint resolve_rule_defs (rec : string → inlined → option (Result (list PolicyRule * inlined)))
    (ds : list PolicyRuleDef) (resolved : inlined) : option (Result (list PolicyRule * inlined)) :=
  match ds with
  | [] => Some (Ok ([], resolved))
  | DRule p a :: ds' =>
      r ← resolve_rule_defs rec ds' resolved;
      Some (match r with
            | Ok (rules, resolved) =>
                Ok ({| rule_predicate := p; rule_action := a |} :: rules, resolved)
            | Err e => Err e
            end)
  | DApply name :: ds' =>
      r ← rec name resolved;
      match r with
      | Err e => Some (Err e)
      | Ok (rules, resolved) =>
          r' ← resolve_rule_defs rec ds' resolved;
          Some (match r' with
                | Ok (rules', resolved) => Ok (rules ++ rules', resolved)
                | Err e => Err e
                end)
      end
  end.

(** [resolve_one]; [None] is exhausted fuel. *)
Fixpoint resolve_one (fuel : nat) (raw : defs) (visiting : list string) (name : string)
    (resolved : inlined) : option (Result (list PolicyRule * inlined)) :=
  match fuel with
  | O => None
  | S fuel' =>
      match resolved !! name with
      | Some rules => Some (Ok (rules, resolved))
      | None =>
          if bool_decide (name ∈ visiting) then Some (Err "circular reference in policy")
          else match raw !! name with
               | None => Some (Err "undefined policy")
               | Some rule_defs =>
                   r ← resolve_rule_defs (resolve_one fuel' raw (visiting ++ [name]))
                         rule_defs resolved;
                   Some (match r with
                         | Ok (rules, resolved) => Ok (rules, <[name := rules]> resolved)
                         | Err e => Err e
                         end)
               end
      end
  end.

(** [resolve_named_policies], the keys taken in the order of [names]. *)
Fixpoint resolve_names (raw : defs) (names : list string) (resolved : inlined)
    : option (Result inlined) :=
  match names with
  | [] => Some (Ok resolved)
  | name :: names' =>
      r ← resolve_one (S (size raw)) raw [] name resolved;
      match r with
      | Ok (_, resolved) => resolve_names raw names' resolved
      | Err e => Some (Err e)
      end
  end.

Definition check_tcp_predicate (p : option Predicate) (tcp_only : bool) : Result () :=
  if negb tcp_only then Ok ()
  else if match p with Some p => needs_auth p | None => false end
  then Err "policy used in a stream listener contains identity predicates"
  else Ok ().

Definition check_tcp_block_rules (rules : list PolicyRule) : Result () :=
  if existsb rule_needs_auth rules
  then Err "policy contains identity predicates and cannot be used in a stream listener"
  else Ok ().

Fixpoint inline_rules (ds : list PolicyRuleDef) (named : inlined) (tcp_only : bool)
    : Result (list PolicyRule) :=
  match ds with
  | [] => Ok []
  | DRule p a :: ds' =>
      _ ← check_tcp_predicate p tcp_only;
      rest ← inline_rules ds' named tcp_only;
      Ok ({| rule_predicate := p; rule_action := a |} :: rest)
  | DApply name :: ds' =>
      rules ← ok_or (named !! name) "undefined policy";
      _ ← (if tcp_only then check_tcp_block_rules rules else Ok ());
      rest ← inline_rules ds' named tcp_only;
      Ok (rules ++ rest)
  end.

Definition resolve_block (named : inlined) (ds : list PolicyRuleDef) (tcp_only : bool)
    : Result PolicyBlock :=
  rules ← inline_rules ds named tcp_only;
  Ok (new_block rules).

(** ** Meaning: a list of definitions with every reference replaced. *)
Inductive expands (raw : defs) : list PolicyRuleDef → list PolicyRule → Prop :=
  | expands_nil : expands raw [] []
  | expands_rule p a ds rules :
      expands raw ds rules →
      expands raw (DRule p a :: ds) ({| rule_predicate := p; rule_action := a |} :: rules)
  | expands_apply name body rules ds rules' :
      raw !! name = Some body → expands raw body rules → expands raw ds rules' →
      expands raw (DApply name :: ds) (rules ++ rules').

Lemma expands_det raw ds rules rules' : expands raw ds rules → expands raw ds rules' → rules = rules'.
Proof.
  intros He. revert rules'.
  induction He as [|p a ds rules _ IH|name body rules ds rest Hn _ IHb _ IHd];
    intros rules' He'; inversion He'; subst; try done.
  - f_equal. by apply IH.
  - simplify_eq. f_equal; [by apply IHb|by apply IHd].
Qed.

(** What is recorded for a name is its expansion. *)
Definition inlined_ok (raw : defs) (resolved : inlined) : Prop :=
  map_Forall (λ name rules, ∃ body, raw !! name = Some body ∧ expands raw body rules) resolved.

Definition rec_ok (raw : defs)
    (rec : string → inlined → option (Result (list PolicyRule * inlined))) : Prop :=
  ∀ name resolved, inlined_ok raw resolved →
    ∃ r, rec name resolved = Some r ∧
    ∀ rules resolved', r = Ok (rules, resolved') →
      inlined_ok raw resolved' ∧ {[name]} ∪ dom resolved ⊆ dom resolved' ∧
      ∃ body, raw !! name = Some body ∧ expands raw body rules.

Lemma resolve_rule_defs_ok raw rec ds resolved :
  rec_ok raw rec → inlined_ok raw resolved →
  ∃ r, resolve_rule_defs rec ds resolved = Some r ∧
    ∀ rules resolved', r = Ok (rules, resolved') →
      inlined_ok raw resolved' ∧ dom resolved ⊆ dom resolved' ∧ expands raw ds rules.
Proof.
  intros Hrec. revert resolved. induction ds as [|[p a|name] ds IH]; intros resolved Hok; cbn.
  - eexists. split; [done|]. intros rules resolved' [= <- <-]. split_and!; [done..|constructor].
  - destruct (IH resolved Hok) as (r & -> & Hr). cbn. eexists. split; [done|].
    intros rules resolved'. destruct r as [[rules1 res1]|]; [|done]. intros [= <- <-].
    destruct (Hr _ _ eq_refl) as (? & ? & ?). split_and!; try done. by constructor.
  - destruct (Hrec name resolved Hok) as (r & -> & Hr). cbn.
    destruct r as [[rules1 res1]|e]; [|eexists; split; [done|]; by intros].
    destruct (Hr _ _ eq_refl) as (Hok1 & Hsub & body & Hb & Hex).
    destruct (IH res1 Hok1) as (r' & -> & Hr'). cbn. eexists. split; [done|].
    intros rules resolved'. destruct r' as [[rules2 res2]|]; [|done]. intros [= <- <-].
    destruct (Hr' _ _ eq_refl) as (? & ? & ?). split_and!; [done|set_solver|].
    by eapply expands_apply.
Qed.

Lemma resolve_one_ok fuel raw visiting :
  NoDup visiting → (∀ n, n ∈ visiting → n ∈ dom raw) → (size raw < fuel + length visiting)%nat →
  rec_ok raw (resolve_one fuel raw visiting).
Proof.
  revert visiting. induction fuel as [|fuel IH]; intros visiting Hnd Hdom Hf name resolved Hok.
  { exfalso. assert (length visiting ≤ size raw)%nat; [|lia].
    rewrite <- size_dom, <- (size_list_to_set (C := gset string) visiting) by done.
    apply subseteq_size. intros n Hn%elem_of_list_to_set. by apply Hdom. }
  cbn [resolve_one]. destruct (resolved !! name) as [rules|] eqn:Er.
  { eexists. split; [done|]. intros rules' resolved' [= <- <-].
    split_and!; [done| |by apply (Hok name)]. apply elem_of_dom_2 in Er. set_solver. }
  case_bool_decide as Hv; [eexists; split; [done|]; by intros|].
  destruct (raw !! name) as [body|] eqn:Eb; [|eexists; split; [done|]; by intros].
  destruct (resolve_rule_defs_ok raw (resolve_one fuel raw (visiting ++ [name])) body resolved)
    as (r & -> & Hr); [|done|].
  - apply IH.
    + apply NoDup_app. split; [done|]. split; [|apply NoDup_singleton].
      intros x Hx ->%list_elem_of_singleton. done.
    + intros n [Hn| ->%list_elem_of_singleton]%elem_of_app; [by apply Hdom|].
      by apply elem_of_dom_2 in Eb.
    + rewrite length_app. cbn. lia.
  - cbn. eexists. split; [done|]. intros rules resolved'.
    destruct r as [[rules1 res1]|]; [|done]. intros [= <- <-].
    destruct (Hr _ _ eq_refl) as (Hok1 & Hsub & Hex). split_and!.
    + apply map_Forall_insert_2; [by exists body|done].
    + rewrite dom_insert. set_solver.
    + by exists body.
Qed.

Lemma resolve_names_ok raw names resolved :
  inlined_ok raw resolved →
  ∃ r, resolve_names raw names resolved = Some r ∧
    ∀ m, r = Ok m → inlined_ok raw m ∧ list_to_set names ∪ dom resolved ⊆ dom m.
Proof.
  revert resolved. induction names as [|name names IH]; intros resolved Hok; cbn [resolve_names].
  { eexists. split; [done|]. intros m [= <-]. split; [done|set_solver]. }
  destruct (resolve_one_ok (S (size raw)) raw []) with (name := name) (resolved := resolved)
    as (r & -> & Hr); [constructor|intros n Hn; by apply elem_of_nil in Hn|cbn; lia|done|].
  cbn [mbind option_bind]. destruct r as [[rules res]|e]; [|eexists; split; [done|]; by intros].
  destruct (Hr _ _ eq_refl) as (Hok1 & Hsub & _). destruct (IH res Hok1) as (r' & -> & Hr').
  eexists. split; [done|]. intros m Hm. destruct (Hr' m Hm) as [? Hs]. split; [done|].
  cbn. set_solver.
Qed.

(** ** Completeness: definitions that have an expansion are never refused.

    The nesting depth of references below a list of definitions, which exists
    exactly when the list expands. *)
Inductive depth (raw : defs) : nat → list PolicyRuleDef → Prop :=
  | depth_nil : depth raw 0 []
  | depth_rule h p a ds : depth raw h ds → depth raw h (DRule p a :: ds)
  | depth_apply h k name body ds :
      raw !! name = Some body → depth raw h body → depth raw k ds →
      depth raw (S h `max` k) (DApply name :: ds).

Lemma depth_det raw h h' ds : depth raw h ds → depth raw h' ds → h = h'.
Proof.
  intros Hd. revert h'. induction Hd as [|h p a ds _ IH|h k name body ds Hn _ IHb _ IHd];
    intros h' Hd'; inversion Hd'; subst; [done|by apply IH|].
  simplify_eq. f_equal; [f_equal; by apply IHb|by apply IHd].
Qed.

Lemma expands_depth raw ds rules : expands raw ds rules → ∃ h, depth raw h ds.
Proof.
  induction 1 as [|p a ds rules _ [h IH]|name body rules ds rest Hn _ [h IHb] _ [k IHd]];
    eexists; by econstructor.
Qed.

Lemma resolve_rule_defs_complete raw rec k ds resolved e :
  depth raw k ds →
  (∀ name body h res e', raw !! name = Some body → depth raw h body → (h < k)%nat →
     rec name res ≠ Some (Err e')) →
  resolve_rule_defs rec ds resolved ≠ Some (Err e).
Proof.
  intros Hd. revert resolved.
  induction Hd as [|k p a ds _ IH|h k name body ds Hn Hb _ _ IHd]; intros resolved Hrec; cbn.
  - done.
  - specialize (IH resolved Hrec). by destruct (resolve_rule_defs _ _ _) as [[[]|]|]; naive_solver.
  - destruct (rec name resolved) as [[[rules res]|e']|] eqn:Er; cbn.
    + assert (resolve_rule_defs rec ds res ≠ Some (Err e)) as IH.
      { apply IHd. intros n b h' res' e' ???. eapply Hrec; [done..|lia]. }
      by destruct (resolve_rule_defs _ _ _) as [[[]|]|]; naive_solver.
    + exfalso. eapply Hrec; [exact Hn|exact Hb|lia|exact Er].
    + done.
Qed.

Lemma resolve_one_complete fuel raw visiting name body h resolved e :
  raw !! name = Some body → depth raw h body →
  (∀ v, v ∈ visiting → ∃ b hv, raw !! v = Some b ∧ depth raw hv b ∧ (h < hv)%nat) →
  resolve_one fuel raw visiting name resolved ≠ Some (Err e).
Proof.
  revert visiting name body h resolved e.
  induction fuel as [|fuel IH]; intros visiting name body h resolved e Hb Hd Hv; cbn; [done|].
  destruct (resolved !! name); [done|]. rewrite bool_decide_false.
  2:{ intros (b & hv & Hb' & Hd' & Hlt)%Hv. simplify_eq. assert (h = hv) by (by eapply depth_det). lia. }
  rewrite Hb. pose proof (resolve_rule_defs_complete raw (resolve_one fuel raw (visiting ++ [name]))
    h body resolved e Hd) as Hc.
  assert (resolve_rule_defs (resolve_one fuel raw (visiting ++ [name])) body resolved
    ≠ Some (Err e)) as Hne.
  { apply Hc. intros n b hn res e' Hn Hdn Hlt. eapply IH; [done..|].
    intros v [Hin| ->%list_elem_of_singleton]%elem_of_app; [|by eauto].
    destruct (Hv v Hin) as (b' & hv & ? & ? & ?). exists b', hv. split_and!; try done. lia. }
  by destruct (resolve_rule_defs _ _ _) as [[[]|]|]; naive_solver.
Qed.

Lemma resolve_names_complete raw names resolved e :
  (∀ name, name ∈ names → ∃ body rules, raw !! name = Some body ∧ expands raw body rules) →
  resolve_names raw names resolved ≠ Some (Err e).
Proof.
  revert resolved. induction names as [|name names IH]; intros resolved Hex; [done|].
  cbn [resolve_names].
  destruct (Hex name) as (body & rules & Hb & [h Hd]%expands_depth); [by left|].
  destruct (resolve_one (S (size raw)) raw [] name resolved) as [[[rs res]|e']|] eqn:E.
  - cbn [mbind option_bind]. apply IH. intros n Hn. apply Hex. by right.
  - exfalso. eapply (resolve_one_complete _ raw [] name body h resolved e'); [done..| |exact E].
    intros v Hv. by apply elem_of_nil in Hv.
  - done.
Qed.

Lemma inline_rules_tcp ds named rules :
  inline_rules ds named true = Ok rules → existsb rule_needs_auth rules = false.
Proof.
  revert rules. induction ds as [|[p a|name] ds IH]; intros rules; cbn.
  - by intros [= <-].
  - intros ([] & Hc & (rest & Hr & [= <-])%bind_Ok)%bind_Ok. cbn.
    rewrite (IH rest Hr). unfold check_tcp_predicate in Hc. cbn in Hc.
    unfold rule_needs_auth. cbn. by destruct p as [p|]; [destruct (needs_auth p)|].
  - intros (rs & Hn & ([] & Hc & (rest & Hr & [= <-])%bind_Ok)%bind_Ok)%bind_Ok.
    rewrite existsb_app, (IH rest Hr), orb_false_r. unfold check_tcp_block_rules in Hc.
    by destruct (existsb rule_needs_auth rs).
Qed.

(** * Properties *)

(** C29: inlining the named policies always finishes within a recursion depth
    of the number of definitions, and fails exactly when some name has no
    finite expansion (an undefined or circular reference); otherwise the
    entry of every name is the list of rules its definition expands to, with
    each reference replaced in place, whatever the order of the names. *)
Theorem resolve_names_spec raw names :
  ∃ r, resolve_names raw names ∅ = Some r ∧
  (is_ok r = true ↔
     ∀ name, name ∈ names → ∃ body rules, raw !! name = Some body ∧ expands raw body rules) ∧
  ∀ m, r = Ok m → ∀ name body rules,
    name ∈ names → raw !! name = Some body → expands raw body rules → m !! name = Some rules.
Proof.
  destruct (resolve_names_ok raw names ∅) as (r & Hr & Hm); [apply map_Forall_empty|].
  exists r. split; [done|].
  assert (∀ m name, r = Ok m → name ∈ names →
    ∃ body rules, raw !! name = Some body ∧ expands raw body rules ∧ m !! name = Some rules) as Hall.
  { intros m name -> Hn. destruct (Hm m eq_refl) as [Hok Hd].
    assert (name ∈ dom m) as [rules Hl]%elem_of_dom by set_solver.
    destruct (Hok _ _ Hl) as (body & Hb & He). by exists body, rules. }
  split.
  - split.
    + intros Hk name Hn. destruct r as [m|e]; [|done].
      destruct (Hall m name eq_refl Hn) as (body & rules & ? & ? & _). eauto.
    + intros Hex. destruct r as [m|e]; [done|]. exfalso. by eapply resolve_names_complete.
  - intros m Hrm name body rules Hn Hb He.
    destruct (Hall m name Hrm Hn) as (body' & rules' & Hb' & He' & Hl). simplify_eq.
    rewrite Hl. f_equal. by eapply expands_det.
Qed.

(** A policy block accepted for a stream listener, where no identity can
    be established, never calls the authenticator and never issues a
    challenge: its decision is the same for every principal. *)
Theorem stream_policy_never_authenticates named ds b auth auth' peer country :
  resolve_block named ds true = Ok b →
  evaluate b auth (new_context peer country) = evaluate b auth' (new_context peer country) ∧
  ec_calls (snd (evaluate b auth (new_context peer country))) = 0%nat.
Proof.
  unfold resolve_block. intros (rules & Hr & [= <-])%bind_Ok.
  apply inline_rules_tcp in Hr. unfold evaluate.
  rewrite !(evaluate_from_no_auth (new_block rules) _ 0 rules (new_context peer country) Hr
    (new_context_lazy _ _ _)).
  split; [|done]. f_equal. apply decide_rules_principal. exact Hr.
Qed.

End policies.

(** A named block with an address rule, used by a stream listener. *)
Lemma stream_policy_never_authenticates_witness :
  let rule := {| Access.rule_predicate := Some (Access.Address (H := Access.host_nets) [V4 1]);
                 Access.rule_action := Access.PAllow |} in
  let ds := [DApply (H := Access.host_nets) "office"; DRule None (Access.PDeny 403)] in
  let b := Access.new_block [rule; {| Access.rule_predicate := None;
                                      Access.rule_action := Access.PDeny 403 |}] in
  Access.evaluate (H0 := assoc_http) b (λ _, Auth.Anonymous) (Access.new_context (V4 1) None) =
  Access.evaluate b (λ n, Auth.Authenticated (Auth.Build_Identity "root" []))
    (Access.new_context (V4 1) None) ∧
  Access.ec_calls (snd (Access.evaluate b (λ _, Auth.Anonymous)
    (Access.new_context (V4 1) None))) = 0%nat.
Proof.
  intros rule ds b.
  apply (@stream_policy_never_authenticates Access.host_nets assoc_http {["office" := [rule]]} ds b).
  vm_compute. reflexivity.
Defined.


End Router.
