(* ===== verification/Host.v ===== *)
(** The host a request is for ([src/listener/service.rs]): the [Host] header
    and the authority of the request target are reconciled before routing.

    The authority parser of the [http] crate is a class of operations. *)
From S2P Require Import Prelude RustStr Net Http Template Auth Access Matcher Router.

Class Authorities := {
  authority : Type;
  authority_parse : string → option authority;
  authority_str : authority → string;
  authority_host : authority → string;
  authority_port_u16 : authority → option N;
}.

(** Documented behaviour: an authority is made of visible ASCII characters, so
    its text is a header value that reads back as that text. *)
Class AuthorityLaws `{Http} `{Authorities} : Prop := {
  authority_value a : ∃ v, hv_from_str (authority_str a) = Some v ∧
    hv_to_str v = Some (authority_str a);
}.

Module Host.

Section host.
Context `{Http} `{Authorities}.

Inductive HostError :=
  | Missing
  | Duplicate
  | Invalid
  | Mismatch.

Definition reason (e : HostError) : string :=
  match e with
  | Missing => "no Host header and no authority"
  | Duplicate => "more than one Host header"
  | Invalid => "malformed Host value"
  | Mismatch => "Host disagrees with :authority"
  end.

Inductive Version := HTTP_09 | HTTP_10 | HTTP_11 | HTTP_2 | HTTP_3.

#[global] Instance Version_eq_dec : EqDecision Version.
Proof. solve_decision. Defined.

Definition http_version_str (v : Version) : string :=
  match v with
  | HTTP_09 => "HTTP/0.9"
  | HTTP_10 => "HTTP/1.0"
  | HTTP_11 => "HTTP/1.1"
  | HTTP_2 => "HTTP/2.0"
  | HTTP_3 => "HTTP/3.0"
  end.

Definition is_valid_host_value (value : string) : bool :=
  if contains_char "@" value then false
  else match authority_parse value with
       | None => false
       | Some a =>
           negb ((String.length (authority_host a) <? String.length (authority_str a))%nat
                 && bool_decide (authority_port_u16 a = None))
       end.

Definition set_host (headers : header_map) (value : string) : header_map :=
  match hv_from_str value with
  | Some v => hm_insert headers HOST v
  | None => headers
  end.

(** The single [Host] line, an empty one counting as none. *)
Definition host_line (headers : header_map) : HostError + option header_value :=
  match hm_get_all headers HOST with
  | _ :: _ :: _ => inl Duplicate
  | [] => inr None
  | [v] =>
      match hv_to_str v with
      | None => inl Invalid
      | Some text => if is_empty text then inr None
                     else if is_valid_host_value text then inr (Some v)
                     else inl Invalid
      end
  end.

Definition normalize_host (version : Version) (auth : option authority) (headers : header_map)
    : HostError + header_map :=
  match host_line headers with
  | inl e => inl e
  | inr host =>
      match auth, host with
      | Some a, Some h =>
          if bool_decide (version = HTTP_2 ∨ version = HTTP_3) then
            if eq_ignore_ascii_case (hv_as_bytes h) (authority_str a) then inr headers
            else inl Mismatch
          else inr (set_host headers (authority_str a))
      | Some a, None => inr (set_host headers (authority_str a))
      | None, Some _ => inr headers
      | None, None =>
          if bool_decide (version = HTTP_10 ∨ version = HTTP_09) then inr headers
          else inl Missing
      end
  end.

(** Whether a request carries credentials: an [Authorization] header, or the
    session cookie of the location. *)
Definition presented_credentials (headers : header_map) (session_cookie : option string) : bool :=
  if hm_contains_key headers AUTHORIZATION then true
  else match session_cookie with
       | None => false
       | Some name =>
           existsb (λ v, match hv_to_str v with
                         | Some s => existsb (λ kv, match split_once "=" (trim_start kv) with
                                                    | Some (k, _) => String.eqb k name
                                                    | None => false
                                                    end) (split ";" s)
                         | None => false
                         end) (hm_get_all headers COOKIE)
       end.

(** * Lemmas *)

Context `{!HttpLaws, !AuthorityLaws}.

Lemma host_line_None headers :
  host_line headers = inr None →
  hm_get_all headers HOST = [] ∨ ∃ v, hm_get_all headers HOST = [v] ∧ hv_to_str v = Some "".
Proof.
  unfold host_line. destruct (hm_get_all headers HOST) as [|v [|w vs]]; [by left| |done].
  destruct (hv_to_str v) as [t|] eqn:E; [|done]. unfold is_empty.
  destruct (String.eqb_spec t ""); [subst; by right; exists v|]. by destruct (is_valid_host_value t).
Qed.

Lemma host_line_Some headers v :
  host_line headers = inr (Some v) →
  hm_get_all headers HOST = [v] ∧ ∃ text, hv_to_str v = Some text ∧ text ≠ "" ∧
    is_valid_host_value text = true.
Proof.
  unfold host_line. destruct (hm_get_all headers HOST) as [|w [|w' vs]]; [done| |done].
  destruct (hv_to_str w) as [t|] eqn:E; [|done]. unfold is_empty.
  destruct (String.eqb_spec t ""); [done|].
  destruct (is_valid_host_value t) eqn:Ev; [|done]. intros [= <-]. split; [done|]. by exists t.
Qed.

Lemma set_host_get headers a :
  ∃ v, hm_get_all (set_host headers (authority_str a)) HOST = [v] ∧
    hv_to_str v = Some (authority_str a) ∧
    ∀ k, k ≠ HOST → hm_get_all (set_host headers (authority_str a)) k = hm_get_all headers k.
Proof.
  destruct (authority_value a) as (v & Hv & Ht). exists v. unfold set_host. rewrite Hv.
  split_and!; [by autorewrite with http|done|]. intros k Hk. by autorewrite with http.
Qed.

Lemma eq_ignore_ascii_case_refl s : eq_ignore_ascii_case s s = true.
Proof. unfold eq_ignore_ascii_case. apply String.eqb_refl. Qed.

(** * Properties *)

(** After HTTP/1.0, a request that passes host normalisation names exactly
    one host: one [Host] line, equal up to case to the authority of the
    request target when there is one, and otherwise the client's own line,
    non-empty and well formed; no other header changes. *)
Theorem normalize_host_single version auth headers headers' :
  normalize_host version auth headers = inr headers' →
  version ≠ HTTP_10 → version ≠ HTTP_09 →
  ∃ v text, hm_get_all headers' HOST = [v] ∧ hv_to_str v = Some text ∧
    match auth with
    | Some a => eq_ignore_ascii_case text (authority_str a) = true
    | None => hm_get_all headers HOST = [v] ∧ text ≠ "" ∧ is_valid_host_value text = true
    end ∧
    ∀ k, k ≠ HOST → hm_get_all headers' k = hm_get_all headers k.
Proof.
  intros Hn H10 H09. unfold normalize_host in Hn.
  destruct (host_line headers) as [e|[h|]] eqn:Eh; [done| |].
  - apply host_line_Some in Eh as (Hall & text & Ht & Hne & Hv). destruct auth as [a|].
    + case_bool_decide as Hver.
      * destruct (eq_ignore_ascii_case _ _) eqn:Eq in Hn; [|done]. injection Hn as <-.
        exists h, text. rewrite (hv_to_str_bytes h text Ht) in Eq. done.
      * injection Hn as <-. destruct (set_host_get headers a) as (v & ? & ? & ?).
        exists v, (authority_str a). split_and!; try done. apply eq_ignore_ascii_case_refl.
    + injection Hn as <-. by exists h, text.
  - destruct auth as [a|].
    + injection Hn as <-. destruct (set_host_get headers a) as (v & ? & ? & ?).
      exists v, (authority_str a). split_and!; try done. apply eq_ignore_ascii_case_refl.
    + rewrite bool_decide_false in Hn by naive_solver. done.
Qed.

(** Two [Host] lines are refused under every protocol version, whatever
    the authority, so no hop gets to choose between them. *)
Theorem duplicate_host_refused version auth headers :
  normalize_host version auth headers = inl Duplicate ↔
  (2 ≤ length (hm_get_all headers HOST))%nat.
Proof.
  unfold normalize_host, host_line.
  destruct (hm_get_all headers HOST) as [|v [|w vs]]; cbn [length].
  - split; [|lia]. intros Hn. repeat case_match; simplify_eq; repeat case_bool_decide; done.
  - split; [|lia]. intros Hn. repeat case_match; simplify_eq; repeat case_bool_decide; done.
  - split; [lia|done].
Qed.

(** The authority is not held to the rules of a [Host] value: one that
    carries user information, [site:u@target], passes normalisation and is
    then routed to the vhost named by the user name, not to its host. *)
Theorem userinfo_names_vhost a site u target headers :
  authority_str a = site +:+ ":" +:+ u +:+ "@" +:+ target →
  contains_char ":" site = false → starts_with "[" site = false → site ≠ "" →
  host_line headers = inr None →
  ∃ headers', normalize_host HTTP_2 (Some a) headers = inr headers' ∧
    is_valid_host_value (authority_str a) = false ∧
    Router.strip_port <$> get_str headers' HOST = Some site.
Proof.
  intros Ha Hc Hs Hne Hh. unfold normalize_host. rewrite Hh. eexists. split; [done|]. split.
  - unfold is_valid_host_value.
    assert (contains_char "@" (authority_str a) = true) as ->; [|done].
    rewrite Ha, contains_char_all, !str_all_app. cbn. rewrite !andb_false_r. done.
  - destruct (set_host_get headers a) as (v & Hv & Ht & _). unfold get_str.
    rewrite hm_get_head, Hv. cbn. rewrite Ht, Ha. cbn. f_equal. unfold Router.strip_port.
    assert (starts_with "[" (site +:+ ":" +:+ u +:+ "@" +:+ target) = false) as ->.
    { apply not_true_iff_false. intros (r & E)%starts_with_true.
      apply not_true_iff_false in Hs. apply Hs, starts_with_true.
      destruct site as [|c site]; [done|]. injection E as -> _. by exists site. }
    change (":" +:+ u +:+ "@" +:+ target) with (String ":" (u +:+ "@" +:+ target)).
    rewrite split_app, (split_no_sep ":" site) by done. done.
Qed.

End host.

(** Authorities as plain texts, for examples: the host is what precedes the
    port, the port is read when there is one. *)
Definition text_authorities : Authorities := {|
  authority := { s : string | str_all visible s = true };
  authority_parse s := match decide (str_all visible s = true) with
                       | left E => Some (s ↾ E)
                       | right _ => None
                       end;
  authority_str := proj1_sig;
  authority_host a := Router.strip_port (proj1_sig a);
  authority_port_u16 a :=
    match split_once ":" (proj1_sig a) with
    | Some (_, p) => parse_uint u16_max p
    | None => None
    end;
|}.

Lemma text_authority_laws : AuthorityLaws (H := assoc_http) (H0 := text_authorities).
Proof.
  split. intros [s Hs]. exists s. cbn. rewrite Hs. split; [|done].
  rewrite (str_all_impl visible value_byte); [done| |done]. by intros [[] [] [] [] [] [] [] []].
Qed.

Lemma normalize_host_single_witness :
  let get h := hm_get_all (Http := assoc_http) h HOST in
  ∃ v text, get [("host", "b.example")] = [v] ∧ hv_to_str v = Some text ∧
    eq_ignore_ascii_case text "b.example" = true ∧
    ∀ k, k ≠ HOST → hm_get_all [("host", "b.example")] k = hm_get_all [("host", "a.example")] k.
Proof.
  apply (@normalize_host_single assoc_http text_authorities assoc_http_laws text_authority_laws
    HTTP_11 (Some ("b.example" ↾ eq_refl)) [("host", "a.example")]); vm_compute; done.
Defined.

Lemma userinfo_names_vhost_witness :
  ∃ headers',
    normalize_host (H := assoc_http) (H0 := text_authorities) HTTP_2
      (Some ("admin.example:x@www.example" ↾ eq_refl)) [] = inr headers' ∧
    is_valid_host_value (H0 := text_authorities) "admin.example:x@www.example" = false ∧
    Router.strip_port <$> get_str headers' HOST = Some "admin.example".
Proof.
  apply (@userinfo_names_vhost assoc_http text_authorities assoc_http_laws text_authority_laws
    ("admin.example:x@www.example" ↾ eq_refl) "admin.example" "x" "www.example"); done.
Defined.

End Host.
