(* ===== verification/Calendar.v ===== *)
(** The Gregorian calendar, day by day: the reference for the three date
    conversions of the program (directory listings, log lines and the status
    page), and the arithmetic of years that start in March that they use. *)
From S2P Require Import Prelude RustStr.

Module Calendar.

(** Zero-padded decimal, [{n:0w}]. *)
Definition pad (w : nat) (n : Z) : string :=
  let s := dec (Z.to_N n) in
  String.concat "" (replicate (w - String.length s) "0") +:+ s.

(** Quotients and remainders by constants. *)
Ltac div_lia := Z.to_euclidean_division_equations; lia.

Section calendar.
#[local] Open Scope Z_scope.

Definition leap (y : Z) : bool :=
  (y mod 4 =? 0) && (negb (y mod 100 =? 0) || (y mod 400 =? 0)).

Definition days_in_month (y m : Z) : Z :=
  if m =? 2 then if leap y then 29 else 28
  else if (m =? 4) || (m =? 6) || (m =? 9) || (m =? 11) then 30 else 31.

Definition next_day (date : Z * Z * Z) : Z * Z * Z :=
  let '(y, m, d) := date in
  if d <? days_in_month y m then (y, m, d + 1)
  else if m <? 12 then (y, m + 1, 1) else (y + 1, 1, 1).

(** The date [doy] days after the first of March of year [y]. *)
Definition march_date (y doy : Z) : Z * Z * Z :=
  let mp := (5 * doy + 2) / 153 in
  let m := if mp <? 10 then mp + 3 else mp - 9 in
  (if m <=? 2 then y + 1 else y, m, doy - (153 * mp + 2) / 5 + 1).

(** The index of the last day of the year that starts in March of [yoe]. *)
Definition last_doy (yoe : Z) : Z :=
  364 + ((yoe + 1) / 4 - yoe / 4) - ((yoe + 1) / 100 - yoe / 100) + (yoe + 1) / 400.

Lemma century yoe : 0 <= yoe < 400 →
  ∃ c, yoe / 100 = c ∧ (c = 0 ∨ c = 1 ∨ c = 2 ∨ c = 3) ∧ 100 * c <= yoe < 100 * c + 100.
Proof. intros. eexists. split; [reflexivity|]. div_lia. Qed.

Lemma yoe_recovered yoe doy doe :
  0 <= yoe < 400 → 0 <= doy <= last_doy yoe → doe = 365 * yoe + yoe / 4 - yoe / 100 + doy →
  (doe - doe / 1460 + doe / 36524 - doe / 146096) / 365 = yoe.
Proof.
  unfold last_doy. intros Hy Hd E. destruct (century yoe Hy) as (c & Ec & Hc & Hb).
  destruct Hc as [->|[->|[->| ->]]]; div_lia.
Qed.

Lemma doe_bounds yoe doy :
  0 <= yoe < 400 → 0 <= doy <= last_doy yoe →
  0 <= 365 * yoe + yoe / 4 - yoe / 100 + doy < 146097.
Proof. unfold last_doy. intros. div_lia. Qed.

Lemma leap_era era yoe : 0 <= yoe < 400 → leap (yoe + era * 400 + 1) = (last_doy yoe =? 365).
Proof.
  intros Hy. unfold leap, last_doy. apply eq_true_iff_eq.
  rewrite andb_true_iff, orb_true_iff, negb_true_iff, !Z.eqb_eq, Z.eqb_neq.
  destruct (century yoe Hy) as (c & Ec & Hc & Hb).
  replace ((yoe + era * 400 + 1) mod 4) with ((yoe + 1) mod 4) by div_lia.
  replace ((yoe + era * 400 + 1) mod 100) with ((yoe + 1) mod 100) by div_lia.
  replace ((yoe + era * 400 + 1) mod 400) with ((yoe + 1) mod 400) by div_lia.
  destruct Hc as [->|[->|[->| ->]]]; div_lia.
Qed.

Lemma last_doy_or yoe : 0 <= yoe < 400 → last_doy yoe = 364 ∨ last_doy yoe = 365.
Proof.
  unfold last_doy. intros Hy. destruct (century yoe Hy) as (c & Ec & Hc & Hb).
  destruct Hc as [->|[->|[->| ->]]]; div_lia.
Qed.

Lemma month_of doy : 0 <= doy <= 365 →
  ∃ mp, (5 * doy + 2) / 153 = mp ∧ 0 <= mp <= 11 ∧
    (153 * mp + 2) / 5 <= doy < (153 * (mp + 1) + 2) / 5.
Proof. intros. eexists. split; [reflexivity|]. div_lia. Qed.

Lemma month_cases mp : 0 <= mp <= 11 →
  mp = 0 ∨ mp = 1 ∨ mp = 2 ∨ mp = 3 ∨ mp = 4 ∨ mp = 5 ∨ mp = 6 ∨ mp = 7 ∨ mp = 8 ∨ mp = 9 ∨
  mp = 10 ∨ mp = 11.
Proof. lia. Qed.

(** Evaluate the closed comparisons, sums and quotients of the goal. *)
Ltac eval_closed t :=
  let v := eval vm_compute in t in
  lazymatch v with
  | Z0 => change t with v | Zpos _ => change t with v | Zneg _ => change t with v
  | true => change t with v | false => change t with v
  end.
Ltac zconst :=
  repeat match goal with
  | |- context [?a <? ?b] => eval_closed (a <? b)
  | |- context [?a <=? ?b] => eval_closed (a <=? b)
  | |- context [?a =? ?b] => eval_closed (a =? b)
  | |- context [?a / ?b] => eval_closed (a / b)
  | |- context [?a + ?b] => eval_closed (a + b)
  | |- context [?a - ?b] => eval_closed (a - b)
  end; cbn [orb]; cbv iota beta.

(** A day of the March year and the next, the last of February apart. *)
Lemma next_in_year y doy :
  0 <= doy < 364 → next_day (march_date y doy) = march_date y (doy + 1).
Proof.
  intros Hd. destruct (month_of doy) as (mp & Emp & Hmp & Hlo & Hhi); [lia|].
  assert (doy + 1 < (153 * (mp + 1) + 2) / 5 ∨ doy + 1 = (153 * (mp + 1) + 2) / 5) as [Hin|Hout]
    by lia.
  - assert ((5 * (doy + 1) + 2) / 153 = mp) as Emp' by div_lia.
    unfold march_date. rewrite Emp, Emp'. unfold next_day.
    destruct (month_cases mp Hmp) as [->|[->|[->|[->|[->|[->|[->|[->|[->|[->|[->| ->]]]]]]]]]]];
      zconst; unfold days_in_month; zconst;
      rewrite (proj2 (Z.ltb_lt _ _)) by (try destruct (leap _); div_lia); f_equal; div_lia.
  - unfold march_date. rewrite Emp. unfold next_day.
    destruct (month_cases mp Hmp) as [->|[->|[->|[->|[->|[->|[->|[->|[->|[->|[->| ->]]]]]]]]]]];
      first [exfalso; div_lia | rewrite Hout; replace doy with (doy + 1 - 1) by lia; rewrite Hout; reflexivity].
Qed.

Lemma next_leap_day y : leap (y + 1) = true → next_day (march_date y 364) = march_date y 365.
Proof.
  intros El. unfold next_day, march_date. zconst. unfold days_in_month. zconst. by rewrite El.
Qed.

Lemma next_march y doy :
  (doy = 364 ∧ leap (y + 1) = false ∨ doy = 365 ∧ leap (y + 1) = true) →
  next_day (march_date y doy) = march_date (y + 1) 0.
Proof.
  intros [[-> El]|[-> El]]; unfold next_day, march_date; zconst; unfold days_in_month; zconst;
    by rewrite El.
Qed.

(** Every day from the epoch on has its era, year of the era and day of the
    March year, which the next day continues. *)
Lemma civil_march n :
  ∃ era yoe doy, 0 <= era ∧ 0 <= yoe < 400 ∧ 0 <= doy <= last_doy yoe ∧
    Z.of_nat n = era * 146097 + (365 * yoe + yoe / 4 - yoe / 100 + doy) - 719468 ∧
    Nat.iter n next_day (1970, 1, 1) = march_date (yoe + era * 400) doy.
Proof.
  induction n as [|n IH].
  { exists 4, 369, 306. split_and!; done. }
  destruct IH as (era & yoe & doy & He & Hy & Hd & En & Ec).
  change (Nat.iter (S n) next_day (1970, 1, 1)) with (next_day (Nat.iter n next_day (1970, 1, 1))).
  rewrite Ec. clear Ec. pose proof (leap_era era yoe Hy) as El. pose proof (last_doy_or yoe Hy) as Hl.
  assert (doy < last_doy yoe ∨ doy = last_doy yoe) as [Hin|Hlast] by lia.
  - exists era, yoe, (doy + 1). split_and!; try lia.
    destruct (decide (doy < 364)); [by apply next_in_year; lia|].
    assert (doy = 364) as -> by lia. apply next_leap_day. rewrite El. lia.
  - assert (next_day (march_date (yoe + era * 400) doy) = march_date (yoe + era * 400 + 1) 0) as ->.
    { apply next_march. rewrite El. destruct Hl as [E|E]; rewrite E; [left|right]; split; lia. }
    assert (yoe < 399 ∨ yoe = 399) as [Hyn| ->] by lia.
    + exists era, (yoe + 1), 0. pose proof (last_doy_or (yoe + 1)). split_and!; try lia.
      * rewrite Nat2Z.inj_succ, En, Hlast. unfold last_doy.
        replace ((yoe + 1) / 400) with 0 by div_lia. lia.
      * f_equal. lia.
    + exists (era + 1), 0, 0. split_and!; try lia.
      * done.
      * rewrite Nat2Z.inj_succ, En, Hlast. unfold last_doy. div_lia.
      * f_equal. lia.
Qed.

End calendar.

End Calendar.
