(* ===== verification/StaticFiles.v ===== *)
(** Static files ([src/handler/static_files.rs]): safe path joining, byte
    ranges, streaming, directory listings, per-user directories and the
    handler that composes them.

    The file system, the user database and the MIME table are one class of
    operations: what they answer during one request.  A path is its text. *)
From stdpp Require Import sorting.
From S2P Require Import Prelude RustStr Utf8 Net Http Template Vars Auth Access Matcher Router Calendar.

Module StaticFiles.
Import Calendar.

(** * Paths ([std::path], Unix) *)

Fixpoint last_char (s : string) : option ascii :=
  match s with
  | "" => None
  | String c "" => Some c
  | String _ s' => last_char s'
  end.

Definition ends_with_slash (s : string) : bool :=
  match last_char s with Some c => Ascii.eqb c "/" | None => false end.

(** [Path::join]. *)
Definition path_join (base p : string) : string :=
  if starts_with "/" p then p
  else if is_empty base || ends_with_slash base then base +:+ p
  else base +:+ "/" +:+ p.

(** The components of a path, the root as ["/"].  Empty components and
    [.] are skipped, except a leading [.] of a relative path. *)
Definition components (p : string) : list string :=
  let segs := split "/" p in
  let normal := List.filter (λ s, negb (is_empty s) && negb (String.eqb s ".")) in
  if starts_with "/" p then "/" :: normal segs
  else match segs with
       | seg :: segs' => if String.eqb seg "." then "." :: normal segs' else normal segs
       | [] => []
       end.

(** [Path::strip_prefix], on components. *)
Fixpoint strip_components (base p : list string) : option (list string) :=
  match base, p with
  | [], _ => Some p
  | b :: base', c :: p' => if String.eqb b c then strip_components base' p' else None
  | _ :: _, [] => None
  end.

(** [Path::starts_with]. *)
Definition path_starts_with (p base : string) : bool :=
  match strip_components (components base) (components p) with Some _ => true | None => false end.

(** * Percent coding *)

Definition hex_nibble (b : ascii) : option N :=
  let n := N_of_ascii b in
  if byte_in 48 57 b then Some (n - 48)
  else if byte_in 97 102 b then Some (n - 97 + 10)
  else if byte_in 65 70 b then Some (n - 65 + 10)
  else None.

Fixpoint percent_decode_bytes (s : string) : string :=
  match s with
  | "" => ""
  | String c s1 =>
      if Ascii.eqb c "%" then
        match s1 with
        | String h (String l s3) =>
            match hex_nibble h, hex_nibble l with
            | Some h, Some l => String (ascii_of_N (N.lor (N.shiftl h 4) l)) (percent_decode_bytes s3)
            | _, _ => String c (percent_decode_bytes s1)
            end
        | _ => String c (percent_decode_bytes s1)
        end
      else String c (percent_decode_bytes s1)
  end.

Definition percent_decode (s : string) : string := from_utf8_lossy (percent_decode_bytes s).

Definition safe_join (root uri_path : string) : option string :=
  if contains_char (ascii_of_N 0) uri_path then None
  else
    let decoded := percent_decode uri_path in
    if existsb (λ seg, String.eqb seg "..") (split "/" decoded) then None
    else Some (path_join root (trim_start_by (Ascii.eqb "/") decoded)).

Definition hex_upper (n : N) : ascii :=
  if n <? 10 then ascii_of_N (48 + n) else ascii_of_N (65 + (n - 10)).

(** [format!("%{b:02X}")]. *)
Definition percent_byte (b : ascii) : string :=
  String "%" (String (hex_upper (N_of_ascii b / 16)) (String (hex_upper (N_of_ascii b mod 16)) "")).

Definition url_safe (b : ascii) : bool :=
  byte_in 65 90 b || byte_in 97 122 b || byte_in 48 57 b || contains_char b "-_.~".

Fixpoint url_encode_segment (s : string) : string :=
  match s with
  | "" => ""
  | String b s' => (if url_safe b then String b "" else percent_byte b) +:+ url_encode_segment s'
  end.

(** * Listings *)

(** The double quote. *)
Definition dq : ascii := ascii_of_N 34.
Definition quoted (s : string) : string := String dq "" +:+ s +:+ String dq "".

Definition escape_char (c : ascii) : string :=
  if Ascii.eqb c "&" then "&amp;"
  else if Ascii.eqb c "<" then "&lt;"
  else if Ascii.eqb c ">" then "&gt;"
  else if Ascii.eqb c dq then "&quot;"
  else if Ascii.eqb c "'" then "&#39;"
  else String c "".

Fixpoint html_escape (s : string) : string :=
  match s with
  | "" => ""
  | String c s' => escape_char c +:+ html_escape s'
  end.

(** [days_to_ymd]; [i64] division truncates, which is [Z.quot]. *)
Definition days_to_ymd (days_since_epoch : Z) : Z * Z * Z :=
  (let z := days_since_epoch + 719468 in
   let era := (if 0 <=? z then z else z - 146096) ÷ 146097 in
   let doe := z - era * 146097 in
   let yoe := (doe - doe / 1460 + doe / 36524 - doe / 146096) / 365 in
   let y := yoe + era * 400 in
   let doy := doe - (365 * yoe + yoe / 4 - yoe / 100) in
   let mp := (5 * doy + 2) / 153 in
   let d := doy - (153 * mp + 2) / 5 + 1 in
   let m := if mp <? 10 then mp + 3 else mp - 9 in
   let y := if m <=? 2 then y + 1 else y in
   (y, m, d))%Z.

Definition format_mtime (secs : Z) : string :=
  if (secs <? 0)%Z then "-"
  else
    let days := (secs ÷ 86400)%Z in
    let rem := Z.rem secs 86400 in
    let h := (rem ÷ 3600)%Z in
    let m := (Z.rem rem 3600 ÷ 60)%Z in
    let s := Z.rem rem 60 in
    let '(y, mo, d) := days_to_ymd days in
    pad 4 y +:+ "-" +:+ pad 2 mo +:+ "-" +:+ pad 2 d +:+ " " +:+
    pad 2 h +:+ ":" +:+ pad 2 m +:+ ":" +:+ pad 2 s +:+ " UTC".

(** A listed entry: name, whether a directory, size, modification time. *)
Record Entry := {
  en_name : string;
  en_is_dir : bool;
  en_size : N;
  en_mtime : option Z;
}.

(** The order of a listing: directories first, then by name. *)
Definition entry_le (a b : Entry) : Prop :=
  match en_is_dir a, en_is_dir b with
  | true, false => True
  | false, true => False
  | _, _ => String.leb (en_name a) (en_name b) = true
  end.

#[global] Instance entry_le_dec : RelDecision entry_le.
Proof. intros a b. unfold entry_le. repeat case_match; apply _. Defined.

Section listing.
(** [format!("{:.1}", a as f64 / b as f64)]. *)
Context (fmt_tenths : N → N → string).

Fixpoint format_units (units : list (string * N)) (bytes : N) : string :=
  match units with
  | [] => dec bytes
  | (unit, threshold) :: units' =>
      if threshold <=? bytes then fmt_tenths bytes threshold +:+ unit
      else format_units units' bytes
  end.

Definition format_size (bytes : N) : string :=
  format_units [("T", 1099511627776); ("G", 1073741824); ("M", 1048576); ("K", 1024)] bytes.

Definition render_row (e : Entry) : string :=
  let slash := if en_is_dir e then "/" else "" in
  "<tr><td><a href=" +:+ quoted (url_encode_segment (en_name e) +:+ slash) +:+ ">" +:+
  html_escape (en_name e) +:+ slash +:+ "</a></td>" +:+
  "<td class=" +:+ quoted "size" +:+ ">" +:+
  (if en_is_dir e then "-" else format_size (en_size e)) +:+ "</td>" +:+
  "<td class=" +:+ quoted "mtime" +:+ ">" +:+
  match en_mtime e with Some t => format_mtime t | None => "-" end +:+ "</td></tr>".

Definition listing_css : string :=
  "body{font-family:sans-serif;margin:2em}" +:+
  "table{border-collapse:collapse;width:100%}" +:+
  "th,td{padding:0.25em 0.75em;text-align:left}" +:+
  "th{border-bottom:1px solid #ccc}" +:+
  "tr:hover td{background:#f4f4f4}" +:+
  "td.size,td.mtime{font-variant-numeric:tabular-nums;color:#666}" +:+
  "a{text-decoration:none}".

Definition newline : string := String (ascii_of_N 10) "".

Definition render_listing_html (url_path : string) (entries : list Entry) : string :=
  let title := html_escape url_path in
  "<!doctype html>" +:+ newline +:+ "<html><head>" +:+
  "<meta charset=" +:+ quoted "utf-8" +:+ ">" +:+
  "<title>Index of " +:+ title +:+ "</title>" +:+
  "<style>" +:+ listing_css +:+ "</style></head><body>" +:+
  "<h1>Index of " +:+ title +:+ "</h1>" +:+
  "<table><thead><tr><th>Name</th><th>Size</th><th>Modified</th></tr></thead><tbody>" +:+
  (if String.eqb url_path "/" then ""
   else "<tr><td><a href=" +:+ quoted "../" +:+ ">../</a></td>" +:+
        "<td class=" +:+ quoted "size" +:+ ">-</td>" +:+
        "<td class=" +:+ quoted "mtime" +:+ ">-</td></tr>") +:+
  String.concat "" (render_row <$> entries) +:+
  "</tbody></table></body></html>" +:+ newline.
End listing.

(** * Responses ([src/error.rs])

    A fresh response is its status, the headers in the order they are
    attached, and its body; a file body is the opened file, the offset it was
    positioned at and the byte limit. *)
Inductive RespBody :=
  | BText (s : string)
  | BFile (path : string) (start : N) (limit : option N).

Record Resp := {
  rs_status : N;
  rs_headers : list (string * string);
  rs_body : RespBody;
}.

Definition html_response (status : N) (body : string) : Resp :=
  {| rs_status := status; rs_headers := [("Content-Type", "text/html; charset=utf-8")];
     rs_body := BText body |}.

Definition response_400 : Resp := html_response 400 "<h1>400 Bad Request</h1>".
Definition response_403 : Resp := html_response 403 "<h1>403 Forbidden</h1>".
Definition response_404 : Resp := html_response 404 "<h1>404 Not Found</h1>".
Definition response_500 : Resp := html_response 500 "<h1>500 Internal Server Error</h1>".

Definition NO_INDEX_403_BODY : string :=
  "<!doctype html><html lang=" +:+ quoted "en" +:+ "><head><meta charset=" +:+ quoted "utf-8" +:+
  "><meta name=" +:+ quoted "viewport" +:+ " content=" +:+
  quoted "width=device-width, initial-scale=1" +:+
  "><title>403 - nothing to serve here</title><style>" +:+
  "body{font-family:system-ui,sans-serif;max-width:40rem;margin:4rem auto;" +:+
  "padding:0 1rem;line-height:1.5;color:#222}" +:+
  "h1{font-size:1.4rem}code{background:#f3f3f3;padding:.1em .35em;" +:+
  "border-radius:4px}ul{padding-left:1.2rem}" +:+
  "footer{margin-top:2rem;color:#888;font-size:.85rem}" +:+
  "</style></head><body>" +:+
  "<h1>403 &mdash; nothing to serve here</h1>" +:+
  "<p>This location maps to a directory that has no index file, and " +:+
  "directory listing is disabled.</p>" +:+
  "<p>To serve content, do one of:</p>" +:+
  "<ul>" +:+
  "<li>add an <code>index.html</code> (or <code>index.htm</code>) to the " +:+
  "directory;</li>" +:+
  "<li>enable a listing with <code>directory-listing=#true</code>;</li>" +:+
  "<li>redirect elsewhere with <code>fallback-redirect=" +:+ quoted "&hellip;" +:+ "</code>." +:+
  "</li>" +:+
  "</ul>" +:+
  "<footer>hypershunt</footer>" +:+
  "</body></html>".

Definition response_403_no_index : Resp := html_response 403 NO_INDEX_403_BODY.

Definition response_416 (total_len : N) : Resp :=
  {| rs_status := 416; rs_headers := [("Content-Range", "bytes */" +:+ dec total_len)];
     rs_body := BText "<h1>416 Range Not Satisfiable</h1>" |}.

(** * Byte ranges *)

(** [None] serves the whole file, [Some (Err _)] is a 416. *)
Definition parse_range_header `{Http} (headers : header_map) (file_len : N)
    : option (Result (N * N)) :=
  value ← get_str headers "range";
  bytes ← strip_prefix "bytes=" value;
  if contains_char "," bytes then None
  else
    r ← match strip_prefix "-" bytes with
        | Some suffix =>
            n ← parse_uint u64_max suffix;
            if (n =? 0) || (file_len =? 0) then Some (Err "range")
            else Some (Ok (file_len - n, file_len - 1))
        | None =>
            let parts := splitn 2 "-" bytes in
            p0 ← parts !! 0%nat;
            start ← parse_uint u64_max p0;
            end_str ← parts !! 1%nat;
            if is_empty end_str then
              if file_len =? 0 then Some (Err "range") else Some (Ok (start, file_len - 1))
            else e ← parse_uint u64_max end_str; Some (Ok (start, e))
        end;
    Some (match r with
          | Err t => Err t
          | Ok (start, e) => if (e <? start) || (file_len <=? e) then Err "range" else Ok (start, e)
          end).

(** * Streaming *)

Definition CHUNK : N := 65536.

(** [fb_file] is what is left to read of the file. *)
Record FileBody := {
  fb_file : string;
  fb_remaining : option N;
  fb_done : bool;
}.

Definition new_file_body (file : string) (limit : option N) : FileBody :=
  {| fb_file := file; fb_remaining := limit; fb_done := false |}.

(** What the operating system does with one read: nothing yet, an error, or
    some bytes, at most [n] of those asked for and at least one unless the
    file is at its end. *)
Inductive Read :=
  | RPending
  | RFail
  | RBytes (n : nat).

Inductive Poll :=
  | Pending
  | End
  | Failed
  | Data (bytes : string).

Definition poll_frame (b : FileBody) (r : Read) : Poll * FileBody :=
  let finish := {| fb_file := fb_file b; fb_remaining := fb_remaining b; fb_done := true |} in
  if fb_done b then (End, b)
  else
    let want := match fb_remaining b with
                | Some 0 => None
                | Some rem => Some (N.min rem CHUNK)
                | None => Some CHUNK
                end in
    match want with
    | None => (End, finish)
    | Some want =>
        match r with
        | RPending => (Pending, b)
        | RFail => (Failed, finish)
        | RBytes n =>
            let filled := str_take (Nat.min (Nat.max 1 n) (N.to_nat want)) (fb_file b) in
            let n := String.length filled in
            if (n =? 0)%nat then (End, finish)
            else (Data filled,
                  {| fb_file := str_drop n (fb_file b);
                     fb_remaining := (λ rem, rem - N.of_nat n) <$> fb_remaining b;
                     fb_done := false |})
        end
    end.

(** The body polled through a schedule of reads: the data delivered, and
    whether the end was reported. *)
Fixpoint drain (b : FileBody) (reads : list Read) : string * bool :=
  match reads with
  | [] => ("", false)
  | r :: reads' =>
      match poll_frame b r with
      | (End, _) => ("", true)
      | (Failed, _) => ("", false)
      | (Pending, b') => drain b' reads'
      | (Data d, b') => let '(rest, fin) := drain b' reads' in (d +:+ rest, fin)
      end
  end.

(** * The handler *)

Record Metadata := {
  md_is_dir : bool;
  md_is_file : bool;
  md_len : N;
  md_modified : option SystemTime;
}.

Record DirEntry := {
  de_name : option string;
  de_metadata : option Metadata;
}.

Record User := {
  u_uid : N;
  u_dir : string;
}.

(** What the operating system and the [mime_guess] crate answer: [canonicalize],
    [metadata], the bytes of a file that can be opened, whether it can be
    repositioned, the entries of a directory up to the first error, the user
    database and the MIME table. *)
Class System := {
  canonicalize : string → option string;
  fs_metadata : string → option Metadata;
  fs_open : string → option string;
  fs_seek : string → N → bool;
  fs_read_dir : string → option (list DirEntry);
  user_from_name : string → option User;
  mime_from_path : string → option string;
}.

(** [modified().ok().and_then(|t| t.duration_since(UNIX_EPOCH).ok())], in
    seconds. *)
Definition mtime_secs (md : Metadata) : option Z :=
  t ← md_modified md;
  if (0 <=? t)%Z then Some (t / Z.of_N nanos_per_sec)%Z else None.

Definition compute_etag (md : Metadata) : string :=
  quoted (dec (Z.to_N (default 0%Z (mtime_secs md))) +:+ "-" +:+ dec (md_len md)).

Record Metrics := {
  static_not_modified_total : N;
  static_range_total : N;
  static_bytes_served_total : N;
}.

(** [c.as_os_str().to_str().map(|s| s.starts_with('.')).unwrap_or(false)]. *)
Definition hidden (c : string) : bool := valid_utf8 c && starts_with "." c.

Section handler.
Context `{Http} `{Regex} `{System} (fmt_tenths : N → N → string).
Import Template Vars.

Abbreviation slots := (list (option string)) (only parsing).
Abbreviation VarScope := (option VarTable) (only parsing).

Definition is_not_modified (headers : header_map) (etag : string) : bool :=
  match get_str headers "if-none-match" with
  | Some v => String.eqb v etag
  | None => false
  end.

Record StaticHandler := {
  h_root : option string;
  h_index_files : list string;
  h_strip_prefix : bool;
  h_try_files : list Template;
  h_directory_listing : bool;
  h_fallback_redirect : option Template;
  h_userdir : option string;
  h_userdir_allowlist : list string;
  h_userdir_min_uid : N;
}.

Fixpoint resolve_index (names : list string) (dir : string) : option string :=
  match names with
  | [] => None
  | name :: names' =>
      let candidate := path_join dir name in
      match fs_metadata candidate with
      | Some _ => Some candidate
      | None => resolve_index names' dir
      end
  end.

(** Rendering threads the request's memo slots; [None] is exhausted fuel. *)
Definition emit_fallback_redirect (h : StaticHandler) (sc : VarScope) (ctx : RequestContext)
    (s : slots) : option (Resp * slots) :=
  match h_fallback_redirect h with
  | None => Some (response_500, s)
  | Some t =>
      '(url, s) ← Vars.render sc ctx t s;
      Some (match hv_from_str url with
            | None => response_500
            | Some v =>
                {| rs_status := 302;
                   rs_headers := [("location", hv_as_bytes v); ("content-length", "0");
                                 ("cache-control", "no-store")];
                   rs_body := BText "" |}
            end, s)
  end.

Definition with_path (ctx : RequestContext) (p : string) : RequestContext :=
  {| client_ip := client_ip ctx; username := username ctx; groups := groups ctx;
     method := method ctx; path := p; query := query ctx;
     path_and_query := path_and_query ctx; host := host ctx; scheme := scheme ctx;
     client_cert_subject := client_cert_subject ctx;
     client_cert_sans := client_cert_sans ctx; country := country ctx;
     ctx_headers := ctx_headers ctx |}.

Fixpoint try_files_resolve (templates : list Template) (root : string) (sc : VarScope)
    (tf_ctx : RequestContext) (s : slots) : option (option string * slots) :=
  match templates with
  | [] => Some (None, s)
  | t :: templates' =>
      '(candidate, s) ← Vars.render sc tf_ctx t s;
      match safe_join root candidate with
      | None => try_files_resolve templates' root sc tf_ctx s
      | Some joined =>
          match fs_metadata joined with
          | Some md => if md_is_file md then Some (Some candidate, s)
                       else try_files_resolve templates' root sc tf_ctx s
          | None => try_files_resolve templates' root sc tf_ctx s
          end
      end
  end.

Definition user_char (b : ascii) : bool :=
  byte_in 48 57 b || byte_in 65 90 b || byte_in 97 122 b || Ascii.eqb b "_" || Ascii.eqb b "-".

Definition resolve_userdir (h : StaticHandler) (relative subdir : string) : Resp + string * string :=
  let path := default relative (strip_prefix "/" relative) in
  match strip_prefix "~" path with
  | None => inl response_404
  | Some path =>
      let '(username, rest) := match split_once "/" path with
                               | Some (u, r) => (u, r)
                               | None => (path, "")
                               end in
      if is_empty username then inl response_404
      else if negb (str_all user_char username) then inl response_404
      else if bool_decide (h_userdir_allowlist h ≠ []) &&
              negb (existsb (λ u, String.eqb u username) (h_userdir_allowlist h))
      then inl response_404
      else match user_from_name username with
           | None => inl response_404
           | Some user =>
               if u_uid user <? h_userdir_min_uid h then inl response_404
               else inr (path_join (u_dir user) subdir, "/" +:+ rest)
           end
  end.

Definition list_entry (e : DirEntry) : option Entry :=
  name ← de_name e;
  if starts_with "." name then None
  else md ← de_metadata e;
       Some {| en_name := name; en_is_dir := md_is_dir md; en_size := md_len md;
               en_mtime := mtime_secs md |}.

Definition render_directory_listing (dir url_path : string) : Resp :=
  if negb (ends_with_slash url_path) then
    {| rs_status := 301; rs_headers := [("Location", url_path +:+ "/")]; rs_body := BText "" |}
  else match fs_read_dir dir with
       | None => response_500
       | Some rd =>
           let entries := merge_sort entry_le (omap list_entry rd) in
           let html := render_listing_html fmt_tenths url_path entries in
           {| rs_status := 200;
              rs_headers := [("Content-Type", "text/html; charset=utf-8");
                            ("Content-Length", dec (str_len html));
                            ("Cache-Control", "no-cache")];
              rs_body := BText html |}
       end.

(** The response for a file that was found: conditional, partial or whole. *)
Definition serve_target (headers : header_map) (target : string) (m : Metrics) : Resp * Metrics :=
  match fs_metadata target with
  | None => (response_404, m)
  | Some metadata =>
      let etag := compute_etag metadata in
      if is_not_modified headers etag then
        ({| rs_status := 304; rs_headers := [("ETag", etag)]; rs_body := BText "" |},
         {| static_not_modified_total := wrap64 (static_not_modified_total m + 1);
            static_range_total := static_range_total m;
            static_bytes_served_total := static_bytes_served_total m |})
      else
        let file_len := md_len metadata in
        let content_type := default "application/octet-stream" (mime_from_path target) in
        match parse_range_header headers file_len with
        | Some (Ok (start, e)) =>
            match fs_open target with
            | None => (response_500, m)
            | Some _ =>
                if negb (fs_seek target start) then (response_500, m)
                else
                  let length := e - start + 1 in
                  ({| rs_status := 206;
                      rs_headers :=
                        [("Content-Type", content_type); ("Content-Length", dec length);
                         ("Content-Range",
                          "bytes " +:+ dec start +:+ "-" +:+ dec e +:+ "/" +:+ dec file_len);
                         ("ETag", etag); ("Accept-Ranges", "bytes")];
                      rs_body := BFile target start (Some length) |},
                   {| static_not_modified_total := static_not_modified_total m;
                      static_range_total := wrap64 (static_range_total m + 1);
                      static_bytes_served_total := wrap64 (static_bytes_served_total m + length) |})
            end
        | Some (Err _) => (response_416 file_len, m)
        | None =>
            match fs_open target with
            | None => (response_500, m)
            | Some _ =>
                ({| rs_status := 200;
                    rs_headers :=
                      [("Content-Type", content_type); ("Content-Length", dec file_len);
                       ("ETag", etag); ("Accept-Ranges", "bytes")];
                    rs_body := BFile target 0 None |},
                 {| static_not_modified_total := static_not_modified_total m;
                    static_range_total := static_range_total m;
                    static_bytes_served_total :=
                      wrap64 (static_bytes_served_total m + file_len) |})
            end
        end
  end.

(** From the effective root and the relative path to the response. *)
Definition serve_path (h : StaticHandler) (sc : VarScope) (ctx : RequestContext)
    (url_path : string) (headers : header_map) (effective_root relative : string)
    (s : slots) (m : Metrics) : option (Resp * slots * Metrics) :=
  match safe_join effective_root relative with
  | None => Some (response_400, s, m)
  | Some file_path =>
      match canonicalize effective_root with
      | None => Some (response_500, s, m)
      | Some canonical_root =>
          match canonicalize file_path with
          | None => Some (response_404, s, m)
          | Some canonical_path =>
              match strip_components (components canonical_root) (components canonical_path) with
              | None => Some (response_403, s, m)
              | Some relative =>
                  if existsb hidden relative then Some (response_404, s, m)
                  else
                    match fs_metadata canonical_path with
                    | None => Some (response_404, s, m)
                    | Some metadata =>
                        if md_is_dir metadata then
                          match resolve_index (h_index_files h) canonical_path with
                          | Some p => let '(r, m) := serve_target headers p m in Some (r, s, m)
                          | None =>
                              if h_directory_listing h then
                                Some (render_directory_listing canonical_path url_path, s, m)
                              else match h_fallback_redirect h with
                                   | Some _ =>
                                       '(r, s) ← emit_fallback_redirect h sc ctx s; Some (r, s, m)
                                   | None => Some (response_403_no_index, s, m)
                                   end
                          end
                        else let '(r, m) := serve_target headers canonical_path m in Some (r, s, m)
                    end
              end
          end
      end
  end.

(** [handle]; [None] is a panic (no root configured, excluded by the
    configuration's validation) or exhausted fuel. *)
Definition handle (h : StaticHandler) (sc : VarScope) (ctx : RequestContext)
    (uri_path : string) (headers : header_map) (matched_prefix : string)
    (s : slots) (m : Metrics) : option (Resp * slots * Metrics) :=
  let relative := if h_strip_prefix h then default uri_path (strip_prefix matched_prefix uri_path)
                  else uri_path in
  located ← match h_userdir h with
            | Some subdir => Some (resolve_userdir h relative subdir)
            | None => root ← h_root h; Some (inr (root, relative))
            end;
  match located with
  | inl resp => Some (resp, s, m)
  | inr (effective_root, relative) =>
      if bool_decide (h_try_files h = []) then
        serve_path h sc ctx uri_path headers effective_root relative s m
      else
        '(found, s) ← try_files_resolve (h_try_files h) effective_root sc (with_path ctx relative) s;
        match found with
        | None => Some (response_404, s, m)
        | Some relative => serve_path h sc ctx uri_path headers effective_root relative s m
        end
  end.

End handler.

(** * Lemmas on paths *)

Definition normal_segs (p : string) : list string :=
  List.filter (λ s, negb (is_empty s) && negb (String.eqb s ".")) (split "/" p).

Lemma normal_segs_app a b : normal_segs (a +:+ "/" +:+ b) = normal_segs a ++ normal_segs b.
Proof.
  unfold normal_segs. change ("/" +:+ b) with (String "/" b).
  by rewrite split_app, List.filter_app.
Qed.

Lemma ends_with_slash_split s : ends_with_slash s = true → ∃ r, s = r +:+ "/".
Proof.
  unfold ends_with_slash. induction s as [|c s IH]; [done|]. cbn.
  destruct s as [|d s].
  - intros ->%Ascii.eqb_eq. by exists "".
  - intros [r Hr]%IH. exists (String c r). by rewrite str_app_cons, <- Hr.
Qed.

Lemma normal_segs_join base p :
  base ≠ "" → starts_with "/" p = false → normal_segs (path_join base p) = normal_segs base ++ normal_segs p.
Proof.
  intros Hb Hp. unfold path_join. rewrite Hp. unfold is_empty.
  destruct (String.eqb_spec base ""); [done|]. cbn [orb].
  destruct (ends_with_slash base) eqn:E; [|apply normal_segs_app].
  apply ends_with_slash_split in E as [r ->].
  rewrite str_app_assoc, normal_segs_app. f_equal.
  pose proof (normal_segs_app r "") as Er. rewrite str_app_nil_r in Er. rewrite Er.
  symmetry. apply app_nil_r.
Qed.

Lemma starts_with_join base p :
  starts_with "/" base = true → starts_with "/" p = false → starts_with "/" (path_join base p) = true.
Proof.
  rewrite !starts_with_true. intros [r ->] Hp. unfold path_join. rewrite Hp.
  destruct (is_empty _ || _); rewrite str_app_assoc; eauto.
Qed.

Lemma components_absolute p : starts_with "/" p = true → components p = "/" :: normal_segs p.
Proof. intros E. unfold components. by rewrite E. Qed.

Lemma trim_start_slash s : starts_with "/" (trim_start_by (Ascii.eqb "/") s) = false.
Proof.
  induction s as [|c s IH]; [done|]. cbn. destruct (Ascii.eqb_spec "/" c) as [|Hn]; [done|].
  apply not_true_iff_false. intros [r E]%starts_with_true. injection E as -> _. done.
Qed.

Lemma trim_start_split s x :
  x ∈ split "/" (trim_start_by (Ascii.eqb "/") s) → x ∈ split "/" s.
Proof.
  induction s as [|c s IH]; [done|]. cbn [trim_start_by].
  destruct (Ascii.eqb_spec "/" c) as [<-|Hn]; [|done]. intros Hx%IH. cbn. by right.
Qed.

Lemma safe_join_shape root p q :
  safe_join root p = Some q →
  ∃ rel, q = path_join root rel ∧ starts_with "/" rel = false ∧ ".." ∉ split "/" rel.
Proof.
  unfold safe_join. destruct (contains_char _ p); [done|].
  destruct (existsb _ _) eqn:E; [done|]. intros [= <-].
  eexists. split; [done|]. split; [apply trim_start_slash|]. intros Hin%trim_start_split.
  apply not_true_iff_false in E. apply E, existsb_exists. exists "..".
  split; [by apply list_elem_of_In|done].
Qed.

Lemma safe_join_None root p :
  safe_join root p = None ↔
  contains_char (ascii_of_N 0) p = true ∨ ".." ∈ split "/" (percent_decode p).
Proof.
  unfold safe_join. destruct (contains_char _ p); [naive_solver|].
  destruct (existsb _ _) eqn:E.
  - apply existsb_exists in E as (x & Hx & ->%String.eqb_eq). apply list_elem_of_In in Hx.
    naive_solver.
  - split; [done|]. intros [|Hin]; [done|]. apply not_true_iff_false in E. destruct E.
    apply existsb_exists. exists "..". split; [by apply list_elem_of_In|done].
Qed.

(** ** Percent coding *)

Lemma decode_safe b t :
  url_safe b = true → percent_decode_bytes (String b t) = String b (percent_decode_bytes t).
Proof. intros Hb. cbn. destruct (Ascii.eqb_spec b "%") as [->|]; [by vm_compute in Hb|done]. Qed.

Lemma decode_percent_byte b t :
  percent_decode_bytes (percent_byte b +:+ t) = String b (percent_decode_bytes t).
Proof. by destruct b as [[] [] [] [] [] [] [] []]. Qed.

Lemma decode_encode s : percent_decode_bytes (url_encode_segment s) = s.
Proof.
  induction s as [|b s IH]; [done|]. cbn [url_encode_segment].
  destruct (url_safe b) eqn:E.
  - change (String b "" +:+ url_encode_segment s) with (String b (url_encode_segment s)).
    by rewrite decode_safe, IH.
  - by rewrite decode_percent_byte, IH.
Qed.

Definition href_char (c : ascii) : bool := url_safe c || Ascii.eqb c "%".

Lemma encode_chars s : str_all href_char (url_encode_segment s) = true.
Proof.
  induction s as [|b s IH]; [done|]. cbn [url_encode_segment]. rewrite str_all_app, IH, andb_true_r.
  by destruct b as [[] [] [] [] [] [] [] []].
Qed.

(** A character that cannot end or begin markup or an attribute value. *)
Definition inert_char (c : ascii) : bool :=
  negb (Ascii.eqb c "<" || Ascii.eqb c ">" || Ascii.eqb c dq || Ascii.eqb c "'").

Lemma escape_chars s : str_all inert_char (html_escape s) = true.
Proof.
  induction s as [|b s IH]; [done|]. cbn [html_escape]. rewrite str_all_app, IH, andb_true_r.
  by destruct b as [[] [] [] [] [] [] [] []].
Qed.

(** * Lemmas on streaming *)

(** What a body has left to deliver. *)
Definition owed (b : FileBody) : string :=
  match fb_remaining b with
  | Some n => str_take (N.to_nat n) (fb_file b)
  | None => fb_file b
  end.

(** The bytes asked for by the next read. *)
Definition wanted (b : FileBody) : N :=
  match fb_remaining b with Some rem => N.min rem CHUNK | None => CHUNK end.

Lemma owed_step b j :
  (j ≤ N.to_nat (wanted b))%nat →
  owed b = str_take j (fb_file b) +:+
    owed {| fb_file := str_drop j (fb_file b);
            fb_remaining := (λ rem, rem - N.of_nat j) <$> fb_remaining b; fb_done := false |}.
Proof.
  unfold owed, wanted. destruct (fb_remaining b) as [rem|]; cbn; intros Hj.
  - rewrite (str_take_step j) by lia. do 2 f_equal. lia.
  - by rewrite str_take_drop.
Qed.

Lemma poll_frame_bytes b n :
  fb_done b = false →
  poll_frame b (RBytes n) =
    if is_empty (owed b)
    then (End, {| fb_file := fb_file b; fb_remaining := fb_remaining b; fb_done := true |})
    else let filled := str_take (Nat.min (Nat.max 1 n) (N.to_nat (wanted b))) (fb_file b) in
         (Data filled, {| fb_file := str_drop (String.length filled) (fb_file b);
                          fb_remaining :=
                            (λ rem, rem - N.of_nat (String.length filled)) <$> fb_remaining b;
                          fb_done := false |}).
Proof.
  intros Hd. unfold poll_frame. rewrite Hd. unfold owed, wanted.
  destruct (fb_remaining b) as [[|p]|]; [done| |].
  all: destruct (fb_file b) as [|c f].
  1,3: by rewrite !str_take_nil.
  - rewrite (proj2 (Nat.eqb_neq _ _)) by (rewrite length_str_take; unfold CHUNK; cbn; lia).
    by destruct (N.to_nat (N.pos p)) eqn:Ep; [lia|].
  - rewrite (proj2 (Nat.eqb_neq _ _)) by (rewrite length_str_take; unfold CHUNK; cbn; lia). done.
Qed.

Definition is_bytes (r : Read) : bool := match r with RBytes _ => true | _ => false end.

Lemma drain_exact reads b :
  RFail ∉ reads → fb_done b = false →
  (String.length (owed b) < length (List.filter is_bytes reads))%nat →
  drain b reads = (owed b, true).
Proof.
  revert b. induction reads as [|r reads IH]; intros b Hf Hd Hlen; cbn in *; [lia|].
  apply not_elem_of_cons in Hf as [Hr Hf]. destruct r as [| |n]; cbn in Hlen; [|done|].
  - unfold poll_frame. rewrite Hd. unfold owed in *.
    destruct (fb_remaining b) as [[|p]|] eqn:Er; [done|..]; rewrite IH; unfold owed; by rewrite ?Er.
  - rewrite poll_frame_bytes by done. unfold is_empty.
    destruct (String.eqb_spec (owed b) "") as [->|Hne]; [done|].
    cbv zeta. set (filled := str_take _ _).
    assert (owed b = filled +:+ owed {| fb_file := str_drop (String.length filled) (fb_file b);
      fb_remaining := (λ rem, rem - N.of_nat (String.length filled)) <$> fb_remaining b;
      fb_done := false |}) as Eo.
    { unfold filled at 1. rewrite <- str_take_length. apply owed_step.
      unfold filled. rewrite length_str_take. lia. }
    assert (1 ≤ String.length filled)%nat as Hpos.
    { unfold filled. rewrite length_str_take. unfold owed, wanted in *.
      destruct (fb_file b) as [|c f]; [by destruct (fb_remaining b) as [k|]; [destruct (N.to_nat k)|]|].
      cbn [String.length]. unfold CHUNK. destruct (fb_remaining b) as [k|]; [|lia].
      destruct (decide (k = 0)) as [->|]; [done|lia]. }
    rewrite IH; [by rewrite <- Eo|done|done|].
    rewrite Eo, str_length_app in Hlen. lia.
Qed.

(** * Dates *)

Section calendar.
#[local] Open Scope Z_scope.

Lemma days_to_ymd_march era yoe doy :
  0 <= era → 0 <= yoe < 400 → 0 <= doy <= last_doy yoe →
  days_to_ymd (era * 146097 + (365 * yoe + yoe / 4 - yoe / 100 + doy) - 719468) =
  march_date (yoe + era * 400) doy.
Proof.
  intros He Hy Hd. pose proof (doe_bounds yoe doy Hy Hd) as Hb. unfold days_to_ymd.
  set (doe := 365 * yoe + yoe / 4 - yoe / 100 + doy) in *.
  replace (era * 146097 + doe - 719468 + 719468) with (era * 146097 + doe) by lia.
  rewrite (proj2 (Z.leb_le 0 (era * 146097 + doe))) by lia.
  rewrite Z.quot_div_nonneg by lia.
  replace ((era * 146097 + doe) / 146097) with era by div_lia.
  replace (era * 146097 + doe - era * 146097) with doe by lia.
  rewrite (yoe_recovered yoe doy doe) by done.
  replace (doe - (365 * yoe + yoe / 4 - yoe / 100)) with doy by lia. reflexivity.
Qed.

End calendar.

(** * Lemmas on the handler *)

Lemma parse_range_bounds `{Http} headers len start e :
  parse_range_header headers len = Some (Ok (start, e)) → start ≤ e ∧ e < len.
Proof.
  unfold parse_range_header. intros (v & _ & Hv)%bind_Some.
  apply bind_Some in Hv as (b & _ & Hb). destruct (contains_char "," b); [done|].
  apply bind_Some in Hb as ([[s1 e1]|] & _ & Hr); [|done]. injection Hr as Hr.
  destruct ((e1 <? s1) || (len <=? e1)) eqn:E; [done|]. injection Hr as -> ->.
  apply orb_false_iff in E as [?%N.ltb_ge ?%N.leb_gt]. done.
Qed.

Lemma resolve_index_in `{System} names dir p :
  resolve_index names dir = Some p → ∃ name, name ∈ names ∧ p = path_join dir name.
Proof.
  induction names as [|n names IH]; cbn; [done|]. destruct (fs_metadata _).
  - intros [= <-]. exists n. split; [by left|done].
  - intros (name & Hn & ->)%IH. exists name. split; [by right|done].
Qed.

Lemma serve_target_file `{Http} `{System} headers target m p start limit :
  rs_body (fst (serve_target headers target m)) = BFile p start limit → p = target.
Proof. unfold serve_target. repeat case_match; cbn; congruence. Qed.

Section serve.
Context `{Http} `{Regex} `{System} (fmt_tenths : N → N → string).

(** A file the handler may open for an effective root: its canonical path lies
    below the canonical root with no hidden component on the way, or it is an
    index file of such a directory. *)
Definition exposed (index_files : list string) (root p : string) : Prop :=
  ∃ croot cpath below,
    canonicalize root = Some croot ∧
    components cpath = components croot ++ below ∧ Forall (λ c, hidden c = false) below ∧
    (∃ q, safe_join root q ≫= canonicalize = Some cpath) ∧
    (p = cpath ∨
     (∃ md, fs_metadata cpath = Some md ∧ md_is_dir md = true) ∧
     ∃ name, name ∈ index_files ∧ p = path_join cpath name).

Lemma strip_components_app base p below :
  strip_components base p = Some below → p = base ++ below.
Proof.
  revert p. induction base as [|b base IH]; intros p; cbn; [by intros [= ->]|].
  destruct p as [|c p]; [done|]. destruct (String.eqb_spec b c); [|done]. intros ->%IH. by subst.
Qed.

Lemma serve_path_exposed h sc ctx url headers root rel s m r s' m' p start limit :
  serve_path fmt_tenths h sc ctx url headers root rel s m = Some (r, s', m') →
  rs_body r = BFile p start limit → exposed (h_index_files h) root p.
Proof.
  unfold serve_path. destruct (safe_join root rel) as [fp|] eqn:Ej; [|by intros [= <- _ _]].
  destruct (canonicalize root) as [croot|] eqn:Er; [|by intros [= <- _ _]].
  destruct (canonicalize fp) as [cpath|] eqn:Ec; [|by intros [= <- _ _]].
  destruct (strip_components _ _) as [below|] eqn:Eb; [|by intros [= <- _ _]].
  destruct (existsb hidden below) eqn:Eh; [by intros [= <- _ _]|].
  destruct (fs_metadata cpath) as [md|] eqn:Em; [|by intros [= <- _ _]].
  intros Hs Hp. exists croot, cpath, below. split_and!; [done|by apply strip_components_app| | |].
  { rewrite Forall_forall. intros c Hc. apply not_true_iff_false. intros Hh.
    apply not_true_iff_false in Eh. apply Eh, existsb_exists. exists c.
    split; [by apply list_elem_of_In|done]. }
  { exists rel. by rewrite Ej. }
  destruct (md_is_dir md) eqn:Ed.
  - destruct (resolve_index _ cpath) as [ip|] eqn:Ei.
    + right. split; [by eauto|]. apply resolve_index_in in Ei as (name & Hn & ->).
      exists name. split; [done|]. destruct (serve_target _ _ m) as [r1 m1] eqn:Et.
      injection Hs as <- _ _. by apply (serve_target_file headers (path_join cpath name) m p start limit); rewrite Et.
    + exfalso. destruct (h_directory_listing h).
      * injection Hs as <- _ _. unfold render_directory_listing in Hp.
        by repeat case_match; simplify_eq/=.
      * destruct (h_fallback_redirect h) eqn:Ef; [|by injection Hs as <- _ _].
        apply bind_Some in Hs as ([r1 s1] & He & [= <- _ _]). unfold emit_fallback_redirect in He.
        rewrite Ef in He. apply bind_Some in He as ([url1 s2] & _ & [= <- _]).
        by destruct (hv_from_str url1).
  - left. destruct (serve_target _ _ m) as [r1 m1] eqn:Et. injection Hs as <- _ _.
    by apply (serve_target_file headers cpath m p start limit); rewrite Et.
Qed.

(** * Properties *)

(** C28: whatever file the handler opens for a response lies, by its canonical
    path, below the canonical root of the request (the configured root, or the
    requested user's directory) with no hidden component on the way down, or
    is an index file joined to such a directory. *)
Theorem handle_confined h sc ctx uri headers prefix s m r s' m' p start limit :
  handle fmt_tenths h sc ctx uri headers prefix s m = Some (r, s', m') →
  rs_body r = BFile p start limit →
  ∃ root, exposed (h_index_files h) root p ∧
    match h_userdir h with
    | None => h_root h = Some root
    | Some subdir => ∃ name u, user_from_name name = Some u ∧ h_userdir_min_uid h ≤ u_uid u ∧
                       str_all user_char name = true ∧ root = path_join (u_dir u) subdir
    end.
Proof.
  unfold handle. intros Hh Hp. apply bind_Some in Hh as (loc & Hloc & Hh).
  destruct loc as [resp|[root rel]].
  { injection Hh as <- _ _. exfalso. destruct (h_userdir h) as [sub|].
    - injection Hloc as Hloc. unfold resolve_userdir in Hloc. by repeat case_match; simplify_eq/=.
    - by apply bind_Some in Hloc as (? & _ & [=]). }
  exists root. split.
  - case_bool_decide as Et; [by eapply serve_path_exposed|].
    apply bind_Some in Hh as ([[found|] s1] & _ & Hh); [by eapply serve_path_exposed|].
    by injection Hh as <- _ _.
  - destruct (h_userdir h) as [sub|].
    + injection Hloc as Hloc. unfold resolve_userdir in Hloc.
      repeat case_match; simplify_eq/=; eexists _, _;
        (split_and!; [done|by apply N.ltb_ge|by apply negb_false_iff|done]).
    + apply bind_Some in Hloc as (root' & Hr & [= -> _]). done.
Qed.

(** A partial response carries exactly the bytes it announces: for a
    regular file whose metadata agrees with its contents, the announced range
    lies within the file and any schedule of reads without failure, long
    enough to finish, delivers precisely that slice and then the end. *)
Theorem partial_response_exact headers target m r m' md content reads :
  serve_target headers target m = (r, m') → rs_status r = 206 →
  fs_metadata target = Some md → fs_open target = Some content → md_len md = str_len content →
  RFail ∉ reads → (String.length content < length (List.filter is_bytes reads))%nat →
  ∃ start e, start ≤ e ∧ e < str_len content ∧
    rs_body r = BFile target start (Some (e - start + 1)) ∧
    ("Content-Length", dec (e - start + 1)) ∈ rs_headers r ∧
    ("Content-Range", "bytes " +:+ dec start +:+ "-" +:+ dec e +:+ "/" +:+ dec (str_len content))
      ∈ rs_headers r ∧
    let slice := str_take (N.to_nat (e - start + 1)) (str_drop (N.to_nat start) content) in
    str_len slice = e - start + 1 ∧
    drain (new_file_body (str_drop (N.to_nat start) content) (Some (e - start + 1))) reads
      = (slice, true).
Proof.
  unfold serve_target. intros Hs H206 Hmd Hopen Hlen Hf Hreads. rewrite Hmd, Hopen in Hs.
  destruct (is_not_modified _ _) in Hs; [by injection Hs as <- _|].
  destruct (parse_range_header _ _) as [[[start e]|t]|] eqn:Er in Hs;
    [|by injection Hs as <- _|by injection Hs as <- _].
  destruct (fs_seek target start) in Hs; cbn in Hs; [|by injection Hs as <- _].
  injection Hs as <- _. apply parse_range_bounds in Er as [Hse Hel]. rewrite Hlen in *.
  exists start, e. cbn [rs_headers rs_body rs_status].
  split; [done|]. split; [done|]. split; [done|]. split; [by right; left|].
  split; [by do 2 right; left|]. cbv zeta. split.
  - unfold str_len in *. rewrite length_str_take, length_str_drop. lia.
  - rewrite drain_exact; [done..|]. unfold owed. cbn [fb_remaining fb_file new_file_body].
    rewrite length_str_take, length_str_drop. lia.
Qed.

(** The allowlist of per-user directories narrows the UID threshold and
    never overrides it: a listed account below the threshold is refused. *)
Theorem userdir_uid_always_checked h name u subdir :
  name ∈ h_userdir_allowlist h → contains_char "/" name = false →
  user_from_name name = Some u → u_uid u < h_userdir_min_uid h →
  resolve_userdir h ("/~" +:+ name) subdir = inl response_404.
Proof.
  intros _ Hc Hu Hlt. unfold resolve_userdir.
  change ("/~" +:+ name) with ("/" +:+ ("~" +:+ name)). rewrite strip_prefix_app.
  change (default _ (Some ?p)) with p. rewrite strip_prefix_app.
  rewrite (split_once_no_sep _ _ Hc), Hu, (proj2 (N.ltb_lt _ _) Hlt).
  by repeat case_match.
Qed.

End serve.

(** Joining a request path to an absolute root stays, component by
    component, below that root and introduces no [..], whatever the percent
    encoding of the path; it is refused exactly when the raw path has a NUL
    byte or the decoded path has a [..] segment. *)
Theorem safe_join_confined root p :
  starts_with "/" root = true →
  match safe_join root p with
  | Some q => ∃ rest, components q = components root ++ rest ∧ ".." ∉ rest
  | None => contains_char (ascii_of_N 0) p = true ∨ ".." ∈ split "/" (percent_decode p)
  end.
Proof.
  intros Hr. destruct (safe_join root p) as [q|] eqn:E; [|by apply safe_join_None in E].
  apply safe_join_shape in E as (rel & -> & Hrel & Hdots).
  rewrite !components_absolute by auto using starts_with_join.
  rewrite normal_segs_join by (done || by intros ->). exists (normal_segs rel). split; [done|].
  unfold normal_segs. intros Hin%list_elem_of_In. apply List.filter_In in Hin as [Hin _].
  by apply list_elem_of_In in Hin.
Qed.

(** A file name cannot bend the listing: its link target consists of
    unreserved characters and percent signs only and decodes back to the
    name, and its display text has no character that opens markup or closes
    an attribute. *)
Theorem listing_name_inert name :
  valid_utf8 name = true →
  str_all href_char (url_encode_segment name) = true ∧
  percent_decode (url_encode_segment name) = name ∧
  str_all inert_char (html_escape name) = true.
Proof.
  intros Hv. split_and!; [apply encode_chars| |apply escape_chars].
  unfold percent_decode. rewrite decode_encode. by apply from_utf8_lossy_valid.
Qed.

(** The date arithmetic of listings agrees with the Gregorian calendar on
    every day from the epoch on. *)
Theorem days_to_ymd_calendar n :
  days_to_ymd (Z.of_nat n) = Nat.iter n next_day (1970, 1, 1)%Z.
Proof.
  destruct (civil_march n) as (era & yoe & doy & He & Hy & Hd & En & ->).
  rewrite En. by apply days_to_ymd_march.
Qed.

(** Routing looks at the raw path and the file handler at the decoded one,
    so a location prefix does not guard the files below it: a path that
    spells one letter of the prefix as an escape is routed to the location of
    the shorter prefix, and the handler then opens the very same file. *)
Theorem encoded_path_evades_location `{Http} `{Regex} {payload : Type}
    (guarded unguarded : payload) headers root rest :
  let location path payload :=
    {| Router.loc_path := path; Router.loc_matcher := None; Router.loc_rewrite := None;
       Router.loc_payload := payload |} in
  let vhost := {| Router.vh_name := "site";
                  Router.vh_locations := [location "/private/" guarded; location "/" unguarded] |} in
  let routed path :=
    (λ c, Router.loc_payload (snd c)) <$> Router.pick_location vhost
      {| Matcher.rq_method := "GET"; Matcher.rq_path := path; Matcher.rq_query := None;
         Matcher.rq_headers := headers |} in
  routed ("/private/" +:+ rest) = Some guarded ∧
  routed ("/%70rivate/" +:+ rest) = Some unguarded ∧
  safe_join root ("/%70rivate/" +:+ rest) = safe_join root ("/private/" +:+ rest).
Proof.
  cbv zeta. split_and!; [destruct rest; reflexivity..|]. unfold safe_join, percent_decode.
  assert (percent_decode_bytes ("/%70rivate/" +:+ rest) = percent_decode_bytes ("/private/" +:+ rest))
    as -> by reflexivity.
  assert (contains_char (ascii_of_N 0) ("/%70rivate/" +:+ rest) =
          contains_char (ascii_of_N 0) ("/private/" +:+ rest)) as -> by reflexivity.
  reflexivity.
Qed.

(** * Examples

    A web root whose index file is a symbolic link out of it. *)
Definition demo_lookup {A} (l : list (string * A)) (p : string) : option A :=
  snd <$> find (λ e, String.eqb (fst e) p) l.

Definition file_md (len : N) : Metadata :=
  {| md_is_dir := false; md_is_file := true; md_len := len; md_modified := None |}.
Definition dir_md : Metadata :=
  {| md_is_dir := true; md_is_file := false; md_len := 0; md_modified := None |}.

Definition demo_system : System := {|
  canonicalize := demo_lookup
    [("/srv/www", "/srv/www"); ("/srv/www/", "/srv/www");
     ("/srv/www/index.html", "/etc/shadow"); ("/srv/www/a.txt", "/srv/www/a.txt")];
  fs_metadata := demo_lookup
    [("/srv/www", dir_md); ("/srv/www/index.html", file_md 6); ("/etc/shadow", file_md 6);
     ("/srv/www/a.txt", file_md 10)];
  fs_open := demo_lookup
    [("/srv/www/index.html", "secret"); ("/srv/www/a.txt", "0123456789")];
  fs_seek _ _ := true;
  fs_read_dir _ := None;
  user_from_name := demo_lookup [("daemon", {| u_uid := 1; u_dir := "/usr/sbin" |})];
  mime_from_path _ := None;
|}.

Definition demo_handler : StaticHandler :=
  {| h_root := Some "/srv/www"; h_index_files := ["index.html"]; h_strip_prefix := false;
     h_try_files := []; h_directory_listing := false; h_fallback_redirect := None;
     h_userdir := None; h_userdir_allowlist := []; h_userdir_min_uid := 1000 |}.

Definition demo_metrics : Metrics :=
  {| static_not_modified_total := 0; static_range_total := 0; static_bytes_served_total := 0 |}.

Definition demo_handle (path : string) (headers : list (string * string)) : option Resp :=
  (λ r, fst (fst r)) <$>
  handle (H := assoc_http) (H0 := fixed_regex) (H1 := demo_system) (λ _ _, "") demo_handler None
    Template.empty_context path headers "/" [] demo_metrics.

(** The containment check is not repeated for index files: a link out of
    the root is refused under its own name and served as the index of its
    directory. *)
Theorem index_link_escapes_root :
  canonicalize (System := demo_system) "/srv/www/index.html" = Some "/etc/shadow" ∧
  demo_handle "/index.html" [] = Some response_403 ∧
  rs_status <$> demo_handle "/" [] = Some 200 ∧
  rs_body <$> demo_handle "/" [] = Some (BFile "/srv/www/index.html" 0 None).
Proof. vm_compute. done. Qed.

Lemma safe_join_confined_witness :
  match safe_join "/srv/www" "/docs/%2e/a%20b" with
  | Some q => ∃ rest, components q = components "/srv/www" ++ rest ∧ ".." ∉ rest
  | None => contains_char (ascii_of_N 0) "/docs/%2e/a%20b" = true ∨
            ".." ∈ split "/" (percent_decode "/docs/%2e/a%20b")
  end.
Proof. apply (safe_join_confined "/srv/www" "/docs/%2e/a%20b"). reflexivity. Defined.

Lemma listing_name_inert_witness :
  str_all href_char (url_encode_segment "<b>&'") = true ∧
  percent_decode (url_encode_segment "<b>&'") = "<b>&'" ∧
  str_all inert_char (html_escape "<b>&'") = true.
Proof. apply (listing_name_inert "<b>&'"). reflexivity. Defined.

Definition demo_range : list (string * string) := [("range", "bytes=2-4")].

Definition demo_partial : Resp :=
  fst (serve_target (H := assoc_http) (H1 := demo_system) demo_range "/srv/www/a.txt" demo_metrics).

Lemma partial_response_exact_witness :
  let reads := replicate 11 (RBytes 2) in
  ∃ start e, start ≤ e ∧ e < str_len "0123456789" ∧
    rs_body demo_partial = BFile "/srv/www/a.txt" start (Some (e - start + 1)) ∧
    ("Content-Length", dec (e - start + 1)) ∈ rs_headers demo_partial ∧
    ("Content-Range", "bytes " +:+ dec start +:+ "-" +:+ dec e +:+ "/" +:+ dec (str_len "0123456789"))
      ∈ rs_headers demo_partial ∧
    let slice := str_take (N.to_nat (e - start + 1)) (str_drop (N.to_nat start) "0123456789") in
    str_len slice = e - start + 1 ∧
    drain (new_file_body (str_drop (N.to_nat start) "0123456789") (Some (e - start + 1))) reads
      = (slice, true).
Proof.
  intros reads.
  apply (@partial_response_exact assoc_http demo_system demo_range "/srv/www/a.txt" demo_metrics
    demo_partial (snd (serve_target (H := assoc_http) (H1 := demo_system) demo_range "/srv/www/a.txt"
      demo_metrics)) (file_md 10) "0123456789" reads); try (vm_compute; reflexivity).
  subst reads. cbn. intros Hin. repeat (apply elem_of_cons in Hin as [Hin|Hin]; [done|]).
  by apply elem_of_nil in Hin.
Defined.

Lemma handle_confined_witness :
  ∃ root, exposed (H1 := demo_system) (h_index_files demo_handler) root "/srv/www/a.txt" ∧
    h_root demo_handler = Some root.
Proof.
  eapply (@handle_confined assoc_http fixed_regex demo_system (λ _ _, "") demo_handler None
    Template.empty_context "/a.txt" demo_range "/" [] demo_metrics demo_partial);
    vm_compute; reflexivity.
Defined.

Lemma userdir_uid_always_checked_witness :
  let h := {| h_root := None; h_index_files := []; h_strip_prefix := false; h_try_files := [];
              h_directory_listing := false; h_fallback_redirect := None;
              h_userdir := Some "public_html"; h_userdir_allowlist := ["daemon"];
              h_userdir_min_uid := 1000 |} in
  resolve_userdir (H1 := demo_system) h ("/~" +:+ "daemon") "public_html" = inl response_404.
Proof.
  intros h. eapply (@userdir_uid_always_checked demo_system h "daemon");
    [by left|reflexivity|vm_compute; reflexivity|vm_compute; reflexivity].
Defined.

End StaticFiles.
