(* ===== verification/ProxyProto.v ===== *)
(** The PROXY protocol ([src/proxy_proto.rs]): the headers sent to backends
    and the parser of the headers load balancers send.

    The reader is the text that will arrive; a read past its end is an error.
    The texts of addresses ([Display] and [FromStr] of the standard library's
    address types) are a class of operations with their documented laws. *)
From S2P Require Import Prelude RustStr Utf8 Net.

Class IpText := {
  v4_text : N → string;
  v4_parse : string → option N;
  v6_text : N → string;
  v6_parse : string → option N;
}.

(** Printing then parsing is the identity, neither family parses the texts of
    the other, and a text is short ASCII without spaces or line ends. *)
Definition text_char (c : ascii) : bool := byte_in 33 126 c.

Class IpTextLaws `{IpText} : Prop := {
  v4_parse_text a : a < 2 ^ 32 → v4_parse (v4_text a) = Some a;
  v6_parse_text a : a < 2 ^ 128 → v6_parse (v6_text a) = Some a;
  v4_parse_v6 a : a < 2 ^ 128 → v4_parse (v6_text a) = None;
  v6_parse_v4 a : a < 2 ^ 32 → v6_parse (v4_text a) = None;
  v4_text_chars a : str_all text_char (v4_text a) = true;
  v6_text_chars a : str_all text_char (v6_text a) = true;
  v4_text_length a : a < 2 ^ 32 → (String.length (v4_text a) ≤ 15)%nat;
  v6_text_length a : a < 2 ^ 128 → (String.length (v6_text a) ≤ 39)%nat;
}.

Module ProxyProto.

Record SocketAddr := {
  sa_ip : IpAddr;
  sa_port : N;
}.

Inductive ProxyProtocolVersion := V1 | V2.

(** A parsed header and what follows it in the stream. *)
Abbreviation Parsed := (Result (option (SocketAddr * SocketAddr) * string)) (only parsing).

Definition byte (n : N) : string := String (ascii_of_N n) "".
Definition CR : ascii := ascii_of_N 13.
Definition LF : ascii := ascii_of_N 10.
Definition CRLF : string := String CR (String LF "").

Section proxy.
Context `{IpText}.

(** * Builders *)

Definition ip_text (ip : IpAddr) : string :=
  match ip with Net.V4 a => v4_text a | Net.V6 a => v6_text a end.

Definition build_v1 (src dst : SocketAddr) : string :=
  let proto := match sa_ip src with Net.V4 _ => "TCP4" | Net.V6 _ => "TCP6" end in
  "PROXY " +:+ proto +:+ " " +:+ ip_text (sa_ip src) +:+ " " +:+ ip_text (sa_ip dst) +:+ " " +:+
  dec (sa_port src) +:+ " " +:+ dec (sa_port dst) +:+ CRLF.

Definition V2_SIGNATURE : string :=
  byte 13 +:+ byte 10 +:+ byte 13 +:+ byte 10 +:+ byte 0 +:+ byte 13 +:+ byte 10 +:+
  byte 81 +:+ byte 85 +:+ byte 73 +:+ byte 84 +:+ byte 10.

Definition build_v2 (src dst : SocketAddr) : string :=
  V2_SIGNATURE +:+ byte 33 +:+
  match sa_ip src, sa_ip dst with
  | Net.V4 s, Net.V4 d =>
      byte 17 +:+ octets 2 12 +:+ octets 4 s +:+ octets 4 d +:+
      octets 2 (sa_port src) +:+ octets 2 (sa_port dst)
  | Net.V6 s, Net.V6 d =>
      byte 33 +:+ octets 2 36 +:+ octets 16 s +:+ octets 16 d +:+
      octets 2 (sa_port src) +:+ octets 2 (sa_port dst)
  | _, _ => byte 0 +:+ octets 2 0
  end.

Definition build_header (version : ProxyProtocolVersion) (src dst : SocketAddr) : string :=
  match version with V1 => build_v1 src dst | V2 => build_v2 src dst end.

Definition build_v1_unknown : string := "PROXY UNKNOWN" +:+ CRLF.

Definition build_v2_unspec : string := V2_SIGNATURE +:+ byte 33 +:+ byte 0 +:+ octets 2 0.

(** A NUL-padded slot of 108 bytes, the path cut at 107. *)
Definition unix_slot (p : option string) : string :=
  let raw := default "" p in
  let kept := str_take (Nat.min (String.length raw) 107) raw in
  kept +:+ zeros (108 - String.length kept).

Definition build_v2_unix (src dst : option string) : string :=
  V2_SIGNATURE +:+ byte 33 +:+ byte 49 +:+ octets 2 216 +:+ unix_slot src +:+ unix_slot dst.

(** * Parser *)

(** [read_exact] of [n] bytes. *)
Definition read_exact (n : nat) (s : string) : Result (string * string) :=
  if (String.length s <? n)%nat then Err "unexpected end of file"
  else Ok (str_take n s, str_drop n s).

(** The line up to CR LF, both consumed; [room] bytes of the buffer are
    left, [acc] is what was read. *)
Fixpoint read_line (room : nat) (acc : string) (prev_cr : bool) (s : string)
    : Result (string * string) :=
  match room with
  | O => Err "PROXY v1 header exceeds 108 bytes"
  | S room' =>
      match s with
      | "" => Err "unexpected end of file"
      | String c s' =>
          if prev_cr && Ascii.eqb c LF then Ok (str_take (String.length acc - 1) acc, s')
          else read_line room' (acc +:+ String c "") (Ascii.eqb c CR) s'
      end
  end.

Definition bad_v1 : string := "malformed PROXY v1 header".

Definition parse_v1_line (line : string) : Result (option (SocketAddr * SocketAddr)) :=
  let parts := splitn 6 " " line in
  if negb (bool_decide (parts !! 0%nat = Some "PROXY")) then Err "PROXY v1 header missing prefix"
  else
    let proto := default "" (parts !! 1%nat) in
    if String.eqb proto "UNKNOWN" then Ok None
    else
      src_ip_s ← ok_or (parts !! 2%nat) bad_v1;
      dst_ip_s ← ok_or (parts !! 3%nat) bad_v1;
      src_port ← ok_or (parts !! 4%nat ≫= parse_uint u16_max) bad_v1;
      dst_port ← ok_or (parts !! 5%nat ≫= parse_uint u16_max) bad_v1;
      if String.eqb proto "TCP4" then
        s ← ok_or (v4_parse src_ip_s) bad_v1;
        d ← ok_or (v4_parse dst_ip_s) bad_v1;
        Ok (Some ({| sa_ip := Net.V4 s; sa_port := src_port |},
                  {| sa_ip := Net.V4 d; sa_port := dst_port |}))
      else if String.eqb proto "TCP6" then
        s ← ok_or (v6_parse src_ip_s) bad_v1;
        d ← ok_or (v6_parse dst_ip_s) bad_v1;
        Ok (Some ({| sa_ip := Net.V6 s; sa_port := src_port |},
                  {| sa_ip := Net.V6 d; sa_port := dst_port |}))
      else Err bad_v1.

Definition parse_v1 (reader : string) : Parsed :=
  '(raw, rest) ← read_line 108 "" false reader;
  line ← ok_or (from_utf8 raw) "PROXY v1 header is not valid UTF-8";
  r ← parse_v1_line line;
  Ok (r, rest).

Definition parse_v2_block (cmd family : N) (block : string)
    : Result (option (SocketAddr * SocketAddr)) :=
  if cmd =? 0 then Ok None
  else if negb (cmd =? 1) then Err "PROXY v2 unknown command byte"
  else if family =? 0 then Ok None
  else if family =? 1 then
    if (String.length block <? 12)%nat then Err "PROXY v2 AF_INET address block too short"
    else Ok (Some ({| sa_ip := Net.V4 (field 0 4 block); sa_port := field 8 2 block |},
                   {| sa_ip := Net.V4 (field 4 4 block); sa_port := field 10 2 block |}))
  else if family =? 2 then
    if (String.length block <? 36)%nat then Err "PROXY v2 AF_INET6 address block too short"
    else Ok (Some ({| sa_ip := Net.V6 (field 0 16 block); sa_port := field 32 2 block |},
                   {| sa_ip := Net.V6 (field 16 16 block); sa_port := field 34 2 block |}))
  else Ok None.

Definition parse_v2 (reader : string) : Parsed :=
  '(fixed, reader) ← read_exact 16 reader;
  if negb (String.eqb (str_take 12 fixed) V2_SIGNATURE) then Err "PROXY v2 signature mismatch"
  else
    let ver := N.shiftr (field 12 1 fixed) 4 in
    let cmd := N.land (field 12 1 fixed) 15 in
    if negb (ver =? 2) then Err "PROXY v2 version field must be 2"
    else
      let family := N.shiftr (field 13 1 fixed) 4 in
      let addr_len := field 14 2 fixed in
      '(block, reader) ← read_exact (N.to_nat addr_len) reader;
      r ← parse_v2_block cmd family block;
      Ok (r, reader).

Definition parse_incoming (reader : string) (version : ProxyProtocolVersion) : Parsed :=
  match version with V1 => parse_v1 reader | V2 => parse_v2 reader end.

(** * Lemmas *)

Definition addr_ok (a : SocketAddr) : Prop :=
  sa_port a ≤ u16_max ∧
  match sa_ip a with Net.V4 b => b < 2 ^ 32 | Net.V6 b => b < 2 ^ 128 end.

Definition same_family (a b : SocketAddr) : Prop :=
  match sa_ip a, sa_ip b with
  | Net.V4 _, Net.V4 _ | Net.V6 _, Net.V6 _ => True
  | _, _ => False
  end.

#[global] Instance same_family_dec a b : Decision (same_family a b).
Proof. unfold same_family. repeat case_match; apply _. Defined.

Lemma read_exact_app n a b : n = String.length a → read_exact n (a +:+ b) = Ok (a, b).
Proof.
  intros ->. unfold read_exact. rewrite str_length_app.
  rewrite (proj2 (Nat.ltb_ge _ _)) by lia. by rewrite str_take_app, str_drop_app.
Qed.

Lemma read_exact_Ok n s a b :
  read_exact n s = Ok (a, b) → s = a +:+ b ∧ String.length a = n.
Proof.
  unfold read_exact. destruct (Nat.ltb_spec (String.length s) n); [done|]. intros [= <- <-].
  rewrite str_take_drop, length_str_take. split; [done|lia].
Qed.

(** A header of sixteen fixed bytes and its block, at the head of a stream. *)
Lemma parse_v2_frame fixed block rest cmd family :
  String.length fixed = 16%nat → str_take 12 fixed = V2_SIGNATURE →
  N.shiftr (field 12 1 fixed) 4 = 2 → N.land (field 12 1 fixed) 15 = cmd →
  N.shiftr (field 13 1 fixed) 4 = family → N.to_nat (field 14 2 fixed) = String.length block →
  parse_v2 (fixed +:+ block +:+ rest) = r ← parse_v2_block cmd family block; Ok (r, rest).
Proof.
  intros Hl Hsig Hver <- <- Hlen. unfold parse_v2. rewrite read_exact_app by done.
  cbn [mbind result_bind]. rewrite Hsig, String.eqb_refl, Hver. cbn [negb].
  change (negb (2 =? 2)) with false. cbv iota.
  rewrite read_exact_app by done. reflexivity.
Qed.

(** The four fields of an address block of [n]-byte addresses. *)
Lemma block_fields n s d sp dp :
  let block := octets n s +:+ octets n d +:+ octets 2 sp +:+ octets 2 dp in
  s < 256 ^ N.of_nat n → d < 256 ^ N.of_nat n → sp ≤ u16_max → dp ≤ u16_max →
  String.length block = (2 * n + 4)%nat ∧ field 0 n block = s ∧ field n n block = d ∧
  field (2 * n) 2 block = sp ∧ field (2 * n + 2) 2 block = dp.
Proof.
  intros block Hs Hd Hsp Hdp. unfold block, u16_max in *. split_and!.
  - rewrite !str_length_app, !octets_length. lia.
  - by apply (field_octets 0 n "").
  - apply (field_octets n n (octets n s)); [by rewrite octets_length|done].
  - rewrite <- str_app_assoc. apply field_octets; [|cbn; lia].
    rewrite str_length_app, !octets_length. lia.
  - rewrite <- !str_app_assoc. apply field_octets_last; [|cbn; lia].
    rewrite !str_length_app, !octets_length. lia.
Qed.

(** ** Lines *)

Lemma read_line_app room acc line rest :
  contains_char CR line = false → (String.length line + 2 ≤ room)%nat →
  read_line room acc false (line +:+ CRLF +:+ rest) = Ok (acc +:+ line, rest).
Proof.
  revert room acc. induction line as [|c line IH]; intros room acc Hc Hr.
  - destruct room as [|[|room]]; [cbn in Hr; lia..|].
    change ("" +:+ CRLF +:+ rest) with (String CR (String LF rest)). cbn [read_line andb].
    rewrite Ascii.eqb_refl. cbn [andb]. rewrite Ascii.eqb_refl, str_length_app.
    replace (String.length acc + String.length (String CR "") - 1)%nat with (String.length acc)
      by (cbn; lia).
    by rewrite str_take_app, str_app_nil_r.
  - cbn [contains_char] in Hc. apply orb_false_iff in Hc as [Hc Hcs]. destruct room as [|room]; [cbn in Hr; lia|].
    rewrite str_app_cons. cbn [read_line andb]. rewrite Hc, IH; [|done|cbn in Hr; lia].
    by rewrite str_app_assoc.
Qed.

Lemma read_line_Ok room acc prev s line rest :
  read_line room acc prev s = Ok (line, rest) →
  ∃ hdr, s = hdr +:+ rest ∧ (String.length hdr ≤ room)%nat.
Proof.
  revert acc prev s. induction room as [|room IH]; intros acc prev s; cbn [read_line]; [done|].
  destruct s as [|c s]; [done|]. destruct (prev && Ascii.eqb c LF).
  - intros [= _ <-]. exists (String c ""). split; [done|cbn; lia].
  - intros (hdr & -> & Hl)%IH. exists (String c hdr). split; [done|cbn; lia].
Qed.

Lemma splitn_app n c a b :
  contains_char c a = false → splitn (S (S n)) c (a +:+ String c b) = a :: splitn (S n) c b.
Proof. intros Ha. cbn [splitn]. by rewrite split_once_app. Qed.

Lemma splitn_space n a b :
  contains_char " " a = false → splitn (S (S n)) " " (a +:+ " " +:+ b) = a :: splitn (S n) " " b.
Proof. apply splitn_app. Qed.

Lemma chars_no_sep p c s : p c = false → str_all p s = true → contains_char c s = false.
Proof.
  intros Hp. induction s as [|d s IH]; [done|]. cbn. intros [Hd Hs]%andb_true_iff.
  rewrite IH by done. destruct (Ascii.eqb_spec d c) as [->|]; [congruence|done].
Qed.

Context `{!IpTextLaws}.

Lemma ip_text_chars a : str_all text_char (ip_text (sa_ip a)) = true.
Proof. destruct (sa_ip a); [apply v4_text_chars|apply v6_text_chars]. Qed.

Lemma ip_text_length a : addr_ok a → (String.length (ip_text (sa_ip a)) ≤ 39)%nat.
Proof.
  intros [_ Hb]. destruct (sa_ip a); cbn in *.
  - etrans; [by apply v4_text_length|lia].
  - by apply v6_text_length.
Qed.

Lemma dec_chars n : str_all text_char (dec n) = true.
Proof.
  eapply str_all_impl; [|apply dec_digits]. by intros [[] [] [] [] [] [] [] []].
Qed.

Definition proto_of (a : SocketAddr) : string :=
  match sa_ip a with Net.V4 _ => "TCP4" | Net.V6 _ => "TCP6" end.

(** The line of a version 1 header, without its end. *)
Definition v1_line (src dst : SocketAddr) : string :=
  "PROXY" +:+ " " +:+ proto_of src +:+ " " +:+ ip_text (sa_ip src) +:+ " " +:+
  ip_text (sa_ip dst) +:+ " " +:+ dec (sa_port src) +:+ " " +:+ dec (sa_port dst).

Lemma build_v1_line src dst rest : build_v1 src dst +:+ rest = v1_line src dst +:+ CRLF +:+ rest.
Proof. unfold build_v1, v1_line. by rewrite !str_app_assoc. Qed.

Definition line_char (c : ascii) : bool := byte_in 32 126 c.

Lemma text_line s : str_all text_char s = true → str_all line_char s = true.
Proof. apply str_all_impl. by intros [[] [] [] [] [] [] [] []]. Qed.

Lemma v1_line_chars src dst : str_all line_char (v1_line src dst) = true.
Proof.
  unfold v1_line. rewrite !str_all_app.
  rewrite (text_line (ip_text (sa_ip src))), (text_line (ip_text (sa_ip dst))),
    (text_line (dec (sa_port src))), (text_line (dec (sa_port dst)))
    by auto using ip_text_chars, dec_chars.
  unfold proto_of. by destruct (sa_ip src).
Qed.

Lemma v1_line_length src dst :
  addr_ok src → addr_ok dst → (String.length (v1_line src dst) + 2 ≤ 108)%nat.
Proof.
  intros Hs Hd. unfold v1_line. rewrite !str_length_app.
  pose proof (ip_text_length src Hs). pose proof (ip_text_length dst Hd).
  assert (String.length (dec (sa_port src)) ≤ 5)%nat
    by (apply dec_length; [lia|destruct Hs as [Hp _]; unfold u16_max in Hp; cbn; lia]).
  assert (String.length (dec (sa_port dst)) ≤ 5)%nat
    by (apply dec_length; [lia|destruct Hd as [Hp _]; unfold u16_max in Hp; cbn; lia]).
  assert (String.length (proto_of src) = 4%nat) as -> by (unfold proto_of; by destruct (sa_ip src)).
  cbn [String.length]. lia.
Qed.

Lemma v1_line_parts src dst :
  splitn 6 " " (v1_line src dst) =
  ["PROXY"; proto_of src; ip_text (sa_ip src); ip_text (sa_ip dst);
   dec (sa_port src); dec (sa_port dst)].
Proof.
  unfold v1_line.
  assert (∀ s, str_all text_char s = true → contains_char " " s = false) as Hsp
    by (intros s; by apply chars_no_sep).
  rewrite !splitn_space by (first [done | unfold proto_of; by destruct (sa_ip src)
    | apply Hsp; auto using ip_text_chars, dec_chars]).
  done.
Qed.

Lemma parse_v1_build src dst rest :
  addr_ok src → addr_ok dst →
  parse_v1 (build_v1 src dst +:+ rest) =
    if decide (same_family src dst) then Ok (Some (src, dst), rest) else Err bad_v1.
Proof.
  intros Hs Hd. rewrite build_v1_line. unfold parse_v1.
  rewrite read_line_app; [|by eapply chars_no_sep, v1_line_chars|by apply v1_line_length].
  cbn [mbind result_bind]. rewrite str_app_nil_l. unfold from_utf8.
  rewrite valid_utf8_ascii.
  2:{ eapply str_all_impl; [|apply v1_line_chars]. by intros [[] [] [] [] [] [] [] []]. }
  cbn [ok_or mbind result_bind]. unfold parse_v1_line. rewrite v1_line_parts.
  destruct Hs as [Hsp Hsb], Hd as [Hdp Hdb].
  destruct src as [[s|s] sp], dst as [[d|d] dp]; cbn in Hsb, Hdb, Hsp, Hdp |- *;
    rewrite !parse_uint_dec by done; cbn;
    rewrite ?v4_parse_text, ?v6_parse_text, ?v4_parse_v6, ?v6_parse_v4 by done; done.
Qed.

(** * Properties *)

(** A version 2 header built for a connection parses back to its two
    addresses, leaving exactly the bytes that follow it; for a connection
    between address families it parses as one without addresses. *)
Theorem proxy_v2_roundtrip src dst rest :
  addr_ok src → addr_ok dst →
  parse_v2 (build_v2 src dst +:+ rest) =
    Ok (if decide (same_family src dst) then Some (src, dst) else None, rest).
Proof.
  intros [Hsp Hsb] [Hdp Hdb]. unfold build_v2.
  destruct src as [[s|s] sp], dst as [[d|d] dp]; cbn [sa_ip sa_port] in *.
  - destruct (block_fields 4 s d sp dp) as (Hl & E1 & E2 & E3 & E4); [done..|].
    cbn [Nat.mul Nat.add] in Hl, E3, E4.
    rewrite <- !(str_app_assoc V2_SIGNATURE), <- !(str_app_assoc (V2_SIGNATURE +:+ byte 33)).
    rewrite <- !(str_app_assoc ((V2_SIGNATURE +:+ byte 33) +:+ byte 17)), str_app_assoc.
    rewrite (parse_v2_frame _ _ rest 1 1) by done.
    unfold parse_v2_block. rewrite Hl, E1, E2, E3, E4. done.
  - by etrans; [apply (parse_v2_frame build_v2_unspec "" rest 1 0)|].
  - by etrans; [apply (parse_v2_frame build_v2_unspec "" rest 1 0)|].
  - destruct (block_fields 16 s d sp dp) as (Hl & E1 & E2 & E3 & E4); [done..|].
    cbn [Nat.mul Nat.add] in Hl, E3, E4.
    rewrite <- !(str_app_assoc V2_SIGNATURE), <- !(str_app_assoc (V2_SIGNATURE +:+ byte 33)).
    rewrite <- !(str_app_assoc ((V2_SIGNATURE +:+ byte 33) +:+ byte 33)), str_app_assoc.
    rewrite (parse_v2_frame _ _ rest 1 2) by done.
    unfold parse_v2_block. rewrite Hl, E1, E2, E3, E4. done.
Qed.

(** A version 1 header built for a connection within one address family
    parses back to its two addresses, leaving exactly the bytes that follow
    it; one built for a connection between families is malformed. *)
Theorem proxy_v1_roundtrip src dst rest :
  addr_ok src → addr_ok dst →
  parse_v1 (build_v1 src dst +:+ rest) =
    if decide (same_family src dst) then Ok (Some (src, dst), rest) else Err bad_v1.
Proof. apply parse_v1_build. Qed.

(** Parsing consumes a header and nothing else: what it returns as the
    rest of the stream is the stream after a prefix of at most 108 bytes
    (version 1), or of sixteen bytes and the announced block (version 2). *)
Theorem proxy_parse_consumes version s r rest :
  parse_incoming s version = Ok (r, rest) →
  ∃ hdr, s = hdr +:+ rest ∧
    match version with
    | V1 => (String.length hdr ≤ 108)%nat
    | V2 => String.length hdr = (16 + N.to_nat (field 14 2 hdr))%nat
    end.
Proof.
  destruct version; cbn [parse_incoming].
  - unfold parse_v1. intros ([raw rest'] & Hl & Hr)%bind_Ok.
    apply bind_Ok in Hr as (line & _ & Hr). apply bind_Ok in Hr as (r' & _ & [= -> ->]).
    by apply read_line_Ok in Hl.
  - unfold parse_v2. intros ([fixed s1] & Hf & Hr)%bind_Ok.
    apply read_exact_Ok in Hf as [-> Hlen].
    destruct (negb _); [done|]. destruct (negb _); [done|].
    apply bind_Ok in Hr as ([block s2] & Hb & Hr). apply read_exact_Ok in Hb as [-> Hblock].
    apply bind_Ok in Hr as (r' & _ & [= -> ->]). exists (fixed +:+ block).
    split; [by rewrite str_app_assoc|]. rewrite str_length_app, Hlen, Hblock. f_equal.
    by rewrite field_prefix by lia.
Qed.

(** Connections without addresses are announced as such and read as such. *)
Lemma proxy_unknown_roundtrip p q rest :
  parse_v1 (build_v1_unknown +:+ rest) = Ok (None, rest) ∧
  parse_v2 (build_v2_unspec +:+ rest) = Ok (None, rest) ∧
  parse_v2 (build_v2_unix p q +:+ rest) = Ok (None, rest).
Proof.
  split_and!.
  - change (build_v1_unknown +:+ rest) with ("PROXY UNKNOWN" +:+ CRLF +:+ rest).
    unfold parse_v1. rewrite read_line_app; [reflexivity|reflexivity|cbn; lia].
  - by etrans; [apply (parse_v2_frame build_v2_unspec "" rest 1 0)|].
  - assert (∀ o, String.length (unix_slot o) = 108%nat) as Hslot.
    { intros o. unfold unix_slot. rewrite str_length_app.
      rewrite zeros_length.
      rewrite length_str_take. lia. }
    unfold build_v2_unix.
    rewrite <- !(str_app_assoc V2_SIGNATURE), <- !(str_app_assoc (V2_SIGNATURE +:+ byte 33)).
    rewrite <- !(str_app_assoc ((V2_SIGNATURE +:+ byte 33) +:+ byte 49)), str_app_assoc.
    rewrite (parse_v2_frame _ (unix_slot p +:+ unix_slot q) rest 1 3); try done.
    by rewrite str_length_app, !Hslot.
Qed.

End proxy.

(** * Examples

    Addresses printed in decimal, those of version 4 after a dot. *)
Definition dec_ips : IpText := {|
  v4_text a := "." +:+ dec a;
  v4_parse s := x ← strip_prefix "." s; parse_uint (2 ^ 32 - 1) x;
  v6_text a := dec (a mod 2 ^ 128);
  v6_parse s := parse_uint (2 ^ 128 - 1) s;
|}.

Lemma digits_text s : str_all is_digit s = true → str_all text_char s = true.
Proof. apply str_all_impl. by intros [[] [] [] [] [] [] [] []]. Qed.

Lemma strip_dot_digits a : strip_prefix "." (dec a) = None.
Proof.
  destruct (dec_cons a) as (c & r & E). pose proof (dec_digits a) as Hd. rewrite E in *.
  cbn in Hd. apply andb_true_iff in Hd as [Hc _]. apply eq_None_not_Some. intros [x Hx].
  apply strip_prefix_Some in Hx. injection Hx as -> _. done.
Qed.

Lemma dec_ips_laws : IpTextLaws (H := dec_ips).
Proof.
  split; intros a; cbv [v4_parse v4_text v6_parse v6_text dec_ips].
  - intros Ha. apply parse_uint_dec. lia.
  - intros Ha. rewrite N.mod_small by done. apply parse_uint_dec. lia.
  - intros Ha. by rewrite strip_dot_digits.
  - done.
  - rewrite str_all_app. by apply digits_text, dec_digits.
  - by apply digits_text, dec_digits.
  - intros Ha. rewrite str_length_app. cbn. pose proof (dec_length 10 a) as Hl. assert (a < 10 ^ 10) by lia.
    specialize (Hl ltac:(lia) ltac:(done)). lia.
  - intros Ha. apply dec_length; [lia|]. rewrite N.mod_small by done. etrans; [done|]. done.
Qed.

Definition demo_v4 : SocketAddr := {| sa_ip := Net.V4 3232235777; sa_port := 443 |}.
Definition demo_v6 : SocketAddr := {| sa_ip := Net.V6 1; sa_port := 65535 |}.

Lemma demo_v4_ok : addr_ok demo_v4.
Proof. by split. Qed.
Lemma demo_v6_ok : addr_ok demo_v6.
Proof. by split. Qed.

Lemma proxy_v2_roundtrip_witness :
  parse_v2 (build_v2 demo_v4 demo_v4 +:+ "GET /") =
    Ok (if decide (same_family demo_v4 demo_v4) then Some (demo_v4, demo_v4) else None, "GET /").
Proof. apply (proxy_v2_roundtrip demo_v4 demo_v4 "GET /" demo_v4_ok demo_v4_ok). Defined.

Lemma proxy_v1_roundtrip_witness :
  parse_v1 (H := dec_ips) (build_v1 (H := dec_ips) demo_v6 demo_v6 +:+ "GET /") =
    (if decide (same_family demo_v6 demo_v6) then Ok (Some (demo_v6, demo_v6), "GET /")
     else Err bad_v1) ∧
  parse_v1 (H := dec_ips) (build_v1 (H := dec_ips) demo_v4 demo_v6 +:+ "") =
    (if decide (same_family demo_v4 demo_v6) then Ok (Some (demo_v4, demo_v6), "")
     else Err bad_v1).
Proof.
  split; apply (@proxy_v1_roundtrip dec_ips dec_ips_laws);
    auto using demo_v4_ok, demo_v6_ok.
Defined.

Lemma proxy_parse_consumes_witness :
  ∃ hdr, build_v2_unspec +:+ "GET /" = hdr +:+ "GET /" ∧
    String.length hdr = (16 + N.to_nat (field 14 2 hdr))%nat.
Proof.
  eapply (@proxy_parse_consumes dec_ips V2 (build_v2_unspec +:+ "GET /")).
  vm_compute. reflexivity.
Defined.

End ProxyProto.
