(* ===== verification/Compress.v ===== *)
(** Response compression ([src/compress.rs]): negotiation from
    [Accept-Encoding] and the transparent encoding of eligible responses.
    The three encoders are a class of operations. *)
From S2P Require Import Prelude RustStr Http.

Class Encoders := {
  gzip_encode : string → option string;
  brotli_encode : string → option string;
  zstd_encode : string → option string;
}.

Module Compress.

Definition MIN_SIZE : nat := 1024.

Inductive Encoding := Gzip | Brotli | Zstd.

#[global] Instance Encoding_eq_dec : EqDecision Encoding.
Proof. solve_decision. Defined.

Record CompressionStats := {
  applied : option Encoding;
  bytes_in : N;
  bytes_out : N;
  skipped : bool;
}.

Definition stats_default : CompressionStats :=
  {| applied := None; bytes_in := 0; bytes_out := 0; skipped := false |}.
Definition stats_skipped : CompressionStats :=
  {| applied := None; bytes_in := 0; bytes_out := 0; skipped := true |}.

(** [entry.split(';').next().unwrap_or("").trim()]. *)
Definition token_of (entry : string) : string := trim (default "" (head (split ";" entry))).

(** The loop over the entries, with the three flags [zstd], [brotli], [gzip]. *)
Fixpoint negotiate_loop (entries : list string) (flags : bool * bool * bool) : bool * bool * bool :=
  match entries with
  | [] => flags
  | entry :: entries' =>
      let token := token_of entry in
      let '(zstd, brotli, gzip) := flags in
      negotiate_loop entries'
        (if eq_ignore_ascii_case token "zstd" then (true, brotli, gzip)
         else if eq_ignore_ascii_case token "br" then (zstd, true, gzip)
         else if eq_ignore_ascii_case token "gzip" then (zstd, brotli, true)
         else flags)
  end.

Definition negotiate (accept_encoding : string) : option Encoding :=
  let '(zstd, brotli, gzip) :=
    negotiate_loop (split "," accept_encoding) (false, false, false) in
  if zstd then Some Zstd else if brotli then Some Brotli else if gzip then Some Gzip else None.

Definition is_compressible (content_type : string) : bool :=
  let ct := token_of content_type in
  starts_with "text/" ct
  || String.eqb ct "application/json"
  || String.eqb ct "application/javascript"
  || String.eqb ct "application/ecmascript"
  || String.eqb ct "application/xml"
  || String.eqb ct "application/xhtml+xml"
  || String.eqb ct "application/wasm"
  || String.eqb ct "application/manifest+json"
  || String.eqb ct "image/svg+xml".

Definition enc_name (enc : Encoding) : string :=
  match enc with Gzip => "gzip" | Brotli => "br" | Zstd => "zstd" end.

Section compress.
Context `{Http} `{Encoders}.

Definition encode (enc : Encoding) (data : string) : option string :=
  match enc with
  | Gzip => gzip_encode data
  | Brotli => brotli_encode data
  | Zstd => zstd_encode data
  end.

Definition with_body (resp : HttpResponse) (body : string) : HttpResponse :=
  {| resp_status := resp_status resp; resp_headers := resp_headers resp; resp_body := Full body |}.

(** The headers of an encoded response; [None] would be a panic of
    [HeaderValue::from_static]. *)
Definition encoded_headers (h : header_map) (enc : Encoding) : option header_map :=
  ce ← hv_from_str (enc_name enc);
  vary ← hv_from_str "Accept-Encoding";
  Some (hm_insert (hm_insert (hm_remove h CONTENT_LENGTH) CONTENT_ENCODING ce) VARY vary).

Definition maybe_compress (resp : HttpResponse) (encoding : option Encoding)
    : option (HttpResponse * CompressionStats) :=
  match encoding with
  | None => Some (resp, stats_default)
  | Some enc =>
      if hm_contains_key (resp_headers resp) CONTENT_ENCODING then Some (resp, stats_skipped)
      else if negb match get_str (resp_headers resp) CONTENT_TYPE with
                   | Some ct => is_compressible ct
                   | None => false
                   end
      then Some (resp, stats_skipped)
      else match resp_body resp with
           | Failing => Some (with_body resp "", stats_skipped)
           | Full data =>
               if (String.length data <? MIN_SIZE)%nat then Some (with_body resp data, stats_skipped)
               else match encode enc data with
                    | None => Some (with_body resp data, stats_skipped)
                    | Some compressed =>
                        headers ← encoded_headers (resp_headers resp) enc;
                        Some ({| resp_status := resp_status resp; resp_headers := headers;
                                 resp_body := Full compressed |},
                              {| applied := Some enc; bytes_in := str_len data;
                                 bytes_out := str_len compressed; skipped := false |})
                    end
           end
  end.

(** * Lemmas *)

(** Whether a header offers a coding. *)
Definition offers (accept_encoding name : string) : bool :=
  existsb (λ entry, eq_ignore_ascii_case (token_of entry) name) (split "," accept_encoding).

Lemma names_exclusive token a b :
  to_ascii_lowercase a ≠ to_ascii_lowercase b → eq_ignore_ascii_case token a = true →
  eq_ignore_ascii_case token b = false.
Proof.
  unfold eq_ignore_ascii_case. intros Hn ->%String.eqb_eq. by apply String.eqb_neq.
Qed.

Lemma negotiate_loop_spec entries z b g :
  let has name := existsb (λ entry, eq_ignore_ascii_case (token_of entry) name) entries in
  negotiate_loop entries (z, b, g) = (z || has "zstd", b || has "br", g || has "gzip").
Proof.
  revert z b g. induction entries as [|e entries IH]; intros z b g; cbn.
  { by rewrite !orb_false_r. }
  destruct (eq_ignore_ascii_case (token_of e) "zstd") eqn:Ez.
  { rewrite IH, (names_exclusive _ "zstd" "br"), (names_exclusive _ "zstd" "gzip") by done.
    by rewrite !orb_true_r. }
  destruct (eq_ignore_ascii_case (token_of e) "br") eqn:Eb.
  { rewrite IH, (names_exclusive _ "br" "gzip") by done. by rewrite !orb_true_r. }
  destruct (eq_ignore_ascii_case (token_of e) "gzip") eqn:Eg; rewrite IH; cbn;
    by rewrite ?orb_true_r.
Qed.

Context `{!HttpLaws, !HttpTextLaws}.

Lemma encoded_headers_spec h enc :
  ∃ h' ce vary, encoded_headers h enc = Some h' ∧
    hm_get_all h' CONTENT_ENCODING = [ce] ∧ hv_to_str ce = Some (enc_name enc) ∧
    hm_get_all h' VARY = [vary] ∧ hv_to_str vary = Some "Accept-Encoding" ∧
    hm_get_all h' CONTENT_LENGTH = [] ∧
    ∀ k, k ≠ CONTENT_ENCODING → k ≠ VARY → k ≠ CONTENT_LENGTH → hm_get_all h' k = hm_get_all h k.
Proof.
  destruct (hv_from_str_visible (enc_name enc)) as (ce & Ece & Hce); [by destruct enc|].
  destruct (hv_from_str_visible "Accept-Encoding") as (vary & Ev & Hv); [done|].
  unfold encoded_headers. rewrite Ece, Ev. cbn [mbind option_bind].
  eexists _, ce, vary. split; [done|].
  split_and!; try done; autorewrite with http; try done.
  intros k ???. by autorewrite with http.
Qed.

(** * Properties *)

(** The coding chosen is the server's preferred one among those the header
    offers, in any order, case and with any parameters, and none exactly when
    it offers none of the three. *)
Theorem negotiate_spec ae :
  negotiate ae = if offers ae "zstd" then Some Zstd
                 else if offers ae "br" then Some Brotli
                 else if offers ae "gzip" then Some Gzip else None.
Proof. unfold negotiate, offers. by rewrite negotiate_loop_spec. Qed.

(** Compression is transparent: it never panics, keeps the status, and
    either leaves a response with a readable body exactly as it is or
    replaces the body by one that the announced coding decodes to the
    original, only for bodies of at least [MIN_SIZE] bytes of a compressible
    type that were not encoded yet, changing no header but Content-Length,
    Content-Encoding and Vary. *)
Theorem maybe_compress_transparent (decode : Encoding → string → string) resp enc data :
  (∀ e d c, encode e d = Some c → decode e c = d) →
  resp_body resp = Full data →
  ∃ r st, maybe_compress resp enc = Some (r, st) ∧ resp_status r = resp_status resp ∧
  match applied st with
  | None => r = resp
  | Some e =>
      enc = Some e ∧ (MIN_SIZE ≤ String.length data)%nat ∧
      hm_get_all (resp_headers resp) CONTENT_ENCODING = [] ∧
      (∃ c, resp_body r = Full c ∧ decode e c = data ∧ bytes_out st = str_len c) ∧
      (∃ ce, hm_get_all (resp_headers r) CONTENT_ENCODING = [ce] ∧ hv_to_str ce = Some (enc_name e)) ∧
      hm_get_all (resp_headers r) CONTENT_LENGTH = [] ∧ bytes_in st = str_len data ∧
      ∀ k, k ≠ CONTENT_ENCODING → k ≠ VARY → k ≠ CONTENT_LENGTH →
        hm_get_all (resp_headers r) k = hm_get_all (resp_headers resp) k
  end.
Proof.
  intros Hdec Hb. unfold maybe_compress. destruct enc as [e|]; [|by eexists _, _].
  destruct (hm_contains_key (resp_headers resp) CONTENT_ENCODING) eqn:Ece; [by eexists _, _|].
  destruct (negb _); [by eexists _, _|]. rewrite Hb.
  assert (with_body resp data = resp) as Hid by (destruct resp; cbn in *; by subst).
  destruct (Nat.ltb_spec (String.length data) MIN_SIZE) as [|Hmin]; [by eexists _, _|].
  destruct (encode e data) as [c|] eqn:Ee; [|by eexists _, _].
  destruct (encoded_headers_spec (resp_headers resp) e)
    as (h & ce & vary & -> & Hce & Hces & _ & _ & Hcl & Hrest).
  cbn [mbind option_bind]. eexists _, _. split; [done|]. split; [done|]. cbn.
  split_and!; try done; [by apply hm_contains_key_false| |by eauto].
  exists c. split; [done|]. split; [by apply Hdec|done].
Qed.

(** An encoded response carries [Vary: Accept-Encoding] and nothing else
    under that name: the header fields the response declared to vary by are
    lost. *)
Theorem compression_discards_vary resp enc r st :
  maybe_compress resp enc = Some (r, st) → applied st ≠ None →
  ∃ vary, hm_get_all (resp_headers r) VARY = [vary] ∧ hv_to_str vary = Some "Accept-Encoding".
Proof.
  unfold maybe_compress. destruct enc as [e|]; [|by intros [= _ <-]].
  destruct (hm_contains_key _ _); [by intros [= _ <-]|].
  destruct (negb _); [by intros [= _ <-]|].
  destruct (resp_body resp) as [data|]; [|by intros [= _ <-]].
  destruct (Nat.ltb _ _); [by intros [= _ <-]|].
  destruct (encode e data) as [c|]; [|by intros [= _ <-]].
  destruct (encoded_headers_spec (resp_headers resp) e)
    as (h & ce & vary & -> & _ & _ & Hv & Hvs & _). intros [= <- _] _. by exists vary.
Qed.

(** A partial response is encoded like any other: the body becomes the
    encoding of the selected bytes while status 206 and the [Content-Range]
    of the unencoded file stay. *)
Theorem compression_breaks_ranges resp enc data c :
  resp_status resp = 206 → resp_body resp = Full data →
  hm_get_all (resp_headers resp) CONTENT_ENCODING = [] →
  get_str (resp_headers resp) CONTENT_TYPE = Some "text/plain" →
  (MIN_SIZE ≤ String.length data)%nat → encode enc data = Some c →
  ∃ r st, maybe_compress resp (Some enc) = Some (r, st) ∧ resp_status r = 206 ∧
    resp_body r = Full c ∧
    hm_get_all (resp_headers r) "content-range" = hm_get_all (resp_headers resp) "content-range".
Proof.
  intros Hs Hb Hce Hct Hmin He. unfold maybe_compress.
  apply hm_contains_key_false in Hce. rewrite Hce, Hct, Hb.
  change (negb (is_compressible "text/plain")) with false. cbv iota.
  rewrite (proj2 (Nat.ltb_ge _ _)), He by done.
  destruct (encoded_headers_spec (resp_headers resp) enc)
    as (h & ce & vary & -> & _ & _ & _ & _ & _ & Hrest).
  eexists _, _. split; [done|]. split_and!; [done..|]. by apply Hrest.
Qed.

End compress.

(** * Examples: an encoder that marks its output. *)
Definition marking : Encoders :=
  {| gzip_encode d := Some ("z" +:+ d); brotli_encode d := Some ("b" +:+ d);
     zstd_encode _ := None |}.

Fixpoint letters (n : nat) : string :=
  match n with O => "" | S n' => String "x" (letters n') end.

Definition demo_response (headers : list (string * string)) (status : N)
    : HttpResponse (H := assoc_http) :=
  {| resp_status := status; resp_headers := headers; resp_body := Full (letters 1024) |}.

Definition demo_headers : list (string * string) :=
  [("content-type", "text/plain"); ("content-length", "1024"); ("vary", "cookie");
   ("content-range", "bytes 0-1023/5000")].

Definition unmark (e : Encoding) (s : string) : string := str_drop 1 s.

Lemma unmark_encode e d c : encode (H0 := marking) e d = Some c → unmark e c = d.
Proof. destruct e; cbn; by intros [= <-]. Qed.

Lemma maybe_compress_transparent_witness :
  ∃ r st,
    maybe_compress (H0 := marking) (demo_response demo_headers 200) (Some Gzip) = Some (r, st) ∧
    resp_status r = 200 ∧
    match applied st with
    | None => r = demo_response demo_headers 200
    | Some e =>
        Some Gzip = Some e ∧ (MIN_SIZE ≤ String.length (letters 1024))%nat ∧
        hm_get_all (Http := assoc_http) demo_headers CONTENT_ENCODING = [] ∧
        (∃ c, resp_body r = Full c ∧ unmark e c = letters 1024 ∧ bytes_out st = str_len c) ∧
        (∃ ce, hm_get_all (resp_headers r) CONTENT_ENCODING = [ce] ∧
           hv_to_str ce = Some (enc_name e)) ∧
        hm_get_all (resp_headers r) CONTENT_LENGTH = [] ∧ bytes_in st = str_len (letters 1024) ∧
        ∀ k, k ≠ CONTENT_ENCODING → k ≠ VARY → k ≠ CONTENT_LENGTH →
          hm_get_all (resp_headers r) k = hm_get_all (Http := assoc_http) demo_headers k
    end.
Proof.
  apply (@maybe_compress_transparent assoc_http marking assoc_http_laws assoc_http_text unmark
    (demo_response demo_headers 200) (Some Gzip) (letters 1024) unmark_encode). reflexivity.
Defined.

Lemma compression_discards_vary_witness :
  let r := {| resp_status := 200;
              resp_headers := [("content-type", "text/plain"); ("content-range", "bytes 0-1023/5000");
                               ("content-encoding", "gzip"); ("vary", "Accept-Encoding")];
              resp_body := Full ("z" +:+ letters 1024) |} : HttpResponse (H := assoc_http) in
  ∃ vary, hm_get_all (resp_headers r) VARY = [vary] ∧ hv_to_str vary = Some "Accept-Encoding".
Proof.
  intros r. eapply (@compression_discards_vary assoc_http marking assoc_http_laws assoc_http_text
    (demo_response demo_headers 200) (Some Gzip) r); [vm_compute; reflexivity|discriminate].
Defined.

Lemma compression_breaks_ranges_witness :
  ∃ r st,
    maybe_compress (H0 := marking) (demo_response demo_headers 206) (Some Gzip) = Some (r, st) ∧
    resp_status r = 206 ∧ resp_body r = Full ("z" +:+ letters 1024) ∧
    hm_get_all (resp_headers r) "content-range" =
    hm_get_all (Http := assoc_http) demo_headers "content-range".
Proof.
  apply (@compression_breaks_ranges assoc_http marking assoc_http_laws assoc_http_text
    (demo_response demo_headers 206) Gzip (letters 1024) ("z" +:+ letters 1024));
    vm_compute; reflexivity.
Defined.

End Compress.
