(* ===== verification/Grpc.v ===== *)
(** gRPC status mapping ([src/grpc.rs]): failures the server generates itself
    become trailers-only replies.  [canonical_reason] of the [http] crate is
    a parameter. *)
From S2P Require Import Prelude RustStr Utf8 Http StaticFiles.

Module Grpc.

Definition UNKNOWN : N := 2.
Definition DEADLINE_EXCEEDED : N := 4.
Definition PERMISSION_DENIED : N := 7.
Definition RESOURCE_EXHAUSTED : N := 8.
Definition UNIMPLEMENTED : N := 12.
Definition INTERNAL : N := 13.
Definition UNAVAILABLE : N := 14.
Definition UNAUTHENTICATED : N := 16.

Definition GRPC_STATUS : HeaderName := "grpc-status".
Definition GRPC_MESSAGE : HeaderName := "grpc-message".

Definition status_for_http (code : N) : N :=
  if code =? 400 then INTERNAL
  else if code =? 401 then UNAUTHENTICATED
  else if code =? 403 then PERMISSION_DENIED
  else if code =? 404 then UNIMPLEMENTED
  else if code =? 408 then DEADLINE_EXCEEDED
  else if code =? 413 then RESOURCE_EXHAUSTED
  else if code =? 429 then UNAVAILABLE
  else if code =? 500 then INTERNAL
  else if (502 <=? code) && (code <=? 504) then UNAVAILABLE
  else if (300 <=? code) && (code <=? 399) then UNAUTHENTICATED
  else UNKNOWN.

Definition plain_byte (b : ascii) : bool := byte_in 32 126 b && negb (Ascii.eqb b "%").

Fixpoint encode_message (msg : string) : string :=
  match msg with
  | "" => ""
  | String b msg' =>
      (if plain_byte b then String b "" else StaticFiles.percent_byte b) +:+ encode_message msg'
  end.

Section grpc.
Context `{Http} (canonical_reason : N → option string).

Definition has_grpc_content_type (headers : header_map) : bool :=
  match get_str headers CONTENT_TYPE with
  | Some ct => starts_with "application/grpc" (to_ascii_lowercase (trim_start ct))
  | None => false
  end.

Definition is_grpc_request (headers : header_map) : bool := has_grpc_content_type headers.

Definition is_grpc_response (resp : HttpResponse) : bool :=
  hm_contains_key (resp_headers resp) GRPC_STATUS || has_grpc_content_type (resp_headers resp).

(** [None] is a panic: [from_static] and the [expect] on the digits. *)
Definition rewrite_as_grpc_status (resp : HttpResponse) : option HttpResponse :=
  let http_code := resp_status resp in
  let reason := default "error" (canonical_reason http_code) in
  let message := encode_message (reason +:+ " (HTTP " +:+ dec http_code +:+ ")") in
  let status := status_for_http http_code in
  let h := hm_remove (hm_remove (resp_headers resp) CONTENT_LENGTH) CONTENT_ENCODING in
  ct ← hv_from_str "application/grpc";
  st ← hv_from_str (dec status);
  let h := hm_insert (hm_insert h CONTENT_TYPE ct) GRPC_STATUS st in
  Some {| resp_status := 200;
          resp_headers := match hv_from_str message with
                          | Some v => hm_insert h GRPC_MESSAGE v
                          | None => h
                          end;
          resp_body := Full "" |}.

Definition is_success (code : N) : bool := (200 <=? code) && (code <=? 299).

Definition map_response (resp : HttpResponse) (is_grpc : bool) : option HttpResponse :=
  if negb is_grpc || is_success (resp_status resp) || is_grpc_response resp then Some resp
  else rewrite_as_grpc_status resp.

(** * Lemmas *)

Lemma encode_message_visible msg : str_all visible (encode_message msg) = true.
Proof.
  induction msg as [|b msg IH]; [done|]. cbn [encode_message]. rewrite str_all_app, IH, andb_true_r.
  by destruct b as [[] [] [] [] [] [] [] []].
Qed.

Lemma decode_encode_message msg : StaticFiles.percent_decode_bytes (encode_message msg) = msg.
Proof.
  induction msg as [|b msg IH]; [done|]. cbn [encode_message]. destruct (plain_byte b) eqn:E.
  - change (String b "" +:+ encode_message msg) with (String b (encode_message msg)).
    cbn [StaticFiles.percent_decode_bytes]. unfold plain_byte in E.
    apply andb_true_iff in E as [_ ->%negb_true_iff]. by rewrite IH.
  - by rewrite StaticFiles.decode_percent_byte, IH.
Qed.

Context `{!HttpLaws, !HttpTextLaws}.

Lemma digits_visible n : str_all visible (dec n) = true.
Proof.
  eapply str_all_impl; [|apply dec_digits]. by intros [[] [] [] [] [] [] [] []].
Qed.

Lemma rewrite_spec resp :
  ∃ r ct st msg, rewrite_as_grpc_status resp = Some r ∧ resp_status r = 200 ∧
    resp_body r = Full "" ∧
    hm_get_all (resp_headers r) CONTENT_TYPE = [ct] ∧ hv_to_str ct = Some "application/grpc" ∧
    hm_get_all (resp_headers r) GRPC_STATUS = [st] ∧
    hv_to_str st = Some (dec (status_for_http (resp_status resp))) ∧
    hm_get_all (resp_headers r) GRPC_MESSAGE = [msg] ∧
    StaticFiles.percent_decode_bytes (hv_as_bytes msg) =
      default "error" (canonical_reason (resp_status resp)) +:+ " (HTTP "
        +:+ dec (resp_status resp) +:+ ")" ∧
    hm_get_all (resp_headers r) CONTENT_LENGTH = [] ∧
    hm_get_all (resp_headers r) CONTENT_ENCODING = [] ∧
    ∀ k, k ∉ [CONTENT_TYPE; GRPC_STATUS; GRPC_MESSAGE; CONTENT_LENGTH; CONTENT_ENCODING] →
      hm_get_all (resp_headers r) k = hm_get_all (resp_headers resp) k.
Proof.
  set (text := default "error" (canonical_reason (resp_status resp)) +:+ " (HTTP "
        +:+ dec (resp_status resp) +:+ ")").
  destruct (hv_from_str_visible "application/grpc") as (ct & Ect & Hct); [done|].
  destruct (hv_from_str_visible (dec (status_for_http (resp_status resp)))) as (st & Est & Hst);
    [apply digits_visible|].
  destruct (hv_from_str_visible (encode_message text)) as (msg & Emsg & Hmsg);
    [apply encode_message_visible|].
  unfold rewrite_as_grpc_status. fold text. rewrite Ect, Est, Emsg. cbn [mbind option_bind].
  eexists _, ct, st, msg. split; [done|]. cbn [resp_status resp_body resp_headers].
  split_and!; try done; autorewrite with http; try done.
  - rewrite (hv_to_str_bytes msg _ Hmsg). apply decode_encode_message.
  - intros k Hk. rewrite !not_elem_of_cons in Hk. destruct Hk as (? & ? & ? & ? & ? & _).
    by autorewrite with http.
Qed.

Lemma rewritten_is_grpc r st :
  hm_get_all (resp_headers r) GRPC_STATUS = [st] → is_grpc_response r = true.
Proof.
  intros E. unfold is_grpc_response. rewrite hm_contains_key_get_all, E. done.
Qed.

(** * Properties *)

(** Mapping never panics and leaves alone every response to a plain
    request, every success and every response that already speaks gRPC; any
    other becomes a trailers-only reply: HTTP 200 without body or framing
    headers, the gRPC status of the original code, a message that decodes to
    the original reason and code, and every other header as it was.  Mapping
    twice is mapping once. *)
Theorem map_response_spec resp is_grpc :
  ∃ r, map_response resp is_grpc = Some r ∧ map_response r is_grpc = Some r ∧
  if negb is_grpc || is_success (resp_status resp) || is_grpc_response resp then r = resp
  else resp_status r = 200 ∧ resp_body r = Full "" ∧
    get_str (resp_headers r) CONTENT_TYPE = Some "application/grpc" ∧
    get_str (resp_headers r) GRPC_STATUS = Some (dec (status_for_http (resp_status resp))) ∧
    (∃ msg, hm_get_all (resp_headers r) GRPC_MESSAGE = [msg] ∧
      StaticFiles.percent_decode_bytes (hv_as_bytes msg) =
        default "error" (canonical_reason (resp_status resp)) +:+ " (HTTP "
          +:+ dec (resp_status resp) +:+ ")") ∧
    hm_get_all (resp_headers r) CONTENT_LENGTH = [] ∧
    hm_get_all (resp_headers r) CONTENT_ENCODING = [] ∧
    ∀ k, k ∉ [CONTENT_TYPE; GRPC_STATUS; GRPC_MESSAGE; CONTENT_LENGTH; CONTENT_ENCODING] →
      hm_get_all (resp_headers r) k = hm_get_all (resp_headers resp) k.
Proof.
  unfold map_response.
  destruct (negb is_grpc || is_success (resp_status resp) || is_grpc_response resp) eqn:E.
  { exists resp. by rewrite E. }
  destruct (rewrite_spec resp)
    as (r & ct & st & msg & Hr & H200 & Hb & Hct & Hcts & Hst & Hsts & Hm & Hms & Hcl & Hce & Hk).
  exists r. split; [done|].
  rewrite (rewritten_is_grpc r st), orb_true_r by done. split; [done|].
  unfold get_str. rewrite !hm_get_head, Hct, Hst. cbn [head mbind option_bind].
  split_and!; try done. by exists msg.
Qed.

End grpc.

Definition demo_failure : HttpResponse (H := assoc_http) :=
  {| resp_status := 502; resp_headers := [("content-type", "text/html"); ("vary", "origin")];
     resp_body := Full "<h1>502 Bad Gateway</h1>" |}.

Lemma map_response_spec_witness :
  ∃ r, map_response (λ _, Some "Bad Gateway") demo_failure true = Some r ∧
    map_response (λ _, Some "Bad Gateway") r true = Some r ∧ resp_status r = 200 ∧
    get_str (resp_headers r) GRPC_STATUS = Some "14".
Proof.
  destruct (@map_response_spec assoc_http (λ _, Some "Bad Gateway") assoc_http_laws assoc_http_text
    demo_failure true) as (r & H1 & H2 & H3). cbn in H3. exists r. naive_solver.
Defined.

End Grpc.
