(* ===== verification/Listeners.v ===== *)
(** Bind addresses ([src/config/types_socket.rs]) and the listener diff of a
    hot reload ([src/reload/diff.rs]).

    [Display] and [FromStr] of the standard library's [SocketAddr] are the
    parameters of the first part; a path is its text. *)
From stdpp Require Import sorting.
From S2P Require Import Prelude RustStr.

Module Bind.

Inductive SocketKind := TcpStream | UdpDgram | UnixStream | UnixDgram | UnixSeqpacket.

#[global] Instance SocketKind_eq_dec : EqDecision SocketKind.
Proof. solve_decision. Defined.

Definition is_byte_stream (k : SocketKind) : bool :=
  match k with TcpStream | UnixStream => true | _ => false end.

Definition is_datagram_stream (k : SocketKind) : bool := negb (is_byte_stream k).

Inductive AddrFamily := Inet | Unix.

Definition family (k : SocketKind) : AddrFamily :=
  match k with TcpStream | UdpDgram => Inet | UnixStream | UnixDgram | UnixSeqpacket => Unix end.

Definition scheme (k : SocketKind) : string :=
  match k with
  | TcpStream => "tcp"
  | UdpDgram => "udp"
  | UnixStream => "unix-stream"
  | UnixDgram => "unix-dgram"
  | UnixSeqpacket => "unix-seqpacket"
  end.

Section bind.
Context {socket_addr : Type} (sa_text : socket_addr → string)
  (sa_parse : string → option socket_addr).

Inductive AddrLocation :=
  | LInet (sa : socket_addr)
  | LUnix (path : string).

Record BoundAddr := {
  kind : SocketKind;
  location : AddrLocation;
}.

Definition to_url (a : BoundAddr) : string :=
  match location a with
  | LInet sa => scheme (kind a) +:+ "://" +:+ sa_text sa
  | LUnix path => scheme (kind a) +:+ ":" +:+ path
  end.

Definition as_inet (a : BoundAddr) : option socket_addr :=
  match location a with LInet sa => Some sa | LUnix _ => None end.

Definition as_unix_path (a : BoundAddr) : option string :=
  match location a with LUnix p => Some p | LInet _ => None end.

Definition parse_inet (rest : string) : Result socket_addr :=
  ok_or (sa_parse rest) "invalid host:port".

Definition parse_unix_path (rest : string) : Result string :=
  if is_empty rest then Err "unix socket path must not be empty" else Ok rest.

Definition parse (s : string) : Result BoundAddr :=
  match strip_prefix "tcp://" s with
  | Some rest => sa ← parse_inet rest; Ok {| kind := TcpStream; location := LInet sa |}
  | None =>
  match strip_prefix "udp://" s with
  | Some rest => sa ← parse_inet rest; Ok {| kind := UdpDgram; location := LInet sa |}
  | None =>
  match strip_prefix "unix-stream:" s with
  | Some rest => p ← parse_unix_path rest; Ok {| kind := UnixStream; location := LUnix p |}
  | None =>
  match strip_prefix "unix-dgram:" s with
  | Some rest => p ← parse_unix_path rest; Ok {| kind := UnixDgram; location := LUnix p |}
  | None =>
  match strip_prefix "unix-seqpacket:" s with
  | Some rest => p ← parse_unix_path rest; Ok {| kind := UnixSeqpacket; location := LUnix p |}
  | None => Err "address is missing a scheme"
  end end end end end.

(** An address as the parser makes them: the location fits the kind. *)
Definition bound_ok (a : BoundAddr) : Prop :=
  match location a with
  | LInet _ => family (kind a) = Inet
  | LUnix p => family (kind a) = Unix ∧ p ≠ ""
  end.

Context (sa_roundtrip : ∀ sa, sa_parse (sa_text sa) = Some sa).

Lemma parse_unix_nonempty p : p ≠ "" → parse_unix_path p = Ok p.
Proof. intros Hp. unfold parse_unix_path, is_empty. by destruct (String.eqb_spec p ""). Qed.

Lemma parse_to_url a : bound_ok a → parse (to_url a) = Ok a.
Proof.
  destruct a as [k [sa|p]]; unfold bound_ok; cbn [location kind].
  - intros Hk. assert (parse (to_url {| kind := k; location := LInet sa |}) =
      (sa ← parse_inet (sa_text sa); Ok {| kind := k; location := LInet sa |})) as ->
      by (by destruct k).
    unfold parse_inet. by rewrite sa_roundtrip.
  - intros [Hk Hp]. assert (parse (to_url {| kind := k; location := LUnix p |}) =
      (p ← parse_unix_path p; Ok {| kind := k; location := LUnix p |})) as ->
      by (by destruct k).
    by rewrite parse_unix_nonempty.
Qed.

Lemma parse_unix_path_ok rest p : parse_unix_path rest = Ok p → p ≠ "".
Proof.
  unfold parse_unix_path, is_empty. destruct (String.eqb_spec rest ""); [done|]. by intros [= <-].
Qed.

Lemma parse_bound_ok s a : parse s = Ok a → bound_ok a.
Proof.
  unfold parse. repeat case_match; try done; intros (x & Hx & [= <-])%bind_Ok;
    first [done | split; [done|by eapply parse_unix_path_ok]].
Qed.

(** The canonical form of an address parses back to it, so two bind
    addresses accepted from a configuration have the same canonical form only
    if they are the same: the key of a listener identifies its socket. *)
Theorem bind_url_roundtrip s s' a a' :
  parse s = Ok a → parse s' = Ok a' →
  parse (to_url a) = Ok a ∧ (to_url a = to_url a' → a = a').
Proof.
  intros Ha%parse_bound_ok Ha'%parse_bound_ok. split; [by apply parse_to_url|].
  intros E. apply parse_to_url in Ha, Ha'. rewrite E in Ha. congruence.
Qed.

End bind.

(** Socket addresses as texts, for the example. *)
Lemma bind_url_roundtrip_witness :
  let a := {| kind := TcpStream; location := LInet "127.0.0.1:80" |} in
  let a' := {| kind := UnixStream; location := LUnix "/run/a.sock" |} in
  parse Some (to_url id a) = Ok a ∧ (to_url id a = to_url id a' → a = a').
Proof.
  apply (@bind_url_roundtrip string id Some (λ _, eq_refl) "tcp://127.0.0.1:80"
    "unix-stream:/run/a.sock"); reflexivity.
Defined.

End Bind.

Module Diff.

Section diff.
Context {config : Type} (listener_key : config → string).

(** [iter().map(|c| (listener_key(c), c)).collect::<HashMap<_, _>>()]. *)
Definition index (l : list config) : gmap string config :=
  foldl (λ m c, <[listener_key c := c]> m) ∅ l.

Record ListenerDiff := {
  added : list config;
  removed : list config;
  unchanged : list (config * config);
}.

Definition key_le {A} (key : A → string) (a b : A) : Prop := String.le (key a) (key b).

#[global] Instance key_le_dec {A} (key : A → string) : RelDecision (key_le key).
Proof. intros a b. unfold key_le. apply _. Defined.

Definition sort_by_key {A} (key : A → string) (l : list A) : list A := merge_sort (key_le key) l.

(** The iteration order of a hash map is that of [map_to_list]; the sorts make
    it immaterial. *)
Definition diff_listeners (old new : list config) : ListenerDiff :=
  let old_by_key := index old in
  let new_by_key := index new in
  {| added := sort_by_key listener_key
       (omap (λ kc, match old_by_key !! fst kc with Some _ => None | None => Some (snd kc) end)
          (map_to_list new_by_key));
     removed := sort_by_key listener_key
       (omap (λ kc, match new_by_key !! fst kc with Some _ => None | None => Some (snd kc) end)
          (map_to_list old_by_key));
     unchanged := sort_by_key (λ p, listener_key (fst p))
       (omap (λ kc, (λ o, (o, snd kc)) <$> old_by_key !! fst kc) (map_to_list new_by_key)) |}.

(** * Lemmas *)

Lemma index_snoc l c : index (l ++ [c]) = <[listener_key c := c]> (index l).
Proof. unfold index. by rewrite foldl_app. Qed.

Lemma index_lookup l k c : index l !! k = Some c → c ∈ l ∧ listener_key c = k.
Proof.
  induction l as [|d l IH] using rev_ind; [done|]. rewrite index_snoc.
  intros [[<- <-]|[_ Hl]]%lookup_insert_Some; [set_solver|].
  destruct (IH Hl). set_solver.
Qed.

Lemma index_is_Some l k : is_Some (index l !! k) ↔ k ∈ listener_key <$> l.
Proof.
  split.
  - intros [c [Hin <-]%index_lookup]. by apply list_elem_of_fmap_2.
  - induction l as [|d l IH] using rev_ind; [intros Hk; by apply elem_of_nil in Hk|].
    rewrite fmap_app, elem_of_app, index_snoc, lookup_insert_is_Some.
    intros [Hk|Hk]; [|apply list_elem_of_singleton in Hk; by left].
    destruct (decide (listener_key d = k)); [by left|right; split; [done|by apply IH]].
Qed.

(** The sub-list of a map's entries some function keeps, by key. *)
Lemma omap_keys {B} (m : gmap string config) (f : string * config → option B) (key : B → string) :
  (∀ k c b, m !! k = Some c → f (k, c) = Some b → key b = k) →
  NoDup (key <$> omap f (map_to_list m)) ∧
  ∀ b, b ∈ omap f (map_to_list m) ↔ ∃ k c, m !! k = Some c ∧ f (k, c) = Some b.
Proof.
  intros Hkey.
  assert (∀ b, b ∈ omap f (map_to_list m) ↔ ∃ k c, m !! k = Some c ∧ f (k, c) = Some b) as Hin.
  { intros b. rewrite list_elem_of_omap. split.
    - intros ([k c] & Hkc%elem_of_map_to_list & Hf). eauto.
    - intros (k & c & Hm & Hf). exists (k, c). by rewrite elem_of_map_to_list. }
  split; [|done].
  assert (∀ l : list (string * config), NoDup l.*1 →
    (∀ k c, (k, c) ∈ l → m !! k = Some c) → NoDup (key <$> omap f l)) as Hnd.
  { intros l. induction l as [|[k c] l IH]; cbn; [constructor|].
    intros [Hk Hl]%NoDup_cons Hm. specialize (IH Hl).
    destruct (f (k, c)) as [b|] eqn:Ef; [|apply IH; set_solver]. cbn. constructor; [|apply IH; set_solver].
    intros (b' & Eb & Hb')%list_elem_of_fmap. apply Hk.
    apply list_elem_of_omap in Hb' as ([k' c'] & Hkc & Hf').
    rewrite (Hkey k c b), (Hkey k' c' b') in Eb by (done || apply Hm; set_solver). subst.
    apply list_elem_of_fmap. by exists (k', c'). }
  apply Hnd; [apply NoDup_fst_map_to_list|]. intros k c. by rewrite elem_of_map_to_list.
Qed.

Lemma sort_by_key_spec {A} (key : A → string) (l : list A) :
  Sorted (key_le key) (sort_by_key key l) ∧ sort_by_key key l ≡ₚ l.
Proof.
  split; [|apply merge_sort_Permutation]. apply Sorted_merge_sort.
  intros a b. apply (total String.le).
Qed.

Lemma index_None l k : index l !! k = None ↔ k ∉ listener_key <$> l.
Proof. rewrite <- index_is_Some, eq_None_not_Some. done. Qed.

Lemma keys_perm {A} (key : A → string) (l l' : list A) :
  l ≡ₚ l' → NoDup (key <$> l') → NoDup (key <$> l) ∧ ∀ k, k ∈ key <$> l ↔ k ∈ key <$> l'.
Proof. intros Hp Hn. split; [by rewrite Hp|]. intros k. by rewrite Hp. Qed.

(** The listeners of [xs] whose key [ys] does not bind. *)
Lemma only_in_spec xs ys :
  let l := sort_by_key listener_key
    (omap (λ kc, match index ys !! fst kc with Some _ => None | None => Some (snd kc) end)
       (map_to_list (index xs))) in
  (∀ k, k ∈ listener_key <$> l ↔ k ∈ listener_key <$> xs ∧ k ∉ listener_key <$> ys) ∧
  NoDup (listener_key <$> l) ∧ Sorted (key_le listener_key) l.
Proof.
  set (f := λ kc : string * config, match index ys !! fst kc with
                                    | Some _ => None | None => Some (snd kc) end).
  assert (∀ k c b, index xs !! k = Some c → f (k, c) = Some b →
    b = c ∧ listener_key b = k ∧ index ys !! k = None) as Hf.
  { intros k c b Hm. unfold f. cbn. destruct (index ys !! k); [done|]. intros [= <-].
    by apply index_lookup in Hm as [_ ?]. }
  destruct (omap_keys (index xs) f listener_key) as [Hn Hin]; [intros; by eapply Hf|].
  destruct (sort_by_key_spec listener_key (omap f (map_to_list (index xs)))) as [Hs Hp].
  destruct (keys_perm listener_key _ _ Hp Hn) as [Hn' Hk]. cbv zeta. split; [|done].
  intros k. rewrite Hk, <- (index_None ys k), <- (index_is_Some xs k), list_elem_of_fmap. split.
  - intros (b & -> & Hb). apply (proj1 (Hin b)) in Hb as (k' & c & Hm & Hfb).
    destruct (Hf _ _ _ Hm Hfb) as (-> & -> & ?). by rewrite Hm.
  - intros [[c Hm] Hy]. exists c. apply index_lookup in Hm as Hc. destruct Hc as [_ <-].
    split; [done|]. apply Hin. exists (listener_key c), c. split; [done|]. unfold f. cbn.
    by rewrite Hy.
Qed.

Lemma added_in old new c : c ∈ added (diff_listeners old new) → c ∈ new.
Proof.
  cbn. destruct (sort_by_key_spec listener_key
    (omap (λ kc, match index old !! fst kc with Some _ => None | None => Some (snd kc) end) (map_to_list (index new))))
    as [_ Hp]. rewrite Hp. intros ([k d] & Hin%elem_of_map_to_list & Hd)%list_elem_of_omap. cbn in Hd.
  destruct (index old !! k); [done|]. injection Hd as ->. by apply index_lookup in Hin as [? _].
Qed.

(** The listeners both bind, in pairs. *)
Lemma both_spec old new :
  let l := sort_by_key (λ p, listener_key (fst p))
    (omap (λ kc, (λ o, (o, snd kc)) <$> index old !! fst kc) (map_to_list (index new))) in
  (∀ k, k ∈ listener_key <$> l.*1 ↔ k ∈ listener_key <$> old ∧ k ∈ listener_key <$> new) ∧
  (∀ o n, (o, n) ∈ l → o ∈ old ∧ n ∈ new ∧ listener_key o = listener_key n) ∧
  NoDup (listener_key <$> l.*1).
Proof.
  set (f := λ kc : string * config, (λ o, (o, snd kc)) <$> index old !! fst kc).
  assert (∀ k c b, index new !! k = Some c → f (k, c) = Some b →
    snd b = c ∧ index old !! k = Some (fst b) ∧ listener_key (fst b) = k) as Hf.
  { intros k c b _ (o & Ho & ->)%fmap_Some. split_and!; [done..|].
    by apply index_lookup in Ho as [_ ?]. }
  destruct (omap_keys (index new) f (λ p, listener_key (fst p))) as [Hn Hin];
    [intros; by eapply Hf|].
  destruct (sort_by_key_spec (λ p, listener_key (fst p)) (omap f (map_to_list (index new))))
    as [_ Hp].
  destruct (keys_perm (λ p, listener_key (fst p)) _ _ Hp Hn) as [Hn' Hk]. cbv zeta.
  rewrite <- list_fmap_compose. split_and!; [| |done].
  - intros k. etrans; [apply Hk|]. rewrite <- (index_is_Some old k), <- (index_is_Some new k), list_elem_of_fmap. split.
    + intros (b & -> & Hb). apply (proj1 (Hin b)) in Hb as (k' & c & Hm & Hfb).
      destruct (Hf _ _ _ Hm Hfb) as (<- & Ho & ->). by rewrite Ho, Hm.
    + intros [[o Ho] [c Hm]]. exists (o, c). apply index_lookup in Ho as Hc. destruct Hc as [_ <-].
      split; [done|]. apply Hin. exists (listener_key o), c. split; [done|]. unfold f. cbn.
      by rewrite Ho.
  - intros o n. rewrite Hp. intros (k & c & Hm & Hfb)%Hin.
    destruct (Hf _ _ _ Hm Hfb) as (<- & Ho & <-). cbn in *.
    apply index_lookup in Hm as [? ?], Ho as [? _]. done.
Qed.

(** * Properties *)

(** The buckets of a reload are exact: a key is added when only the new
    configuration binds it, removed when only the old one does, and unchanged,
    paired with both its configurations, when both do; each bucket lists its
    keys once, in order. *)
Theorem diff_listeners_spec old new :
  let d := diff_listeners old new in
  let keys l := listener_key <$> l in
  (∀ k, k ∈ keys (added d) ↔ k ∈ keys new ∧ k ∉ keys old) ∧
  (∀ k, k ∈ keys (removed d) ↔ k ∈ keys old ∧ k ∉ keys new) ∧
  (∀ k, k ∈ keys (unchanged d).*1 ↔ k ∈ keys old ∧ k ∈ keys new) ∧
  (∀ o n, (o, n) ∈ unchanged d → o ∈ old ∧ n ∈ new ∧ listener_key o = listener_key n) ∧
  NoDup (keys (added d)) ∧ NoDup (keys (removed d)) ∧ NoDup (keys (unchanged d).*1) ∧
  Sorted (key_le listener_key) (added d) ∧ Sorted (key_le listener_key) (removed d).
Proof.
  cbv zeta. destruct (only_in_spec new old) as (Ha & Hna & Hsa).
  destruct (only_in_spec old new) as (Hr & Hnr & Hsr).
  destruct (both_spec old new) as (Hu & Hp & Hnu). unfold diff_listeners. cbn [added removed unchanged].
  split_and!; done.
Qed.

End diff.

(** Two configurations that share one bind address, as example. *)
Lemma diff_example :
  let d := diff_listeners id ["tcp://b"; "tcp://a"] ["udp://c"; "tcp://a"] in
  added d = ["udp://c"] ∧ removed d = ["tcp://b"] ∧ unchanged d = [("tcp://a", "tcp://a")].
Proof. vm_compute. done. Qed.

End Diff.
