(* ===== verification/Cgi.v ===== *)
(** The gateway handlers ([src/handler/cgi_util.rs], [cgi.rs], [fcgi.rs],
    [scgi.rs]): the CGI environment, script output, FastCGI records and SCGI
    netstrings.

    The socket round trip, the script process and the file test are
    parameters of the handlers; the trace context the telemetry layer injects
    is an argument of the environment. *)
From S2P Require Import Prelude RustStr Utf8 Net Http Errors Template Vars Matcher StaticFiles.

Module Cgi.
Import Errors.

(** * The environment *)

Definition ends_with_slash := StaticFiles.ends_with_slash.

(** [host.rfind(':')] as the parts around it. *)
Fixpoint rsplit_once (c : ascii) (s : string) : option (string * string) :=
  match s with
  | "" => None
  | String x s' =>
      match rsplit_once c s' with
      | Some (a, b) => Some (String x a, b)
      | None => if Ascii.eqb x c then Some ("", s') else None
      end
  end.

Definition split_host_port (host : string) : string * string :=
  match (if starts_with "[" host then split_once "]" host else None) with
  | Some (inside, after) => (inside +:+ "]", default "80" (strip_prefix ":" after))
  | None => match rsplit_once ":" host with
            | Some (h, p) => (h, p)
            | None => (host, "80")
            end
  end.

Definition to_upper (c : ascii) : ascii :=
  if byte_in 97 122 c then ascii_of_N (N_of_ascii c - 32) else c.
Definition to_ascii_uppercase (s : string) : string := str_map to_upper s.

(** [format!("HTTP_{}", name.to_ascii_uppercase().replace('-', "_"))]. *)
Definition cgi_name (name : string) : string :=
  "HTTP_" +:+ str_map (λ c, if Ascii.eqb c "-" then "_"%char else c) (to_ascii_uppercase name).

Section env.
Context `{Http}.

Record Parts := {
  p_method : string;
  p_path : string;
  p_query : option string;
  p_headers : header_map;
}.

Definition script_name (path : string) (index : option string) : string :=
  if ends_with_slash path then
    match index with Some idx => path +:+ idx | None => path end
  else path.

Definition header_vars (skip : string → bool) (l : list (HeaderName * header_value))
    : list (string * string) :=
  omap (λ nv, if skip (fst nv) then None
              else (λ v, (cgi_name (fst nv), v)) <$> hv_to_str (snd nv)) l.

(** The variables CGI names itself. *)
Definition meta_vars (parts : Parts) (root : string) (index : option string) (body : string)
    : list (string * string) :=
  let path := p_path parts in
  let query := default "" (p_query parts) in
  let script_name := script_name path index in
  let script_filename := trim_end_by (Ascii.eqb "/") root +:+ "/" +:+
                         trim_start_by (Ascii.eqb "/") script_name in
  let request_uri := if is_empty query then path else path +:+ "?" +:+ query in
  let host_hdr := default "" (get_str (p_headers parts) HOST) in
  let '(server_name, server_port) := split_host_port host_hdr in
  let content_type := default "" (get_str (p_headers parts) CONTENT_TYPE) in
  [("GATEWAY_INTERFACE", "CGI/1.1");
   ("SERVER_SOFTWARE", "hypershunt/0.1.0");
   ("SERVER_PROTOCOL", "HTTP/1.1");
   ("REQUEST_METHOD", p_method parts);
   ("REQUEST_URI", request_uri);
   ("SCRIPT_NAME", script_name);
   ("SCRIPT_FILENAME", script_filename);
   ("PATH_INFO", "");
   ("QUERY_STRING", query);
   ("CONTENT_TYPE", content_type);
   ("CONTENT_LENGTH", dec (str_len body));
   ("SERVER_NAME", server_name);
   ("SERVER_PORT", server_port);
   ("REMOTE_ADDR", "0.0.0.0")].

Definition build_cgi_env (parts : Parts) (root : string) (index : option string) (body : string)
    (trace_headers : list (HeaderName * header_value)) : list (string * string) :=
  meta_vars parts root index body
  ++ header_vars (λ _, false) trace_headers
  ++ header_vars (λ n, String.eqb n CONTENT_TYPE || String.eqb n CONTENT_LENGTH ||
                       bool_decide (trace_headers ≠ []) &&
                         (String.eqb n "traceparent" || String.eqb n "tracestate"))
       (hm_iter (p_headers parts)).

(** * Script output *)

Definition LF : ascii := ascii_of_N 10.
Definition CRLF2 : string := bytes_of [13; 10; 13; 10].
Definition LF2 : string := bytes_of [10; 10].

(** [find_subsequence], as what precedes and what follows the match. *)
Fixpoint find_subsequence (needle haystack : string) : option (string * string) :=
  match strip_prefix needle haystack with
  | Some after => Some ("", after)
  | None => match haystack with
            | "" => None
            | String c h' => '(a, b) ← find_subsequence needle h'; Some (String c a, b)
            end
  end.

Definition find_header_boundary (data : string) : option (string * string) :=
  match find_subsequence CRLF2 data with
  | Some r => Some r
  | None => find_subsequence LF2 data
  end.

Definition parse_status (val : string) : Result N :=
  code ← ok_or (first_word val ≫= parse_uint u16_max) "malformed Status header";
  if valid_status code then Ok code else Err "invalid HTTP status code".

Fixpoint parse_header_lines (lines : list string) (b : Builder) : Result Builder :=
  match lines with
  | [] => Ok b
  | line :: lines' =>
      let line := utrim line in
      if is_empty line then parse_header_lines lines' b
      else match split_once ":" line with
           | None => Err "malformed CGI header line"
           | Some (key, val) =>
               let key := utrim key in
               let val := utrim val in
               if eq_ignore_ascii_case key "status" then
                 code ← parse_status val;
                 parse_header_lines lines' {| b_status := code; b_headers := b_headers b |}
               else parse_header_lines lines' (builder_header b key val)
           end
  end.

(** The inner [None] is the panic of [expect] on a builder that refused a
    header.  The lines are trimmed, so splitting at LF is [str::lines]. *)
Definition parse_cgi_response (stdout : string) : Result (option HttpResponse) :=
  '(header_bytes, body) ← ok_or (find_header_boundary stdout) "no header/body separator";
  headers_str ← ok_or (from_utf8 header_bytes) "CGI response headers are not UTF-8";
  b ← parse_header_lines (split LF headers_str) builder;
  Ok (builder_body (builder_status b (b_status b)) body).

End env.

(** * FastCGI *)

Definition FCGI_VERSION : N := 1.
Definition FCGI_BEGIN_REQUEST : N := 1.
Definition FCGI_END_REQUEST : N := 3.
Definition FCGI_PARAMS : N := 4.
Definition FCGI_STDIN : N := 5.
Definition FCGI_STDOUT : N := 6.
Definition FCGI_STDERR : N := 7.
Definition FCGI_RESPONDER : N := 1.
Definition REQUEST_ID : N := 1.

Definition padding_of (len : N) : N := (8 - len mod 8) mod 8.

(** [len as u16] wraps. *)
Definition build_record (type_ : N) (content : string) : string :=
  let len := str_len content in
  let padding := padding_of len in
  octets 1 FCGI_VERSION +:+ octets 1 type_ +:+ octets 2 REQUEST_ID +:+
  octets 2 (len mod 65536) +:+ octets 1 padding +:+ octets 1 0 +:+
  content +:+ zeros (N.to_nat padding).

Definition encode_length (n : N) : string :=
  if n <? 128 then octets 1 n else octets 4 (N.lor (wrap32 n) 2147483648).

Fixpoint encode_params (vars : list (string * string)) : string :=
  match vars with
  | [] => ""
  | (n, v) :: vars' =>
      encode_length (str_len n) +:+ encode_length (str_len v) +:+ n +:+ v +:+ encode_params vars'
  end.

Definition begin_body : string := octets 2 FCGI_RESPONDER +:+ zeros 6.

Definition build_fcgi_request (env : list (string * string)) (body : string) : string :=
  build_record FCGI_BEGIN_REQUEST begin_body +:+
  build_record FCGI_PARAMS (encode_params env) +:+ build_record FCGI_PARAMS "" +:+
  build_record FCGI_STDIN body +:+ build_record FCGI_STDIN "".

(** One round of the parser's loop: [None] when fewer than eight bytes are
    left, else the type, the content and what follows the record. *)
Definition next_record (data : string) : option (Result (N * string * string)) :=
  if (String.length data <? 8)%nat then None
  else
    let type_ := field 1 1 data in
    let content_len := N.to_nat (field 4 2 data) in
    let padding_len := N.to_nat (field 6 1 data) in
    Some (if (String.length data <? 8 + content_len + padding_len)%nat
          then Err "truncated fastcgi record"
          else Ok (type_, str_take content_len (str_drop 8 data),
                   str_drop (8 + content_len + padding_len) data)).

(** Every round consumes at least eight bytes, so the length is enough fuel. *)
Fixpoint fcgi_loop (fuel : nat) (data stdout : string) : Result string :=
  match fuel with
  | O => Ok stdout
  | S fuel' =>
      match next_record data with
      | None => Ok stdout
      | Some (Err e) => Err e
      | Some (Ok (type_, content, rest)) =>
          if type_ =? FCGI_STDOUT then fcgi_loop fuel' rest (stdout +:+ content)
          else if type_ =? FCGI_END_REQUEST then Ok stdout
          else fcgi_loop fuel' rest stdout
      end
  end.

Definition parse_fcgi_stdout (data : string) : Result string :=
  fcgi_loop (String.length data) data "".

(** * SCGI *)

Definition append_pair (key value : string) : string :=
  key +:+ zeros 1 +:+ value +:+ zeros 1.

Definition build_scgi_request (env : list (string * string)) (body : string) : string :=
  let header_block :=
    append_pair "CONTENT_LENGTH" (dec (str_len body)) +:+
    String.concat "" ((λ kv, append_pair (fst kv) (snd kv)) <$>
      List.filter (λ kv, negb (String.eqb (fst kv) "CONTENT_LENGTH")) env) in
  dec (str_len header_block) +:+ ":" +:+ header_block +:+ "," +:+ body.

(** * The handlers *)

Section handlers.
Context `{Http}.

(** The counters of one gateway kind ([spawn_failures] is only CGI's). *)
Record GwMetrics := {
  requests_total : N;
  in_flight : Z;
  errors_total : N;
  spawn_failures : N;
}.

Definition bump_requests (m : GwMetrics) : GwMetrics :=
  {| requests_total := wrap64 (requests_total m + 1); in_flight := in_flight m;
     errors_total := errors_total m; spawn_failures := spawn_failures m |}.
Definition bump_errors (m : GwMetrics) : GwMetrics :=
  {| requests_total := requests_total m; in_flight := in_flight m;
     errors_total := wrap64 (errors_total m + 1); spawn_failures := spawn_failures m |}.
Definition bump_spawn_failures (m : GwMetrics) : GwMetrics :=
  {| requests_total := requests_total m; in_flight := in_flight m;
     errors_total := errors_total m; spawn_failures := wrap64 (spawn_failures m + 1) |}.
Definition gauge_add (d : Z) (m : GwMetrics) : GwMetrics :=
  {| requests_total := requests_total m; in_flight := swrap64 (in_flight m + d);
     errors_total := errors_total m; spawn_failures := spawn_failures m |}.

(** [InFlightGuard]: the decrement runs on every way out of the body. *)
Definition guarded {A} (f : GwMetrics → A * GwMetrics) (m : GwMetrics) : A * GwMetrics :=
  let '(a, m') := f (gauge_add 1 m) in (a, gauge_add (-1) m').

(** The handlers answer a response, or panic ([None]). *)
Abbreviation Answer := (option HttpResponse * GwMetrics)%type.

Definition fail_502 (m : GwMetrics) : Answer := (response_502, bump_errors m).

Definition collect_body (body : Body) : option string :=
  match body with Full b => Some b | Failing => None end.

(** The transports are parameters: what connecting to the address, sending the
    request and reading to the end gives. *)
Section socket.
Context (unix_io tcp_io : string → string → Result string).
Context (trace_headers : list (HeaderName * header_value)).

Definition socket_roundtrip (socket request : string) : Result string :=
  match strip_prefix "unix:" socket with
  | Some path => unix_io path request
  | None => match strip_prefix "tcp:" socket with
            | Some addr => tcp_io addr request
            | None => Err "unsupported socket"
            end
  end.

Record SocketHandler := {
  h_socket : string;
  h_root : string;
  h_index : option string;
}.

Definition answer_cgi (stdout : string) (m : GwMetrics) : Answer :=
  match parse_cgi_response stdout with
  | Ok resp => (resp, m)
  | Err _ => fail_502 m
  end.

Definition fcgi_handle (h : SocketHandler) (parts : Parts) (body : Body) (m : GwMetrics)
    : Answer :=
  guarded (λ m,
    match collect_body body with
    | None => fail_502 m
    | Some body_bytes =>
        let env := build_cgi_env parts (h_root h) (h_index h) body_bytes trace_headers in
        match socket_roundtrip (h_socket h) (build_fcgi_request env body_bytes) with
        | Err _ => fail_502 m
        | Ok raw => match parse_fcgi_stdout raw with
                    | Ok stdout => answer_cgi stdout m
                    | Err _ => fail_502 m
                    end
        end
    end) (bump_requests m).

Definition scgi_handle (h : SocketHandler) (parts : Parts) (body : Body) (m : GwMetrics)
    : Answer :=
  guarded (λ m,
    match collect_body body with
    | None => fail_502 m
    | Some body_bytes =>
        let env := build_cgi_env parts (h_root h) (h_index h) body_bytes trace_headers in
        match socket_roundtrip (h_socket h) (build_scgi_request env body_bytes) with
        | Ok raw => answer_cgi raw m
        | Err _ => fail_502 m
        end
    end) (bump_requests m).

End socket.

(** What spawning the script and talking to it comes to. *)
Inductive Ran :=
  | SpawnFailed
  | WriteFailed
  | WaitFailed
  | Output (stdout : string).

Section script.
Context (exists_ : string → bool).
Context (run : string → list (string * string) → string → Ran).
Context (trace_headers : list (HeaderName * header_value)).

Definition resolve_script (root uri_path : string) : option string :=
  candidate ← StaticFiles.safe_join root uri_path;
  if exists_ candidate then Some candidate else None.

Definition cgi_handle (root : string) (parts : Parts) (body : Body) (m : GwMetrics) : Answer :=
  guarded (λ m,
    if ends_with_slash (p_path parts) then (response_404, m)
    else match resolve_script root (p_path parts) with
    | None => (response_404, m)
    | Some script_path =>
        match collect_body body with
        | None => fail_502 m
        | Some body_bytes =>
            let env := build_cgi_env parts (from_utf8_lossy root) None body_bytes trace_headers in
            match run script_path env body_bytes with
            | SpawnFailed => (response_502, bump_errors (bump_spawn_failures m))
            | WriteFailed | WaitFailed => fail_502 m
            | Output stdout => answer_cgi stdout m
            end
        end
    end) (bump_requests m).

End script.
End handlers.

(** * Lemmas on records *)

Definition record_header (type_ len padding : N) : string :=
  octets 1 FCGI_VERSION +:+ octets 1 type_ +:+ octets 2 REQUEST_ID +:+
  octets 2 len +:+ octets 1 padding +:+ octets 1 0.

Lemma build_record_header t c :
  build_record t c =
  record_header t (str_len c mod 65536) (padding_of (str_len c)) +:+ c +:+
  zeros (N.to_nat (padding_of (str_len c))).
Proof. unfold build_record, record_header. by rewrite !str_app_assoc. Qed.

Lemma record_header_fields t len p rest :
  t < 256 → len < 65536 → p < 256 →
  String.length (record_header t len p) = 8%nat ∧
  field 1 1 (record_header t len p +:+ rest) = t ∧
  field 4 2 (record_header t len p +:+ rest) = len ∧
  field 6 1 (record_header t len p +:+ rest) = p.
Proof.
  intros Ht Hl Hp. unfold record_header. split_and!.
  - by rewrite !str_length_app, !octets_length.
  - rewrite !str_app_assoc. by apply (field_octets 1 1 (octets 1 FCGI_VERSION)).
  - rewrite <- !str_app_assoc, !str_app_assoc.
    rewrite <- (str_app_assoc (octets 1 FCGI_VERSION)), <- (str_app_assoc (_ +:+ _)).
    apply field_octets; [by rewrite !str_length_app, !octets_length|done].
  - rewrite !str_app_assoc.
    rewrite <- (str_app_assoc (octets 1 FCGI_VERSION)), <- (str_app_assoc (_ +:+ _)),
      <- (str_app_assoc ((_ +:+ _) +:+ _)).
    apply field_octets; [by rewrite !str_length_app, !octets_length|done].
Qed.

Lemma padding_of_lt len : padding_of len < 8.
Proof. unfold padding_of. apply N.mod_lt. done. Qed.

(** What the parser reads off an encoded record of any length: the low
    sixteen bits of the length decide what is content. *)
Lemma next_record_build t c rest :
  t < 256 →
  let k := N.to_nat (str_len c mod 65536) in
  let p := N.to_nat (padding_of (str_len c)) in
  next_record (build_record t c +:+ rest) =
  Some (Ok (t, str_take k c, str_drop (k + p) (c +:+ zeros p +:+ rest))).
Proof.
  intros Ht k p. pose proof (padding_of_lt (str_len c)) as Hp.
  assert (str_len c mod 65536 < 65536) as Hk by (apply N.mod_lt; done).
  assert (k ≤ String.length c)%nat as Hkc.
  { unfold k, str_len. pose proof (N.Div0.mod_le (N.of_nat (String.length c)) 65536). lia. }
  rewrite build_record_header, str_app_assoc.
  destruct (record_header_fields t (str_len c mod 65536) (padding_of (str_len c))
    ((c +:+ zeros p) +:+ rest)) as (Hl & E1 & E4 & E6); [done|done|lia|].
  unfold next_record. fold p. rewrite E1, E4, E6. fold k p.
  rewrite str_app_assoc in *. rewrite str_length_app, Hl.
  rewrite (proj2 (Nat.ltb_ge _ _)) by lia.
  rewrite (proj2 (Nat.ltb_ge _ _)) by (rewrite !str_length_app, zeros_length; lia).
  do 4 f_equal.
  - rewrite <- Hl at 1. rewrite str_drop_app. by apply str_take_app_le.
Qed.

Lemma next_record_exact t c rest :
  t < 256 → str_len c < 65536 → next_record (build_record t c +:+ rest) = Some (Ok (t, c, rest)).
Proof.
  intros Ht Hc. rewrite next_record_build by done. cbv zeta. rewrite N.mod_small by done.
  unfold str_len at 1 2. rewrite !Nat2N.id. do 4 f_equal.
  - rewrite <- (str_app_nil_r c) at 2. apply str_take_app.
  - rewrite str_drop_add_app. rewrite <- (zeros_length (N.to_nat (padding_of _))) at 1.
    apply str_drop_app.
Qed.

(** A receiver's view: the first [n] records of a stream, and what follows. *)
Fixpoint read_records (n : nat) (data : string) : option (list (N * string) * string) :=
  match n with
  | O => Some ([], data)
  | S n' =>
      match next_record data with
      | Some (Ok (t, c, rest)) =>
          '(rs, rest') ← read_records n' rest; Some ((t, c) :: rs, rest')
      | _ => None
      end
  end.

Lemma read_record_cons n t c rest :
  t < 256 → str_len c < 65536 →
  read_records (S n) (build_record t c +:+ rest) =
  ('(rs, rest') ← read_records n rest; Some ((t, c) :: rs, rest')).
Proof. intros. cbn [read_records]. by rewrite next_record_exact. Qed.

(** ** Parameters *)

(** The receiver's decoding of a length. *)
Definition decode_length (s : string) : option (N * string) :=
  match s with
  | "" => None
  | String c s' =>
      if N_of_ascii c <? 128 then Some (N_of_ascii c, s')
      else if (String.length s <? 4)%nat then None
      else Some (be_value (str_take 4 s) - 2147483648, str_drop 4 s)
  end.

Fixpoint decode_params (fuel : nat) (s : string) : option (list (string * string)) :=
  match fuel with
  | O => None
  | S fuel' =>
      if is_empty s then Some []
      else
        '(ln, s) ← decode_length s;
        '(lv, s) ← decode_length s;
        if (String.length s <? N.to_nat ln + N.to_nat lv)%nat then None
        else
          rest ← decode_params fuel' (str_drop (N.to_nat ln + N.to_nat lv) s);
          Some ((str_take (N.to_nat ln) s, str_take (N.to_nat lv) (str_drop (N.to_nat ln) s)) :: rest)
  end.

Lemma decode_encode_length n rest :
  n < 2147483648 → decode_length (encode_length n +:+ rest) = Some (n, rest).
Proof.
  intros Hn. unfold encode_length. destruct (N.ltb_spec n 128) as [Hs|Hs].
  - change (octets 1 n +:+ rest) with (String (ascii_of_N (n mod 256)) rest).
    rewrite N.mod_small by lia. cbn [decode_length]. rewrite N_ascii_embedding by lia.
    by rewrite (proj2 (N.ltb_lt _ _)).
  - assert (wrap32 n = n) as -> by (unfold wrap32; apply N.mod_small; lia).
    assert (N.lor n 2147483648 = n + 2147483648) as ->.
    { assert (N.land n (2 ^ 31) = 0) as Hland.
      { apply N.bits_inj. intros i. rewrite N.land_spec, N.bits_0, N.pow2_bits_eqb.
        destruct (N.eqb_spec 31 i) as [<-|]; [|by rewrite andb_false_r].
        rewrite N.bits_above_log2; [done|]. apply N.log2_lt_pow2; lia. }
      change 2147483648 with (2 ^ 31). by rewrite N.add_nocarry_lxor, N.lxor_lor. }
    set (m := n + 2147483648).
    assert (be_value (octets 4 m) = m) as Hm by (apply be_value_octets; unfold m; cbn; lia).
    assert (∃ b s', octets 4 m = String b s' ∧ 128 ≤ N_of_ascii b) as (b & s' & Eo & Hb).
    { cbn [octets]. eexists _, _. split; [reflexivity|].
      rewrite N_ascii_embedding by (apply N.mod_lt; done).
      rewrite !N.Div0.div_div. rewrite N.mod_small.
      - apply N.div_le_lower_bound; [done|]. unfold m. cbn. lia.
      - apply N.Div0.div_lt_upper_bound. unfold m. cbn. lia. }
    pose proof (octets_length 4 m) as Hl. unfold decode_length.
    rewrite Eo in *. rewrite str_app_cons.
    rewrite (proj2 (N.ltb_ge _ _)) by done.
    rewrite <- str_app_cons. rewrite str_length_app, Hl.
    rewrite (proj2 (Nat.ltb_ge _ _)) by lia.
    rewrite <- Hl at 1. rewrite str_take_app, Hm. rewrite <- Hl at 1. rewrite str_drop_app.
    unfold m. do 2 f_equal. lia.
Qed.

Lemma encode_length_nonempty n s : encode_length n +:+ s ≠ "".
Proof.
  unfold encode_length. destruct (n <? 128); intros E; apply (f_equal String.length) in E;
    rewrite str_length_app, octets_length in E; cbn in E; lia.
Qed.

Lemma decode_encode_params vars fuel :
  Forall (λ kv, str_len (fst kv) < 2147483648 ∧ str_len (snd kv) < 2147483648) vars →
  (length vars < fuel)%nat → decode_params fuel (encode_params vars) = Some vars.
Proof.
  revert fuel. induction vars as [|[n v] vars IH]; intros fuel Hall Hf.
  { by destruct fuel as [|fuel]; [lia|]. }
  destruct fuel as [|fuel]; [cbn in Hf; lia|]. apply Forall_cons in Hall as [[Hn Hv] Hall].
  cbn [fst snd] in Hn, Hv. cbn [encode_params decode_params]. unfold is_empty.
  destruct (String.eqb_spec (encode_length (str_len n) +:+ encode_length (str_len v) +:+ n +:+ v +:+
    encode_params vars) "") as [E|_]; [by apply encode_length_nonempty in E|].
  rewrite decode_encode_length by done. cbn [mbind option_bind].
  rewrite decode_encode_length by done. cbn [mbind option_bind].
  unfold str_len. rewrite !Nat2N.id, !str_length_app.
  rewrite (proj2 (Nat.ltb_ge _ _)) by lia.
  rewrite str_drop_add_app, (str_drop_app v), IH; [|done|cbn in Hf; lia].
  cbn [mbind option_bind]. by rewrite !str_take_app, str_drop_app, str_take_app.
Qed.

(** ** Framing of a request *)

Lemma build_record_no_rest n t c :
  t < 256 → str_len c < 65536 →
  read_records (S n) (build_record t c) =
  ('(rs, rest') ← read_records n ""; Some ((t, c) :: rs, rest')).
Proof. intros. rewrite <- (str_app_nil_r (build_record t c)). by apply read_record_cons. Qed.

Lemma encode_params_entry_le vars :
  Forall (λ kv, (String.length (fst kv) ≤ String.length (encode_params vars))%nat ∧
                (String.length (snd kv) ≤ String.length (encode_params vars))%nat) vars.
Proof.
  induction vars as [|[n v] vars IH]; [done|]. cbn [encode_params].
  rewrite !str_length_app. constructor; [cbn; lia|].
  eapply Forall_impl; [done|]. intros kv [??]. lia.
Qed.

Lemma encode_params_count vars :
  (length vars ≤ String.length (encode_params vars))%nat.
Proof.
  induction vars as [|[n v] vars IH]; [done|]. cbn [encode_params length].
  rewrite !str_length_app.
  assert (1 ≤ String.length (encode_length (str_len n)))%nat; [|lia].
  unfold encode_length. destruct (_ <? 128); rewrite octets_length; lia.
Qed.

(** A FastCGI request whose parameters and body fit a record is framed as
    the protocol asks: a receiver reads exactly the begin record, the
    parameters, their end marker, the body and its end marker, with nothing
    left over, and decodes the parameters back to the environment. *)
Theorem fcgi_request_framed env body :
  str_len (encode_params env) < 65536 → str_len body < 65536 →
  read_records 5 (build_fcgi_request env body) =
    Some ([(FCGI_BEGIN_REQUEST, begin_body); (FCGI_PARAMS, encode_params env); (FCGI_PARAMS, "");
           (FCGI_STDIN, body); (FCGI_STDIN, "")], "") ∧
  decode_params (S (String.length (encode_params env))) (encode_params env) = Some env.
Proof.
  intros He Hb. split.
  - unfold build_fcgi_request. rewrite !read_record_cons by done.
    by rewrite build_record_no_rest.
  - apply decode_encode_params.
    + eapply Forall_impl; [apply encode_params_entry_le|]. unfold str_len in *.
      intros kv [??]. lia.
    + pose proof (encode_params_count env). lia.
Qed.

Lemma fcgi_request_framed_witness :
  read_records 5 (build_fcgi_request [("A", "b")] "xyz") =
    Some ([(FCGI_BEGIN_REQUEST, begin_body); (FCGI_PARAMS, encode_params [("A", "b")]);
           (FCGI_PARAMS, ""); (FCGI_STDIN, "xyz"); (FCGI_STDIN, "")], "") ∧
  decode_params 5 (encode_params [("A", "b")]) = Some [("A", "b")].
Proof. apply (fcgi_request_framed [("A", "b")] "xyz"); vm_compute; reflexivity. Defined.

(** The length field of a record is sixteen bits wide and a longer body is
    still written whole, so the bytes of a body of 65536 bytes are read as
    records of their own: a client that starts such a body with a record makes
    the backend see that record, of any type, right after an empty body. *)
Theorem fcgi_body_injects_records env t c pad :
  str_len (encode_params env) < 65536 → t < 256 → str_len c < 65536 →
  str_len (build_record t c +:+ pad) = 65536 →
  ∃ rest, read_records 5 (build_fcgi_request env (build_record t c +:+ pad)) =
    Some ([(FCGI_BEGIN_REQUEST, begin_body); (FCGI_PARAMS, encode_params env); (FCGI_PARAMS, "");
           (FCGI_STDIN, ""); (t, c)], rest).
Proof.
  intros He Ht Hc Hl. eexists. unfold build_fcgi_request.
  rewrite !read_record_cons by done. cbn [read_records].
  rewrite next_record_build by done. cbv zeta. rewrite Hl.
  change (N.to_nat (65536 mod 65536)) with 0%nat.
  change (N.to_nat (padding_of 65536)) with 0%nat.
  cbn [str_drop str_take Nat.add zeros]. rewrite str_app_assoc, next_record_exact by done.
  reflexivity.
Qed.

Lemma fcgi_body_injects_records_witness :
  ∃ rest, read_records 5 (build_fcgi_request [] (build_record 4 "evil" +:+ zeros (N.to_nat 65520))) =
    Some ([(FCGI_BEGIN_REQUEST, begin_body); (FCGI_PARAMS, encode_params []); (FCGI_PARAMS, "");
           (FCGI_STDIN, ""); (4, "evil")], rest).
Proof.
  apply (fcgi_body_injects_records [] 4 "evil" (zeros (N.to_nat 65520)));
    [vm_compute; reflexivity..|].
  unfold str_len. rewrite str_length_app, zeros_length. vm_compute. reflexivity.
Defined.

(** ** The protocol, as an application speaks it *)

(** A record as the FastCGI specification has it, whoever writes it: any
    request id, any padding, any reserved byte. *)
Record Rec := {
  rec_type : N;
  rec_id : N;
  rec_content : string;
  rec_padding : string;
  rec_reserved : N;
}.

Definition wire (r : Rec) : string :=
  octets 1 1 +:+ octets 1 (rec_type r) +:+ octets 2 (rec_id r) +:+
  octets 2 (str_len (rec_content r)) +:+ octets 1 (str_len (rec_padding r)) +:+
  octets 1 (rec_reserved r) +:+ rec_content r +:+ rec_padding r.

Definition rec_ok (r : Rec) : Prop :=
  rec_type r < 256 ∧ rec_id r < 65536 ∧ str_len (rec_content r) < 65536 ∧
  str_len (rec_padding r) < 256 ∧ rec_reserved r < 256.

Fixpoint wires (rs : list Rec) : string :=
  match rs with [] => "" | r :: rs' => wire r +:+ wires rs' end.

(** What the records put on standard output. *)
Fixpoint stdout_of (rs : list Rec) : string :=
  match rs with
  | [] => ""
  | r :: rs' => (if rec_type r =? FCGI_STDOUT then rec_content r else "") +:+ stdout_of rs'
  end.

(** Reading one record, byte by byte. *)
Definition read_rec (s : string) : option (Rec * string) :=
  match s with
  | String v (String t (String i1 (String i0 (String l1 (String l0 (String p (String z rest))))))) =>
      let len := N.to_nat (256 * N_of_ascii l1 + N_of_ascii l0) in
      let pad := N.to_nat (N_of_ascii p) in
      if negb (N_of_ascii v =? 1) || (String.length rest <? len + pad)%nat then None
      else Some ({| rec_type := N_of_ascii t; rec_id := 256 * N_of_ascii i1 + N_of_ascii i0;
                    rec_content := str_take len rest;
                    rec_padding := str_take pad (str_drop len rest);
                    rec_reserved := N_of_ascii z |}, str_drop (len + pad) rest)
  | _ => None
  end.

(** A stream of one type and request, up to the empty record that ends it. *)
Fixpoint read_stream (fuel : nat) (type_ id : N) (s : string) : option (string * string) :=
  match fuel with
  | O => None
  | S fuel' =>
      '(r, rest) ← read_rec s;
      if (rec_type r =? type_) && (rec_id r =? id)
      then if is_empty (rec_content r) then Some ("", rest)
           else '(content, rest) ← read_stream fuel' type_ id rest;
                Some (rec_content r +:+ content, rest)
      else None
  end.

(** Records of a stream that has ended carry nothing. *)
Fixpoint spent (fuel : nat) (type_ id : N) (s : string) : bool :=
  match fuel with
  | O => false
  | S fuel' =>
      is_empty s ||
      match read_rec s with
      | Some (r, rest) => (rec_type r =? type_) && (rec_id r =? id) && is_empty (rec_content r)
                          && spent fuel' type_ id rest
      | None => false
      end
  end.

(** The request an application reads: the begin record asks for a responder
    and for the connection to be closed after the answer; then come the
    parameters and the standard input, and nothing more (the handler ends the
    standard input of a request without a body twice). *)
Definition read_request (s : string) : option (list (string * string) * string) :=
  let fuel := S (String.length s) in
  '(b, s) ← read_rec s;
  if (rec_type b =? 1) && String.eqb (rec_content b) (bytes_of [0; 1; 0; 0; 0; 0; 0; 0])
  then
    '(params, s) ← read_stream fuel 4 (rec_id b) s;
    '(stdin, s) ← read_stream fuel 5 (rec_id b) s;
    if spent fuel 5 (rec_id b) s then
      env ← decode_params (S (String.length params)) params; Some (env, stdin)
    else None
  else None.

Lemma octets1_byte n : n < 256 → octets 1 n = String (ascii_of_N n) "".
Proof. intros Hn. cbn. by rewrite N.mod_small by done. Qed.

Lemma octets2_bytes n : n < 65536 →
  octets 2 n = String (ascii_of_N (n / 256)) (String (ascii_of_N (n mod 256)) "").
Proof.
  intros Hn. cbn. rewrite (N.mod_small (n / 256)); [done|].
  apply N.Div0.div_lt_upper_bound. lia.
Qed.

Lemma two_bytes n : n < 65536 →
  256 * N_of_ascii (ascii_of_N (n / 256)) + N_of_ascii (ascii_of_N (n mod 256)) = n.
Proof.
  intros Hn. assert (n / 256 < 256) by (apply N.Div0.div_lt_upper_bound; lia).
  assert (n mod 256 < 256) by (by apply N.mod_lt).
  rewrite !N_ascii_embedding by done. symmetry. by apply N.div_mod.
Qed.

Lemma read_rec_wire r rest : rec_ok r → read_rec (wire r +:+ rest) = Some (r, rest).
Proof.
  intros (Ht & Hi & Hc & Hp & Hz). unfold wire.
  rewrite !octets1_byte, !octets2_bytes by done. repeat (rewrite str_app_cons || rewrite str_app_nil_l).
  cbn [read_rec]. rewrite !two_bytes, !N_ascii_embedding by done.
  unfold str_len. rewrite !Nat2N.id, str_app_assoc, !str_length_app.
  rewrite (proj2 (Nat.ltb_ge _ _)) by lia. cbn [N.eqb negb orb].
  rewrite str_take_app, !str_drop_app, str_take_app, str_drop_add_app, str_drop_app.
  by destruct r.
Qed.

Lemma next_record_wire r rest :
  rec_ok r → next_record (wire r +:+ rest) = Some (Ok (rec_type r, rec_content r, rest)).
Proof.
  intros (Ht & Hi & Hc & Hp & Hz). unfold wire.
  rewrite !octets1_byte, !octets2_bytes by done. repeat (rewrite str_app_cons || rewrite str_app_nil_l).
  unfold next_record, field. cbn [str_drop str_take String.length].
  assert (∀ x y, be_value (String x (String y "")) = 256 * N_of_ascii x + N_of_ascii y) as B2.
  { intros x y. unfold be_value. cbn. lia. }
  assert (∀ x, be_value (String x "") = N_of_ascii x) as B1.
  { intros x. unfold be_value. cbn. lia. }
  rewrite B2, !B1, two_bytes, !N_ascii_embedding by done.
  unfold str_len. rewrite !Nat2N.id, str_app_assoc, !str_length_app.
  rewrite !(proj2 (Nat.ltb_ge _ _)) by lia.
  cbn [Nat.add str_drop]. by rewrite str_take_app, str_drop_add_app, str_drop_app.
Qed.

(** The records the handler writes are records of the protocol. *)
Definition own_record (type_ : N) (content : string) : Rec :=
  {| rec_type := type_; rec_id := REQUEST_ID; rec_content := content;
     rec_padding := zeros (N.to_nat (padding_of (str_len content))); rec_reserved := 0 |}.

Lemma build_record_wire t c :
  t < 256 → str_len c < 65536 →
  build_record t c = wire (own_record t c) ∧ rec_ok (own_record t c).
Proof.
  intros Ht Hc. pose proof (padding_of_lt (str_len c)) as Hp.
  assert (str_len (zeros (N.to_nat (padding_of (str_len c)))) = padding_of (str_len c)) as Hz.
  { unfold str_len at 1. rewrite zeros_length. lia. }
  split.
  - unfold build_record, wire. cbn [rec_type rec_id rec_content rec_padding rec_reserved own_record].
    by rewrite Hz, N.mod_small.
  - split_and!; cbn; try done. by rewrite Hz; lia.
Qed.

Lemma read_rec_build t c rest :
  t < 256 → str_len c < 65536 → read_rec (build_record t c +:+ rest) = Some (own_record t c, rest).
Proof.
  intros Ht Hc. destruct (build_record_wire t c Ht Hc) as [-> Hok]. by apply read_rec_wire.
Qed.

Lemma is_empty_eq s : is_empty s = true ↔ s = "".
Proof. unfold is_empty. by rewrite String.eqb_eq. Qed.

Lemma read_stream_build fuel t c rest :
  t < 256 → str_len c < 65536 → c ≠ "" →
  read_stream (S (S fuel)) t REQUEST_ID (build_record t c +:+ build_record t "" +:+ rest)
  = Some (c, rest).
Proof.
  intros Ht Hc Hne. cbn [read_stream]. rewrite read_rec_build by done. cbn [mbind option_bind].
  cbn [own_record rec_type rec_id rec_content]. rewrite !N.eqb_refl. cbn [andb].
  destruct (is_empty c) eqn:E; [by apply is_empty_eq in E|].
  rewrite read_rec_build by done. cbn. rewrite N.eqb_refl.
  change (is_empty "") with true. cbn. by rewrite str_app_nil_r.
Qed.

Lemma read_stream_empty fuel t rest :
  t < 256 → read_stream (S fuel) t REQUEST_ID (build_record t "" +:+ rest) = Some ("", rest).
Proof. intros Ht. cbn [read_stream]. rewrite read_rec_build by done. cbn. by rewrite N.eqb_refl. Qed.

Lemma spent_nil fuel t id : spent (S fuel) t id "" = true.
Proof. done. Qed.

Lemma spent_build fuel t : t < 256 → spent (S (S fuel)) t REQUEST_ID (build_record t "") = true.
Proof.
  intros Ht. rewrite <- (str_app_nil_r (build_record t "")). cbn [spent].
  rewrite read_rec_build by done. cbn. rewrite N.eqb_refl. apply orb_true_r.
Qed.

(** An application reads the handler's request as the environment and the
    body it was built from. *)
Lemma read_request_build env body :
  env ≠ [] → str_len (encode_params env) < 65536 → str_len body < 65536 →
  read_request (build_fcgi_request env body) = Some (env, body).
Proof.
  intros Hne He Hb.
  assert (encode_params env ≠ "") as Hp.
  { destruct env as [|[n v] env]; [done|]. apply encode_length_nonempty. }
  assert (∃ n, String.length (build_fcgi_request env body) = S n) as [fuel Hfuel].
  { unfold build_fcgi_request, build_record at 1. cbn. by eexists. }
  unfold read_request. rewrite Hfuel. unfold build_fcgi_request.
  rewrite read_rec_build by done. cbn [mbind option_bind own_record rec_type rec_id rec_content].
  change ((FCGI_BEGIN_REQUEST =? 1) && String.eqb begin_body _) with true. cbv iota.
  change 4 with FCGI_PARAMS. change 5 with FCGI_STDIN.
  rewrite read_stream_build by done. cbn [mbind option_bind].
  assert (decode_params (S (String.length (encode_params env))) (encode_params env) = Some env) as Hd.
  { apply decode_encode_params.
    - eapply Forall_impl; [apply encode_params_entry_le|]. unfold str_len in *. intros kv [??]. lia.
    - pose proof (encode_params_count env). lia. }
  destruct (decide (body = "")) as [->|Hbody].
  - rewrite read_stream_empty by done. cbn [mbind option_bind]. rewrite spent_build by done.
    by rewrite Hd.
  - rewrite <- (str_app_nil_r (build_record FCGI_STDIN "")).
    rewrite read_stream_build by done. cbn [mbind option_bind]. rewrite spent_nil.
    by rewrite Hd.
Qed.

(** ** Reading a response *)

Lemma next_record_shorter data t c rest :
  next_record data = Some (Ok (t, c, rest)) → (String.length rest + 8 ≤ String.length data)%nat.
Proof.
  unfold next_record. destruct (Nat.ltb_spec (String.length data) 8); [done|].
  destruct (Nat.ltb_spec (String.length data) (8 + N.to_nat (field 4 2 data) + N.to_nat (field 6 1 data)));
    [done|]. intros E.
  assert (rest = str_drop (8 + N.to_nat (field 4 2 data) + N.to_nat (field 6 1 data)) data) as ->
    by congruence.
  rewrite str_drop_length. lia.
Qed.

(** Fuel beyond the length of the data changes nothing. *)
Lemma fcgi_loop_fuel fuel data out :
  (String.length data ≤ fuel)%nat →
  fcgi_loop fuel data out = fcgi_loop (String.length data) data out.
Proof.
  revert data out.
  induction (lt_wf fuel) as [fuel _ IH]. intros data out Hf.
  destruct (next_record data) as [r|] eqn:En.
  2: { destruct fuel, (String.length data); cbn; by rewrite ?En. }
  assert (∃ n, String.length data = S n) as [n En'].
  { unfold next_record in En. destruct (Nat.ltb_spec (String.length data) 8); [done|].
    exists (pred (String.length data)). lia. }
  destruct fuel as [|fuel]; [lia|]. rewrite En'. cbn [fcgi_loop]. rewrite En.
  destruct r as [[[t c] rest]|e]; [|done]. pose proof (next_record_shorter _ _ _ _ En).
  destruct (t =? FCGI_STDOUT).
  - rewrite (IH fuel), (IH n) by lia. done.
  - destruct (t =? FCGI_END_REQUEST); [done|]. rewrite (IH fuel), (IH n) by lia. done.
Qed.

Lemma fcgi_loop_step data t c rest out :
  next_record data = Some (Ok (t, c, rest)) →
  fcgi_loop (String.length data) data out =
  (if t =? FCGI_STDOUT then fcgi_loop (String.length rest) rest (out +:+ c)
   else if t =? FCGI_END_REQUEST then Ok out
   else fcgi_loop (String.length rest) rest out).
Proof.
  intros En. pose proof (next_record_shorter _ _ _ _ En).
  destruct (String.length data) as [|n] eqn:El; [lia|]. cbn [fcgi_loop]. rewrite En.
  by rewrite !(fcgi_loop_fuel n) by lia.
Qed.

(** Records an application may send before the one that ends its answer. *)
Definition before_end (r : Rec) : Prop := rec_ok r ∧ rec_type r ≠ FCGI_END_REQUEST.

Lemma fcgi_stdout_parse rs e tail :
  Forall before_end rs → rec_ok e → rec_type e = FCGI_END_REQUEST →
  parse_fcgi_stdout (wires rs +:+ wire e +:+ tail) = Ok (stdout_of rs) ∧
  parse_fcgi_stdout (wires rs) = Ok (stdout_of rs).
Proof.
  intros Hrs He Hend. unfold parse_fcgi_stdout.
  assert (∀ out s, (s = "" ∨ s = wire e +:+ tail) →
    fcgi_loop (String.length (wires rs +:+ s)) (wires rs +:+ s) out = Ok (out +:+ stdout_of rs)) as Hall.
  { induction Hrs as [|r rs [Hr Hne] Hrs IH]; intros out s Hs; cbn [wires stdout_of].
    - rewrite str_app_nil_r, str_app_nil_l. destruct Hs as [->| ->]; [done|].
      rewrite (fcgi_loop_step _ _ _ _ _ (next_record_wire e tail He)). by rewrite Hend.
    - rewrite str_app_assoc. rewrite (fcgi_loop_step _ _ _ _ _ (next_record_wire r _ Hr)).
      rewrite (proj2 (N.eqb_neq (rec_type r) FCGI_END_REQUEST)) by done.
      destruct (rec_type r =? FCGI_STDOUT); rewrite IH by done; [by rewrite str_app_assoc|done]. }
  split; [apply (Hall "" (wire e +:+ tail)); by right|].
  rewrite <- (str_app_nil_r (wires rs)). apply (Hall "" ""). by left.
Qed.

(** The response parser returns the concatenated standard output of the
    records before the end marker, whatever their padding and request ids,
    whatever records of other kinds are between them and whatever follows the
    marker; with no marker it returns what the whole stream holds. *)
Theorem parse_fcgi_stdout_spec rs e tail :
  Forall before_end rs → rec_ok e → rec_type e = FCGI_END_REQUEST →
  parse_fcgi_stdout (wires rs +:+ wire e +:+ tail) = Ok (stdout_of rs) ∧
  parse_fcgi_stdout (wires rs) = Ok (stdout_of rs).
Proof. apply fcgi_stdout_parse. Qed.

Definition sample_record (type_ : N) (content : string) : Rec :=
  {| rec_type := type_; rec_id := 1; rec_content := content; rec_padding := "pad"; rec_reserved := 7 |}.

Lemma parse_fcgi_stdout_spec_witness :
  parse_fcgi_stdout (wires [sample_record 6 "ab"; sample_record 7 "warn"; sample_record 6 "c"] +:+
                     wire (sample_record 3 "12345678") +:+ "junk") = Ok "abc" ∧
  parse_fcgi_stdout (wires [sample_record 6 "ab"; sample_record 7 "warn"; sample_record 6 "c"]) = Ok "abc".
Proof.
  apply (parse_fcgi_stdout_spec [sample_record 6 "ab"; sample_record 7 "warn"; sample_record 6 "c"]
    (sample_record 3 "12345678") "junk");
    repeat constructor; vm_compute; (reflexivity || discriminate).
Defined.

(** ** SCGI *)

Definition NUL : ascii := ascii_of_N 0.

(** The receiver: a netstring, then pairs of NUL-terminated strings. *)
Fixpoint read_pairs (fuel : nat) (s : string) : option (list (string * string)) :=
  match fuel with
  | O => None
  | S fuel' =>
      if is_empty s then Some []
      else '(k, s) ← split_once NUL s; '(v, s) ← split_once NUL s;
           rest ← read_pairs fuel' s; Some ((k, v) :: rest)
  end.

Definition read_scgi (s : string) : option (list (string * string) * string) :=
  '(len, s) ← split_once ":" s;
  n ← parse_uint u64_max len;
  let block := str_take (N.to_nat n) s in
  body ← strip_prefix "," (str_drop (N.to_nat n) s);
  pairs ← read_pairs (S (String.length block)) block;
  Some (pairs, body).

Definition nul_free (kv : string * string) : Prop :=
  contains_char NUL (fst kv) = false ∧ contains_char NUL (snd kv) = false.

Lemma append_pair_length k v :
  String.length (append_pair k v) = (String.length k + String.length v + 2)%nat.
Proof. unfold append_pair. rewrite !str_length_app, !zeros_length. lia. Qed.

Lemma zeros_1_app x : zeros 1 +:+ x = String NUL x.
Proof. done. Qed.

Lemma read_pairs_concat l fuel :
  Forall nul_free l → (length l < fuel)%nat →
  read_pairs fuel (String.concat "" ((λ kv, append_pair (fst kv) (snd kv)) <$> l)) = Some l.
Proof.
  revert fuel. induction l as [|[k v] l IH]; intros fuel Hl Hf.
  { by destruct fuel; [lia|]. }
  apply Forall_cons in Hl as [[Hk Hv] Hl]. destruct fuel as [|fuel]; [lia|]. cbn in Hf.
  rewrite fmap_cons, concat_empty_cons. cbn [read_pairs fst snd].
  set (rest := String.concat "" _). unfold is_empty.
  destruct (String.eqb_spec (append_pair k v +:+ rest) "") as [E|_].
  { apply (f_equal String.length) in E. rewrite str_length_app, append_pair_length in E.
    cbn in E. lia. }
  unfold append_pair. rewrite !str_app_assoc.
  rewrite !zeros_1_app.
  rewrite split_once_app by done. cbn [mbind option_bind].
  rewrite split_once_app by done. cbn [mbind option_bind].
  unfold rest. rewrite IH by (done || lia). done.
Qed.

(** An SCGI request whose variables hold no NUL is read back by the
    protocol's receiver as CONTENT_LENGTH, which comes first and is the length
    of the body, the other variables in order, and the body. *)
Theorem scgi_request_framed env body :
  Forall nul_free env → str_len (build_scgi_request env body) ≤ u64_max →
  read_scgi (build_scgi_request env body) =
  Some (("CONTENT_LENGTH", dec (str_len body)) ::
          List.filter (λ kv, negb (String.eqb (fst kv) "CONTENT_LENGTH")) env, body).
Proof.
  intros Henv. set (rest := List.filter _ env).
  set (block := append_pair "CONTENT_LENGTH" (dec (str_len body)) +:+
    String.concat "" ((λ kv, append_pair (fst kv) (snd kv)) <$> rest)).
  assert (build_scgi_request env body = dec (str_len block) +:+ ":" +:+ block +:+ "," +:+ body)
    as -> by done.
  intros Hlen. unfold read_scgi.
  change (":" +:+ ?x) with (String ":" x).
  rewrite split_once_app by (apply digits_not_contain; [done|apply dec_digits]).
  cbn [mbind option_bind].
  rewrite parse_uint_dec.
  2: { unfold str_len in *. rewrite !str_length_app in Hlen. lia. }
  cbn [mbind option_bind].
  assert (N.to_nat (str_len block) = String.length block) as -> by (unfold str_len; lia).
  rewrite str_drop_app, strip_prefix_app. cbn [mbind option_bind].
  rewrite str_take_app.
  assert (block = String.concat "" ((λ kv, append_pair (fst kv) (snd kv)) <$>
    (("CONTENT_LENGTH", dec (str_len body)) :: rest))) as Eb
    by (by rewrite fmap_cons, concat_empty_cons).
  rewrite Eb at 2. rewrite read_pairs_concat; [done| |].
  - constructor.
    + split; [done|]. apply digits_not_contain; [done|apply dec_digits].
    + apply Forall_forall. intros kv Hin. apply list_elem_of_In, filter_In in Hin as [Hin _].
      rewrite Forall_forall in Henv. by apply Henv, list_elem_of_In.
  - rewrite Eb. clear. generalize (("CONTENT_LENGTH", dec (str_len body)) :: rest) as l.
    induction l as [|[k v] l IH]; [cbn; lia|].
    rewrite fmap_cons, concat_empty_cons, str_length_app, append_pair_length. cbn [length]. lia.
Qed.

Lemma scgi_request_framed_witness :
  read_scgi (build_scgi_request [("CONTENT_LENGTH", "7"); ("SCGI", "1")] "hello") =
  Some ([("CONTENT_LENGTH", "5"); ("SCGI", "1")], "hello").
Proof.
  apply (scgi_request_framed [("CONTENT_LENGTH", "7"); ("SCGI", "1")] "hello");
    [repeat constructor|vm_compute; discriminate].
Defined.

(** ** Script output *)

Section response.
Context `{Http}.

Definition CR : ascii := ascii_of_N 13.
Definition CRLF : string := String CR (String LF "").

Definition one_line (s : string) : Prop :=
  contains_char CR s = false ∧ contains_char LF s = false.

(** A script that writes its header as the CGI specification asks. *)
Definition header_line (kv : string * string) : string := fst kv +:+ ": " +:+ snd kv.

Fixpoint crlf_lines (ls : list string) : string :=
  match ls with
  | [] => ""
  | l :: ls' => l +:+ CRLF +:+ crlf_lines ls'
  end.

Definition print_cgi (code : N) (headers : list (string * string)) (body : string) : string :=
  crlf_lines (("Status: " +:+ dec code) :: (header_line <$> headers)) +:+ CRLF +:+ body.

Definition plain_header (kv : string * string) : Prop :=
  word_like (fst kv) ∧ one_line (fst kv) ∧ contains_char ":" (fst kv) = false ∧
  eq_ignore_ascii_case (fst kv) "status" = false ∧
  word_like (snd kv) ∧ one_line (snd kv).

Lemma find_no_cr l rest :
  contains_char CR l = false →
  find_subsequence CRLF2 (l +:+ rest) =
  ('(a, b) ← find_subsequence CRLF2 rest; Some (l +:+ a, b)).
Proof.
  induction l as [|c l IH]; intros Hl.
  - change ("" +:+ rest) with rest. by destruct (find_subsequence CRLF2 rest) as [[a b]|].
  - cbn [contains_char] in Hl. apply orb_false_iff in Hl as [Hc Hl]. rewrite str_app_cons.
    cbn [find_subsequence].
    assert (strip_prefix CRLF2 (String c (l +:+ rest)) = None) as ->.
    { change CRLF2 with (String CR (String LF CRLF)). cbn [strip_prefix].
      rewrite (Ascii.eqb_sym CR), Hc. done. }
    rewrite IH by done. by destruct (find_subsequence CRLF2 rest) as [[a b]|].
Qed.

(** The last line of a header block ends it. *)
Lemma find_header_end l ls body :
  Forall (λ l, l ≠ "" ∧ one_line l) (l :: ls) →
  find_subsequence CRLF2 (crlf_lines (l :: ls) +:+ CRLF +:+ body) =
  Some (join CRLF (l :: ls), body).
Proof.
  revert l. induction ls as [|l' ls IH]; intros l Hall.
  - apply Forall_cons in Hall as [[_ [Hl _]] _]. cbn [crlf_lines]. rewrite str_app_nil_r, !str_app_assoc.
    rewrite find_no_cr by done.
    change (find_subsequence CRLF2 (CRLF +:+ CRLF +:+ body)) with (Some ("", body)).
    cbn [mbind option_bind]. by rewrite str_app_nil_r.
  - pose proof Hall as Hall'. apply Forall_cons in Hall as [[_ [Hl _]] Hall].
    cbn [crlf_lines]. rewrite !str_app_assoc, find_no_cr by done.
    apply Forall_cons in Hall' as [_ Hall']. specialize (IH l' Hall').
    cbn [crlf_lines] in IH. rewrite !str_app_assoc in IH.
    destruct l' as [|c l']; [by apply Forall_cons in Hall as [[? _] _]|].
    apply Forall_cons in Hall as [[_ [Hc _]] _]. cbn [contains_char] in Hc. apply orb_false_iff in Hc as [Hc _].
    set (X := String c l' +:+ CRLF +:+ crlf_lines ls +:+ CRLF +:+ body) in *.
    assert (find_subsequence CRLF2 (CRLF +:+ X) =
            ('(a, b) ← find_subsequence CRLF2 X; Some (CRLF +:+ a, b))) as ->.
    { change (CRLF +:+ X) with (String CR (String LF X)). cbn [find_subsequence].
      assert (strip_prefix CRLF2 (String CR (String LF X)) = None) as ->.
      { subst X. rewrite str_app_cons. change CRLF2 with (String CR (String LF (String CR (String LF "")))).
        cbn [strip_prefix]. rewrite !Ascii.eqb_refl. rewrite (Ascii.eqb_sym CR c), Hc. done. }
      assert (strip_prefix CRLF2 (String LF X) = None) as -> by done.
      by destruct (find_subsequence CRLF2 X) as [[a b]|]. }
    rewrite IH. cbn [mbind option_bind]. do 2 f_equal.
Qed.

Lemma parse_header_lines_ext l l' ls ls' b :
  utrim l = utrim l' → (∀ b, parse_header_lines ls b = parse_header_lines ls' b) →
  parse_header_lines (l :: ls) b = parse_header_lines (l' :: ls') b.
Proof.
  intros El Els. cbn [parse_header_lines]. rewrite El. destruct (is_empty (utrim l')); [done|].
  destruct (split_once ":" (utrim l')) as [[k v]|]; [|done].
  destruct (eq_ignore_ascii_case (utrim k) "status"); [|done].
  by destruct (parse_status (utrim v)); cbn.
Qed.

(** Splitting a header block at LF leaves a CR on the lines, which trimming
    removes. *)
Lemma parse_split_lines l ls b :
  Forall (λ l, word_like l ∧ one_line l) (l :: ls) →
  parse_header_lines (split LF (join CRLF (l :: ls))) b = parse_header_lines (l :: ls) b.
Proof.
  revert l b. induction ls as [|l' ls IH]; intros l b Hall.
  - apply Forall_cons in Hall as [[_ [_ Hl]] _]. cbn. by rewrite split_no_sep.
  - apply Forall_cons in Hall as [[Hw [Hcr Hl]] Hall].
    change (join CRLF (l :: l' :: ls)) with (l +:+ CRLF +:+ join CRLF (l' :: ls)).
    change (CRLF +:+ ?x) with (String CR "" +:+ String LF x).
    rewrite <- str_app_assoc, split_app, split_no_sep.
    2: { rewrite contains_char_app, Hl. done. }
    apply parse_header_lines_ext; [|intros; by apply IH].
    rewrite (utrim_word_id l Hw). by apply (utrim_word "" l (String CR "")).
Qed.

Lemma plain_join ls :
  Forall (λ l, str_all plain_char l = true) ls → str_all (byte_in 0 127) (join CRLF ls) = true.
Proof.
  intros Hls. induction Hls as [|l ls Hl Hls IH]; [done|].
  destruct ls as [|l' ls]; [done|].
  change (join CRLF (l :: l' :: ls)) with (l +:+ CRLF +:+ join CRLF (l' :: ls)).
  rewrite !str_all_app, IH. change (byte_in 0 127) with plain_char. by rewrite Hl.
Qed.

Lemma is_empty_word s : word_like s → is_empty s = false.
Proof. by intros (c & s' & -> & _)%word_like_first. Qed.

Lemma header_line_word kv : plain_header kv → word_like (header_line kv) ∧ one_line (header_line kv).
Proof.
  intros (Hk & [Hk1 Hk2] & _ & _ & Hv & [Hv1 Hv2]). unfold header_line, one_line. split.
  - by apply word_like_app.
  - by rewrite !contains_char_app, Hk1, Hk2, Hv1, Hv2.
Qed.

Lemma parse_plain_header kv ls b :
  plain_header kv →
  parse_header_lines (header_line kv :: ls) b =
  parse_header_lines ls (builder_header b (fst kv) (snd kv)).
Proof.
  intros Hp. destruct (header_line_word kv Hp) as [Hw _]. cbn [parse_header_lines].
  rewrite utrim_word_id, is_empty_word by done.
  destruct Hp as (Hk & _ & Hc & Hs & Hv & _). unfold header_line.
  change (": " +:+ ?x) with (String ":" (" " +:+ x)). rewrite split_once_app by done.
  rewrite (utrim_word_id (fst kv)), Hs by done.
  rewrite <- (str_app_nil_r (snd kv)) at 1. by rewrite (utrim_word " " (snd kv) "").
Qed.

Lemma dec_graph n : str_all graph_char (dec n) = true.
Proof.
  eapply str_all_impl; [|apply dec_digits]. by intros [[] [] [] [] [] [] [] []].
Qed.

Lemma dec_word n : word_like (dec n).
Proof. destruct (dec_cons n) as (c & r & E). apply word_like_graph, dec_graph. by rewrite E. Qed.

Definition status_line (code : N) : string := "Status: " +:+ dec code.

Lemma status_line_word code : word_like (status_line code) ∧ one_line (status_line code).
Proof.
  split.
  - apply (word_like_app "Status:" " "); [|done|apply dec_word]. by apply word_like_graph.
  - unfold one_line, status_line. rewrite !contains_char_app.
    by rewrite !(digits_not_contain _ (dec code)) by (done || apply dec_digits).
Qed.

Lemma parse_status_line code ls b :
  valid_status code = true →
  parse_header_lines (status_line code :: ls) b =
  parse_header_lines ls {| b_status := code; b_headers := b_headers b |}.
Proof.
  intros Hc. cbn [parse_header_lines]. rewrite utrim_word_id, is_empty_word
    by apply status_line_word.
  change (status_line code) with ("Status" +:+ String ":" (" " +:+ dec code)).
  rewrite split_once_app by done. rewrite (utrim_word_id "Status") by (by apply word_like_graph).
  change (eq_ignore_ascii_case "Status" "status") with true.
  rewrite <- (str_app_nil_r (dec code)), utrim_word by (done || apply dec_word).
  unfold parse_status. rewrite first_word_graph; [| |apply dec_graph].
  2: { destruct (dec_cons code) as (c & r & ->). done. }
  cbn [mbind option_bind]. rewrite parse_uint_dec.
  2: { apply andb_true_iff in Hc as [_ ?%N.leb_le]. unfold u16_max. lia. }
  cbn [ok_or mbind result_bind]. by rewrite Hc.
Qed.

Lemma cgi_response_parse code headers body :
  valid_status code = true → Forall plain_header headers →
  parse_cgi_response (print_cgi code headers body) = Ok (build code headers body).
Proof.
  intros Hc Hh. unfold parse_cgi_response, print_cgi, find_header_boundary.
  fold (status_line code).
  assert (Forall (λ l, word_like l ∧ one_line l) (status_line code :: (header_line <$> headers)))
    as Hls.
  { constructor; [apply status_line_word|]. apply Forall_fmap.
    eapply Forall_impl; [done|]. intros kv. apply header_line_word. }
  rewrite find_header_end.
  2: { eapply Forall_impl; [done|]. intros l [Hw ?]. split; [|done].
       by apply word_like_first in Hw as (c & s' & -> & _). }
  cbn [ok_or mbind result_bind]. unfold from_utf8. rewrite valid_utf8_ascii.
  2: { apply plain_join. eapply Forall_impl; [done|]. intros l [Hw _]. by apply word_like_plain. }
  cbn [ok_or mbind result_bind]. rewrite parse_split_lines, parse_status_line by done.
  assert (∀ b, b_status b = code → parse_header_lines (header_line <$> headers) b =
    Ok (fold_left (λ b kv, builder_header b (fst kv) (snd kv)) headers b)) as Hfold.
  { clear Hls. induction Hh as [|kv headers Hkv _ IH]; intros b Hb; [done|].
    rewrite fmap_cons, parse_plain_header by done. by apply IH. }
  rewrite Hfold by done. cbn [mbind result_bind]. unfold build, builder_status. cbn [b_headers b_status builder].
  rewrite !fold_status, Hc. cbn [b_status]. rewrite Hc. f_equal.
  rewrite <- (fold_status headers {| b_status := code; b_headers := Some hm_new |}) at 1.
  by destruct (fold_left _ headers _).
Qed.

(** Script output printed with a status and well-formed header lines
    parses to the response built from them: the status of the [Status] line,
    the headers in order, and everything after the first blank line as the
    body, CRLFs in it included. *)
Theorem cgi_response_roundtrip code headers body :
  valid_status code = true → Forall plain_header headers →
  parse_cgi_response (print_cgi code headers body) = Ok (build code headers body).
Proof.
  apply cgi_response_parse.
Qed.

(** A header the builder refuses turns the response into a panic. *)
Lemma cgi_bad_header_panics name value body :
  plain_header (name, value) → hn_from_bytes name = None →
  parse_cgi_response (print_cgi 200 [(name, value)] body) = Ok None.
Proof.
  intros Hp Hn. rewrite cgi_response_parse by (done || by constructor).
  unfold build, builder_body. cbn. by rewrite Hn.
Qed.

End response.

(** A script that ends its header lines with a bare LF and whose body
    contains an empty CRLF line is misread: the blank line is looked for as
    CRLF CRLF in the whole output first, so the start of the body is taken for
    header text. *)
Theorem cgi_boundary_misplaced :
  let out := "Content-Type: text/plain" +:+ LF2 +:+ "X-Injected: 1" +:+ CRLF2 +:+ "rest" in
  find_subsequence LF2 out = Some ("Content-Type: text/plain", "X-Injected: 1" +:+ CRLF2 +:+ "rest") ∧
  parse_cgi_response out =
    Ok (build 200 [("Content-Type", "text/plain"); ("X-Injected", "1")] "rest").
Proof. split; vm_compute; reflexivity. Qed.


(** ** The environment *)

Section environment.
Context `{Http}.

Lemma header_vars_name skip l kv :
  kv ∈ header_vars skip l → starts_with "HTTP_" (fst kv) = true.
Proof.
  unfold header_vars. rewrite list_elem_of_omap. intros ([n v] & _ & E). cbn in E.
  destruct (skip n); [done|]. destruct (hv_to_str v); [|done]. injection E as <-.
  apply starts_with_true. by eexists.
Qed.

Lemma filter_none {A} (p : A → bool) l : (∀ x, x ∈ l → p x = false) → List.filter p l = [].
Proof.
  induction l as [|x l IH]; intros Hl; [done|]. cbn. rewrite Hl by set_solver.
  apply IH. set_solver.
Qed.

(** A client cannot forge a CGI meta-variable with a header: the variables
    not named [HTTP_...] are exactly the fourteen the server computes, each
    name once, and the content length is that of the body read. *)
Theorem cgi_meta_unforgeable parts root index body trace :
  List.filter (λ kv, negb (starts_with "HTTP_" (fst kv)))
    (build_cgi_env parts root index body trace) = meta_vars parts root index body ∧
  NoDup (meta_vars parts root index body).*1 ∧
  ("CONTENT_LENGTH", dec (str_len body)) ∈ meta_vars parts root index body.
Proof.
  unfold build_cgi_env. rewrite !List.filter_app.
  rewrite !(filter_none _ (header_vars _ _))
    by (intros kv Hin%header_vars_name; by rewrite Hin).
  rewrite !app_nil_r. unfold meta_vars.
  destruct (split_host_port _) as [name port]. split_and!.
  - reflexivity.
  - cbn. apply (bool_decide_unpack _). vm_compute. exact I.
  - cbn. set_solver.
Qed.

(** Every other readable request header reaches the script as an [HTTP_]
    variable, [Proxy] included, which script libraries read as the outgoing
    proxy setting (httpoxy). *)
Theorem cgi_passes_proxy_header parts root index body trace v s :
  ("proxy", v) ∈ hm_iter (p_headers parts) → hv_to_str v = Some s →
  ("HTTP_PROXY", s) ∈ build_cgi_env parts root index body trace.
Proof.
  intros Hin Hv. unfold build_cgi_env. rewrite !elem_of_app. right. right.
  unfold header_vars. apply list_elem_of_omap. exists ("proxy", v). split; [done|].
  cbn [fst snd]. rewrite andb_false_r. cbn [orb]. by rewrite Hv.
Qed.

(** The FastCGI and SCGI handlers send the request path in SCRIPT_FILENAME
    as it is: a path that climbs out of the root, which the file and CGI
    handlers refuse, reaches the backend. *)
Theorem script_filename_unchecked parts root index body trace p :
  p_path parts = "/../" +:+ p → ends_with_slash (p_path parts) = false →
  StaticFiles.safe_join root (p_path parts) = None ∧
  ("SCRIPT_FILENAME", trim_end_by (Ascii.eqb "/") root +:+ "/../" +:+ p)
    ∈ build_cgi_env parts root index body trace.
Proof.
  intros Hp Hs. split.
  - rewrite Hp. apply StaticFiles.safe_join_None. right.
    assert (StaticFiles.percent_decode ("/../" +:+ p) =
      "/../" +:+ StaticFiles.percent_decode p) as -> by done.
    apply list_elem_of_further, list_elem_of_here.
  - unfold build_cgi_env, meta_vars, script_name. rewrite Hs. rewrite Hp.
    destruct (split_host_port _) as [name port]. apply elem_of_app. left. cbn. set_solver.
Qed.

End environment.

(** ** The handlers *)

Section handler_facts.
Context `{Http}.
Context (unix_io tcp_io : string → string → Result string).
Context (exists_ : string → bool) (run : string → list (string * string) → string → Ran).
Context (trace : list (HeaderName * header_value)).

Definition gauge_ok (m : GwMetrics) : Prop :=
  (-9223372036854775808 ≤ in_flight m < 9223372036854775808)%Z.

(** What a handler owes its metrics: one request counted, the gauge back where
    it was, and at most one error, counted only with the server's own 502. *)
Definition accounted (m : GwMetrics) (a : option HttpResponse * GwMetrics) : Prop :=
  requests_total (snd a) = wrap64 (requests_total m + 1) ∧
  in_flight (snd a) = in_flight m ∧
  (errors_total (snd a) = errors_total m ∨
   errors_total (snd a) = wrap64 (errors_total m + 1) ∧ fst a = response_502).

Lemma guarded_accounted (f : GwMetrics → option HttpResponse * GwMetrics) m :
  gauge_ok m →
  (∀ m, requests_total (snd (f m)) = requests_total m ∧ in_flight (snd (f m)) = in_flight m ∧
        (errors_total (snd (f m)) = errors_total m ∨
         errors_total (snd (f m)) = wrap64 (errors_total m + 1) ∧ fst (f m) = response_502)) →
  accounted m (guarded f (bump_requests m)).
Proof.
  intros Hg Hf. unfold guarded, accounted. specialize (Hf (gauge_add 1 (bump_requests m))).
  destruct (f _) as [r m']; cbn in *. destruct Hf as (-> & -> & He).
  split_and!; [done| |done]. by apply (swrap64_add_sub _ 1).
Qed.

(** The three gateway handlers count every request once, leave the in-flight
    gauge as they found it on every path (a panic included), and count at most
    one error, only when the answer is the server's own 502. *)
Theorem gateways_accounted h root parts body m :
  gauge_ok m →
  accounted m (fcgi_handle unix_io tcp_io trace h parts body m) ∧
  accounted m (scgi_handle unix_io tcp_io trace h parts body m) ∧
  accounted m (cgi_handle exists_ run trace root parts body m).
Proof.
  intros Hg. split_and!; apply guarded_accounted; try done; intros m'; clear;
    unfold answer_cgi, fail_502; repeat (case_match; cbn; auto).
Qed.

Lemma build_cgi_env_nonempty parts root index body tr : build_cgi_env parts root index body tr ≠ [].
Proof. unfold build_cgi_env, meta_vars. by destruct (split_host_port _). Qed.

(** A FastCGI application behind a socket: a request it can read is answered
    by a stream of records that carries what the application prints, cut and
    padded as the application likes, with anything on standard error between,
    up to the record that ends the request. *)
Definition serves (socket : string → Result string)
    (app : list (string * string) → string → string) : Prop :=
  ∀ req env body, read_request req = Some (env, body) →
    ∃ rs e tail, socket req = Ok (wires rs +:+ wire e +:+ tail) ∧
      Forall before_end rs ∧ rec_ok e ∧ rec_type e = FCGI_END_REQUEST ∧
      stdout_of rs = app env body.

(** C30: end to end through FastCGI: when the parameters and the body of a
    request each fit a record, an application on the socket reads the CGI
    environment and the body, and its output, however cut into records, is
    answered as the CGI parser reads it: the response printed when it is
    printed with a status and CRLF header lines, 502 when the parser refuses
    it. *)
Theorem fcgi_end_to_end h parts body m socket app :
  (∃ path, h_socket h = "unix:" +:+ path ∧ socket = unix_io path ∨
           h_socket h = "tcp:" +:+ path ∧ socket = tcp_io path) →
  serves socket app →
  let env := build_cgi_env parts (h_root h) (h_index h) body trace in
  str_len (encode_params env) < 65536 → str_len body < 65536 →
  let answer := fst (fcgi_handle unix_io tcp_io trace h parts (Full body) m) in
  match parse_cgi_response (app env body) with
  | Ok resp => answer = resp
  | Err _ => answer = response_502
  end ∧
  (∀ code headers content,
     app env body = print_cgi code headers content →
     valid_status code = true → Forall plain_header headers →
     answer = build code headers content).
Proof.
  intros Hsock Hserves env Henv Hbody answer.
  assert (socket_roundtrip unix_io tcp_io (h_socket h) (build_fcgi_request env body)
    = socket (build_fcgi_request env body)) as Hio.
  { unfold socket_roundtrip. destruct Hsock as [path [[-> ->]|[-> ->]]]; by rewrite strip_prefix_app. }
  assert (env ≠ []) as Hne by (apply build_cgi_env_nonempty).
  destruct (Hserves _ _ _ (read_request_build env body Hne Henv Hbody))
    as (rs & e & tail & Hraw & Hrs & He & Hend & Hout).
  assert (answer = fst (answer_cgi (app env body) m)) as Ha.
  { unfold answer, fcgi_handle, guarded. cbn [collect_body]. fold env.
    rewrite Hio, Hraw, (proj1 (fcgi_stdout_parse rs e tail Hrs He Hend)), Hout.
    unfold answer_cgi. by destruct (parse_cgi_response _). }
  rewrite Ha. unfold answer_cgi. split; [by destruct (parse_cgi_response _)|].
  intros code headers content -> Hcode Hh. by rewrite cgi_response_parse.
Qed.

End handler_facts.

Lemma gateways_accounted_witness :
  let m := {| requests_total := u64_max; in_flight := 3; errors_total := 0; spawn_failures := 0 |} in
  let parts := {| p_method := "GET"; p_path := "/a.php"; p_query := None; p_headers := hm_new |} in
  let h := {| h_socket := "unix:/run/php"; h_root := "/srv"; h_index := None |} in
  let io := λ _ _ : string, Err "connection refused" in
  let run := λ (_ : string) (_ : list (string * string)) (_ : string), SpawnFailed in
  accounted m (fcgi_handle io io [] h parts (Full "x") m) ∧
  accounted m (scgi_handle io io [] h parts (Full "x") m) ∧
  accounted m (cgi_handle (λ _, true) run [] "/srv" parts (Full "x") m).
Proof.
  intros m parts h io run.
  apply (gateways_accounted io io (λ _, true) run [] h "/srv" parts (Full "x") m).
  unfold gauge_ok. cbn. lia.
Defined.

Lemma word_like_sample : word_like "Content-Type" ∧ word_like "text/plain".
Proof. split; by apply word_like_graph. Qed.

Lemma sample_header : plain_header ("Content-Type", "text/plain").
Proof. destruct word_like_sample. repeat (split; try done). Qed.

Lemma cgi_response_roundtrip_witness :
  parse_cgi_response (print_cgi 404 [("Content-Type", "text/plain")] ("a" +:+ CRLF2 +:+ "b")) =
  Ok (build 404 [("Content-Type", "text/plain")] ("a" +:+ CRLF2 +:+ "b")).
Proof.
  apply (cgi_response_roundtrip 404 [("Content-Type", "text/plain")] ("a" +:+ CRLF2 +:+ "b"));
    [reflexivity|]. constructor; [apply sample_header|constructor].
Defined.

(** An application that prints its request's method and body, in pieces,
    with a warning on standard error and paddings of its own. *)
Definition echo (env : list (string * string)) (body : string) : string :=
  str_take 1000 (print_cgi 200 [("Content-Type", "text/plain")]
    (String.concat "," (snd <$> List.filter (λ kv, String.eqb (fst kv) "REQUEST_METHOD") env) +:+ ":" +:+
     body)).

Definition echo_socket (_ req : string) : Result string :=
  match read_request req with
  | Some (env, body) =>
      let out := echo env body in
      Ok (wires [sample_record 6 (str_take 5 out); sample_record 7 "warning";
                 sample_record 6 (str_drop 5 out)] +:+ wire (sample_record 3 "12345678") +:+ "")
  | None => Err "protocol"
  end.

Definition form_post : Parts :=
  {| p_method := "POST"; p_path := "/a.php"; p_query := None; p_headers := hm_new |}.

Lemma sample_record_ok t c : t < 256 → (String.length c ≤ 1000)%nat → rec_ok (sample_record t c).
Proof. intros Ht Hc. split_and!; cbn; try done. unfold str_len. lia. Qed.

Lemma echo_serves path : serves (echo_socket path) echo.
Proof.
  intros req env body Hreq. unfold echo_socket. rewrite Hreq.
  assert (String.length (echo env body) ≤ 1000)%nat as Hl by (unfold echo; apply str_take_le_length).
  revert Hl. generalize (echo env body). intros out Hl.
  pose proof (f_equal String.length (str_take_drop 5 out)) as Hsplit. rewrite str_length_app in Hsplit.
  eexists _, _, _. split; [reflexivity|]. split_and!.
  - repeat (apply Forall_cons_2; [split; [apply sample_record_ok; [done|lia || (cbn; lia)]|done]|]).
    by constructor.
  - by repeat constructor.
  - done.
  - cbn. rewrite str_app_nil_r. apply (str_take_drop 5 out).
Qed.

Lemma fcgi_end_to_end_witness :
  let h := {| h_socket := "unix:/run/php"; h_root := "/srv"; h_index := None |} in
  let m := {| requests_total := 0; in_flight := 0; errors_total := 0; spawn_failures := 0 |} in
  fst (fcgi_handle echo_socket (λ _ _, Err "") [] h form_post (Full "hello") m) =
  build 200 [("Content-Type", "text/plain")] "POST:hello".
Proof.
  intros h m.
  destruct (fcgi_end_to_end echo_socket (λ _ _, Err "") [] h form_post "hello" m
    (echo_socket "/run/php") echo) as [_ Hprinted].
  - exists "/run/php". by left.
  - apply echo_serves.
  - vm_compute. reflexivity.
  - reflexivity.
  - apply Hprinted; [vm_compute; reflexivity|reflexivity|].
    constructor; [apply sample_header|constructor].
Defined.

Definition proxy_parts : Parts :=
  {| p_method := "GET"; p_path := "/a"; p_query := None;
     p_headers := hm_append (Http := assoc_http) hm_new "proxy" ("http://evil" : string) |}.

Lemma cgi_passes_proxy_header_witness :
  ("HTTP_PROXY", "http://evil") ∈ build_cgi_env proxy_parts "/srv" None "" [].
Proof.
  apply (cgi_passes_proxy_header proxy_parts "/srv" None "" [] ("http://evil" : string));
    [|reflexivity].
  apply list_elem_of_here.
Defined.

Lemma script_filename_unchecked_witness :
  StaticFiles.safe_join "/srv/" "/../etc/passwd" = None ∧
  ("SCRIPT_FILENAME", "/srv/../etc/passwd") ∈
  build_cgi_env {| p_method := "GET"; p_path := "/../etc/passwd"; p_query := None;
                   p_headers := hm_new |} "/srv/" None "" [].
Proof.
  apply (script_filename_unchecked {| p_method := "GET"; p_path := "/../etc/passwd";
    p_query := None; p_headers := hm_new |} "/srv/" None "" [] "etc/passwd"); reflexivity.
Defined.

End Cgi.
