(* ===== verification/Ws.v ===== *)
(** WebSocket frames across the masking boundary
    ([src/handler/proxy/upgrade/ws.rs]): frame headers, and the streaming
    translator that rewrites client frames between the masked framing of
    HTTP/1.1 and the unmasked framing of HTTP/2. *)
From S2P Require Import Prelude RustStr Net.

Module Ws.

(** * Bytes and keys *)

(** [a ^ b] on bytes. *)
Definition xor_byte (a b : ascii) : ascii := ascii_of_N (N.lxor (N_of_ascii a) (N_of_ascii b)).

(** A masking key is four bytes; [eff[i]]. *)
Definition key_at (key : string) (i : nat) : ascii := default zero (String.get i key).
Definition zero_key : string := zeros 4.

(** The payload loop: byte [i] of a chunk at [offset] is combined with
    [eff[(offset + i) % 4]]. *)
Fixpoint xor_from (eff : string) (offset : N) (s : string) : string :=
  match s with
  | "" => ""
  | String b s' =>
      String (xor_byte b (key_at eff (N.to_nat (offset mod 4)))) (xor_from eff (offset + 1) s')
  end.

Inductive MaskMode := Unmask | Mask.

(** * Frame headers *)

Record FrameHeader := {
  fin_rsv_opcode : ascii;
  masked : bool;
  mask_key : string;
  payload_len : N;
  header_len : nat;
}.

(** The extended length after the second byte: the length and the index
    behind it; [Ok None] asks for more bytes. *)
Definition parse_length (buf : string) (len7 : N) : Result (option (N * nat)) :=
  if len7 =? 126 then
    if (String.length buf <? 4)%nat then Ok None else Ok (Some (field 2 2 buf, 4%nat))
  else if len7 =? 127 then
    if (String.length buf <? 10)%nat then Ok None
    else let l := field 2 8 buf in
         if negb (N.land l 9223372036854775808 =? 0) then Err "ws: 64-bit frame length has high bit set"
         else Ok (Some (l, 10%nat))
  else Ok (Some (len7, 2%nat)).

Definition parse_header (buf : string) : Result (option FrameHeader) :=
  match buf with
  | String b0 (String b1 _) =>
      let masked := negb (N.land (N_of_ascii b1) 128 =? 0) in
      let len7 := N.land (N_of_ascii b1) 127 in
      r ← parse_length buf len7;
      match r with
      | None => Ok None
      | Some (len, idx) =>
          if masked then
            if (String.length buf <? idx + 4)%nat then Ok None
            else Ok (Some {| fin_rsv_opcode := b0; masked := true;
                             mask_key := str_take 4 (str_drop idx buf);
                             payload_len := len; header_len := (idx + 4)%nat |})
          else Ok (Some {| fin_rsv_opcode := b0; masked := false; mask_key := zero_key;
                           payload_len := len; header_len := idx |})
      end
  | _ => Ok None
  end.

(** The length is written in its shortest form. *)
Definition emit_header (fin_rsv_opcode : ascii) (payload_len : N) (mask_key : option string) : string :=
  let mask_bit := match mask_key with Some _ => 128 | None => 0 end in
  String fin_rsv_opcode
    ((if payload_len <? 126 then String (ascii_of_N (N.lor mask_bit payload_len)) ""
      else if payload_len <=? u16_max then
        String (ascii_of_N (N.lor mask_bit 126)) (octets 2 payload_len)
      else String (ascii_of_N (N.lor mask_bit 127)) (octets 8 payload_len)) +:+
     default "" mask_key).

(** * The translator *)

Inductive State :=
  | Header
  | Payload (remaining : N) (eff : string) (offset : N).

(** The loop's variables: the accumulator, the state, the reads still to
    come (the end of the list and an empty read are the end of the stream),
    what has been written, and how many keys have been drawn. *)
Record Tr := {
  acc : string;
  state : State;
  reads : list (Result string);
  written : string;
  drawn : nat;
}.

Section translate.
(** [random_mask] for the [n]th frame, and whether a [write_all] after some
    output succeeds. *)
Context (random_mask : nat → string) (write_ok : string → string → bool).

(** [reader.read]: [Ok ""] is the end of the stream. *)
Definition read (rs : list (Result string)) : Result string * list (Result string) :=
  match rs with
  | [] => (Ok "", [])
  | r :: rs' => (r, rs')
  end.

Definition out_key (mode : MaskMode) (n : nat) : option string :=
  match mode with Mask => Some (random_mask n) | Unmask => None end.

(** [in_key.map_or(0, ...) ^ out_key.map_or(0, ...)], the four positions. *)
Definition effective (in_key out_key : option string) : string :=
  let at_ o i := match o with Some k => key_at k i | None => zero end in
  let e i := xor_byte (at_ in_key i) (at_ out_key i) in
  String (e 0%nat) (String (e 1%nat) (String (e 2%nat) (String (e 3%nat) ""))).

Definition in_key (h : FrameHeader) : option string := if masked h then Some (mask_key h) else None.

(** One payload chunk of the accumulator. *)
Definition pass_chunk (t : Tr) (remaining : N) (eff : string) (offset : N) : Tr + Result () * string :=
  let take := N.to_nat (N.min remaining (str_len (acc t))) in
  let chunk := str_take take (acc t) in
  let chunk := if String.eqb eff zero_key then chunk else xor_from eff offset chunk in
  if write_ok (written t) chunk then
    inl {| acc := str_drop take (acc t);
           state := Payload (remaining - N.of_nat take) eff (offset + N.of_nat take);
           reads := reads t; written := written t +:+ chunk; drawn := drawn t |}
  else inr (Err "write", written t).

(** One turn of the loop; [inr] is the return value with what was written. *)
Definition turn (mode : MaskMode) (t : Tr) : Tr + Result () * string :=
  match state t with
  | Header =>
      match parse_header (acc t) with
      | Err e => inr (Err e, written t)
      | Ok (Some h) =>
          let out := out_key mode (drawn t) in
          let hdr := emit_header (fin_rsv_opcode h) (payload_len h) out in
          if write_ok (written t) hdr then
            inl {| acc := str_drop (header_len h) (acc t);
                   state := Payload (payload_len h) (effective (in_key h) out) 0;
                   reads := reads t; written := written t +:+ hdr; drawn := S (drawn t) |}
          else inr (Err "write", written t)
      | Ok None =>
          match read (reads t) with
          | (Err e, _) => inr (Err e, written t)
          | (Ok "", _) =>
              inr (if is_empty (acc t) then Ok () else Err "ws: partial frame header at EOF", written t)
          | (Ok s, rs) =>
              inl {| acc := acc t +:+ s; state := Header; reads := rs; written := written t;
                     drawn := drawn t |}
          end
      end
  | Payload remaining eff offset =>
      if remaining =? 0 then
        inl {| acc := acc t; state := Header; reads := reads t; written := written t;
               drawn := drawn t |}
      else if is_empty (acc t) then
        match read (reads t) with
        | (Err e, _) => inr (Err e, written t)
        | (Ok "", _) => inr (Err "ws: truncated frame payload at EOF", written t)
        | (Ok s, rs) =>
            pass_chunk {| acc := s; state := state t; reads := rs; written := written t;
                          drawn := drawn t |} remaining eff offset
        end
      else pass_chunk t remaining eff offset
  end.

(** The turns left: every turn uses up a read or a byte, or leaves a finished
    payload. *)
Fixpoint run (fuel : nat) (mode : MaskMode) (t : Tr) : option (Result () * string) :=
  match fuel with
  | O => None
  | S fuel' => match turn mode t with inl t' => run fuel' mode t' | inr r => Some r end
  end.

Definition read_bytes (r : Result string) : nat :=
  match r with Ok s => String.length s | Err _ => 0%nat end.

Definition turns_left (t : Tr) : nat :=
  (2 * (String.length (acc t) + sum_list_with read_bytes (reads t)) + length (reads t) +
   match state t with Header => 1 | Payload r _ _ => if (r =? 0)%N then 2 else 1 end)%nat.

Definition start (rs : list (Result string)) : Tr :=
  {| acc := ""; state := Header; reads := rs; written := ""; drawn := 0 |}.

Definition translate_masking (mode : MaskMode) (rs : list (Result string))
    : option (Result () * string) :=
  run (turns_left (start rs)) mode (start rs).

(** * The reference: frame by frame over the whole stream *)

Fixpoint translate_frames (fuel : nat) (mode : MaskMode) (n : nat) (data : string)
    : Result () * string :=
  match fuel with
  | O => (Err "fuel", "")
  | S fuel' =>
      match parse_header data with
      | Err e => (Err e, "")
      | Ok None => (if is_empty data then Ok () else Err "ws: partial frame header at EOF", "")
      | Ok (Some h) =>
          let out := out_key mode n in
          let hdr := emit_header (fin_rsv_opcode h) (payload_len h) out in
          let eff := effective (in_key h) out in
          let body := str_drop (header_len h) data in
          if str_len body <? payload_len h then
            (Err "ws: truncated frame payload at EOF", hdr +:+ xor_from eff 0 body)
          else
            let len := N.to_nat (payload_len h) in
            let '(r, o) := translate_frames fuel' mode (S n) (str_drop len body) in
            (r, hdr +:+ xor_from eff 0 (str_take len body) +:+ o)
      end
  end.

Definition frames_of (mode : MaskMode) (n : nat) (data : string) : Result () * string :=
  translate_frames (S (String.length data)) mode n data.

(** What is left of the stream in a state, the rest of a payload first. *)
Definition expected (mode : MaskMode) (s : State) (n : nat) (data : string) : Result () * string :=
  match s with
  | Header => frames_of mode n data
  | Payload remaining eff offset =>
      if str_len data <? remaining then
        (Err "ws: truncated frame payload at EOF", xor_from eff offset data)
      else
        let len := N.to_nat remaining in
        let '(r, o) := frames_of mode n (str_drop len data) in
        (r, xor_from eff offset (str_take len data) +:+ o)
  end.

End translate.

(** * Facts *)

Lemma ascii_forallb (P : ascii → bool) :
  forallb P (ascii_of_N <$> (N.of_nat <$> seq 0 256)) = true → ∀ c, P c = true.
Proof.
  intros H c. rewrite forallb_forall in H. apply H. apply in_map_iff. exists (N_of_ascii c).
  split; [apply ascii_N_embedding|]. apply in_map_iff. exists (nat_of_ascii c).
  split; [apply N_of_nat_of_ascii || (unfold nat_of_ascii; lia)|].
  apply in_seq. pose proof (nat_ascii_bounded c). lia.
Qed.

Lemma land_high b : (N.land (N_of_ascii b) 128 =? 0) = (N_of_ascii b <? 128).
Proof.
  revert b. assert (∀ b, Bool.eqb (N.land (N_of_ascii b) 128 =? 0) (N_of_ascii b <? 128) = true) as H.
  { apply ascii_forallb. by vm_compute. }
  intros b. by apply eqb_prop.
Qed.

(** ** Exclusive or *)

Lemma lxor_byte_lt a b : a < 256 → b < 256 → N.lxor a b < 256.
Proof.
  intros Ha Hb. destruct (N.eq_dec (N.lxor a b) 0) as [->|Hn]; [lia|].
  apply (N.log2_lt_pow2 _ 8); [lia|]. eapply N.le_lt_trans; [apply N.log2_lxor|].
  apply N.max_lub_lt.
  - destruct (N.eq_dec a 0) as [->|]; [done|]. apply N.log2_lt_pow2; lia.
  - destruct (N.eq_dec b 0) as [->|]; [done|]. apply N.log2_lt_pow2; lia.
Qed.

Lemma N_of_xor_byte a b : N_of_ascii (xor_byte a b) = N.lxor (N_of_ascii a) (N_of_ascii b).
Proof. unfold xor_byte. apply N_ascii_embedding, lxor_byte_lt; apply N_ascii_bounded. Qed.

Lemma xor_byte_assoc a b c : xor_byte (xor_byte a b) c = xor_byte a (xor_byte b c).
Proof. unfold xor_byte at 1 3. by rewrite !N_of_xor_byte, N.lxor_assoc. Qed.

Lemma xor_byte_zero a : xor_byte a zero = a.
Proof. unfold xor_byte. rewrite N.lxor_0_r. apply ascii_N_embedding. Qed.

Lemma xor_byte_self a : xor_byte a a = zero.
Proof. unfold xor_byte. by rewrite N.lxor_nilpotent. Qed.

Lemma xor_byte_comm a b : xor_byte a b = xor_byte b a.
Proof. unfold xor_byte. by rewrite N.lxor_comm. Qed.

Lemma xor_from_app eff off a b :
  xor_from eff off (a +:+ b) = xor_from eff off a +:+ xor_from eff (off + str_len a) b.
Proof.
  revert off. induction a as [|c a IH]; intros off.
  - rewrite str_app_nil_l. cbn. by rewrite N.add_0_r.
  - rewrite str_app_cons. cbn. rewrite IH, str_app_cons. do 3 f_equal. unfold str_len. cbn. lia.
Qed.

Lemma length_xor_from eff off s : String.length (xor_from eff off s) = String.length s.
Proof. revert off. induction s as [|c s IH]; intros off; cbn; [done|]. by rewrite IH. Qed.

Lemma key_at_zero i : key_at zero_key i = zero.
Proof. unfold key_at. do 4 (destruct i as [|i]; [done|]). done. Qed.

Lemma xor_from_zero off s : xor_from zero_key off s = s.
Proof.
  revert off. induction s as [|c s IH]; intros off; cbn [xor_from]; [done|].
  by rewrite key_at_zero, xor_byte_zero, IH.
Qed.

(** ** Headers *)

Lemma parse_length_bound buf l7 len idx :
  (2 ≤ String.length buf)%nat → parse_length buf l7 = Ok (Some (len, idx)) →
  (2 ≤ idx ≤ String.length buf)%nat.
Proof.
  unfold parse_length. intros Hb H. repeat case_match; simplify_eq; try lia.
  all: repeat match goal with H : (_ <? _)%nat = false |- _ => apply Nat.ltb_ge in H end; lia.
Qed.

Lemma parse_length_mono buf l7 more r :
  r ≠ Ok None → parse_length buf l7 = r → parse_length (buf +:+ more) l7 = r.
Proof.
  unfold parse_length. intros Hr <-. rewrite !str_length_app.
  destruct (l7 =? 126).
  - destruct (Nat.ltb_spec (String.length buf) 4); [done|].
    destruct (Nat.ltb_spec (String.length buf + String.length more) 4); [lia|].
    by rewrite field_prefix by lia.
  - destruct (l7 =? 127); [|done].
    destruct (Nat.ltb_spec (String.length buf) 10); [done|].
    destruct (Nat.ltb_spec (String.length buf + String.length more) 10); [lia|].
    by rewrite field_prefix by lia.
Qed.

Lemma parse_header_bound buf h :
  parse_header buf = Ok (Some h) → (2 ≤ header_len h ≤ String.length buf)%nat.
Proof.
  destruct buf as [|b0 [|b1 buf]]; [done|done|]. unfold parse_header.
  set (b := String b0 (String b1 buf)). intros H. apply bind_Ok in H as ([[len idx]|] & Hl & H); [|done].
  apply parse_length_bound in Hl; [|cbn; lia].
  destruct (negb _); [destruct (Nat.ltb_spec (String.length b) (idx + 4)); [done|]|];
    injection H as <-; cbn [header_len]; lia.
Qed.

Lemma parse_header_mono buf more r :
  r ≠ Ok None → parse_header buf = r → parse_header (buf +:+ more) = r.
Proof.
  destruct buf as [|b0 [|b1 buf]]; [by intros ? <-|by intros ? <-|].
  intros Hr <-. revert Hr. rewrite !str_app_cons. unfold parse_header. rewrite <- !str_app_cons.
  set (b := String b0 (String b1 buf)). set (l7 := N.land _ 127).
  destruct (parse_length b l7) as [[[len idx]|]|e] eqn:El; [|done|].
  - rewrite (parse_length_mono b l7 more (Ok (Some (len, idx)))) by done. cbn [mbind result_bind].
    apply parse_length_bound in El; [|cbn; lia].
    destruct (negb _); [|done]. rewrite str_length_app.
    destruct (Nat.ltb_spec (String.length b) (idx + 4)); [done|].
    destruct (Nat.ltb_spec (String.length b + String.length more) (idx + 4)); [lia|].
    rewrite str_drop_app_le by lia. rewrite str_take_app_le; [done|]. rewrite length_str_drop. lia.
  - by rewrite (parse_length_mono b l7 more (Err e)).
Qed.

(** ** The translator and the reference *)

Section translation.
Context (random_mask : nat → string).

Lemma translate_frames_fuel f mode n data :
  (String.length data < f)%nat →
  translate_frames random_mask f mode n data = frames_of random_mask mode n data.
Proof.
  unfold frames_of. revert n data. induction f as [f IH] using lt_wf_ind. intros n data Hf.
  destruct f as [|f]; [lia|]. cbn [translate_frames].
  destruct (parse_header data) as [[h|]|e] eqn:Eh; [|done|done].
  pose proof (parse_header_bound _ _ Eh) as Hb.
  destruct (str_len (str_drop (header_len h) data) <? payload_len h); [done|].
  set (rest := str_drop _ (str_drop _ data)).
  assert (String.length rest < String.length data)%nat as Hrest.
  { subst rest. rewrite !length_str_drop. lia. }
  rewrite (IH f), (IH (String.length data)); (done || lia).
Qed.

Lemma frames_of_header mode n data h :
  parse_header data = Ok (Some h) →
  frames_of random_mask mode n data =
    let out := out_key random_mask mode n in
    let '(r, o) := expected random_mask mode (Payload (payload_len h) (effective (in_key h) out) 0)
                     (S n) (str_drop (header_len h) data) in
    (r, emit_header (fin_rsv_opcode h) (payload_len h) out +:+ o).
Proof.
  intros Eh. pose proof (parse_header_bound _ _ Eh) as Hb. unfold frames_of.
  cbn [translate_frames expected]. rewrite Eh. destruct (_ <? _); [done|].
  rewrite translate_frames_fuel by (rewrite !length_str_drop; lia).
  by destruct (frames_of _ _ _ _).
Qed.

(** The bytes already at hand can be passed on. *)
Lemma expected_split mode n remaining eff offset a b :
  str_len a ≤ remaining →
  expected random_mask mode (Payload remaining eff offset) n (a +:+ b) =
    let '(r, o) := expected random_mask mode
                     (Payload (remaining - str_len a) eff (offset + str_len a)) n b in
    (r, xor_from eff offset a +:+ o).
Proof.
  intros Ha. cbn [expected].
  assert (str_len (a +:+ b) = str_len a + str_len b) as -> by (unfold str_len; rewrite str_length_app; lia).
  destruct (N.ltb_spec (str_len a + str_len b) remaining), (N.ltb_spec (str_len b) (remaining - str_len a));
    try lia; [by rewrite xor_from_app|].
  set (k := N.to_nat (remaining - str_len a)).
  assert (N.to_nat remaining = (String.length a + k)%nat) as -> by (subst k; unfold str_len in *; lia).
  rewrite str_drop_add_app, str_take_add_app. destruct (frames_of _ _ _ _).
  cbn beta iota. by rewrite xor_from_app, str_app_assoc.
Qed.

Context (write_ok : string → string → bool) (Hwrite : ∀ a b, write_ok a b = true).

Definition continued (mode : MaskMode) (t : Tr) (chunks : list string) : Result () * string :=
  let '(r, o) := expected random_mask mode (state t) (drawn t) (acc t +:+ String.concat "" chunks) in
  (r, written t +:+ o).

Lemma pass_chunk_continued mode t remaining eff offset chunks t' :
  state t = Payload remaining eff offset → remaining ≠ 0 → acc t ≠ "" → reads t = Ok <$> chunks →
  pass_chunk write_ok t remaining eff offset = inl t' →
  continued mode t' chunks = continued mode t chunks ∧ reads t' = reads t ∧
  (turns_left t' < turns_left t)%nat.
Proof.
  intros Hs Hr Ha Hrd. unfold pass_chunk. rewrite Hwrite.
  set (k := N.to_nat (N.min remaining (str_len (acc t)))). intros [= <-].
  assert (k ≤ String.length (acc t))%nat as Hk by (subst k; unfold str_len; lia).
  assert (0 < k)%nat as Hk0.
  { subst k. destruct (acc t); [done|]. unfold str_len. cbn. lia. }
  assert (String.length (str_take k (acc t)) = k) as Hlen by (rewrite length_str_take; lia).
  assert (str_len (str_take k (acc t)) = N.of_nat k) as Hlen' by (unfold str_len; by rewrite Hlen).
  assert ((if String.eqb eff zero_key then str_take k (acc t) else xor_from eff offset (str_take k (acc t)))
    = xor_from eff offset (str_take k (acc t))) as Hx.
  { destruct (String.eqb_spec eff zero_key) as [->|]; [by rewrite xor_from_zero|done]. }
  split_and!; [|done|].
  - unfold continued. cbn [state acc written drawn]. rewrite Hx, Hs.
    pose proof (expected_split mode (drawn t) remaining eff offset (str_take k (acc t))
      (str_drop k (acc t) +:+ String.concat "" chunks)) as He.
    rewrite <- str_app_assoc, str_take_drop, Hlen' in He. rewrite He by lia. clear He.
    destruct (expected _ _ _ _ _). cbn beta iota. by rewrite str_app_assoc.
  - unfold turns_left. cbn [state acc reads]. rewrite Hs, length_str_drop.
    destruct (N.eqb_spec remaining 0); [done|]. destruct (_ =? _); lia.
Qed.

Lemma turn_continued mode t chunks :
  reads t = Ok <$> chunks → Forall (λ s, s ≠ "") chunks →
  match turn random_mask write_ok mode t with
  | inr r => r = continued mode t chunks
  | inl t' => (turns_left t' < turns_left t)%nat ∧
      ∃ chunks', reads t' = Ok <$> chunks' ∧ Forall (λ s, s ≠ "") chunks' ∧
        continued mode t' chunks' = continued mode t chunks
  end.
Proof.
  intros Hrd Hne. unfold turn. destruct (state t) as [|remaining eff offset] eqn:Es.
  - destruct (parse_header (acc t)) as [[h|]|e] eqn:Eh.
    + rewrite Hwrite. pose proof (parse_header_bound _ _ Eh) as Hb. split.
      { unfold turns_left. cbn [state acc reads]. rewrite Es, length_str_drop.
        destruct (_ =? _); lia. }
      exists chunks. split_and!; [done|done|]. unfold continued. cbn [state acc written drawn]. rewrite Es.
      unfold expected at 2. rewrite (frames_of_header mode (drawn t) _ h) by (by apply parse_header_mono).
      rewrite str_drop_app_le by lia. cbn zeta. destruct (expected _ _ _ _ _). cbn beta iota. by rewrite str_app_assoc.
    + rewrite Hrd. destruct chunks as [|c chunks]; cbn [read fmap list_fmap].
      * unfold continued. rewrite Es. cbn [String.concat]. rewrite str_app_nil_r. cbn [expected].
        unfold frames_of. cbn [translate_frames]. by rewrite Eh, str_app_nil_r.
      * apply Forall_cons in Hne as [Hc Hne]. destruct c as [|x c]; [done|]. split.
        { unfold turns_left. cbn [state acc reads]. rewrite Es, Hrd, str_length_app. cbn. lia. }
        exists chunks. split_and!; [done|done|]. unfold continued. cbn [state acc written drawn]. rewrite Es.
        by rewrite concat_empty_cons, str_app_assoc.
    + unfold continued. rewrite Es. cbn [expected]. unfold frames_of. cbn [translate_frames].
      rewrite (parse_header_mono (acc t) _ (Err e)) by done. by rewrite str_app_nil_r.
  - destruct (N.eqb_spec remaining 0) as [->|Hr].
    + split; [unfold turns_left; cbn [state acc reads]; rewrite Es; cbn; lia|].
      exists chunks. split_and!; [done|done|]. unfold continued. cbn [state acc written drawn]. rewrite Es.
      unfold expected. destruct (N.ltb_spec (str_len (acc t +:+ String.concat "" chunks)) 0); [lia|].
      change (N.to_nat 0) with 0%nat. cbn [str_drop str_take xor_from].
      by destruct (frames_of _ _ _ _).
    + destruct (acc t) as [|x a] eqn:Ea; cbn [is_empty].
      * rewrite Hrd. destruct chunks as [|c chunks]; cbn [read fmap list_fmap].
        { unfold continued. rewrite Es, Ea. unfold expected. cbn [String.concat].
          change (str_len ("" +:+ "")) with 0.
          destruct (N.ltb_spec 0 remaining) as [_|]; [|lia].
          cbn [String.append xor_from]. by rewrite str_app_nil_r. }
        apply Forall_cons in Hne as [Hc Hne]. destruct c as [|x c]; [done|].
        destruct (pass_chunk _ _ _ _ _) as [t'|r] eqn:Ep.
        2: { unfold pass_chunk in Ep. rewrite Hwrite in Ep. done. }
        apply (pass_chunk_continued mode _ _ _ _ chunks) in Ep as (Hcont & Hrd' & Hlt); [|done..].
        split.
        { eapply Nat.lt_le_trans; [exact Hlt|]. unfold turns_left. cbn [state acc reads].
          rewrite Es, Hrd, Ea. cbn. lia. }
        exists chunks. split_and!; [done|done|]. rewrite Hcont. unfold continued.
        cbn [state acc written drawn]. rewrite Es, Ea, concat_empty_cons, str_app_nil_l. done.
      * destruct (pass_chunk _ _ _ _ _) as [t'|r] eqn:Ep.
        2: { unfold pass_chunk in Ep. rewrite Hwrite in Ep. done. }
        apply (pass_chunk_continued mode _ _ _ _ chunks) in Ep as (Hcont & Hrd' & Hlt);
          [|done|done|by rewrite Ea|done].
        split; [done|]. exists chunks. split_and!; [by rewrite Hrd'|done|done].
Qed.

Lemma run_continued fuel mode t chunks :
  reads t = Ok <$> chunks → Forall (λ s, s ≠ "") chunks → (turns_left t ≤ fuel)%nat →
  run random_mask write_ok fuel mode t = Some (continued mode t chunks).
Proof.
  revert t chunks. induction fuel as [|fuel IH]; intros t chunks Hrd Hne Hf.
  - exfalso. unfold turns_left in Hf. destruct (state t) as [|r ? ?]; [lia|]. destruct (r =? 0); lia.
  - cbn [run]. pose proof (turn_continued mode t chunks Hrd Hne) as Ht.
    destruct (turn _ _ _ _) as [t'|r]; [|by rewrite Ht].
    destruct Ht as (Hlt & chunks' & Hrd' & Hne' & <-). apply IH; [done|done|lia].
Qed.

(** Translation does not depend on how the stream arrives: however the
    transport cuts the bytes into reads, in the middle of headers, keys or
    payloads, the translator finishes within its turns and writes exactly what
    the frame-by-frame reference writes for the whole stream, with the same
    verdict on a partial header, a truncated payload or an impossible length. *)
Theorem translate_chunking mode chunks :
  Forall (λ s, s ≠ "") chunks →
  translate_masking random_mask write_ok mode (Ok <$> chunks) =
    Some (frames_of random_mask mode 0 (String.concat "" chunks)).
Proof.
  intros Hne. unfold translate_masking. rewrite (run_continued _ _ _ chunks) by done.
  unfold continued. cbn [start state acc written drawn expected]. rewrite str_app_nil_l.
  by destruct (frames_of _ _ _ _).
Qed.

End translation.

(** ** What the frames say *)

(** A payload length in one of the three forms of RFC 6455, not necessarily
    the shortest: the seven-bit field and the extension. *)
Inductive len_form (n : N) : N → string → Prop :=
  | len7 : n < 126 → len_form n n ""
  | len16 : n < 65536 → len_form n 126 (octets 2 n)
  | len63 : n < 9223372036854775808 → len_form n 127 (octets 8 n).

Record Frame := {
  op : ascii;
  key : option string;
  data : string;
}.

Definition key_ok (k : option string) : Prop :=
  match k with Some k => String.length k = 4%nat | None => True end.

Definition key_or_zero (k : option string) : string := default zero_key k.

(** The bytes of a frame. *)
Definition wire (f : Frame) (s : string) : Prop :=
  key_ok (key f) ∧ ∃ l7 ext, len_form (str_len (data f)) l7 ext ∧
    s = String (op f) (String (ascii_of_N (l7 + match key f with Some _ => 128 | None => 0 end))
          (ext +:+ default "" (key f) +:+ xor_from (key_or_zero (key f)) 0 (data f))).

(** The frame the translator makes of one. *)
Definition rekeyed (k : option string) (f : Frame) : Frame :=
  {| op := op f; key := k; data := data f |}.

Definition put_frame (f : Frame) : string :=
  emit_header (op f) (str_len (data f)) (key f) +:+ xor_from (key_or_zero (key f)) 0 (data f).

Lemma lor_mask n : n < 128 → N.lor 128 n = n + 128.
Proof.
  assert (∀ c, (if N_of_ascii c <? 128 then N.lor 128 (N_of_ascii c) =? N_of_ascii c + 128 else true)
    = true) as H by (apply ascii_forallb; by vm_compute).
  intros Hn. specialize (H (ascii_of_N n)). rewrite N_ascii_embedding in H by lia.
  destruct (N.ltb_spec n 128); [|lia]. by apply N.eqb_eq.
Qed.

Lemma put_frame_wire f :
  key_ok (key f) → str_len (data f) < 9223372036854775808 → wire f (put_frame f).
Proof.
  intros Hk Hl. split; [done|]. unfold put_frame, emit_header.
  assert (∀ n, n < 128 → N.lor match key f with Some _ => 128 | None => 0 end n =
    n + match key f with Some _ => 128 | None => 0 end) as Hlor.
  { intros n Hn. destruct (key f); [by apply lor_mask|]. by rewrite N.lor_0_l, N.add_0_r. }
  destruct (N.ltb_spec (str_len (data f)) 126); [|destruct (N.leb_spec (str_len (data f)) u16_max)].
  - exists (str_len (data f)), "". split; [by constructor|]. rewrite Hlor by lia.
    by rewrite !str_app_cons, str_app_nil_l.
  - exists 126, (octets 2 (str_len (data f))). split; [constructor; unfold u16_max in *; lia|].
    rewrite Hlor by lia. by rewrite !str_app_cons, str_app_assoc.
  - exists 127, (octets 8 (str_len (data f))). split; [by constructor|].
    rewrite Hlor by lia. by rewrite !str_app_cons, str_app_assoc.
Qed.

Lemma land_low b : N.land (N_of_ascii b) 127 = N_of_ascii b mod 128.
Proof. exact (N.land_ones (N_of_ascii b) 7). Qed.

(** The length field of a frame is read back, with the index behind it. *)
Lemma parse_length_form n l7 ext b0 b1 rest :
  len_form n l7 ext →
  parse_length (String b0 (String b1 (ext +:+ rest))) l7 = Ok (Some (n, (2 + String.length ext)%nat)).
Proof.
  unfold parse_length. destruct 1 as [Hn|Hn|Hn].
  - destruct (N.eqb_spec n 126), (N.eqb_spec n 127); try lia. done.
  - rewrite N.eqb_refl. cbn [String.length]. rewrite str_length_app, octets_length.
    destruct (Nat.ltb_spec (S (S (2 + String.length rest))) 4); [lia|].
    change (String b0 (String b1 (octets 2 n +:+ rest)))
      with (String b0 (String b1 "") +:+ (octets 2 n +:+ rest)).
    by rewrite field_octets.
  - destruct (N.eqb_spec 127 126); [done|]. rewrite N.eqb_refl. cbn [String.length].
    rewrite str_length_app, octets_length.
    destruct (Nat.ltb_spec (S (S (8 + String.length rest))) 10); [lia|].
    change (String b0 (String b1 (octets 8 n +:+ rest)))
      with (String b0 (String b1 "") +:+ (octets 8 n +:+ rest)).
    rewrite field_octets; [|done|cbn; lia].
    assert (N.land n 9223372036854775808 = 0) as ->; [|done].
    apply N.bits_inj. intros k. rewrite N.land_spec, N.bits_0.
    destruct (N.eq_dec k 63) as [->|Hk].
    + assert (N.testbit n 63 = false) as ->; [|done].
      apply N.testbit_false. by rewrite N.div_small.
    + change 9223372036854775808 with (2 ^ 63). rewrite N.pow2_bits_false by lia. apply andb_false_r.
Qed.

Lemma parse_wire f s rest :
  wire f s →
  ∃ h, parse_header (s +:+ rest) = Ok (Some h) ∧ fin_rsv_opcode h = op f ∧ in_key h = key f ∧
    payload_len h = str_len (data f) ∧
    str_drop (header_len h) (s +:+ rest) = xor_from (key_or_zero (key f)) 0 (data f) +:+ rest.
Proof.
  intros [Hk (l7 & ext & Hf & ->)]. set (m := match key f with Some _ => 128 | None => 0 end).
  assert (l7 < 128) as Hl7 by (destruct Hf; lia).
  assert (m = 0 ∨ m = 128) as Hm by (subst m; destruct (key f); auto).
  set (b1 := ascii_of_N (l7 + m)).
  assert (N_of_ascii b1 = l7 + m) as Hb1 by (apply N_ascii_embedding; lia).
  assert (N.land (N_of_ascii b1) 127 = l7) as Hlow.
  { rewrite land_low, Hb1. destruct Hm as [-> | ->].
    - rewrite N.add_0_r. by apply N.mod_small.
    - rewrite (N.Div0.add_mod l7 128), N.Div0.mod_same, N.add_0_r, N.Div0.mod_mod. by apply N.mod_small. }
  rewrite !str_app_cons, !str_app_assoc. unfold parse_header.
  rewrite Hlow, land_high, Hb1, (parse_length_form (str_len (data f))) by done. cbn [mbind result_bind].
  subst m. destruct (key f) as [k|] eqn:Ek; unfold key_or_zero, key_ok in *; cbn [from_option id] in *.
  - destruct (N.ltb_spec (l7 + 128) 128); [lia|]. cbn [negb String.length].
    rewrite !str_length_app, Hk.
    destruct (Nat.ltb_spec (S (S (String.length ext + (4 + (String.length (xor_from k 0 (data f)) + String.length rest)))))
      (2 + String.length ext + 4)); [lia|].
    eexists. split; [reflexivity|]. unfold in_key. cbn [fin_rsv_opcode masked mask_key payload_len header_len].
    split_and!; [done| |done|].
    + cbn [Nat.add str_drop]. rewrite str_drop_app. rewrite <- Hk, str_take_app. done.
    + cbn [Nat.add str_drop]. rewrite str_drop_add_app, <- Hk, str_drop_app. done.
  - destruct (N.ltb_spec (l7 + 0) 128); [|lia]. cbn [negb].
    eexists. split; [reflexivity|]. unfold in_key. cbn [fin_rsv_opcode masked mask_key payload_len header_len].
    split_and!; [done|done|done|]. cbn [Nat.add str_drop]. by rewrite str_drop_app, str_app_nil_l.
Qed.

(** Combining with the effective key removes the inbound mask and applies the
    outbound one. *)
Lemma key_at_effective i o j :
  (j < 4)%nat → key_at (effective i o) j = xor_byte (key_at (key_or_zero i) j) (key_at (key_or_zero o) j).
Proof.
  intros Hj. do 4 (destruct j as [|j]; [by destruct i, o|]). lia.
Qed.

Lemma xor_from_effective i o off s :
  xor_from (effective i o) off (xor_from (key_or_zero i) off s) = xor_from (key_or_zero o) off s.
Proof.
  revert off. induction s as [|c s IH]; intros off; [done|]. cbn [xor_from].
  rewrite IH, key_at_effective by (pose proof (N.mod_lt off 4); lia). f_equal.
  set (a := key_at (key_or_zero i) _). set (b := key_at (key_or_zero o) _).
  by rewrite xor_byte_assoc, <- (xor_byte_assoc a a b), xor_byte_self, (xor_byte_comm zero), xor_byte_zero.
Qed.

Section faithful.
Context (random_mask : nat → string) (Hrandom : ∀ n, String.length (random_mask n) = 4%nat).
Context (write_ok : string → string → bool) (Hwrite : ∀ a b, write_ok a b = true).

Fixpoint rekey_all (mode : MaskMode) (n : nat) (fs : list Frame) : list Frame :=
  match fs with
  | [] => []
  | f :: fs' => rekeyed (out_key random_mask mode n) f :: rekey_all mode (S n) fs'
  end.

Lemma out_key_ok mode n : key_ok (out_key random_mask mode n).
Proof. destruct mode; [done|]. apply Hrandom. Qed.

Lemma wire_length f s : wire f s → str_len (data f) < 9223372036854775808.
Proof. intros [_ (l7 & ext & [?|?|?] & _)]; lia. Qed.

Lemma frames_of_wire mode n fs ss :
  Forall2 wire fs ss →
  frames_of random_mask mode n (String.concat "" ss) =
    (Ok (), String.concat "" (put_frame <$> rekey_all mode n fs)).
Proof.
  intros Hw. revert n. induction Hw as [|f s fs ss Hf Hw IH]; intros n; [done|].
  rewrite concat_empty_cons. destruct (parse_wire f s (String.concat "" ss) Hf) as (h & Eh & Hop & Hin & Hlen & Hdrop).
  rewrite (frames_of_header _ _ _ _ h Eh). cbn zeta. rewrite Hdrop, Hop, Hin, Hlen.
  rewrite expected_split by (unfold str_len; rewrite length_xor_from; lia).
  assert (str_len (xor_from (key_or_zero (key f)) 0 (data f)) = str_len (data f)) as ->
    by (unfold str_len; by rewrite length_xor_from).
  rewrite N.sub_diag. unfold expected. destruct (N.ltb_spec (str_len (String.concat "" ss)) 0); [lia|].
  change (N.to_nat 0) with 0%nat. cbn [str_drop str_take xor_from]. rewrite IH, xor_from_effective.
  cbn [fmap list_fmap rekey_all]. rewrite concat_empty_cons. unfold put_frame at 2. cbn [op key data rekeyed].
  by rewrite str_app_nil_l, str_app_assoc.
Qed.

Lemma rekey_all_spec mode n fs ss :
  Forall2 wire fs ss →
  Forall2 wire (rekey_all mode n fs) (put_frame <$> rekey_all mode n fs) ∧
  (λ f, (op f, data f)) <$> rekey_all mode n fs = (λ f, (op f, data f)) <$> fs ∧
  Forall (λ f, is_Some (key f) ↔ mode = Mask) (rekey_all mode n fs).
Proof.
  intros Hw. revert n. induction Hw as [|f s fs ss Hf Hw IH]; intros n; [done|].
  destruct (IH (S n)) as (H1 & H2 & H3). cbn [fmap list_fmap rekey_all]. split_and!.
  - constructor; [|done]. apply put_frame_wire; [apply out_key_ok|]. by apply wire_length in Hf.
  - by rewrite <- H2.
  - constructor; [|done]. cbn. destruct mode; cbn; by split.
Qed.

(** A WebSocket conversation crosses the masking boundary unchanged: a
    stream of well-formed client frames, with any keys, any of the allowed
    length encodings and any cut into reads, is rewritten to frames with the
    same opcodes, flags and application data in the same order, each masked
    with its own fresh key towards an HTTP/1.1 backend and bare towards an
    HTTP/2 one. *)
Theorem ws_translation_faithful mode chunks fs ss :
  Forall2 wire fs ss → String.concat "" chunks = String.concat "" ss →
  Forall (λ s, s ≠ "") chunks →
  ∃ fs', translate_masking random_mask write_ok mode (Ok <$> chunks) =
           Some (Ok (), String.concat "" (put_frame <$> fs')) ∧
    Forall2 wire fs' (put_frame <$> fs') ∧
    (λ f, (op f, data f)) <$> fs' = (λ f, (op f, data f)) <$> fs ∧
    Forall (λ f, is_Some (key f) ↔ mode = Mask) fs'.
Proof.
  intros Hw Hc Hne. exists (rekey_all mode 0 fs). split; [|by eapply rekey_all_spec].
  unfold translate_masking. rewrite (run_continued _ _ Hwrite _ _ _ chunks) by done.
  unfold continued. cbn [start state acc written drawn expected].
  by rewrite str_app_nil_l, Hc, (frames_of_wire mode 0 fs ss Hw), str_app_nil_l.
Qed.

End faithful.

(** ** Two masked frames cut in the middle of a key *)

Module Demo.

Definition key1 : string := "abcd".
Definition hello : Frame := {| op := ascii_of_N 129; key := Some key1; data := "Hello" |}.
Definition ping : Frame := {| op := ascii_of_N 137; key := Some "wxyz"; data := "" |}.
Definition stream : string := put_frame hello +:+ put_frame ping.
Definition cuts : list string := [str_take 4 stream; str_take 3 (str_drop 4 stream); str_drop 7 stream].
Definition no_mask (n : nat) : string := "mask".

Lemma translate_chunking_witness :
  translate_masking no_mask (λ _ _, true) Unmask (Ok <$> cuts) =
    Some (frames_of no_mask Unmask 0 stream).
Proof.
  exact (translate_chunking no_mask (λ _ _, true) (λ _ _, eq_refl) Unmask cuts
    ltac:(repeat constructor; vm_compute; discriminate)).
Defined.

Lemma ws_translation_faithful_witness :
  (∃ fs', translate_masking no_mask (λ _ _, true) Mask (Ok <$> cuts) =
     Some (Ok (), String.concat "" (put_frame <$> fs')) ∧
     Forall2 wire fs' (put_frame <$> fs') ∧
     (λ f, (op f, data f)) <$> fs' = [(ascii_of_N 129, "Hello"); (ascii_of_N 137, "")] ∧
     Forall (λ f, is_Some (key f) ↔ Mask = Mask) fs') ∧
  translate_masking no_mask (λ _ _, true) Unmask (Ok <$> cuts) =
    Some (Ok (), String (ascii_of_N 129) (String (ascii_of_N 5) "Hello") +:+
                 String (ascii_of_N 137) (String (ascii_of_N 0) "")).
Proof.
  split; [|vm_compute; reflexivity].
  refine (ws_translation_faithful no_mask (λ _, eq_refl) (λ _ _, true) (λ _ _, eq_refl) Mask cuts
    [hello; ping] [put_frame hello; put_frame ping] _ eq_refl _).
  - repeat constructor; apply put_frame_wire; vm_compute; reflexivity.
  - repeat constructor; vm_compute; discriminate.
Defined.

End Demo.

End Ws.
