(* ===== verification/ProxyRequest.v ===== *)
(** What the reverse proxy sends upstream ([src/handler/proxy.rs],
    [src/handler/proxy/inner.rs]): the backend URI, the removal of hop-by-hop
    headers, the forwarding headers, and the [Alt-Svc] hints that move an
    upstream to HTTP/3.

    The [Uri] type of the [http] crate is a class of operations with the laws
    of its documentation (the path of a URI with an authority is empty or
    starts with a slash); the trace context of the telemetry layer is an
    argument. *)
From S2P Require Import Prelude RustStr Utf8 Net Http ProxyProto.

Class Uris := {
  uri : Type;
  uri_parse : string → option uri;
  uri_scheme : uri → option string;
  uri_authority : uri → option string;
  uri_host : uri → option string;
  uri_port_u16 : uri → option N;
  uri_path : uri → string;
  uri_query : uri → option string;
  uri_build : string → string → string → option uri;
}.

Definition plain_path (s : string) : Prop :=
  contains_char "?" s = false ∧ contains_char "#" s = false.

(** A built URI has the given scheme and authority, and its path and query are
    the text before and after the first question mark; neither a path nor a
    query holds a fragment, and a path holds no query. *)
Class UrisLaws `{Uris} : Prop := {
  uri_path_plain u : plain_path (uri_path u);
  uri_path_rooted u : is_Some (uri_authority u) →
    uri_path u = "" ∨ starts_with "/" (uri_path u) = true;
  uri_query_plain u q : uri_query u = Some q → contains_char "#" q = false;
  uri_build_parts s a pq u :
    uri_build s a pq = Some u → starts_with "/" pq = true → contains_char "#" pq = false →
    uri_scheme u = Some s ∧ uri_authority u = Some a ∧
    match split_once "?" pq with
    | Some (p, q) => uri_path u = p ∧ uri_query u = Some q
    | None => uri_path u = pq ∧ uri_query u = None
    end;
}.

Module ProxyReq.

Section request.
Context `{Http} `{Uris} `{IpText}.

(** * The backend URI *)

Definition forwarded_path (req_path matched_prefix : string) (strip : bool) : string :=
  if strip then default req_path (strip_prefix matched_prefix req_path) else req_path.

Definition trim_end_slashes (s : string) : string := trim_end_by (Ascii.eqb "/") s.

(** The upstream's path before the forwarded one, with one slash between. *)
Definition combined_path (upstream_path forwarded : string) : string :=
  let up := trim_end_slashes upstream_path in
  if starts_with "/" forwarded then up +:+ forwarded else up +:+ "/" +:+ forwarded.

Definition build_backend_uri (upstream req_uri : uri) (matched_prefix : string) (strip : bool)
    : Result uri :=
  let combined := combined_path (uri_path upstream)
                    (forwarded_path (uri_path req_uri) matched_prefix strip) in
  let path_and_query := match uri_query req_uri with
                        | Some q => combined +:+ "?" +:+ q
                        | None => combined
                        end in
  let scheme := default "http" (uri_scheme upstream) in
  authority ← ok_or (uri_authority upstream) "upstream has no authority";
  ok_or (uri_build scheme authority path_and_query) "failed to build backend URI".

(** * Hop-by-hop headers *)

Definition CONNECTION : HeaderName := "connection".
Definition TE : HeaderName := "te".

Definition HOP_BY_HOP : list HeaderName :=
  ["connection"; "keep-alive"; "proxy-authenticate"; "proxy-authorization"; "te";
   "transfer-encoding"; "upgrade"].

Definition te_accepts_trailers (value : string) : bool :=
  existsb (λ tok, eq_ignore_ascii_case (trim (default "" (head (split ";" tok)))) "trailers")
    (split "," value).

Definition connection_listed (h : header_map) : list HeaderName :=
  match get_str h CONNECTION with
  | Some s => omap hn_from_bytes (trim <$> split "," s)
  | None => []
  end.

Definition keep_te (h : header_map) : bool :=
  match get_str h TE with Some v => te_accepts_trailers v | None => false end.

Definition remove_all (names : list HeaderName) (h : header_map) : header_map :=
  fold_left hm_remove names h.

(** [None] is the panic of [from_static] on text that is no header value. *)
Definition strip_hop_by_hop (h : header_map) : option header_map :=
  let h' := remove_all (connection_listed h) (remove_all HOP_BY_HOP h) in
  if keep_te h then v ← hv_from_str "trailers"; Some (hm_insert h' TE v) else Some h'.

(** * Forwarding headers *)

Definition X_FORWARDED_FOR : HeaderName := "x-forwarded-for".
Definition X_REAL_IP : HeaderName := "x-real-ip".

Definition new_xff (h : header_map) (ip : string) : string :=
  match hm_get h X_FORWARDED_FOR with
  | Some v => match hv_to_str v with Some s => s +:+ ", " +:+ ip | None => ip end
  | None => ip
  end.

Definition try_insert (h : header_map) (k : HeaderName) (s : string) : header_map :=
  match hv_from_str s with Some v => hm_insert h k v | None => h end.

Definition set_forwarding_headers (h : header_map) (peer_ip : option string) : header_map :=
  match peer_ip with
  | Some ip => try_insert (try_insert h X_FORWARDED_FOR (new_xff h ip)) X_REAL_IP ip
  | None => h
  end.

Definition TRACEPARENT : HeaderName := "traceparent".
Definition TRACESTATE : HeaderName := "tracestate".

(** [inject_current]: the context of the active span, when there is one. *)
Definition inject_current (trace : option (list (HeaderName * header_value))) (h : header_map)
    : header_map :=
  match trace with
  | Some l => fold_left (λ h kv, hm_insert h kv.1 kv.2) l (hm_remove (hm_remove h TRACEPARENT) TRACESTATE)
  | None => h
  end.

(** * The backend request *)

Record ProxyRequest := {
  pr_method : string;
  pr_uri : uri;
  pr_headers : header_map;
  pr_body : Body;
  pr_peer : option ProxyProto.SocketAddr;
  pr_local : option ProxyProto.SocketAddr;
  pr_local_unix : option string;
}.

Record BackendReq := {
  br_method : string;
  br_uri : uri;
  br_headers : header_map;
  br_body : Body;
}.

(** [option] is the panic of the header strip. *)
Definition prepare_backend_request_inner (upstream : uri) (strip : bool)
    (trace : option (list (HeaderName * header_value))) (req : ProxyRequest)
    (matched_prefix : string) (is_upgrade : bool) : option (Result BackendReq) :=
  let peer_ip := (λ a, ProxyProto.ip_text (ProxyProto.sa_ip a)) <$> pr_peer req in
  match build_backend_uri upstream (pr_uri req) matched_prefix strip with
  | Err e => Some (Err e)
  | Ok backend_uri =>
      h ← (if is_upgrade then Some (pr_headers req) else strip_hop_by_hop (pr_headers req));
      let h := inject_current trace (set_forwarding_headers h peer_ip) in
      let h := match uri_authority upstream with
               | Some a => try_insert h HOST a
               | None => h
               end in
      Some (Ok {| br_method := pr_method req; br_uri := backend_uri; br_headers := h;
                  br_body := pr_body req |})
  end.

(** [convert_response]. *)
Definition convert_response (resp : HttpResponse) : option HttpResponse :=
  h ← strip_hop_by_hop (resp_headers resp);
  Some {| resp_status := resp_status resp; resp_headers := h; resp_body := resp_body resp |}.

(** * HTTP/3 hints *)

Definition ALT_SVC : HeaderName := "alt-svc".
Definition MAX_ALT_SVC_MA_SECS : N := 24 * 3600.

(** The last [ma=] parameter that is there decides, parseable or not. *)
Definition last_ma (params : list string) : option N :=
  fold_left (λ ma p, match strip_prefix "ma=" p with
                     | Some r => parse_uint u64_max (trim r)
                     | None => ma
                     end) params None.

Definition DQUOTE : ascii := ascii_of_N 34.

(** The loop over the alternatives: a [?] leaves the whole function. *)
Fixpoint alt_svc_loop (entries : list string) : option (N * N) :=
  match entries with
  | [] => None
  | entry :: entries' =>
      match trim <$> split ";" entry with
      | [] => None
      | head :: parts =>
          '(proto, rest) ← split_once "=" head;
          if negb (String.eqb (trim proto) "h3") then alt_svc_loop entries'
          else
            let port_str := trim_matches DQUOTE (trim rest) in
            let port_str := default port_str (strip_prefix ":" port_str) in
            port ← parse_uint u16_max port_str;
            ma ← last_ma parts;
            if ma =? 0 then alt_svc_loop entries' else Some (port, ma)
      end
  end.

Definition parse_alt_svc_h3 (value : string) : option (N * N) := alt_svc_loop (split "," value).

Record H3Hint := {
  hint_port : N;
  hint_expires_at : Instant;
}.

(** The loop over the [Alt-Svc] lines; [None] leaves the hint as it is. *)
Fixpoint absorb_loop (original_port : N) (now : Instant) (values : list header_value)
    : option H3Hint :=
  match values with
  | [] => None
  | v :: values' =>
      match (s ← hv_to_str v; parse_alt_svc_h3 s) with
      | Some (port, ma) =>
          if (port <? 1024) && negb (port =? original_port) then absorb_loop original_port now values'
          else Some {| hint_port := port;
                       hint_expires_at := now + from_secs (N.min ma MAX_ALT_SVC_MA_SECS) |}
      | None => absorb_loop original_port now values'
      end
  end.

(** The hint and the lazily built client, named by the port it was built for. *)
Record H3State := {
  h3_hint : option H3Hint;
  h3_lazy : option N;
}.

Definition original_port (upstream : uri) : N := default 443 (uri_port_u16 upstream).

Definition absorb_alt_svc (upstream : uri) (now : Instant) (headers : header_map) (s : H3State)
    : H3State :=
  match absorb_loop (original_port upstream) now (hm_get_all headers ALT_SVC) with
  | Some hint => {| h3_hint := Some hint; h3_lazy := h3_lazy s |}
  | None => s
  end.

(** [h3_new] is whether a client can be built for a URL. *)
Definition try_upgrade_to_h3 (h3_new : uri → bool) (upstream : uri) (now : Instant) (s : H3State)
    : option N * H3State :=
  match h3_hint s with
  | None => (None, s)
  | Some hint =>
      if hint_expires_at hint <=? now then (None, {| h3_hint := None; h3_lazy := h3_lazy s |})
      else
        match h3_lazy s with
        | Some port => (Some port, s)
        | None =>
            match (host ← uri_host upstream;
                   u ← uri_parse ("https://" +:+ host +:+ ":" +:+ dec (hint_port hint) +:+ "/");
                   if h3_new u then Some () else None) with
            | Some _ => (Some (hint_port hint), {| h3_hint := h3_hint s; h3_lazy := Some (hint_port hint) |})
            | None => (None, s)
            end
        end
  end.

Definition evict_hint (s : H3State) : H3State := {| h3_hint := None; h3_lazy := h3_lazy s |}.

End request.

(** * What the upstream receives *)

Section facts.
Context `{HttpLaws, !HttpTextLaws} `{UrisLaws} `{IpTextLaws}.

(** ** The URI *)

Lemma trim_end_prefix p s : ∃ r, s = trim_end_by p s +:+ r.
Proof.
  induction s as [|c s [r IH]]; [by exists ""|]. cbn [trim_end_by].
  destruct (trim_end_by p s) as [|d t] eqn:Et.
  - destruct (p c); [by exists (String c s)|]. exists s. by rewrite str_app_cons, str_app_nil_l.
  - exists r. rewrite str_app_cons. by rewrite <- IH.
Qed.

Lemma combined_rooted up fwd :
  up = "" ∨ starts_with "/" up = true → starts_with "/" (combined_path up fwd) = true.
Proof.
  intros Hup. unfold combined_path.
  assert (∀ rest, starts_with "/" rest = true → starts_with "/" (trim_end_slashes up +:+ rest) = true) as Hr.
  { intros rest Hrest. destruct (trim_end_prefix (Ascii.eqb "/") up) as [r Er]. unfold trim_end_slashes.
    destruct (trim_end_by _ up) as [|c t] eqn:Et; [by rewrite str_app_nil_l|].
    destruct Hup as [->|Hs]; [done|]. rewrite Er in Hs. apply starts_with_true in Hs as [q Hq].
    rewrite str_app_cons in Hq. injection Hq as -> _. apply starts_with_true. by eexists. }
  destruct (starts_with "/" fwd) eqn:Ef; [by apply Hr|]. apply Hr. apply starts_with_true. by eexists.
Qed.

Lemma combined_plain up fwd : plain_path up → plain_path fwd → plain_path (combined_path up fwd).
Proof.
  intros [Hu1 Hu2] [Hf1 Hf2]. unfold combined_path, trim_end_slashes.
  destruct (trim_end_prefix (Ascii.eqb "/") up) as [r Er]. rewrite Er in Hu1, Hu2.
  rewrite contains_char_app in Hu1, Hu2. apply orb_false_iff in Hu1 as [Hu1 _], Hu2 as [Hu2 _].
  destruct (starts_with "/" fwd); split; rewrite !contains_char_app, ?Hu1, ?Hu2, ?Hf1, ?Hf2; done.
Qed.

Lemma forwarded_plain p prefix strip : plain_path p → plain_path (forwarded_path p prefix strip).
Proof.
  intros Hp. unfold forwarded_path. destruct strip; [|done].
  destruct (strip_prefix prefix p) as [r|] eqn:E; [|done]. apply strip_prefix_Some in E as ->.
  destruct Hp as [Hq Hf]. rewrite contains_char_app in Hq, Hf.
  apply orb_false_iff in Hq as [_ ?], Hf as [_ ?]. done.
Qed.

(** A client cannot choose where its request goes: the backend URI has the
    scheme and the authority of the configured upstream, the request's query,
    and a path that is the upstream's own path followed by a slash and the
    request's path, without the location's prefix when it is stripped. *)
Theorem backend_uri_confined up req prefix strip u :
  build_backend_uri up req prefix strip = Ok u →
  uri_scheme u = Some (default "http" (uri_scheme up)) ∧
  uri_authority u = uri_authority up ∧
  uri_query u = uri_query req ∧
  uri_path u = combined_path (uri_path up) (forwarded_path (uri_path req) prefix strip) ∧
  ∃ rest, uri_path u = trim_end_slashes (uri_path up) +:+ "/" +:+ rest.
Proof.
  unfold build_backend_uri. set (c := combined_path _ _). intros Hb.
  apply bind_Ok in Hb as (a & Ha & Hb). destruct (uri_authority up) as [a'|] eqn:Ea; [|done].
  injection Ha as ->. set (pq := match uri_query req with Some _ => _ | None => _ end) in Hb.
  destruct (uri_build _ a pq) as [u'|] eqn:Eb; [|done]. injection Hb as ->.
  destruct (combined_plain (uri_path up) (forwarded_path (uri_path req) prefix strip)) as [Hq Hf];
    [apply uri_path_plain|apply forwarded_plain, uri_path_plain|]. fold c in Hq, Hf.
  assert (starts_with "/" c = true) as Hs by (apply combined_rooted, uri_path_rooted; by eexists).
  assert (split_once "?" pq = match uri_query req with Some q => Some (c, q) | None => None end) as Hsp.
  { subst pq. destruct (uri_query req) as [q|]; [by apply split_once_app|by apply split_once_no_sep]. }
  apply uri_build_parts in Eb as (E1 & E2 & E3).
  - rewrite Hsp in E3. split_and!; [done|done|by destruct (uri_query req); destruct E3| |].
    + subst pq. by destruct (uri_query req); destruct E3.
    + assert (uri_path u = c) as Hpath by (subst pq; by destruct (uri_query req); destruct E3).
      rewrite Hpath. subst c. unfold combined_path.
      destruct (starts_with "/" (forwarded_path _ _ _)) eqn:Ew; [|by eexists].
      apply starts_with_true in Ew as [r ->]. by exists r.
  - subst pq. destruct (uri_query req); [|done]. apply starts_with_true in Hs as [r ->].
    apply starts_with_true. eexists. by rewrite str_app_assoc.
  - subst pq. destruct (uri_query req) as [q|] eqn:Eq; [|done].
    rewrite !contains_char_app. rewrite Hf, (uri_query_plain req q) by done. done.
Qed.

(** ** The headers *)

Lemma get_all_remove_all names h k :
  hm_get_all (remove_all names h) k = if decide (k ∈ names) then [] else hm_get_all h k.
Proof.
  unfold remove_all. revert h. induction names as [|n names IH]; intros h; cbn [fold_left].
  - by rewrite decide_False by apply not_elem_of_nil.
  - rewrite IH. destruct (decide (k ∈ names)) as [Hk|Hk].
    + by rewrite decide_True by (by right).
    + destruct (decide (k = n)) as [->|Hn].
      * rewrite decide_True by left. apply hm_get_all_remove_eq.
      * rewrite decide_False by (by rewrite elem_of_cons; intros [|]).
        apply hm_get_all_remove_ne. congruence.
Qed.

Lemma strip_total h : ∃ h', strip_hop_by_hop h = Some h'.
Proof.
  unfold strip_hop_by_hop. destruct (keep_te h); [|by eexists].
  destruct (hv_from_str_visible "trailers") as (v & -> & _); [done|]. by eexists.
Qed.

Lemma strip_spec h h' :
  strip_hop_by_hop h = Some h' →
  hv_to_str <$> hm_get_all h' TE = (if keep_te h then [Some "trailers"] else []) ∧
  ∀ k, k ≠ TE → hm_get_all h' k =
    if decide (k ∈ HOP_BY_HOP ∨ k ∈ connection_listed h) then [] else hm_get_all h k.
Proof.
  unfold strip_hop_by_hop. set (h1 := remove_all _ _). intros Hs.
  assert (∀ k, hm_get_all h1 k =
    if decide (k ∈ HOP_BY_HOP ∨ k ∈ connection_listed h) then [] else hm_get_all h k) as Hall.
  { intros k. subst h1. rewrite !get_all_remove_all.
    destruct (decide (k ∈ connection_listed h)); [by rewrite decide_True by auto|].
    destruct (decide (k ∈ HOP_BY_HOP)); [by rewrite decide_True by auto|].
    by rewrite decide_False by naive_solver. }
  destruct (keep_te h).
  - destruct (hv_from_str_visible "trailers") as (v & Ev & Et); [done|]. rewrite Ev in Hs.
    injection Hs as <-. split.
    + rewrite hm_get_all_insert_eq. cbn. by rewrite Et.
    + intros k Hk. rewrite hm_get_all_insert_ne by congruence. apply Hall.
  - injection Hs as <-. split; [|intros; apply Hall]. rewrite Hall, decide_True; [done|]. left.
    unfold HOP_BY_HOP, TE. set_solver.
Qed.

Lemma get_all_try_insert_ne h k k' s :
  k ≠ k' → hm_get_all (try_insert h k s) k' = hm_get_all h k'.
Proof. intros. unfold try_insert. destruct (hv_from_str s); [|done]. by apply hm_get_all_insert_ne. Qed.

Lemma get_all_try_insert_eq h k s :
  str_all visible s = true → hv_to_str <$> hm_get_all (try_insert h k s) k = [Some s].
Proof.
  intros Hs. unfold try_insert. destruct (hv_from_str_visible s Hs) as (v & -> & Et).
  rewrite hm_get_all_insert_eq. cbn. by rewrite Et.
Qed.

Lemma ip_text_visible ip : str_all visible (ProxyProto.ip_text ip) = true.
Proof.
  apply (str_all_impl text_char); [by intros [[] [] [] [] [] [] [] []]|].
  destruct ip; [apply v4_text_chars|apply v6_text_chars].
Qed.

Lemma new_xff_visible h ip : str_all visible ip = true → str_all visible (new_xff h ip) = true.
Proof.
  intros Hip. unfold new_xff. destruct (hm_get h _) as [v|]; [|done].
  destruct (hv_to_str v) as [s|] eqn:Es; [|done]. by rewrite !str_all_app, (hv_to_str_visible v s), Hip.
Qed.

Lemma get_all_inject trace h k :
  Forall (λ kv, kv.1 = TRACEPARENT ∨ kv.1 = TRACESTATE) (default [] trace) →
  k ≠ TRACEPARENT → k ≠ TRACESTATE →
  hm_get_all (inject_current trace h) k = hm_get_all h k.
Proof.
  intros Hl Hp Hs. unfold inject_current. destruct trace as [l|]; [|done]. cbn in Hl.
  assert (∀ h, hm_get_all (fold_left (λ h kv, hm_insert h kv.1 kv.2) l h) k = hm_get_all h k) as ->.
  { induction Hl as [|[n v] l Hn Hl IH]; intros h0; [done|]. cbn [fold_left]. rewrite IH.
    apply hm_get_all_insert_ne. cbn in *. naive_solver. }
  by rewrite !hm_get_all_remove_ne by congruence.
Qed.

(** The headers the proxy writes itself. *)
Definition OWN_HEADERS : list HeaderName :=
  [HOST; X_REAL_IP; X_FORWARDED_FOR; TRACEPARENT; TRACESTATE].

Lemma get_all_injected l h k :
  k = TRACEPARENT ∨ k = TRACESTATE → ∀ v, v ∈ hm_get_all (inject_current (Some l) h) k → (k, v) ∈ l.
Proof.
  intros Hk v. cbn [inject_current].
  assert (∀ h', (∀ v, v ∉ hm_get_all h' k) → v ∈ hm_get_all (fold_left (λ h kv, hm_insert h kv.1 kv.2) l h') k → (k, v) ∈ l) as Hgo.
  { assert (∀ h', v ∈ hm_get_all (fold_left (λ h kv, hm_insert h kv.1 kv.2) l h') k → v ∈ hm_get_all h' k ∨ (k, v) ∈ l) as Hg.
    { induction l as [|[n x] l IH]; intros h'; [by left|]. cbn [fold_left]. intros [Hv|Hv]%IH; [|right; by right].
      cbn in Hv. destruct (decide (n = k)) as [->|Hne].
      - rewrite hm_get_all_insert_eq in Hv. apply list_elem_of_singleton in Hv as ->. right. by left.
      - rewrite hm_get_all_insert_ne in Hv by congruence. by left. }
    intros h' Hno Hv. destruct (Hg h' Hv) as [Hin|]; [|done]. by apply Hno in Hin. }
  apply Hgo. intros x. destruct (decide (k = TRACESTATE)) as [->|Hne].
  - rewrite hm_get_all_remove_eq. apply not_elem_of_nil.
  - destruct Hk as [->|]; [|done]. rewrite hm_get_all_remove_ne, hm_get_all_remove_eq by done. apply not_elem_of_nil.
Qed.

(** The values of a header past the strip, which an upgrade does without. *)
Definition forwarded (upgrade : bool) (h : header_map) (k : HeaderName) : list header_value :=
  if upgrade then hm_get_all h k
  else if decide (k ∈ HOP_BY_HOP ∨ k ∈ connection_listed h) then [] else hm_get_all h k.


(** ** HTTP/3 hints *)

Inductive H3Op :=
  | Absorb (now : Instant) (headers : header_map)
  | Upgrade (now : Instant)
  | Evict.

Definition h3_step (h3_new : uri → bool) (up : uri) (s : H3State) (op : H3Op) : H3State :=
  match op with
  | Absorb now headers => absorb_alt_svc up now headers s
  | Upgrade now => (try_upgrade_to_h3 h3_new up now s).2
  | Evict => evict_hint s
  end.

Definition h3_run (h3_new : uri → bool) (up : uri) (ops : list H3Op) (s : H3State) : H3State :=
  fold_left (h3_step h3_new up) ops s.

Definition h3_start : H3State := {| h3_hint := None; h3_lazy := None |}.

Definition port_ok (up : uri) (port : N) : Prop := 1024 ≤ port ∨ port = original_port up.

Lemma absorb_loop_ok up now vs hint :
  absorb_loop (original_port up) now vs = Some hint →
  port_ok up (hint_port hint) ∧ hint_expires_at hint ≤ now + from_secs MAX_ALT_SVC_MA_SECS.
Proof.
  induction vs as [|v vs IH]; cbn [absorb_loop]; [done|].
  destruct (hv_to_str v ≫= parse_alt_svc_h3) as [[port ma]|]; [|done].
  destruct (N.ltb_spec port 1024), (N.eqb_spec port (original_port up)); cbn [andb negb]; [|done| |];
    intros [= <-]; cbn [hint_port hint_expires_at]; unfold port_ok, from_secs, nanos_per_sec;
    split; try lia; auto.
Qed.

Lemma try_upgrade_lazy h3_new up now s port :
  h3_lazy (try_upgrade_to_h3 h3_new up now s).2 = Some port →
  h3_lazy s = Some port ∨ ∃ hint, h3_hint s = Some hint ∧ hint_port hint = port.
Proof.
  unfold try_upgrade_to_h3. destruct (h3_hint s) as [hint|] eqn:Eh; [|auto].
  destruct (_ <=? _); [auto|]. destruct (h3_lazy s) as [p|] eqn:El; [cbn; rewrite El; auto|].
  destruct (uri_host up ≫= _); cbn; [intros [= <-]; eauto|rewrite El; auto].
Qed.

Lemma try_upgrade_hint h3_new up now s hint :
  h3_hint (try_upgrade_to_h3 h3_new up now s).2 = Some hint → h3_hint s = Some hint.
Proof.
  unfold try_upgrade_to_h3. destruct (h3_hint s) as [h|] eqn:Eh; [|cbn; by rewrite Eh].
  destruct (_ <=? _); [done|]. destruct (h3_lazy s); [cbn; by rewrite Eh|].
  destruct (uri_host up ≫= _); cbn; by rewrite ?Eh.
Qed.

(** An upstream cannot send the proxy to a privileged port: after any
    sequence of responses, upgrades and failed attempts, the port of a pending
    hint and the port of the HTTP/3 client in use are at least 1024 or the
    configured one, and a hint was armed by a response at most a day before it
    ends. *)
Theorem h3_ports_safe h3_new up ops :
  let s := h3_run h3_new up ops h3_start in
  (∀ port, h3_lazy s = Some port → port_ok up port) ∧
  ∀ hint, h3_hint s = Some hint → port_ok up (hint_port hint) ∧
    ∃ now headers, Absorb now headers ∈ ops ∧
      hint_expires_at hint ≤ now + from_secs MAX_ALT_SVC_MA_SECS.
Proof.
  cbn zeta. unfold h3_run. induction ops as [|op ops IH] using rev_ind; [done|].
  rewrite fold_left_app. cbn [fold_left]. set (s := fold_left _ ops _) in *. destruct IH as [IHl IHh].
  assert (∀ hint, h3_hint s = Some hint → port_ok up (hint_port hint) ∧
    ∃ now headers, Absorb now headers ∈ ops ++ [op] ∧
      hint_expires_at hint ≤ now + from_secs MAX_ALT_SVC_MA_SECS) as IHh'.
  { intros hint Hh. destruct (IHh hint Hh) as (? & now & hs & ? & ?). split; [done|].
    exists now, hs. rewrite elem_of_app. auto. }
  destruct op as [now hs|now|]; cbn [h3_step].
  - unfold absorb_alt_svc. destruct (absorb_loop _ _ _) as [hint|] eqn:Ea; [|done].
    apply absorb_loop_ok in Ea as [Hp He]. cbn. split; [done|]. intros hint' [= <-].
    split; [done|]. exists now, hs. rewrite elem_of_app. split; [right; by left|done].
  - split.
    + intros port Hl. apply try_upgrade_lazy in Hl as [Hl|(hint & Hh & <-)]; [by apply IHl|by apply IHh].
    + intros hint Hh. by apply try_upgrade_hint in Hh; apply IHh'.
  - cbn. split; done.
Qed.

(** Once built, the HTTP/3 client is used for every later hint, whatever port
    the upstream advertises by then. *)
Lemma h3_client_never_rebuilt h3_new up ops s port :
  h3_lazy s = Some port →
  ∀ now r, (try_upgrade_to_h3 h3_new up now (h3_run h3_new up ops s)).1 = Some r → r = port.
Proof.
  intros Hl. assert (h3_lazy (h3_run h3_new up ops s) = Some port) as Hl'.
  { unfold h3_run. revert s Hl. induction ops as [|op ops IH]; intros s Hl; [done|]. cbn [fold_left]. apply IH.
    destruct op as [now hs|now|]; cbn [h3_step].
    - unfold absorb_alt_svc. by destruct (absorb_loop _ _ _).
    - unfold try_upgrade_to_h3. destruct (h3_hint s); [|done]. destruct (_ <=? _); [done|]. by rewrite Hl.
    - done. }
  intros now r. unfold try_upgrade_to_h3. destruct (h3_hint _); [|done]. destruct (_ <=? _); [done|].
  rewrite Hl'. by intros [= <-].
Qed.

End facts.

(** * Examples *)

Module Demo.

Record Url := {
  u_scheme : string;
  u_authority : string;
  u_path : string;
  u_query : option string;
}.

(** URIs as their parts, and a builder that refuses what is no path. *)
Definition cut_text (s : string) : string := match split_once "#" s with Some (a, _) => a | None => s end.
Definition clean (p : string) : string :=
  let p := cut_text p in let p := match split_once "?" p with Some (a, _) => a | None => p end in
  if starts_with "/" p then p else "".

#[local] Instance parts_uris : Uris := {
  uri := Url;
  uri_parse s := Some {| u_scheme := "https"; u_authority := s; u_path := "/"; u_query := None |};
  uri_scheme u := Some (u_scheme u);
  uri_authority u := Some (u_authority u);
  uri_host u := Some (u_authority u);
  uri_port_u16 u := None;
  uri_path u := clean (u_path u);
  uri_query u := cut_text <$> u_query u;
  uri_build s a pq :=
    Some match split_once "?" pq with
         | Some (p, q) => {| u_scheme := s; u_authority := a; u_path := p; u_query := Some q |}
         | None => {| u_scheme := s; u_authority := a; u_path := pq; u_query := None |}
         end;
}.

Lemma cut_plain s : contains_char "#" (cut_text s) = false.
Proof.
  unfold cut_text. destruct (split_once "#" s) as [[a b]|] eqn:E.
  - by apply split_once_Some in E as [_ ?].
  - induction s as [|c s IH]; [done|]. cbn in *. destruct (Ascii.eqb c "#"); [done|].
    destruct (split_once "#" s) as [[? ?]|]; [done|]. by apply IH.
Qed.

Lemma cut_id s : contains_char "#" s = false → cut_text s = s.
Proof. intros Hs. unfold cut_text. by rewrite split_once_no_sep. Qed.

Lemma clean_plain p : plain_path (clean p).
Proof.
  unfold clean. pose proof (cut_plain p) as Hc. set (c := cut_text p) in *. clearbody c.
  destruct (split_once "?" c) as [[a b]|] eqn:E.
  - apply split_once_Some in E as [-> Hq]. rewrite contains_char_app in Hc.
    apply orb_false_iff in Hc as [Hc _]. by destruct (starts_with "/" a).
  - destruct (starts_with "/" c); [|done]. split; [|done]. clear Hc.
    induction c as [|x c IH]; [done|]. cbn in *. destruct (Ascii.eqb x "?"); [done|].
    destruct (split_once "?" c) as [[? ?]|]; [done|]. by apply IH.
Qed.

Lemma clean_id p : plain_path p → starts_with "/" p = true → clean p = p.
Proof. intros [Hq Hf] Hs. unfold clean. by rewrite cut_id, split_once_no_sep, Hs. Qed.

#[local] Instance parts_uris_laws : UrisLaws.
Proof.
  split.
  - intros u. apply clean_plain.
  - intros u _. cbn. unfold clean. destruct (starts_with "/" _) eqn:E; [by right|by left].
  - intros u q. cbn. destruct (u_query u); [|done]. intros [= <-]. apply cut_plain.
  - intros s a pq u. cbn. intros [= <-] Hs Hf. destruct (split_once "?" pq) as [[p q]|] eqn:E; cbn.
    + apply split_once_Some in E as [-> Hq]. rewrite contains_char_app in Hf.
      apply orb_false_iff in Hf as [Hfp Hfq]. cbn in Hfq.
      split_and!; [done|done| |by rewrite cut_id]. apply clean_id; [done|].
      apply starts_with_true in Hs as [r Hr]. destruct p as [|c p]; [done|].
      rewrite str_app_cons in Hr. injection Hr as -> _. apply starts_with_true. by exists p.
    + split_and!; [done|done| |done]. apply clean_id; [|done]. split; [|done].
      clear Hs Hf. induction pq as [|c pq IH]; [done|]. cbn in *. destruct (Ascii.eqb c "?"); [done|].
      destruct (split_once "?" pq) as [[? ?]|]; [done|]. by apply IH.
Qed.

Definition upstream : @uri parts_uris :=
  {| u_scheme := "http"; u_authority := "api:9000"; u_path := "/v2/"; u_query := None |}.
Definition target : @uri parts_uris :=
  {| u_scheme := "http"; u_authority := "site"; u_path := "/api/users"; u_query := Some "id=1" |}.
Definition backend : @uri parts_uris :=
  {| u_scheme := "http"; u_authority := "api:9000"; u_path := "/v2/users"; u_query := Some "id=1" |}.

Lemma backend_uri_confined_witness :
  build_backend_uri upstream target "/api" true = Ok backend ∧
  uri_authority backend = Some "api:9000" ∧ uri_path backend = "/v2/users".
Proof.
  destruct (backend_uri_confined upstream target "/api" true backend eq_refl) as (_ & Ha & _ & Hp & _).
  split; [reflexivity|]. split; [exact Ha|]. etransitivity; [exact Hp|]. reflexivity.
Defined.

#[local] Existing Instance ProxyProto.dec_ips.
#[local] Existing Instance ProxyProto.dec_ips_laws.

Definition client : ProxyProto.SocketAddr := {| ProxyProto.sa_ip := V4 7; ProxyProto.sa_port := 4000 |}.
Definition request (h : @header_map assoc_http) : ProxyRequest :=
  {| pr_method := "GET"; pr_uri := target; pr_headers := h; pr_body := Full ""; pr_peer := Some client;
     pr_local := None; pr_local_unix := None |}.
Definition sent (h : @header_map assoc_http) : option (list (string * string)) :=
  match prepare_backend_request_inner upstream true None (request h) "/api" false with
  | Some (Ok br) => Some (br_headers br)
  | _ => None
  end.


(** A header that only a second [Connection] line names is forwarded, though
    it is meant for this hop. *)
Lemma second_connection_line_kept :
  ∃ h, sent [("connection", "keep-alive"); ("connection", "x-secret"); ("x-secret", "s")] = Some h ∧
    hm_get_all h "x-secret" = ["s"].
Proof. eexists. split; vm_compute; reflexivity. Qed.

(** Naming a header in [Connection] removes it, also one that a rule of the
    location has set. *)
Lemma connection_drops_rule_header :
  ∃ h, sent [("connection", "x-user"); ("x-user", "alice")] = Some h ∧ hm_get_all h "x-user" = [].
Proof. eexists. split; vm_compute; reflexivity. Qed.

(** Of several [X-Forwarded-For] lines only the first is kept. *)
Lemma xff_lines_lost :
  ∃ h, sent [("x-forwarded-for", "10.0.0.1"); ("x-forwarded-for", "10.0.0.2")] = Some h ∧
    hm_get_all h X_FORWARDED_FOR = ["10.0.0.1, " +:+ ProxyProto.ip_text (V4 7)].
Proof. eexists. split; vm_compute; reflexivity. Qed.

(** An alternative without an equals sign, an unreadable port or an HTTP/3
    alternative without [ma] ends the parse, although a later one is fine. *)
Lemma alt_svc_gives_up :
  let q s := String DQUOTE s +:+ String DQUOTE "" in
  parse_alt_svc_h3 ("h2=" +:+ q ":443" +:+ ", h3=" +:+ q ":443" +:+ "; ma=60") = Some (443, 60) ∧
  parse_alt_svc_h3 ("clear, h3=" +:+ q ":443" +:+ "; ma=60") = None ∧
  parse_alt_svc_h3 ("h3=" +:+ q ":443" +:+ ", h3=" +:+ q ":443" +:+ "; ma=60") = None.
Proof. split_and!; vm_compute; reflexivity. Qed.

End Demo.

End ProxyReq.
