(* ===== verification/Proxy.v ===== *)
(** The reverse proxy ([src/handler/proxy.rs], [src/handler/proxy/inner.rs],
    [src/handler/proxy/upgrade.rs]): the per-upstream client with its three
    transports and its PROXY-protocol path, the retry loop over the upstream
    pool, and protocol upgrades.

    One request runs at a time on the pool; the clock, the hasher and what the
    network answers to an attempt are parameters of that attempt. *)
From S2P Require Import Prelude RustStr Utf8 Net Http Errors ProxyProto Metrics LoadBalancer Ws.
From S2P Require Import ProxyRequest.

(** [base64(sha1(text))], the digest of the WebSocket handshake. *)
Class WsDigest := {
  sha1_base64 : string → string;
}.

Module Proxy.
Import ProxyReq.

(** * Clients *)

Inductive ProxyUpstreamScheme := Auto | H3 | H2c.

#[global] Instance scheme_eq_dec : EqDecision ProxyUpstreamScheme.
Proof. solve_decision. Defined.

Inductive ProxyClient := ClientHttp | ClientUnix | ClientH3.

Section proxy.
Context `{Http} `{Uris} `{IpText} `{Hasher} `{WsDigest}.

Record InnerProxyClient := {
  client : ProxyClient;
  upstream : uri;
  strip_prefix : bool;
  proxy_protocol : option ProxyProto.ProxyProtocolVersion;
  unix_path : option string;
  h3 : H3State;
  auto_h3_enabled : bool;
  upgrade_scheme : ProxyUpstreamScheme;
}.

Definition h3_empty : H3State := {| h3_hint := None; h3_lazy := None |}.

Definition set_h3 (c : InnerProxyClient) (s : H3State) : InnerProxyClient :=
  {| client := client c; upstream := upstream c; strip_prefix := strip_prefix c;
     proxy_protocol := proxy_protocol c; unix_path := unix_path c; h3 := s;
     auto_h3_enabled := auto_h3_enabled c; upgrade_scheme := upgrade_scheme c |}.

(** [InnerProxyClient::new]; the outer [option] is the panic of the fixed URL. *)
Definition new_inner (h3_new : uri → bool) (url : string) (strip : bool)
    (pp : option ProxyProto.ProxyProtocolVersion) (scheme : ProxyUpstreamScheme)
    : option (Result InnerProxyClient) :=
  let mk c u path auto :=
    {| client := c; upstream := u; strip_prefix := strip; proxy_protocol := pp; unix_path := path;
       h3 := h3_empty; auto_h3_enabled := auto; upgrade_scheme := scheme |} in
  match RustStr.strip_prefix "unix:" url with
  | Some path => u ← uri_parse "http://localhost"; Some (Ok (mk ClientUnix u (Some path) false))
  | None =>
      Some (
        u ← ok_or (uri_parse url) "invalid upstream URL";
        if negb (bool_decide (uri_scheme u = Some "http") || bool_decide (uri_scheme u = Some "https"))
        then Err "must use http or https scheme"
        else if negb (bool_decide (is_Some (uri_authority u))) then Err "must include a host"
        else if decide (scheme = H3) then
          if h3_new u then Ok (mk ClientH3 u None false) else Err "h3 client"
        else Ok (mk ClientHttp u None (starts_with "https://" url)))
  end.

(** * One attempt *)

Inductive Reply :=
  | Answer (resp : HttpResponse)
  | ConnectError
  | OtherError.

Inductive Target :=
  | TcpTarget (authority : string)
  | UnixTarget (path : string).

(** What the network does during an attempt that comes to an end: the pooled
    client, the HTTP/3 clients (the configured one, and the one built for an
    advertised port), and the steps of the unpooled path.  An attempt that
    never ends is ended by the handler time-out, which drops the request
    ([Dispatch.with_timeout]). *)
Record Network := {
  n_client : BackendReq → Reply;
  n_h3 : option N → BackendReq → option HttpResponse;
  n_h3_new : uri → bool;
  n_connect : Target → bool;
  n_write : string → bool;
  n_tls : string → bool;
  n_http1 : BackendReq → option HttpResponse;
}.

(** The response ([None] is a panic), the client after, the connect errors
    counted, and the request that went out. *)
Record Served := {
  s_resp : option HttpResponse;
  s_client : InnerProxyClient;
  s_connect_errors : N;
  s_sent : option BackendReq;
}.

Section attempt.
Context (trace : option (list (HeaderName * header_value))) (net : Network) (now : Instant).

Definition proxy_header (version : ProxyProto.ProxyProtocolVersion) (req : ProxyRequest) : string :=
  match pr_peer req with
  | Some src =>
      ProxyProto.build_header version src
        (default {| ProxyProto.sa_ip := V4 0; ProxyProto.sa_port := 0 |} (pr_local req))
  | None =>
      match version with
      | ProxyProto.V1 => ProxyProto.build_v1_unknown
      | ProxyProto.V2 =>
          match pr_local_unix req with
          | Some p => ProxyProto.build_v2_unix None (Some p)
          | None => ProxyProto.build_v2_unspec
          end
      end
  end.

Definition bad_gateway (c : InnerProxyClient) (errors : N) (sent : option BackendReq) : Served :=
  {| s_resp := Errors.response_502; s_client := c; s_connect_errors := errors; s_sent := sent |}.

Definition answered (c : InnerProxyClient) (resp : option HttpResponse) (sent : BackendReq) : Served :=
  {| s_resp := resp; s_client := c; s_connect_errors := 0; s_sent := Some sent |}.

(** The connected stream after its PROXY header. *)
Definition send_http1 (c : InnerProxyClient) (header : string) (tls : option string)
    (br : BackendReq) : Served :=
  if negb (n_write net header) then bad_gateway c 0 None
  else if negb (match tls with Some host => n_tls net host | None => true end) then bad_gateway c 0 None
  else match n_http1 net br with
       | Some r => answered c (convert_response r) br
       | None => bad_gateway c 0 (Some br)
       end.

Definition serve_with_proxy_protocol (c : InnerProxyClient) (req : ProxyRequest)
    (matched_prefix : string) (version : ProxyProto.ProxyProtocolVersion) : Served :=
  match prepare_backend_request_inner (upstream c) (strip_prefix c) trace req matched_prefix false with
  | None => {| s_resp := None; s_client := c; s_connect_errors := 0; s_sent := None |}
  | Some (Err _) => bad_gateway c 0 None
  | Some (Ok br) =>
      let header := proxy_header version req in
      match unix_path c with
      | Some path =>
          if n_connect net (UnixTarget path) then send_http1 c header None br
          else bad_gateway c 1 None
      | None =>
          match uri_authority (upstream c) with
          | None => {| s_resp := None; s_client := c; s_connect_errors := 0; s_sent := None |}
          | Some authority =>
              if n_connect net (TcpTarget authority) then
                send_http1 c header
                  (if bool_decide (uri_scheme (upstream c) = Some "https")
                   then Some (default "" (uri_host (upstream c))) else None) br
              else bad_gateway c 1 None
          end
      end
  end.

(** The pooled client, and what its answer does to the HTTP/3 hint. *)
Definition serve_pooled (c : InnerProxyClient) (br : BackendReq) : Served :=
  match n_client net br with
  | Answer resp =>
      let c := if auto_h3_enabled c
               then set_h3 c (absorb_alt_svc (upstream c) now (resp_headers resp) (h3 c)) else c in
      answered c (convert_response resp) br
  | ConnectError => bad_gateway c 1 (Some br)
  | OtherError => bad_gateway c 0 (Some br)
  end.

Definition serve (c : InnerProxyClient) (req : ProxyRequest) (matched_prefix : string) : Served :=
  match proxy_protocol c with
  | Some version => serve_with_proxy_protocol c req matched_prefix version
  | None =>
      match prepare_backend_request_inner (upstream c) (strip_prefix c) trace req matched_prefix false with
      | None => {| s_resp := None; s_client := c; s_connect_errors := 0; s_sent := None |}
      | Some (Err _) => bad_gateway c 0 None
      | Some (Ok br) =>
          match client c with
          | ClientH3 =>
              match n_h3 net None br with
              | Some resp => answered c (Some resp) br
              | None => bad_gateway c 0 (Some br)
              end
          | _ =>
              let '(upgraded, s) :=
                if auto_h3_enabled c then try_upgrade_to_h3 (n_h3_new net) (upstream c) now (h3 c)
                else (None, h3 c) in
              let c := set_h3 c s in
              match upgraded with
              | Some port =>
                  match n_h3 net (Some port) br with
                  | Some resp => answered c (Some resp) br
                  | None => bad_gateway (set_h3 c (evict_hint s)) 0 (Some br)
                  end
              | None => serve_pooled c br
              end
          end
      end
  end.

End attempt.

(** * The handler *)

Record RetryConfig := {
  retry_max : N;
  on_status : list N;
}.

Record ProxyMetrics := {
  lb_retries : N;
  connect_errors : N;
  upstream_bytes_out : N;
  upstream_bytes_in : N;
  core : Metrics.Metrics;
}.

(** An attempt as the upstream saw it, and what it came to ([None] is a panic). *)
Record Attempt := {
  at_upstream : nat;
  at_resp : option HttpResponse;
  at_sent : option BackendReq;
}.

Definition at_status (a : Attempt) : option N := resp_status <$> at_resp a.

Record World := {
  pool : Lb.UpstreamPool;
  inners : list InnerProxyClient;
  pmetrics : ProxyMetrics;
  log : list Attempt;
}.

Definition set_pool (w : World) (p : Lb.UpstreamPool) : World :=
  {| pool := p; inners := inners w; pmetrics := pmetrics w; log := log w |}.

(** The mutation of one upstream through its [Arc]. *)
Definition on_upstream (idx : nat) (f : Lb.Upstream → Lb.Upstream) (w : World) : World :=
  set_pool w (Lb.set_upstreams (pool w) (alter f idx (Lb.upstreams (pool w)))).

(** The readings of an attempt: the clocks of the two pick passes, the network,
    the instant of the answer, how long it took, and the wall clock of a
    failure. *)
Record Readings := {
  now1 : N; now2 : N; nanos1 : N; nanos2 : N;
  network : Network;
  instant : Instant;
  elapsed : Duration;
  fail_ms : N;
}.

Definition content_length (h : header_map) : N :=
  default 0 (s ← get_str h CONTENT_LENGTH; parse_uint u64_max s).

Definition server_error (status : N) : bool := (500 <=? status) && (status <? 600).

Definition count_ejection (m : Lb.LbMetrics) : Lb.LbMetrics :=
  {| Lb.lb_picks := Lb.lb_picks m; Lb.lb_no_upstream := Lb.lb_no_upstream m;
     Lb.lb_ejections := wrap64 (Lb.lb_ejections m + 1);
     Lb.lb_health_checks := Lb.lb_health_checks m;
     Lb.lb_health_recoveries := Lb.lb_health_recoveries m;
     Lb.lb_health_failures := Lb.lb_health_failures m |}.

(** [pool.record_failure]: also counts the ejection. *)
Definition pool_record_failure (idx : nat) (now_ms : N) (w : World) : World :=
  let p := pool w in
  match Lb.upstreams p !! idx with
  | Some u =>
      let '(u', ejected) := Lb.record_failure (Lb.passive p) now_ms u in
      let p := Lb.set_upstreams p (<[idx := u']> (Lb.upstreams p)) in
      set_pool w (if ejected then Lb.set_pool_metrics p (count_ejection (Lb.metrics p)) else p)
  | None => w
  end.

Definition record_outcome (idx : nat) (status now_ms : N) (w : World) : World :=
  if server_error status then pool_record_failure idx now_ms w
  else on_upstream idx Lb.record_success w.

Definition set_pmetrics (w : World) (m : ProxyMetrics) : World :=
  {| pool := pool w; inners := inners w; pmetrics := m; log := log w |}.

Definition record_upstream (idx : nat) (elapsed : Duration) (req_bytes : N) (resp : HttpResponse)
    (w : World) : World :=
  let resp_bytes := content_length (resp_headers resp) in
  let ok := negb (server_error (resp_status resp)) in
  let w := on_upstream idx
    (λ u, Lb.record_bytes (Lb.record_request u ok (Metrics.as_micros elapsed)) req_bytes resp_bytes) w in
  let m := pmetrics w in
  set_pmetrics w
    {| lb_retries := lb_retries m; connect_errors := connect_errors m;
       upstream_bytes_out := wrap64 (upstream_bytes_out m + req_bytes);
       upstream_bytes_in := wrap64 (upstream_bytes_in m + resp_bytes);
       core := Metrics.record_proxy_upstream_latency elapsed (core m) |}.

(** What an attempt leaves behind besides its response. *)
Definition note_attempt (idx : nat) (s : Served) (w : World) : World :=
  let m := pmetrics w in
  {| pool := pool w; inners := <[idx := s_client s]> (inners w);
     pmetrics := {| lb_retries := lb_retries m;
                    connect_errors := wrap64 (connect_errors m + s_connect_errors s);
                    upstream_bytes_out := upstream_bytes_out m; upstream_bytes_in := upstream_bytes_in m;
                    core := core m |};
     log := log w ++ [{| at_upstream := idx; at_resp := s_resp s; at_sent := s_sent s |}] |}.

Definition count_retry (w : World) : World :=
  let m := pmetrics w in
  set_pmetrics w
    {| lb_retries := wrap64 (lb_retries m + 1); connect_errors := connect_errors m;
       upstream_bytes_out := upstream_bytes_out m; upstream_bytes_in := upstream_bytes_in m;
       core := core m |}.

Section handle.
Context (trace : option (list (HeaderName * header_value))) (retry : RetryConfig).

Definition pick_upstream (r : Readings) (ctx : Lb.PickCtx) (w : World) : option nat * World :=
  let '(picked, p) := Lb.pick ctx (now1 r) (now2 r) (nanos1 r) (nanos2 r) (pool w) in
  (picked, set_pool w p).

(** The guarded part of an attempt on the upstream at [idx]: the in-flight
    guard is dropped at its end, by unwinding after a panic.  A missing client
    is the panic of the indexing. *)
Definition run_attempt (r : Readings) (idx : nat) (req : ProxyRequest) (matched_prefix : string)
    (req_bytes : N) (w : World) : option HttpResponse * World :=
  let w := on_upstream idx Lb.in_flight_inc w in
  match inners w !! idx with
  | None => (None, on_upstream idx Lb.in_flight_dec w)
  | Some c =>
      let s := serve trace (network r) (instant r) c req matched_prefix in
      let w := note_attempt idx s w in
      match s_resp s with
      | None => (None, on_upstream idx Lb.in_flight_dec w)
      | Some resp =>
          let w := record_upstream idx (elapsed r) req_bytes resp w in
          let w := record_outcome idx (resp_status resp) (fail_ms r) w in
          (Some resp, on_upstream idx Lb.in_flight_dec w)
      end
  end.

Definition should_retry (status : N) : bool := bool_decide (status ∈ on_status retry).

Definition max_attempts : N := N.max (sat_add32 (retry_max retry) 1) 1.

Definition with_body (req : ProxyRequest) (body : string) : ProxyRequest :=
  {| pr_method := pr_method req; pr_uri := pr_uri req; pr_headers := pr_headers req;
     pr_body := Full body; pr_peer := pr_peer req; pr_local := pr_local req;
     pr_local_unix := pr_local_unix req |}.

(** The attempts [attempt], [attempt + 1], ...; [left] of them at most. *)
Fixpoint retry_loop (left attempt : nat) (rs : nat → Readings) (ctx : Lb.PickCtx)
    (req : ProxyRequest) (matched_prefix collected : string) (last_resp : option HttpResponse)
    (w : World) : option HttpResponse * World :=
  match left with
  | O => (match last_resp with Some r => Some r | None => Errors.response_502 end, w)
  | S left' =>
      let '(picked, w) := pick_upstream (rs attempt) ctx w in
      match picked with
      | None => (match last_resp with Some r => Some r | None => Errors.response_502 end, w)
      | Some idx =>
          match run_attempt (rs attempt) idx (with_body req collected) matched_prefix
                  (str_len collected) w with
          | (None, w) => (None, w)
          | (Some resp, w) =>
              if should_retry (resp_status resp) && (0 <? left')%nat
              then retry_loop left' (S attempt) rs ctx req matched_prefix collected (Some resp)
                     (count_retry w)
              else (Some resp, w)
          end
      end
  end.

(** [ProxyHandler::handle] of a request that is not an upgrade; [group] is the
    rendered group, [None] when there is none or it is empty. *)
Definition handle (rs : nat → Readings) (group : option string) (req : ProxyRequest)
    (matched_prefix : string) (w : World) : option HttpResponse * World :=
  let ctx := {| Lb.peer_ip := ProxyProto.sa_ip <$> pr_peer req; Lb.pick_headers := pr_headers req;
                Lb.pick_group := group |} in
  if max_attempts =? 1 then
    let '(picked, w) := pick_upstream (rs 0%nat) ctx w in
    match picked with
    | None => (Errors.response_502, w)
    | Some idx => run_attempt (rs 0%nat) idx req matched_prefix (content_length (pr_headers req)) w
    end
  else
    match pr_body req with
    | Failing => (Errors.response_502, w)
    | Full collected =>
        retry_loop (N.to_nat max_attempts) 0 rs ctx req matched_prefix collected None w
    end.

End handle.

(** * Upgrades *)

Definition UPGRADE : HeaderName := "upgrade".
Definition SEC_WEBSOCKET_KEY : HeaderName := "sec-websocket-key".
Definition SEC_WEBSOCKET_ACCEPT : HeaderName := "sec-websocket-accept".

Inductive InboundProtocol := InH1 | InH2 | InH3.

#[global] Instance inbound_eq_dec : EqDecision InboundProtocol.
Proof. solve_decision. Defined.

(** The marker of an upgrade request, less the future that hands over the
    client's stream. *)
Record UpgradeRequest := {
  protocol : header_value;
  inbound : InboundProtocol;
  ws_key : option header_value;
}.

Definition connection_has_upgrade (v : header_value) : bool :=
  match hv_to_str v with
  | Some s => existsb (λ tok, eq_ignore_ascii_case (trim tok) "upgrade") (split "," s)
  | None => false
  end.

Definition detect_h1_upgrade (h : header_map) : option UpgradeRequest :=
  conn ← hm_get h CONNECTION;
  if negb (connection_has_upgrade conn) then None
  else
    proto ← hm_get h UPGRADE;
    if is_empty (hv_as_bytes proto) then None
    else Some {| protocol := proto; inbound := InH1; ws_key := hm_get h SEC_WEBSOCKET_KEY |}.

(** [ext] is the [:protocol] extension of the request. *)
Definition detect_h2_upgrade (method : string) (ext : option string) : option UpgradeRequest :=
  if negb (String.eqb method "CONNECT") then None
  else proto ← ext; hv ← hv_from_str proto;
       Some {| protocol := hv; inbound := InH2; ws_key := None |}.

Definition WS_GUID : string := "258EAFA5-E914-47DA-95CA-C5AB0DC85B11".

Definition compute_ws_accept (key : header_value) : option header_value :=
  s ← hv_to_str key; hv_from_str (sha1_base64 (s +:+ WS_GUID)).

(** Where the tunnel of an upgrade is opened. *)
Inductive TunnelTarget :=
  | TunnelTcp (host : string) (port : N)
  | TunnelUnix (path : string).

Definition h1_tunnel_target (u : uri) : Result TunnelTarget :=
  let scheme := default "http" (uri_scheme u) in
  if String.eqb scheme "http" then
    host ← ok_or (uri_host u) "upgrade upstream missing host";
    Ok (TunnelTcp host (default 80 (uri_port_u16 u)))
  else if String.eqb scheme "unix" then Ok (TunnelUnix (uri_path u))
  else Err "scheme is not yet supported on the upgrade path".

Definition h2c_tunnel_target (u : uri) : Result TunnelTarget :=
  if negb (String.eqb (default "http" (uri_scheme u)) "http") then Err "scheme is not valid"
  else host ← ok_or (uri_host u) "upstream missing host";
       Ok (TunnelTcp host (default 80 (uri_port_u16 u))).

Definition outbound_is_h2c (c : InnerProxyClient) : bool := bool_decide (upgrade_scheme c = H2c).

(** Opening the tunnel: the head of the upstream's response.  [tunnel] is what
    the connection, the handshake and, for a success status, the hand-over of
    the stream come to.  The extended CONNECT's URI takes the upstream's
    authority and the scheme [http], which the prepared URI already has. *)
Definition open_tunnel (tunnel : TunnelTarget → BackendReq → option (N * header_map))
    (c : InnerProxyClient) (br : BackendReq) (marker : UpgradeRequest) : Result (N * header_map) :=
  if outbound_is_h2c c then
    target ← h2c_tunnel_target (upstream c);
    _ ← ok_or (hv_to_str (protocol marker)) "protocol header is not ASCII";
    ok_or (tunnel target {| br_method := "CONNECT"; br_uri := br_uri br; br_headers := br_headers br;
                            br_body := br_body br |}) "tunnel"
  else
    target ← h1_tunnel_target (upstream c);
    ok_or (tunnel target br) "tunnel".

Definition DECLINED_SKIP : list HeaderName :=
  ["connection"; "keep-alive"; "proxy-authenticate"; "proxy-authorization"; "te"; "trailers";
   "transfer-encoding"].

(** [for (n, v) in headers { resp.headers_mut().insert(n, v) }]. *)
Definition insert_each (l : list (HeaderName * header_value)) (h : header_map) : header_map :=
  fold_left (λ h kv, hm_insert h kv.1 kv.2) l h.

Definition is_websocket (marker : UpgradeRequest) : bool :=
  match hv_to_str (protocol marker) with
  | Some s => eq_ignore_ascii_case s "websocket"
  | None => false
  end.

Definition inbound_masks (marker : UpgradeRequest) : bool := bool_decide (inbound marker = InH1).

(** Whether and how the client's frames are rewritten. *)
Definition ws_mode (c : InnerProxyClient) (marker : UpgradeRequest) : option Ws.MaskMode :=
  if is_websocket marker && negb (Bool.eqb (inbound_masks marker) (negb (outbound_is_h2c c)))
  then Some (if inbound_masks marker then Ws.Unmask else Ws.Mask)
  else None.

(** The answer to the client once the upstream has switched; [None] is the
    panic of [from_static]. *)
Definition switched_response (c : InnerProxyClient) (marker : UpgradeRequest) (headers : header_map)
    : option HttpResponse :=
  let status := match inbound marker with InH1 => 101 | _ => 200 end in
  let h := insert_each (hm_iter headers) hm_new in
  h ← (if bool_decide (inbound marker = InH1) && outbound_is_h2c c then
         up ← hv_from_str "upgrade";
         let h := hm_insert (hm_insert h CONNECTION up) UPGRADE (protocol marker) in
         Some match (if is_websocket marker then k ← ws_key marker; compute_ws_accept k else None) with
              | Some accept => hm_insert h SEC_WEBSOCKET_ACCEPT accept
              | None => h
              end
       else Some h);
  Some {| resp_status := status; resp_headers := h; resp_body := Full "" |}.

(** The response to the client, and the tunnel that was started: how its
    client frames are rewritten ([None]: the bytes are copied).  The task of an
    HTTP/3 client ends before it pumps. *)
Definition serve_upgrade (trace : option (list (HeaderName * header_value)))
    (tunnel : TunnelTarget → BackendReq → option (N * header_map)) (c : InnerProxyClient)
    (req : ProxyRequest) (matched_prefix : string) (marker : UpgradeRequest)
    : option HttpResponse * option (option Ws.MaskMode) :=
  match prepare_backend_request_inner (upstream c) (strip_prefix c) trace req matched_prefix true with
  | None => (None, None)
  | Some (Err _) => (Errors.response_502, None)
  | Some (Ok br) =>
      match open_tunnel tunnel c br marker with
      | Err _ => (Errors.response_502, None)
      | Ok (status, headers) =>
          if negb (status =? (if outbound_is_h2c c then 200 else 101)) then
            (Some {| resp_status := status;
                     resp_headers := insert_each
                       (filter (λ kv, kv.1 ∉ DECLINED_SKIP) (hm_iter headers)) hm_new;
                     resp_body := Full "" |}, None)
          else (switched_response c marker headers,
                if bool_decide (inbound marker = InH3) then None else Some (ws_mode c marker))
      end
  end.

(** The bytes a tunnel writes to the upstream for the chunks read from the
    client: [pump_websocket], or [pump]'s plain copy. *)
Definition pump_client (random_mask : nat → string) (write_ok : string → string → bool)
    (mode : option Ws.MaskMode) (chunks : list string) : option (Result unit * string) :=
  match mode with
  | Some mode => Ws.translate_masking random_mask write_ok mode (Ok <$> chunks)
  | None => Some (Ok (), String.concat "" chunks)
  end.

(** [handle] of an upgrade: one pick, no retry. *)
Definition handle_upgrade (trace : option (list (HeaderName * header_value))) (r : Readings)
    (tunnel : TunnelTarget → BackendReq → option (N * header_map)) (group : option string)
    (req : ProxyRequest) (matched_prefix : string) (marker : UpgradeRequest) (w : World)
    : option HttpResponse * option (option Ws.MaskMode) * World :=
  let ctx := {| Lb.peer_ip := ProxyProto.sa_ip <$> pr_peer req; Lb.pick_headers := pr_headers req;
                Lb.pick_group := group |} in
  let '(picked, w) := pick_upstream r ctx w in
  match picked with
  | None => (Errors.response_502, None, w)
  | Some idx =>
      let w := on_upstream idx Lb.in_flight_inc w in
      match inners w !! idx with
      | None => (None, None, on_upstream idx Lb.in_flight_dec w)
      | Some c =>
          match serve_upgrade trace tunnel c req matched_prefix marker with
          | (None, t) => (None, t, on_upstream idx Lb.in_flight_dec w)
          | (Some resp, t) =>
              let ok := negb (server_error (resp_status resp)) in
              let w := on_upstream idx (λ u, Lb.record_request u ok (Metrics.as_micros (elapsed r))) w in
              let w := record_outcome idx (resp_status resp) (fail_ms r) w in
              (Some resp, t, on_upstream idx Lb.in_flight_dec w)
          end
      end
  end.

End proxy.

(** * Attempts and retries *)

Section facts.
Context `{Http} `{Uris} `{IpText} `{Hasher} `{WsDigest}.

(** What goes out is the prepared request. *)
Lemma serve_sent trace net now c req prefix br :
  s_sent (serve trace net now c req prefix) = Some br →
  prepare_backend_request_inner (upstream c) (strip_prefix c) trace req prefix false = Some (Ok br).
Proof.
  unfold serve, serve_with_proxy_protocol, serve_pooled, send_http1. intros Hs.
  destruct (prepare_backend_request_inner _ _ _ _ _ _) as [[b|e]|]; repeat case_match; simplify_eq/=; done.
Qed.

Lemma prepare_keeps up strip trace req prefix up_ br :
  prepare_backend_request_inner up strip trace req prefix up_ = Some (Ok br) →
  br_method br = pr_method req ∧ br_body br = pr_body req.
Proof.
  unfold prepare_backend_request_inner. destruct (build_backend_uri _ _ _ _); [|done].
  destruct (if up_ then _ else _); [|done]. cbn. by intros [= <-].
Qed.

(** The response of an attempt: what the upstream answered to the request that
    went out, less its hop-by-hop headers where it came over HTTP/1.1 or
    HTTP/2, or the server's own 502. *)
Definition answer_of (net : Network) (sent : option BackendReq) (resp : HttpResponse) : Prop :=
  (∃ br r, sent = Some br ∧ (n_client net br = Answer r ∨ n_http1 net br = Some r) ∧ convert_response r = Some resp) ∨
  (∃ br port, sent = Some br ∧ n_h3 net port br = Some resp) ∨
  Errors.response_502 = Some resp.

Lemma serve_answer trace net now c req prefix resp :
  s_resp (serve trace net now c req prefix) = Some resp →
  answer_of net (s_sent (serve trace net now c req prefix)) resp.
Proof.
  unfold serve, serve_with_proxy_protocol, serve_pooled, send_http1, answer_of, bad_gateway, answered. intros Hs.
  destruct (prepare_backend_request_inner _ _ _ _ _ _) as [[b|e]|]; repeat case_match; simplify_eq/=; eauto 8.
Qed.

Lemma run_attempt_log trace r idx req prefix n w resp w' :
  run_attempt trace r idx req prefix n w = (Some resp, w') →
  ∃ a, log w' = log w ++ [a] ∧ at_upstream a = idx ∧ at_resp a = Some resp ∧
    lb_retries (pmetrics w') = lb_retries (pmetrics w) ∧ answer_of (network r) (at_sent a) resp ∧
    ∀ br, at_sent a = Some br → br_method br = pr_method req ∧ br_body br = pr_body req.
Proof.
  unfold run_attempt. destruct (inners _ !! idx) as [c|]; [|done].
  destruct (s_resp _) as [resp'|] eqn:Es; [|done]. intros [= <- <-]. eexists. split_and!.
  - unfold record_outcome, pool_record_failure. repeat case_match; reflexivity.
  - reflexivity.
  - cbn. by rewrite Es.
  - unfold record_outcome, pool_record_failure. repeat case_match; reflexivity.
  - cbn. by apply serve_answer.
  - cbn. intros br Hb. apply serve_sent in Hb. by eapply prepare_keeps.
Qed.

(** A run of attempts that ended with a response. *)
Record retried (retry : RetryConfig) (rs : nat → Readings) (ctx : Lb.PickCtx) (req : ProxyRequest)
    (collected : string) (left first : nat) (last_resp : option HttpResponse) (w w' : World)
    (resp : HttpResponse) (l : list Attempt) : Prop := {
  rt_log : log w' = log w ++ l;
  rt_bound : (length l ≤ left)%nat;
  rt_sent : Forall (λ a, ∀ br, at_sent a = Some br →
    br_method br = pr_method req ∧ br_body br = Full collected) l;
  rt_retries : lb_retries (pmetrics w') = wrap64 (lb_retries (pmetrics w)
    + N.of_nat (length (List.filter (λ a, match at_status a with
        | Some s => should_retry retry s | None => false end) (take (left - 1) l))));
  rt_again : ∀ i a, l !! i = Some a → (S i < length l)%nat →
    ∃ s, at_status a = Some s ∧ s ∈ on_status retry;
  rt_from : ∀ i a r, l !! i = Some a → at_resp a = Some r → answer_of (network (rs (first + i)%nat)) (at_sent a) r;
  rt_answer : match last l with
              | Some a => at_resp a = Some resp
              | None => match last_resp with Some r => resp = r | None => Errors.response_502 = Some resp end
              end;
  rt_stop : resp_status resp ∉ on_status retry ∨ length l = left ∨
    ∃ w0, pick_upstream (rs (first + length l)%nat) ctx w0 = (None, w');
}.

Lemma retry_loop_spec trace retry rs ctx req prefix collected left first last_resp w resp w' :
  lb_retries (pmetrics w) < u64_mod →
  retry_loop trace retry left first rs ctx req prefix collected last_resp w = (Some resp, w') →
  ∃ l, retried retry rs ctx req collected left first last_resp w w' resp l.
Proof.
  revert first last_resp w. induction left as [|left IH]; intros first last_resp w Hw; cbn [retry_loop].
  { intros [= Hr <-]. exists []. split; cbn; try done.
    - by rewrite app_nil_r.
    - by rewrite N.add_0_r, wrap64_small.
    - destruct last_resp; [by injection Hr|done].
    - auto. }
  destruct (pick_upstream (rs first) ctx w) as [picked w1] eqn:Ep.
  assert (log w1 = log w ∧ lb_retries (pmetrics w1) = lb_retries (pmetrics w)) as [Hl1 Hr1].
  { unfold pick_upstream in Ep. destruct (Lb.pick _ _ _ _ _ _). by injection Ep as _ <-. }
  destruct picked as [idx|].
  2: { intros [= Hr <-]. exists []. split; cbn; try done.
       - by rewrite app_nil_r.
       - lia.
       - by rewrite ?take_nil, Hr1, N.add_0_r, wrap64_small.
       - destruct last_resp; [by injection Hr|done].
       - right; right. exists w. by rewrite Nat.add_0_r. }
  destruct (run_attempt _ _ _ _ _ _ _) as [[r|] w2] eqn:Ea; [|done].
  apply run_attempt_log in Ea as (a & Hlog & Hidx & Hrsp & Hret & Hfrom & Hsent). rewrite Hl1 in Hlog. rewrite Hr1 in Hret.
  assert (at_status a = Some (resp_status r)) as Hst by (unfold at_status; by rewrite Hrsp).
  assert (∀ i b x, [a] !! i = Some b → at_resp b = Some x → answer_of (network (rs (first + i)%nat)) (at_sent b) x) as Hone.
  { intros [|i] b x; [|done]. intros [= <-] Hb. rewrite Nat.add_0_r. congruence. }
  destruct (should_retry retry (resp_status r)) eqn:Et, (Nat.ltb_spec 0 left) as [Hlt|Hlt]; cbn [andb].
  - intros Hrun. apply IH in Hrun as [l Hl]; [|cbn; apply wrap64_lt]. exists (a :: l).
    destruct Hl as [Hlg Hb Hs Hrt Hag Hfr Han Hsp]. cbn in Hlg, Hrt. split.
    + by rewrite Hlg, Hlog, <- app_assoc.
    + cbn. lia.
    + by constructor.
    + rewrite Hrt, Hret. replace (S left - 1)%nat with (S (left - 1)) by lia. cbn [take List.filter].
      rewrite Hst, Et. cbn [length]. unfold wrap64. rewrite N.Div0.add_mod_idemp_l. f_equal. lia.
    + intros [|i] b Hi Hlen; cbn in Hi, Hlen.
      * injection Hi as <-. exists (resp_status r). split; [done|].
        unfold should_retry in Et. by apply bool_decide_eq_true in Et.
      * apply (Hag i b Hi). lia.
    + intros [|i] b x Hi Hx; [by apply (Hone 0%nat b x)|]. cbn in Hi. rewrite <- Nat.add_succ_comm. by apply Hfr.
    + destruct l as [|b l]; [cbn in Han |- *; by rewrite Han|].
      change (last (a :: b :: l)) with (last (b :: l)).
      destruct (last (b :: l)) eqn:El; [exact Han|]. by apply last_None in El.
    + destruct Hsp as [Hsp|[Hsp|[w0 Hsp]]]; [auto|cbn; auto|]. right; right. exists w0.
      cbn [length]. by rewrite Nat.add_succ_r.
  - intros [= <- <-]. assert (left = 0)%nat as -> by lia. exists [a]. split; cbn; try (done || lia).
    + constructor; [exact Hsent|constructor].
    + by rewrite Hret, N.add_0_r, wrap64_small.
  - intros [= <- <-]. exists [a]. split; cbn; try (done || lia).
    + constructor; [exact Hsent|constructor].
    + rewrite Nat.sub_0_r. destruct left as [|left]; [lia|]. cbn [take List.filter].
      rewrite Hst, Et, ?take_nil. cbn. by rewrite Hret, N.add_0_r, wrap64_small.
    + left. unfold should_retry in Et. by apply bool_decide_eq_false in Et.
  - intros [= <- <-]. exists [a]. split; cbn; try (done || lia).
    + constructor; [exact Hsent|constructor].
    + rewrite Nat.sub_0_r. destruct left as [|left]; [|lia]. cbn. by rewrite Hret, N.add_0_r, wrap64_small.
Qed.

(** The number of attempts, and a request whose body cannot be read. *)
Lemma max_attempts_spec retry : retry_max retry < u32_max → max_attempts retry = retry_max retry + 1.
Proof. unfold max_attempts, sat_add32, u32_max. lia. Qed.

Definition handle_ctx (group : option string) (req : ProxyRequest) : Lb.PickCtx :=
  {| Lb.peer_ip := ProxyProto.sa_ip <$> pr_peer req; Lb.pick_headers := pr_headers req;
     Lb.pick_group := group |}.

(** C21: the attempts of a proxied request: at most [max + 1] of them, each with
    the client's method and its whole body; every attempt but the last ended
    in a status the location lists, a connection failure in the 502 it is
    turned into; each attempt's response is what its upstream answered, less
    hop-by-hop headers, or the server's 502; the client receives the response
    of the last attempt whole, or a 502 when there was none; and the attempts
    stop only for a status that is not listed, for the limit, or when no
    upstream can be picked. *)
Theorem proxy_retry_spec trace retry rs group req prefix w resp w' :
  retry_max retry < u32_max → lb_retries (pmetrics w) < u64_mod →
  handle trace retry rs group req prefix w = (Some resp, w') →
  ∃ l, log w' = log w ++ l ∧
    (length l ≤ S (N.to_nat (retry_max retry)))%nat ∧
    Forall (λ a, ∀ br, at_sent a = Some br →
      br_method br = pr_method req ∧ br_body br = pr_body req) l ∧
    (∀ i a, l !! i = Some a → (S i < length l)%nat →
       ∃ s, at_status a = Some s ∧ s ∈ on_status retry) ∧
    (∀ i a r, l !! i = Some a → at_resp a = Some r → answer_of (network (rs i)) (at_sent a) r) ∧
    match last l with
    | Some a => at_resp a = Some resp
    | None => Errors.response_502 = Some resp
    end ∧
    (resp_status resp ∉ on_status retry ∨ length l = S (N.to_nat (retry_max retry)) ∨
     (l = [] ∧ pr_body req = Failing) ∨
     ∃ w0, pick_upstream (rs (length l)) (handle_ctx group req) w0 = (None, w')).
Proof.
  intros Hm Hw. unfold handle. rewrite max_attempts_spec by done. fold (handle_ctx group req).
  destruct (N.eqb_spec (retry_max retry + 1) 1) as [He|He].
  - assert (retry_max retry = 0) as -> by lia.
    destruct (pick_upstream _ _ w) as [picked w1] eqn:Ep.
    assert (log w1 = log w) as Hl1.
    { unfold pick_upstream in Ep. destruct (Lb.pick _ _ _ _ _ _). by injection Ep as _ <-. }
    destruct picked as [idx|].
    + intros Ha. apply run_attempt_log in Ha as (a & Hlog & _ & Hst & _ & Hfrom & Hsent). exists [a].
      rewrite Hlog, Hl1. cbn. split_and!; try done; [by apply Forall_singleton| | |by auto].
      * intros i b _ Hlen. lia.
      * intros [|i] b x; [|done]. intros [= <-] Hb. congruence.
    + intros [= Hr <-]. exists []. cbn. rewrite app_nil_r. split_and!; try done; [lia|]. eauto 6.
  - destruct (pr_body req) as [collected|] eqn:Eb.
    + intros Hrun. apply retry_loop_spec in Hrun as [l [Hlog Hb Hs _ Hag Hfr Han Hst]]; [|done].
      replace (N.to_nat (retry_max retry + 1)) with (S (N.to_nat (retry_max retry))) in * by lia.
      exists l. split_and!; try done. destruct Hst as [?|[?|?]]; auto.
    + intros [= Hr <-]. exists []. cbn. rewrite app_nil_r. split_and!; try done; [lia|]. auto.
Qed.

(** * What a request leaves behind *)

(** What no request may change of an upstream, and of the handler. *)
Definition identity (u : Lb.Upstream) : string * N * option string * N :=
  (Lb.url u, Lb.weight u, Lb.group u, Lb.in_flight u).

Definition view (w : World) :=
  (identity <$> Lb.upstreams (pool w), Lb.weighted_ring (pool w), Lb.policy (pool w), length (inners w)).

(** A handler as it is built: a client for each upstream, a ring that agrees
    with the weights, and counters of 32 bits. *)
Record wf_world (w : World) : Prop := {
  wf_pool : Lb.pool_wf (pool w);
  wf_inners : length (inners w) = length (Lb.upstreams (pool w));
  wf_flight : Forall (λ u, Lb.in_flight u ≤ u32_max) (Lb.upstreams (pool w));
}.

Lemma build_ring_weights us : Lb.build_ring us =
  concat (imap (λ i n, replicate (N.to_nat n) i) (Lb.weight <$> us)).
Proof. unfold Lb.build_ring. by rewrite imap_fmap. Qed.

Lemma view_wf w w' : view w' = view w → wf_world w → wf_world w'.
Proof.
  intros [= Hid Hring _ Hlen] [Hp Hi Hf].
  pose proof (f_equal length Hid) as Hl. rewrite !length_fmap in Hl. split.
  - unfold Lb.pool_wf in *. rewrite Hring, Hp, !build_ring_weights. do 2 f_equal.
    apply (f_equal (fmap (λ x, x.1.1.2))) in Hid. by rewrite <- !list_fmap_compose in Hid.
  - congruence.
  - apply (f_equal (fmap snd)) in Hid. rewrite <- !list_fmap_compose in Hid. cbn in Hid.
    apply (Forall_fmap Lb.in_flight (λ n, n ≤ u32_max)).
    change (Forall (λ n, n ≤ u32_max) (snd ∘ identity <$> Lb.upstreams (pool w'))). rewrite Hid.
    by apply (Forall_fmap Lb.in_flight (λ n, n ≤ u32_max)).
Qed.

Lemma view_on_upstream idx f w :
  (∀ u, identity (f u) = identity u) → view (on_upstream idx f w) = view w.
Proof.
  intros Hf. unfold view. cbn. do 3 f_equal.
  apply list_eq. intros i. rewrite !list_lookup_fmap.
  destruct (decide (i = idx)) as [->|Hi]; [|by rewrite list_lookup_alter_ne].
  rewrite list_lookup_alter_eq. destruct (_ !! idx); cbn; [by rewrite Hf|done].
Qed.

Lemma view_pick r ctx w : view (pick_upstream r ctx w).2 = view w.
Proof.
  unfold pick_upstream.
  pose proof (Lb.pick_keeps ctx (now1 r) (now2 r) (nanos1 r) (nanos2 r) (pool w)) as (Hu & Hr & Hp).
  destruct (Lb.pick _ _ _ _ _ _) as [picked p]. unfold view. cbn in *. by rewrite Hu, Hr, Hp.
Qed.

Lemma view_note idx s w : view (note_attempt idx s w) = view w.
Proof. unfold view. cbn. by rewrite length_insert. Qed.

Lemma view_record_failure idx now_ms w : view (pool_record_failure idx now_ms w) = view w.
Proof.
  unfold pool_record_failure. destruct (_ !! idx) as [u|] eqn:Eu; [|done].
  destruct (Lb.record_failure _ _ u) as [u' ej] eqn:Er.
  assert (identity u' = identity u) as Hi.
  { unfold Lb.record_failure in Er. case_match; by injection Er as <- <-. }
  assert (identity <$> <[idx := u']> (Lb.upstreams (pool w)) = identity <$> Lb.upstreams (pool w)) as Hl.
  { rewrite list_fmap_insert, Hi. apply list_insert_id. by rewrite list_lookup_fmap, Eu. }
  unfold view. destruct ej; cbn; by rewrite Hl.
Qed.

Lemma view_outcome idx status now_ms w : view (record_outcome idx status now_ms w) = view w.
Proof. unfold record_outcome. case_match; [apply view_record_failure|by apply view_on_upstream]. Qed.

Lemma view_record idx d n resp w : view (record_upstream idx d n resp w) = view w.
Proof.
  unfold record_upstream. set (f := λ u, Lb.record_bytes _ _ _).
  change (view (on_upstream idx f w) = view w). by apply view_on_upstream.
Qed.

(** The in-flight guard: what it brackets changes no counter, so the guard's
    end restores the one it took. *)
Lemma view_guard idx w w1 :
  wf_world w → view w1 = view (on_upstream idx Lb.in_flight_inc w) →
  view (on_upstream idx Lb.in_flight_dec w1) = view w.
Proof.
  intros [_ _ Hf] Hv. unfold view in *. cbn in *. injection Hv as Hid Hring Hpol Hlen.
  rewrite Hring, Hpol, Hlen. do 3 f_equal.
  apply list_eq. intros i. rewrite !list_lookup_fmap.
  pose proof (f_equal (lookup i) Hid) as Hi. rewrite !list_lookup_fmap in Hi.
  destruct (decide (i = idx)) as [->|Hne].
  - rewrite list_lookup_alter_eq in Hi |- *. destruct (Lb.upstreams (pool w1) !! idx) as [u1|],
      (Lb.upstreams (pool w) !! idx) as [u|] eqn:Eu; try done.
    cbn in Hi |- *. injection Hi as Hu Hw Hg Hfl. unfold identity. cbn. rewrite Hu, Hw, Hg, Hfl. cbn.
    do 2 f_equal. apply Forall_lookup_1 with (2 := Eu) in Hf.
    apply (Lb.in_flight_balanced u Hf).
  - rewrite list_lookup_alter_ne in Hi by done. by rewrite list_lookup_alter_ne by done.
Qed.

Context `{!HttpLaws, !HttpTextLaws, !UrisLaws, !IpTextLaws}.

Lemma convert_total r : is_Some (convert_response r).
Proof. unfold convert_response. destruct (strip_total (resp_headers r)) as [h ->]. by eexists. Qed.

Lemma prepare_total up strip trace req prefix b :
  ∃ r, prepare_backend_request_inner up strip trace req prefix b = Some r ∧
    (uri_authority up = None → ∃ e, r = Err e).
Proof.
  unfold prepare_backend_request_inner. destruct (build_backend_uri _ _ _ _) as [u|e] eqn:Eu.
  - destruct (strip_total (pr_headers req)) as [h Eh].
    assert (∃ h0, (if b then Some (pr_headers req) else strip_hop_by_hop (pr_headers req)) = Some h0)
      as [h0 ->] by (destruct b; eauto).
    eexists. split; [reflexivity|]. intros Ha. unfold build_backend_uri in Eu. by rewrite Ha in Eu.
  - eexists. split; [reflexivity|]. eauto.
Qed.

(** Serving does not panic: a client without authority fails when its URI is
    built, before the authority is unwrapped. *)
Lemma serve_total trace net now c req prefix :
  is_Some Errors.response_502 → is_Some (s_resp (serve trace net now c req prefix)).
Proof.
  intros He. pose proof convert_total as Hc.
  destruct (prepare_total (upstream c) (strip_prefix c) trace req prefix false) as (r & Hr & Hau).
  unfold serve, serve_with_proxy_protocol, serve_pooled, send_http1. rewrite Hr.
  destruct r as [br|e]; repeat (case_match; try done); cbn [s_resp answered]; (apply Hc || by destruct Hau).
Qed.

Lemma run_attempt_total trace r idx req prefix n w :
  is_Some Errors.response_502 → wf_world w → (idx < length (Lb.upstreams (pool w)))%nat →
  ∃ resp w', run_attempt trace r idx req prefix n w = (Some resp, w') ∧ view w' = view w.
Proof.
  intros He Hwf Hi. unfold run_attempt.
  destruct (lookup_lt_is_Some_2 (inners (on_upstream idx Lb.in_flight_inc w)) idx) as [c Ec].
  { cbn. by rewrite (wf_inners _ Hwf). }
  rewrite Ec. destruct (serve_total trace (network r) (instant r) c req prefix He) as [resp Er].
  rewrite Er. eexists _, _. split; [reflexivity|].
  apply view_guard; [done|]. by rewrite view_outcome, view_record, view_note.
Qed.

Lemma pick_upstream_spec r ctx w picked w' :
  wf_world w → pick_upstream r ctx w = (picked, w') →
  wf_world w' ∧ view w' = view w ∧
    match picked with Some i => (i < length (Lb.upstreams (pool w')))%nat | None => True end.
Proof.
  intros Hwf Hp. pose proof (view_pick r ctx w) as Hv. rewrite Hp in Hv. cbn in Hv.
  pose proof (view_wf _ _ Hv Hwf) as Hwf'. split_and!; [done|done|].
  destruct picked as [i|]; [|done]. rewrite <- (wf_inners _ Hwf').
  injection Hv as _ _ _ ->. rewrite (wf_inners _ Hwf).
  pose proof (Lb.pick_correct ctx (now1 r) (now2 r) (nanos1 r) (nanos2 r) (pool w) (wf_pool _ Hwf)) as Hs.
  unfold pick_upstream in Hp. destruct (Lb.pick _ _ _ _ _ _) as [o p]. injection Hp as -> <-. cbn in Hs.
  destruct Hs as (u & Hu & _). by eapply lookup_lt_Some.
Qed.

Lemma retry_loop_total trace retry rs ctx req prefix collected left first last_resp w :
  is_Some Errors.response_502 → wf_world w →
  ∃ resp w', retry_loop trace retry left first rs ctx req prefix collected last_resp w =
    (Some resp, w') ∧ view w' = view w.
Proof.
  intros [r502 He]. revert first last_resp w.
  induction left as [|left IH]; intros first last_resp w Hwf; cbn [retry_loop].
  { rewrite He. destruct last_resp; by eexists _, _. }
  destruct (pick_upstream (rs first) ctx w) as [picked w1] eqn:Ep.
  destruct (pick_upstream_spec _ _ _ _ _ Hwf Ep) as (Hwf1 & Hv1 & Hi).
  destruct picked as [idx|]; [|rewrite He; destruct last_resp; by eexists _, _].
  destruct (run_attempt_total trace (rs first) idx (with_body req collected) prefix (str_len collected) w1)
    as (resp & w2 & -> & Hv2); [by eexists|done..|].
  destruct (should_retry _ _ && _); [|exists resp, w2; split; [done|congruence]].
  destruct (IH (S first) (Some resp) (count_retry w2)) as (resp' & w' & Hr & Hv);
    [by apply (view_wf w1)|]. exists resp', w'. split; [done|].
  rewrite Hv. transitivity (view w2); [done|congruence].
Qed.

(** C22: a request that is not an upgrade, each attempt of which is answered or
    fails, is answered: whatever the pool picks and the upstreams answer, and
    whichever attempts fail and how, the handler returns a response without
    panicking; it leaves every upstream's in-flight counter, raised during
    each attempt, and its address as it found them, and keeps the pool and its
    clients well formed.  Health and the other counters of the pool move. *)
Theorem proxy_handle_total trace retry rs group req prefix w :
  is_Some Errors.response_502 → wf_world w →
  ∃ resp w', handle trace retry rs group req prefix w = (Some resp, w') ∧
    wf_world w' ∧ Lb.in_flight <$> Lb.upstreams (pool w') = Lb.in_flight <$> Lb.upstreams (pool w) ∧
    Lb.url <$> Lb.upstreams (pool w') = Lb.url <$> Lb.upstreams (pool w).
Proof.
  intros He Hwf.
  assert (∃ resp w', handle trace retry rs group req prefix w = (Some resp, w') ∧ view w' = view w)
    as (resp & w' & Hh & Hv).
  { destruct He as [r He]. unfold handle. destruct (_ =? 1).
    - destruct (pick_upstream _ _ w) as [picked w1] eqn:Ep.
      destruct (pick_upstream_spec _ _ _ _ _ Hwf Ep) as (Hwf1 & Hv1 & Hi).
      destruct picked as [idx|]; [|rewrite He; by eexists _, _].
      destruct (run_attempt_total trace (rs 0%nat) idx req prefix (content_length (pr_headers req)) w1)
        as (resp & w2 & -> & Hv2); [by eexists|done..|]. exists resp, w2. split; [done|congruence].
    - destruct (pr_body req); [|rewrite He; by eexists _, _].
      apply retry_loop_total; [by eexists|done]. }
  exists resp, w'. pose proof (view_wf _ _ Hv Hwf). injection Hv as Hid _ _ _. split_and!; [done|done| |].
  - apply (f_equal (fmap snd)) in Hid. by rewrite <- !list_fmap_compose in Hid.
  - apply (f_equal (fmap (λ x, x.1.1.1))) in Hid. by rewrite <- !list_fmap_compose in Hid.
Qed.

(** * Tunnels *)

Lemma serve_upgrade_tunnel trace tunnel c req prefix marker resp mode :
  serve_upgrade trace tunnel c req prefix marker = (resp, Some mode) →
  mode = ws_mode c marker ∧ inbound marker ≠ InH3.
Proof.
  unfold serve_upgrade. repeat case_match; intros; simplify_eq/=; try done.
  all: split; [done|]; by eapply bool_decide_eq_false_1.
Qed.

(** C23: a WebSocket tunnel bridges the two framings: the frames a client sends
    under its protocol's rule (masked over HTTP/1.1, bare over HTTP/2), in any
    cut into reads, reach the upstream with the same opcodes and data in the
    same order, masked exactly when the upstream speaks HTTP/1.1. *)
Theorem bridged_frames_conform random_mask write_ok trace tunnel c req prefix marker resp mode chunks fs ss :
  (∀ n, String.length (random_mask n) = 4%nat) → (∀ a b, write_ok a b = true) →
  serve_upgrade trace tunnel c req prefix marker = (resp, Some mode) →
  is_websocket marker = true →
  Forall2 Ws.wire fs ss → String.concat "" chunks = String.concat "" ss → Forall (λ s, s ≠ "") chunks →
  Forall (λ f, is_Some (Ws.key f) ↔ inbound_masks marker = true) fs →
  ∃ fs' ss', pump_client random_mask write_ok mode chunks = Some (Ok (), String.concat "" ss') ∧
    Forall2 Ws.wire fs' ss' ∧
    (λ f, (Ws.op f, Ws.data f)) <$> fs' = (λ f, (Ws.op f, Ws.data f)) <$> fs ∧
    Forall (λ f, is_Some (Ws.key f) ↔ outbound_is_h2c c = false) fs'.
Proof.
  intros Hm Hok Hs Hws Hw Hc Hne Hk. apply serve_upgrade_tunnel in Hs as [-> _].
  unfold ws_mode. rewrite Hws. cbn [andb].
  destruct (inbound_masks marker) eqn:Em, (outbound_is_h2c c) eqn:Eo; cbn [Bool.eqb negb pump_client].
  2, 3: exists fs, ss; rewrite Hc; split_and!; try done;
    eapply Forall_impl; [exact Hk|]; intros f Hf; cbn in Hf |- *; naive_solver.
  1: destruct (Ws.ws_translation_faithful random_mask Hm write_ok Hok Ws.Unmask chunks fs ss)
    as (fs' & Hr & Hw' & Hd & Hk'); try done.
  2: destruct (Ws.ws_translation_faithful random_mask Hm write_ok Hok Ws.Mask chunks fs ss)
    as (fs' & Hr & Hw' & Hd & Hk'); try done.
  all: exists fs', (Ws.put_frame <$> fs'); split_and!; try done;
    eapply Forall_impl; [exact Hk'|]; intros f Hf; cbn in Hf |- *; naive_solver.
Qed.

(** An upgrade to a Unix-socket upstream is sent to TCP port 80 of the host
    the client's fixed URL names, not to the socket. *)
Lemma unix_upgrade_goes_to_tcp h3_new path strip pp scheme u :
  uri_parse "http://localhost" = Some u → uri_scheme u = Some "http" →
  uri_host u = Some "localhost" → uri_port_u16 u = None →
  ∃ c, new_inner h3_new ("unix:" +:+ path) strip pp scheme = Some (Ok c) ∧
    unix_path c = Some path ∧ h1_tunnel_target (upstream c) = Ok (TunnelTcp "localhost" 80).
Proof.
  intros Hu Hs Hh Hp. unfold new_inner. rewrite strip_prefix_app, Hu.
  eexists. split; [reflexivity|]. split; [reflexivity|]. unfold h1_tunnel_target. cbn.
  by rewrite Hs, Hh, Hp.
Qed.

End facts.

(** * Two upstreams, one of which is down *)

Module Demo.
#[local] Existing Instance ProxyReq.Demo.parts_uris.
#[local] Existing Instance ProxyReq.Demo.parts_uris_laws.
#[local] Existing Instance ProxyProto.dec_ips.
#[local] Existing Instance ProxyProto.dec_ips_laws.
#[local] Existing Instance Lb.zero_hasher.

#[local] Instance id_digest : WsDigest := {| sha1_base64 s := s |}.

Definition inner (scheme : ProxyUpstreamScheme) (authority : string) : InnerProxyClient :=
  {| client := ClientHttp;
     upstream := {| ProxyReq.Demo.u_scheme := "http"; ProxyReq.Demo.u_authority := authority;
                    ProxyReq.Demo.u_path := "/"; ProxyReq.Demo.u_query := None |};
     strip_prefix := false; proxy_protocol := None; unix_path := None; h3 := h3_empty;
     auto_h3_enabled := false; upgrade_scheme := scheme |}.

Definition world (policy : Lb.LbPolicy) : World :=
  {| pool := Lb.new_pool [Lb.new_upstream "http://a" 1 None; Lb.new_upstream "http://b" 1 None] policy None
               Lb.passive_default Lb.lb_metrics0;
     inners := [inner Auto "a"; inner Auto "b"];
     pmetrics := {| lb_retries := 0; connect_errors := 0; upstream_bytes_out := 0; upstream_bytes_in := 0;
                    core := Metrics.new |};
     log := [] |}.

Definition answer (status : N) : Reply :=
  Answer {| resp_status := status; resp_headers := hm_new; resp_body := Full "" |}.

(** The upstream ["a"] answers with [bad]. *)
Definition net (bad : Reply) : Network :=
  {| n_client br := if String.eqb (ProxyReq.Demo.u_authority (br_uri br)) "a" then bad else answer 200;
     n_h3 _ _ := None; n_h3_new _ := false; n_connect _ := true; n_write _ := true; n_tls _ := true;
     n_http1 _ := None |}.

Definition readings (bad : Reply) (n : nat) : Readings :=
  {| now1 := 5; now2 := 5; nanos1 := 0; nanos2 := 0; network := net bad; instant := 0; elapsed := 0;
     fail_ms := 5 |}.

Definition retry2 : RetryConfig := {| retry_max := 2; on_status := [503] |}.
Definition get : ProxyRequest := ProxyReq.Demo.request [].

(** The statuses of the attempts, the upstreams they went to, and the answer. *)
Definition outcome (r : option HttpResponse * World) : option N * list (nat * option N) :=
  (resp_status <$> fst r, (λ a, (at_upstream a, at_status a)) <$> log (snd r)).

#[local] Abbreviation retried_run :=
  (handle None retry2 (readings (answer 503)) None get "/" (world Lb.RoundRobin)).

Lemma pair_of_fst {A B C} (f : A → C) (p : option A * B) c :
  f <$> fst p = Some c → ∃ a, p = (Some a, snd p) ∧ f a = c.
Proof. destruct p as [[a|] b]; cbn; [|done]. intros [= <-]. by exists a. Qed.

Lemma proxy_retry_spec_witness :
  ∃ l resp, log (snd retried_run) = log (world Lb.RoundRobin) ++ l ∧ (length l ≤ 3)%nat ∧
    (∀ i a, l !! i = Some a → (S i < length l)%nat → ∃ s, at_status a = Some s ∧ s ∈ [503]) ∧
    match last l with
    | Some a => at_resp a = Some resp
    | None => Errors.response_502 = Some resp
    end ∧ resp_status resp = 200.
Proof.
  destruct (pair_of_fst resp_status retried_run 200) as (resp & E & Hst); [vm_compute; reflexivity|].
  pose proof (proxy_retry_spec None retry2 (readings (answer 503)) None get "/" (world Lb.RoundRobin)
    resp (snd retried_run) eq_refl eq_refl E) as (l & Hl & Hb & _ & Ha & _ & Hr & _).
  exists l, resp. split; [exact Hl|]. split; [exact Hb|]. split; [exact Ha|]. split; [exact Hr|exact Hst].
Defined.

Lemma proxy_handle_total_witness :
  ∃ resp w', handle None retry2 (readings ConnectError) None get "/" (world Lb.RoundRobin) = (Some resp, w') ∧
    Lb.in_flight <$> Lb.upstreams (pool w') = [0; 0].
Proof.
  destruct (proxy_handle_total None retry2 (readings ConnectError) None get "/" (world Lb.RoundRobin))
    as (resp & w' & Hh & _ & Hf & _).
  - by eexists.
  - split; [reflexivity|reflexivity|]. repeat constructor; vm_compute; discriminate.
  - exists resp, w'. split; [exact Hh|]. rewrite Hf. reflexivity.
Defined.

(** The retry goes to the next upstream under round robin. *)
Lemma retry_moves_on : outcome retried_run = (Some 200, [(0%nat, Some 503); (1%nat, Some 200)]).
Proof. vm_compute. reflexivity. Qed.

(** Under the address hash every attempt goes to the upstream that failed. *)
Lemma retry_same_upstream :
  outcome (handle None retry2 (readings (answer 503)) None get "/" (world Lb.IpHash)) =
    (Some 503, [(0%nat, Some 503); (0%nat, Some 503); (0%nat, Some 503)]).
Proof. vm_compute. reflexivity. Qed.

(** A connect failure is a 502: without 502 among the listed statuses it is
    not retried, though the other upstream would answer. *)
Lemma connect_failure_not_retried :
  outcome (handle None retry2 (readings ConnectError) None get "/" (world Lb.RoundRobin)) =
    (Some 502, [(0%nat, Some 502)]).
Proof. vm_compute. reflexivity. Qed.

(** A WebSocket client on HTTP/1.1 and an upstream that speaks cleartext
    HTTP/2. *)
Definition websocket : UpgradeRequest :=
  {| protocol := "websocket"; inbound := InH1; ws_key := Some "k" |}.

Definition tunnel (headers : header_map) (t : TunnelTarget) (br : BackendReq) : option (N * header_map) :=
  Some (match t with TunnelTcp _ _ => 200 | TunnelUnix _ => 404 end, headers).

Lemma bridged_frames_conform_witness :
  ∃ resp mode fs' ss',
    serve_upgrade None (tunnel []) (inner H2c "a") get "/" websocket = (resp, Some mode) ∧
    pump_client Ws.Demo.no_mask (λ _ _, true) mode Ws.Demo.cuts = Some (Ok (), String.concat "" ss') ∧
    Forall2 Ws.wire fs' ss' ∧
    (λ f, (Ws.op f, Ws.data f)) <$> fs' = [(ascii_of_N 129, "Hello"); (ascii_of_N 137, "")].
Proof.
  eexists _, _.
  destruct (bridged_frames_conform Ws.Demo.no_mask (λ _ _, true) None (tunnel []) (inner H2c "a") get "/"
    websocket (switched_response (inner H2c "a") websocket []) (Some Ws.Unmask) Ws.Demo.cuts
    [Ws.Demo.hello; Ws.Demo.ping] [Ws.put_frame Ws.Demo.hello; Ws.put_frame Ws.Demo.ping])
    as (fs' & ss' & Hp & Hw & Hd & _).
  - reflexivity.
  - reflexivity.
  - reflexivity.
  - reflexivity.
  - repeat constructor; apply Ws.put_frame_wire; vm_compute; reflexivity.
  - reflexivity.
  - repeat constructor; vm_compute; discriminate.
  - repeat constructor; by eexists.
  - exists fs', ss'. split; [reflexivity|]. split; [exact Hp|]. split; [exact Hw|exact Hd].
Defined.

(** The answer to an upgrade keeps one line of a header that has several. *)
Lemma upgrade_collapses_cookies :
  (r ← fst (serve_upgrade None (tunnel [("set-cookie", "a=1"); ("set-cookie", "b=2")]) (inner H2c "a") get
              "/" websocket);
   Some (hm_get_all (resp_headers r) "set-cookie")) = Some ["b=2"].
Proof. vm_compute. reflexivity. Qed.

End Demo.

End Proxy.
