(* ===== verification/Jwt.v ===== *)
(** Session tokens ([src/jwt.rs]): extraction from the request, validation with
    the cache of verified tokens, issuance and the session cookie.

    The cryptographic crates, the JSON reader and writer and the bounded cache
    of the [lru] crate are classes of operations with their documented laws. *)
From S2P Require Import Prelude RustStr Http Auth Host.

(** * Interfaces *)

(** A [serde_json::Value]; a number is a [u64], a negative [i64] or a
    floating-point number, kept as its text. *)
Inductive json :=
  | JNull
  | JBool (b : bool)
  | JU64 (n : N)
  | JI64 (z : Z)
  | JNumber (text : string)
  | JStr (s : string)
  | JArr (l : list json)
  | JObj (m : gmap string json).

Class Json := {
  json_parse : string → option json;
  json_print : json → string;
}.

(** The values the program prints: objects of texts, [u64]s and arrays of
    texts. *)
Definition text_value (v : json) : bool := match v with JStr _ => true | _ => false end.
Definition flat_value (v : json) : bool :=
  match v with
  | JStr _ => true
  | JU64 n => n <=? u64_max
  | JArr l => forallb text_value l
  | _ => false
  end.
Definition flat_object (v : json) : Prop :=
  match v with JObj m => map_Forall (λ _ x, flat_value x = true) m | _ => False end.

(** Printing such a value and reading it back gives the value. *)
Class JsonLaws `{Json} : Prop := {
  json_parse_print v : flat_object v → json_parse (json_print v) = Some v;
}.

(** URL-safe base64 without padding. *)
Class Base64Url := {
  b64_encode : string → string;
  b64_decode : string → option string;
}.

Definition b64url_char (c : ascii) : bool :=
  let n := N_of_ascii c in
  ((48 <=? n) && (n <=? 57)) || ((65 <=? n) && (n <=? 90)) || ((97 <=? n) && (n <=? 122)) ||
  (n =? 45) || (n =? 95).

Class Base64UrlLaws `{Base64Url} : Prop := {
  b64_decode_encode s : b64_decode (b64_encode s) = Some s;
  b64_encode_chars s : str_all b64url_char (b64_encode s) = true;
}.

(** SHA-256 and ECDSA over P-256. *)
Class Es256 := {
  signing_key : Type;
  verifying_key : Type;
  signature : Type;
  sha256 : string → string;
  key_of : signing_key → verifying_key;
  point_x : verifying_key → string;
  point_y : verifying_key → string;
  sig_from_slice : string → option signature;
  sig_to_bytes : signature → string;
  sign_digest : signing_key → string → signature;
  verify_digest : verifying_key → string → signature → bool;
}.

Class Es256Laws `{Es256} : Prop := {
  sig_from_to_bytes s : sig_from_slice (sig_to_bytes s) = Some s;
  verify_sign k d : verify_digest (key_of k) d (sign_digest k d) = true;
}.

(** [lru::LruCache] with a capacity. *)
Class BoundedLru (V : Type) := {
  blru : Type;
  blru_new : N → blru;
  blru_iter : blru → list (string * V);
  blru_get : blru → string → option V * blru;
  blru_put : blru → string → V → blru;
  blru_pop : blru → string → blru;
}.

(** What a client of the cache may rely on: it answers what was put, and only
    entries that were put are in it. *)
Class BoundedLruLaws V `{BoundedLru V} : Prop := {
  blru_new_iter cap : blru_iter (blru_new cap) = [];
  blru_get_in m k v : (blru_get m k).1 = Some v → (k, v) ∈ blru_iter m;
  blru_get_iter m k e : e ∈ blru_iter (blru_get m k).2 → e ∈ blru_iter m;
  blru_put_iter m k v e : e ∈ blru_iter (blru_put m k v) → e = (k, v) ∨ e ∈ blru_iter m;
  blru_pop_iter m k e : e ∈ blru_iter (blru_pop m k) → e ∈ blru_iter m;
}.

Module Jwt.
Import Auth.

Inductive JwtResult :=
  | Valid (id : Identity)
  | Invalid
  | Expired
  | NotMine.

Definition JWT_CACHE_CAPACITY : N := 1024.

Record CachedToken := {
  ct_identity : Identity;
  ct_exp : N;
}.

Section jwt.
Context `{Http} `{Json} `{Base64Url} `{Es256} `{BoundedLru CachedToken}.

Record JwtConfig := {
  cookie_name : string;
  validity_secs : N;
}.

Record JwtManager := {
  skey : signing_key;
  vkey : verifying_key;
  kid : string;
  config : JwtConfig;
  has_inner : bool;
}.

(** * JSON accessors *)

Definition json_get (v : json) (k : string) : option json :=
  match v with JObj m => m !! k | _ => None end.
Definition as_str (v : json) : option string := match v with JStr s => Some s | _ => None end.
Definition as_u64 (v : json) : option N := match v with JU64 n => Some n | _ => None end.
Definition as_array (v : json) : option (list json) := match v with JArr l => Some l | _ => None end.

Definition get_text (v : json) (k : string) : option string := x ← json_get v k; as_str x.

(** * Validation *)

(** [token.splitn(3, '.')] when it has three parts. *)
Definition three_parts (token : string) : option (string * string * string) :=
  '(a, r) ← split_once "." token; '(b, c) ← split_once "." r; Some (a, b, c).

Definition groups_of (payload : json) : list string :=
  match (x ← json_get payload "groups"; as_array x) with
  | Some arr => omap as_str arr
  | None => []
  end.

(** The claims of a payload: the expiry and, unless it has passed, the
    identity.  [inl] is the result of a payload that is refused. *)
Definition read_claims (payload : json) (now : N) : JwtResult + Identity * N :=
  match (x ← json_get payload "exp"; as_u64 x) with
  | None => inl Invalid
  | Some exp =>
      if exp <=? now then inl Expired
      else match get_text payload "sub" with
           | None => inl Invalid
           | Some username =>
               inr ({| id_username := username; id_groups := groups_of payload |}, exp)
           end
  end.

(** The slow path of [validate_token], from the parts of the token. *)
Definition verify_token (m : JwtManager) (now : N) (token : string) : JwtResult + Identity * N :=
  match three_parts token with
  | None => inl Invalid
  | Some (header_b64, payload_b64, sig_b64) =>
      match b64_decode header_b64 ≫= json_parse with
      | None => inl Invalid
      | Some header =>
          if negb (bool_decide (get_text header "alg" = Some "ES256")) then inl Invalid
          else if negb (bool_decide (get_text header "kid" = Some (kid m))) then inl NotMine
          else match b64_decode sig_b64 ≫= sig_from_slice with
               | None => inl Invalid
               | Some sig =>
                   if negb (verify_digest (vkey m) (sha256 (header_b64 +:+ "." +:+ payload_b64)) sig)
                   then inl Invalid
                   else match b64_decode payload_b64 ≫= json_parse with
                        | None => inl Invalid
                        | Some payload => read_claims payload now
                        end
               end
      end
  end.

(** [now_secs] gives [None] for a clock before the epoch. *)
Definition validate_token (m : JwtManager) (clock : option N) (token : string) (cache : blru)
    : JwtResult * blru :=
  let key := sha256 token in
  match clock with
  | None => (Invalid, cache)
  | Some now =>
      let '(found, cache) := blru_get cache key in
      match found with
      | Some cached =>
          if now <? ct_exp cached then (Valid (ct_identity cached), cache)
          else (Expired, blru_pop cache key)
      | None =>
          match verify_token m now token with
          | inl r => (r, cache)
          | inr (id, exp) =>
              (Valid id, blru_put cache key {| ct_identity := id; ct_exp := exp |})
          end
      end
  end.

Definition cookie_token (cookie_name cookie_str : string) : option string :=
  head (omap (λ part, strip_prefix (cookie_name +:+ "=") (trim part)) (split ";" cookie_str)).

Definition extract_token (headers : header_map) (cookie_name : string) : option string :=
  match (s ← get_str headers COOKIE; cookie_token cookie_name s) with
  | Some val => Some val
  | None => s ← get_str headers AUTHORIZATION; strip_prefix "Bearer " s
  end.

Definition validate (m : JwtManager) (clock : option N) (headers : header_map) (cache : blru)
    : option JwtResult * blru :=
  match extract_token headers (cookie_name (config m)) with
  | None => (None, cache)
  | Some token =>
      match validate_token m clock token cache with
      | (NotMine, cache) => (None, cache)
      | (other, cache) => (Some other, cache)
      end
  end.

(** * Issuance *)

Definition token_header (m : JwtManager) : json :=
  JObj {[ "alg" := JStr "ES256"; "typ" := JStr "JWT"; "kid" := JStr (kid m) ]}.

Definition token_payload (id : Identity) (now exp : N) : json :=
  JObj {[ "sub" := JStr (id_username id); "groups" := JArr (JStr <$> id_groups id);
          "iat" := JU64 now; "exp" := JU64 exp; "iss" := JStr "hypershunt" ]}.

(** The expiry is added in [u64]; the release build wraps. *)
Definition issue (m : JwtManager) (clock : option N) (id : Identity) : Result string :=
  now ← ok_or clock "system clock error";
  let exp := wrap64 (now + validity_secs (config m)) in
  let h := b64_encode (json_print (token_header m)) in
  let p := b64_encode (json_print (token_payload id now exp)) in
  let signed_input := h +:+ "." +:+ p in
  let sig := sign_digest (skey m) (sha256 signed_input) in
  Ok (signed_input +:+ "." +:+ b64_encode (sig_to_bytes sig)).

Definition make_set_cookie (m : JwtManager) (clock : option N) (id : Identity) (is_tls : bool)
    : Result string :=
  token ← issue m clock id;
  let cookie := cookie_name (config m) +:+ "=" +:+ token +:+
    "; Path=/; HttpOnly; SameSite=Strict; Max-Age=" +:+ dec (validity_secs (config m)) in
  Ok (if is_tls then cookie +:+ "; Secure" else cookie).

Definition is_session_mode (m : JwtManager) : bool := has_inner m.

(** * Keys *)

Definition DQ : string := String (ascii_of_N 34) "".

(** [compute_kid]: the RFC 7638 thumbprint. *)
Definition compute_kid (k : verifying_key) : string :=
  let x := b64_encode (point_x k) in
  let y := b64_encode (point_y k) in
  let field (n v : string) := DQ +:+ n +:+ DQ +:+ ":" +:+ DQ +:+ v +:+ DQ in
  let input := "{" +:+ field "crv" "P-256" +:+ "," +:+ field "kty" "EC" +:+ "," +:+
               field "x" x +:+ "," +:+ field "y" y +:+ "}" in
  b64_encode (sha256 input).

(** The fields [load_or_generate] derives from the key it read or made. *)
Definition from_key (sk : signing_key) (cfg : JwtConfig) (inner : bool) : JwtManager :=
  {| skey := sk; vkey := key_of sk; kid := compute_kid (key_of sk); config := cfg;
     has_inner := inner |}.

Definition jwks (m : JwtManager) : json :=
  JObj {[ "keys" := JArr [JObj {[ "kty" := JStr "EC"; "crv" := JStr "P-256"; "use" := JStr "sig";
    "alg" := JStr "ES256"; "kid" := JStr (kid m);
    "x" := JStr (b64_encode (point_x (vkey m))); "y" := JStr (b64_encode (point_y (vkey m))) ]} ] ]}.
Definition jwks_json (m : JwtManager) : string := json_print (jwks m).

(** * Soundness *)

(** A token of this server's key that names an identity until [exp]: three
    parts, a header with our algorithm and key, a signature that verifies, and
    a payload with the claims. *)
Definition genuine (m : JwtManager) (token : string) (id : Identity) (exp : N) : Prop :=
  ∃ h p s header sig payload,
    three_parts token = Some (h, p, s) ∧
    b64_decode h ≫= json_parse = Some header ∧
    get_text header "alg" = Some "ES256" ∧ get_text header "kid" = Some (kid m) ∧
    b64_decode s ≫= sig_from_slice = Some sig ∧
    verify_digest (vkey m) (sha256 (h +:+ "." +:+ p)) sig = true ∧
    b64_decode p ≫= json_parse = Some payload ∧
    json_get payload "exp" = Some (JU64 exp) ∧
    get_text payload "sub" = Some (id_username id) ∧ id_groups id = groups_of payload.

Lemma verify_genuine m now token id exp :
  genuine m token id exp →
  verify_token m now token = if exp <=? now then inl Expired else inr (id, exp).
Proof.
  intros (h & p & s & header & sig & payload & Hparts & Hh & Ea & Ek & Hs & Ev & Hp & Ex & Eu & Eg).
  unfold verify_token, read_claims. rewrite Hparts, Hh, Hs, Hp.
  rewrite !bool_decide_true by done. cbn [negb]. rewrite Ev. cbn [negb].
  rewrite Ex. cbn [mbind option_bind as_u64]. destruct (exp <=? now); [done|].
  rewrite Eu. do 3 f_equal. destruct id; cbn in *. by subst.
Qed.

Lemma verify_token_genuine m now token id exp :
  verify_token m now token = inr (id, exp) → genuine m token id exp ∧ now < exp.
Proof.
  unfold verify_token, genuine, read_claims.
  destruct (three_parts token) as [[[h p] s]|] eqn:E3; [|done].
  destruct (b64_decode h ≫= json_parse) as [header|] eqn:Eh; [|done].
  case_bool_decide as Ea; [|done]. case_bool_decide as Ek; [|done]. cbn [negb].
  destruct (b64_decode s ≫= sig_from_slice) as [sig|] eqn:Es; [|done].
  destruct (verify_digest _ _ sig) eqn:Ev; [|done]. cbn [negb].
  destruct (b64_decode p ≫= json_parse) as [payload|] eqn:Ep; [|done].
  destruct (json_get payload "exp") as [x|] eqn:Ex; cbn [mbind option_bind]; [|done].
  destruct x as [| |n| | | | |]; cbn [as_u64]; try done.
  destruct (N.leb_spec n now) as [|Hn]; [done|].
  destruct (get_text payload "sub") as [u|] eqn:Eu; [|done].
  intros [= <- <-]. split; [|done]. exists h, p, s, header, sig, payload. done.
Qed.

(** Every cached identity is that of a genuine token with the cached digest and
    expiry. *)
Definition cache_sound (m : JwtManager) (cache : blru) : Prop :=
  ∀ key c, (key, c) ∈ blru_iter cache →
    ∃ token, sha256 token = key ∧ genuine m token (ct_identity c) (ct_exp c).

Context `{!BoundedLruLaws CachedToken}.

Lemma cache_sound_sub m c c' :
  cache_sound m c → (∀ e, e ∈ blru_iter c' → e ∈ blru_iter c) → cache_sound m c'.
Proof. intros Hc Hsub key e Hin. apply Hc. by apply Hsub. Qed.

Lemma validate_token_sound m clock token cache r cache' :
  cache_sound m cache → validate_token m clock token cache = (r, cache') →
  cache_sound m cache' ∧
  (∀ id, r = Valid id → ∃ now exp t, clock = Some now ∧ now < exp ∧
     sha256 t = sha256 token ∧ genuine m t id exp).
Proof.
  intros Hc. unfold validate_token. destruct clock as [now|]; [|intros [= <- <-]; done].
  destruct (blru_get cache (sha256 token)) as [found c1] eqn:Eg.
  assert (cache_sound m c1) as Hc1.
  { eapply cache_sound_sub; [done|]. intros e He. apply (blru_get_iter _ (sha256 token)).
    by rewrite Eg. }
  destruct found as [cached|].
  - assert ((sha256 token, cached) ∈ blru_iter cache) as Hin
      by (apply blru_get_in; by rewrite Eg).
    apply Hc in Hin as (t & Et & Hgen).
    destruct (N.ltb_spec now (ct_exp cached)); intros [= <- <-].
    + split; [done|]. intros id [= <-]. by exists now, (ct_exp cached), t.
    + split; [|done]. eapply cache_sound_sub; [done|]. intros e He. by eapply blru_pop_iter.
  - destruct (verify_token m now token) as [r0|[id exp]] eqn:Ev; intros [= <- <-].
    + split; [done|]. intros id ->. exfalso. revert Ev. unfold verify_token, read_claims.
      repeat case_match; congruence.
    + apply verify_token_genuine in Ev as [Hgen Hn]. split.
      * intros key c [[= -> ->]|Hin]%blru_put_iter; [|by apply Hc1]. by exists token.
      * intros id' [= <-]. by exists now, exp, token.
Qed.

(** Validations in a row, at the times and with the headers given. *)
Fixpoint validate_all (m : JwtManager) (reqs : list (option N * header_map)) (cache : blru) : blru :=
  match reqs with
  | [] => cache
  | (clock, headers) :: reqs' => validate_all m reqs' (validate m clock headers cache).2
  end.

Lemma validate_sound_step m clock headers cache :
  cache_sound m cache → cache_sound m (validate m clock headers cache).2.
Proof.
  intros Hc. unfold validate. destruct (extract_token _ _) as [token|]; [|done].
  destruct (validate_token m clock token cache) as [r c] eqn:E.
  destruct (validate_token_sound _ _ _ _ _ _ Hc E) as [Hc' _]. by destruct r.
Qed.

Lemma validate_all_sound m reqs cache :
  cache_sound m cache → cache_sound m (validate_all m reqs cache).
Proof.
  revert cache. induction reqs as [|[clock headers] reqs IH]; intros cache Hc; [done|].
  cbn. by apply IH, validate_sound_step.
Qed.

(** C18: a session is recognised only for a genuine token: after any sequence of
    validations from an empty cache, [Valid id] means the request carried a
    token whose digest is that of a token with our algorithm and key id, a
    verifying signature and the claims of [id], and that has not expired. *)
Theorem jwt_valid_sound m reqs clock headers id :
  (validate m clock headers (validate_all m reqs (blru_new JWT_CACHE_CAPACITY))).1 = Some (Valid id) →
  ∃ token now exp t, extract_token headers (cookie_name (config m)) = Some token ∧
    clock = Some now ∧ now < exp ∧ sha256 t = sha256 token ∧ genuine m t id exp.
Proof.
  set (cache := validate_all _ _ _).
  assert (cache_sound m cache) as Hc.
  { apply validate_all_sound. intros key c Hin. rewrite blru_new_iter in Hin. set_solver. }
  unfold validate. destruct (extract_token _ _) as [token|]; [|done].
  destruct (validate_token m clock token cache) as [r c] eqn:E.
  destruct (validate_token_sound _ _ _ _ _ _ Hc E) as [_ Hv].
  intros Hr. assert (r = Valid id) as -> by (destruct r; cbn in Hr; congruence).
  destruct (Hv id eq_refl) as (now & exp & t & ? & ? & ? & ?).
  exists token, now, exp, t. done.
Qed.

(** ** Issuing *)

Context `{!HttpLaws, !JsonLaws, !Base64UrlLaws, !Es256Laws}.

Lemma b64url_excludes c s :
  b64url_char c = false → str_all b64url_char s = true → contains_char c s = false.
Proof.
  intros Hc Hs. rewrite contains_char_all, (str_all_impl b64url_char); [done| |done].
  intros x Hx. destruct (Ascii.eqb_spec x c) as [->|]; [by rewrite Hc in Hx|done].
Qed.

Lemma token_header_flat m : flat_object (token_header m).
Proof. cbn. repeat apply map_Forall_insert_2; done. Qed.

Lemma token_payload_flat id now exp :
  now ≤ u64_max → exp ≤ u64_max → flat_object (token_payload id now exp).
Proof.
  intros Hn He. cbn. repeat apply map_Forall_insert_2; cbn [flat_value];
    [done| |by apply N.leb_le|by apply N.leb_le|done..].
  apply forallb_forall. intros x Hx%list_elem_of_In%list_elem_of_fmap. by destruct Hx as (s & -> & _).
Qed.

Lemma groups_of_payload id now exp : groups_of (token_payload id now exp) = id_groups id.
Proof.
  unfold groups_of, token_payload. cbn [json_get]. simplify_map_eq. cbn.
  induction (id_groups id) as [|g l IH]; [done|]. cbn. by rewrite IH.
Qed.

Lemma issued_genuine sk cfg inner now id token :
  now + validity_secs cfg ≤ u64_max →
  issue (from_key sk cfg inner) (Some now) id = Ok token →
  genuine (from_key sk cfg inner) token id (now + validity_secs cfg).
Proof.
  set (m := from_key sk cfg inner). intros Hov. unfold issue. cbn [ok_or mbind result_bind].
  assert (wrap64 (now + validity_secs (config m)) = now + validity_secs cfg) as ->.
  { apply wrap64_small. unfold u64_mod. unfold u64_max in Hov. cbn. lia. }
  set (exp := now + validity_secs cfg) in *.
  set (h := b64_encode (json_print (token_header m))).
  set (p := b64_encode (json_print (token_payload id now exp))).
  set (sig := sign_digest (skey m) (sha256 (h +:+ "." +:+ p))).
  intros [= <-]. exists h, p, (b64_encode (sig_to_bytes sig)), (token_header m), sig,
    (token_payload id now exp). split_and!.
  - unfold three_parts. change ("." +:+ ?x) with (String "." x).
    rewrite str_app_assoc, str_app_cons, split_once_app
      by (by apply b64url_excludes, b64_encode_chars).
    cbn [mbind option_bind]. by rewrite split_once_app by (by apply b64url_excludes, b64_encode_chars).
  - unfold h. rewrite b64_decode_encode. cbn. apply json_parse_print, token_header_flat.
  - unfold get_text. cbn. by simplify_map_eq.
  - unfold get_text. cbn. by simplify_map_eq.
  - rewrite b64_decode_encode. cbn. apply sig_from_to_bytes.
  - apply verify_sign.
  - unfold p. rewrite b64_decode_encode. cbn. apply json_parse_print, token_payload_flat; lia.
  - cbn. by simplify_map_eq.
  - unfold get_text. cbn. by simplify_map_eq.
  - symmetry. apply groups_of_payload.
Qed.

Definition cookie_char (c : ascii) : bool := negb (ascii_ws c) && negb (Ascii.eqb c ";").

Lemma cookie_token_single name token :
  str_all cookie_char name = true → str_all cookie_char token = true →
  cookie_token name (name +:+ "=" +:+ token) = Some token.
Proof.
  intros Hn Ht. unfold cookie_token.
  assert (str_all cookie_char (name +:+ "=" +:+ token) = true) as Hall
    by (by rewrite !str_all_app, Hn, Ht).
  rewrite split_no_sep.
  2: { rewrite contains_char_all, (str_all_impl cookie_char); [done| |done].
       intros c Hc. by apply andb_true_iff in Hc as [_ ?]. }
  cbn [omap list_omap]. rewrite trim_id.
  2: { eapply str_all_impl; [|done]. intros c Hc. by apply andb_true_iff in Hc as [? _]. }
  by rewrite <- str_app_assoc, strip_prefix_app.
Qed.

Lemma b64_cookie_chars s : str_all cookie_char (b64_encode s) = true.
Proof.
  eapply str_all_impl; [|apply b64_encode_chars]. by intros [[] [] [] [] [] [] [] []].
Qed.

Lemma issued_cookie_chars m clock id token :
  issue m clock id = Ok token → str_all cookie_char token = true.
Proof.
  unfold issue. destruct clock as [now|]; [|done]. cbn [ok_or mbind result_bind]. intros [= <-].
  by rewrite !str_all_app, !b64_cookie_chars.
Qed.

(** A token the server issued comes back as the identity it was issued to:
    a request whose cookie header is the session cookie is [Valid] with that
    identity until the validity has run out and [Expired] from then on. *)
Theorem jwt_roundtrip sk cfg inner now now' id token headers cache :
  now + validity_secs cfg ≤ u64_max → str_all cookie_char (cookie_name cfg) = true →
  issue (from_key sk cfg inner) (Some now) id = Ok token →
  get_str headers COOKIE = Some (cookie_name cfg +:+ "=" +:+ token) →
  (blru_get cache (sha256 token)).1 = None →
  (validate (from_key sk cfg inner) (Some now') headers cache).1 =
  Some (if now' <? now + validity_secs cfg then Valid id else Expired).
Proof.
  intros Hov Hname Hissue Hcookie Hget.
  pose proof (issued_genuine _ _ _ _ _ _ Hov Hissue) as Hgen.
  unfold validate, extract_token. rewrite Hcookie. cbn [mbind option_bind config from_key].
  rewrite cookie_token_single by (done || by eapply issued_cookie_chars).
  unfold validate_token. destruct (blru_get cache (sha256 token)) as [found c]. cbn in Hget. subst found.
  rewrite (verify_genuine _ now' _ _ _ Hgen), N.ltb_antisym.
  by destruct (now + validity_secs cfg <=? now').
Qed.

(** Only the first cookie line is searched for a session, while credential
    detection looks at all of them: a client that splits its cookies over
    several lines, as HTTP/2 allows, is not recognised and the refusal is
    counted as a failed login. *)
Theorem second_cookie_line_missed m clock headers cache v1 v2 s1 token :
  hm_get_all headers COOKIE = [v1; v2] →
  hv_to_str v1 = Some s1 → cookie_token (cookie_name (config m)) s1 = None →
  hv_to_str v2 = Some (cookie_name (config m) +:+ "=" +:+ token) →
  contains_char "=" (cookie_name (config m)) = false →
  str_all cookie_char (cookie_name (config m)) = true → str_all cookie_char token = true →
  hm_get_all headers AUTHORIZATION = [] →
  validate m clock headers cache = (None, cache) ∧
  Host.presented_credentials headers (Some (cookie_name (config m))) = true.
Proof.
  intros Hall Hv1 Hnone Hv2 Heq Hname Htok Hauth. split.
  - unfold validate, extract_token, get_str. rewrite !hm_get_head, Hall, Hauth.
    cbn [head mbind option_bind]. rewrite Hv1. cbn [mbind option_bind]. by rewrite Hnone.
  - unfold Host.presented_credentials. rewrite hm_contains_key_get_all, Hauth, Hall.
    rewrite bool_decide_false by naive_solver. cbn [existsb]. rewrite Hv2.
    apply orb_true_iff. right. rewrite orb_false_r.
    rewrite split_no_sep.
    2: { rewrite contains_char_all, (str_all_impl cookie_char); [done| |].
         - intros c Hc. by apply andb_true_iff in Hc as [_ ?].
         - by rewrite !str_all_app, Hname, Htok. }
    cbn [existsb]. rewrite trim_start_id.
    2: { apply (str_all_impl cookie_char); [intros c Hc; by apply andb_true_iff in Hc as [? _]|].
         by rewrite !str_all_app, Hname, Htok. }
    change ("=" +:+ token) with (String "=" token). rewrite split_once_app by done.
    by rewrite String.eqb_refl.
Qed.

End jwt.
(** * A concrete instance *)

Module Demo.

(** Self-delimiting texts and lists. *)
Fixpoint put_str (s : string) : string :=
  match s with
  | "" => "0"
  | String c s' => String "1" (String c (put_str s'))
  end.

Fixpoint take_str (s : string) : option (string * string) :=
  match s with
  | String b s' =>
      if Ascii.eqb b "0" then Some ("", s')
      else match s' with
           | String c s'' => '(x, r) ← take_str s''; Some (String c x, r)
           | "" => None
           end
  | "" => None
  end.

Lemma take_put_str s r : take_str (put_str s +:+ r) = Some (s, r).
Proof.
  induction s as [|c s IH]; [done|]. cbn [put_str]. rewrite !str_app_cons. cbn [take_str].
  by rewrite IH.
Qed.

Section lists.
Context {A : Type} (f : A → string) (g : string → option (A * string)).

Fixpoint put_list (l : list A) : string :=
  match l with [] => "0" | x :: l' => String "1" (f x +:+ put_list l') end.

Fixpoint take_list (fuel : nat) (s : string) : option (list A * string) :=
  match fuel, s with
  | S fuel', String b s' =>
      if Ascii.eqb b "0" then Some ([], s')
      else '(x, r) ← g s'; '(l, r') ← take_list fuel' r; Some (x :: l, r')
  | _, _ => None
  end.

Lemma take_put_list l fuel r :
  (∀ x r, x ∈ l → g (f x +:+ r) = Some (x, r)) → (length l < fuel)%nat →
  take_list fuel (put_list l +:+ r) = Some (l, r).
Proof.
  revert fuel. induction l as [|x l IH]; intros fuel Hg Hf; (destruct fuel as [|fuel]; [lia|]).
  - done.
  - cbn [put_list]. rewrite str_app_cons. cbn [take_list].
    change (Ascii.eqb "1" "0") with false. cbv iota. rewrite str_app_assoc, Hg by set_solver.
    cbn [mbind option_bind]. rewrite IH; [done|set_solver|cbn in Hf; lia].
Qed.

Lemma put_list_length l : (length l < String.length (put_list l))%nat.
Proof. induction l as [|x l IH]; cbn; [lia|]. rewrite str_length_app. lia. Qed.

End lists.

Definition put_text (v : json) : string := match v with JStr s => put_str s | _ => "" end.
Definition take_text (s : string) : option (json * string) :=
  '(x, r) ← take_str s; Some (JStr x, r).

Definition put_value (v : json) : string :=
  match v with
  | JStr s => String "s" (put_str s)
  | JU64 n => String "n" (put_str (dec n))
  | JArr l => String "a" (put_list put_text l)
  | _ => "?"
  end.

Definition take_value (s : string) : option (json * string) :=
  match s with
  | "" => None
  | String t s' =>
      if Ascii.eqb t "s" then take_text s'
      else if Ascii.eqb t "n" then '(x, r) ← take_str s'; n ← parse_uint u64_max x; Some (JU64 n, r)
      else '(l, r) ← take_list take_text (String.length s') s'; Some (JArr l, r)
  end.

Lemma take_put_value v r : flat_value v = true → take_value (put_value v +:+ r) = Some (v, r).
Proof.
  destruct v as [| |n| | |s|l|]; cbn [flat_value put_value]; try done; intros Hv;
    rewrite str_app_cons; cbn [take_value].
  - change (Ascii.eqb "n" "s") with false. change (Ascii.eqb "n" "n") with true. cbv iota.
    rewrite take_put_str. cbn. rewrite parse_uint_dec by (by apply N.leb_le). done.
  - unfold take_text. change (Ascii.eqb "s" "s") with true. cbv iota. by rewrite take_put_str.
  - change (Ascii.eqb "a" "s") with false. change (Ascii.eqb "a" "n") with false. cbv iota.
    rewrite take_put_list; [done| |].
    + intros x q Hx. rewrite forallb_forall in Hv. specialize (Hv x).
      rewrite <- list_elem_of_In in Hv. destruct x; try (by specialize (Hv Hx)).
      unfold take_text. cbn. by rewrite take_put_str.
    + rewrite str_length_app. pose proof (put_list_length put_text l). lia.
Qed.

Definition put_field (kv : string * json) : string := put_str (fst kv) +:+ put_value (snd kv).
Definition take_field (s : string) : option (string * json * string) :=
  '(k, r) ← take_str s; '(v, r) ← take_value r; Some (k, v, r).

#[local] Instance flat_json : Json := {
  json_print v := match v with JObj m => put_list put_field (map_to_list m) | _ => "?" end;
  json_parse s := '(l, r) ← take_list take_field (String.length s) s;
                  if is_empty r then Some (JObj (list_to_map l)) else None;
}.

#[local] Instance flat_json_laws : JsonLaws.
Proof.
  split. intros v Hv. destruct v as [| | | | | | |m]; cbn in Hv; try done. cbn [json_print json_parse flat_json].
  rewrite <- (str_app_nil_r (put_list put_field (map_to_list m))) at 2.
  rewrite take_put_list; [| |apply put_list_length].
  - cbn. by rewrite list_to_map_to_list.
  - intros [k x] r Hin%elem_of_map_to_list. unfold take_field, put_field. cbn [fst snd].
    rewrite str_app_assoc, take_put_str. cbn. by rewrite take_put_value by (by eapply Hv).
Qed.

(** Two letters per byte. *)
Definition letter (n : N) : ascii := ascii_of_N (65 + n).
Fixpoint hex (s : string) : string :=
  match s with
  | "" => ""
  | String c s' => String (letter (N_of_ascii c / 16)) (String (letter (N_of_ascii c mod 16)) (hex s'))
  end.
Fixpoint unhex (s : string) : option string :=
  match s with
  | "" => Some ""
  | String a (String b s') =>
      r ← unhex s'; Some (String (ascii_of_N ((N_of_ascii a - 65) * 16 + (N_of_ascii b - 65))) r)
  | _ => None
  end.

#[local] Instance hex_b64 : Base64Url := { b64_encode := hex; b64_decode := unhex }.

#[local] Instance hex_b64_laws : Base64UrlLaws.
Proof.
  split; cbn.
  - induction s as [|c s IH]; [done|]. cbn [hex unhex]. rewrite IH. cbn [mbind option_bind].
    do 2 f_equal. by destruct c as [[] [] [] [] [] [] [] []].
  - induction s as [|c s IH]; [done|]. cbn [hex str_all]. rewrite IH.
    by destruct c as [[] [] [] [] [] [] [] []].
Qed.

(** Signing is tagging with the key. *)
#[local] Instance tag_sig : Es256 := {
  signing_key := string; verifying_key := string; signature := string;
  sha256 s := s; key_of k := k; point_x k := k; point_y k := k;
  sig_from_slice s := Some s; sig_to_bytes s := s;
  sign_digest k d := k +:+ d; verify_digest k d s := String.eqb s (k +:+ d);
}.

#[local] Instance tag_sig_laws : Es256Laws.
Proof. split; cbn; [done|]. intros. apply String.eqb_refl. Qed.

#[local] Instance assoc_lru V : BoundedLru V := {
  blru := list (string * V);
  blru_new _ := [];
  blru_iter m := m;
  blru_get m k := (head ((filter (λ kv, kv.1 = k) m).*2), m);
  blru_put m k v := (k, v) :: filter (λ kv, kv.1 ≠ k) m;
  blru_pop m k := filter (λ kv, kv.1 ≠ k) m;
}.

#[local] Instance assoc_lru_laws V : BoundedLruLaws V.
Proof.
  split; cbn; try done.
  - intros m k v Hh. apply head_Some_elem_of, list_elem_of_fmap in Hh as ([k' v'] & -> & Hin).
    apply list_elem_of_filter in Hin as [Hk Hin]. cbn in *. by subst.
  - intros m k v e [->|[_ ?]%list_elem_of_filter]%elem_of_cons; auto.
  - by intros m k e [_ ?]%list_elem_of_filter.
Qed.

Definition demo_config : JwtConfig := {| cookie_name := "sess"; validity_secs := 300 |}.
Definition demo_key : @signing_key tag_sig := "key".
Definition demo : JwtManager := from_key demo_key demo_config true.
Definition alice : Identity := {| id_username := "alice"; id_groups := ["admins"; "staff"] |}.
Definition demo_token : string :=
  match issue demo (Some 1000) alice with Ok t => t | Err _ => "" end.
Definition cookie_headers (s : string) : header_map :=
  hm_append hm_new COOKIE (s : @header_value assoc_http).

Lemma jwt_roundtrip_witness :
  (validate demo (Some 1299) (cookie_headers ("sess=" +:+ demo_token)) (blru_new 1)).1 = Some (Valid alice).
Proof.
  apply (jwt_roundtrip demo_key demo_config true 1000 1299 alice demo_token
    (cookie_headers ("sess=" +:+ demo_token)) (blru_new 1));
    first [vm_compute; reflexivity | vm_compute; discriminate].
Defined.

Lemma jwt_valid_sound_witness :
  ∃ token now exp t,
    extract_token (cookie_headers ("sess=" +:+ demo_token)) (cookie_name (config demo)) = Some token ∧
    Some 1200 = Some now ∧ now < exp ∧ sha256 t = sha256 token ∧ genuine demo t alice exp.
Proof.
  apply (jwt_valid_sound demo [(Some 1100, cookie_headers ("sess=" +:+ demo_token))] (Some 1200)).
  vm_compute. reflexivity.
Defined.

Lemma second_cookie_line_missed_witness :
  let headers := hm_append (cookie_headers "a=b") COOKIE ("sess=tok" : @header_value assoc_http) in
  validate demo (Some 1) headers (blru_new 1) = (None, blru_new 1) ∧
  Host.presented_credentials headers (Some "sess") = true.
Proof.
  intros headers.
  apply (second_cookie_line_missed demo (Some 1) headers (blru_new 1) ("a=b" : @header_value assoc_http)
    ("sess=tok" : @header_value assoc_http) "a=b" "tok"); vm_compute; reflexivity.
Defined.

End Demo.

End Jwt.
