(* ===== verification/Health.v ===== *)
(** The built-in health endpoints ([src/handler/health.rs]): which listeners
    answer them, and what a probe gets while the process runs and drains. *)
From S2P Require Import Prelude RustStr Http Errors.

Module Health.
Import Errors.

Definition DEFAULT_LIVENESS_PATHS : list string := ["/healthz"; "/livez"].
Definition DEFAULT_READINESS_PATHS : list string := ["/readyz"].

(** What the health state reads of the configuration. *)
Record HealthConfig := {
  hc_enabled : bool;
  liveness_paths : list string;
  readiness_paths : list string;
}.

Record ListenerConfig := {
  lc_is_proxy : bool;
  lc_health : option bool;
  lc_local_name : string;
}.

Record HealthState := {
  liveness : gset string;
  readiness : gset string;
  enabled_listeners : gset string;
}.

Definition from_config (cfg : HealthConfig) (listeners : list ListenerConfig) : HealthState :=
  {| enabled_listeners :=
       list_to_set (lc_local_name <$>
         List.filter (λ l, default (hc_enabled cfg) (lc_health l))
           (List.filter (λ l, negb (lc_is_proxy l)) listeners));
     liveness := list_to_set (liveness_paths cfg);
     readiness := list_to_set (readiness_paths cfg) |}.

Definition DQ : string := String (ascii_of_N 34) "".
Definition quoted (s : string) : string := DQ +:+ s +:+ DQ.
Definition health_body (state check : string) : string :=
  "{" +:+ quoted "status" +:+ ":" +:+ quoted state +:+ "," +:+
  quoted "check" +:+ ":" +:+ quoted check +:+ "}" +:+ String (ascii_of_N 10) "".

Section health.
Context `{Http}.

(** Whether the path is served, and as ready. *)
Definition probe (path : string) (h : HealthState) (draining : bool) : option bool :=
  if bool_decide (path ∈ liveness h) then Some true
  else if bool_decide (path ∈ readiness h) then Some (negb draining)
  else None.

Definition health_headers (ready head : bool) (body : string) : list (string * string) :=
  [("Content-Type", "application/json"); ("Cache-Control", "no-cache, no-store")]
  ++ (if ready then [] else [("Retry-After", "1")])
  ++ (if head then [("Content-Length", dec (str_len body))] else []).

(** The outer [None] falls through to routing, the inner one is the panic of
    [expect]. *)
Definition try_serve (method path bind : string) (h : HealthState) (draining : bool)
    : option (option HttpResponse) :=
  if negb (bool_decide (bind ∈ enabled_listeners h)) then None
  else if negb (String.eqb method "GET") && negb (String.eqb method "HEAD") then None
  else
    ready ← probe path h draining;
    let check := trim_start_by (Ascii.eqb "/") path in
    let '(status, state) := if ready : bool then (200, "ok") else (503, "draining") in
    let body := health_body state check in
    let head := String.eqb method "HEAD" in
    Some (build status (health_headers ready head body) (if head then "" else body)).

(** The names and texts the server writes itself are valid. *)
Class FixedHeaders : Prop := {
  fixed_name k : k ∈ ["Content-Type"; "Cache-Control"; "Retry-After"; "Content-Length"] →
    is_Some (hn_from_bytes k);
  fixed_value v : v ∈ ["application/json"; "no-cache, no-store"; "1"] → is_Some (hv_from_str v);
}.

Lemma health_headers_ok `{!HttpLaws, !FixedHeaders} ready head body k v :
  (k, v) ∈ health_headers ready head body →
  is_Some (hn_from_bytes k) ∧ is_Some (hv_from_str v).
Proof.
  unfold health_headers. intros Hin. split.
  - apply fixed_name. destruct ready, head; set_solver.
  - destruct (decide (k = "Content-Length")) as [->|Hk].
    + assert (v = dec (str_len body)) as -> by (destruct ready, head; set_solver).
      apply hv_from_str_digits, dec_digits.
    + apply fixed_value. destruct ready, head; set_solver.
Qed.

(** A probe on an enabled listener is answered exactly for GET and HEAD on
    a configured path, without panicking: liveness always 200, draining or
    not; readiness 200, and 503 exactly while draining; HEAD has the length of
    the body GET would get and no body. *)
Theorem health_spec `{!HttpLaws, !FixedHeaders} method path bind h draining :
  ((try_serve method path bind h draining = None) ↔
   bind ∉ enabled_listeners h ∨ (method ≠ "GET" ∧ method ≠ "HEAD") ∨
   ((path ∉ liveness h) ∧ (path ∉ readiness h))) ∧
  ∀ r, try_serve method path bind h draining = Some r →
    ∃ resp, r = Some resp ∧
      resp_status resp = (if bool_decide (path ∈ liveness h) || negb draining then 200 else 503) ∧
      resp_body resp = Full (if String.eqb method "HEAD" then "" else
        health_body (if bool_decide (path ∈ liveness h) || negb draining then "ok" else "draining")
          (trim_start_by (Ascii.eqb "/") path)).
Proof.
  unfold try_serve, probe.
  destruct (bool_decide_reflect (bind ∈ enabled_listeners h)) as [Hb|Hb]; cbn [negb].
  2: { split; [split; [by left|done]|done]. }
  destruct (negb _ && negb _) eqn:Hm.
  { apply andb_true_iff in Hm as [?%negb_true_iff%String.eqb_neq ?%negb_true_iff%String.eqb_neq].
    split; [split; [auto|done]|done]. }
  assert (¬ (method ≠ "GET" ∧ method ≠ "HEAD")) as Hm'.
  { intros [Hg Hh]. apply String.eqb_neq in Hg, Hh. by rewrite Hg, Hh in Hm. }
  assert (∀ ready : bool, ∃ resp,
    (let '(status, state) := if ready then (200, "ok") else (503, "draining") in
     build status (health_headers ready (String.eqb method "HEAD")
       (health_body state (trim_start_by (Ascii.eqb "/") path)))
       (if String.eqb method "HEAD" then "" else health_body state (trim_start_by (Ascii.eqb "/") path)))
     = Some resp) as Hbuild.
  { intros ready.
    destruct ready; apply build_is_Some; try done; intros k v; apply health_headers_ok. }
  destruct (bool_decide_reflect (path ∈ liveness h)) as [Hl|Hl]; cbn [orb].
  - split; [split; [done|intros [|[|[]]]; done]|]. intros r [= <-]. destruct (Hbuild true) as [resp Hr].
    exists resp. rewrite Hr. apply build_inv in Hr as (? & ? & _). done.
  - destruct (bool_decide_reflect (path ∈ readiness h)) as [Hr|Hr].
    2: { split; [split; [auto|done]|done]. }
    destruct (Hbuild (negb draining)) as [resp Hresp].
    destruct draining; cbn [negb mbind option_bind] in *; rewrite Hresp;
      (split; [split; [done|intros [|[|[]]]; done]|]); intros r [= <-]; exists resp;
      apply build_inv in Hresp as (? & ? & _); done.
Qed.

End health.

#[global] Instance assoc_fixed : FixedHeaders (H := assoc_http).
Proof.
  split.
  - intros k Hk. repeat (apply elem_of_cons in Hk as [->|Hk]; [by eexists; vm_compute|]). set_solver.
  - intros k Hk. repeat (apply elem_of_cons in Hk as [->|Hk]; [by eexists; vm_compute|]). set_solver.
Qed.

Definition demo_state : HealthState :=
  from_config {| hc_enabled := true; liveness_paths := DEFAULT_LIVENESS_PATHS;
                 readiness_paths := DEFAULT_READINESS_PATHS |}
    [{| lc_is_proxy := false; lc_health := None; lc_local_name := "tcp://[::]:80" |}].

Lemma health_spec_witness :
  ∃ resp, try_serve "GET" "/readyz" "tcp://[::]:80" demo_state true = Some (Some resp) ∧
    resp_status resp = 503.
Proof.
  destruct (health_spec "GET" "/readyz" "tcp://[::]:80" demo_state true) as [_ Hr].
  destruct (Hr _ eq_refl) as (resp & E & Hs & _). exists resp. split.
  - rewrite <- E. reflexivity.
  - rewrite Hs. reflexivity.
Defined.

End Health.
