(* ===== verification/Oidc.v ===== *)
(** The OIDC provider ([src/oidc.rs], [src/oidc/jws.rs], [bearer.rs],
    [backchannel.rs]): pending logins, refresh sessions, back-channel logout
    and bearer tokens.

    The [openidconnect] crate (discovery, the token and user-info endpoints,
    signature verification) and the random generator are parameters.  A
    provider is its mutable state; operations that await the identity provider
    take what other tasks do to the state meanwhile as a function.  Adding a
    configured lifetime to the clock is taken not to overflow [Instant]. *)
From S2P Require Import Prelude RustStr Utf8 Http Auth Jwt.

(** * The [openidconnect] crate *)

(** What the token endpoint returns; the identity token is its text. *)
Record TokenResponse := {
  tr_id_token : option string;
  tr_refresh_token : option string;
  tr_access_token : string;
}.

Class OpenId := {
  jwk : Type;
  jwk_kid : jwk → option string;
  known_alg : string → bool;
  verify_signature : jwk → string → string → string → bool;
  (** The signature, issuer, audience and expiry checks of the ID-token
      verifier, with the nonce when one is required: the claims and the
      subject. *)
  id_token_claims : string → option string → option (json * string);
  exchange_code : string → string → list string → option TokenResponse;
  exchange_refresh : string → list string → option TokenResponse;
  (** [None]: not configurable; [Some None]: the request failed. *)
  user_info : string → option (option json);
  authorize_url : list string → list (string * string) → string → string → string → string;
}.

Module Oidc.
Import Auth Jwt.

(** * Configuration and state *)

Record OidcConfig := {
  issuer : string;
  client_id : string;
  client_secret : option string;
  redirect_uri : string;
  scopes : list string;
  username_claim : string;
  groups_claim : string;
  login_path : string;
  callback_path : string;
  state_ttl_secs : N;
  cfg_refresh : bool;
  refresh_ttl_secs : N;
  refresh_cookie_name : string;
  logout_path : string;
  post_logout_uri : string;
  idp_logout : bool;
  userinfo : bool;
  discovery_refresh_secs : N;
  discovery_retry : bool;
  backchannel_logout_enabled : bool;
  backchannel_logout_path : string;
  backchannel_max_iat_skew_secs : N;
  backchannel_jti_ttl_secs : N;
  bearer : bool;
  bearer_audiences : list string;
  bearer_cache_size : N;
  require_iss : bool;
  resources : list string;
  revoke_on_logout : bool;
}.

Record StateEntry := {
  pkce_verifier : string;
  nonce : string;
  return_to : string;
  created : Instant;
}.

Record RefreshEntry := {
  refresh_token : string;
  expires_at : Instant;
  id_token : string;
  subject : string;
  idp_sid : option string;
}.

Record BearerCacheEntry := {
  be_identity : Identity;
  be_expires_at : N;
}.

(** The optional login parameters, in the order of the structure. *)
Record IdpHints := {
  login_hint : option string;
  prompt : option string;
  max_age : option string;
  acr_values : option string;
  ui_locales : option string;
}.

Definition pairs (h : IdpHints) : list (string * string) :=
  omap (λ '(k, v), (λ x, (k, x)) <$> v)
    [("login_hint", login_hint h); ("prompt", prompt h); ("max_age", max_age h);
     ("acr_values", acr_values h); ("ui_locales", ui_locales h)].

(** The counters the provider bumps itself. *)
Record OidcMetrics := {
  oidc_discoveries : N;
  oidc_discovery_failures : N;
  oidc_userinfo_failures : N;
}.

Section oidc.
Context `{Http} `{Json} `{Base64Url} `{Es256} `{BoundedLru BearerCacheEntry} `{OpenId}.

Record OidcProvider := {
  ready : bool;
  cfg : OidcConfig;
  states : gmap string StateEntry;
  refreshes : gmap string RefreshEntry;
  end_session_url : option string;
  revocation_url : option string;
  jwks : option (list jwk);
  seen_jtis : gmap string Instant;
  bearer_cache : blru;
  ometrics : OidcMetrics;
}.

Definition set_states (p : OidcProvider) m : OidcProvider :=
  {| ready := ready p; cfg := cfg p; states := m; refreshes := refreshes p;
     end_session_url := end_session_url p; revocation_url := revocation_url p; jwks := jwks p;
     seen_jtis := seen_jtis p; bearer_cache := bearer_cache p; ometrics := ometrics p |}.
Definition set_refreshes (p : OidcProvider) m : OidcProvider :=
  {| ready := ready p; cfg := cfg p; states := states p; refreshes := m;
     end_session_url := end_session_url p; revocation_url := revocation_url p; jwks := jwks p;
     seen_jtis := seen_jtis p; bearer_cache := bearer_cache p; ometrics := ometrics p |}.
Definition set_seen_jtis (p : OidcProvider) m : OidcProvider :=
  {| ready := ready p; cfg := cfg p; states := states p; refreshes := refreshes p;
     end_session_url := end_session_url p; revocation_url := revocation_url p; jwks := jwks p;
     seen_jtis := m; bearer_cache := bearer_cache p; ometrics := ometrics p |}.
Definition set_bearer_cache (p : OidcProvider) c : OidcProvider :=
  {| ready := ready p; cfg := cfg p; states := states p; refreshes := refreshes p;
     end_session_url := end_session_url p; revocation_url := revocation_url p; jwks := jwks p;
     seen_jtis := seen_jtis p; bearer_cache := c; ometrics := ometrics p |}.

Definition set_ometrics (p : OidcProvider) m : OidcProvider :=
  {| ready := ready p; cfg := cfg p; states := states p; refreshes := refreshes p;
     end_session_url := end_session_url p; revocation_url := revocation_url p; jwks := jwks p;
     seen_jtis := seen_jtis p; bearer_cache := bearer_cache p; ometrics := m |}.

Definition count_userinfo (failed : bool) (p : OidcProvider) : OidcProvider :=
  let m := ometrics p in
  if failed then set_ometrics p {| oidc_discoveries := oidc_discoveries m;
    oidc_discovery_failures := oidc_discovery_failures m;
    oidc_userinfo_failures := wrap64 (oidc_userinfo_failures m + 1) |}
  else p.
Definition count_discovery (ok : bool) (p : OidcProvider) : OidcProvider :=
  let m := ometrics p in
  set_ometrics p {| oidc_discoveries := if ok then wrap64 (oidc_discoveries m + 1) else oidc_discoveries m;
    oidc_discovery_failures := if ok then oidc_discovery_failures m
                               else wrap64 (oidc_discovery_failures m + 1);
    oidc_userinfo_failures := oidc_userinfo_failures m |}.

Definition is_ready (p : OidcProvider) : bool := ready p.

(** [issuer()]: without trailing slashes. *)
Definition canonical_issuer (p : OidcProvider) : string :=
  trim_end_by (Ascii.eqb "/") (issuer (cfg p)).

(** * Claims *)

Definition nonempty_text (v : option json) : option string :=
  s ← v ≫= as_str; if is_empty s then None else Some s.

Definition extract_optional_string_claim (name : string) (claims : json) : option string :=
  nonempty_text (json_get claims name).

Definition extract_string_claim (name : string) (claims : json) (default_ : string) : string :=
  default default_ (nonempty_text (json_get claims name)).

(** [split_whitespace] on the text of a claim. *)
Fixpoint words_loop (fuel : nat) (s : string) : list string :=
  match fuel with
  | O => []
  | S fuel' =>
      match first_word s with
      | None => []
      | Some w => w :: words_loop fuel' (str_drop (String.length w) (utrim_start s))
      end
  end.
Definition split_whitespace (s : string) : list string := words_loop (String.length s) s.

Definition extract_groups_claim_from_value (v : json) : list string :=
  match v with
  | JArr items => List.filter (λ s, negb (is_empty s)) (omap as_str items)
  | JStr s => split_whitespace s
  | _ => []
  end.

Definition extract_groups_claim_from_json (name : string) (v : json) : list string :=
  match json_get v name with
  | Some x => extract_groups_claim_from_value x
  | None => []
  end.

(** * Compact JWS *)

Record ParsedJws := {
  pj_alg : string;
  pj_kid : option string;
  signed_input : string;
  signature_bytes : string;
  payload : json;
}.

Definition parse_compact_jws (token : string) : Result ParsedJws :=
  match split "." token with
  | [h; p; s] =>
      header_bytes ← ok_or (b64_decode h) "header base64url";
      payload_bytes ← ok_or (b64_decode p) "payload base64url";
      signature_bytes ← ok_or (b64_decode s) "signature base64url";
      header ← ok_or (json_parse header_bytes) "header JSON";
      payload ← ok_or (json_parse payload_bytes) "payload JSON";
      alg ← ok_or (get_text header "alg") "missing alg";
      if known_alg alg then
        Ok {| pj_alg := alg; pj_kid := get_text header "kid"; signed_input := h +:+ "." +:+ p;
              signature_bytes := signature_bytes; payload := payload |}
      else Err "alg is not recognised"
  | _ => Err "malformed JWS"
  end.

(** With a key id in the header only keys of that id are tried, else all. *)
Definition kid_matches (k : jwk) (parsed : ParsedJws) : bool :=
  match jwk_kid k, pj_kid parsed with
  | Some a, Some b => String.eqb a b
  | _, None => true
  | None, Some _ => false
  end.

Definition jwks_signature_verifies (keys : list jwk) (parsed : ParsedJws) : bool :=
  existsb (λ k, verify_signature k (pj_alg parsed) (signed_input parsed) (signature_bytes parsed))
    (List.filter (λ k, kid_matches k parsed) keys).

(** * Login *)

(** What the random generators give one login. *)
Record Fresh := {
  f_state : string;
  f_nonce : string;
  f_verifier : string;
}.

Definition begin_login (p : OidcProvider) (now : Instant) (fresh : Fresh) (ret : string)
    (hints : IdpHints) : option (string * string) * OidcProvider :=
  if ready p then
    let url := authorize_url (scopes (cfg p))
                 (((λ r, ("resource", r)) <$> resources (cfg p)) ++ pairs hints)
                 (f_state fresh) (f_nonce fresh) (f_verifier fresh) in
    let entry := {| pkce_verifier := f_verifier fresh; nonce := f_nonce fresh;
                    return_to := ret; created := now |} in
    (Some (url, f_state fresh), set_states p (<[f_state fresh := entry]> (states p)))
  else (None, p).

(** The user name and groups of the login, and whether the user-info request
    failed (a counter). *)
Definition merge_userinfo (p : OidcProvider) (access username : string) (groups : list string)
    : string * list string * bool :=
  if negb (userinfo (cfg p)) then (username, groups, false)
  else match user_info access with
       | None => (username, groups, false)
       | Some None => (username, groups, true)
       | Some (Some claims) =>
           let name := extract_string_claim (username_claim (cfg p)) claims username in
           let g := extract_groups_claim_from_json (groups_claim (cfg p)) claims in
           (name, match g with [] => groups | _ => g end, false)
       end.

(** What a token response comes to: the identity, and the session data of its
    identity token. *)
Definition identity_of (p : OidcProvider) (tr : TokenResponse) (nonce : option string)
    : Result (Identity * (string * string * option string) * bool) :=
  tok ← ok_or (tr_id_token tr) "no id_token";
  '(claims, sub) ← ok_or (id_token_claims tok nonce) "ID token validation failed";
  let id_username := extract_string_claim (username_claim (cfg p)) claims sub in
  let id_groups := extract_groups_claim_from_json (groups_claim (cfg p)) claims in
  let idp_sid := extract_optional_string_claim "sid" claims in
  let '(username, groups, failed) := merge_userinfo p (tr_access_token tr) id_username id_groups in
  Ok ({| id_username := username; id_groups := groups |}, (tok, sub, idp_sid), failed).

Definition refresh_ttl (p : OidcProvider) : Duration := from_secs (refresh_ttl_secs (cfg p)).
Definition state_ttl (p : OidcProvider) : Duration := from_secs (state_ttl_secs (cfg p)).

(** [now1] is when the callback arrives, [now2] when the identity provider has
    answered; [during] is what other tasks do in between. *)
Definition complete_login (p : OidcProvider) (now1 now2 : Instant) (during : OidcProvider → OidcProvider)
    (fresh_sid code state_id : string)
    : Result (Identity * string * option string) * OidcProvider :=
  if negb (ready p) then (Err "OIDC provider not ready", p)
  else match states p !! state_id with
  | None => (Err "unknown or expired OIDC state", p)
  | Some entry =>
      let p1 := set_states p (delete state_id (states p)) in
      if state_ttl p <? since now1 (created entry) then (Err "OIDC state expired", p1)
      else
        match exchange_code code (pkce_verifier entry) (resources (cfg p)) with
        | None => (Err "OIDC token exchange failed", during p1)
        | Some tr =>
            match identity_of p tr (Some (nonce entry)) with
            | Err e => (Err e, during p1)
            | Ok (id, (tok, sub, idp_sid), failed) =>
                let p2 := count_userinfo failed (during p1) in
                match (if cfg_refresh (cfg p) then tr_refresh_token tr else None) with
                | Some rt =>
                    let e := {| refresh_token := rt; expires_at := now2 + refresh_ttl p;
                                id_token := tok; subject := sub; idp_sid := idp_sid |} in
                    (Ok (id, return_to entry, Some fresh_sid),
                     set_refreshes p2 (<[fresh_sid := e]> (refreshes p2)))
                | None => (Ok (id, return_to entry, None), p2)
                end
            end
        end
  end.

(** * Refresh sessions *)

Definition slide (now2 : Instant) (p : OidcProvider) (tok sub : string) (idp_sid : option string)
    (e : RefreshEntry) : RefreshEntry :=
  {| refresh_token := refresh_token e; expires_at := now2 + refresh_ttl p;
     id_token := tok; subject := sub; idp_sid := idp_sid |}.

Definition refresh (p : OidcProvider) (now1 now2 : Instant) (during : OidcProvider → OidcProvider)
    (fresh_sid sid : string) : Result (Identity * string) * OidcProvider :=
  if negb (ready p) then (Err "OIDC provider not ready", p)
  else match refreshes p !! sid with
  | None => (Err "unknown OIDC refresh session", p)
  | Some entry =>
      if expires_at entry <? now1
      then (Err "refresh session expired", set_refreshes p (delete sid (refreshes p)))
      else
        match exchange_refresh (refresh_token entry) (resources (cfg p)) with
        | None =>
            let p2 := during p in
            (Err "OIDC refresh exchange failed", set_refreshes p2 (delete sid (refreshes p2)))
        | Some tr =>
            match identity_of p tr None with
            | Err e => (Err e, during p)
            | Ok (id, (tok, sub, idp_sid), failed) =>
                let p2 := count_userinfo failed (during p) in
                match tr_refresh_token tr with
                | Some rt =>
                    let e := {| refresh_token := rt; expires_at := now2 + refresh_ttl p;
                                id_token := tok; subject := sub; idp_sid := idp_sid |} in
                    (Ok (id, fresh_sid),
                     set_refreshes p2 (<[fresh_sid := e]> (delete sid (refreshes p2))))
                | None =>
                    (Ok (id, sid),
                     set_refreshes p2 (alter (slide now2 p tok sub idp_sid) sid (refreshes p2)))
                end
            end
        end
  end.

Definition take_logout_session (p : OidcProvider) (sid : string)
    : option (string * string) * OidcProvider :=
  match refreshes p !! sid with
  | None => (None, p)
  | Some e => (Some (id_token e, refresh_token e), set_refreshes p (delete sid (refreshes p)))
  end.

Definition evict_expired (p : OidcProvider) (now : Instant) : OidcProvider :=
  let p := set_states p (filter (λ '(_, e), since now (created e) ≤ state_ttl p) (states p)) in
  let p := set_refreshes p (filter (λ '(_, e), now ≤ expires_at e) (refreshes p)) in
  set_seen_jtis p (filter (λ '(_, at_), now ≤ at_) (seen_jtis p)).

(** * Back-channel logout *)

Definition BACKCHANNEL_EVENT : string := "http://schemas.openid.net/event/backchannel-logout".

Definition as_i64 (v : json) : option Z :=
  match v with
  | JI64 z => if (-9223372036854775808 <=? z)%Z && (z <? 0)%Z then Some z else None
  | JU64 n => if n <? 9223372036854775808 then Some (Z.of_N n) else None
  | _ => None
  end.

Definition aud_includes (aud : option json) (ok : string → bool) : bool :=
  match aud with
  | Some (JStr s) => ok s
  | Some (JArr items) => existsb ok (omap as_str items)
  | _ => false
  end.

Definition iss_matches (iss issuer : string) : bool :=
  String.eqb iss (trim_end_by (Ascii.eqb "/") issuer) || String.eqb iss issuer.

Definition check_backchannel_claims (payload : json) (issuer client_id : string) (now max_skew : Z)
    : Result (option string * option string * string) :=
  iss ← ok_or (get_text payload "iss") "missing iss";
  if negb (iss_matches iss issuer) then Err "iss does not match"
  else if negb (aud_includes (json_get payload "aud") (λ s, String.eqb s client_id))
  then Err "aud does not include our client_id"
  else
    iat ← ok_or (x ← json_get payload "iat"; as_i64 x) "missing iat";
    if (max_skew <? swrap64 (Z.abs (swrap64 (now - iat))))%Z then Err "iat outside accepted skew window"
    else match json_get payload "events" with
    | Some (JObj events) =>
        if negb (bool_decide (is_Some (events !! BACKCHANNEL_EVENT)))
        then Err "events does not declare back-channel-logout"
        else if bool_decide (is_Some (json_get payload "nonce")) then Err "must not carry a nonce"
        else
          let sub := get_text payload "sub" in
          let sid := get_text payload "sid" in
          if bool_decide (sub = None ∧ sid = None) then Err "needs sub or sid"
          else
            jti ← ok_or (get_text payload "jti") "missing jti";
            Ok (sub, sid, jti)
    | _ => Err "missing events object"
    end.

Definition record_jti (p : OidcProvider) (now : Instant) (jti : string) : bool * OidcProvider :=
  let map := filter (λ '(_, at_), now < at_) (seen_jtis p) in
  match map !! jti with
  | Some _ => (false, set_seen_jtis p map)
  | None =>
      (true, set_seen_jtis p (<[jti := now + from_secs (backchannel_jti_ttl_secs (cfg p))]> map))
  end.

Definition drop_sessions (sub sid : option string) (m : gmap string RefreshEntry)
    : gmap string RefreshEntry :=
  match sid, sub with
  | Some s, _ => filter (λ '(_, e), idp_sid e ≠ Some s) m
  | None, Some u => filter (λ '(_, e), subject e ≠ u) m
  | None, None => m
  end.

(** [wall] is the wall clock in seconds, [None] before the epoch. *)
Definition apply_backchannel_logout (p : OidcProvider) (wall : option N) (now : Instant)
    (token : string) : Result nat * OidcProvider :=
  match wall with
  | None => (Err "clock before epoch", p)
  | Some w =>
      match parse_compact_jws token with
      | Err e => (Err e, p)
      | Ok parsed =>
          match jwks p with
          | None => (Err "JWKS not available", p)
          | Some keys =>
              if negb (jwks_signature_verifies keys parsed) then (Err "signature did not match", p)
              else match check_backchannel_claims (payload parsed) (issuer (cfg p))
                           (client_id (cfg p)) (swrap64 (Z.of_N w))
                           (swrap64 (Z.of_N (backchannel_max_iat_skew_secs (cfg p)))) with
              | Err e => (Err e, p)
              | Ok (sub, sid, jti) =>
                  match record_jti p now jti with
                  | (false, p1) => (Err "jti replay detected", p1)
                  | (true, p1) =>
                      let m := drop_sessions sub sid (refreshes p1) in
                      (Ok (size (refreshes p1) - size m)%nat, set_refreshes p1 m)
                  end
              end
          end
      end
  end.

(** * Bearer tokens *)

Definition check_bearer_claims (payload : json) (issuer : string) (audiences : list string)
    (username_claim groups_claim : string) (now : N) : Result (string * list string * N) :=
  iss ← ok_or (get_text payload "iss") "missing iss";
  if negb (iss_matches iss issuer) then Err "iss does not match"
  else if negb (aud_includes (json_get payload "aud")
                  (λ s, existsb (λ a, String.eqb a s) audiences))
  then Err "aud does not match"
  else
    exp ← ok_or (x ← json_get payload "exp"; as_u64 x) "missing exp";
    if exp <=? now then Err "expired"
    else if match (x ← json_get payload "nbf"; as_u64 x) with
            | Some nbf => wrap64 (now + 30) <? nbf
            | None => false
            end then Err "not yet valid"
    else
      let username := match nonempty_text (json_get payload username_claim) with
                      | Some s => s
                      | None => default "" (get_text payload "sub")
                      end in
      Ok (username, extract_groups_claim_from_json groups_claim payload, exp).

(** The slow path, from the token to the identity and its expiry. *)
Definition verify_bearer (p : OidcProvider) (now : N) (token : string) : Result (Identity * N) :=
  parsed ← parse_compact_jws token;
  keys ← ok_or (jwks p) "JWKS not available";
  if negb (jwks_signature_verifies keys parsed) then Err "signature did not match"
  else
    '(username, groups, exp) ←
      check_bearer_claims (payload parsed) (issuer (cfg p)) (bearer_audiences (cfg p))
        (username_claim (cfg p)) (groups_claim (cfg p)) now;
    Ok ({| id_username := username; id_groups := groups |}, exp).

Definition validate_bearer_token (p : OidcProvider) (wall : option N) (token : string)
    : Result Identity * OidcProvider :=
  match wall with
  | None => (Err "clock before epoch", p)
  | Some now =>
      let key := sha256 token in
      let '(found, c) := blru_get (bearer_cache p) key in
      let slow c :=
        match verify_bearer p now token with
        | Err e => (Err e, set_bearer_cache p c)
        | Ok (id, exp) =>
            (Ok id, set_bearer_cache p (blru_put c key {| be_identity := id; be_expires_at := exp |}))
        end in
      match found with
      | Some entry =>
          if now <? be_expires_at entry then (Ok (be_identity entry), set_bearer_cache p c)
          else slow (blru_pop c key)
      | None => slow c
      end
  end.

(** * Discovery *)

(** [1u64 << attempt.min(8)], at most five minutes. *)
Definition backoff_secs (attempt : N) : N := N.min (N.shiftl 1 (N.min attempt 8)) 300.

(** A discovery that succeeded: the client, the endpoints and the keys are
    replaced. *)
Definition install_discovery (p : OidcProvider) (end_session revocation : option string)
    (keys : list jwk) : OidcProvider :=
  {| ready := true; cfg := cfg p; states := states p; refreshes := refreshes p;
     end_session_url := end_session; revocation_url := revocation; jwks := Some keys;
     seen_jtis := seen_jtis p; bearer_cache := bearer_cache p; ometrics := ometrics p |}.

(** One round of the bootstrap loop: a success, or the next wait in seconds
    unless retrying is off. *)
Definition bootstrap_round (discovery_retry : bool) (attempt : N)
    (result : option (option string * option string * list jwk)) (p : OidcProvider)
    : OidcProvider * option (option N) :=
  match result with
  | Some (end_session, revocation, keys) =>
      (count_discovery true (install_discovery p end_session revocation keys), None)
  | None => (count_discovery false p, Some (if discovery_retry then Some (backoff_secs attempt) else None))
  end.

(** One round of the periodic loop: a failure keeps the previous client. *)
Definition periodic_round (result : option (option string * option string * list jwk))
    (p : OidcProvider) : OidcProvider :=
  match result with
  | Some (end_session, revocation, keys) =>
      count_discovery true (install_discovery p end_session revocation keys)
  | None => count_discovery false p
  end.

(** * Pending logins are used once *)

(** How a provider evolves, with the login states issued and taken on the way;
    operations that await the identity provider let others run meanwhile. *)
Inductive Log := LIssued (st : string) | LTaken (st : string).

Definition taken_state (p : OidcProvider) (st : string) : OidcProvider :=
  set_states p (delete st (states p)).

Inductive evolves : OidcProvider → list Log → OidcProvider → Prop :=
  | ev_refl p : evolves p [] p
  | ev_trans p l1 q l2 r : evolves p l1 q → evolves q l2 r → evolves p (l1 ++ l2) r
  | ev_begin p now fresh ret hints :
      ready p = true → evolves p [LIssued (f_state fresh)] (begin_login p now fresh ret hints).2
  | ev_callback p now1 now2 during fresh_sid code st e l :
      states p !! st = Some e → ready p = true → since now1 (created e) ≤ state_ttl p →
      evolves (taken_state p st) l (during (taken_state p st)) →
      evolves p (LTaken st :: l) (complete_login p now1 now2 during fresh_sid code st).2
  | ev_late p now1 now2 during fresh_sid code st e :
      states p !! st = Some e → ready p = true → state_ttl p < since now1 (created e) →
      evolves p [LTaken st] (complete_login p now1 now2 during fresh_sid code st).2
  | ev_unknown p now1 now2 during fresh_sid code st :
      states p !! st = None ∨ ready p = false →
      evolves p [] (complete_login p now1 now2 during fresh_sid code st).2
  | ev_refresh p now1 now2 during fresh_sid sid e l :
      refreshes p !! sid = Some e → ready p = true → now1 ≤ expires_at e →
      evolves p l (during p) → evolves p l (refresh p now1 now2 during fresh_sid sid).2
  | ev_no_refresh p now1 now2 during fresh_sid sid :
      match refreshes p !! sid with Some e => expires_at e < now1 | None => True end ∨ ready p = false →
      evolves p [] (refresh p now1 now2 during fresh_sid sid).2
  | ev_logout p sid : evolves p [] (take_logout_session p sid).2
  | ev_evict p now : evolves p [] (evict_expired p now)
  | ev_backchannel p wall now token : evolves p [] (apply_backchannel_logout p wall now token).2
  | ev_bearer p wall token : evolves p [] (validate_bearer_token p wall token).2
  | ev_discovery p a b keys : evolves p [] (install_discovery p a b keys).

Definition issued (l : list Log) : list string :=
  omap (λ x, match x with LIssued s => Some s | _ => None end) l.
Definition taken (l : list Log) : list string :=
  omap (λ x, match x with LTaken s => Some s | _ => None end) l.

Lemma issued_app a b : issued (a ++ b) = issued a ++ issued b.
Proof. apply omap_app. Qed.
Lemma taken_app a b : taken (a ++ b) = taken a ++ taken b.
Proof. apply omap_app. Qed.

Lemma complete_login_states p now1 now2 during fresh_sid code st :
  states (complete_login p now1 now2 during fresh_sid code st).2 =
  match states p !! st with
  | Some e =>
      if ready p then
        if state_ttl p <? since now1 (created e) then delete st (states p)
        else states (during (taken_state p st))
      else states p
  | None => states p
  end.
Proof.
  unfold complete_login, taken_state. destruct (ready p); cbn [negb]; [|by destruct (states p !! st)].
  destruct (states p !! st) as [e|]; [|done]. destruct (state_ttl p <? _); [done|].
  repeat (case_match; cbn; try done); unfold count_userinfo; by repeat case_match.
Qed.

Lemma refresh_states p now1 now2 during fresh_sid sid :
  states (refresh p now1 now2 during fresh_sid sid).2 =
  match refreshes p !! sid with
  | Some e => if ready p then if expires_at e <? now1 then states p else states (during p) else states p
  | None => states p
  end.
Proof.
  unfold refresh. destruct (ready p); cbn [negb]; [|by destruct (refreshes p !! sid)].
  destruct (refreshes p !! sid) as [e|]; [|done]. destruct (expires_at e <? now1); [done|].
  repeat (case_match; cbn; try done); unfold count_userinfo; by repeat case_match.
Qed.

Lemma apply_backchannel_states p wall now token :
  states (apply_backchannel_logout p wall now token).2 = states p.
Proof.
  unfold apply_backchannel_logout, record_jti. repeat (case_match; cbn; try done); simplify_eq; done.
Qed.

Lemma validate_bearer_states p wall token :
  states (validate_bearer_token p wall token).2 = states p.
Proof. unfold validate_bearer_token. repeat (case_match; cbn; try done). Qed.

(** From pending states [m], the log [l] leaves pending states [m']: if the
    states issued are fresh and distinct, each is taken at most once, and only
    states that were pending or issued are taken or left. *)
Definition once (m : gmap string StateEntry) (l : list Log) (m' : gmap string StateEntry) : Prop :=
  NoDup (issued l) → (∀ s, s ∈ issued l → m !! s = None) →
  NoDup (taken l) ∧
  (∀ s, s ∈ taken l → is_Some (m !! s) ∨ s ∈ issued l) ∧
  (∀ s, is_Some (m' !! s) → (is_Some (m !! s) ∨ s ∈ issued l) ∧ s ∉ taken l).

Lemma once_shrink m m' : m' ⊆ m → once m [] m'.
Proof.
  intros Hsub _ _. split; [constructor|]. split; [set_solver|]. intros s [x Hx].
  split; [left; exists x; by eapply lookup_weaken|set_solver].
Qed.

Lemma once_trans m1 l1 m2 l2 m3 : once m1 l1 m2 → once m2 l2 m3 → once m1 (l1 ++ l2) m3.
Proof.
  intros O1 O2 Hnd Hfresh. rewrite issued_app in Hnd, Hfresh.
  apply NoDup_app in Hnd as (Hnd1 & Hdis & Hnd2).
  destruct O1 as (Ha1 & Hb1 & Hc1); [done|set_solver|].
  assert (∀ s, s ∈ issued l2 → is_Some (m1 !! s) ∨ s ∈ issued l1 → False) as Hold.
  { intros s Hs [Hp|Hi]; [|by apply (Hdis s)]. rewrite (Hfresh s) in Hp by set_solver.
    by destruct Hp. }
  destruct O2 as (Ha2 & Hb2 & Hc2); [done| |].
  { intros s Hs. apply eq_None_not_Some. intros Hq. by apply (Hold s), Hc1. }
  rewrite taken_app, issued_app. split_and!.
  - apply NoDup_app. split_and!; [done| |done]. intros s Hs1 Hs2.
    destruct (Hb2 s Hs2) as [Hq|Hi]; [by destruct (Hc1 s Hq)|]. by apply (Hold s), Hb1.
  - intros s [Hs|Hs]%elem_of_app; [destruct (Hb1 s Hs); set_solver|].
    destruct (Hb2 s Hs) as [Hq|]; [|set_solver]. destruct (Hc1 s Hq) as [[|] _]; set_solver.
  - intros s Hs. destruct (Hc2 s Hs) as [[Hq|Hi] Hn].
    + destruct (Hc1 s Hq) as [[|] ?]; set_solver.
    + split; [set_solver|]. intros [Ht|?]%elem_of_app; [|done]. by apply (Hold s), Hb1.
Qed.

Lemma once_take m st : is_Some (m !! st) → once m [LTaken st] (delete st m).
Proof.
  intros Hst _ _. cbn. split_and!.
  - apply NoDup_singleton.
  - intros s ->%list_elem_of_singleton. by left.
  - intros s [x [Hne Hx]%lookup_delete_Some]. split; [by left; exists x|set_solver].
Qed.

Lemma once_issue m st e : once m [LIssued st] (<[st := e]> m).
Proof.
  intros _ _. cbn. split_and!; [constructor|set_solver|]. intros s [x Hx]. split; [|set_solver].
  apply lookup_insert_Some in Hx as [[<- _]|[_ Hx]]; [right; set_solver|by left; exists x].
Qed.

Lemma evolves_once p l q : evolves p l q → once (states p) l (states q).
Proof.
  induction 1 as [p|p l1 q l2 r _ IH1 _ IH2|p now fresh ret hints Hr|
    p now1 now2 during fresh_sid code st e l He Hr Ht _ IH|
    p now1 now2 during fresh_sid code st e He Hr Ht|
    p now1 now2 during fresh_sid code st Hst|
    p now1 now2 during fresh_sid sid e l He Hr Ht _ IH|
    p now1 now2 during fresh_sid sid Hsid|p sid|p now|p wall now token|p wall token|p a b keys].
  - by apply once_shrink.
  - by eapply once_trans.
  - unfold begin_login. rewrite Hr. apply once_issue.
  - rewrite complete_login_states, He, Hr, (proj2 (N.ltb_ge _ _)) by done.
    apply (once_trans _ [LTaken st] (delete st (states p))); [apply once_take; eauto|done].
  - rewrite complete_login_states, He, Hr, (proj2 (N.ltb_lt _ _)) by done. apply once_take; eauto.
  - rewrite complete_login_states. apply once_shrink.
    destruct Hst as [-> | ->]; [done|]. by destruct (states p !! st).
  - by rewrite refresh_states, He, Hr, (proj2 (N.ltb_ge _ _)) by done.
  - rewrite refresh_states. apply once_shrink. destruct (refreshes p !! sid) as [e|]; [|done].
    destruct Hsid as [Hlt| ->]; [|done]. rewrite (proj2 (N.ltb_lt _ _)) by done.
    by destruct (ready p).
  - apply once_shrink. unfold take_logout_session. by destruct (refreshes p !! sid).
  - apply once_shrink. apply map_filter_subseteq.
  - rewrite apply_backchannel_states. by apply once_shrink.
  - rewrite validate_bearer_states. by apply once_shrink.
  - by apply once_shrink.
Qed.

(** C17: a login state works once: along every interleaving of logins,
    callbacks, refreshes, logouts and sweeps of a provider that starts with no
    pending login, and with distinct random states, no state is taken by two
    callbacks, and none is taken that was not issued. *)
Theorem login_state_single_use p l q :
  evolves p l q → states p = ∅ → NoDup (issued l) →
  NoDup (taken l) ∧ ∀ s, s ∈ taken l → s ∈ issued l.
Proof.
  intros Hev Hp Hnd. destruct (evolves_once p l q Hev Hnd) as (Ht & Hi & _).
  { intros s _. by rewrite Hp. }
  split; [done|]. intros s Hs. destruct (Hi s Hs) as [[x Hx]|]; [|done]. by rewrite Hp in Hx.
Qed.

(** ** What a completed login has checked *)

(** C16: a callback yields an identity only for a pending, unexpired state, from
    the token response to that state's PKCE verifier, whose identity token
    verified with that state's nonce; user and groups are those of its claims,
    unless the user-info endpoint is consulted and answers the access token of
    the same response: then the answer's user and groups come before them,
    whatever subject it is about ([userinfo_subject_unchecked]); the redirect
    target is the one stored with the state, and whatever the
    outcome the state is consumed. *)
Theorem complete_login_sound p now1 now2 during fresh_sid code st :
  (∀ id ret sid, (complete_login p now1 now2 during fresh_sid code st).1 = Ok (id, ret, sid) →
     ∃ e tr tok claims sub,
       states p !! st = Some e ∧ since now1 (created e) ≤ state_ttl p ∧ ret = return_to e ∧
       exchange_code code (pkce_verifier e) (resources (cfg p)) = Some tr ∧
       tr_id_token tr = Some tok ∧ id_token_claims tok (Some (nonce e)) = Some (claims, sub) ∧
       (let name := extract_string_claim (username_claim (cfg p)) claims sub in
        let groups := extract_groups_claim_from_json (groups_claim (cfg p)) claims in
        match (if userinfo (cfg p) then user_info (tr_access_token tr) else None) with
        | Some (Some info) =>
            id_username id = extract_string_claim (username_claim (cfg p)) info name ∧
            id_groups id = match extract_groups_claim_from_json (groups_claim (cfg p)) info with [] => groups | g => g end
        | _ => id_username id = name ∧ id_groups id = groups
        end) ∧
       (is_Some sid ↔ cfg_refresh (cfg p) = true ∧ is_Some (tr_refresh_token tr))) ∧
  (ready p = true → (∀ q, states (during q) = states q) →
     states (complete_login p now1 now2 during fresh_sid code st).2 !! st = None).
Proof.
  split.
  - intros id ret sid. unfold complete_login. destruct (ready p); [|done]. cbn [negb].
    destruct (states p !! st) as [e|]; [|done].
    destruct (N.ltb_spec (state_ttl p) (since now1 (created e))); [done|].
    destruct (exchange_code _ _ _) as [tr|] eqn:Ex; [|done].
    destruct (identity_of p tr (Some (nonce e))) as [[[i [[tok sub] isid]] failed]|err] eqn:Ei; [|done].
    intros Hok. unfold identity_of in Ei. apply bind_Ok in Ei as (tok' & Htok & Ei).
    destruct (tr_id_token tr) as [tok0|] eqn:Etok; [|done]. injection Htok as <-.
    apply bind_Ok in Ei as ([claims sub'] & Hcl & Ei).
    destruct (id_token_claims tok0 (Some (nonce e))) as [[c u]|] eqn:Ecl; [|done].
    injection Hcl as -> ->. destruct (merge_userinfo p _ _ _) as [[name gs] b] eqn:Em.
    injection Ei as <- <- <- <- <-.
    exists e, tr, tok0, claims, sub'. split_and!; try done.
    + destruct (if cfg_refresh (cfg p) then _ else _); cbn in Hok; congruence.
    + assert (id_username id = name ∧ id_groups id = gs) as [-> ->]
        by (destruct (if cfg_refresh (cfg p) then _ else _); cbn in Hok; by injection Hok as <- _ _).
      unfold merge_userinfo in Em. cbn zeta. destruct (userinfo (cfg p)); cbn [negb] in Em; [|by injection Em as <- <- _].
      destruct (user_info (tr_access_token tr)) as [[info|]|]; injection Em as <- <- _; [split; [done|]|done|done].
      by destruct (extract_groups_claim_from_json _ info).
    + destruct (cfg_refresh (cfg p)) eqn:Er; cbn in *.
      * destruct (tr_refresh_token tr); cbn in Hok; injection Hok as <- <- <-; naive_solver.
      * injection Hok as <- <- <-. naive_solver.
  - intros Hr Hd. rewrite complete_login_states, Hr.
    destruct (states p !! st) as [e|] eqn:E; [|done].
    destruct (_ <? _); [apply lookup_delete_eq|]. rewrite Hd. apply lookup_delete_eq.
Qed.

(** ** Refresh sessions *)

(** A refresh that rotates the token retires the old session id at once, so
    a request that still carries the old cookie finds no session; every refused
    exchange, for whatever reason, ends the session; and in every case the
    sessions of other ids are untouched.  (No other task intervenes.) *)
Theorem refresh_spec p now1 now2 fresh_sid sid :
  ready p = true → fresh_sid ≠ sid → refreshes p !! fresh_sid = None →
  let '(r, p') := refresh p now1 now2 id fresh_sid sid in
  (∀ k, k ≠ sid → k ≠ fresh_sid → refreshes p' !! k = refreshes p !! k) ∧
  (∀ ident sid', r = Ok (ident, sid') →
     is_Some (refreshes p' !! sid') ∧
     (sid' ≠ sid → refreshes p' !! sid = None ∧
        ∀ t1 t2 f, refresh p' t1 t2 id f sid = (Err "unknown OIDC refresh session", p'))) ∧
  (∀ e, refreshes p !! sid = Some e → now1 ≤ expires_at e →
     exchange_refresh (refresh_token e) (resources (cfg p)) = None → refreshes p' !! sid = None).
Proof.
  intros Hr Hne Hfresh. unfold refresh at 1. rewrite Hr. cbn [negb].
  destruct (refreshes p !! sid) as [e|] eqn:Es.
  2: { split; [done|]. split; [done|]. intros e. congruence. }
  destruct (N.ltb_spec (expires_at e) now1) as [Hexp|Hexp].
  { cbn. split; [intros; by apply lookup_delete_ne|]. split; [done|]. intros e' [= <-]. lia. }
  destruct (exchange_refresh _ _) as [tr|] eqn:Ex.
  2: { cbn. split; [intros; by apply lookup_delete_ne|]. split; [done|]. intros. apply lookup_delete_eq. }
  destruct (identity_of p tr None) as [[[i [[tok sub] isid]] failed]|err].
  2: { cbn. split; [done|]. split; [done|]. intros e' [= <-]. congruence. }
  assert (∀ b, refreshes (count_userinfo b p) = refreshes p) as Hcu by (by intros []).
  assert (∀ b, ready (count_userinfo b p) = ready p) as Hcr by (by intros []).
  destruct (tr_refresh_token tr) as [rt|]; cbn [id set_refreshes refreshes]; rewrite Hcu.
  - split; [intros k ??; by rewrite lookup_insert_ne, lookup_delete_ne|].
    split; [|intros e' [= <-]; congruence]. intros ident sid' [= _ <-].
    split; [by rewrite lookup_insert_eq|]. intros _.
    assert (<[fresh_sid:={| refresh_token := rt; expires_at := now2 + refresh_ttl p; id_token := tok;
      subject := sub; idp_sid := isid |}]> (delete sid (refreshes p)) !! sid = None) as Hgone
      by (by rewrite lookup_insert_ne, lookup_delete_eq).
    split; [done|]. intros t1 t2 f. unfold refresh. cbn [ready set_refreshes refreshes].
    rewrite Hcr, Hr. cbn [negb]. by rewrite Hgone.
  - split; [intros k ??; by rewrite lookup_alter_ne|]. split; [|intros e' [= <-]; congruence].
    intros ident sid' [= _ <-]. split; [|done]. rewrite lookup_alter_eq, Es. by eexists.
Qed.

(** What a successful refresh rests on. *)
Lemma refresh_Ok p now1 now2 during fresh_sid sid ident sid' q :
  refresh p now1 now2 during fresh_sid sid = (Ok (ident, sid'), q) →
  ∃ e tr x, refreshes p !! sid = Some e ∧ now1 ≤ expires_at e ∧
    exchange_refresh (refresh_token e) (resources (cfg p)) = Some tr ∧
    identity_of p tr None = Ok (ident, x.1, x.2).
Proof.
  unfold refresh. destruct (ready p); [|done]. cbn [negb].
  destruct (refreshes p !! sid) as [e|]; [|done].
  destruct (N.ltb_spec (expires_at e) now1); [done|].
  destruct (exchange_refresh _ _) as [tr|] eqn:Ex; [|done].
  destruct (identity_of p tr None) as [[[i y] failed]|] eqn:Ei; [|done].
  intros Hr. exists e, tr, (y, failed). split_and!; [done|done|done|]. cbn.
  destruct y as [[tok sub] isid]. destruct (tr_refresh_token tr); injection Hr as <- _ _; done.
Qed.

(** ** Back-channel logout *)

Definition matches_logout (sub sid : option string) (e : RefreshEntry) : Prop :=
  match sid, sub with
  | Some s, _ => idp_sid e = Some s
  | None, Some u => subject e = u
  | None, None => False
  end.

Lemma drop_sessions_lookup sub sid m k e :
  drop_sessions sub sid m !! k = Some e ↔ m !! k = Some e ∧ ¬ matches_logout sub sid e.
Proof.
  unfold drop_sessions, matches_logout.
  destruct sid as [s|]; [|destruct sub as [u|]]; rewrite ?map_lookup_filter_Some; tauto.
Qed.

(** What acceptance of a logout token means. *)
Definition logout_token_ok (p : OidcProvider) (w : N) (token : string)
    (sub sid : option string) (jti : string) : Prop :=
  ∃ parsed keys, parse_compact_jws token = Ok parsed ∧ jwks p = Some keys ∧
    jwks_signature_verifies keys parsed = true ∧
    check_backchannel_claims (payload parsed) (issuer (cfg p)) (client_id (cfg p))
      (swrap64 (Z.of_N w)) (swrap64 (Z.of_N (backchannel_max_iat_skew_secs (cfg p)))) =
      Ok (sub, sid, jti).

Lemma apply_backchannel_ok p w now token sub sid jti :
  logout_token_ok p w token sub sid jti →
  apply_backchannel_logout p (Some w) now token =
  match record_jti p now jti with
  | (false, p1) => (Err "jti replay detected", p1)
  | (true, p1) => let m := drop_sessions sub sid (refreshes p1) in
                  (Ok (size (refreshes p1) - size m)%nat, set_refreshes p1 m)
  end.
Proof.
  intros (parsed & keys & Hp & Hk & Hs & Hc). unfold apply_backchannel_logout.
  by rewrite Hp, Hk, Hs, Hc.
Qed.

(** An accepted back-channel logout was signed by a key of the provider and
    made for this client; it ends exactly the sessions it names (by session id
    when it has one, else every session of the user), counts them, and a token
    that is refused ends none. *)
Theorem backchannel_logout_spec p wall now token :
  let '(r, p') := apply_backchannel_logout p wall now token in
  match r with
  | Err _ => refreshes p' = refreshes p
  | Ok n => ∃ w sub sid jti, wall = Some w ∧ logout_token_ok p w token sub sid jti ∧
      (∀ k e, refreshes p' !! k = Some e ↔ refreshes p !! k = Some e ∧ ¬ matches_logout sub sid e) ∧
      (n + size (refreshes p') = size (refreshes p))%nat
  end.
Proof.
  unfold apply_backchannel_logout. destruct wall as [w|]; [|done].
  destruct (parse_compact_jws token) as [parsed|] eqn:Ep; [|done].
  destruct (jwks p) as [keys|] eqn:Ek; [|done].
  destruct (jwks_signature_verifies keys parsed) eqn:Es; [|done]. cbn [negb].
  destruct (check_backchannel_claims _ _ _ _ _) as [[[sub sid] jti]|] eqn:Ec; [|done].
  unfold record_jti. destruct (_ !! jti); [done|]. cbn [refreshes set_refreshes set_seen_jtis].
  exists w, sub, sid, jti. split_and!; [done|by exists parsed, keys| |].
  - intros k e. apply drop_sessions_lookup.
  - assert (size (drop_sessions sub sid (refreshes p)) ≤ size (refreshes p))%nat; [|lia].
    apply map_subseteq_size. apply map_subseteq_spec. intros k e He.
    by apply drop_sessions_lookup in He as [? _].
Qed.

(** *** Replay *)

(** Other back-channel logouts and sweeps, at given times. *)
Definition jti_step (p : OidcProvider) (s : Instant * option string) : OidcProvider :=
  match s with
  | (now, None) => evict_expired p now
  | (now, Some j) => (record_jti p now j).2
  end.
Definition jti_run (p : OidcProvider) (steps : list (Instant * option string)) : OidcProvider :=
  fold_left jti_step steps p.

Lemma jti_step_frame p s : cfg (jti_step p s) = cfg p ∧ jwks (jti_step p s) = jwks p.
Proof. destruct s as [now [j|]]; cbn; [unfold record_jti; by case_match|done]. Qed.

Lemma jti_run_frame p steps : cfg (jti_run p steps) = cfg p ∧ jwks (jti_run p steps) = jwks p.
Proof.
  revert p. induction steps as [|s steps IH]; intros p; [done|].
  change (jti_run p (s :: steps)) with (jti_run (jti_step p s) steps).
  destruct (IH (jti_step p s)) as [-> ->]. apply jti_step_frame.
Qed.

Lemma jti_step_keeps p s jti at_ :
  s.1 < at_ → seen_jtis p !! jti = Some at_ → seen_jtis (jti_step p s) !! jti = Some at_.
Proof.
  intros Ht Hj. destruct s as [now [j|]]; cbn in *.
  - unfold record_jti.
    assert (filter (λ '(_, a), now < a) (seen_jtis p) !! jti = Some at_) as Hf
      by (by apply map_lookup_filter_Some).
    destruct (_ !! j) as [x|] eqn:E; cbn; [done|]. rewrite lookup_insert_ne; [done|]. congruence.
  - apply map_lookup_filter_Some. split; [done|]. lia.
Qed.

Lemma jti_run_keeps p steps jti at_ :
  Forall (λ s, s.1 < at_) steps → seen_jtis p !! jti = Some at_ →
  seen_jtis (jti_run p steps) !! jti = Some at_.
Proof.
  intros Hs. revert p. induction Hs as [|s steps Hs _ IH]; intros p Hj; [done|]. cbn.
  apply IH. by apply jti_step_keeps.
Qed.

Lemma logout_token_ok_frame p q w token sub sid jti :
  cfg q = cfg p → jwks q = jwks p →
  logout_token_ok p w token sub sid jti → logout_token_ok q w token sub sid jti.
Proof. intros Ec Ej (parsed & keys & ?). exists parsed, keys. by rewrite Ec, Ej. Qed.

Lemma as_i64_range v z : as_i64 v = Some z → (-9223372036854775808 ≤ z < 9223372036854775808)%Z.
Proof.
  destruct v; cbn; try done; case_match eqn:E; try done; intros [= <-].
  - apply N.ltb_lt in E. lia.
  - apply andb_true_iff in E as [?%Z.leb_le ?%Z.ltb_lt]. lia.
Qed.

(** The skew test on machine integers: within the skew, or the one
    difference whose absolute value overflows. *)
Lemma skew_test w iat k :
  (0 ≤ w < 2 ^ 62)%Z → (-9223372036854775808 ≤ iat < 9223372036854775808)%Z → (0 ≤ k < 2 ^ 62)%Z →
  (k <? swrap64 (Z.abs (swrap64 (w - iat))))%Z = false →
  (Z.abs (w - iat) ≤ k ∨ w - iat = 9223372036854775808)%Z.
Proof.
  intros Hw Hi Hk Ht%Z.ltb_ge. revert Ht. unfold swrap64.
  destruct (decide (w - iat < 9223372036854775808)%Z) as [Hd|Hd].
  - rewrite (Z.mod_small (w - iat + _)) by lia. rewrite Z.mod_small by lia. lia.
  - assert ((w - iat + 9223372036854775808) mod 18446744073709551616 =
            w - iat - 9223372036854775808)%Z as ->.
    { symmetry. apply (Zmod_unique _ _ 1); lia. }
    destruct (decide (w - iat = 9223372036854775808)%Z) as [He|He]; [by right|].
    rewrite Z.mod_small by lia. lia.
Qed.

(** Two presentations of a token lie within twice the skew. *)
Lemma logout_window p w1 w2 token r1 r2 :
  w1 < 2 ^ 62 → w2 < 2 ^ 62 → backchannel_max_iat_skew_secs (cfg p) < 2 ^ 62 →
  logout_token_ok p w1 token r1.1.1 r1.1.2 r1.2 → logout_token_ok p w2 token r2.1.1 r2.1.2 r2.2 →
  w2 ≤ w1 + 2 * backchannel_max_iat_skew_secs (cfg p) ∧ r1 = r2.
Proof.
  intros Hw1 Hw2 Hs (parsed & keys & Hp & _ & _ & Hc1) (parsed' & keys' & Hp' & _ & _ & Hc2).
  rewrite Hp in Hp'. injection Hp' as <-. revert Hc1 Hc2. unfold check_backchannel_claims.
  rewrite !(swrap64_small (Z.of_N _)) by lia.
  destruct (get_text _ "iss") as [iss|]; [|done]. cbn [ok_or mbind result_bind].
  destruct (negb (iss_matches _ _)); [done|]. destruct (negb (aud_includes _ _)); [done|].
  destruct (json_get _ "iat" ≫= _) as [iat|] eqn:Ei; [|done]. cbn [ok_or mbind result_bind].
  set (K := Z.of_N (backchannel_max_iat_skew_secs (cfg p))).
  destruct (K <? swrap64 (Z.abs (swrap64 (Z.of_N w1 - iat))))%Z eqn:E1; [done|].
  destruct (K <? swrap64 (Z.abs (swrap64 (Z.of_N w2 - iat))))%Z eqn:E2; [done|].
  intros Hc1 Hc2. split.
  - apply bind_Some in Ei as (x & _ & Hx%as_i64_range).
    apply skew_test in E1, E2; lia.
  - rewrite Hc1 in Hc2. destruct r1 as [[??]?], r2 as [[??]?]; cbn in *. congruence.
Qed.

Lemma record_jti_true p now jti q :
  record_jti p now jti = (true, q) →
  seen_jtis q !! jti = Some (now + from_secs (backchannel_jti_ttl_secs (cfg p))) ∧
  cfg q = cfg p ∧ jwks q = jwks p.
Proof. unfold record_jti. case_match; [done|]. intros [= <-]. cbn. by rewrite lookup_insert_eq. Qed.

Lemma apply_backchannel_records p w now token sub sid jti n q :
  logout_token_ok p w token sub sid jti →
  apply_backchannel_logout p (Some w) now token = (Ok n, q) →
  seen_jtis q !! jti = Some (now + from_secs (backchannel_jti_ttl_secs (cfg p))) ∧
  cfg q = cfg p ∧ jwks q = jwks p.
Proof.
  intros Hok. rewrite (apply_backchannel_ok _ _ _ _ _ _ _ Hok).
  destruct (record_jti p now jti) as [[] q1] eqn:E; [|done]. intros [= _ <-]. cbn.
  by apply record_jti_true in E.
Qed.

(** A logout token is not accepted twice when a seen [jti] is remembered
    for more than twice the accepted skew: whatever other logouts and sweeps
    happen in between, a second presentation that still passes the claims
    check is refused as a replay, the clocks advancing together. *)
Theorem backchannel_no_replay p w1 now1 token sub sid jti n p1 steps w2 now2 sub' sid' jti' :
  w1 < 2 ^ 62 → w2 < 2 ^ 62 →
  2 * backchannel_max_iat_skew_secs (cfg p) < backchannel_jti_ttl_secs (cfg p) < 2 ^ 62 →
  logout_token_ok p w1 token sub sid jti →
  apply_backchannel_logout p (Some w1) now1 token = (Ok n, p1) →
  Forall (λ s, s.1 ≤ now2) steps → w1 ≤ w2 → now2 < now1 + from_secs (w2 - w1 + 1) →
  logout_token_ok p w2 token sub' sid' jti' →
  (apply_backchannel_logout (jti_run p1 steps) (Some w2) now2 token).1 =
  Err "jti replay detected".
Proof.
  intros Hw1 Hw2 [Hk Ht] Hok1 Hap Hsteps Hw Hclock Hok2.
  destruct (logout_window p w1 w2 token (sub, sid, jti) (sub', sid', jti')) as [Hwin [= <- <- <-]];
    [done|done|lia|done|done|].
  destruct (apply_backchannel_records _ _ _ _ _ _ _ _ _ Hok1 Hap) as (Hseen & Hc & Hj).
  set (at_ := now1 + from_secs (backchannel_jti_ttl_secs (cfg p))) in *.
  assert (now2 < at_) as Hlive by (unfold at_, from_secs, nanos_per_sec in *; nia).
  destruct (jti_run_frame p1 steps) as [Hc2 Hj2].
  rewrite (apply_backchannel_ok _ w2 now2 token sub sid jti).
  2: { eapply logout_token_ok_frame; [by rewrite Hc2|by rewrite Hj2|done]. }
  assert (seen_jtis (jti_run p1 steps) !! jti = Some at_) as Hs.
  { apply jti_run_keeps; [|done]. eapply Forall_impl; [done|]. intros [t o]. cbn. lia. }
  unfold record_jti.
  assert (filter (λ '(_, a), now2 < a) (seen_jtis (jti_run p1 steps)) !! jti = Some at_) as ->
    by (by apply map_lookup_filter_Some). done.
Qed.

(** Remembering a [jti] longer than the skew is not enough: once it has been
    forgotten, a token that still passes the claims check is accepted again. *)
Lemma backchannel_replay_after_ttl p w1 now1 token sub sid jti n p1 w2 now2 :
  logout_token_ok p w1 token sub sid jti →
  apply_backchannel_logout p (Some w1) now1 token = (Ok n, p1) →
  now1 + from_secs (backchannel_jti_ttl_secs (cfg p)) ≤ now2 →
  logout_token_ok p w2 token sub sid jti →
  is_ok (apply_backchannel_logout p1 (Some w2) now2 token).1 = true.
Proof.
  intros Hok1 Hap Hlate Hok2.
  destruct (apply_backchannel_records _ _ _ _ _ _ _ _ _ Hok1 Hap) as (Hseen & Hc & Hj).
  rewrite (apply_backchannel_ok _ w2 now2 token sub sid jti)
    by (by eapply logout_token_ok_frame).
  unfold record_jti.
  assert (filter (λ '(_, a), now2 < a) (seen_jtis p1) !! jti = None) as ->; [|done].
  apply map_lookup_filter_None. right. intros x Hx. rewrite Hseen in Hx. injection Hx as <-. lia.
Qed.

(** ** Bearer tokens *)

(** A token that some of the keys [K] sign, for our issuer and audience, and
    that names [ident] until [exp]. *)
Definition bearer_genuine (c : OidcConfig) (K : list (list jwk)) (token : string) (ident : Identity)
    (exp : N) : Prop :=
  ∃ keys parsed now0, keys ∈ K ∧ parse_compact_jws token = Ok parsed ∧
    jwks_signature_verifies keys parsed = true ∧
    check_bearer_claims (payload parsed) (issuer c) (bearer_audiences c) (username_claim c)
      (groups_claim c) now0 = Ok (id_username ident, id_groups ident, exp).

Lemma check_bearer_claims_exp v iss auds u g now n l exp :
  check_bearer_claims v iss auds u g now = Ok (n, l, exp) → now < exp.
Proof.
  unfold check_bearer_claims. intros (i & _ & Hb)%bind_Ok.
  destruct (negb _); [done|]. destruct (negb _); [done|].
  apply bind_Ok in Hb as (x & _ & Hb). destruct (N.leb_spec x now); [done|].
  destruct (match _ with Some _ => _ | None => _ end); [done|]. injection Hb as _ _ <-. lia.
Qed.

Lemma verify_bearer_genuine p keys now token ident exp :
  jwks p = Some keys → verify_bearer p now token = Ok (ident, exp) →
  bearer_genuine (cfg p) [keys] token ident exp ∧ now < exp.
Proof.
  intros Hk. unfold verify_bearer. rewrite Hk. intros (parsed & Hp & Hb)%bind_Ok.
  cbn [ok_or mbind result_bind] in Hb. destruct (jwks_signature_verifies keys parsed) eqn:Ev; [|done].
  cbn [negb] in Hb. apply bind_Ok in Hb as ([[u g] e] & Hc & [= <- <-]).
  split; [|by eapply check_bearer_claims_exp]. exists keys, parsed, now. cbn. set_solver.
Qed.

Definition bearer_sound (K : list (list jwk)) (p : OidcProvider) : Prop :=
  (∀ keys, jwks p = Some keys → keys ∈ K) ∧
  ∀ key c, (key, c) ∈ blru_iter (bearer_cache p) →
    ∃ t, sha256 t = key ∧ bearer_genuine (cfg p) K t (be_identity c) (be_expires_at c).

Context `{!BoundedLruLaws BearerCacheEntry}.

Lemma validate_bearer_sound K p wall token r q :
  bearer_sound K p → validate_bearer_token p wall token = (r, q) →
  (bearer_sound K q ∧ cfg q = cfg p) ∧
  ∀ ident, r = Ok ident → ∃ now exp t, wall = Some now ∧ now < exp ∧
    sha256 t = sha256 token ∧ bearer_genuine (cfg p) K t ident exp.
Proof.
  intros [HK Hc]. unfold validate_bearer_token. destruct wall as [now|]; [|by intros [= <- <-]].
  destruct (blru_get (bearer_cache p) (sha256 token)) as [found c] eqn:Eg.
  assert (∀ e, e ∈ blru_iter c → e ∈ blru_iter (bearer_cache p)) as Hsub.
  { intros e He. apply (blru_get_iter _ (sha256 token)). by rewrite Eg. }
  assert (∀ c', (∀ e, e ∈ blru_iter c' → e ∈ blru_iter (bearer_cache p)) →
    (match verify_bearer p now token with
     | Err e => (Err e, set_bearer_cache p c')
     | Ok (id, exp) => (Ok id, set_bearer_cache p
         (blru_put c' (sha256 token) {| be_identity := id; be_expires_at := exp |}))
     end = (r, q)) →
    (bearer_sound K q ∧ cfg q = cfg p) ∧
    ∀ ident, r = Ok ident → ∃ now' exp t, Some now = Some now' ∧ now' < exp ∧
      sha256 t = sha256 token ∧ bearer_genuine (cfg p) K t ident exp) as Hslow.
  { intros c' Hc' E. destruct (verify_bearer p now token) as [[i exp]|e] eqn:Ev; injection E as <- <-.
    - assert (∃ keys, jwks p = Some keys) as [keys Hk].
      { unfold verify_bearer in Ev. apply bind_Ok in Ev as (? & _ & Ev).
        destruct (jwks p) as [keys|]; [by exists keys|done]. }
      destruct (verify_bearer_genuine _ _ _ _ _ _ Hk Ev) as [(ks & parsed & n0 & Hin & Hg) Hn].
      apply list_elem_of_singleton in Hin as ->.
      assert (bearer_genuine (cfg p) K token i exp) as Hgen
        by (exists keys, parsed, n0; split; [by apply HK|done]).
      split; [split; [split; [done|]|done]|].
      + cbn. intros key x [[= -> ->]|Hin]%blru_put_iter; [by exists token|by apply Hc, Hc'].
      + intros ident [= <-]. by exists now, exp, token.
    - split; [split; [split; [done|]|done]|done]. cbn. intros key x Hin. by apply Hc, Hc'. }
  destruct found as [e|]; [|by apply Hslow]. destruct (N.ltb_spec now (be_expires_at e)).
  - intros [= <- <-]. split; [split; [split; [done|]|done]|].
    + cbn. intros key x Hin. by apply Hc, Hsub.
    + assert ((sha256 token, e) ∈ blru_iter (bearer_cache p)) as Hin
        by (apply blru_get_in; by rewrite Eg).
      apply Hc in Hin as (t & Ht & Hgen). intros ident [= <-]. by exists now, (be_expires_at e), t.
  - apply Hslow. intros x Hx%blru_pop_iter. by apply Hsub.
Qed.

Lemma validate_bearer_frame p wall token :
  ∃ c, (validate_bearer_token p wall token).2 = set_bearer_cache p c.
Proof.
  unfold validate_bearer_token. destruct wall as [now|]; [|exists (bearer_cache p); by destruct p].
  destruct (blru_get _ _) as [found c]. destruct found as [e|].
  - destruct (now <? _); [by eexists|]. destruct (verify_bearer p now token) as [[]|]; by eexists.
  - destruct (verify_bearer p now token) as [[]|]; by eexists.
Qed.

(** Bearer validations and discoveries, in any order. *)
Inductive BearerOp :=
  | BValidate (wall : option N) (token : string)
  | BDiscover (end_session revocation : option string) (keys : list jwk).

Definition bearer_step (p : OidcProvider) (op : BearerOp) : OidcProvider :=
  match op with
  | BValidate wall token => (validate_bearer_token p wall token).2
  | BDiscover a b keys => install_discovery p a b keys
  end.

Definition keys_of (ops : list BearerOp) : list (list jwk) :=
  omap (λ op, match op with BDiscover _ _ keys => Some keys | _ => None end) ops.

Lemma bearer_run_sound K p ops :
  bearer_sound K p → (∀ keys, keys ∈ keys_of ops → keys ∈ K) →
  bearer_sound K (fold_left bearer_step ops p) ∧ cfg (fold_left bearer_step ops p) = cfg p.
Proof.
  revert p. induction ops as [|op ops IH]; intros p Hp HK; [done|]. cbn [fold_left].
  assert (bearer_sound K (bearer_step p op) ∧ cfg (bearer_step p op) = cfg p) as [Hs Hc].
  { destruct op as [wall token|a b keys]; cbn.
    - destruct (validate_bearer_token p wall token) as [r q] eqn:E.
      by destruct (validate_bearer_sound K p wall token r q Hp E).
    - split; [|done]. split; [|by apply Hp]. intros ks [= <-]. apply HK. by left. }
  destruct (IH _ Hs) as [? ->]; [|done]. intros keys Hk. apply HK. destruct op; [done|by right].
Qed.


(** A cached token outlives the key that signed it: a discovery that publishes
    no key at all leaves it accepted until it expires. *)
Lemma bearer_survives_rotation p a b now token e :
  (blru_get (bearer_cache p) (sha256 token)).1 = Some e → now < be_expires_at e →
  (validate_bearer_token (install_discovery p a b []) (Some now) token).1 = Ok (be_identity e).
Proof.
  intros Hg Hn. unfold validate_bearer_token. cbn [bearer_cache install_discovery].
  destruct (blru_get _ _) as [f c]. cbn in Hg. subst f. by rewrite (proj2 (N.ltb_lt _ _)).
Qed.

End oidc.

(** * A concrete instance *)

Module Demo.
#[local] Existing Instances Jwt.Demo.hex_b64 Jwt.Demo.tag_sig Jwt.Demo.assoc_lru
  Jwt.Demo.assoc_lru_laws.

(** A reader that knows three texts: a header and the claims of a logout and
    of an access token. *)
#[local] Instance table_json : Json := {
  json_print _ := "";
  json_parse s :=
    if String.eqb s "h" then Some (JObj {[ "alg" := JStr "ES256"; "kid" := JStr "k1" ]})
    else if String.eqb s "logout" then
      Some (JObj {[ "iss" := JStr "https://idp"; "aud" := JStr "app"; "iat" := JU64 1000;
                    "events" := JObj {[ BACKCHANNEL_EVENT := JObj ∅ ]}; "sid" := JStr "s1";
                    "jti" := JStr "j1" ]})
    else if String.eqb s "access" then
      Some (JObj {[ "iss" := JStr "https://idp"; "aud" := JStr "api"; "exp" := JU64 2000;
                    "sub" := JStr "alice" ]})
    else None;
}.

(** An identity provider whose signatures are tags and whose exchanges all
    succeed with one identity token. *)
#[local] Instance tag_idp : OpenId := {
  jwk := string;
  jwk_kid k := Some k;
  known_alg := String.eqb "ES256";
  verify_signature k _ input s := String.eqb s (k +:+ input);
  id_token_claims tok _ := if String.eqb tok "idt" then Some (JObj ∅, "alice") else None;
  exchange_code _ _ _ :=
    Some {| tr_id_token := Some "idt"; tr_refresh_token := Some "rt1"; tr_access_token := "at" |};
  exchange_refresh _ _ :=
    Some {| tr_id_token := Some "idt"; tr_refresh_token := Some "rt2"; tr_access_token := "at" |};
  user_info _ := None;
  authorize_url _ _ st _ _ := "https://idp/auth?state=" +:+ st;
}.

Definition k1 : @jwk tag_idp := "k1".

Definition demo_cfg : OidcConfig := {|
  issuer := "https://idp/"; client_id := "app"; client_secret := None;
  redirect_uri := "https://app/oidc/callback"; discovery_refresh_secs := 3600; discovery_retry := true;
  bearer_cache_size := 1024; scopes := ["openid"]; username_claim := "email";
  groups_claim := "groups"; login_path := "/oidc/login"; callback_path := "/oidc/callback";
  state_ttl_secs := 600; cfg_refresh := true; refresh_ttl_secs := 3600;
  refresh_cookie_name := "rsid"; logout_path := "/oidc/logout"; post_logout_uri := "/";
  idp_logout := false; userinfo := false; backchannel_logout_enabled := true;
  backchannel_logout_path := "/oidc/backchannel"; backchannel_max_iat_skew_secs := 120;
  backchannel_jti_ttl_secs := 300; bearer := true; bearer_audiences := ["api"];
  require_iss := false; resources := []; revoke_on_logout := false |}.

Definition sign_token (claims : string) : string :=
  let input := b64_encode "h" +:+ "." +:+ b64_encode claims in
  input +:+ "." +:+ b64_encode ("k1" +:+ input).

Definition fresh_provider : OidcProvider := {|
  ready := true; cfg := demo_cfg; states := ∅; refreshes := ∅; end_session_url := None;
  revocation_url := None; jwks := None; seen_jtis := ∅; bearer_cache := blru_new 16;
  ometrics := {| oidc_discoveries := 0; oidc_discovery_failures := 0; oidc_userinfo_failures := 0 |} |}.
Definition with_keys : OidcProvider := install_discovery fresh_provider None None ["k1"].

Definition fresh1 : Fresh := {| f_state := "st1"; f_nonce := "n1"; f_verifier := "v1" |}.
Definition no_hints : IdpHints := {|
  login_hint := None; prompt := None; max_age := None; acr_values := None; ui_locales := None |}.
Definition after_begin : OidcProvider := (begin_login fresh_provider 0 fresh1 "/home" no_hints).2.
Definition after_login : OidcProvider :=
  (complete_login after_begin 5 6 id "sid1" "code" "st1").2.

Lemma login_state_single_use_witness :
  NoDup (taken [LIssued "st1"; LTaken "st1"]) ∧
  ∀ s, s ∈ taken [LIssued "st1"; LTaken "st1"] → s ∈ issued [LIssued "st1"; LTaken "st1"].
Proof.
  apply (login_state_single_use fresh_provider _ after_login); [|reflexivity|].
  - apply (ev_trans _ [LIssued "st1"] after_begin [LTaken "st1"]).
    + exact (ev_begin fresh_provider 0 fresh1 "/home" no_hints eq_refl).
    + apply (ev_callback after_begin 5 6 id "sid1" "code" "st1"
        {| pkce_verifier := "v1"; nonce := "n1"; return_to := "/home"; created := 0 |} []);
        [vm_compute; reflexivity|reflexivity|vm_compute; discriminate|apply ev_refl].
  - apply NoDup_singleton.
Defined.

Lemma complete_login_sound_witness :
  states (complete_login after_begin 5 6 id "sid1" "code" "st1").2 !! "st1" = None ∧
  ∃ e, states after_begin !! "st1" = Some e ∧ return_to e = "/home".
Proof.
  destruct (complete_login_sound after_begin 5 6 id "sid1" "code" "st1") as [Hok Hst].
  split; [by apply Hst|].
  destruct (Hok {| id_username := "alice"; id_groups := [] |} "/home" (Some "sid1"))
    as (e & _ & _ & _ & _ & He & _ & Hret & _); [vm_compute; reflexivity|].
  by exists e.
Defined.

(** An answer of the user-info endpoint about somebody else makes the session
    theirs: the identity token is about alice, the answer about root. *)
Definition mixed_idp : OpenId := {|
  jwk := string; jwk_kid k := Some k; known_alg := String.eqb "ES256"; verify_signature k _ input s := String.eqb s (k +:+ input);
  id_token_claims tok _ := Some (JObj {[ "sub" := JStr "alice" ]}, "alice");
  exchange_code _ _ _ := Some {| tr_id_token := Some "idt"; tr_refresh_token := None; tr_access_token := "at" |};
  exchange_refresh _ _ := None;
  user_info _ := Some (Some (JObj {[ "sub" := JStr "root"; "email" := JStr "root@app" ]}));
  authorize_url _ _ _ _ _ := "" |}.

Definition mixed_provider : @OidcProvider _ mixed_idp := {|
  ready := true;
  cfg := {| issuer := "https://idp/"; client_id := "app"; client_secret := None;
    redirect_uri := "https://app/oidc/callback"; discovery_refresh_secs := 3600; discovery_retry := true;
    bearer_cache_size := 1024; scopes := ["openid"]; username_claim := "email";
    groups_claim := "groups"; login_path := "/oidc/login"; callback_path := "/oidc/callback";
    state_ttl_secs := 600; cfg_refresh := false; refresh_ttl_secs := 3600;
    refresh_cookie_name := "rsid"; logout_path := "/oidc/logout"; post_logout_uri := "/";
    idp_logout := false; userinfo := true; backchannel_logout_enabled := false;
    backchannel_logout_path := "/oidc/backchannel"; backchannel_max_iat_skew_secs := 120;
    backchannel_jti_ttl_secs := 300; bearer := false; bearer_audiences := [];
    require_iss := false; resources := []; revoke_on_logout := false |};
  states := {[ "st1" := {| pkce_verifier := "v1"; nonce := "n1"; return_to := "/home"; created := 0 |} ]};
  refreshes := ∅; end_session_url := None; revocation_url := None; jwks := None; seen_jtis := ∅; bearer_cache := blru_new 16;
  ometrics := {| oidc_discoveries := 0; oidc_discovery_failures := 0; oidc_userinfo_failures := 0 |} |}.

Lemma userinfo_subject_unchecked :
  (@complete_login _ mixed_idp mixed_provider 5 6 id "sid1" "code" "st1").1 =
    Ok ({| id_username := "root@app"; id_groups := [] |}, "/home", None) ∧
  snd <$> @id_token_claims mixed_idp "idt" (Some "n1") = Some "alice".
Proof. by vm_compute. Qed.

Lemma refresh_spec_witness :
  let '(r, p') := refresh after_login 7 8 id "sid2" "sid1" in
  r = Ok ({| id_username := "alice"; id_groups := [] |}, "sid2") ∧ refreshes p' !! "sid1" = None.
Proof.
  pose proof (refresh_spec after_login 7 8 "sid2" "sid1") as Hs.
  assert ((refresh after_login 7 8 id "sid2" "sid1").1 =
    Ok ({| id_username := "alice"; id_groups := [] |}, "sid2")) as Hr by (vm_compute; reflexivity).
  destruct (refresh after_login 7 8 id "sid2" "sid1") as [r p']. cbn in Hr. subst r.
  split; [reflexivity|]. destruct Hs as (_ & Hok & _); [reflexivity|discriminate|reflexivity|].
  by apply (Hok {| id_username := "alice"; id_groups := [] |} "sid2").
Defined.

(** Two presentations of one token, 120 s after and before its issue time. *)
Lemma logout_ok_demo w :
  w = 880 ∨ w = 1120 → logout_token_ok with_keys w (sign_token "logout") None (Some "s1") "j1".
Proof.
  intros Hw.
  exists {| pj_alg := "ES256"; pj_kid := Some "k1";
            signed_input := b64_encode "h" +:+ "." +:+ b64_encode "logout";
            signature_bytes := "k1" +:+ (b64_encode "h" +:+ "." +:+ b64_encode "logout");
            payload := default JNull (json_parse "logout") |}, ["k1"].
  destruct Hw as [-> | ->]; split_and!; vm_compute; reflexivity.
Qed.

Lemma backchannel_no_replay_witness :
  let p1 := (apply_backchannel_logout with_keys (Some 880) 0 (sign_token "logout")).2 in
  (apply_backchannel_logout (jti_run p1 [(1, Some "j2"); (2, None)]) (Some 1120)
     (from_secs 240) (sign_token "logout")).1 = Err "jti replay detected".
Proof.
  intros p1. apply (backchannel_no_replay with_keys 880 0 (sign_token "logout") None (Some "s1") "j1"
    0 p1 [(1, Some "j2"); (2, None)] 1120 (from_secs 240) None (Some "s1") "j1").
  - reflexivity.
  - reflexivity.
  - split; reflexivity.
  - apply logout_ok_demo. by left.
  - vm_compute. reflexivity.
  - repeat constructor; vm_compute; discriminate.
  - discriminate.
  - reflexivity.
  - apply logout_ok_demo. by right.
Defined.


End Demo.
End Oidc.
