(* ===== verification/OidcRoutes.v ===== *)
(** The OIDC endpoints ([src/oidc/routes.rs]): the login redirect and its
    return target, the callback, the two logouts, and the cookies they set. *)
From S2P Require Import Prelude RustStr Utf8 Http Errors Auth Jwt Oidc StaticFiles.

Module OidcRoutes.
Import Auth Jwt Oidc Errors.

(** * Query strings *)

Definition return_safe (b : ascii) : bool :=
  byte_in 65 90 b || byte_in 97 122 b || byte_in 48 57 b || contains_char b "-_.~/".

Fixpoint percent_encode_return (s : string) : string :=
  match s with
  | "" => ""
  | String b s' =>
      (if return_safe b then String b "" else StaticFiles.percent_byte b) +:+ percent_encode_return s'
  end.

(** Invalid escapes are left as they are. *)
Fixpoint percent_decode_loop (s : string) : string :=
  match s with
  | "" => ""
  | String c s' =>
      if Ascii.eqb c "%" then
        match s' with
        | String a (String b r) =>
            match StaticFiles.hex_nibble a, StaticFiles.hex_nibble b with
            | Some h, Some l => String (ascii_of_N (h * 16 + l)) (percent_decode_loop r)
            | _, _ => String c (percent_decode_loop s')
            end
        | _ => String c (percent_decode_loop s')
        end
      else String c (percent_decode_loop s')
  end.
Definition percent_decode (s : string) : string := from_utf8_lossy (percent_decode_loop s).

Definition query_param (query key : string) : option string :=
  head (omap (λ pair, match split_once "=" pair with
                      | Some (k, v) => if String.eqb k key then Some (percent_decode v) else None
                      | None => None
                      end) (split "&" query)).

(** * Hints and return targets *)

Definition MAX_HINT_LEN : nat := 256.

Definition validate_hint (value : string) : bool :=
  negb (is_empty value) && (String.length value <=? MAX_HINT_LEN)%nat &&
  str_all (byte_in 32 126) value.

Definition hint (query name : string) : Result (option string) :=
  match query_param query name with
  | None => Ok None
  | Some v => if validate_hint v then Ok (Some v) else Err "invalid hint"
  end.

Definition build_idp_hints (query : string) : Result IdpHints :=
  a ← hint query "login_hint"; b ← hint query "prompt"; c ← hint query "max_age";
  d ← hint query "acr_values"; e ← hint query "ui_locales";
  Ok {| login_hint := a; prompt := b; max_age := c; acr_values := d; ui_locales := e |}.

Definition build_login_redirect (login_path return_to : string) : string :=
  login_path +:+ "?return=" +:+ percent_encode_return return_to.

Definition validate_return_to (raw : string) : string :=
  if starts_with "/" raw && negb (starts_with "//" raw) &&
     negb (starts_with (String "/" (String backslash "")) raw)
  then raw else "/".

Section routes.
Context `{Http} `{Json} `{Base64Url} `{Es256} `{!BoundedLru BearerCacheEntry} `{OpenId}.

Definition wants_html (h : header_map) : bool :=
  if hm_contains_key h AUTHORIZATION then false
  else match get_str h "accept" with
       | Some s => contains_str "text/html" s || contains_str "*/*" s
       | None => false
       end.

Definition extract_bearer (headers : header_map) : option string :=
  raw ← get_str headers AUTHORIZATION;
  '(scheme, token) ← split_once " " raw;
  if negb (eq_ignore_ascii_case scheme "bearer") then None
  else let token := trim token in if is_empty token then None else Some token.

Definition cookie_value (headers : header_map) (name : string) : option string :=
  raw ← get_str headers COOKIE;
  head (omap (λ pair, match split_once "=" (trim pair) with
                      | Some (k, v) => if String.eqb k name then Some v else None
                      | None => None
                      end) (split ";" raw)).

(** * Cookies *)

Definition secure (is_tls : bool) (v : string) : string :=
  if is_tls then v +:+ "; Secure" else v.

Definition STATE_COOKIE : string := "__hypershunt_oidc_state".

Definition state_cookie_value (state_id : string) (ttl_secs : N) (is_tls : bool) : string :=
  secure is_tls (STATE_COOKIE +:+ "=" +:+ state_id +:+
    "; Path=/; HttpOnly; SameSite=Lax; Max-Age=" +:+ dec ttl_secs).
Definition clear_state_cookie (is_tls : bool) : string :=
  secure is_tls (STATE_COOKIE +:+ "=; Path=/; HttpOnly; SameSite=Lax; Max-Age=0").
Definition refresh_cookie_value (name sid : string) (ttl_secs : N) (is_tls : bool) : string :=
  secure is_tls (name +:+ "=" +:+ sid +:+
    "; Path=/; HttpOnly; SameSite=Strict; Max-Age=" +:+ dec ttl_secs).
Definition clear_refresh_cookie (name : string) (is_tls : bool) : string :=
  secure is_tls (name +:+ "=; Path=/; HttpOnly; SameSite=Strict; Max-Age=0").
Definition clear_jwt_cookie (name : string) (is_tls : bool) : string :=
  secure is_tls (name +:+ "=; Path=/; HttpOnly; SameSite=Strict; Max-Age=0").

(** * Logout *)

Definition build_logout_redirect (p : OidcProvider) (id_token_hint : option string) : string :=
  let post_logout := post_logout_uri (cfg p) in
  if negb (idp_logout (cfg p)) then post_logout
  else match end_session_url p with
  | None => post_logout
  | Some url =>
      let sep := if contains_char "?" url then "&" else "?" in
      let post := percent_encode_return post_logout in
      let cid := percent_encode_return (client_id (cfg p)) in
      match id_token_hint with
      | Some h => url +:+ sep +:+ "id_token_hint=" +:+ percent_encode_return h +:+
                  "&post_logout_redirect_uri=" +:+ post +:+ "&client_id=" +:+ cid
      | None => url +:+ sep +:+ "post_logout_redirect_uri=" +:+ post +:+ "&client_id=" +:+ cid
      end
  end.

(** The counters the endpoints bump. *)
Inductive Counter :=
  | oidc_backchannel_failures
  | oidc_backchannel_logouts
  | oidc_callback_iss_mismatches.

(** [revoke_refresh_token] up to the spawned request: whether it is sent. *)
Definition revokes (p : OidcProvider) : bool :=
  revoke_on_logout (cfg p) && bool_decide (is_Some (revocation_url p)) && ready p.

(** The response ([None] is a panic), the provider, and the refresh token
    handed to the revocation task. *)
Definition handle_oidc_logout (p : OidcProvider) (jwt : option JwtManager) (headers : header_map)
    (is_tls : bool) : option HttpResponse * OidcProvider * option string :=
  let '(popped, p') :=
    match cookie_value headers (refresh_cookie_name (cfg p)) with
    | Some sid => take_logout_session p sid
    | None => (None, p)
    end in
  let revoked := if revokes p' then snd <$> popped else None in
  let location := build_logout_redirect p' (fst <$> popped) in
  (build 302
     (("location", location) ::
      match jwt with
      | Some j => [(SET_COOKIE, clear_jwt_cookie (cookie_name (config j)) is_tls)]
      | None => []
      end ++
      [(SET_COOKIE, clear_refresh_cookie (refresh_cookie_name (cfg p)) is_tls);
       (SET_COOKIE, clear_state_cookie is_tls)]) "",
   p', revoked).

(** * Login and callback *)

Definition handle_oidc_login (p : OidcProvider) (now : Instant) (fresh : Fresh) (query : string)
    (is_tls : bool) : option HttpResponse * OidcProvider :=
  let ret := validate_return_to (default "/" (query_param query "return")) in
  match build_idp_hints query with
  | Err _ => (response_400, p)
  | Ok hints =>
      match begin_login p now fresh ret hints with
      | (None, p') => (response_503_retry 5, p')
      | (Some (url, state_id), p') =>
          (build 302 [("location", url); (SET_COOKIE, state_cookie_value state_id 600 is_tls)] "", p')
      end
  end.

Section callback.
Context (read_file : string → option string) (pages : ErrorPages).

Definition bad_request : option HttpResponse := response_status read_file 400 (Some pages).

(** The RFC 9207 check of the [iss] parameter. *)
Definition iss_accepted (p : OidcProvider) (iss_param : option string) : bool :=
  match iss_param with
  | Some iss => String.eqb (trim_end_by (Ascii.eqb "/") iss) (canonical_issuer p)
  | None => negb (require_iss (cfg p))
  end.

Definition handle_oidc_callback (p : OidcProvider) (jwt : option JwtManager) (clock : option N)
    (now1 now2 : Instant) (during : OidcProvider → OidcProvider) (fresh_sid : string)
    (headers : header_map) (query : string) (is_tls : bool)
    : option HttpResponse * OidcProvider * list Counter :=
  match query_param query "code", query_param query "state" with
  | Some code, Some state =>
      if negb (iss_accepted p (query_param query "iss"))
      then (bad_request, p, [oidc_callback_iss_mismatches])
      else if negb (bool_decide (cookie_value headers STATE_COOKIE = Some state))
      then (bad_request, p, [])
      else
        match complete_login p now1 now2 during fresh_sid code state with
        | (Err _, p') => (bad_request, p', [])
        | (Ok (ident, ret, refresh_sid), p') =>
            match jwt with
            | None => (response_status read_file 500 (Some pages), p', [])
            | Some j =>
                match make_set_cookie j clock ident is_tls with
                | Err _ => (response_status read_file 500 (Some pages), p', [])
                | Ok session_cookie =>
                    (build 302
                       ([("location", ret); (SET_COOKIE, session_cookie);
                         (SET_COOKIE, clear_state_cookie is_tls)] ++
                        match refresh_sid with
                        | Some sid => [(SET_COOKIE, refresh_cookie_value (refresh_cookie_name (cfg p))
                                          sid (refresh_ttl_secs (cfg p)) is_tls)]
                        | None => []
                        end) "", p', [])
                end
            end
        end
  | _, _ => (bad_request, p, [])
  end.

(** * Back-channel logout *)

Definition is_form (headers : header_map) : bool :=
  match get_str headers CONTENT_TYPE with
  | Some s => eq_ignore_ascii_case (trim (default "" (head (split ";" s))))
                "application/x-www-form-urlencoded"
  | None => false
  end.

Definition BODY_CAP : N := 65536.

(** [Limited::new(body, cap).collect()]: fails on an error or an overrun. *)
Definition collect_limited (body : Body) : option string :=
  match body with
  | Full b => if str_len b <=? BODY_CAP then Some b else None
  | Failing => None
  end.

Definition handle_oidc_backchannel_logout (p : OidcProvider) (wall : option N) (now : Instant)
    (headers : header_map) (body : Body) : option HttpResponse * OidcProvider * list Counter :=
  let failed p := (bad_request, p, [oidc_backchannel_failures]) in
  if negb (is_form headers) then failed p
  else match (b ← collect_limited body; s ← from_utf8 b; query_param s "logout_token") with
  | None => failed p
  | Some token =>
      match apply_backchannel_logout p wall now token with
      | (Err _, p') => failed p'
      | (Ok _, p') => (build 200 [(CACHE_CONTROL, "no-store")] "", p', [oidc_backchannel_logouts])
      end
  end.

End callback.
End routes.
(** * Round trip of the return target *)

Lemma decode_safe_byte b t :
  return_safe b = true → percent_decode_loop (String b t) = String b (percent_decode_loop t).
Proof.
  intros Hb. cbn [percent_decode_loop]. destruct (Ascii.eqb_spec b "%") as [->|]; [|done].
  by vm_compute in Hb.
Qed.

Lemma decode_escaped_byte b t :
  percent_decode_loop (StaticFiles.percent_byte b +:+ t) = String b (percent_decode_loop t).
Proof. by destruct b as [[] [] [] [] [] [] [] []]. Qed.

Lemma decode_encode_return s : percent_decode_loop (percent_encode_return s) = s.
Proof.
  induction s as [|b s IH]; [done|]. cbn [percent_encode_return].
  destruct (return_safe b) eqn:E.
  - change (String b "" +:+ ?x) with (String b x). by rewrite decode_safe_byte, IH.
  - by rewrite decode_escaped_byte, IH.
Qed.

(** Characters an encoded target consists of. *)
Definition encoded_char (c : ascii) : bool := return_safe c || Ascii.eqb c "%".

Lemma encode_return_chars s : str_all encoded_char (percent_encode_return s) = true.
Proof.
  induction s as [|b s IH]; [done|]. cbn [percent_encode_return]. rewrite str_all_app, IH.
  destruct (return_safe b) eqn:E.
  - cbn [str_all]. unfold encoded_char. by rewrite E.
  - clear. by destruct b as [[] [] [] [] [] [] [] []].
Qed.

Lemma encoded_excludes c s :
  encoded_char c = false → contains_char c (percent_encode_return s) = false.
Proof.
  intros Hc. rewrite contains_char_all, (str_all_impl encoded_char); [done| |apply encode_return_chars].
  intros x Hx. destruct (Ascii.eqb_spec x c) as [->|]; [by rewrite Hc in Hx|done].
Qed.

(** The login redirect carries the address of the page that asked for it
    through unharmed: the query of the redirect, read back by the login
    endpoint, gives the same target, whatever bytes the address has. *)
Theorem login_redirect_roundtrip login_path target :
  contains_char "?" login_path = false → valid_utf8 target = true →
  ∃ query, split_once "?" (build_login_redirect login_path target) = Some (login_path, query) ∧
    query_param query "return" = Some target.
Proof.
  intros Hp Hv. exists ("return=" +:+ percent_encode_return target).
  unfold build_login_redirect. change ("?return=" +:+ ?x) with (String "?" ("return=" +:+ x)).
  split; [by apply split_once_app|]. unfold query_param.
  rewrite split_no_sep.
  2: { change ("return=" +:+ ?x) with (String "r" (String "e" (String "t" (String "u" (String "r"
         (String "n" (String "=" x))))))). cbn [contains_char].
       by rewrite encoded_excludes. }
  cbn [omap list_omap].
  change ("return=" +:+ percent_encode_return target)
    with ("return" +:+ String "=" (percent_encode_return target)).
  rewrite split_once_app by done. cbn. unfold percent_decode.
  by rewrite decode_encode_return, from_utf8_lossy_valid.
Qed.

Lemma login_redirect_roundtrip_witness :
  ∃ query, split_once "?" (build_login_redirect "/oidc/login" "/a?b=c&d") = Some ("/oidc/login", query) ∧
    query_param query "return" = Some "/a?b=c&d".
Proof. apply (login_redirect_roundtrip "/oidc/login" "/a?b=c&d"); reflexivity. Defined.

(** * Where the browser ends up *)

(** The first step of a browser's URL parser removes tabs and line breaks. *)
Fixpoint strip_tab_newline (s : string) : string :=
  match s with
  | "" => ""
  | String c s' =>
      let n := N_of_ascii c in
      if (n =? 9) || (n =? 10) || (n =? 13) then strip_tab_newline s'
      else String c (strip_tab_newline s')
  end.

Definition TAB : ascii := ascii_of_N 9.

(** What the check on the target does guarantee. *)
Lemma validate_return_to_local raw :
  starts_with "/" (validate_return_to raw) = true ∧
  starts_with "//" (validate_return_to raw) = false ∧
  starts_with (String "/" (String backslash "")) (validate_return_to raw) = false.
Proof.
  unfold validate_return_to.
  destruct (starts_with "/" raw && _ && _) eqn:E; [|done].
  apply andb_true_iff in E as [[? ?%negb_true_iff]%andb_true_iff ?%negb_true_iff]. done.
Qed.

Lemma decode_no_percent s : contains_char "%" s = false → percent_decode_loop s = s.
Proof.
  induction s as [|c s IH]; [done|]. cbn [contains_char]. intros [Hc Hs]%orb_false_iff.
  cbn [percent_decode_loop]. by rewrite Hc, IH.
Qed.

Lemma visible_ascii s : str_all visible s = true → valid_utf8 s = true.
Proof.
  intros Hs. apply valid_utf8_ascii. eapply str_all_impl; [|done].
  by intros [[] [] [] [] [] [] [] []].
Qed.

(** The check that keeps the post-login redirect on this site can be passed
    with a tab: a link to the login endpoint whose target is a slash, an
    escaped tab, a slash and another host is accepted, is a valid Location
    value, and is read by a browser, which drops tabs from addresses, as an
    address on that other host. *)
Theorem return_target_leaves_site `{Http, !HttpTextLaws} host :
  contains_char "&" host = false → contains_char "%" host = false → str_all visible host = true →
  let target := validate_return_to (default "/" (query_param ("return=/%09/" +:+ host) "return")) in
  target = String "/" (String TAB (String "/" host)) ∧
  is_Some (hv_from_str target) ∧
  strip_tab_newline target = "//" +:+ strip_tab_newline host.
Proof.
  intros Hamp Hpct Hvis target.
  assert (target = String "/" (String TAB (String "/" host))) as ->.
  { unfold target, query_param. rewrite split_no_sep.
    2: { change (contains_char "&" host = false). done. }
    cbn [omap list_omap].
    change ("return=/%09/" +:+ host) with ("return" +:+ String "=" ("/%09/" +:+ host)).
    rewrite split_once_app by done. rewrite String.eqb_refl. cbn [head default].
    unfold percent_decode.
    change (percent_decode_loop ("/%09/" +:+ host))
      with (String "/" (String TAB (String "/" (percent_decode_loop host)))).
    rewrite decode_no_percent by done. rewrite from_utf8_lossy_valid; [done|].
    change (valid_utf8 (String "/" (String TAB (String "/" host)))) with (valid_utf8 host).
    by apply visible_ascii. }
  split; [done|]. split; [|done].
  destruct (hv_from_str_visible (String "/" (String TAB (String "/" host)))) as (v & -> & _); [done|].
  by eexists.
Qed.

Lemma return_target_leaves_site_witness :
  let target := validate_return_to (default "/" (query_param ("return=/%09/" +:+ "evil.example") "return")) in
  target = String "/" (String TAB (String "/" "evil.example")) ∧
  is_Some (hv_from_str (Http := assoc_http) target) ∧
  strip_tab_newline target = "//" +:+ strip_tab_newline "evil.example".
Proof. apply (return_target_leaves_site "evil.example"); reflexivity. Defined.

(** * The callback *)

Section callback_facts.
Context `{Http} `{Json} `{Base64Url} `{Es256} `{!BoundedLru BearerCacheEntry} `{OpenId}.
Context (read_file : string → option string) (pages : ErrorPages).

Lemma complete_login_known p now1 now2 during fresh_sid code st r q :
  complete_login p now1 now2 during fresh_sid code st = (Ok r, q) → is_Some (states p !! st).
Proof.
  unfold complete_login. destruct (ready p); [|done]. cbn [negb].
  destruct (states p !! st); [by eexists|done].
Qed.

Lemma error_page_status code r :
  response_status read_file code (Some pages) = Some r → resp_status r = code ∨ resp_status r = 403.
Proof.
  unfold response_status. destruct (build code _ _) as [r'|] eqn:E.
  - intros [= <-]. apply build_inv in E as (? & _). by left.
  - intros Hb. apply build_inv in Hb as (? & _). by right.
Qed.

(** C19: the callback starts a session only for the browser that began the
    login: a redirect answer means the state of the query is pending here and
    equals the state cookie of the request, and the issuer parameter, if
    required or present, is ours. *)
Theorem callback_bound_to_browser p jwt clock now1 now2 during fresh_sid headers query is_tls r q cs :
  handle_oidc_callback read_file pages p jwt clock now1 now2 during fresh_sid headers query is_tls
    = (Some r, q, cs) →
  resp_status r = 302 →
  ∃ state, query_param query "state" = Some state ∧ is_Some (states p !! state) ∧
    cookie_value headers STATE_COOKIE = Some state ∧
    match query_param query "iss" with
    | Some iss => trim_end_by (Ascii.eqb "/") iss = canonical_issuer p
    | None => require_iss (cfg p) = false
    end.
Proof.
  intros Hcb Hs. unfold handle_oidc_callback in Hcb.
  assert (∀ code, code ≠ 302 → response_status read_file code (Some pages) ≠ Some r) as Herr.
  { intros code Hc E. apply error_page_status in E as [|]; lia. }
  destruct (query_param query "code") as [code|]; [|injection Hcb; intros; by destruct (Herr 400)].
  destruct (query_param query "state") as [state|]; [|injection Hcb; intros; by destruct (Herr 400)].
  destruct (iss_accepted p _) eqn:Ei; cbn [negb] in Hcb; [|injection Hcb; intros; by destruct (Herr 400)].
  case_bool_decide as Hst; cbn [negb] in Hcb; [|injection Hcb; intros; by destruct (Herr 400)].
  destruct (complete_login _ _ _ _ _ _ _) as [[res|e] q'] eqn:El;
    [|injection Hcb; intros; by destruct (Herr 400)].
  exists state. split_and!; [done|by eapply complete_login_known|done|].
  unfold iss_accepted in Ei. destruct (query_param query "iss"); [by apply String.eqb_eq|].
  by apply negb_true_iff.
Qed.

(** Logging out ends the session at the server: the id in the cookie is no
    longer known, and every cookie of the session is cleared. *)
Lemma logout_ends_session p jwt headers is_tls sid r q tok :
  cookie_value headers (refresh_cookie_name (cfg p)) = Some sid →
  handle_oidc_logout p jwt headers is_tls = (r, q, tok) →
  refreshes q !! sid = None ∧ ∀ k, k ≠ sid → refreshes q !! k = refreshes p !! k.
Proof.
  intros Hc. unfold handle_oidc_logout, take_logout_session. rewrite Hc.
  destruct (refreshes p !! sid) as [e|] eqn:E; intros [= _ <- _]; cbn; [|done].
  split; [apply lookup_delete_eq|]. intros. by apply lookup_delete_ne.
Qed.

End callback_facts.

#[local] Existing Instances Jwt.Demo.hex_b64 Jwt.Demo.tag_sig Jwt.Demo.assoc_lru
  Oidc.Demo.table_json Oidc.Demo.tag_idp.

Lemma callback_bound_to_browser_witness :
  let headers := hm_append hm_new COOKIE
                   ("__hypershunt_oidc_state=st1" : @header_value assoc_http) in
  ∃ state, query_param "code=c&state=st1&iss=https://idp" "state" = Some state ∧
    is_Some (states Oidc.Demo.after_begin !! state) ∧
    cookie_value headers STATE_COOKIE = Some state ∧
    match query_param "code=c&state=st1&iss=https://idp" "iss" with
    | Some iss => trim_end_by (Ascii.eqb "/") iss = canonical_issuer Oidc.Demo.after_begin
    | None => require_iss (cfg Oidc.Demo.after_begin) = false
    end.
Proof.
  intros headers.
  destruct (handle_oidc_callback (λ _, None) ∅ Oidc.Demo.after_begin
    (Some Jwt.Demo.demo) (Some 1000) 5 6 id "sid1" headers "code=c&state=st1&iss=https://idp" false)
    as [[r q] cs] eqn:E.
  assert (fmap resp_status r = Some 302) as Hr by (change r with (r, q, cs).1.1; rewrite <- E; vm_compute; reflexivity).
  destruct r as [r|]; [|discriminate Hr]. injection Hr as Hr.
  exact (callback_bound_to_browser _ _ _ _ _ _ _ _ _ _ _ _ _ _ _ E Hr).
Defined.

End OidcRoutes.
