(* ===== verification/Archive.v ===== *)
(** The metrics archives ([src/metrics.rs]): ring buffers of 5-second samples
    and their consolidation into minute, hour and day archives, the top-path
    tables and the windows the status page reads.

    The parallel vectors of an archive are a record of columns; indexing
    panics out of range, hence the options.  The floating-point CPU share and
    the iteration order of a hash map are parameters. *)
From stdpp Require Import sorting.
From S2P Require Import Prelude RustStr Metrics.

Module Archive.
Import Metrics.

Definition WINDOW_SECS : N := 5.
Definition FINE_SLOTS : nat := 720.
Definition MINUTE_SLOTS : nat := 1440.
Definition HOURLY_SLOTS : nat := 720.
Definition DAILY_SLOTS : nat := 365.
#[global] Arguments FINE_SLOTS : simpl never.
#[global] Arguments MINUTE_SLOTS : simpl never.
#[global] Arguments HOURLY_SLOTS : simpl never.
#[global] Arguments DAILY_SLOTS : simpl never.
Definition MINUTE_RATIO : N := 12.
Definition HOURLY_RATIO : N := 60.
Definition DAILY_RATIO : N := 24.
Definition COARSE_TOP_PATHS : nat := 20.
Definition TOP_PATHS_LIMIT : nat := 20.

(** * Periods *)

Inductive TimePeriod :=
  | Min5 | Min15 | Min60 | Hr3 | Hr6 | Hr12 | Day1 | Day7 | Day30
  | Month1 | Month3 | Month6 | Month12.

Definition from_query (s : string) : TimePeriod :=
  if bool_decide (s ∈ ["5min"; "5m"]) then Min5
  else if bool_decide (s ∈ ["15min"; "15m"]) then Min15
  else if bool_decide (s ∈ ["1h"; "60min"; "60m"]) then Min60
  else if String.eqb s "3h" then Hr3
  else if String.eqb s "6h" then Hr6
  else if String.eqb s "12h" then Hr12
  else if String.eqb s "1d" then Day1
  else if String.eqb s "7d" then Day7
  else if String.eqb s "30d" then Day30
  else if String.eqb s "1mo" then Month1
  else if String.eqb s "3mo" then Month3
  else if String.eqb s "6mo" then Month6
  else if bool_decide (s ∈ ["1y"; "12mo"]) then Month12
  else Min15.

Definition as_str (p : TimePeriod) : string :=
  match p with
  | Min5 => "5min" | Min15 => "15min" | Min60 => "1h" | Hr3 => "3h" | Hr6 => "6h" | Hr12 => "12h"
  | Day1 => "1d" | Day7 => "7d" | Day30 => "30d" | Month1 => "1mo" | Month3 => "3mo"
  | Month6 => "6mo" | Month12 => "1y"
  end.

(** The archive (0 fine, 1 minute, 2 hourly, 3 daily) and its slots. *)
Definition archive (p : TimePeriod) : N * nat :=
  match p with
  | Min5 => (0, 60%nat) | Min15 => (0, 180%nat) | Min60 => (0, FINE_SLOTS)
  | Hr3 => (1, 180%nat) | Hr6 => (1, 360%nat) | Hr12 => (1, 720%nat) | Day1 => (1, MINUTE_SLOTS)
  | Day7 => (2, 168%nat) | Day30 => (2, HOURLY_SLOTS) | Month1 => (2, HOURLY_SLOTS)
  | Month3 => (3, 90%nat) | Month6 => (3, 180%nat) | Month12 => (3, DAILY_SLOTS)
  end.

Definition step_secs (p : TimePeriod) : N :=
  match (archive p).1 with
  | 0 => WINDOW_SECS
  | 1 => WINDOW_SECS * MINUTE_RATIO
  | 2 => WINDOW_SECS * MINUTE_RATIO * HOURLY_RATIO
  | _ => WINDOW_SECS * MINUTE_RATIO * HOURLY_RATIO * DAILY_RATIO
  end.

(** * Columns *)

(** One row of an archive. *)
Record Slot := {
  req : N;
  mem : N;
  cpu : N;
  auth : N;
  jwt : N;
  jwt_expiry : N;
  jwt_issued : N;
  err4xx : N;
  err5xx : N;
  active : N;
}.

Definition slot_zero : Slot :=
  {| req := 0; mem := 0; cpu := 0; auth := 0; jwt := 0; jwt_expiry := 0; jwt_issued := 0;
     err4xx := 0; err5xx := 0; active := 0 |}.

(** The parallel vectors. *)
Record Columns := {
  c_req : list N;
  c_mem : list N;
  c_cpu : list N;
  c_auth : list N;
  c_jwt : list N;
  c_jwt_expiry : list N;
  c_jwt_issued : list N;
  c_err4xx : list N;
  c_err5xx : list N;
  c_active : list N;
}.

Definition cols_new (cap : nat) : Columns :=
  let z := replicate cap 0 in
  {| c_req := z; c_mem := z; c_cpu := z; c_auth := z; c_jwt := z; c_jwt_expiry := z;
     c_jwt_issued := z; c_err4xx := z; c_err5xx := z; c_active := z |}.

(** [v[i] = x], a panic out of range. *)
Definition vec_set {A} (l : list A) (i : nat) (x : A) : option (list A) :=
  if (i <? length l)%nat then Some (<[i := x]> l) else None.

Definition cols_get (c : Columns) (i : nat) : option Slot :=
  a1 ← c_req c !! i; a2 ← c_mem c !! i; a3 ← c_cpu c !! i; a4 ← c_auth c !! i;
  a5 ← c_jwt c !! i; a6 ← c_jwt_expiry c !! i; a7 ← c_jwt_issued c !! i;
  a8 ← c_err4xx c !! i; a9 ← c_err5xx c !! i; a10 ← c_active c !! i;
  Some {| req := a1; mem := a2; cpu := a3; auth := a4; jwt := a5; jwt_expiry := a6;
          jwt_issued := a7; err4xx := a8; err5xx := a9; active := a10 |}.

Definition cols_set (c : Columns) (i : nat) (s : Slot) : option Columns :=
  l1 ← vec_set (c_req c) i (req s); l2 ← vec_set (c_mem c) i (mem s);
  l3 ← vec_set (c_cpu c) i (cpu s); l4 ← vec_set (c_auth c) i (auth s);
  l5 ← vec_set (c_jwt c) i (jwt s); l6 ← vec_set (c_jwt_expiry c) i (jwt_expiry s);
  l7 ← vec_set (c_jwt_issued c) i (jwt_issued s); l8 ← vec_set (c_err4xx c) i (err4xx s);
  l9 ← vec_set (c_err5xx c) i (err5xx s); l10 ← vec_set (c_active c) i (active s);
  Some {| c_req := l1; c_mem := l2; c_cpu := l3; c_auth := l4; c_jwt := l5; c_jwt_expiry := l6;
          c_jwt_issued := l7; c_err4xx := l8; c_err5xx := l9; c_active := l10 |}.

(** * Archives *)

(** The counters a tick reads, kept as the baseline of the next. *)
Record Baseline := {
  last_total : N;
  last_auth : N;
  last_jwt : N;
  last_jwt_expiry : N;
  last_jwt_issued : N;
  last_4xx : N;
  last_5xx : N;
  last_cpu_ticks : N;
}.

Record FineHistory := {
  f_cols : Columns;
  f_head : nat;
  f_written : N;
  f_last : Baseline;
}.

Definition fine_new : FineHistory :=
  {| f_cols := cols_new FINE_SLOTS; f_head := 0; f_written := 0;
     f_last := {| last_total := 0; last_auth := 0; last_jwt := 0; last_jwt_expiry := 0;
                  last_jwt_issued := 0; last_4xx := 0; last_5xx := 0; last_cpu_ticks := 0 |} |}.

(** [slots] of [PathData]; the accumulator is [current_paths]. *)
Record PathData := {
  p_slots : list (gmap string N);
  p_head : nat;
}.
Definition paths_new : PathData := {| p_slots := replicate FINE_SLOTS ∅; p_head := 0 |}.

Record CoarseArchive := {
  a_cols : Columns;
  a_paths : list (list (string * N));
  a_cap : nat;
  a_head : nat;
  a_written : N;
}.

Definition coarse_new (cap : nat) : CoarseArchive :=
  {| a_cols := cols_new cap; a_paths := replicate cap []; a_cap := cap; a_head := 0; a_written := 0 |}.

Record Archives := {
  fine : FineHistory;
  paths : PathData;
  minute : CoarseArchive;
  hourly : CoarseArchive;
  daily : CoarseArchive;
}.

Definition archives_new : Archives :=
  {| fine := fine_new; paths := paths_new; minute := coarse_new MINUTE_SLOTS;
     hourly := coarse_new HOURLY_SLOTS; daily := coarse_new DAILY_SLOTS |}.

(** [u64] sums. *)
Definition sum64 (l : list N) : N := fold_left (λ a x, wrap64 (a + x)) l 0.
Definition as_u16 (n : N) : N := n mod 65536.

(** [window_req]: the request counts of the [n] last slots. *)
Definition window_req (h : FineHistory) (n : nat) : option N :=
  let n := Nat.min n FINE_SLOTS in
  sum64 <$> mapM (λ i, c_req (f_cols h) !! ((f_head h + FINE_SLOTS - 1 - i) mod FINE_SLOTS)%nat)
              (seq 0 n).

(** The rows at [(head + cap - n + i) % cap], the oldest first. *)
Definition window (c : Columns) (cap head n : nat) : option (list Slot) :=
  mapM (λ i, cols_get c ((head + cap - n + i) mod cap)%nat) (seq 0 n).

Section archives.
(** [((delta as f64 / WINDOW_SECS as f64).min(100.0) * 100.0) as u16]. *)
Context (cpu_share : N → N).
(** The order in which a hash map is iterated. *)
Context (iter_map : gmap string N → list (string * N)).

(** * Consolidation *)

(** [*counts.entry(k).or_insert(0) += v]. *)
Definition add_count (counts : gmap string N) (kv : string * N) : gmap string N :=
  <[kv.1 := wrap64 (default 0 (counts !! kv.1) + kv.2)]> counts.

(** Descending by count, a stable sort, cut at the limit. *)
Definition by_count (a b : string * N) : Prop := b.2 ≤ a.2.
#[global] Instance by_count_dec : RelDecision by_count.
Proof. intros a b. unfold by_count. apply _. Defined.

Definition top_n (l : list (string * N)) (limit : nat) : list (string * N) :=
  take limit (merge_sort by_count l).

(** [checked_div(n).unwrap_or(0)]. *)
Definition checked_div (a b : N) : N := if b =? 0 then 0 else a / b.

(** The row a window consolidates to: sums for the counters, narrowed to the
    width of the column, and averages for the gauges. *)
Definition consolidate (w : list Slot) : Slot :=
  let total f := sum64 (f <$> w) in
  let live := List.filter (λ s, 0 <? mem s) w in
  let mem_count := N.of_nat (length live) in
  {| req := wrap32 (total req);
     mem := wrap32 (checked_div (sum64 (mem <$> live)) mem_count);
     cpu := N.min (wrap32 (checked_div (sum64 (cpu <$> live)) mem_count)) u16_max;
     auth := as_u16 (total auth);
     jwt := as_u16 (total jwt);
     jwt_expiry := as_u16 (total jwt_expiry);
     jwt_issued := as_u16 (total jwt_issued);
     err4xx := as_u16 (total err4xx);
     err5xx := as_u16 (total err5xx);
     active := N.min (wrap32 (total active / N.of_nat (length w))) u16_max |}.

(** The common write of [consolidate_fine_to_minute] and
    [consolidate_coarse]. *)
Definition push_coarse (d : CoarseArchive) (s : Slot) (ps : list (string * N)) : option CoarseArchive :=
  cols ← cols_set (a_cols d) (a_head d) s;
  paths ← vec_set (a_paths d) (a_head d) ps;
  Some {| a_cols := cols; a_paths := paths; a_cap := a_cap d;
          a_head := ((a_head d + 1) mod a_cap d)%nat; a_written := wrap64 (a_written d + 1) |}.

Definition consolidate_fine_to_minute (h : FineHistory) (ph : PathData) (m : CoarseArchive)
    : option (CoarseArchive * N) :=
  let n := N.to_nat MINUTE_RATIO in
  w ← window (f_cols h) FINE_SLOTS (f_head h) n;
  ps ← mapM (λ i, p_slots ph !! ((p_head ph + FINE_SLOTS - n + i) mod FINE_SLOTS)%nat) (seq 0 n);
  let counts := fold_left (λ c sl, fold_left add_count (iter_map sl) c) ps ∅ in
  m' ← push_coarse m (consolidate w) (top_n (iter_map counts) COARSE_TOP_PATHS);
  Some (m', a_written m').

Definition consolidate_coarse (src dst : CoarseArchive) (n : nat) : option (CoarseArchive * N) :=
  let n := Nat.min n (a_cap src) in
  w ← window (a_cols src) (a_cap src) (a_head src) n;
  ps ← mapM (λ i, a_paths src !! ((a_head src + a_cap src - n + i) mod a_cap src)%nat) (seq 0 n);
  let counts := fold_left (λ c sl, fold_left add_count sl c) ps ∅ in
  d' ← push_coarse dst (consolidate w) (top_n (iter_map counts) COARSE_TOP_PATHS);
  Some (d', a_written d').

(** * The tick *)

(** What a tick reads: the counters, the gauge, and the kernel's files. *)
Record Sample := {
  sm_total : N;
  sm_auth : N;
  sm_jwt : N;
  sm_jwt_expiry : N;
  sm_jwt_issued : N;
  sm_4xx : N;
  sm_5xx : N;
  sm_active : Z;
  sm_mem_kb : option N;
  sm_cpu_ticks : option N;
}.

Definition sample_of (m : Metrics) (mem_kb cpu_ticks : option N) : Sample :=
  {| sm_total := total (requests m); sm_auth := named m auth_failures; sm_jwt := named m jwt_failures;
     sm_jwt_expiry := named m jwt_expiries; sm_jwt_issued := named m Metrics.jwt_issued;
     sm_4xx := s4xx (requests m); sm_5xx := s5xx (requests m); sm_active := requests_active m;
     sm_mem_kb := mem_kb; sm_cpu_ticks := cpu_ticks |}.

(** [(now.saturating_sub(last) as u32).min(u16::MAX as u32) as u16]. *)
Definition delta16 (now last : N) : N := N.min (wrap32 (now - last)) u16_max.

(** The row a tick writes. *)
Definition fine_slot (b : Baseline) (s : Sample) : Slot :=
  let cpu_now := default 0 (sm_cpu_ticks s) in
  {| req := wrap32 (sm_total s - last_total b);
     mem := wrap32 (default 0 (sm_mem_kb s));
     cpu := cpu_share (if last_cpu_ticks b =? 0 then 0 else cpu_now - last_cpu_ticks b);
     auth := delta16 (sm_auth s) (last_auth b);
     jwt := delta16 (sm_jwt s) (last_jwt b);
     jwt_expiry := delta16 (sm_jwt_expiry s) (last_jwt_expiry b);
     jwt_issued := delta16 (sm_jwt_issued s) (last_jwt_issued b);
     err4xx := delta16 (sm_4xx s) (last_4xx b);
     err5xx := delta16 (sm_5xx s) (last_5xx b);
     active := Z.to_N (Z.min (Z.max (sm_active s) 0) 65535) |}.

Definition baseline_of (s : Sample) : Baseline :=
  {| last_total := sm_total s; last_auth := sm_auth s; last_jwt := sm_jwt s;
     last_jwt_expiry := sm_jwt_expiry s; last_jwt_issued := sm_jwt_issued s;
     last_4xx := sm_4xx s; last_5xx := sm_5xx s; last_cpu_ticks := default 0 (sm_cpu_ticks s) |}.

Definition write_fine (h : FineHistory) (s : Sample) : option FineHistory :=
  cols ← cols_set (f_cols h) (f_head h) (fine_slot (f_last h) s);
  Some {| f_cols := cols; f_head := ((f_head h + 1) mod FINE_SLOTS)%nat;
          f_written := wrap64 (f_written h + 1); f_last := baseline_of s |}.

(** [mem::take(&mut p.current).into_iter().collect()] into the ring. *)
Definition flush_paths (p : PathData) (current : gmap string N) : option PathData :=
  slots ← vec_set (p_slots p) (p_head p) current;
  Some {| p_slots := slots; p_head := ((p_head p + 1) mod FINE_SLOTS)%nat |}.

Definition is_multiple_of (n r : N) : bool := n mod r =? 0.

(** The rest of a round of [tick_loop]: consolidation, when due. *)
Definition roll_up (h : FineHistory) (p : PathData) (a : Archives) : option Archives :=
  if negb (is_multiple_of (f_written h) MINUTE_RATIO) then
    Some {| fine := h; paths := p; minute := minute a; hourly := hourly a; daily := daily a |}
  else
    '(m, minute_written) ← consolidate_fine_to_minute h p (minute a);
    if negb (is_multiple_of minute_written HOURLY_RATIO) then
      Some {| fine := h; paths := p; minute := m; hourly := hourly a; daily := daily a |}
    else
      '(hr, hourly_written) ← consolidate_coarse m (hourly a) (N.to_nat HOURLY_RATIO);
      if negb (is_multiple_of hourly_written DAILY_RATIO) then
        Some {| fine := h; paths := p; minute := m; hourly := hr; daily := daily a |}
      else
        '(d, _) ← consolidate_coarse hr (daily a) (N.to_nat DAILY_RATIO);
        Some {| fine := h; paths := p; minute := m; hourly := hr; daily := d |}.

(** One round of [tick_loop]; the path accumulator is emptied. *)
Definition tick (a : Archives) (s : Sample) (current : gmap string N) : option Archives :=
  h ← write_fine (fine a) s;
  p ← flush_paths (paths a) current;
  roll_up h p a.

(** The round as the task runs it against the shared metrics. *)
Definition tick_metrics (a : Archives) (m : Metrics) (mem_kb cpu_ticks : option N)
    : option (Archives * Metrics) :=
  a' ← tick a (sample_of m mem_kb cpu_ticks) (current_paths m);
  Some (a', set_paths m ∅).

(** * Reading *)

(** The counter columns of [fine_sparkline] and [coarse_sparkline]; the
    request rate is left as the count and the step to divide it by. *)
Definition sparkline (c : Columns) (cap head n : nat) : option (list Slot) :=
  window c cap head (Nat.min n cap).

Definition sparkline_for_period (a : Archives) (p : TimePeriod) : option (list Slot * N) :=
  let '(kind, n) := archive p in
  rows ← match kind with
         | 0 => sparkline (f_cols (fine a)) FINE_SLOTS (f_head (fine a)) n
         | 1 => sparkline (a_cols (minute a)) (a_cap (minute a)) (a_head (minute a)) n
         | 2 => sparkline (a_cols (hourly a)) (a_cap (hourly a)) (a_head (hourly a)) n
         | _ => sparkline (a_cols (daily a)) (a_cap (daily a)) (a_head (daily a)) n
         end;
  Some (rows, step_secs p).

Definition fine_paths (ph : PathData) (current : gmap string N) (n : nat) : option (list (string * N)) :=
  let n := Nat.min n FINE_SLOTS in
  ps ← mapM (λ i, p_slots ph !! ((p_head ph + FINE_SLOTS - 1 - i) mod FINE_SLOTS)%nat) (seq 0 n);
  let counts := fold_left (λ c sl, fold_left add_count (iter_map sl) c) ps ∅ in
  let counts := fold_left add_count (iter_map current) counts in
  Some (top_n (iter_map counts) TOP_PATHS_LIMIT).

Definition coarse_paths (a : CoarseArchive) (n : nat) : option (list (string * N)) :=
  let n := Nat.min n (a_cap a) in
  ps ← mapM (λ i, a_paths a !! ((a_head a + a_cap a - 1 - i) mod a_cap a)%nat) (seq 0 n);
  let counts := fold_left (λ c sl, fold_left add_count sl c) ps ∅ in
  Some (top_n (iter_map counts) TOP_PATHS_LIMIT).

Definition paths_for_period (a : Archives) (current : gmap string N) (p : TimePeriod)
    : option (list (string * N)) :=
  let '(kind, n) := archive p in
  match kind with
  | 0 => fine_paths (paths a) current n
  | 1 => coarse_paths (minute a) n
  | 2 => coarse_paths (hourly a) n
  | _ => coarse_paths (daily a) n
  end.

(** * Ring buffers hold the recent history *)

(** A ring of [cap] cells with its write position [head] shows the history
    [hist], the latest first: a cell not yet written holds [zero]. *)
Definition shows {A} (get : nat → option A) (cap head : nat) (hist : list A) (zero : A) : Prop :=
  (head < cap)%nat ∧
  ∀ i, (i < cap)%nat → get ((head + cap - 1 - i) mod cap)%nat = Some (nth i hist zero).

Definition recent {A} (n : nat) (hist : list A) (zero : A) : list A :=
  (λ i, nth i hist zero) <$> seq 0 n.

Lemma ring_index head cap i :
  (head < cap)%nat → (i < cap)%nat →
  ((head + cap - 1 - i) mod cap = if (i <? head)%nat then head - 1 - i else head + cap - 1 - i)%nat.
Proof.
  intros Hh Hi. destruct (Nat.ltb_spec i head).
  - replace (head + cap - 1 - i)%nat with (head - 1 - i + 1 * cap)%nat by lia.
    rewrite Nat.Div0.mod_add. apply Nat.mod_small. lia.
  - apply Nat.mod_small. lia.
Qed.

Lemma ring_next head cap :
  (head < cap)%nat → ((head + 1) mod cap = if (head + 1 <? cap)%nat then head + 1 else 0)%nat.
Proof.
  intros Hh. destruct (Nat.ltb_spec (head + 1) cap); [by apply Nat.mod_small|].
  replace (head + 1)%nat with cap by lia. apply Nat.Div0.mod_same.
Qed.

Lemma shows_push {A} (get get' : nat → option A) cap head hist zero x :
  shows get cap head hist zero →
  (∀ j, (j < cap)%nat → get' j = if decide (j = head) then Some x else get j) →
  shows get' cap ((head + 1) mod cap)%nat (x :: hist) zero.
Proof.
  intros [Hh Hs] Hg. rewrite ring_next by done.
  set (head' := if (head + 1 <? cap)%nat then (head + 1)%nat else 0%nat).
  assert (head' < cap)%nat as Hh' by (unfold head'; destruct (Nat.ltb_spec (head + 1) cap); lia).
  split; [done|]. intros i Hi. rewrite Hg by (apply Nat.mod_upper_bound; lia).
  destruct i as [|i].
  - rewrite decide_True; [done|]. rewrite ring_index by lia.
    destruct (Nat.ltb_spec 0 head'); revert Hh'; subst head';
      destruct (Nat.ltb_spec (head + 1) cap); lia.
  - cbn [nth]. rewrite <- Hs by lia.
    assert (((head' + cap - 1 - S i) mod cap = (head + cap - 1 - i) mod cap)%nat) as ->.
    { rewrite !ring_index by lia.
      destruct (Nat.ltb_spec (S i) head'), (Nat.ltb_spec i head); revert Hh'; subst head';
        destruct (Nat.ltb_spec (head + 1) cap); lia. }
    rewrite decide_False; [done|]. rewrite ring_index by lia.
    destruct (Nat.ltb_spec i head); lia.
Qed.

Lemma mapM_seq_Some {A} (f : nat → option A) (g : nat → A) n :
  (∀ i, (i < n)%nat → f i = Some (g i)) → mapM f (seq 0 n) = Some (g <$> seq 0 n).
Proof.
  intros Hf. apply mapM_Some_2, Forall2_fmap_r, Forall_Forall2_diag, Forall_seq. intros i Hi.
  apply Hf. lia.
Qed.

(** Reading back from the newest. *)
Lemma length_recent {A} n (hist : list A) zero : length (recent n hist zero) = n.
Proof. unfold recent. by rewrite length_fmap, length_seq. Qed.

Lemma shows_recent {A} (get : nat → option A) cap head hist zero n :
  shows get cap head hist zero → (n ≤ cap)%nat →
  mapM (λ i, get ((head + cap - 1 - i) mod cap)%nat) (seq 0 n) = Some (recent n hist zero).
Proof. intros [_ Hs] Hn. apply mapM_seq_Some. intros i Hi. apply Hs. lia. Qed.

(** Reading forward from the oldest of [n]. *)
Lemma shows_window {A} (get : nat → option A) cap head hist zero n :
  shows get cap head hist zero → (n ≤ cap)%nat →
  mapM (λ i, get ((head + cap - n + i) mod cap)%nat) (seq 0 n) = Some (reverse (recent n hist zero)).
Proof.
  intros [_ Hs] Hn. rewrite (mapM_seq_Some _ (λ i, nth (n - 1 - i) hist zero)).
  - f_equal. apply (list_eq_same_length _ _ n); [by rewrite length_reverse, length_recent|
      by rewrite length_fmap, length_seq|].
    intros i x y Hi. rewrite list_lookup_fmap, lookup_seq_lt by done. cbn. intros [= <-].
    rewrite reverse_lookup by (by rewrite length_recent).
    unfold recent. rewrite length_fmap, length_seq, list_lookup_fmap, lookup_seq_lt by lia. cbn.
    intros [= <-]. f_equal. lia.
  - intros i Hi. rewrite <- Hs by lia. f_equal. f_equal. lia.
Qed.

Lemma recent_take {A} n (hist : list A) zero : (n ≤ length hist)%nat → recent n hist zero = take n hist.
Proof.
  intros Hn. apply (list_eq_same_length _ _ n); [by rewrite length_take; lia|
    by rewrite length_recent|].
  intros i x y Hi. unfold recent. rewrite list_lookup_fmap, lookup_seq_lt by done. cbn. intros [= <-].
  rewrite lookup_take_lt by done. intros Hy. by rewrite (nth_lookup_Some _ _ _ _ Hy).
Qed.

(** ** Columns *)

Definition cols_len (c : Columns) (cap : nat) : Prop :=
  Forall (λ l, length l = cap) [c_req c; c_mem c; c_cpu c; c_auth c; c_jwt c; c_jwt_expiry c;
    c_jwt_issued c; c_err4xx c; c_err5xx c; c_active c].

Lemma vec_set_Some {A} (l : list A) i x : (i < length l)%nat → vec_set l i x = Some (<[i := x]> l).
Proof. intros Hi. unfold vec_set. by rewrite (proj2 (Nat.ltb_lt _ _)). Qed.

Lemma cols_get_req c i s : cols_get c i = Some s → c_req c !! i = Some (req s).
Proof.
  unfold cols_get. intros (x & Hx & Hs)%bind_Some. rewrite Hx.
  repeat apply bind_Some in Hs as (? & _ & Hs). by injection Hs as <-.
Qed.

Lemma cols_set_spec c cap i s :
  cols_len c cap → (i < cap)%nat →
  ∃ c', cols_set c i s = Some c' ∧ cols_len c' cap ∧
    ∀ j, (j < cap)%nat → cols_get c' j = if decide (j = i) then Some s else cols_get c j.
Proof.
  unfold cols_len. rewrite !Forall_cons, Forall_nil. intros (? & ? & ? & ? & ? & ? & ? & ? & ? & ? & _) Hi.
  unfold cols_set. rewrite !vec_set_Some by congruence. cbn. eexists. split; [done|]. cbn.
  rewrite !Forall_cons, Forall_nil, !length_insert. split; [done|].
  intros j Hj. unfold cols_get. cbn. case_decide as Hji.
  - subst. rewrite !list_lookup_insert_eq by congruence. by destruct s.
  - by rewrite !list_lookup_insert_ne by done.
Qed.

Lemma cols_new_spec cap :
  cols_len (cols_new cap) cap ∧ ∀ j, (j < cap)%nat → cols_get (cols_new cap) j = Some slot_zero.
Proof.
  split.
  - unfold cols_len. cbn. by rewrite !Forall_cons, Forall_nil, length_replicate.
  - intros j Hj. unfold cols_get. cbn. by rewrite !lookup_replicate_2.
Qed.

Lemma shows_new {A} (get : nat → option A) cap zero :
  (0 < cap)%nat → (∀ j, (j < cap)%nat → get j = Some zero) → shows get cap 0 [] zero.
Proof.
  intros Hc Hg. split; [done|]. intros i Hi. rewrite Hg by (apply Nat.mod_upper_bound; lia).
  by destruct i.
Qed.

(** ** The archives as lists *)

Abbreviation Row := (Slot * list (string * N))%type.

(** Everything ever written, the latest first. *)
Record History := {
  h_fine : list Slot;
  h_paths : list (gmap string N);
  h_minute : list Row;
  h_hourly : list Row;
  h_daily : list Row;
}.

Definition history_new : History :=
  {| h_fine := []; h_paths := []; h_minute := []; h_hourly := []; h_daily := [] |}.

Definition row_of_fine (w : list Slot) (ps : list (gmap string N)) : Row :=
  (consolidate w,
   top_n (iter_map (fold_left (λ c sl, fold_left add_count (iter_map sl) c) ps ∅)) COARSE_TOP_PATHS).
Definition row_of_coarse (w : list Row) : Row :=
  (consolidate w.*1,
   top_n (iter_map (fold_left (λ c sl, fold_left add_count sl c) w.*2 ∅)) COARSE_TOP_PATHS).

Definition every (n : nat) {A} (l : list A) : bool := (length l mod n =? 0)%nat.

(** What a tick means: every sample is a row of the fine history, every twelve
    of these make a minute, every sixty minutes an hour, every twenty-four
    hours a day. *)
Definition history_step (hb : History * Baseline) (t : Sample * gmap string N) : History * Baseline :=
  let '(h, b) := hb in
  let f := fine_slot b t.1 :: h_fine h in
  let p := t.2 :: h_paths h in
  let m := if every 12 f then row_of_fine (reverse (take 12 f)) (reverse (take 12 p)) :: h_minute h
           else h_minute h in
  let hr := if every (12 * 60) f then row_of_coarse (reverse (take 60 m)) :: h_hourly h
            else h_hourly h in
  let d := if every (12 * 60 * 24) f then row_of_coarse (reverse (take 24 hr)) :: h_daily h
           else h_daily h in
  ({| h_fine := f; h_paths := p; h_minute := m; h_hourly := hr; h_daily := d |}, baseline_of t.1).

Record coarse_shows (d : CoarseArchive) (cap : nat) (rows : list Row) : Prop := {
  cs_cap : a_cap d = cap;
  cs_cols : cols_len (a_cols d) cap;
  cs_rows : shows (cols_get (a_cols d)) cap (a_head d) rows.*1 slot_zero;
  cs_len : length (a_paths d) = cap;
  cs_paths : shows (λ i, a_paths d !! i) cap (a_head d) rows.*2 [];
  cs_written : a_written d = N.of_nat (length rows);
}.

Record archive_shows (a : Archives) (h : History) (b : Baseline) : Prop := {
  as_last : f_last (fine a) = b;
  as_cols : cols_len (f_cols (fine a)) FINE_SLOTS;
  as_rows : shows (cols_get (f_cols (fine a))) FINE_SLOTS (f_head (fine a)) (h_fine h) slot_zero;
  as_written : f_written (fine a) = N.of_nat (length (h_fine h));
  as_plen : length (p_slots (paths a)) = FINE_SLOTS;
  as_paths : shows (λ i, p_slots (paths a) !! i) FINE_SLOTS (p_head (paths a)) (h_paths h) ∅;
  as_pwritten : length (h_paths h) = length (h_fine h);
  as_minute : coarse_shows (minute a) MINUTE_SLOTS (h_minute h);
  as_hourly : coarse_shows (hourly a) HOURLY_SLOTS (h_hourly h);
  as_daily : coarse_shows (daily a) DAILY_SLOTS (h_daily h);
  as_minutes : length (h_minute h) = (length (h_fine h) / 12)%nat;
  as_hours : length (h_hourly h) = (length (h_fine h) / (12 * 60))%nat;
  as_days : length (h_daily h) = (length (h_fine h) / (12 * 60 * 24))%nat;
}.

Lemma coarse_new_shows cap : (0 < cap)%nat → coarse_shows (coarse_new cap) cap [].
Proof.
  intros Hc. destruct (cols_new_spec cap) as [Hl Hg].
  split; cbn; [done|done|by apply shows_new|by rewrite length_replicate| |done].
  apply shows_new; [done|]. intros j Hj. by apply lookup_replicate_2.
Qed.

Lemma archives_new_shows : archive_shows archives_new history_new (f_last fine_new).
Proof.
  destruct (cols_new_spec FINE_SLOTS) as [Hl Hg].
  split; try (apply coarse_new_shows; unfold MINUTE_SLOTS, HOURLY_SLOTS, DAILY_SLOTS; lia); try done.
  - apply shows_new; [unfold FINE_SLOTS; lia|done].
  - apply shows_new; [unfold FINE_SLOTS; lia|]. intros j Hj. by apply lookup_replicate_2.
Qed.

Lemma vec_set_lookup {A} (l : list A) cap i x j :
  length l = cap → (i < cap)%nat →
  <[i := x]> l !! j = if decide (j = i) then Some x else l !! j.
Proof.
  intros Hl Hi. case_decide; [subst j; apply list_lookup_insert_eq; lia|].
  by apply list_lookup_insert_ne.
Qed.

Lemma push_coarse_shows d cap rows s ps :
  coarse_shows d cap rows → N.of_nat (S (length rows)) < u64_mod →
  ∃ d', push_coarse d s ps = Some d' ∧ coarse_shows d' cap ((s, ps) :: rows).
Proof.
  intros [Hcap Hcols Hrows Hlen Hpaths Hw] Hsmall. pose proof (proj1 Hrows) as Hh.
  destruct (cols_set_spec _ _ _ s Hcols Hh) as (c' & Hc & Hl' & Hg').
  unfold push_coarse. rewrite Hc. cbn [mbind option_bind].
  rewrite vec_set_Some by lia. cbn [mbind option_bind]. eexists. split; [done|].
  split; cbn; [done|done| |by rewrite length_insert| |].
  - rewrite Hcap. by eapply shows_push.
  - rewrite Hcap. eapply shows_push; [done|]. intros j Hj. by apply vec_set_lookup with cap.
  - rewrite Hw, wrap64_small; lia.
Qed.

Lemma consolidate_coarse_shows src scap srows dst dcap drows n :
  coarse_shows src scap srows → coarse_shows dst dcap drows →
  (n ≤ scap)%nat → (n ≤ length srows)%nat → N.of_nat (S (length drows)) < u64_mod →
  ∃ d', consolidate_coarse src dst n = Some (d', N.of_nat (S (length drows))) ∧
    coarse_shows d' dcap (row_of_coarse (reverse (take n srows)) :: drows).
Proof.
  intros Hsrc Hdst Hn Hlen Hsmall. destruct Hsrc as [Hcap Hcols Hrows Hplen Hpaths Hw].
  unfold consolidate_coarse. rewrite Hcap, Nat.min_l by done. unfold window.
  rewrite (shows_window _ _ _ _ _ _ Hrows Hn). cbn [mbind option_bind].
  rewrite (shows_window _ _ _ _ _ _ Hpaths Hn). cbn [mbind option_bind].
  rewrite !recent_take by (by rewrite length_fmap).
  destruct (push_coarse_shows dst dcap drows (consolidate (reverse (take n srows)).*1)
    (row_of_coarse (reverse (take n srows))).2) as (d' & Hd & Hs); [done|done|].
  exists d'. cbn [row_of_coarse snd] in Hd. rewrite !fmap_reverse, !fmap_take in Hd.
  rewrite Hd. cbn. split; [|exact Hs]. by rewrite (cs_written _ _ _ Hs).
Qed.

Lemma consolidate_fine_shows h ph fhist phist m mrows :
  shows (cols_get (f_cols h)) FINE_SLOTS (f_head h) fhist slot_zero →
  shows (λ i, p_slots ph !! i) FINE_SLOTS (p_head ph) phist ∅ →
  (12 ≤ length fhist)%nat → (12 ≤ length phist)%nat →
  coarse_shows m MINUTE_SLOTS mrows → N.of_nat (S (length mrows)) < u64_mod →
  ∃ m', consolidate_fine_to_minute h ph m = Some (m', N.of_nat (S (length mrows))) ∧
    coarse_shows m' MINUTE_SLOTS (row_of_fine (reverse (take 12 fhist)) (reverse (take 12 phist)) :: mrows).
Proof.
  intros Hf Hp Hlf Hlp Hm Hsmall. unfold consolidate_fine_to_minute, window.
  change (N.to_nat MINUTE_RATIO) with 12%nat.
  assert (12 ≤ FINE_SLOTS)%nat as Hn by (unfold FINE_SLOTS; lia).
  rewrite (shows_window _ _ _ _ _ _ Hf Hn). cbn [mbind option_bind].
  rewrite (shows_window _ _ _ _ _ _ Hp Hn). cbn [mbind option_bind].
  rewrite !recent_take by done.
  destruct (push_coarse_shows m MINUTE_SLOTS mrows (consolidate (reverse (take 12 fhist)))
    (row_of_fine (reverse (take 12 fhist)) (reverse (take 12 phist))).2) as (m' & Hd & Hs); [done|done|].
  exists m'. cbn [row_of_fine snd] in Hd. rewrite Hd. cbn. split; [|exact Hs].
  by rewrite (cs_written _ _ _ Hs).
Qed.

Lemma write_fine_shows h hist s :
  cols_len (f_cols h) FINE_SLOTS → shows (cols_get (f_cols h)) FINE_SLOTS (f_head h) hist slot_zero →
  f_written h = N.of_nat (length hist) → N.of_nat (S (length hist)) < u64_mod →
  ∃ h', write_fine h s = Some h' ∧ cols_len (f_cols h') FINE_SLOTS ∧
    shows (cols_get (f_cols h')) FINE_SLOTS (f_head h') (fine_slot (f_last h) s :: hist) slot_zero ∧
    f_written h' = N.of_nat (S (length hist)) ∧ f_last h' = baseline_of s.
Proof.
  intros Hl Hs Hw Hsmall. destruct (cols_set_spec _ _ _ (fine_slot (f_last h) s) Hl (proj1 Hs))
    as (c' & Hc & Hl' & Hg). unfold write_fine. rewrite Hc. cbn [mbind option_bind].
  eexists. split; [done|]. cbn. split_and!; [done|by eapply shows_push| |done].
  rewrite Hw, wrap64_small; lia.
Qed.

Lemma flush_paths_shows p hist cur :
  length (p_slots p) = FINE_SLOTS → shows (λ i, p_slots p !! i) FINE_SLOTS (p_head p) hist ∅ →
  ∃ p', flush_paths p cur = Some p' ∧ length (p_slots p') = FINE_SLOTS ∧
    shows (λ i, p_slots p' !! i) FINE_SLOTS (p_head p') (cur :: hist) ∅.
Proof.
  intros Hl Hs. pose proof (proj1 Hs). unfold flush_paths. rewrite vec_set_Some by lia.
  eexists. split; [done|]. cbn. rewrite length_insert. split; [done|].
  eapply shows_push; [done|]. intros j Hj. by eapply vec_set_lookup.
Qed.

Lemma is_multiple_every {A} n (l : list A) r :
  (r ≠ 0)%nat → n = N.of_nat (length l) → is_multiple_of n (N.of_nat r) = every r l.
Proof.
  intros Hr ->. unfold is_multiple_of, every. rewrite <- Nat2N.inj_mod.
  destruct (Nat.eqb_spec (length l mod r) 0) as [->|Hne]; [done|].
  apply N.eqb_neq. lia.
Qed.

(** Multiples of a product, for the nested triggers. *)
Lemma every_mul {A B} a b (f : list A) (g : list B) :
  (a ≠ 0)%nat → (b ≠ 0)%nat → every a f = true → length g = (length f / a)%nat →
  every (a * b) f = every b g.
Proof.
  unfold every. intros Ha Hb Hf%Nat.eqb_eq Hg. apply Nat.Lcm0.mod_divide in Hf as [k Hk].
  rewrite Hg, Hk, Nat.div_mul by done.
  destruct (Nat.eqb_spec (k mod b) 0) as [Hm|Hm].
  - apply Nat.Lcm0.mod_divide in Hm as [j ->]. apply Nat.eqb_eq, Nat.Lcm0.mod_divide.
    exists j. lia.
  - apply Nat.eqb_neq. intros [j Hj]%Nat.Lcm0.mod_divide. apply Hm, Nat.Lcm0.mod_divide.
    exists j. nia.
Qed.

Lemma every_mul_false {A} a b (f : list A) :
  (a ≠ 0)%nat → every a f = false → every (a * b) f = false.
Proof.
  unfold every. intros Ha Hf%Nat.eqb_neq. apply Nat.eqb_neq. intros [j Hj]%Nat.Lcm0.mod_divide.
  apply Hf, Nat.Lcm0.mod_divide. exists (j * b)%nat. lia.
Qed.

Lemma div_succ n a :
  (a ≠ 0)%nat → (S n / a = if (S n mod a =? 0)%nat then S (n / a) else n / a)%nat.
Proof.
  intros Ha. pose proof (Nat.div_mod_eq n a). pose proof (Nat.mod_upper_bound n a Ha).
  destruct (Nat.eqb_spec (S n mod a) 0) as [Hm|Hm].
  - apply Nat.Lcm0.mod_divide in Hm as [k Hk]. rewrite Hk, Nat.div_mul by done.
    assert (k = S (n / a)) as ->; nia.
  - symmetry. apply (Nat.div_unique _ _ _ (S (n mod a))); [|lia].
    destruct (decide (S (n mod a) = a)) as [He|]; [|lia]. destruct Hm.
    apply Nat.Lcm0.mod_divide. exists (S (n / a)). nia.
Qed.

Lemma every_count {A B} a (x : A) (f : list A) (y : B) (g : list B) :
  (a ≠ 0)%nat → length g = (length f / a)%nat →
  length (if every a (x :: f) then y :: g else g) = (length (x :: f) / a)%nat.
Proof.
  intros Ha Hg. unfold every. cbn [length]. rewrite div_succ by done. destruct (_ =? 0)%nat; cbn; lia.
Qed.

Lemma every_pos {A} a (x : A) (f : list A) :
  every a (x :: f) = true → (a ≤ length (x :: f))%nat.
Proof.
  unfold every. intros [k Hk]%Nat.eqb_eq%Nat.Lcm0.mod_divide. rewrite Hk.
  destruct k; [cbn in Hk; lia|]. nia.
Qed.

Lemma div_le n a : (n / a ≤ n)%nat.
Proof. destruct a; [cbn; lia|]. apply Nat.Div0.div_le_upper_bound. nia. Qed.

Lemma history_step_counts h b t :
  length (h_minute h) = (length (h_fine h) / 12)%nat →
  length (h_hourly h) = (length (h_fine h) / (12 * 60))%nat →
  length (h_daily h) = (length (h_fine h) / (12 * 60 * 24))%nat →
  let h' := (history_step (h, b) t).1 in
  length (h_minute h') = (length (h_fine h') / 12)%nat ∧
  length (h_hourly h') = (length (h_fine h') / (12 * 60))%nat ∧
  length (h_daily h') = (length (h_fine h') / (12 * 60 * 24))%nat.
Proof. intros Hm Hh Hd. split_and!; by apply every_count. Qed.

(** The consolidations a tick triggers, from the fine history already
    written. *)
Lemma roll_up_shows fh ph a h b s cur :
  let f := fine_slot b s :: h_fine h in
  let p := cur :: h_paths h in
  let h' := (history_step (h, b) (s, cur)).1 in
  N.of_nat (length f) < u64_mod → length p = length f →
  shows (cols_get (f_cols fh)) FINE_SLOTS (f_head fh) f slot_zero →
  shows (λ i, p_slots ph !! i) FINE_SLOTS (p_head ph) p ∅ → f_written fh = N.of_nat (length f) →
  length (h_minute h) = (length (h_fine h) / 12)%nat →
  length (h_hourly h) = (length (h_fine h) / (12 * 60))%nat →
  length (h_daily h) = (length (h_fine h) / (12 * 60 * 24))%nat →
  coarse_shows (minute a) MINUTE_SLOTS (h_minute h) →
  coarse_shows (hourly a) HOURLY_SLOTS (h_hourly h) →
  coarse_shows (daily a) DAILY_SLOTS (h_daily h) →
  ∃ ma ha da,
    roll_up fh ph a = Some {| fine := fh; paths := ph; minute := ma; hourly := ha; daily := da |} ∧
    coarse_shows ma MINUTE_SLOTS (h_minute h') ∧ coarse_shows ha HOURLY_SLOTS (h_hourly h') ∧
    coarse_shows da DAILY_SLOTS (h_daily h').
Proof.
  intros f p h' Hsmall Hpf Hr Hp Hw Hms Hhs Hds Hm Hhr Hd.
  destruct (history_step_counts h b (s, cur)) as (Hm1 & Hh1 & _); [done..|]. fold h' in Hm1, Hh1.
  change (h_fine h') with f in Hm1, Hh1.
  assert (length f = S (length (h_fine h))) as Hf by done.
  pose proof (div_le (length (h_fine h)) 12). pose proof (div_le (length (h_fine h)) (12 * 60)).
  pose proof (div_le (length (h_fine h)) (12 * 60 * 24)).
  unfold roll_up. change MINUTE_RATIO with (N.of_nat 12). rewrite (is_multiple_every _ f) by done.
  destruct (every 12 f) eqn:E12; cbn [negb].
  2: { exists (minute a), (hourly a), (daily a). split; [done|]. subst h'. unfold history_step.
       cbn [fst snd h_minute h_hourly h_daily]. fold f. rewrite E12, (every_mul_false 12) by done.
       change (12 * 60 * 24)%nat with (12 * 1440)%nat. by rewrite (every_mul_false 12). }
  destruct (consolidate_fine_shows fh ph f p (minute a) (h_minute h)) as (ma & Em & Hma);
    [done|done|by apply every_pos|rewrite Hpf; by apply every_pos|done|lia|].
  assert (h_minute h' = row_of_fine (reverse (take 12 f)) (reverse (take 12 p)) :: h_minute h) as Em1.
  { subst h'. unfold history_step. cbn [fst snd h_minute]. fold f p. by rewrite E12. }
  rewrite <- Em1 in Hma. rewrite Em. cbn [mbind option_bind].
  change HOURLY_RATIO with (N.of_nat 60). rewrite (is_multiple_every _ (h_minute h')) by (by rewrite ?Em1).
  rewrite <- (every_mul 12 60 f (h_minute h')) by done.
  destruct (every (12 * 60) f) eqn:E60; cbn [negb].
  2: { exists ma, (hourly a), (daily a). split; [done|]. split; [done|]. subst h'. unfold history_step.
       cbn [fst snd h_hourly h_daily]. fold f. by rewrite E60, (every_mul_false (12 * 60)). }
  destruct (consolidate_coarse_shows ma MINUTE_SLOTS (h_minute h') (hourly a) HOURLY_SLOTS
    (h_hourly h) 60) as (ha & Eh & Hha); [done|done|unfold MINUTE_SLOTS; lia| |lia|].
  { rewrite Hm1. apply every_pos in E60. fold f in E60. apply Nat.div_le_lower_bound; lia. }
  assert (h_hourly h' = row_of_coarse (reverse (take 60 (h_minute h'))) :: h_hourly h) as Eh1.
  { rewrite Em1. subst h'. unfold history_step. cbn [fst snd h_hourly]. fold f p. by rewrite E12, E60. }
  rewrite <- Eh1 in Hha. change (N.to_nat (N.of_nat 60)) with 60%nat. rewrite Eh. cbn [mbind option_bind].
  change DAILY_RATIO with (N.of_nat 24). rewrite (is_multiple_every _ (h_hourly h')) by (by rewrite ?Eh1).
  rewrite <- (every_mul (12 * 60) 24 f (h_hourly h')) by done.
  destruct (every (12 * 60 * 24) f) eqn:E24; cbn [negb].
  2: { exists ma, ha, (daily a). do 3 (split; [done|]). subst h'. unfold history_step.
       cbn [fst snd h_daily]. fold f. by rewrite E24. }
  destruct (consolidate_coarse_shows ha HOURLY_SLOTS (h_hourly h') (daily a) DAILY_SLOTS
    (h_daily h) 24) as (da & Ed & Hda); [done|done|unfold HOURLY_SLOTS; lia| |lia|].
  { rewrite Hh1. apply every_pos in E24. fold f in E24. apply Nat.div_le_lower_bound; lia. }
  assert (h_daily h' = row_of_coarse (reverse (take 24 (h_hourly h'))) :: h_daily h) as Ed1.
  { rewrite Eh1, Em1. subst h'. unfold history_step. cbn [fst snd h_daily]. fold f p. by rewrite E12, E60, E24. }
  rewrite <- Ed1 in Hda. change (N.to_nat (N.of_nat 24)) with 24%nat. rewrite Ed. cbn [mbind option_bind].
  by exists ma, ha, da.
Qed.

Lemma tick_shows a h b s cur :
  archive_shows a h b → N.of_nat (S (length (h_fine h))) < u64_mod →
  ∃ a', tick a s cur = Some a' ∧
    archive_shows a' (history_step (h, b) (s, cur)).1 (history_step (h, b) (s, cur)).2.
Proof.
  intros Hs Hsmall. destruct Hs as [Hb Hc Hr Hw Hpl Hp Hpw Hm Hhr Hd Hms Hhs Hds].
  destruct (write_fine_shows _ _ s Hc Hr Hw Hsmall) as (fh & Ef & Hc' & Hr' & Hw' & Hb').
  destruct (flush_paths_shows _ _ cur Hpl Hp) as (ph & Ep & Hpl' & Hp'). rewrite Hb in Hr'.
  destruct (roll_up_shows fh ph a h b s cur) as (ma & ha & da & Er & Hma & Hha & Hda);
    [done|cbn; lia|done..|].
  destruct (history_step_counts h b (s, cur)) as (Hm1 & Hh1 & Hd1); [done..|].
  unfold tick. rewrite Ef, Ep. cbn [mbind option_bind]. rewrite Er. eexists. split; [done|].
  split; try done. cbn. lia.
Qed.

(** ** Refinement *)

Fixpoint run_ticks (ticks : list (Sample * gmap string N)) (a : Archives) : option Archives :=
  match ticks with
  | [] => Some a
  | t :: ticks' => tick a t.1 t.2 ≫= run_ticks ticks'
  end.

Definition history_of (ticks : list (Sample * gmap string N)) : History :=
  (fold_left history_step ticks (history_new, f_last fine_new)).1.

Lemma run_ticks_shows ticks a h b :
  archive_shows a h b → N.of_nat (length ticks + length (h_fine h)) < u64_mod →
  ∃ a', run_ticks ticks a = Some a' ∧
    archive_shows a' (fold_left history_step ticks (h, b)).1 (fold_left history_step ticks (h, b)).2.
Proof.
  revert a h b. induction ticks as [|[s cur] ticks IH]; intros a h b Hs Hsmall; [by exists a|].
  cbn [run_ticks fold_left fst snd length] in *.
  destruct (tick_shows a h b s cur Hs) as (a1 & E1 & Hs1); [lia|]. rewrite E1. cbn [mbind option_bind].
  destruct (history_step (h, b) (s, cur)) as [h1 b1] eqn:E. apply IH; [done|].
  assert (length (h_fine h1) = S (length (h_fine h))) as ->; [|lia].
  unfold history_step in E. by injection E as <- _.
Qed.

Lemma archive_run ticks :
  N.of_nat (length ticks) < u64_mod →
  ∃ a b, run_ticks ticks archives_new = Some a ∧ archive_shows a (history_of ticks) b.
Proof.
  intros Hsmall. destruct (run_ticks_shows ticks _ _ _ archives_new_shows) as (a & Ha & Hs);
    [cbn; lia|]. by exists a, (fold_left history_step ticks (history_new, f_last fine_new)).2.
Qed.

(** The rows a period reads. *)
Definition period_rows (h : History) (p : TimePeriod) : list Slot :=
  match (archive p).1 with
  | 0 => h_fine h
  | 1 => (h_minute h).*1
  | 2 => (h_hourly h).*1
  | _ => (h_daily h).*1
  end.

Lemma coarse_sparkline_shows d cap rows n :
  coarse_shows d cap rows → (n ≤ cap)%nat →
  sparkline (a_cols d) (a_cap d) (a_head d) n = Some (reverse (recent n rows.*1 slot_zero)).
Proof.
  intros [Hcap _ Hr _ _ _] Hn. unfold sparkline. rewrite Hcap, Nat.min_l by done.
  by apply shows_window.
Qed.

Lemma charts_show_history ticks :
  N.of_nat (length ticks) < u64_mod →
  ∃ a, run_ticks ticks archives_new = Some a ∧
    ∀ p, sparkline_for_period a p =
      Some (reverse (recent (archive p).2 (period_rows (history_of ticks) p) slot_zero), step_secs p).
Proof.
  intros Hsmall. destruct (archive_run ticks Hsmall) as (a & b & Ha & Hs). exists a. split; [done|].
  destruct Hs as [_ _ Hr _ _ _ _ Hm Hh Hd _ _ _].
  assert (∀ n, (n ≤ FINE_SLOTS)%nat → sparkline (f_cols (fine a)) FINE_SLOTS (f_head (fine a)) n =
    Some (reverse (recent n (h_fine (history_of ticks)) slot_zero))) as Hf.
  { intros n Hn. unfold sparkline. rewrite Nat.min_l by done. by apply shows_window. }
  intros p. unfold sparkline_for_period, period_rows.
  destruct p; cbn [archive fst snd];
    first [rewrite Hf by (unfold FINE_SLOTS; lia)
          |rewrite (coarse_sparkline_shows _ _ _ _ Hm) by (unfold MINUTE_SLOTS; lia)
          |rewrite (coarse_sparkline_shows _ _ _ _ Hh) by (unfold HOURLY_SLOTS; lia)
          |rewrite (coarse_sparkline_shows _ _ _ _ Hd) by (unfold DAILY_SLOTS; lia)]; reflexivity.
Qed.

(** The paths of every period are there too. *)
Lemma coarse_paths_total d cap rows n : coarse_shows d cap rows → is_Some (coarse_paths d n).
Proof.
  intros [Hc _ _ _ Hp _]. unfold coarse_paths. rewrite Hc, (shows_recent _ _ _ _ _ _ Hp) by apply Nat.le_min_r. by eexists.
Qed.

Lemma paths_total a h b current p : archive_shows a h b → is_Some (paths_for_period a current p).
Proof.
  intros [_ _ _ _ _ Hp _ Hm Hh Hd _ _ _].
  assert (∀ n, is_Some (fine_paths (paths a) current n)) as Hf.
  { intros n. unfold fine_paths. rewrite (shows_recent _ _ _ _ _ _ Hp) by apply Nat.le_min_r. by eexists. }
  unfold paths_for_period.
  destruct p; first [apply Hf|by eapply coarse_paths_total].
Qed.

(** C15: the ring archives implement the plain histories: for any sequence of
    ticks the round never indexes out of range, and every chart of the status
    page shows, oldest first and padded with empty slots, exactly the latest
    samples, or their roll-ups by twelve, sixty and twenty-four, that a list
    keeping everything would show. *)
Theorem archive_refines_history ticks :
  N.of_nat (length ticks) < u64_mod →
  ∃ a, run_ticks ticks archives_new = Some a ∧
    ∀ p, sparkline_for_period a p =
      Some (reverse (recent (archive p).2 (period_rows (history_of ticks) p) slot_zero), step_secs p).
Proof. apply charts_show_history. Qed.

(** ** Request rates *)

(** The request totals the ticks read, the latest first. *)
Definition totals (ticks : list (Sample * gmap string N)) : list N := reverse (sm_total <$> ticks.*1).

Lemma history_fine_req ticks i :
  (i < length ticks)%nat →
  req (nth i (h_fine (history_of ticks)) slot_zero) =
  wrap32 (nth i (totals ticks) 0 - nth (S i) (totals ticks) 0).
Proof.
  unfold history_of. revert i. induction ticks as [|t ticks IH] using rev_ind; intros i Hi; [cbn in Hi; lia|].
  rewrite fold_left_app. cbn [fold_left]. unfold totals. rewrite !fmap_app, reverse_app. cbn [reverse app fmap list_fmap].
  destruct (fold_left history_step ticks _) as [h b] eqn:E. cbn [history_step fst h_fine].
  assert (last_total b = nth 0 (totals ticks) 0) as Hb.
  { destruct ticks as [|t' ticks' _] using rev_ind; [by injection E as <- <-|].
    rewrite fold_left_app in E. cbn [fold_left] in E.
    destruct (fold_left history_step ticks' _) as [h' b']. injection E as _ <-.
    unfold totals. by rewrite !fmap_app, reverse_app. }
  change (reverse [sm_total t.1] ++ reverse (sm_total <$> ticks.*1)) with (sm_total t.1 :: totals ticks).
  destruct i as [|i]; cbn [nth fine_slot req].
  - by rewrite Hb.
  - apply IH. rewrite length_app in Hi. cbn in Hi. lia.
Qed.

Lemma sum64_telescope (f g : nat → N) n :
  (∀ i, (i < n)%nat → g (S i) ≤ g i ∧ f i = g i - g (S i)) → g 0%nat < u64_mod →
  sum64 (f <$> seq 0 n) = g 0%nat - g n.
Proof.
  intros Hf Hg. unfold sum64.
  assert (∀ n', (n' ≤ n)%nat → g n' ≤ g 0%nat ∧
    fold_left (λ a x, wrap64 (a + x)) (f <$> seq 0 n') 0 = g 0%nat - g n') as Hall; [|by apply Hall].
  induction n' as [|n' IH]; intros Hn; [cbn; lia|]. destruct IH as [Hle IH]; [lia|].
  destruct (Hf n') as [Hs Hd]; [lia|]. split; [lia|].
  rewrite seq_S, fmap_app, fold_left_app, IH. cbn [fold_left fmap list_fmap].
  rewrite Nat.add_0_l, Hd, wrap64_small; lia.
Qed.

(** The request counts behind the displayed rates are those of the
    request counter: as long as fewer than 2^32 requests complete in a tick,
    the sum over the [n] latest slots is the counter now less the counter [n]
    ticks ago, however the ring has wrapped. *)
Theorem window_counts_requests ticks n :
  N.of_nat (length ticks) < u64_mod → (n ≤ FINE_SLOTS)%nat → (n ≤ length ticks)%nat →
  (∀ i, (i < n)%nat → nth (S i) (totals ticks) 0 ≤ nth i (totals ticks) 0 <
     nth (S i) (totals ticks) 0 + 4294967296) →
  nth 0 (totals ticks) 0 < u64_mod →
  ∃ a, run_ticks ticks archives_new = Some a ∧
    window_req (fine a) n = Some (nth 0 (totals ticks) 0 - nth n (totals ticks) 0).
Proof.
  intros Hsmall Hn Hl Hmono Hlast. destruct (archive_run ticks Hsmall) as (a & b & Ha & Hs).
  exists a. split; [done|]. destruct Hs as [_ _ [_ Hr] _ _ _ _ _ _ _ _ _ _].
  unfold window_req. rewrite Nat.min_l by done.
  rewrite (mapM_seq_Some _ (λ i, req (nth i (h_fine (history_of ticks)) slot_zero))).
  - cbn. f_equal. apply sum64_telescope with (g := λ i, nth i (totals ticks) 0); [|done].
    intros i Hi. destruct (Hmono i Hi). split; [done|]. rewrite history_fine_req by lia.
    unfold wrap32. apply N.mod_small. lia.
  - intros i Hi. by apply cols_get_req, Hr; lia.
Qed.

(** ** Consolidation narrows *)

Definition sumN (l : list N) : N := foldr N.add 0 l.

Lemma sumN_bound l m : Forall (λ x, x ≤ m) l → sumN l ≤ N.of_nat (length l) * m.
Proof. induction 1 as [|x l Hx _ IH]; cbn [sumN foldr length]; [lia|]. fold (sumN l). nia. Qed.

Lemma sum64_sumN l : sumN l < u64_mod → sum64 l = sumN l.
Proof.
  unfold sum64. assert (∀ acc, acc + sumN l < u64_mod →
    fold_left (λ a x, wrap64 (a + x)) l acc = acc + sumN l) as Hall.
  { induction l as [|x l IH]; intros acc Hs; cbn [fold_left sumN foldr] in *; [lia|].
    fold (sumN l) in *. rewrite wrap64_small, IH; lia. }
  intros Hs. rewrite Hall; lia.
Qed.

(** Consolidation loses events: the narrow counters of an hour or a day are
    the sums of their parts reduced modulo 65536, so an hour with 65536 client
    errors or more shows fewer errors than it had, although the 5-second slots
    are careful to saturate. *)
Theorem consolidation_wraps w :
  (length w ≤ 60)%nat → Forall (λ s, err4xx s ≤ u16_max) w →
  err4xx (consolidate w) = sumN (err4xx <$> w) mod 65536 ∧
  (65536 ≤ sumN (err4xx <$> w) → err4xx (consolidate w) < sumN (err4xx <$> w)).
Proof.
  intros Hl Hb. assert (sumN (err4xx <$> w) ≤ N.of_nat (length w) * u16_max) as Hs.
  { rewrite <- (length_fmap err4xx w). apply sumN_bound. by apply Forall_fmap. }
  assert (err4xx (consolidate w) = sumN (err4xx <$> w) mod 65536) as Hc.
  { unfold consolidate. cbn [err4xx]. rewrite sum64_sumN; [done|]. unfold u16_max, u64_mod in *. lia. }
  split; [done|]. intros Hbig. rewrite Hc. pose proof (N.mod_lt (sumN (err4xx <$> w)) 65536 ltac:(done)). lia.
Qed.

(** ** Top paths *)

Lemma top_n_spec l limit :
  (length (top_n l limit) ≤ limit)%nat ∧ Sorted by_count (top_n l limit) ∧
  ∃ rest, l ≡ₚ top_n l limit ++ rest ∧
    (rest ≠ [] → length (top_n l limit) = limit) ∧
    ∀ x y, x ∈ top_n l limit → y ∈ rest → y.2 ≤ x.2.
Proof.
  unfold top_n. set (m := merge_sort by_count l).
  assert (StronglySorted by_count m) as Hs.
  { apply Sorted_StronglySorted; [intros a b c; unfold by_count; lia|].
    apply Sorted_merge_sort. intros a b. unfold by_count. lia. }
  split_and!.
  - rewrite length_take. lia.
  - apply StronglySorted_Sorted. rewrite <- (take_drop limit m) in Hs.
    by apply StronglySorted_app in Hs as (_ & ? & _).
  - exists (drop limit m). rewrite take_drop. split_and!.
    + symmetry. apply merge_sort_Permutation.
    + intros Hne. rewrite length_take. destruct (decide (limit ≤ length m)%nat); [lia|].
      by rewrite drop_ge in Hne by lia.
    + intros x y Hx Hy. rewrite <- (take_drop limit m) in Hs.
      apply StronglySorted_app in Hs as (Hxy & _ & _). by apply (Hxy x y).
Qed.

Context (iter_map_perm : ∀ m, iter_map m ≡ₚ map_to_list m).

Definition tally (c : gmap string N) (k : string) : N := default 0 (c !! k).

Lemma add_counts_tally l c k :
  NoDup l.*1 →
  wrap64 (tally (fold_left add_count l c) k) =
  wrap64 (tally c k + tally (list_to_map l) k).
Proof.
  revert c. induction l as [|[k' v] l IH]; intros c Hnd; cbn [fold_left list_to_map].
  - change (tally (list_to_map []) k) with 0. by rewrite N.add_0_r.
  - cbn [fmap list_fmap fst] in Hnd. apply NoDup_cons in Hnd as [Hk Hnd]. rewrite IH by done.
    rewrite list_to_map_cons. unfold tally, add_count. cbn [fst snd].
    destruct (decide (k' = k)) as [->|Hne].
    + rewrite !lookup_insert_eq. cbn [from_option id].
      assert ((list_to_map l : gmap string N) !! k = None) as -> by (by apply not_elem_of_list_to_map_1).
      cbn [from_option]. rewrite N.add_0_r. unfold wrap64. by rewrite N.Div0.mod_mod.
    + by rewrite !lookup_insert_ne.
Qed.

Lemma add_map_tally m c k :
  wrap64 (tally (fold_left add_count (iter_map m) c) k) = wrap64 (tally c k + tally m k).
Proof.
  assert (NoDup (iter_map m).*1) as Hnd by (rewrite iter_map_perm; apply NoDup_fst_map_to_list).
  rewrite add_counts_tally by done. do 2 f_equal. unfold tally. f_equal.
  rewrite <- (list_to_map_to_list m) at 2. f_equal. apply list_to_map_proper; [done|apply iter_map_perm].
Qed.

Lemma add_maps_tally ms c k :
  wrap64 (tally (fold_left (λ c m, fold_left add_count (iter_map m) c) ms c) k) =
  wrap64 (tally c k + sumN ((λ m, tally m k) <$> ms)).
Proof.
  revert c. induction ms as [|m ms IH]; intros c; cbn [fold_left fmap list_fmap sumN foldr].
  - by rewrite N.add_0_r.
  - fold (sumN ((λ m, tally m k) <$> ms)). rewrite IH. unfold wrap64.
    rewrite <- N.Div0.add_mod_idemp_l. fold (wrap64 (tally (fold_left add_count (iter_map m) c) k)).
    rewrite add_map_tally. unfold wrap64. rewrite N.Div0.add_mod_idemp_l. f_equal. lia.
Qed.

Lemma add_count_small l c :
  (∀ k v, c !! k = Some v → v < u64_mod) →
  ∀ k v, fold_left add_count l c !! k = Some v → v < u64_mod.
Proof.
  revert c. induction l as [|e l IH]; intros c Hc; [done|]. cbn [fold_left]. apply IH.
  intros k v. unfold add_count. rewrite lookup_insert_Some. intros [[_ <-]|[_ ?]]; [apply wrap64_lt|eauto].
Qed.

Lemma add_maps_small ms c :
  (∀ k v, c !! k = Some v → v < u64_mod) →
  ∀ k v, fold_left (λ c m, fold_left add_count (iter_map m) c) ms c !! k = Some v → v < u64_mod.
Proof.
  revert c. induction ms as [|m ms IH]; intros c Hc; [done|]. cbn [fold_left].
  apply IH. by apply add_count_small.
Qed.

Lemma history_paths_length ticks : length (h_paths (history_of ticks)) = length ticks.
Proof.
  unfold history_of. induction ticks as [|t ticks IH] using rev_ind; [done|].
  rewrite fold_left_app, length_app. cbn [fold_left].
  destruct (fold_left history_step ticks _) as [h b]. cbn in *. lia.
Qed.

Lemma counts_tally ps current k :
  wrap64 (tally (fold_left add_count (iter_map current)
    (fold_left (λ c m, fold_left add_count (iter_map m) c) ps ∅)) k) =
  wrap64 (sumN ((λ m, tally m k) <$> ps) + tally current k).
Proof.
  rewrite add_map_tally. unfold wrap64. rewrite <- N.Div0.add_mod_idemp_l.
  fold (wrap64 (tally (fold_left (λ c m, fold_left add_count (iter_map m) c) ps ∅) k)).
  rewrite add_maps_tally. unfold wrap64. rewrite N.Div0.add_mod_idemp_l. do 2 f_equal.
Qed.

(** The path table of the last hour is exact over the tracked paths: at
    most twenty entries, each with the number of hits in the slots of the
    period and the current one, in descending order, and no path left out had
    more hits than one listed. *)
Theorem fine_paths_exact ticks current n :
  N.of_nat (length ticks) < u64_mod → (n ≤ FINE_SLOTS)%nat → (n ≤ length ticks)%nat →
  let hits k := wrap64 (sumN ((λ m, tally m k) <$> take n (h_paths (history_of ticks))) + tally current k) in
  ∃ a rows, run_ticks ticks archives_new = Some a ∧ fine_paths (paths a) current n = Some rows ∧
    (length rows ≤ TOP_PATHS_LIMIT)%nat ∧ Sorted by_count rows ∧ NoDup rows.*1 ∧
    (∀ k c, (k, c) ∈ rows → c = hits k) ∧
    ∀ k, k ∉ rows.*1 → hits k = 0 ∨ ∀ k' c, (k', c) ∈ rows → hits k ≤ c.
Proof.
  intros Hsmall Hn Hl hits. destruct (archive_run ticks Hsmall) as (a & b & Ha & Hs).
  destruct Hs as [_ _ _ Hw _ Hp Hpw _ _ _ _ _ _].
  set (counts := fold_left add_count (iter_map current)
    (fold_left (λ c m, fold_left add_count (iter_map m) c) (take n (h_paths (history_of ticks))) ∅)).
  assert (fine_paths (paths a) current n = Some (top_n (iter_map counts) TOP_PATHS_LIMIT)) as Hrows.
  { unfold fine_paths. rewrite Nat.min_l by done. rewrite (shows_recent _ _ _ _ _ _ Hp Hn).
    by rewrite recent_take by (by rewrite history_paths_length). }
  assert (∀ k v, counts !! k = Some v → v = hits k) as Hcount.
  { intros k v Hk. rewrite <- (wrap64_small v).
    2: { revert k v Hk. apply add_count_small, add_maps_small. intros k v. by rewrite lookup_empty. }
    change v with (default 0 (Some v)). rewrite <- Hk. fold (tally counts k).
    by apply counts_tally. }
  exists a, (top_n (iter_map counts) TOP_PATHS_LIMIT).
  destruct (top_n_spec (iter_map counts) TOP_PATHS_LIMIT) as (Hlim & Hsort & rest & Hperm & _ & Hbest).
  assert (∀ k c, (k, c) ∈ top_n (iter_map counts) TOP_PATHS_LIMIT ++ rest ↔ counts !! k = Some c) as Hin.
  { intros k c. rewrite <- Hperm, iter_map_perm. apply elem_of_map_to_list. }
  split_and!; try done.
  - assert (NoDup (iter_map counts).*1) as Hnd by (rewrite iter_map_perm; apply NoDup_fst_map_to_list).
    rewrite Hperm, fmap_app in Hnd. by apply NoDup_app in Hnd as (? & _ & _).
  - intros k c Hk. apply Hcount, Hin. set_solver.
  - intros k Hk. destruct (counts !! k) as [v|] eqn:E.
    + right. intros k' c Hk'. rewrite <- (Hcount k v E).
      assert ((k, v) ∈ rest) as Hr.
      { apply Hin in E. apply elem_of_app in E as [E|E]; [|done]. destruct Hk.
        apply list_elem_of_fmap. by exists (k, v). }
      by apply (Hbest (k', c) (k, v)).
    + left. unfold hits. rewrite <- counts_tally. fold counts. unfold tally. by rewrite E.
Qed.

End archives.

(** * Examples *)

Lemma from_query_as_str p : from_query (as_str p) = p.
Proof. by destruct p. Qed.

(** Exact shares and sorted iteration. *)
Definition exact_share (d : N) : N := N.min (d * 20) 10000.

Definition demo_tick (i : nat) : Sample * gmap string N :=
  ({| sm_total := 10 * N.of_nat (S i); sm_auth := 6000 * N.of_nat (S i); sm_jwt := 0;
      sm_jwt_expiry := 0; sm_jwt_issued := 0; sm_4xx := 0; sm_5xx := 0; sm_active := 3%Z;
      sm_mem_kb := Some 1000; sm_cpu_ticks := Some 7 |}, {[ "/a" := 2; "/b" := 1 ]}).
Definition demo_ticks : list (Sample * gmap string N) := demo_tick <$> seq 0 13.

Lemma archive_refines_history_witness :
  ∃ a, run_ticks exact_share map_to_list demo_ticks archives_new = Some a ∧
    ∀ p, sparkline_for_period a p =
      Some (reverse (recent (archive p).2
              (period_rows (history_of exact_share map_to_list demo_ticks) p) slot_zero), step_secs p).
Proof. apply (archive_refines_history exact_share map_to_list demo_ticks). reflexivity. Defined.

Lemma window_counts_requests_witness :
  ∃ a, run_ticks exact_share map_to_list demo_ticks archives_new = Some a ∧
    window_req (fine a) 12 = Some 120.
Proof.
  apply (window_counts_requests exact_share map_to_list demo_ticks 12);
    [reflexivity|unfold FINE_SLOTS; lia|cbn; lia| |reflexivity].
  intros i Hi. do 12 (destruct i as [|i]; [vm_compute; split; [discriminate|reflexivity]|]). lia.
Defined.

Definition busy_minute (n : N) : Slot :=
  {| req := 0; mem := 0; cpu := 0; auth := 0; jwt := 0; jwt_expiry := 0; jwt_issued := 0;
     err4xx := n; err5xx := 0; active := 0 |}.

(** Fifty-nine minutes of 1092 client errors and one of 1108 make an hour of
    none. *)
Lemma consolidation_wraps_witness :
  let w := busy_minute 1108 :: replicate 59 (busy_minute 1092) in
  err4xx (consolidate w) = 0 ∧ err4xx (consolidate w) < sumN (err4xx <$> w).
Proof.
  intros w. destruct (consolidation_wraps w) as [Heq Hlt].
  - cbn. lia.
  - repeat constructor; vm_compute; discriminate.
  - split; [rewrite Heq; reflexivity|]. apply Hlt. vm_compute. discriminate.
Defined.

Lemma fine_paths_exact_witness :
  ∃ a rows, run_ticks exact_share map_to_list demo_ticks archives_new = Some a ∧
    fine_paths map_to_list (paths a) {[ "/c" := 5 ]} 12 = Some rows ∧ NoDup rows.*1 ∧
    (∀ c, ("/a", c) ∈ rows → c = 24).
Proof.
  destruct (fine_paths_exact exact_share map_to_list (λ m, reflexivity _) demo_ticks {[ "/c" := 5 ]} 12)
    as (a & rows & Ha & Hr & _ & _ & Hnd & Hc & _);
    [reflexivity|unfold FINE_SLOTS; lia|cbn; lia|].
  exists a, rows. split; [exact Ha|]. split; [exact Hr|]. split; [exact Hnd|]. intros c Hin. rewrite (Hc _ _ Hin). vm_compute. reflexivity.
Defined.

End Archive.
