(* ===== verification/AccessLog.v ===== *)
(** Access logging ([src/access_log.rs]): the record of a request and its four
    line formats, the escaping of the quoted tokens and the time stamps.

    The writer of JSON text is a parameter; [now] is the wall clock in seconds
    from the epoch, negative before it. *)
From stdpp Require Import sorting.
From S2P Require Import Prelude RustStr Utf8 Calendar Errors Jwt.

Module AccessLog.
Import Calendar.

Inductive AccessLogFormat := Tracing | Json | Common | Combined.

#[global] Instance format_eq_dec : EqDecision AccessLogFormat.
Proof. solve_decision. Defined.

Record AccessLogRecord := {
  al_peer : string;
  al_user : string;
  al_host : string;
  al_method : string;
  al_path : string;
  al_protocol : string;
  al_status : N;
  al_bytes_sent : option N;
  al_ms : N;
  al_referer : option string;
  al_user_agent : option string;
  al_extra : list (string * string);
}.

(** * Time stamps *)

(** [civil_from_days]: [div_euclid] and [rem_euclid] by a positive constant
    are [Z.div] and [Z.modulo]. *)
Definition civil_from_days (days_since_epoch : Z) : Z * Z * Z :=
  (let z := days_since_epoch + 719468 in
   let era := z / 146097 in
   let doe := z mod 146097 in
   let yoe := (doe - doe / 1460 + doe / 36524 - doe / 146096) / 365 in
   let y := yoe + era * 400 in
   let doy := doe - (365 * yoe + yoe / 4 - yoe / 100) in
   let mp := (5 * doy + 2) / 153 in
   let d := doy - (153 * mp + 2) / 5 + 1 in
   let m := if mp <? 10 then mp + 3 else mp - 9 in
   let y := if m <=? 2 then y + 1 else y in
   (y, m, d))%Z.

Definition MONTHS : list string :=
  ["Jan"; "Feb"; "Mar"; "Apr"; "May"; "Jun"; "Jul"; "Aug"; "Sep"; "Oct"; "Nov"; "Dec"].

(** The seconds since the epoch ([ZERO] before it): days, hour, minute, second. *)
Definition split_time (now : Z) : Z * Z * Z * Z :=
  (let secs := Z.max now 0 in
   let sod := secs mod 86400 in
   (secs / 86400, sod / 3600, (sod mod 3600) / 60, sod mod 60))%Z.

(** [None] is the panic of [MONTHS[month - 1]]. *)
Definition ncsa_timestamp (now : Z) : option string :=
  let '(days, h, m, s) := split_time now in
  let '(year, month, day) := civil_from_days days in
  name ← MONTHS !! Z.to_nat (month - 1);
  Some ("[" +:+ pad 2 day +:+ "/" +:+ name +:+ "/" +:+ pad 4 year +:+ ":" +:+ pad 2 h +:+ ":" +:+ pad 2 m
        +:+ ":" +:+ pad 2 s +:+ " +0000]").

Definition rfc3339_utc (now : Z) : string :=
  let '(days, h, m, s) := split_time now in
  let '(year, month, day) := civil_from_days days in
  pad 4 year +:+ "-" +:+ pad 2 month +:+ "-" +:+ pad 2 day +:+ "T" +:+ pad 2 h +:+ ":" +:+ pad 2 m +:+ ":"
  +:+ pad 2 s +:+ "Z".

(** * Escaping *)

Fixpoint escape_quotes (s : string) : string :=
  match s with
  | "" => ""
  | String c s' =>
      if Ascii.eqb c Errors.backslash || Ascii.eqb c Errors.quote
      then String Errors.backslash (String c (escape_quotes s'))
      else String c (escape_quotes s')
  end.

Definition quoted (s : string) : string :=
  String Errors.quote (escape_quotes s +:+ String Errors.quote "").

Definition extra_value (r : AccessLogRecord) (name : string) : string :=
  default "" (snd <$> List.find (λ nv, String.eqb (fst nv) name) (al_extra r)).

(** [v.contains(..)]: white space or a double quote. *)
Fixpoint has_ws_or_quote (s : string) : bool :=
  match s with
  | "" => false
  | String c s' => bool_decide (is_Some (ws_head s)) || Ascii.eqb c Errors.quote || has_ws_or_quote s'
  end.

Definition pair_text (r : AccessLogRecord) (name : string) : string :=
  let v := extra_value r name in
  name +:+ "=" +:+ (if is_empty v || has_ws_or_quote v then quoted v else v).

(** [join_extra]: a separator goes in front of a pair when there is text
    before it. *)
Definition join_extra (r : AccessLogRecord) (names : list string) : string :=
  fold_left (λ out name, (if is_empty out then out else out +:+ " ") +:+ pair_text r name) names "".

(** * Lines *)

Definition append_extra (line : string) (r : AccessLogRecord) (names : list string) : string :=
  fold_left (λ line name,
    let v := extra_value r name in
    line +:+ " " +:+ quoted (if is_empty v then "-" else v)) names line.

Definition bytes_text (r : AccessLogRecord) : string :=
  match al_bytes_sent r with Some n => dec n | None => "-" end.

Definition user_text (r : AccessLogRecord) : string := if is_empty (al_user r) then "-" else al_user r.

Definition format_common (now : Z) (r : AccessLogRecord) (names : list string) : option string :=
  ts ← ncsa_timestamp now;
  Some (append_extra
    (al_peer r +:+ " - " +:+ user_text r +:+ " " +:+ ts +:+ " " +:+
     String Errors.quote (al_method r +:+ " " +:+ escape_quotes (al_path r) +:+ " " +:+ al_protocol r +:+
       String Errors.quote (" " +:+ dec (al_status r) +:+ " " +:+ bytes_text r)))
    r names).

Definition format_combined (now : Z) (r : AccessLogRecord) (names : list string) : option string :=
  line ← format_common now r [];
  Some (append_extra
    (line +:+ " " +:+ quoted (default "-" (al_referer r)) +:+ " " +:+ quoted (default "-" (al_user_agent r)))
    r names).

(** The keys of [BTreeMap<&str, &str>], in their order. *)
Definition str_le (a b : string) : Prop := String.leb a b = true.
#[global] Instance str_le_dec a b : Decision (str_le a b).
Proof. unfold str_le. apply _. Defined.

Definition sorted_keys (names : list string) : list string := merge_sort str_le (remove_dups names).

(** The members of [JsonRow] in the order they are written: absent ones are
    skipped where the field says so, and a missing count is [null]. *)
Definition json_row (now : Z) (r : AccessLogRecord) (names : list string) : list (string * json) :=
  [("time", JStr (rfc3339_utc now)); ("peer", JStr (al_peer r)); ("user", JStr (al_user r));
   ("host", JStr (al_host r)); ("method", JStr (al_method r)); ("path", JStr (al_path r));
   ("protocol", JStr (al_protocol r)); ("status", JU64 (al_status r));
   ("bytes_sent", match al_bytes_sent r with Some n => JU64 n | None => JNull end);
   ("ms", JU64 (wrap64 (al_ms r)))]
  ++ match al_referer r with Some s => [("referer", JStr s)] | None => [] end
  ++ match al_user_agent r with Some s => [("user_agent", JStr s)] | None => [] end
  ++ ((λ n, (n, JStr (extra_value r n))) <$> sorted_keys names).

(** * The logger *)

Inductive Sink :=
  | SinkTracing
  | SinkStdout
  | SinkFile (path : string).

Record AccessLogger := {
  format : AccessLogFormat;
  sink : Sink;
  field_names : list string;
}.

(** [AccessLogger::new]: [open] is whether the file can be opened to append. *)
Definition new (open : string → bool) (f : AccessLogFormat) (path : option string) (names : list string)
    : Result AccessLogger :=
  let made s := Ok {| format := f; sink := s; field_names := names |} in
  match f, path with
  | Tracing, _ => made SinkTracing
  | _, Some p => if open p then made (SinkFile p) else Err "open"
  | _, None => made SinkStdout
  end.

Definition tracing_default : AccessLogger := {| format := Tracing; sink := SinkTracing; field_names := [] |}.

(** The [access-log] block of the configuration. *)
Record AccessLogConfig := {
  ac_format : AccessLogFormat;
  ac_path : option string;
  ac_fields : list (string * string);
}.

Definition build_access_log (open : string → bool) (cfg : option AccessLogConfig) : Result AccessLogger :=
  match cfg with
  | None => Ok tracing_default
  | Some cfg => new open (ac_format cfg) (ac_path cfg) (fst <$> ac_fields cfg)
  end.

(** What a record leads to: a structured event, or a line of the sink. *)
Inductive Output :=
  | OutEvent (fields : list (string * string))
  | OutLine (path : option string) (line : string).

Definition emit_tracing (lg : AccessLogger) (r : AccessLogRecord) : Output :=
  OutEvent
    ([("peer", al_peer r); ("user", al_user r); ("host", al_host r); ("method", al_method r);
      ("path", al_path r); ("status", dec (al_status r)); ("ms", dec (wrap64 (al_ms r)))]
     ++ match field_names lg with [] => [] | names => [("fields", join_extra r names)] end).

Definition write_line (lg : AccessLogger) (line : string) : list Output :=
  match sink lg with
  | SinkTracing => []
  | SinkStdout => [OutLine None (line +:+ String "010" "")]
  | SinkFile p => [OutLine (Some p) (line +:+ String "010" "")]
  end.

Definition emit (json_text : list (string * json) → string) (now : Z) (lg : AccessLogger)
    (r : AccessLogRecord) : option (list Output) :=
  let names := field_names lg in
  match format lg with
  | Tracing => Some [emit_tracing lg r]
  | Json => Some (write_line lg (json_text (json_row now r names)))
  | Common => write_line lg <$> format_common now r names
  | Combined => write_line lg <$> format_combined now r names
  end.

(** * Dates *)

Lemma civil_from_days_march era yoe doy :
  (0 <= yoe < 400)%Z → (0 <= doy <= last_doy yoe)%Z →
  civil_from_days (era * 146097 + (365 * yoe + yoe / 4 - yoe / 100 + doy) - 719468) =
  march_date (yoe + era * 400) doy.
Proof.
  intros Hy Hd. pose proof (doe_bounds yoe doy Hy Hd) as Hb. unfold civil_from_days.
  set (doe := (365 * yoe + yoe / 4 - yoe / 100 + doy)%Z) in *.
  replace (era * 146097 + doe - 719468 + 719468)%Z with (era * 146097 + doe)%Z by lia.
  replace ((era * 146097 + doe) / 146097)%Z with era by div_lia.
  replace ((era * 146097 + doe) mod 146097)%Z with doe by div_lia.
  rewrite (yoe_recovered yoe doy doe) by done.
  replace (doe - (365 * yoe + yoe / 4 - yoe / 100))%Z with doy by lia. reflexivity.
Qed.

Lemma civil_from_days_calendar n : civil_from_days (Z.of_nat n) = Nat.iter n next_day (1970, 1, 1)%Z.
Proof.
  destruct (civil_march n) as (era & yoe & doy & He & Hy & Hd & En & ->).
  rewrite En. by apply civil_from_days_march.
Qed.

Lemma calendar_month n : (1 <= (Nat.iter n next_day (1970, 1, 1)%Z).1.2 <= 12)%Z.
Proof.
  induction n as [|n IH]; [done|].
  change (Nat.iter (S n) next_day (1970, 1, 1)%Z) with (next_day (Nat.iter n next_day (1970, 1, 1)%Z)).
  destruct (Nat.iter n next_day _) as [[y m] d]. cbn in IH |- *. repeat case_match; cbn; lia.
Qed.

Lemma pad_digits w n : str_all is_digit (pad w n) = true.
Proof.
  unfold pad. rewrite str_all_app, dec_digits, andb_true_r. induction (_ - _)%nat as [|k IH]; [done|].
  cbn [replicate]. by rewrite concat_empty_cons.
Qed.

(** The text of a day: with the calendar's own date, and a month name there is. *)
Lemma split_time_spec n h m s :
  (0 <= h < 24)%Z → (0 <= m < 60)%Z → (0 <= s < 60)%Z →
  split_time (86400 * Z.of_nat n + 3600 * h + 60 * m + s) = (Z.of_nat n, h, m, s).
Proof.
  intros Hh Hm Hs. unfold split_time. rewrite Z.max_l by lia.
  set (now := (86400 * Z.of_nat n + 3600 * h + 60 * m + s)%Z).
  assert (now mod 86400 = 3600 * h + 60 * m + s)%Z as -> by (subst now; div_lia).
  repeat f_equal; subst now; div_lia.
Qed.

(** The time stamps of the log formats name the right instant: at [h:m:s]
    UTC of the [n]-th day after the epoch, both print that time and the date
    the Gregorian calendar gives by counting days, and the month's name is
    always found. *)
Theorem log_timestamps_correct n h m s :
  (0 <= h < 24)%Z → (0 <= m < 60)%Z → (0 <= s < 60)%Z →
  let now := (86400 * Z.of_nat n + 3600 * h + 60 * m + s)%Z in
  let '(y, mo, d) := Nat.iter n next_day (1970, 1, 1)%Z in
  let clock := pad 2 h +:+ ":" +:+ pad 2 m +:+ ":" +:+ pad 2 s in
  rfc3339_utc now = pad 4 y +:+ "-" +:+ pad 2 mo +:+ "-" +:+ pad 2 d +:+ "T" +:+ clock +:+ "Z" ∧
  ∃ name, MONTHS !! Z.to_nat (mo - 1) = Some name ∧
    ncsa_timestamp now =
      Some ("[" +:+ pad 2 d +:+ "/" +:+ name +:+ "/" +:+ pad 4 y +:+ ":" +:+ clock +:+ " +0000]").
Proof.
  intros Hh Hm Hs now. pose proof (calendar_month n) as Hmo.
  unfold rfc3339_utc, ncsa_timestamp, now. rewrite split_time_spec, civil_from_days_calendar by done.
  destruct (Nat.iter n next_day _) as [[y mo] d]. cbn in Hmo. rewrite !str_app_assoc. split; [done|].
  destruct (lookup_lt_is_Some_2 MONTHS (Z.to_nat (mo - 1))) as [name ->]; [cbn; lia|].
  exists name. split; [done|]. cbn [mbind option_bind]. by rewrite ?str_app_assoc.
Qed.

(** ** What a reader of the lines sees *)

Lemma month_no_bracket i name : MONTHS !! i = Some name → contains_char "]" name = false.
Proof. intros Hi. apply list_elem_of_lookup_2 in Hi. unfold MONTHS in Hi. set_unfold in Hi. naive_solver. Qed.

Lemma pad_no c w n : is_digit c = false → contains_char c (pad w n) = false.
Proof. intros Hc. apply digits_not_contain; [done|apply pad_digits]. Qed.

Lemma ncsa_shape now : ∃ ts, ncsa_timestamp now = Some (ts +:+ "]") ∧ contains_char "]" ts = false.
Proof.
  unfold ncsa_timestamp. destruct (split_time now) as [[[days h] m] s] eqn:Et.
  assert (0 <= days)%Z as Hd.
  { unfold split_time in Et. injection Et as <- _ _ _. apply Z.div_pos; lia. }
  rewrite <- (Z2Nat.id days) by done. rewrite civil_from_days_calendar.
  pose proof (calendar_month (Z.to_nat days)) as Hmo. destruct (Nat.iter _ next_day _) as [[y mo] d]. cbn in Hmo.
  destruct (lookup_lt_is_Some_2 MONTHS (Z.to_nat (mo - 1))) as [name Hn]; [cbn; lia|]. rewrite Hn.
  exists ("[" +:+ pad 2 d +:+ "/" +:+ name +:+ "/" +:+ pad 4 y +:+ ":" +:+ pad 2 h +:+ ":" +:+ pad 2 m
          +:+ ":" +:+ pad 2 s +:+ " +0000"). split.
  - cbn [mbind option_bind]. by rewrite !str_app_assoc.
  - rewrite !contains_char_app, !pad_no by done. by rewrite (month_no_bracket _ _ Hn).
Qed.

Lemma escape_quotes_realm s : escape_quotes s = Errors.escape_realm s.
Proof.
  induction s as [|c s IH]; [done|]. rewrite Errors.escape_realm_cons. cbn. by rewrite IH, orb_comm.
Qed.

Lemma escape_app a b : escape_quotes (a +:+ b) = escape_quotes a +:+ escape_quotes b.
Proof. induction a as [|c a IH]; [done|]. rewrite str_app_cons. cbn. rewrite IH. by destruct (_ || _). Qed.

Definition needs_no_escape (s : string) : Prop :=
  contains_char Errors.quote s = false ∧ contains_char Errors.backslash s = false.

Lemma escape_id s : needs_no_escape s → escape_quotes s = s.
Proof.
  unfold needs_no_escape. induction s as [|c s IH]; [done|]. cbn. rewrite !orb_false_iff.
  intros [[-> Hq] [-> Hb]]. cbn. by rewrite IH.
Qed.

(** [unquote] undoes the escaping up to the closing quote. *)
Lemma unquote_token s rest : Errors.unquote (escape_quotes s +:+ String Errors.quote rest) = Some (s, rest).
Proof. rewrite escape_quotes_realm. apply Errors.unquote_escape. Qed.

(** The columns of a line in the NCSA formats. *)
Record Columns := {
  c_peer : string;
  c_ident : string;
  c_user : string;
  c_time : string;
  c_request : string;
  c_status : string;
  c_bytes : string;
  c_tokens : list string;
}.

Definition space_quote : string := String " " (String Errors.quote "").

Fixpoint read_tokens (fuel : nat) (s : string) : option (list string) :=
  match fuel with
  | O => if is_empty s then Some [] else None
  | S fuel =>
      if is_empty s then Some []
      else r ← strip_prefix space_quote s; '(tok, s) ← Errors.unquote r; ts ← read_tokens fuel s;
           Some (tok :: ts)
  end.

Definition read_columns (line : string) : option Columns :=
  '(peer, s) ← split_once " " line; '(ident, s) ← split_once " " s; '(user, s) ← split_once " " s;
  '(time, s) ← split_once "]" s; s ← strip_prefix space_quote s; '(request, s) ← Errors.unquote s;
  s ← strip_prefix " " s; '(status, s) ← split_once " " s;
  let '(bytes, s) := match split_once " " s with Some (b, r) => (b, String " " r) | None => (s, "") end in
  tokens ← read_tokens (String.length s) s;
  Some {| c_peer := peer; c_ident := ident; c_user := user; c_time := time; c_request := request;
          c_status := status; c_bytes := bytes; c_tokens := tokens |}.

Definition tokens_text (l : list string) : string := String.concat "" ((λ t, String " " (quoted t)) <$> l).

Lemma tokens_text_app a b : tokens_text (a ++ b) = tokens_text a +:+ tokens_text b.
Proof.
  unfold tokens_text. induction a as [|x a IH]; [done|]. cbn [app fmap list_fmap].
  by rewrite !concat_empty_cons, IH, str_app_assoc.
Qed.

Lemma read_tokens_text l fuel : (length l ≤ fuel)%nat → read_tokens fuel (tokens_text l) = Some l.
Proof.
  revert fuel. induction l as [|t l IH]; intros fuel Hf; [by destruct fuel|].
  destruct fuel as [|fuel]; [cbn in Hf; lia|]. cbn [length] in Hf.
  unfold tokens_text. cbn [fmap list_fmap]. rewrite concat_empty_cons. fold (tokens_text l).
  unfold quoted. rewrite !str_app_cons, str_app_assoc, str_app_cons, str_app_nil_l. cbn [read_tokens is_empty].
  replace (String " " (String Errors.quote (escape_quotes t +:+ String Errors.quote (tokens_text l))))
    with (space_quote +:+ (escape_quotes t +:+ String Errors.quote (tokens_text l))) by done.
  rewrite strip_prefix_app. cbn [mbind option_bind]. rewrite unquote_token. cbn [mbind option_bind].
  rewrite IH by lia. done.
Qed.

Lemma tokens_text_length l : (length l ≤ String.length (tokens_text l))%nat.
Proof.
  induction l as [|t l IH]; [done|]. unfold tokens_text. cbn [fmap list_fmap length].
  rewrite concat_empty_cons, str_length_app. cbn. fold (tokens_text l). lia.
Qed.

Definition extra_tokens (r : AccessLogRecord) (names : list string) : list string :=
  (λ n, if is_empty (extra_value r n) then "-" else extra_value r n) <$> names.

Lemma append_extra_text line r names : append_extra line r names = line +:+ tokens_text (extra_tokens r names).
Proof.
  unfold append_extra. revert line. induction names as [|n names IH]; intros line; cbn [fold_left].
  - by rewrite str_app_nil_r.
  - rewrite IH. unfold tokens_text, extra_tokens. cbn [fmap list_fmap]. rewrite concat_empty_cons.
    rewrite !str_app_assoc. done.
Qed.

Definition request_line (r : AccessLogRecord) : string := al_method r +:+ " " +:+ al_path r +:+ " " +:+ al_protocol r.

Record loggable (r : AccessLogRecord) : Prop := {
  lg_peer : contains_char " " (al_peer r) = false;
  lg_user : contains_char " " (al_user r) = false;
  lg_method : needs_no_escape (al_method r);
  lg_protocol : needs_no_escape (al_protocol r);
}.

(** The fixed columns followed by any tokens. *)
Lemma read_common now r line tokens :
  loggable r → format_common now r [] = Some line →
  ∃ ts, ncsa_timestamp now = Some (ts +:+ "]") ∧
  read_columns (line +:+ tokens_text tokens) =
    Some {| c_peer := al_peer r; c_ident := "-"; c_user := user_text r; c_time := ts;
            c_request := request_line r; c_status := dec (al_status r); c_bytes := bytes_text r;
            c_tokens := tokens |}.
Proof.
  intros [Hp Hu Hm Hpr]. unfold format_common. destruct (ncsa_shape now) as (ts & -> & Hts).
  cbn [mbind option_bind append_extra fold_left]. intros [= <-]. exists ts. split; [done|].
  assert (contains_char " " (user_text r) = false) as Hu'.
  { unfold user_text. by destruct (is_empty (al_user r)). }
  assert (contains_char " " (bytes_text r) = false) as Hb.
  { unfold bytes_text. destruct (al_bytes_sent r); [|done]. apply digits_not_contain; [done|apply dec_digits]. }
  match goal with |- read_columns ?l = _ => replace l with
    (al_peer r +:+ String " " ("-" +:+ String " " (user_text r +:+ String " " (ts +:+ String "]" (space_quote +:+
      (escape_quotes (request_line r) +:+ String Errors.quote (" " +:+ (dec (al_status r) +:+ String " "
        (bytes_text r +:+ tokens_text tokens))))))))) end.
  2: { unfold request_line. rewrite !escape_app, !(escape_id (al_method r)), !(escape_id (al_protocol r)) by done.
       do 2 rewrite !str_app_assoc, !(str_app_cons Errors.quote). rewrite !str_app_assoc. reflexivity. }
  unfold read_columns. do 4 (rewrite split_once_app by done; cbn [mbind option_bind]).
  rewrite strip_prefix_app. cbn [mbind option_bind]. rewrite unquote_token. cbn [mbind option_bind].
  rewrite strip_prefix_app. cbn [mbind option_bind].
  rewrite split_once_app by (apply digits_not_contain; [done|apply dec_digits]). cbn [mbind option_bind].
  assert (match split_once " " (bytes_text r +:+ tokens_text tokens) with
          | Some (b, x) => (b, String " " x) | None => (bytes_text r +:+ tokens_text tokens, "") end =
          (bytes_text r, tokens_text tokens)) as ->.
  { destruct tokens as [|t tokens].
    - change (tokens_text []) with "". by rewrite str_app_nil_r, split_once_no_sep.
    - unfold tokens_text. cbn [fmap list_fmap]. rewrite concat_empty_cons, str_app_cons.
      by rewrite split_once_app. }
  by rewrite read_tokens_text by apply tokens_text_length.
Qed.

(** C25: the columns of the log cannot be forged from the request: when the peer and
    the user name have no space and the method and protocol no quote, a
    reader of a combined line gets back the very values that were logged,
    the path, the referrer, the user agent and the operator's fields
    whatever their bytes, one token for each configured field. *)
Theorem log_columns_unforgeable now r names :
  loggable r →
  ∃ line ts, format_combined now r names = Some line ∧ ncsa_timestamp now = Some (ts +:+ "]") ∧
    read_columns line =
      Some {| c_peer := al_peer r; c_ident := "-"; c_user := user_text r; c_time := ts;
              c_request := request_line r; c_status := dec (al_status r); c_bytes := bytes_text r;
              c_tokens := default "-" (al_referer r) :: default "-" (al_user_agent r) ::
                          extra_tokens r names |}.
Proof.
  intros Hr. unfold format_combined. destruct (format_common now r []) as [line|] eqn:El.
  - destruct (read_common now r line (default "-" (al_referer r) :: default "-" (al_user_agent r) ::
      extra_tokens r names) Hr El) as (ts & Hts & Hc).
    eexists _, ts. cbn [mbind option_bind]. split; [reflexivity|]. split; [done|]. rewrite <- Hc. f_equal.
    rewrite append_extra_text. unfold tokens_text. cbn [fmap list_fmap]. rewrite !concat_empty_cons.
    by rewrite !str_app_assoc.
  - unfold format_common in El. destruct (ncsa_shape now) as (ts & E & _). by rewrite E in El.
Qed.

(** The common format, likewise. *)
Lemma common_columns now r names :
  loggable r →
  ∃ line ts, format_common now r names = Some line ∧
    read_columns line =
      Some {| c_peer := al_peer r; c_ident := "-"; c_user := user_text r; c_time := ts;
              c_request := request_line r; c_status := dec (al_status r); c_bytes := bytes_text r;
              c_tokens := extra_tokens r names |}.
Proof.
  intros Hr. destruct (format_common now r []) as [line|] eqn:El.
  - destruct (read_common now r line (extra_tokens r names) Hr El) as (ts & Hts & Hc).
    exists (line +:+ tokens_text (extra_tokens r names)), ts. split; [|done].
    unfold format_common in El |- *. rewrite Hts in El |- *. cbn [mbind option_bind] in El |- *.
    cbn [append_extra fold_left] in El. injection El as <-. by rewrite append_extra_text.
  - unfold format_common in El. destruct (ncsa_shape now) as (ts & E & _). by rewrite E in El.
Qed.

(** The members of a JSON line have distinct names when the operator's fields
    avoid the built-in ones, however often a name is configured. *)
Definition RESERVED_FIELDS : list string :=
  ["time"; "peer"; "user"; "host"; "method"; "path"; "protocol"; "status"; "bytes_sent"; "ms"; "referer";
   "user_agent"].

Lemma json_row_keys now r names :
  (∀ n, n ∈ names → n ∉ RESERVED_FIELDS) → NoDup (fst <$> json_row now r names).
Proof.
  intros Hn. unfold json_row. rewrite !fmap_app, <- list_fmap_compose.
  assert (fst ∘ (λ n, (n, JStr (extra_value r n))) <$> sorted_keys names = sorted_keys names) as ->
    by apply list_fmap_id.
  assert (sorted_keys names ≡ₚ remove_dups names) as Hs by apply merge_sort_Permutation.
  rewrite !app_assoc. apply NoDup_app. split_and!.
  - destruct (al_referer r), (al_user_agent r); cbn; by apply (bool_decide_unpack _).
  - intros x Hx Hk. rewrite Hs, elem_of_remove_dups in Hk. apply (Hn x Hk).
    revert Hx. unfold RESERVED_FIELDS. destruct (al_referer r), (al_user_agent r); cbn; set_solver.
  - rewrite Hs. apply NoDup_remove_dups.
Qed.

(** * Examples *)

Module Demo.

Definition record (user path : string) : AccessLogRecord :=
  {| al_peer := "[::1]:5000"; al_user := user; al_host := "site"; al_method := "GET"; al_path := path;
     al_protocol := "HTTP/1.1"; al_status := 200; al_bytes_sent := Some 12; al_ms := 3; al_referer := None;
     al_user_agent := Some ("x" +:+ String Errors.quote " 500 9"); al_extra := [("tenant", "a b")] |}.

Lemma log_timestamps_correct_witness :
  rfc3339_utc 68176000 = "1972-02-29T01:46:40Z" ∧
  ncsa_timestamp 68176000 = Some "[29/Feb/1972:01:46:40 +0000]".
Proof.
  pose proof (log_timestamps_correct 789 1 46 40 ltac:(lia) ltac:(lia) ltac:(lia)) as Ht.
  change (86400 * Z.of_nat 789 + 3600 * 1 + 60 * 46 + 40)%Z with 68176000%Z in Ht.
  replace (Nat.iter 789 next_day (1970, 1, 1)%Z) with (1972, 2, 29)%Z in Ht by (vm_compute; reflexivity).
  destruct Ht as [Hr (name & Hn & Hs)]. injection Hn as <-. split; [rewrite Hr|rewrite Hs]; reflexivity.
Defined.

Lemma log_columns_unforgeable_witness :
  ∃ line ts, format_combined 68176000 (record "" "/a") ["tenant"] = Some line ∧
    read_columns line =
      Some {| c_peer := "[::1]:5000"; c_ident := "-"; c_user := "-"; c_time := ts;
              c_request := "GET /a HTTP/1.1"; c_status := "200"; c_bytes := "12";
              c_tokens := ["-"; "x" +:+ String Errors.quote " 500 9"; "a b"] |}.
Proof.
  destruct (log_columns_unforgeable 68176000 (record "" "/a") ["tenant"]) as (line & ts & Hf & _ & Hr).
  - by split.
  - exists line, ts. split; [exact Hf|exact Hr].
Defined.

(** A user name with a space moves the columns after it. *)
Lemma user_moves_columns :
  c_user <$> (format_combined 0 (record "al x" "/a") [] ≫= read_columns) ≠ Some "al x".
Proof. vm_compute. discriminate. Qed.

End Demo.

End AccessLog.
