(* ===== verification/Respond.v ===== *)
(** The small handlers ([src/handler/mod.rs], [src/handler/auth_request.rs]):
    redirects, canned responses, and the endpoint that answers the
    authentication subrequests of another server.

    [None] inside a result is a panic of the handler, [None] around it is
    exhausted fuel of a template. *)
From S2P Require Import Prelude RustStr Http Errors Template Vars Auth.

Module Respond.
Import Template.

Section respond.
Context `{Http} `{Regex}.

Abbreviation VarScope := (option Vars.VarTable) (only parsing).
Abbreviation slots := (list (option string)) (only parsing).

(** The file system of the moment. *)
Context (read_file : string → option string).

(** * Redirects *)

Record RedirectHandler := {
  rd_to : Template;
  rd_code : N;
}.

Definition redirect_handle (h : RedirectHandler) (sc : VarScope) (ctx : RequestContext) (s : slots)
    : option (option HttpResponse * slots) :=
  '(to, s) ← Vars.render sc ctx (rd_to h) s;
  Some (Errors.response_redirect to (rd_code h), s).

(** * Canned responses *)

Inductive RespondBodySource :=
  | SEmpty
  | SInline (t : Template)
  | SFile (path : string).

Record RespondHandler := {
  rp_status : N;
  rp_body : RespondBodySource;
  rp_content_type : option string;
}.

(** [builder.header] with a name that is a constant of the crate. *)
Definition builder_const (b : Errors.Builder) (k : HeaderName) (val : string) : Errors.Builder :=
  {| Errors.b_status := Errors.b_status b;
     Errors.b_headers := h ← Errors.b_headers b; v ← hv_from_str val; Some (hm_append h k v) |}.

(** The response once the body is known. *)
Definition finish (h : RespondHandler) (method : string) (body : option string) : option HttpResponse :=
  let b := Errors.builder_status Errors.builder (rp_status h) in
  let ct := match rp_content_type h with
            | Some ct => Some ct
            | None => if decide (is_Some body) then Some "text/plain; charset=utf-8" else None
            end in
  let b := match ct with Some ct => builder_const b CONTENT_TYPE ct | None => b end in
  match body with
  | Some bytes =>
      if String.eqb method "HEAD" then
        Errors.builder_body (builder_const b CONTENT_LENGTH (dec (str_len bytes))) ""
      else Errors.builder_body b bytes
  | None => Errors.builder_body b ""
  end.

Definition respond (h : RespondHandler) (sc : VarScope) (method : string) (ctx : RequestContext)
    (s : slots) : option (option HttpResponse * slots) :=
  match rp_body h with
  | SEmpty => Some (finish h method None, s)
  | SInline t => '(text, s) ← Vars.render sc ctx t s; Some (finish h method (Some text), s)
  | SFile path =>
      Some (match read_file path with
            | Some bytes => finish h method (Some bytes)
            | None => Errors.response_500
            end, s)
  end.

(** * Authentication subrequests *)

(** [make_response]: a value that is no header value is left out. *)
Definition identity_header (b : Errors.Builder) (key val : string) : Errors.Builder :=
  if negb (is_empty val) && bool_decide (is_Some (hv_from_str val)) then Errors.builder_header b key val else b.

Definition make_response (ctx : RequestContext) : HttpResponse :=
  let b := Errors.builder_status Errors.builder 200 in
  let b := identity_header b "X-Auth-User" (username ctx) in
  let b := identity_header b "X-Auth-Groups" (groups ctx) in
  default {| resp_status := 200; resp_headers := hm_new; resp_body := Full "" |} (Errors.builder_body b "").

(** * Properties *)

Context `{!HttpLaws} `{!HttpTextLaws}.

(** A handler the configuration can produce. *)
Record handler_ok (h : RespondHandler) : Prop := {
  ok_status : Errors.valid_status (rp_status h) = true;
  ok_type : ∀ ct, rp_content_type h = Some ct → is_Some (hv_from_str ct);
}.

(** What a canned response has to be. *)
Record canned (h : RespondHandler) (method : string) (body : option string) (r : HttpResponse) : Prop := {
  c_status : resp_status r = rp_status h;
  c_body : resp_body r = Full (if String.eqb method "HEAD" then "" else default "" body);
  c_length : String.eqb method "HEAD" = true → ∀ bytes, body = Some bytes →
    get_str (resp_headers r) CONTENT_LENGTH = Some (dec (str_len bytes));
  c_type : hv_as_bytes <$> hm_get_all (resp_headers r) CONTENT_TYPE =
    match rp_content_type h, body with
    | Some ct, _ => [ct]
    | None, Some _ => ["text/plain; charset=utf-8"]
    | None, None => []
    end;
}.

Lemma dec_value n : ∃ v, hv_from_str (dec n) = Some v ∧ hv_to_str v = Some (dec n).
Proof.
  destruct (hv_from_str_digits (dec n) (dec_digits n)) as [v Hv]. exists v. split; [done|].
  by apply hv_from_str_to_str_digits; [apply dec_digits|].
Qed.

Lemma type_value h (body : option string) :
  handler_ok h →
  ∀ ct, match rp_content_type h with
        | Some ct => Some ct
        | None => if decide (is_Some body) then Some "text/plain; charset=utf-8" else None
        end = Some ct →
  ∃ v, hv_from_str ct = Some v ∧ hv_as_bytes v = ct.
Proof.
  intros [_ Ht] ct Hct. assert (is_Some (hv_from_str ct)) as [v Hv].
  { destruct (rp_content_type h); simplify_eq; [by apply Ht|]. case_decide; simplify_eq.
    destruct (hv_from_str_visible "text/plain; charset=utf-8") as (v & -> & _); [reflexivity|eauto]. }
  exists v. split; [done|by apply hv_from_str_bytes].
Qed.

(** The builder with its content type, before the body. *)
Lemma typed_builder code (ct : option string) :
  Errors.valid_status code = true →
  (∀ c, ct = Some c → ∃ v, hv_from_str c = Some v ∧ hv_as_bytes v = c) →
  let b := Errors.builder_status Errors.builder code in
  ∃ hs, match ct with Some c => builder_const b CONTENT_TYPE c | None => b end
      = {| Errors.b_status := code; Errors.b_headers := Some hs |} ∧
    hv_as_bytes <$> hm_get_all hs CONTENT_TYPE = match ct with Some c => [c] | None => [] end ∧
    hm_get_all hs CONTENT_LENGTH = [].
Proof.
  intros Hs Ht b. unfold b, builder_const, Errors.builder_status. rewrite Hs. destruct ct as [c|]; cbn.
  - destruct (Ht c eq_refl) as (v & -> & Hv). eexists. split_and!; [done| |].
    + rewrite hm_get_all_append_eq, hm_get_all_new. cbn. by rewrite Hv.
    + by rewrite hm_get_all_append_ne, hm_get_all_new.
  - eexists. split_and!; [done|by rewrite hm_get_all_new..].
Qed.

Lemma finish_canned h method body :
  handler_ok h → ∃ r, finish h method body = Some r ∧ canned h method body r.
Proof.
  intros Hok. pose proof (type_value h body Hok) as Ht. destruct Hok as [Hs _].
  unfold finish. set (ct := match rp_content_type h with Some _ => _ | None => _ end) in *.
  assert (match rp_content_type h, body with
          | Some c, _ => [c] | None, Some _ => ["text/plain; charset=utf-8"] | None, None => [] end
          = match ct with Some c => [c] | None => [] end) as Hct.
  { unfold ct. destruct (rp_content_type h); [done|]. destruct body; [by rewrite decide_True|].
    by rewrite decide_False by (intros [? [=]]). }
  destruct (typed_builder (rp_status h) ct Hs Ht) as (hs & -> & Hty & Hlen).
  unfold Errors.builder_body, builder_const.
  destruct (String.eqb method "HEAD") eqn:Hm, body as [bytes|]; cbn.
  - destruct (dec_value (str_len bytes)) as (v & -> & Hv). eexists. split; [done|].
    split; cbn; rewrite ?Hm; [done|done| |by rewrite hm_get_all_append_ne, Hty, Hct].
    intros _ ? [= <-]. unfold get_str. by rewrite hm_get_head, hm_get_all_append_eq, Hlen.
  - eexists. split; [done|]. split; cbn; rewrite ?Hm; [done..|by rewrite Hty, Hct].
  - eexists. split; [done|]. split; cbn; rewrite ?Hm; [done..|by rewrite Hty, Hct].
  - eexists. split; [done|]. split; cbn; rewrite ?Hm; [done..|by rewrite Hty, Hct].
Qed.

(** A canned response is delivered without panicking: the configured status,
    the rendered text or the file as its body, its type, and for a [HEAD]
    request the length in place of the body; a file that cannot be read is a
    500. *)
Lemma respond_spec h sc method ctx s out s' :
  handler_ok h → respond h sc method ctx s = Some (out, s') →
  match rp_body h with
  | SEmpty => ∃ r, out = Some r ∧ canned h method None r
  | SInline t => ∃ text r, Vars.render sc ctx t s = Some (text, s') ∧ out = Some r ∧ canned h method (Some text) r
  | SFile path =>
      match read_file path with
      | Some bytes => ∃ r, out = Some r ∧ canned h method (Some bytes) r
      | None => out = Errors.response_500
      end
  end.
Proof.
  intros Hok. unfold respond. destruct (rp_body h) as [|t|path].
  - intros E. assert (finish h method None = out) as <- by congruence. by apply finish_canned.
  - intros ([text s1] & Hr & E)%bind_Some. destruct (finish_canned h method (Some text) Hok) as (r & Hf & Hc).
    exists text, r. rewrite Hf in E. by simplify_eq.
  - intros E. destruct (read_file path) as [bytes|]; [|congruence].
    assert (finish h method (Some bytes) = out) as <- by congruence. by apply finish_canned.
Qed.

(** * Chained servers *)

Lemma split_join gs :
  gs ≠ [] → Forall (λ g, contains_char "," g = false) gs → split "," (join "," gs) = gs.
Proof.
  induction gs as [|g gs IH]; [done|]. intros _ [Hg Hgs]%Forall_cons. destruct gs as [|g' gs].
  - by apply split_no_sep.
  - change (join "," (g :: g' :: gs)) with (g +:+ String "," (join "," (g' :: gs))).
    rewrite split_app, split_no_sep by done. cbn [app]. f_equal. by apply IH.
Qed.

(** A group name that survives a comma-separated header. *)
Definition plain_group (g : string) : Prop :=
  g ≠ "" ∧ contains_char "," g = false ∧ str_all (λ c, negb (ascii_ws c)) g = true ∧ str_all visible g = true.

Lemma parse_groups_join gs : Forall plain_group gs → Auth.parse_groups (join "," gs) = gs.
Proof.
  intros Hgs. destruct (decide (gs = [])) as [->|Hne]; [done|]. unfold Auth.parse_groups.
  rewrite split_join; [|done|by eapply Forall_impl; [exact Hgs|]; intros ? (? & ? & _)].
  clear Hne. induction Hgs as [|g gs (Hne & _ & Hw & _) _ IH]; [done|]. cbn.
  rewrite trim_id by done. unfold is_empty. rewrite (proj2 (String.eqb_neq _ _) Hne). cbn. by f_equal.
Qed.

Lemma join_visible gs : Forall plain_group gs → str_all visible (join "," gs) = true.
Proof.
  induction 1 as [|g gs (_ & _ & _ & Hv) Hgs IH]; [done|]. destruct gs as [|g' gs]; [done|].
  change (join "," (g :: g' :: gs)) with (g +:+ String "," (join "," (g' :: gs))).
  by rewrite str_all_app, Hv.
Qed.

Lemma join_empty gs : Forall plain_group gs → join "," gs = "" → gs = [].
Proof.
  destruct gs as [|g gs]; [done|]. intros [(Hne & _) _]%Forall_cons. destruct g; [done|]. by destruct gs.
Qed.

(** The names of the two headers, as the crate reads them. *)
Context (user_name : hn_from_bytes "X-Auth-User" = Some "x-auth-user")
  (groups_name : hn_from_bytes "X-Auth-Groups" = Some "x-auth-groups").

Lemma identity_header_spec b hs key k val :
  Errors.b_headers b = Some hs → hn_from_bytes key = Some k → str_all visible val = true →
  hm_get_all hs k = [] →
  ∃ hs', identity_header b key val = {| Errors.b_status := Errors.b_status b; Errors.b_headers := Some hs' |} ∧
    get_str hs' k = (if is_empty val then None else Some val) ∧
    ∀ k', k ≠ k' → hm_get_all hs' k' = hm_get_all hs k'.
Proof.
  intros Hb Hk Hv Hn. unfold identity_header. destruct (is_empty val) eqn:He; cbn [negb andb].
  - exists hs. destruct b as [st o]. cbn in *. subst o. unfold get_str. by rewrite hm_get_head, Hn.
  - destruct (hv_from_str_visible val Hv) as (v & Hfv & Htv). rewrite Hfv, bool_decide_true by eauto.
    unfold Errors.builder_header. rewrite Hb, Hk, Hfv. cbn. eexists. split_and!; [done| |].
    + unfold get_str. by rewrite hm_get_head, hm_get_all_append_eq, Hn.
    + intros k' Hne. by rewrite hm_get_all_append_ne.
Qed.

Lemma make_response_spec ctx :
  str_all visible (username ctx) = true → str_all visible (groups ctx) = true →
  let r := make_response ctx in
  resp_status r = 200 ∧
  get_str (resp_headers r) "x-auth-user" = (if is_empty (username ctx) then None else Some (username ctx)) ∧
  get_str (resp_headers r) "x-auth-groups" = (if is_empty (groups ctx) then None else Some (groups ctx)).
Proof.
  intros Hu Hg. unfold make_response.
  destruct (identity_header_spec (Errors.builder_status Errors.builder 200) hm_new "X-Auth-User" "x-auth-user"
    (username ctx)) as (h1 & -> & Hu1 & Ho1); [done..|apply hm_get_all_new|].
  cbn [Errors.b_status Errors.builder_status].
  destruct (identity_header_spec {| Errors.b_status := 200; Errors.b_headers := Some h1 |} h1 "X-Auth-Groups"
    "x-auth-groups" (groups ctx)) as (h2 & -> & Hg2 & Ho2); [done..| |].
  { rewrite Ho1 by done. apply hm_get_all_new. }
  cbn. split_and!; [done| |done]. rewrite <- Hu1. unfold get_str. by rewrite !hm_get_head, Ho2.
Qed.

(** The answer a subrequest to this handler gets. *)
Definition answers (ctx : RequestContext) : Auth.CallOutcome :=
  let r := make_response ctx in Auth.Responded (resp_status r) (resp_headers r).

(** An identity established by one server arrives unchanged at another that
    authenticates through it: the name, and groups that are plain words. *)
Theorem subrequest_identity_preserved id ctx client a headers :
  (username ctx, groups ctx) = Auth.principal_strings (Auth.Authenticated id) →
  str_all visible (Auth.id_username id) = true → Forall plain_group (Auth.id_groups id) →
  Auth.sa_user_header a = Some "x-auth-user" → Auth.sa_groups_header a = Some "x-auth-groups" →
  (∀ url hs, client url hs = answers ctx) →
  Auth.subrequest_call client a headers = Auth.Authenticated id.
Proof.
  intros Hctx Hv Hgs Hau Hag Hc. apply pair_eq in Hctx as [Hu Hg]. unfold Auth.principal_strings in Hu, Hg. cbn [fst snd] in Hu, Hg.
  unfold Auth.subrequest_call. rewrite Hc, Hau, Hag. unfold answers.
  destruct (make_response_spec ctx) as (-> & Eu & Eg); [by rewrite Hu|rewrite Hg; by apply join_visible|].
  cbn. rewrite Eu, Eg, Hu, Hg. destruct id as [u gs]. cbn [Auth.id_username Auth.id_groups] in *. do 2 f_equal.
  - unfold is_empty. by destruct (String.eqb_spec u "") as [->|].
  - unfold is_empty. fold (join "," gs) in *. destruct (String.eqb_spec (join "," gs) "") as [E|].
    + by rewrite (join_empty gs Hgs E).
    + cbn. by apply parse_groups_join.
Qed.

End respond.

Module Demo.

Definition ctx_of (p : Auth.Principal) : RequestContext :=
  {| client_ip := "127.0.0.1"; username := (Auth.principal_strings p).1; groups := (Auth.principal_strings p).2;
     method := "GET"; path := "/auth"; query := ""; path_and_query := "/auth"; host := "h"; scheme := "http";
     client_cert_subject := ""; client_cert_sans := ""; country := ""; ctx_headers := [] |}.

Definition gateway : Auth.SubrequestAuthenticator :=
  {| Auth.sa_url := "http://auth/"; Auth.sa_forward_headers := []; Auth.sa_user_header := Some "x-auth-user";
     Auth.sa_groups_header := Some "x-auth-groups"; Auth.sa_timeout := from_secs 5 |}.

Definition ann : Auth.Identity := {| Auth.id_username := "ann"; Auth.id_groups := ["ops"; "dev"] |}.
Definition asks (p : Auth.Principal) (url : string) (hs : header_map) : Auth.CallOutcome := answers (ctx_of p).

Lemma subrequest_identity_preserved_witness :
  Auth.subrequest_call (asks (Auth.Authenticated ann)) gateway hm_new = Auth.Authenticated ann.
Proof.
  assert (@hn_from_bytes assoc_http "X-Auth-User" = Some "x-auth-user") as Hu by reflexivity.
  assert (@hn_from_bytes assoc_http "X-Auth-Groups" = Some "x-auth-groups") as Hg by reflexivity.
  apply (subrequest_identity_preserved Hu Hg ann (ctx_of (Auth.Authenticated ann))); try reflexivity.
  repeat constructor; done.
Defined.

(** A request let through without an identity is reported with a 200 and no
    name, which the server that asked takes for a login with an empty name. *)
Lemma anonymous_becomes_authenticated :
  Auth.subrequest_call (asks Auth.Anonymous) gateway hm_new
    = Auth.Authenticated {| Auth.id_username := ""; Auth.id_groups := [] |}.
Proof. reflexivity. Qed.

(** A group name with a comma arrives as two groups. *)
Lemma comma_splits_group :
  let bob := {| Auth.id_username := "bob"; Auth.id_groups := ["guests,admin"] |} in
  Auth.subrequest_call (asks (Auth.Authenticated bob)) gateway hm_new
    = Auth.Authenticated {| Auth.id_username := "bob"; Auth.id_groups := ["guests"; "admin"] |}.
Proof. reflexivity. Qed.

End Demo.

End Respond.
