(* ===== verification/Dispatch.v ===== *)
(** The request pipeline ([src/listener/service.rs], [dispatch_inner]): host
    normalisation, built-in endpoints, identity, routing, the access, body and
    rate gates, header rules, the cache, the handler, session cookies,
    compression, metrics and the access log, over the components modelled in
    the other files.

    A computation threads the shared state and may panic or, inside the
    handler timeout, be dropped at an await point; what it did before stays
    done.  Handlers, authentication back-ends, the GeoIP reader, the clock and
    the random generator are parameters of a request; what other tasks do to
    the state of the identity provider or of the cache while this request
    awaits is a function of that state. *)
From S2P Require Import Prelude RustStr Utf8 Net Http Errors CacheEntry CacheStore Template Vars.
From S2P Require Import HeaderRules Auth Access CachePolicy CacheServe RateLimit Matcher Router Host.
From S2P Require Import ProxyProto Compress Grpc Jwt Health Oidc OidcRoutes Metrics AccessLog.

Module Dispatch.
Import Auth Jwt.

Definition REFERER : HeaderName := "referer".
Definition USER_AGENT : HeaderName := "user-agent".
Definition ACCEPT_ENCODING : HeaderName := "accept-encoding".
Definition ALT_SVC : HeaderName := "alt-svc".

(** * The peer *)

Inductive PeerAddr :=
  | Tcp (ip : IpAddr) (port : N)
  | Unix.

Definition peer_ip (p : PeerAddr) : IpAddr :=
  match p with Tcp a _ => a | Unix => V4 2130706433 end.

Definition ip_string `{IpText} (a : IpAddr) : string :=
  match a with V4 b => v4_text b | V6 b => v6_text b end.

Definition peer_string `{IpText} (p : PeerAddr) : string :=
  match p with
  | Tcp (V4 b) port => v4_text b +:+ ":" +:+ dec port
  | Tcp (V6 b) port => "[" +:+ v6_text b +:+ "]:" +:+ dec port
  | Unix => "[unix]"
  end.

(** * Logs *)

(** The events of [src/security.rs] the pipeline emits. *)
Inductive SecurityEvent :=
  | auth_failure (peer : PeerAddr) (method path host : string)
  | auth_challenge (peer : PeerAddr) (method path host : string)
  | access_denied (peer : PeerAddr) (method : string) (status : N) (path host : string)
  | rate_limited (peer : PeerAddr) (rule : string) (retry_after : N).

(** Where the serving future can be dropped by the handler timeout. *)
Inductive Await := AtPolicy | AtErrorPage | AtPrincipal | AtHandler.

#[global] Instance Await_eq_dec : EqDecision Await.
Proof. solve_decision. Defined.

(** What a computation comes to. *)
Inductive Res (A : Type) : Type :=
  | Done (a : A)
  | Panicked
  | Dropped.
Arguments Done {A} _.
Arguments Panicked {A}.
Arguments Dropped {A}.

Section dispatch.
Context `{Http} `{Regex} `{HttpDate} `{!Lru Entry.StoredResponse} `{IpNets} `{IpText} `{Authorities}
  `{F64} `{Encoders} `{Json} `{Base64Url} `{Es256} `{!BoundedLru CachedToken}
  `{!BoundedLru Oidc.BearerCacheEntry} `{OpenId}.
Context (canonical_reason : N → option string).
Context (parse_pq : string → option (string * option string)).
Context (from_parts : Matcher.Request → string * option string → bool).

(** * Configuration *)

Record RouteVars := {
  rv_table : Vars.VarTable;
  rv_needs : Vars.VarNeeds;
}.

(** What a location attaches to its route; rate-limit rules are shared, so
    they are referred to by number. *)
Record Attachments := {
  at_handler : Serve.HttpRequest → string → Template.RequestContext → HttpResponse;
  at_kind : Metrics.HandlerKind;
  at_policy : option Access.PolicyBlock;
  at_realm : option string;
  at_header_rules : option HeaderRules.HeaderRules;
  at_rate_limits : list nat;
  at_max_request_body : option N;
  at_cache_policy : option Policy.CachePolicy;
  at_vars : option RouteVars;
  at_log_fields : option (list (string * list Template.TemplatePart));
}.

Record ClientCertIdentity := {
  cn : string;
  cert_subject : string;
  sans : list string;
}.

(** The parts of [AppState] that do not change while requests are served. *)
Record AppState := {
  tables : gmap string (Router.VhostTable (payload := Attachments));
  authenticator : header_map → nat → Principal;
  inner_authenticator : header_map → nat → Principal;
  geoip : option (IpAddr → option string);
  health : Health.HealthState;
  error_pages : Errors.ErrorPages;
  jwt_manager : option JwtManager;
}.

(** [HypershuntService], per connection. *)
Record Service := {
  bind : string;
  peer : PeerAddr;
  is_tls : bool;
  handler_timeout : bool;
  max_body_bytes : option N;
  auto_alt_svc : option string;
  client_cert : option ClientCertIdentity;
}.

Record Req := {
  r_version : Host.Version;
  r_authority : option authority;
  r_method : string;
  r_path : string;
  r_query : option string;
  r_path_and_query : string;
  r_headers : header_map;
  r_body : Body;
}.

(** What the surroundings decide during one request. *)
Record Env := {
  read_file : string → option string;
  draining : bool;
  acme_challenges : gmap string string;
  elapsed : Duration;
  wall : option N;
  now : Instant;
  now_later : Instant;
  fresh_login : Oidc.Fresh;
  fresh_sid : string;
  idp_during : Oidc.OidcProvider → Oidc.OidcProvider;
  rate_now : Instant;
  serve_now : Instant;
  wait_now : Instant;
  fresh_channel : nat;
  cache_during : Store.CacheStore → Store.CacheStore;
  cache_wait : Store.CacheStore → Store.CacheStore;
  cache_dropped : Store.CacheStore → Store.CacheStore;
  cut : option Await;
}.

(** * State *)

Record World := {
  metrics : Metrics.Metrics;
  jwt_cache : blru (V := CachedToken);
  oidc : option Oidc.OidcProvider;
  limits : gmap nat RateLimit.RateLimitRule;
  cache : option Store.CacheStore;
  access_log : list AccessLog.AccessLogRecord;
  security_log : list SecurityEvent;
  revocations : list string;
  refresh_tasks : list string;
  (** Two locals of the pipeline that the serving future writes and that
      survive when it is dropped. *)
  matched_class : option (string * Metrics.HandlerKind);
  log_extra : list (string * string);
}.

Definition set_metrics (w : World) m : World :=
  {| metrics := m; jwt_cache := jwt_cache w; oidc := oidc w; limits := limits w; cache := cache w;
     access_log := access_log w; security_log := security_log w; revocations := revocations w;
     refresh_tasks := refresh_tasks w;
     matched_class := matched_class w; log_extra := log_extra w |}.
Definition set_jwt_cache (w : World) c : World :=
  {| metrics := metrics w; jwt_cache := c; oidc := oidc w; limits := limits w; cache := cache w;
     access_log := access_log w; security_log := security_log w; revocations := revocations w;
     refresh_tasks := refresh_tasks w;
     matched_class := matched_class w; log_extra := log_extra w |}.
Definition set_oidc (w : World) o : World :=
  {| metrics := metrics w; jwt_cache := jwt_cache w; oidc := o; limits := limits w; cache := cache w;
     access_log := access_log w; security_log := security_log w; revocations := revocations w;
     refresh_tasks := refresh_tasks w;
     matched_class := matched_class w; log_extra := log_extra w |}.
Definition set_limits (w : World) l : World :=
  {| metrics := metrics w; jwt_cache := jwt_cache w; oidc := oidc w; limits := l; cache := cache w;
     access_log := access_log w; security_log := security_log w; revocations := revocations w;
     refresh_tasks := refresh_tasks w;
     matched_class := matched_class w; log_extra := log_extra w |}.
Definition set_cache (w : World) c : World :=
  {| metrics := metrics w; jwt_cache := jwt_cache w; oidc := oidc w; limits := limits w; cache := c;
     access_log := access_log w; security_log := security_log w; revocations := revocations w;
     refresh_tasks := refresh_tasks w;
     matched_class := matched_class w; log_extra := log_extra w |}.
Definition push_log (w : World) r : World :=
  {| metrics := metrics w; jwt_cache := jwt_cache w; oidc := oidc w; limits := limits w; cache := cache w;
     access_log := access_log w ++ [r]; security_log := security_log w; revocations := revocations w;
     refresh_tasks := refresh_tasks w;
     matched_class := matched_class w; log_extra := log_extra w |}.
Definition push_security (w : World) e : World :=
  {| metrics := metrics w; jwt_cache := jwt_cache w; oidc := oidc w; limits := limits w; cache := cache w;
     access_log := access_log w; security_log := security_log w ++ [e]; revocations := revocations w;
     refresh_tasks := refresh_tasks w;
     matched_class := matched_class w; log_extra := log_extra w |}.
Definition push_revocation (w : World) t : World :=
  {| metrics := metrics w; jwt_cache := jwt_cache w; oidc := oidc w; limits := limits w; cache := cache w;
     access_log := access_log w; security_log := security_log w; revocations := revocations w ++ [t];
     refresh_tasks := refresh_tasks w;
     matched_class := matched_class w; log_extra := log_extra w |}.
Definition set_class (w : World) c : World :=
  {| metrics := metrics w; jwt_cache := jwt_cache w; oidc := oidc w; limits := limits w; cache := cache w;
     access_log := access_log w; security_log := security_log w; revocations := revocations w;
     refresh_tasks := refresh_tasks w;
     matched_class := c; log_extra := log_extra w |}.
Definition set_extra (w : World) x : World :=
  {| metrics := metrics w; jwt_cache := jwt_cache w; oidc := oidc w; limits := limits w; cache := cache w;
     access_log := access_log w; security_log := security_log w; revocations := revocations w;
     refresh_tasks := refresh_tasks w;
     matched_class := matched_class w; log_extra := x |}.

Definition push_refresh_task (w : World) k : World :=
  {| metrics := metrics w; jwt_cache := jwt_cache w; oidc := oidc w; limits := limits w; cache := cache w;
     access_log := access_log w; security_log := security_log w; revocations := revocations w;
     refresh_tasks := refresh_tasks w ++ [k];
     matched_class := matched_class w; log_extra := log_extra w |}.

(** * Computations *)

Definition D (A : Type) : Type := World → Res A * World.

#[global] Instance D_ret : MRet D := λ _ a w, (Done a, w).
#[global] Instance D_bind : MBind D := λ _ _ f c w,
  match c w with
  | (Done a, w') => f a w'
  | (Panicked, w') => (Panicked, w')
  | (Dropped, w') => (Dropped, w')
  end.

#[global] Instance D_fmap : FMap D := λ _ _ f c w,
  match c w with
  | (Done a, w') => (Done (f a), w')
  | (Panicked, w') => (Panicked, w')
  | (Dropped, w') => (Dropped, w')
  end.

Definition get : D World := λ w, (Done w, w).
Definition modify (f : World → World) : D () := λ w, (Done (), f w).
(** [expect] and the other panics of the callees. *)
Definition lift {A} (o : option A) : D A := λ w,
  match o with Some a => (Done a, w) | None => (Panicked, w) end.
Definition on_metrics (f : Metrics.Metrics → Metrics.Metrics) : D () :=
  modify (λ w, set_metrics w (f (metrics w))).
Definition count (c : Metrics.Counter) : D () := on_metrics (Metrics.count c 1).
Definition security (e : SecurityEvent) : D () := modify (λ w, push_security w e).

(** The serving future is suspended: it is dropped here when the timeout is
    set and fires now. *)
Definition await (svc : Service) (env : Env) (a : Await) : D () := λ w,
  if handler_timeout svc && bool_decide (cut env = Some a) then (Dropped, w) else (Done (), w).

Definition drop_with {A} (f : World → World) : D A := λ w, (Dropped, f w).

(** * Accounting *)

Definition record_compression (s : Compress.CompressionStats) : D () :=
  match Compress.applied s with
  | Some enc =>
      _ ← on_metrics (Metrics.count Metrics.compress_responses_total 1);
      _ ← on_metrics (Metrics.count Metrics.compress_bytes_in_total (Compress.bytes_in s));
      _ ← on_metrics (Metrics.count Metrics.compress_bytes_out_total (Compress.bytes_out s));
      count match enc with
            | Compress.Gzip => Metrics.compress_gzip_total
            | Compress.Brotli => Metrics.compress_brotli_total
            | Compress.Zstd => Metrics.compress_zstd_total
            end
  | None => if Compress.skipped s then count Metrics.compress_skipped_total else mret ()
  end.

(** The first value of a header as a number. *)
Definition content_length (h : header_map) : option N :=
  s ← get_str h CONTENT_LENGTH; parse_uint u64_max s.

Section request.
Context (st : AppState) (svc : Service) (env : Env).

(** What the pipeline copies out of the request before it is consumed. *)
Definition host_of (req : Req) : string := default "" (get_str (r_headers req) HOST).
Definition query_of (req : Req) : string := default "" (r_query req).

Definition log_access (req : Req) (resp : HttpResponse) (user : string)
    (extra : list (string * string)) : D () :=
  modify (λ w, push_log w
    {| AccessLog.al_peer := peer_string (peer svc); AccessLog.al_user := user; AccessLog.al_host := host_of req;
       AccessLog.al_method := r_method req; AccessLog.al_path := r_path req;
       AccessLog.al_protocol := Host.http_version_str (r_version req);
       AccessLog.al_status := resp_status resp; AccessLog.al_bytes_sent := content_length (resp_headers resp);
       AccessLog.al_ms := elapsed env / 1000000; AccessLog.al_referer := get_str (r_headers req) REFERER;
       AccessLog.al_user_agent := get_str (r_headers req) USER_AGENT; AccessLog.al_extra := extra |}).

(** [record_path] may panic. *)
Definition record_path (path : string) : D () := λ w,
  match Metrics.record_path path (metrics w) with
  | Some m => (Done (), set_metrics w m)
  | None => (Panicked, w)
  end.

(** The end of every built-in endpoint. *)
Definition finish_builtin (kind : Metrics.HandlerKind) (req : Req) (resp : HttpResponse)
    : D HttpResponse :=
  _ ← on_metrics Metrics.dec_active;
  _ ← on_metrics (Metrics.record (resp_status resp) (elapsed env));
  _ ← on_metrics (Metrics.record_class kind Metrics.BUILTIN_VHOST (resp_status resp) (elapsed env));
  _ ← on_metrics (Metrics.listener_request (bind svc));
  _ ← record_path (r_path req);
  _ ← log_access req resp "-" [];
  mret resp.

(** * Built-in endpoints

    [None] falls through to the next stage. *)

Definition acme_stage (req : Req) : D (option HttpResponse) :=
  match (token ← strip_prefix "/.well-known/acme-challenge/" (r_path req);
         acme_challenges env !! token) with
  | Some body =>
      resp ← lift (Errors.build 200 [("Content-Type", "text/plain")] body);
      Some <$> finish_builtin Metrics.Acme req resp
  | None => mret None
  end.

Definition health_stage (req : Req) : D (option HttpResponse) :=
  match Health.try_serve (r_method req) (r_path req) (bind svc) (health st) (draining env) with
  | Some served =>
      resp ← lift served;
      Some <$> finish_builtin Metrics.Health req resp
  | None => mret None
  end.

Definition jwks_stage (req : Req) : D (option HttpResponse) :=
  match jwt_manager st with
  | Some jwt =>
      if String.eqb (r_path req) "/.well-known/jwks.json" then
        resp ← lift (Errors.build 200 [("Content-Type", "application/json");
                                       ("Cache-Control", "public, max-age=3600")] (jwks_json jwt));
        Some <$> finish_builtin Metrics.Jwks req resp
      else mret None
  | None => mret None
  end.

(** The endpoints' own counters. *)
Definition count_oidc (c : OidcRoutes.Counter) : D () :=
  count match c with
        | OidcRoutes.oidc_backchannel_failures => Metrics.oidc_backchannel_failures
        | OidcRoutes.oidc_backchannel_logouts => Metrics.oidc_backchannel_logouts
        | OidcRoutes.oidc_callback_iss_mismatches => Metrics.oidc_callback_iss_mismatches
        end.
Fixpoint count_all (cs : list OidcRoutes.Counter) : D () :=
  match cs with
  | [] => mret ()
  | c :: cs' => _ ← count_oidc c; count_all cs'
  end.

Definition put_oidc (p : Oidc.OidcProvider) : D () := modify (λ w, set_oidc w (Some p)).

(** An endpoint of a provider that is not ready answers at once. *)
Definition not_ready : D (option HttpResponse) := Some <$> lift (Errors.response_503_retry 5).

Definition oidc_login (p : Oidc.OidcProvider) (req : Req) : D (option HttpResponse) :=
  if negb (Oidc.is_ready p) then not_ready
  else
    let '(resp, p') := OidcRoutes.handle_oidc_login p (now env) (fresh_login env) (query_of req) (is_tls svc) in
    _ ← put_oidc p';
    resp ← lift resp;
    Some <$> finish_builtin Metrics.Oidc req resp.

Definition oidc_callback (p : Oidc.OidcProvider) (req : Req) : D (option HttpResponse) :=
  if negb (Oidc.is_ready p) then not_ready
  else
    let '(resp, p', cs) :=
      OidcRoutes.handle_oidc_callback (read_file env) (error_pages st) p (jwt_manager st) (wall env)
        (now env) (now_later env) (idp_during env) (fresh_sid env) (r_headers req) (query_of req)
        (is_tls svc) in
    _ ← put_oidc p';
    _ ← count_all cs;
    resp ← lift resp;
    Some <$> finish_builtin Metrics.Oidc req resp.

Definition oidc_backchannel (p : Oidc.OidcProvider) (req : Req) : D (option HttpResponse) :=
  if negb (String.eqb (r_method req) "POST") then
    resp ← lift (Errors.response_status (read_file env) 405 (Some (error_pages st)));
    Some <$> finish_builtin Metrics.Oidc req resp
  else if negb (Oidc.is_ready p) then not_ready
  else
    let '(resp, p', cs) :=
      OidcRoutes.handle_oidc_backchannel_logout (read_file env) (error_pages st) p (wall env) (now env)
        (r_headers req) (r_body req) in
    _ ← put_oidc p';
    _ ← count_all cs;
    resp ← lift resp;
    Some <$> finish_builtin Metrics.Oidc req resp.

Definition oidc_logout (p : Oidc.OidcProvider) (req : Req) : D (option HttpResponse) :=
  if negb (Oidc.is_ready p) then not_ready
  else
    let '(resp, p', revoked) :=
      OidcRoutes.handle_oidc_logout p (jwt_manager st) (r_headers req) (is_tls svc) in
    _ ← put_oidc p';
    _ ← match revoked with Some t => modify (λ w, push_revocation w t) | None => mret () end;
    resp ← lift resp;
    _ ← count Metrics.oidc_logouts;
    Some <$> finish_builtin Metrics.Oidc req resp.

Definition oidc_stage (req : Req) : D (option HttpResponse) :=
  w ← get;
  match oidc w with
  | None => mret None
  | Some p =>
      let c := Oidc.cfg p in
      if String.eqb (r_path req) (Oidc.login_path c) then oidc_login p req
      else if String.eqb (r_path req) (Oidc.callback_path c) then oidc_callback p req
      else if Oidc.backchannel_logout_enabled c
              && String.eqb (r_path req) (Oidc.backchannel_logout_path c)
      then oidc_backchannel p req
      else if String.eqb (r_path req) (Oidc.logout_path c) then oidc_logout p req
      else mret None
  end.

(** The first stage that answers. *)
Fixpoint first_answer (stages : list (D (option HttpResponse))) : D (option HttpResponse) :=
  match stages with
  | [] => mret None
  | s :: stages' =>
      r ← s;
      match r with Some resp => mret (Some resp) | None => first_answer stages' end
  end.

Definition builtin (req : Req) : D (option HttpResponse) :=
  first_answer [acme_stage req; health_stage req; jwks_stage req; oidc_stage req].

(** * Identity *)

Definition session_identity (req : Req) : D (option Identity) :=
  match jwt_manager st with
  | None => mret None
  | Some j =>
      w ← get;
      let '(r, c) := validate j (wall env) (r_headers req) (jwt_cache w) in
      _ ← modify (λ w, set_jwt_cache w c);
      match r with
      | Some (Valid id) => mret (Some id)
      | Some Invalid => _ ← count Metrics.jwt_failures; mret None
      | Some Expired => _ ← count Metrics.jwt_expiries; mret None
      | Some NotMine | None => mret None
      end
  end.

Definition cert_identity (found : option Identity) : option Identity :=
  match found, client_cert svc with
  | None, Some id => Some {| id_username := cn id; id_groups := [] |}
  | _, _ => found
  end.

Definition bearer_identity (req : Req) (found : option Identity) : D (option Identity) :=
  w ← get;
  match found, oidc w with
  | None, Some p =>
      if Oidc.bearer (Oidc.cfg p) && Oidc.is_ready p then
        match OidcRoutes.extract_bearer (r_headers req) with
        | None => mret None
        | Some token =>
            let '(r, p') := Oidc.validate_bearer_token p (wall env) token in
            _ ← put_oidc p';
            match r with
            | Ok id => _ ← count Metrics.oidc_bearer_validations; mret (Some id)
            | Err _ => _ ← count Metrics.oidc_bearer_failures; mret None
            end
        end
      else mret None
  | _, _ => mret found
  end.

(** The identity, and the cookies queued for the response. *)
Definition refresh_identity (req : Req) (found : option Identity)
    : D (option Identity * list string) :=
  w ← get;
  match found, oidc w, jwt_manager st with
  | None, Some p, Some jwt =>
      let c := Oidc.cfg p in
      if Oidc.is_ready p && Oidc.cfg_refresh c then
        match OidcRoutes.cookie_value (r_headers req) (Oidc.refresh_cookie_name c) with
        | None => mret (None, [])
        | Some sid =>
            let '(r, p') := Oidc.refresh p (now env) (now_later env) (idp_during env) (fresh_sid env) sid in
            _ ← put_oidc p';
            match r with
            | Ok (who, new_sid) =>
                _ ← count Metrics.oidc_refreshes;
                let session := match make_set_cookie jwt (wall env) who (is_tls svc) with
                               | Ok v => [v]
                               | Err _ => []
                               end in
                let rotated := if String.eqb new_sid sid then []
                               else [OidcRoutes.refresh_cookie_value (Oidc.refresh_cookie_name c)
                                       new_sid (Oidc.refresh_ttl_secs c) (is_tls svc)] in
                mret (Some who, session ++ rotated)
            | Err _ =>
                _ ← count Metrics.oidc_refresh_failures;
                mret (None, [OidcRoutes.clear_refresh_cookie (Oidc.refresh_cookie_name c) (is_tls svc)])
            end
        end
      else mret (None, [])
  | _, _, _ => mret (found, [])
  end.

Definition resolve_identity (req : Req) : D (option Identity * list string) :=
  a ← session_identity req;
  b ← bearer_identity req (cert_identity a);
  refresh_identity req b.

(** The back-end asked for credentials. *)
Definition credential_auth (headers : header_map) : nat → Principal :=
  match jwt_manager st with
  | Some j => if is_session_mode j then inner_authenticator st headers else authenticator st headers
  | None => authenticator st headers
  end.

(** [RequestAuthProvider::authenticate]. *)
Definition request_auth (headers : header_map) (pre : option Identity) (call : nat) : Principal :=
  match pre with
  | Some id => Authenticated id
  | None => credential_auth headers call
  end.

(** * Serving a routed request *)

Abbreviation Slots := (list (option string)) (only parsing).

Definition request_of (req : Req) : Matcher.Request :=
  {| Matcher.rq_method := r_method req; Matcher.rq_path := r_path req;
     Matcher.rq_query := r_query req; Matcher.rq_headers := r_headers req |}.

Definition scope_of (a : Attachments) : option Vars.VarTable :=
  match at_vars a with
  | Some v => if Vars.n_uses_vars (rv_needs v) then Some (rv_table v) else None
  | None => None
  end.
Definition slots_of (a : Attachments) : Slots :=
  match scope_of a with Some t => Vars.new_slots t | None => [] end.
Definition var_headers_of (a : Attachments) (h : header_map) : list (HeaderName * string) :=
  match at_vars a with
  | Some v => (λ n, (n, default "" (get_str h n))) <$> Vars.n_headers (rv_needs v)
  | None => []
  end.

Definition wants_country (a : Attachments) : bool :=
  match at_policy a with Some p => Access.pb_needs_geoip p | None => false end
  || match at_vars a with Some v => Vars.n_geoip (rv_needs v) | None => false end.

Definition lookup_country (a : Attachments) : D (option string) :=
  match geoip st with
  | Some reader =>
      if wants_country a then
        _ ← count Metrics.geoip_lookups_total;
        let c := reader (peer_ip (peer svc)) in
        _ ← match c with None => count Metrics.geoip_lookup_misses_total | Some _ => mret () end;
        mret c
      else mret None
  | None => mret None
  end.

Definition scheme : string := if is_tls svc then "https" else "http".

(** The context of a policy redirect, which knows no client certificate. *)
Definition redirect_ctx (req : Req) (p : Principal) (country : option string)
    (hs : list (HeaderName * string)) : Template.RequestContext :=
  {| Template.client_ip := ip_string (peer_ip (peer svc));
     Template.username := (principal_strings p).1; Template.groups := (principal_strings p).2;
     Template.method := r_method req; Template.path := r_path req; Template.query := query_of req;
     Template.path_and_query := r_path_and_query req; Template.host := host_of req;
     Template.scheme := scheme; Template.client_cert_subject := ""; Template.client_cert_sans := "";
     Template.country := default "" country; Template.ctx_headers := hs |}.

Definition request_ctx (req : Req) (p : Principal) (country : option string)
    (hs : list (HeaderName * string)) : Template.RequestContext :=
  {| Template.client_ip := ip_string (peer_ip (peer svc));
     Template.username := (principal_strings p).1; Template.groups := (principal_strings p).2;
     Template.method := r_method req; Template.path := r_path req; Template.query := query_of req;
     Template.path_and_query := r_path_and_query req; Template.host := host_of req;
     Template.scheme := scheme;
     Template.client_cert_subject := match client_cert svc with Some c => cert_subject c | None => "" end;
     Template.client_cert_sans := match client_cert svc with Some c => join "," (sans c) | None => "" end;
     Template.country := default "" country; Template.ctx_headers := hs |}.

(** The answer to a denied request that could authenticate. *)
Definition challenge (req : Req) (a : Attachments) : D HttpResponse :=
  let session_cookie := (λ j, cookie_name (config j)) <$> jwt_manager st in
  _ ← (if Host.presented_credentials (r_headers req) session_cookie then
         _ ← count Metrics.auth_failures;
         security (auth_failure (peer svc) (r_method req) (r_path req) (host_of req))
       else security (auth_challenge (peer svc) (r_method req) (r_path req) (host_of req)));
  w ← get;
  let sso := match oidc w with
             | Some p => if Oidc.is_ready p && OidcRoutes.wants_html (r_headers req) then Some p else None
             | None => None
             end in
  match sso with
  | Some p =>
      lift (Errors.response_redirect
              (OidcRoutes.build_login_redirect (Oidc.login_path (Oidc.cfg p)) (r_path_and_query req)) 302)
  | None =>
      _ ← await svc env AtErrorPage;
      lift (Errors.response_www_auth (read_file env) (default "Restricted" (at_realm a))
              (Some (error_pages st)))
  end.

(** The access policy: a response, or the principal it resolved and how often
    the back-end was asked. *)
Definition gate_policy (req : Req) (a : Attachments) (country : option string)
    (pre : option Identity) : D (HttpResponse + Principal * nat) :=
  match at_policy a with
  | None => mret (inr (Anonymous, 0%nat))
  | Some policy =>
      _ ← await svc env AtPolicy;
      let '(outcome, ctx) := Access.evaluate policy (request_auth (r_headers req) pre)
                               (Access.new_context (peer_ip (peer svc)) country) in
      let principal := Access.take_principal ctx in
      match outcome with
      | Access.Allow => mret (inr (principal, Access.ec_calls ctx))
      | Access.Deny code =>
          if code =? 401 then inl <$> challenge req a
          else
            _ ← security (access_denied (peer svc) (r_method req) code (r_path req) (host_of req));
            _ ← await svc env AtErrorPage;
            inl <$> lift (Errors.response_status (read_file env) code (Some (error_pages st)))
      | Access.Redirect to code =>
          let rctx := redirect_ctx req principal country (var_headers_of a (r_headers req)) in
          '(target, _) ← lift (Vars.render (scope_of a) rctx to (slots_of a));
          inl <$> lift (Errors.response_redirect target code)
      end
  end.

Definition templates_need_principal (a : Attachments) : bool :=
  match at_header_rules a with Some r => HeaderRules.hr_needs_principal r | None => false end
  || match at_vars a with Some v => Vars.n_principal (rv_needs v) | None => false end.

(** The principal for the templates, asked for when the policy has not. *)
Definition late_principal (req : Req) (a : Attachments) (pre : option Identity) (p : Principal)
    (calls : nat) : D Principal :=
  if templates_need_principal a && bool_decide (p = Anonymous) then
    match pre with
    | Some id => mret (Authenticated id)
    | None =>
        _ ← await svc env AtPrincipal;
        mret (credential_auth (r_headers req) calls)
    end
  else mret p.

Definition over_limit (max : option N) (h : header_map) : bool :=
  match max, content_length h with
  | Some m, Some cl => m <? cl
  | _, _ => false
  end.

(** The operator's log fields, rendered in order. *)
Fixpoint render_fields (sc : option Vars.VarTable) (ctx : Template.RequestContext)
    (fields : list (string * list Template.TemplatePart)) (s : Slots)
    : option (list (string * string) * Slots) :=
  match fields with
  | [] => Some ([], s)
  | (n, t) :: fields' =>
      '(v, s1) ← Vars.render sc ctx t s;
      '(vs, s2) ← render_fields sc ctx fields' s1;
      Some ((n, v) :: vs, s2)
  end.

(** The rate-limit rules in order, up to the first denial. *)
Fixpoint check_limits (ids : list nat) (ctx : Template.RequestContext) (headers : header_map)
    : D (option (string * N)) :=
  match ids with
  | [] => mret None
  | i :: ids' =>
      w ← get;
      match limits w !! i with
      | None => check_limits ids' ctx headers
      | Some rule =>
          let '(out, rule') := RateLimit.check_at rule ctx headers (rate_now env) in
          _ ← modify (λ w, set_limits w (<[i := rule']> (limits w)));
          match out with
          | RateLimit.Allow => check_limits ids' ctx headers
          | RateLimit.Deny secs => mret (Some (RateLimit.rl_name rule, secs))
          end
      end
  end.

Definition gate_limits (a : Attachments) (ctx : Template.RequestContext) (headers : header_map)
    : D (option HttpResponse) :=
  denied ← check_limits (at_rate_limits a) ctx headers;
  match denied with
  | None => mret None
  | Some (name, secs) =>
      _ ← count Metrics.rate_limit_triggers;
      _ ← security (rate_limited (peer svc) name secs);
      Some <$> lift (Errors.response_429 secs)
  end.

(** [handle], directly or through the cache. *)
Definition run_handler (a : Attachments) (prefix : string) (hreq : Serve.HttpRequest)
    (ctx : Template.RequestContext) (s : Slots) : D (HttpResponse * Slots) :=
  w ← get;
  let cached := match cache w, at_cache_policy a with
                | Some store, Some policy =>
                    if Policy.request_cacheable policy (Serve.req_method hreq)
                    then Some (store, policy) else None
                | _, _ => None
                end in
  match cached with
  | Some (store, policy) =>
      '(key, s') ← lift (Policy.build_key policy (scope_of a) ctx s);
      if handler_timeout svc && bool_decide (cut env = Some AtHandler) then
        drop_with (λ w, set_cache w (Some (cache_dropped env store)))
      else
        let surr := {| Serve.handler := λ r, at_handler a r prefix ctx; Serve.now1 := serve_now env;
                       Serve.now2 := wait_now env; Serve.fresh_channel := fresh_channel env;
                       Serve.during_fetch := cache_during env; Serve.during_wait := cache_wait env |} in
        out ← lift (Serve.serve_with_cache policy surr hreq key store);
        _ ← modify (λ w, set_cache w (Some (Serve.out_store out)));
        _ ← match Serve.out_refresh out with
            | Some _ => modify (λ w, push_refresh_task w key)
            | None => mret ()
            end;
        mret (Serve.out_response out, s')
  | None =>
      _ ← await svc env AtHandler;
      mret (at_handler a hreq prefix ctx, s)
  end.

Definition with_headers (r : HttpResponse) (h : header_map) : HttpResponse :=
  {| resp_status := resp_status r; resp_headers := h; resp_body := resp_body r |}.

Definition add_cookie (h : header_map) (c : string) : header_map :=
  match hv_from_str c with Some v => hm_append h SET_COOKIE v | None => h end.

(** A fresh session cookie after a login with credentials. *)
Definition issue_session (pre : option Identity) (p : Principal) (resp : HttpResponse) : D HttpResponse :=
  match pre, jwt_manager st, p with
  | None, Some jwt, Authenticated id =>
      if is_session_mode jwt then
        match make_set_cookie jwt (wall env) id (is_tls svc) with
        | Ok v =>
            match hv_from_str v with
            | Some hv =>
                _ ← count Metrics.jwt_issued;
                mret (with_headers resp (hm_append (resp_headers resp) SET_COOKIE hv))
            | None => mret resp
            end
        | Err _ => mret resp
        end
      else mret resp
  | _, _, _ => mret resp
  end.

(** From the rate gate on: header rules, the handler, response rules, the
    cookies. *)
Definition serve_location (req : Req) (uri : string) (loc : Router.Location (payload := Attachments))
    (pre : option Identity) (cookies : list string) (principal : Principal)
    (ctx : Template.RequestContext) (s : Slots) : D HttpResponse :=
  let a := Router.loc_payload loc in
  '(headers, s) ← lift match at_header_rules a with
                       | Some r => HeaderRules.apply_request_headers (r_headers req) r (scope_of a) ctx s
                       | None => Some (r_headers req, s)
                       end;
  '(resp, s) ← run_handler a (Router.loc_path loc)
                 {| Serve.req_method := r_method req; Serve.req_uri := uri; Serve.req_headers := headers |}
                 ctx s;
  '(rh, _) ← lift match at_header_rules a with
                  | Some r => HeaderRules.apply_response_headers (resp_headers resp) r (scope_of a) ctx s
                  | None => Some (resp_headers resp, s)
                  end;
  issue_session pre principal (with_headers resp (fold_left add_cookie cookies rh)).

Definition uri_of (r : Matcher.Request) : string :=
  match Matcher.rq_query r with
  | Some q => Matcher.rq_path r +:+ "?" +:+ q
  | None => Matcher.rq_path r
  end.

(** [serve_fut] on a routed request: the response and the user to log. *)
Definition serve_routed (req : Req) (vhost : string) (routed : Matcher.Request)
    (loc : Router.Location (payload := Attachments)) (pre : option Identity) (cookies : list string)
    : D (HttpResponse * string) :=
  let a := Router.loc_payload loc in
  _ ← modify (λ w, set_class w (Some (vhost, at_kind a)));
  country ← lookup_country a;
  gate ← gate_policy req a country pre;
  match gate with
  | inl resp => mret (resp, "-")
  | inr (p, calls) =>
      principal ← late_principal req a pre p calls;
      let ctx := request_ctx req principal country (var_headers_of a (r_headers req)) in
      '(extra, s) ← lift match at_log_fields a with
                         | Some fields => render_fields (scope_of a) ctx fields (slots_of a)
                         | None => Some ([], slots_of a)
                         end;
      _ ← match at_log_fields a with Some _ => modify (λ w, set_extra w extra) | None => mret () end;
      if over_limit (at_max_request_body a) (r_headers req) then
        resp ← lift Errors.response_413; mret (resp, "-")
      else
        limited ← gate_limits a ctx (r_headers req);
        match limited with
        | Some resp => mret (resp, "-")
        | None =>
            resp ← serve_location req (uri_of routed) loc pre cookies principal ctx s;
            mret (resp, if is_empty (Template.username ctx) then "-" else Template.username ctx)
        end
  end.

Definition serve_fut (req : Req) (pre : option Identity) (cookies : list string)
    : D (HttpResponse * string) :=
  match Router.route parse_pq from_parts (tables st) (bind svc) (request_of req) with
  | Some (vhost, routed, loc) => serve_routed req (Router.vh_name vhost) routed loc pre cookies
  | None => resp ← lift Errors.response_404; mret (resp, "-")
  end.

(** [tokio::time::timeout]: a dropped future becomes a 408. *)
Definition with_timeout (c : D (HttpResponse * string)) : D (HttpResponse * string) := λ w,
  match c w with
  | (Dropped, w') =>
      (resp ← lift (Errors.build 408 [] "<h1>408 Request Timeout</h1>"); mret (resp, "-")) w'
  | r => r
  end.

(** * Post-processing *)

Definition advertise_h3 (resp : HttpResponse) : HttpResponse :=
  match auto_alt_svc svc with
  | Some v =>
      if hm_contains_key (resp_headers resp) ALT_SVC then resp
      else match hv_from_str v with
           | Some hv => with_headers resp (hm_insert (resp_headers resp) ALT_SVC hv)
           | None => resp
           end
  | None => resp
  end.

Definition finish_routed (req : Req) (resp : HttpResponse) (user : string) : D HttpResponse :=
  let encoding := get_str (r_headers req) ACCEPT_ENCODING ≫= Compress.negotiate in
  '(resp, stats) ← lift (Compress.maybe_compress resp encoding);
  _ ← record_compression stats;
  let resp := advertise_h3 resp in
  let status := resp_status resp in
  _ ← on_metrics Metrics.dec_active;
  _ ← on_metrics (Metrics.record status (elapsed env));
  _ ← on_metrics (Metrics.listener_request (bind svc));
  _ ← record_path (r_path req);
  w ← get;
  _ ← match matched_class w with
      | Some (vhost, kind) => on_metrics (Metrics.record_class kind vhost status (elapsed env))
      | None => mret ()
      end;
  _ ← log_access req resp user (log_extra w);
  lift (Grpc.map_response canonical_reason resp (Grpc.is_grpc_request (r_headers req))).

(** * The pipeline *)

Definition reject_bad_host : D HttpResponse := lift Errors.response_400.

Definition with_req_headers (req : Req) (h : header_map) : Req :=
  {| r_version := r_version req; r_authority := r_authority req; r_method := r_method req;
     r_path := r_path req; r_query := r_query req; r_path_and_query := r_path_and_query req;
     r_headers := h; r_body := r_body req |}.

(** From the body limit on, with the request already normalised. *)
Definition admitted (req : Req) (missing_host : bool) : D HttpResponse :=
  if over_limit (max_body_bytes svc) (r_headers req) then
    resp ← lift Errors.response_413;
    lift (Grpc.map_response canonical_reason resp (Grpc.is_grpc_request (r_headers req)))
  else
    _ ← on_metrics Metrics.inc_active;
    answered ← builtin req;
    match answered with
    | Some resp => mret resp
    | None =>
        if missing_host then reject_bad_host
        else
          '(pre, cookies) ← resolve_identity req;
          _ ← modify (λ w, set_extra (set_class w None) []);
          '(resp, user) ← with_timeout (serve_fut req pre cookies);
          finish_routed req resp user
    end.

Definition dispatch_inner (req : Req) : D HttpResponse :=
  match Host.normalize_host (r_version req) (r_authority req) (r_headers req) with
  | inr h => admitted (with_req_headers req h) false
  | inl Host.Missing => admitted req true
  | inl _ => reject_bad_host
  end.

(** * Accounting *)

(** Nothing that is counted per request has changed: the gauge, the request
    counters, the listener's, and the access log. *)
Record quiet (w w' : World) : Prop := {
  q_active : Metrics.requests_active (metrics w') = Metrics.requests_active (metrics w);
  q_requests : Metrics.requests (metrics w') = Metrics.requests (metrics w);
  q_listeners : Metrics.listeners (metrics w') = Metrics.listeners (metrics w);
  q_kinds : Metrics.per_kind (metrics w') = Metrics.per_kind (metrics w);
  q_vhosts : Metrics.per_vhost (metrics w') = Metrics.per_vhost (metrics w);
  q_log : access_log w' = access_log w;
}.

#[local] Instance quiet_preorder : PreOrder quiet.
Proof.
  split; [done|]. intros w1 w2 w3 [] []. split; congruence.
Qed.

(** A computation keeps a relation to the state it starts from, however it
    ends. *)
Definition keeps {A} (R : relation World) (c : D A) : Prop := ∀ w, R w (c w).2.

Section keeps.
Context (R : relation World) `{!PreOrder R}.

Lemma keeps_mret {A} (a : A) : keeps R (mret a).
Proof. intros w. by cbn. Qed.
Lemma keeps_get : keeps R get.
Proof. intros w. by cbn. Qed.
Lemma keeps_lift {A} (o : option A) : keeps R (lift o).
Proof. intros w. unfold lift. by destruct o. Qed.
Lemma keeps_await a : keeps R (await svc env a).
Proof. intros w. unfold await. by destruct (_ && _). Qed.
Lemma keeps_bind {A B} (c : D A) (f : A → D B) :
  keeps R c → (∀ a, keeps R (f a)) → keeps R (c ≫= f).
Proof.
  intros Hc Hf w. unfold mbind, D_bind. pose proof (Hc w) as Hq.
  destruct (c w) as [[a| |] w']; cbn in *; [|done|done]. etrans; [done|apply Hf].
Qed.
Lemma keeps_fmap {A B} (f : A → B) (c : D A) : keeps R c → keeps R (f <$> c).
Proof.
  intros Hc w. unfold fmap, D_fmap. pose proof (Hc w) as Hq. by destruct (c w) as [[a| |] w'].
Qed.
Lemma keeps_modify f : (∀ w, R w (f w)) → keeps R (modify f).
Proof. intros Hf w. apply Hf. Qed.
Lemma keeps_drop {A} f : (∀ w, R w (f w)) → keeps R (drop_with (A := A) f).
Proof. intros Hf w. apply Hf. Qed.
End keeps.

Ltac keep :=
  repeat lazymatch goal with
  | |- keeps _ (mret _) => apply keeps_mret; apply _
  | |- keeps _ get => apply keeps_get; apply _
  | |- keeps _ (lift _) => apply keeps_lift; apply _
  | |- keeps _ (await _ _ _) => apply keeps_await; apply _
  | |- keeps _ (count _) => apply keeps_modify; by intros
  | |- keeps _ (on_metrics (Metrics.count _ _)) => apply keeps_modify; by intros
  | |- keeps _ (security _) => apply keeps_modify; by intros
  | |- keeps _ (modify _) => apply keeps_modify; by intros
  | |- keeps _ (put_oidc _) => apply keeps_modify; by intros
  | |- keeps _ (drop_with _) => apply keeps_drop; by intros
  | |- keeps _ (_ ≫= _) => apply keeps_bind; [apply _| |intros ?]
  | |- keeps _ (_ <$> _) => apply keeps_fmap
  | |- keeps _ (match ?x with _ => _ end) => destruct x
  | |- keeps _ (let '(_, _) := ?x in _) => destruct x
  | |- keeps _ (if ?x then _ else _) => destruct x
  end.

Abbreviation silent := (keeps quiet) (only parsing).

Lemma silent_count_all cs : silent (count_all cs).
Proof. induction cs as [|c cs IH]; cbn [count_all]; keep; done. Qed.

Lemma silent_compression s : silent (record_compression s).
Proof. unfold record_compression. keep. Qed.

Lemma silent_identity req : silent (resolve_identity req).
Proof.
  unfold resolve_identity, session_identity, bearer_identity, refresh_identity. keep.
Qed.

Lemma silent_country a : silent (lookup_country a).
Proof. unfold lookup_country. keep. Qed.

Lemma silent_policy req a c pre : silent (gate_policy req a c pre).
Proof. unfold gate_policy, challenge. cbv zeta. keep. Qed.

Lemma silent_principal req a pre p n : silent (late_principal req a pre p n).
Proof. unfold late_principal. keep. Qed.

Lemma silent_limits a ctx h : silent (gate_limits a ctx h).
Proof.
  assert (∀ ids, silent (check_limits ids ctx h)) as Hc.
  { induction ids as [|i ids IH]; cbn [check_limits]; keep; done. }
  unfold gate_limits. keep. apply Hc.
Qed.

Lemma silent_location req uri loc pre cookies p ctx s :
  silent (serve_location req uri loc pre cookies p ctx s).
Proof. unfold serve_location, run_handler, issue_session. cbv zeta. keep. Qed.

Lemma silent_serve req pre cookies : silent (with_timeout (serve_fut req pre cookies)).
Proof.
  assert (silent (serve_fut req pre cookies)) as Hs.
  { unfold serve_fut, serve_routed. cbv zeta. keep;
      first [apply silent_country|apply silent_policy|apply silent_principal|apply silent_limits
            |apply silent_location]. }
  intros w. unfold with_timeout. pose proof (Hs w) as Hq.
  destruct (serve_fut req pre cookies w) as [[r| |] w']; [done..|]. cbn in Hq.
  etrans; [done|]. apply keeps_bind; [apply _|keep|intros ?; keep].
Qed.

(** The request has been taken off the gauge, counted and logged once, all
    with the same status. *)
Record finished (req : Req) (w w' : World) : Prop := {
  fin_active : Metrics.requests_active (metrics w') = swrap64 (Metrics.requests_active (metrics w) - 1);
  fin_log : ∃ r, access_log w' = access_log w ++ [r] ∧ AccessLog.al_method r = r_method req ∧
    AccessLog.al_path r = r_path req ∧
    Metrics.requests (metrics w') =
      Metrics.cc_record (Metrics.requests (metrics w)) (AccessLog.al_status r) (elapsed env);
  fin_path : is_Some (Metrics.path_prefix (r_path req));
}.

Lemma finished_quiet_l req w w1 w' : quiet w w1 → finished req w1 w' → finished req w w'.
Proof.
  intros [] [Ha (r & Hl & Hm & Hp & Hr) Hx]. split; [congruence| |done]. exists r. split_and!; congruence.
Qed.

Lemma bind_Done {A B} (c : D A) (f : A → D B) w b w' :
  (c ≫= f) w = (Done b, w') → ∃ a w1, c w = (Done a, w1) ∧ f a w1 = (Done b, w').
Proof.
  unfold mbind, D_bind. destruct (c w) as [[a| |] w1]; [|done|done]. intros. by exists a, w1.
Qed.

Lemma fmap_Done {A B} (f : A → B) (c : D A) w b w' :
  (f <$> c) w = (Done b, w') → ∃ a, c w = (Done a, w') ∧ b = f a.
Proof.
  unfold fmap, D_fmap. destruct (c w) as [[a| |] w1]; [|done|done]. intros [= <- <-]. by exists a.
Qed.

Lemma lift_Done {A} (o : option A) w a w' : lift o w = (Done a, w') → o = Some a ∧ w' = w.
Proof. unfold lift. destruct o; [|done]. by intros [= <- <-]. Qed.

Lemma record_path_Done path w u w' :
  record_path path w = (Done u, w') →
  is_Some (Metrics.path_prefix path) ∧
  ∃ ps, w' = set_metrics w (Metrics.set_paths (metrics w) ps).
Proof.
  unfold record_path, Metrics.record_path. destruct (Metrics.path_prefix path) as [p|]; [|done].
  cbn [mbind option_bind]. intros Hr. split; [by eexists|]. revert Hr.
  destruct (_ || _); intros [= <-]; [by eexists|].
  exists (Metrics.current_paths (metrics w)). destruct w as [m]. by destruct m.
Qed.

Ltac bind_inv H :=
  let a := fresh "x" in let w1 := fresh "w" in let E := fresh "E" in
  apply bind_Done in H as (a & w1 & E & H).

Lemma finish_builtin_ok kind req resp w r w' :
  finish_builtin kind req resp w = (Done r, w') → finished req w w' ∧ r = resp.
Proof.
  unfold finish_builtin, log_access, on_metrics, modify. intros Hf. do 4 bind_inv Hf.
  do 2 bind_inv Hf.
  match goal with E : record_path _ _ = _ |- _ => apply record_path_Done in E as [Hpath [ps ->]] end.
  injection Hf as <- <-. simplify_eq. split; [|done].
  split; [| |exact Hpath]; cbn; unfold Metrics.record_class; destruct (Metrics.per_vhost _ !! _);
    cbn; try done; eexists; by split_and!.
Qed.

Lemma finish_routed_ok req resp user w r w' :
  finish_routed req resp user w = (Done r, w') → finished req w w'.
Proof.
  unfold finish_routed. intros Hf. bind_inv Hf. apply lift_Done in E as [E ->]. destruct x as [resp1 stats].
  bind_inv Hf. pose proof (silent_compression stats w) as Hq. rewrite E0 in Hq. cbn in Hq.
  apply (finished_quiet_l _ _ _ _ Hq). clear Hq E0 E.
  unfold on_metrics, modify, get in Hf. do 3 bind_inv Hf. simplify_eq.
  do 2 bind_inv Hf.
  match goal with E : record_path _ _ = _ |- _ => apply record_path_Done in E as [Hpath [ps ->]] end.
  simplify_eq.
  bind_inv Hf. bind_inv Hf. unfold log_access, modify in *. simplify_eq.
  apply lift_Done in Hf as [_ ->].
  destruct (matched_class _) as [[vhost kind]|] eqn:Em; simplify_eq; cbn.
  - split; [| |exact Hpath]; cbn; unfold Metrics.record_class; destruct (Metrics.per_vhost _ !! _);
      cbn; try done; eexists; by split_and!.
  - injection E as <- <-. split; [done| |exact Hpath]. eexists; by split_and!.
Qed.

(** A computation that answers, and has then accounted for the request. *)
Definition answers (req : Req) (c : D (option HttpResponse)) : Prop :=
  ∀ w r w', c w = (Done r, w') → is_Some r ∧ finished req w w'.

Lemma answers_finish kind req resp : answers req (Some <$> finish_builtin kind req resp).
Proof.
  intros w r w' Hf. apply fmap_Done in Hf as (a & Hf & ->).
  apply finish_builtin_ok in Hf as [? _]. split; [by eexists|done].
Qed.

Lemma answers_bind {A} req (c : D A) f :
  silent c → (∀ a, answers req (f a)) → answers req (c ≫= f).
Proof.
  intros Hc Hf w r w' H'. bind_inv H'. pose proof (Hc w) as Hq. rewrite E in Hq. cbn in Hq.
  destruct (Hf x w0 r w' H') as [? Hfin]. split; [done|]. by eapply finished_quiet_l.
Qed.

(** A built-in stage in a state: it answers, or falls through and has changed
    nothing. *)
Definition stage_ok (req : Req) (c : D (option HttpResponse)) (w : World) : Prop :=
  ∀ r w', c w = (Done r, w') →
    match r with None => w' = w | Some _ => finished req w w' end.

Lemma answers_stage req c w : answers req c → stage_ok req c w.
Proof. intros Hc r w' E. destruct (Hc w r w' E) as [[x ->] ?]. done. Qed.

Lemma none_stage req w : stage_ok req (mret None) w.
Proof. by intros r w' [= <- <-]. Qed.

Lemma stage_get req f w : stage_ok req (f w) w → stage_ok req (get ≫= f) w.
Proof. done. Qed.

Ltac answer :=
  repeat lazymatch goal with
  | |- answers _ (Some <$> finish_builtin _ _ _) => apply answers_finish
  | |- answers _ (_ ≫= _) => apply answers_bind; [keep|intros ?]
  | |- answers _ (let '(_, _) := ?x in _) => destruct x
  end.

Lemma acme_ok req w : stage_ok req (acme_stage req) w.
Proof.
  unfold acme_stage. destruct (_ ≫= _); [|apply none_stage]. apply answers_stage. answer.
Qed.

Lemma health_ok req w : stage_ok req (health_stage req) w.
Proof.
  unfold health_stage. destruct (Health.try_serve _ _ _ _ _); [|apply none_stage].
  apply answers_stage. answer.
Qed.

Lemma jwks_ok req w : stage_ok req (jwks_stage req) w.
Proof.
  unfold jwks_stage. destruct (jwt_manager st); [|apply none_stage].
  destruct (String.eqb _ _); [|apply none_stage]. apply answers_stage. answer.
Qed.

Definition provider_ready (w : World) : Prop :=
  match oidc w with Some p => Oidc.is_ready p = true | None => True end.

(** A request for an endpoint of a provider that is not ready. *)
Definition unready_endpoint (req : Req) (w : World) : Prop :=
  ∃ p, oidc w = Some p ∧ Oidc.is_ready p = false ∧
    (r_path req = Oidc.login_path (Oidc.cfg p) ∨ r_path req = Oidc.callback_path (Oidc.cfg p) ∨
     r_path req = Oidc.backchannel_logout_path (Oidc.cfg p) ∨ r_path req = Oidc.logout_path (Oidc.cfg p)).

(** A stage that answers, falls through and has changed nothing, or answers a
    request for a provider that is not ready and has changed nothing. *)
Definition stage_spec (req : Req) (c : D (option HttpResponse)) (w : World) : Prop :=
  ∀ r w', c w = (Done r, w') →
    match r with None => w' = w | Some _ => finished req w w' ∨ w' = w ∧ unready_endpoint req w end.

Lemma stage_ok_spec req c w : stage_ok req c w → stage_spec req c w.
Proof. intros Hc r w' E. specialize (Hc r w' E). destruct r; [by left|done]. Qed.

Lemma answers_spec req c w : answers req c → stage_spec req c w.
Proof. intros Hc. by apply stage_ok_spec, answers_stage. Qed.

Lemma not_ready_spec req w : unready_endpoint req w → stage_spec req not_ready w.
Proof. intros Hu r w' E. apply fmap_Done in E as (a & E & ->). apply lift_Done in E as [_ ->]. by right. Qed.

Lemma stage_get_spec req f w : stage_spec req (f w) w → stage_spec req (get ≫= f) w.
Proof. done. Qed.

Lemma oidc_spec req w : stage_spec req (oidc_stage req) w.
Proof.
  unfold oidc_stage. apply stage_get_spec. destruct (oidc w) as [p|] eqn:Ho; [|apply stage_ok_spec, none_stage]. cbn zeta.
  unfold oidc_login, oidc_callback, oidc_backchannel, oidc_logout.
  destruct (String.eqb_spec (r_path req) (Oidc.login_path (Oidc.cfg p))).
  { destruct (Oidc.is_ready p) eqn:Er; cbn [negb]; [apply answers_spec; answer|].
    apply not_ready_spec. exists p. split_and!; auto 6. }
  destruct (String.eqb_spec (r_path req) (Oidc.callback_path (Oidc.cfg p))).
  { destruct (Oidc.is_ready p) eqn:Er; cbn [negb]; [apply answers_spec; answer; apply silent_count_all|].
    apply not_ready_spec. exists p. split_and!; auto 6. }
  destruct (_ && _) eqn:Eb.
  { apply andb_true_iff in Eb as [_ Eb%String.eqb_eq].
    destruct (negb (String.eqb (r_method req) "POST")); [apply answers_spec; answer|].
    destruct (Oidc.is_ready p) eqn:Er; cbn [negb]; [apply answers_spec; answer; apply silent_count_all|].
    apply not_ready_spec. exists p. split_and!; auto 6. }
  destruct (String.eqb_spec (r_path req) (Oidc.logout_path (Oidc.cfg p))); [|apply stage_ok_spec, none_stage].
  destruct (Oidc.is_ready p) eqn:Er; cbn [negb]; [apply answers_spec; answer|].
  apply not_ready_spec. exists p. split_and!; auto 6.
Qed.

Lemma first_answer_spec req stages w :
  (∀ s, s ∈ stages → stage_spec req s w) → stage_spec req (first_answer stages) w.
Proof.
  induction stages as [|s stages IH]; intros Hs; [apply stage_ok_spec, none_stage|]. cbn [first_answer].
  intros r w' Hf. bind_inv Hf. pose proof (Hs s ltac:(set_solver) x w0 E) as Hx.
  destruct x as [resp|].
  - injection Hf as <- <-. done.
  - subst w0. apply IH; [set_solver|done].
Qed.

Lemma builtin_spec req w : stage_spec req (builtin req) w.
Proof.
  apply first_answer_spec. intros s.
  rewrite !elem_of_cons, elem_of_nil. intros [->|[->|[->|[->|[]]]]];
    auto using stage_ok_spec, acme_ok, health_ok, jwks_ok, oidc_spec.
Qed.

Lemma builtin_ok req w : provider_ready w → stage_ok req (builtin req) w.
Proof.
  intros Hr r w' E. pose proof (builtin_spec req w r w' E) as Hb. destruct r; [|done].
  destruct Hb as [|[_ (p & Ho & Hn & _)]]; [done|]. unfold provider_ready in Hr. rewrite Ho in Hr. congruence.
Qed.

(** A request past the limit on bodies: it is through the end of a stage or of
    the pipeline, or on the gauge for good. *)
Definition left_on_gauge (w w' : World) : Prop :=
  Metrics.requests_active (metrics w') = swrap64 (Metrics.requests_active (metrics w) + 1) ∧
  Metrics.requests (metrics w') = Metrics.requests (metrics w) ∧ access_log w' = access_log w.

Lemma admitted_spec req missing w resp w' :
  over_limit (max_body_bytes svc) (r_headers req) = false →
  admitted req missing w = (Done resp, w') →
  finished req (set_metrics w (Metrics.inc_active (metrics w))) w' ∨
  (missing = true ∨ unready_endpoint req w) ∧ left_on_gauge w w'.
Proof.
  intros Hl. unfold admitted. rewrite Hl. intros Hd.
  unfold on_metrics, modify in Hd. bind_inv Hd. injection E as _ <-.
  set (w1 := set_metrics w (Metrics.inc_active (metrics w))) in *.
  bind_inv Hd. pose proof (builtin_spec req w1 x0 w0 E) as Hb.
  destruct x0 as [r|].
  { injection Hd as <- <-. destruct Hb as [|[-> Hu]]; [by left|right]. split; [by right|done]. }
  subst w0. destruct missing.
  { right. unfold reject_bad_host in Hd. apply lift_Done in Hd as [_ ->]. split; [by left|done]. }
  left. bind_inv Hd. destruct x0 as [pre cookies]. pose proof (silent_identity req w1) as Hq1.
  rewrite E0 in Hq1. cbn in Hq1. bind_inv Hd. injection E1 as _ <-. bind_inv Hd.
  pose proof (silent_serve req pre cookies (set_extra (set_class w0 None) [])) as Hq2.
  rewrite E1 in Hq2. cbn in Hq2. destruct x1 as [resp' user].
  apply finish_routed_ok in Hd. eapply finished_quiet_l; [|exact Hd].
  etrans; [exact Hq1|]. etrans; [|exact Hq2]. done.
Qed.

Lemma admitted_finished req w resp w' :
  over_limit (max_body_bytes svc) (r_headers req) = false → provider_ready w →
  admitted req false w = (Done resp, w') →
  finished req (set_metrics w (Metrics.inc_active (metrics w))) w'.
Proof.
  intros Hl Hr Hd. apply admitted_spec in Hd as [|[[|(p & Ho & Hn & _)] _]]; [done|done| |done].
  unfold provider_ready in Hr. rewrite Ho in Hr. congruence.
Qed.

(** The headers a request goes on with: those of a valid host, or its own where
    it names none; [None] for a host that is refused at once. *)
Definition headers_after (req : Req) : option header_map :=
  match Host.normalize_host (r_version req) (r_authority req) (r_headers req) with
  | inr h => Some h
  | inl Host.Missing => Some (r_headers req)
  | inl _ => None
  end.

Definition accounted (req : Req) (w w' : World) : Prop :=
  Metrics.requests_active (metrics w') = Metrics.requests_active (metrics w) ∧
  ∃ r, access_log w' = access_log w ++ [r] ∧ AccessLog.al_method r = r_method req ∧ AccessLog.al_path r = r_path req ∧
    Metrics.requests (metrics w') =
      Metrics.cc_record (Metrics.requests (metrics w)) (AccessLog.al_status r) (elapsed env).

(** C14: every request that is answered is accounted for exactly once,
    whichever stage, gate, handler or timeout answered it: it leaves the
    in-flight gauge where it was, adds one access-log record, and is counted
    once with the status that record shows.  The exceptions are these: a bad
    host or a body over the listener's limit is refused before anything is
    counted, and changes nothing; and a request that names no host, or asks
    for an endpoint of an identity provider that is not ready, may be answered
    without a record or a count and stay on the gauge for good. *)
Theorem dispatch_accounted req w resp w' :
  (-9223372036854775808 ≤ Metrics.requests_active (metrics w) < 9223372036854775808)%Z →
  dispatch_inner req w = (Done resp, w') →
  match headers_after req with
  | None => w' = w
  | Some h =>
      if over_limit (max_body_bytes svc) h then w' = w
      else accounted req w w' ∨
        (Host.normalize_host (r_version req) (r_authority req) (r_headers req) = inl Host.Missing ∨ unready_endpoint req w) ∧
        left_on_gauge w w'
  end.
Proof.
  intros Hrange. unfold dispatch_inner, headers_after.
  assert (∀ req' missing, r_path req' = r_path req → r_method req' = r_method req → admitted req' missing w = (Done resp, w') →
    if over_limit (max_body_bytes svc) (r_headers req') then w' = w
    else accounted req w w' ∨ (missing = true ∨ unready_endpoint req w) ∧ left_on_gauge w w') as Ha.
  { intros req' missing Hp Hm Hd. destruct (over_limit (max_body_bytes svc) (r_headers req')) eqn:Hl.
    - unfold admitted in Hd. rewrite Hl in Hd. bind_inv Hd. apply lift_Done in E as [_ ->]. by apply lift_Done in Hd as [_ ->].
    - apply admitted_spec in Hd as [[Hg Hlog _]|[Hc Hg]]; [left|right|done].
      + split; [rewrite Hg; by apply swrap64_add_sub|]. rewrite Hp, Hm in Hlog. exact Hlog.
      + unfold unready_endpoint in *. rewrite Hp in Hc. done. }
  destruct (Host.normalize_host _ _ _) as [[]|h] eqn:Hn.
  all: try (intros Hd; unfold reject_bad_host in Hd; by apply lift_Done in Hd as [_ ->]).
  - intros Hd. apply Ha in Hd; [|done|done]. destruct (over_limit _ _); [done|]. tauto.
  - intros Hd. apply Ha in Hd; [|done|done]. cbn [r_headers with_req_headers] in Hd. destruct (over_limit _ _); [done|].
    destruct Hd as [|[[|] ?]]; [by left|done|right; tauto].
Qed.

(** ** Requests that are not accounted for *)

(** A request without a host that no built-in endpoint answers is refused
    after it has been put on the in-flight gauge and is never taken off again:
    the gauge grows by one, and the request is neither counted nor logged. *)
Theorem missing_host_leaks req w resp w' :
  Host.normalize_host (r_version req) (r_authority req) (r_headers req) = inl Host.Missing →
  over_limit (max_body_bytes svc) (r_headers req) = false →
  (builtin req (set_metrics w (Metrics.inc_active (metrics w)))).1 = Done None →
  provider_ready w →
  dispatch_inner req w = (Done resp, w') →
  resp_status resp = 400 ∧
  Metrics.requests_active (metrics w') = swrap64 (Metrics.requests_active (metrics w) + 1) ∧
  Metrics.requests (metrics w') = Metrics.requests (metrics w) ∧ access_log w' = access_log w.
Proof.
  intros Hh Hl Hb Hr. unfold dispatch_inner, admitted. rewrite Hh, Hl. intros Hd.
  unfold on_metrics, modify in Hd. bind_inv Hd. injection E as _ <-. bind_inv Hd.
  set (w1 := set_metrics w (Metrics.inc_active (metrics w))) in *.
  pose proof (builtin_ok req w1 Hr x0 w0 E) as Hok. rewrite E in Hb. injection Hb as ->. subst w0.
  unfold reject_bad_host in Hd. apply lift_Done in Hd as [Hresp ->].
  apply Errors.build_inv in Hresp as (Hs & _). done.
Qed.

(** The same while the identity provider is not ready, for its endpoints. *)
Lemma not_ready_leaks req h w resp w' p :
  Host.normalize_host (r_version req) (r_authority req) (r_headers req) = inr h →
  over_limit (max_body_bytes svc) h = false → oidc w = Some p → Oidc.is_ready p = false →
  r_path req = Oidc.login_path (Oidc.cfg p) →
  let w1 := set_metrics w (Metrics.inc_active (metrics w)) in
  let req' := with_req_headers req h in
  first_answer [acme_stage req'; health_stage req'; jwks_stage req'] w1 = (Done None, w1) →
  dispatch_inner req w = (Done resp, w') →
  resp_status resp = 503 ∧ w' = w1.
Proof.
  intros Hh Hl Ho Hr Hp w1 req' Hfirst. unfold dispatch_inner, admitted. rewrite Hh.
  cbn [r_headers with_req_headers]. rewrite Hl. fold req'. intros Hd.
  unfold on_metrics, modify in Hd. bind_inv Hd. injection E as _ <-. fold w1 in Hd. bind_inv Hd.
  assert (builtin req' w1 = oidc_stage req' w1) as Hb.
  { unfold builtin. cbn [first_answer] in *. revert Hfirst. unfold mbind, D_bind.
    destruct (acme_stage req' w1) as [[[]| |] ?]; try done.
    destruct (health_stage req' _) as [[[]| |] ?]; try done.
    destruct (jwks_stage req' _) as [[[]| |] ?]; try done. intros [= ->].
    destruct (oidc_stage req' w1) as [[[]| |] ?]; done. }
  rewrite Hb in E. unfold oidc_stage in E. bind_inv E. injection E0 as <- <-.
  change (oidc w1) with (oidc w) in E. rewrite Ho in E. change (r_path req') with (r_path req) in E.
  rewrite Hp, String.eqb_refl in E. unfold oidc_login in E. rewrite Hr in E. cbn [negb] in E.
  apply fmap_Done in E as (a & E & ->). apply lift_Done in E as [Ha ->]. injection Hd as <- <-.
  apply Errors.build_inv in Ha as (Hs & _). done.
Qed.

(** ** A dropped future still answers *)

Definition undropped {A} (c : D A) : Prop := ∀ w, (c w).1 ≠ Dropped.

Lemma undropped_bind {A B} (c : D A) (f : A → D B) :
  undropped c → (∀ a, undropped (f a)) → undropped (c ≫= f).
Proof.
  intros Hc Hf w. unfold mbind, D_bind. pose proof (Hc w). destruct (c w) as [[a| |] w']; [apply Hf|done..].
Qed.
Lemma undropped_fmap {A B} (f : A → B) (c : D A) : undropped c → undropped (f <$> c).
Proof. intros Hc w. unfold fmap, D_fmap. pose proof (Hc w). by destruct (c w) as [[a| |] w']. Qed.
Lemma undropped_lift {A} (o : option A) : undropped (lift o).
Proof. intros w. by destruct o. Qed.
Lemma undropped_mret {A} (a : A) : undropped (mret a).
Proof. by intros w. Qed.
Lemma undropped_modify f : undropped (modify f).
Proof. by intros w. Qed.
Lemma undropped_path p : undropped (record_path p).
Proof. intros w. unfold record_path. by destruct (Metrics.record_path _ _). Qed.

Ltac undrop :=
  repeat lazymatch goal with
  | |- undropped (mret _) => apply undropped_mret
  | |- undropped get => by intros w
  | |- undropped (lift _) => apply undropped_lift
  | |- undropped (record_path _) => apply undropped_path
  | |- undropped (_ ≫= _) => apply undropped_bind; [|intros ?]
  | |- undropped (_ <$> _) => apply undropped_fmap
  | |- undropped (match ?x with _ => _ end) => destruct x
  | |- undropped (let '(_, _) := ?x in _) => destruct x
  | |- undropped (if ?x then _ else _) => destruct x
  | |- undropped (modify _) => apply undropped_modify
  | |- undropped (on_metrics _) => apply undropped_modify
  | |- undropped (count _) => apply undropped_modify
  | |- undropped (put_oidc _) => apply undropped_modify
  | |- undropped (log_access _ _ _ _) => apply undropped_modify
  end.

Lemma undropped_count_all cs : undropped (count_all cs).
Proof. induction cs as [|c cs IH]; cbn [count_all]; undrop; [apply undropped_modify|done]. Qed.

Lemma undropped_finish kind req resp : undropped (finish_builtin kind req resp).
Proof. unfold finish_builtin. undrop. Qed.

Lemma undropped_builtin req : undropped (builtin req).
Proof.
  unfold builtin. cbn [first_answer]. unfold acme_stage, health_stage, jwks_stage, oidc_stage,
    oidc_login, oidc_callback, oidc_backchannel, oidc_logout, not_ready.
  cbv zeta. undrop; first [apply undropped_finish|apply undropped_count_all].
Qed.

Lemma undropped_identity req : undropped (resolve_identity req).
Proof.
  unfold resolve_identity, session_identity, bearer_identity, refresh_identity. cbv zeta. undrop.
Qed.

Lemma undropped_routed req resp user : undropped (finish_routed req resp user).
Proof. unfold finish_routed, record_compression. cbv zeta. undrop. Qed.

Lemma undropped_timeout c : undropped (with_timeout c).
Proof.
  intros w. unfold with_timeout. destruct (c w) as [[] w']; [done..|].
  apply undropped_bind; [apply undropped_lift|intros; apply undropped_mret].
Qed.

Lemma dispatch_undropped req : undropped (dispatch_inner req).
Proof.
  unfold dispatch_inner, admitted, reject_bad_host.
  undrop; first [apply undropped_builtin|apply undropped_identity|apply undropped_timeout
                |apply undropped_routed].
Qed.

(** A request with a long path that has a multi-byte character across its
    byte 128 panics the connection's task: whatever would have answered it, the
    pipeline panics when it records the path. *)
Theorem long_path_panics req h w :
  Host.normalize_host (r_version req) (r_authority req) (r_headers req) = inr h →
  over_limit (max_body_bytes svc) h = false → provider_ready w →
  Metrics.path_prefix (r_path req) = None →
  (dispatch_inner req w).1 = Panicked.
Proof.
  intros Hh Hl Hr Hp. pose proof (dispatch_undropped req w) as Hu.
  destruct (dispatch_inner req w) as [[resp| |] w'] eqn:Hd; [|done|done].
  unfold dispatch_inner in Hd. rewrite Hh in Hd.
  apply admitted_finished in Hd as [_ _ [x Hx]]; [|done|done].
  change (r_path (with_req_headers req h)) with (r_path req) in Hx. congruence.
Qed.

(** ** What a refusal keeps from happening *)

Definition country_value (a : Attachments) : option string :=
  match geoip st with
  | Some reader => if wants_country a then reader (peer_ip (peer svc)) else None
  | None => None
  end.

(** The parts of the state only serving may change. *)
Definition untouched (w w' : World) : Prop :=
  cache w' = cache w ∧ limits w' = limits w ∧ oidc w' = oidc w ∧ refresh_tasks w' = refresh_tasks w.

Lemma lookup_country_Done a w :
  ∃ w', lookup_country a w = (Done (country_value a), w') ∧ untouched w w'.
Proof.
  unfold lookup_country, country_value. destruct (geoip st) as [reader|]; [|by eexists].
  destruct (wants_country a); [|by eexists].
  unfold mbind, D_bind, count, on_metrics, modify. cbn.
  destruct (reader _); by eexists.
Qed.

(** The location with another handler. *)
Definition with_handler (loc : Router.Location (payload := Attachments))
    (f : Serve.HttpRequest → string → Template.RequestContext → HttpResponse)
    : Router.Location (payload := Attachments) :=
  let a := Router.loc_payload loc in
  {| Router.loc_path := Router.loc_path loc; Router.loc_matcher := Router.loc_matcher loc;
     Router.loc_rewrite := Router.loc_rewrite loc;
     Router.loc_payload :=
       {| at_handler := f; at_kind := at_kind a; at_policy := at_policy a; at_realm := at_realm a;
          at_header_rules := at_header_rules a; at_rate_limits := at_rate_limits a;
          at_max_request_body := at_max_request_body a; at_cache_policy := at_cache_policy a;
          at_vars := at_vars a; at_log_fields := at_log_fields a |} |}.

(** How the policy of a location decides a request. *)
Definition verdict (a : Attachments) (req : Req) (pre : option Identity) : Access.PolicyOutcome :=
  match at_policy a with
  | None => Access.Allow
  | Some policy =>
      (Access.evaluate policy (request_auth (r_headers req) pre)
         (Access.new_context (peer_ip (peer svc)) (country_value a))).1
  end.

#[local] Instance untouched_preorder : PreOrder untouched.
Proof. split; [done|]. intros w1 w2 w3. unfold untouched. naive_solver congruence. Qed.

Lemma policy_untouched req a c pre : keeps untouched (gate_policy req a c pre).
Proof. unfold gate_policy, challenge. cbv zeta. keep. Qed.

(** A gate that never lets a request through. *)
Definition refuses {A} (c : D (HttpResponse + A)) : Prop := ∀ w x, (c w).1 ≠ Done (inr x).

Lemma refuses_bind {A B} (c : D A) (f : A → D (HttpResponse + B)) :
  (∀ a, refuses (f a)) → refuses (c ≫= f).
Proof. intros Hf w x. unfold mbind, D_bind. destruct (c w) as [[a| |] w']; [apply Hf|done..]. Qed.
Lemma refuses_inl {A} (c : D HttpResponse) : refuses (A := A) (inl <$> c).
Proof. intros w x. unfold fmap, D_fmap. by destruct (c w) as [[a| |] w']. Qed.

Lemma gate_policy_refuses req a pre :
  verdict a req pre ≠ Access.Allow → refuses (gate_policy req a (country_value a) pre).
Proof.
  unfold verdict, gate_policy. destruct (at_policy a) as [policy|]; [|done].
  destruct (Access.evaluate _ _ _) as [outcome ctx]. cbn [fst]. intros Hv.
  apply refuses_bind. intros _. destruct outcome as [|code|to code]; [done| |].
  - destruct (code =? 401); [apply refuses_inl|]. apply refuses_bind. intros _.
    apply refuses_bind. intros _. apply refuses_inl.
  - apply refuses_bind. intros []. apply refuses_inl.
Qed.

(** C11: a request the access policy does not allow never reaches the handler:
    what happens, the response included, is the same whatever the handler
    would have done, and the cache, the rate-limit buckets and the background
    refreshes are untouched. *)
Theorem denied_never_served req vhost routed loc pre cookies w f :
  verdict (Router.loc_payload loc) req pre ≠ Access.Allow →
  serve_routed req vhost routed (with_handler loc f) pre cookies w =
    serve_routed req vhost routed loc pre cookies w ∧
  untouched w (serve_routed req vhost routed loc pre cookies w).2.
Proof.
  intros Hv. unfold serve_routed. cbv zeta. cbn [Router.loc_payload with_handler at_kind].
  set (a := Router.loc_payload loc) in *. set (a' := {| at_handler := f |}).
  change (lookup_country a') with (lookup_country a).
  change (gate_policy req a') with (gate_policy req a).
  unfold mbind, D_bind, modify. cbn.
  destruct (lookup_country_Done a (set_class w (Some (vhost, at_kind a)))) as (w1 & E1 & Hu).
  rewrite E1. pose proof (gate_policy_refuses req a pre Hv w1) as Hr.
  pose proof (policy_untouched req a (country_value a) pre w1) as Hp.
  destruct (gate_policy req a (country_value a) pre w1) as [[[resp|p]| |] w2]; cbn in *;
    try (split; [done|]; by etrans).
  by destruct (Hr p).
Qed.

(** A refused request loses the cookies queued for it: when the policy
    denies or redirects, the response is the one a request without pending
    cookies gets, so the rotated refresh id of a session renewed moments
    before is never sent to the browser. *)
Theorem refusal_drops_cookies req vhost routed loc pre cookies w :
  verdict (Router.loc_payload loc) req pre ≠ Access.Allow →
  serve_routed req vhost routed loc pre cookies w = serve_routed req vhost routed loc pre [] w.
Proof.
  intros Hv. unfold serve_routed. cbv zeta. set (a := Router.loc_payload loc) in *.
  unfold mbind, D_bind, modify. cbn.
  destruct (lookup_country_Done a (set_class w (Some (vhost, at_kind a)))) as (w1 & E1 & _).
  rewrite E1. pose proof (gate_policy_refuses req a pre Hv w1) as Hr.
  destruct (gate_policy req a (country_value a) pre w1) as [[[resp|p]| |] w2]; [done| |done|done].
  by destruct (Hr p).
Qed.

(** The [user] rate-limit key does not see the session: in a location
    without an access policy whose templates name no user, the pipeline treats
    the requests of any two logged-in users identically, and every rule keyed
    by user counts them all in the one bucket of the empty name. *)
Theorem user_key_unresolved req vhost routed loc id1 id2 cookies w rule country hs headers :
  at_policy (Router.loc_payload loc) = None →
  templates_need_principal (Router.loc_payload loc) = false →
  RateLimit.rl_key rule = RateLimit.KUser →
  serve_routed req vhost routed loc (Some id1) cookies w =
    serve_routed req vhost routed loc (Some id2) cookies w ∧
  (gate_policy req (Router.loc_payload loc) country (Some id1) w).1 = Done (inr (Anonymous, 0%nat)) ∧
  (late_principal req (Router.loc_payload loc) (Some id1) Anonymous 0 w).1 = Done Anonymous ∧
  RateLimit.key_string rule (request_ctx req Anonymous country hs) headers = "".
Proof.
  intros Hp Ht Hk. unfold gate_policy, late_principal, RateLimit.key_string. rewrite Hp, Ht, Hk.
  split; [|done]. unfold serve_routed, gate_policy, late_principal. cbv zeta. by rewrite Hp, Ht.
Qed.

(** ** Where an identity comes from *)

Context `{!BoundedLruLaws CachedToken, !BoundedLruLaws Oidc.BearerCacheEntry}.

(** The grounds for an identity: a session token of this server, a client
    certificate, a bearer token of a published key, or the identity provider's
    answer to a live refresh session. *)
Inductive grounds (K : list (list jwk)) (w : World) (req : Req) (id : Identity) : Prop :=
  | by_session j token t now exp :
      jwt_manager st = Some j → extract_token (r_headers req) (cookie_name (config j)) = Some token →
      wall env = Some now → now < exp → sha256 t = sha256 token → genuine j t id exp →
      grounds K w req id
  | by_certificate c :
      client_cert svc = Some c → id = {| id_username := cn c; id_groups := [] |} → grounds K w req id
  | by_bearer p token t now exp :
      oidc w = Some p → Oidc.bearer (Oidc.cfg p) = true →
      OidcRoutes.extract_bearer (r_headers req) = Some token →
      wall env = Some now → now < exp → sha256 t = sha256 token →
      Oidc.bearer_genuine (Oidc.cfg p) K t id exp → grounds K w req id
  | by_refresh p sid e tr x c :
      oidc w = Some p → Oidc.cfg_refresh (Oidc.cfg p) = true →
      OidcRoutes.cookie_value (r_headers req) (Oidc.refresh_cookie_name (Oidc.cfg p)) = Some sid →
      Oidc.refreshes p !! sid = Some e → now env ≤ Oidc.expires_at e →
      exchange_refresh (Oidc.refresh_token e) (Oidc.resources (Oidc.cfg p)) = Some tr →
      Oidc.identity_of (Oidc.set_bearer_cache p c) tr None = Ok (id, x.1, x.2) → grounds K w req id.

Lemma session_identity_grounds K req w r w' :
  (∀ j, jwt_manager st = Some j → cache_sound j (jwt_cache w)) →
  session_identity req w = (Done r, w') →
  oidc w' = oidc w ∧ ∀ id, r = Some id → grounds K w req id.
Proof.
  intros Hc. unfold session_identity. destruct (jwt_manager st) as [j|] eqn:Ej; [|by intros [= <- <-]].
  intros Hs. bind_inv Hs. injection E as <- <-.
  unfold validate in Hs. destruct (extract_token _ _) as [token|] eqn:Et.
  2: { bind_inv Hs. injection E as _ <-. by injection Hs as <- <-. }
  destruct (validate_token j (wall env) token (jwt_cache w)) as [res c] eqn:Ev.
  destruct (validate_token_sound _ _ _ _ _ _ (Hc j eq_refl) Ev) as [_ Hv].
  destruct res as [id| | |]; bind_inv Hs; injection E as _ <-.
  - injection Hs as <- <-. split; [done|]. intros id' [= <-].
    destruct (Hv id eq_refl) as (now & exp & t & Hw & He & Hh & Hg).
    by apply (by_session _ _ _ _ j token t now exp).
  - bind_inv Hs. injection E as _ <-. by injection Hs as <- <-.
  - bind_inv Hs. injection E as _ <-. by injection Hs as <- <-.
  - by injection Hs as <- <-.
Qed.

Lemma bearer_identity_grounds K req w found r w' :
  (∀ p, oidc w = Some p → Oidc.bearer_sound K p) →
  bearer_identity req found w = (Done r, w') →
  (∀ id, r = Some id → found = Some id ∨ grounds K w req id) ∧
  (r = None → match oidc w, oidc w' with
              | Some p, Some q => ∃ c, q = Oidc.set_bearer_cache p c
              | None, None => True
              | _, _ => False
              end).
Proof.
  intros Hb. unfold bearer_identity. intros Hs. bind_inv Hs. injection E as <- <-.
  destruct found as [id0|].
  { injection Hs as <- <-. split; [|done]. intros id [= <-]. by left. }
  destruct (oidc w) as [p|] eqn:Eo.
  2: { injection Hs as <- <-. by rewrite Eo. }
  assert (∃ c, p = Oidc.set_bearer_cache p c) as Hself
    by (exists (Oidc.bearer_cache p); by destruct p).
  destruct (Oidc.bearer (Oidc.cfg p)) eqn:Eb; cbn [andb] in Hs.
  2: { injection Hs as <- <-. by rewrite Eo. }
  destruct (Oidc.is_ready p); [|injection Hs as <- <-; by rewrite Eo].
  destruct (OidcRoutes.extract_bearer _) as [token|] eqn:Et; [|injection Hs as <- <-; by rewrite Eo].
  destruct (Oidc.validate_bearer_token p (wall env) token) as [res p'] eqn:Ev.
  destruct (Oidc.validate_bearer_frame p (wall env) token) as [c Hc]. rewrite Ev in Hc. cbn in Hc. subst p'.
  destruct (Oidc.validate_bearer_sound _ _ _ _ _ _ (Hb p eq_refl) Ev) as [_ Hv].
  bind_inv Hs. injection E as _ <-. destruct res as [id|e]; bind_inv Hs; injection E as _ <-;
    injection Hs as <- <-; cbn.
  - split; [|done]. intros id' [= <-]. right.
    destruct (Hv id eq_refl) as (now & exp & t & Hw & He & Hh & Hg).
    by apply (by_bearer _ _ _ _ p token t now exp).
  - split; [done|]. intros _. by exists c.
Qed.

(** C12: an authenticated request has grounds for its identity: with sound
    token caches, the identity the pipeline resolves before the access policy
    runs comes from a genuine, unexpired session token of this server, the
    connection's verified client certificate, a genuine bearer token of a
    published key, or the identity provider's answer for a live refresh
    session named by the request's cookie. *)
Theorem identity_grounded K req w id cookies w' :
  (∀ j, jwt_manager st = Some j → cache_sound j (jwt_cache w)) →
  (∀ p, oidc w = Some p → Oidc.bearer_sound K p) →
  resolve_identity req w = (Done (Some id, cookies), w') →
  grounds K w req id.
Proof.
  intros Hc Hb. unfold resolve_identity. intros Hs. bind_inv Hs.
  destruct (session_identity_grounds K req w x w0 Hc E) as [Eo Hx]. bind_inv Hs.
  destruct (bearer_identity_grounds K req w0 (cert_identity x) x0 w1) as [Hx0 Hframe];
    [by rewrite Eo|done|].
  assert (∀ i, grounds K w0 req i → grounds K w req i) as Hmove.
  { intros i [| |p token t now exp Hp| p sid e tr y c Hp]; [by eapply by_session|by eapply by_certificate| |];
      rewrite Eo in Hp; [by eapply by_bearer|by eapply by_refresh]. }
  assert (∀ i, cert_identity x = Some i → grounds K w req i) as Hcert.
  { unfold cert_identity. intros i Hi. destruct x as [i0|]; [by apply Hx|].
    destruct (client_cert svc) as [c|] eqn:Ec; [|done]. injection Hi as <-. by eapply by_certificate. }
  assert (∀ i, x0 = Some i → grounds K w req i) as Hx0'.
  { intros i Hi. destruct (Hx0 i Hi) as [|Hg]; auto. }
  unfold refresh_identity in Hs. bind_inv Hs. injection E1 as <- <-.
  destruct x0 as [i|]; [injection Hs; intros; subst; by apply Hx0'|].
  specialize (Hframe eq_refl). rewrite Eo in Hframe.
  destruct (oidc w) as [p|] eqn:Ep; [|by destruct (oidc w1)].
  destruct (oidc w1) as [q|]; [|done]. destruct Hframe as [c ->].
  destruct (jwt_manager st) as [jwt|]; [|done].
  cbn [Oidc.cfg Oidc.set_bearer_cache Oidc.is_ready Oidc.ready] in Hs.
  destruct (Oidc.ready p); [|done]. cbn [andb] in Hs.
  destruct (Oidc.cfg_refresh (Oidc.cfg p)) eqn:Ecr; [|done].
  destruct (OidcRoutes.cookie_value _ _) as [sid|] eqn:Esid; [|done].
  destruct (Oidc.refresh _ _ _ _ _ _) as [[[who new_sid]|e] q] eqn:Er; bind_inv Hs;
    bind_inv Hs; [|done]. injection Hs as -> _ _.
  apply Oidc.refresh_Ok in Er as (e & tr & y & He & Hexp & Hex & Hid).
  by eapply by_refresh.
Qed.

End request.
End dispatch.

(** * Examples *)

Module Demo.
#[local] Existing Instances dec_dates Access.host_nets ProxyProto.dec_ips Host.text_authorities RateLimit.exact_f64
  Compress.marking Jwt.Demo.hex_b64 Jwt.Demo.tag_sig Jwt.Demo.assoc_lru Jwt.Demo.assoc_lru_laws
  Oidc.Demo.table_json Oidc.Demo.tag_idp.

Definition ok_handler (r : Serve.HttpRequest) (prefix : string) (c : Template.RequestContext)
    : HttpResponse := {| resp_status := 200; resp_headers := hm_new; resp_body := Full "hello" |}.

(** A location with a policy that admits group [staff] only, or none. *)
Definition attachments (policy : option Access.PolicyBlock) : Attachments :=
  {| at_handler := ok_handler; at_kind := Metrics.Static; at_policy := policy; at_realm := None;
     at_header_rules := None; at_rate_limits := [0%nat]; at_max_request_body := None;
     at_cache_policy := None; at_vars := None; at_log_fields := None |}.

Definition staff_only : Access.PolicyBlock :=
  Access.new_block [{| Access.rule_predicate := Some (Access.Group ["staff"]);
                       Access.rule_action := Access.PAllow |}].

Definition location (policy : option Access.PolicyBlock)
    : Router.Location (payload := Attachments) :=
  {| Router.loc_path := "/"; Router.loc_matcher := None; Router.loc_rewrite := None;
     Router.loc_payload := attachments policy |}.

Definition state : AppState :=
  {| tables := {[ "b" := {| Router.literals := ∅; Router.patterns := [];
       Router.table_default := Some {| Router.vh_name := "site"; Router.vh_locations := [location None] |} |} ]};
     authenticator := λ _ _, Anonymous; inner_authenticator := λ _ _, Anonymous; geoip := None;
     health := Health.demo_state; error_pages := ∅; jwt_manager := Some Jwt.Demo.demo |}.

Definition service : Service :=
  {| bind := "b"; peer := Tcp (V4 7) 4000; is_tls := true; handler_timeout := true;
     max_body_bytes := Some 1000; auto_alt_svc := Some "h3"; client_cert := None |}.

Definition environment (c : option Await) : Env :=
  {| read_file := λ _, None; draining := false; acme_challenges := ∅; elapsed := 3000000;
     wall := Some 1000; now := 5; now_later := 6; fresh_login := Oidc.Demo.fresh1; fresh_sid := "sid2";
     idp_during := id; rate_now := 5; serve_now := 5; wait_now := 6; fresh_channel := 0;
     cache_during := id; cache_wait := id; cache_dropped := id; cut := c |}.

Definition request (host path : string) : Req :=
  {| r_version := Host.HTTP_11; r_authority := None; r_method := "GET"; r_path := path;
     r_query := None; r_path_and_query := path;
     r_headers := if is_empty host then hm_new else hm_append hm_new HOST (host : @header_value assoc_http);
     r_body := Full "" |}.

Definition world (o : option Oidc.OidcProvider) : World :=
  {| metrics := Metrics.listener "b" Metrics.new; jwt_cache := blru_new 1; oidc := o; limits := ∅;
     cache := None; access_log := []; security_log := []; revocations := []; refresh_tasks := [];
     matched_class := None; log_extra := [] |}.

Definition run (c : option Await) (req : Req) : D HttpResponse :=
  dispatch_inner (λ _, None) (λ _, None) (λ _ _, true) state service (environment c) req.

Definition status_of (r : Res HttpResponse) : option N :=
  match r with Done resp => Some (resp_status resp) | _ => None end.

(** The handler is dropped by the timeout: the 408 is counted and logged. *)
Lemma dispatch_accounted_witness :
  let '(r, w') := run (Some AtHandler) (request "h" "/") (world None) in
  status_of r = Some 408 ∧ Metrics.requests_active (metrics w') = 0%Z ∧
  ∃ l, access_log w' = [l] ∧ AccessLog.al_status l = 408.
Proof.
  assert (status_of (run (Some AtHandler) (request "h" "/") (world None)).1 = Some 408) as Hs
    by (vm_compute; reflexivity).
  assert (fmap AccessLog.al_status (access_log (run (Some AtHandler) (request "h" "/") (world None)).2) = [408]) as Hl
    by (vm_compute; reflexivity).
  destruct (run (Some AtHandler) (request "h" "/") (world None)) as [[resp| |] w'] eqn:E;
    [|discriminate Hs|discriminate Hs].
  pose proof (dispatch_accounted (λ _, None) (λ _, None) (λ _ _, true) state service
    (environment (Some AtHandler)) (request "h" "/") (world None) resp w' ltac:(vm_compute; split; [discriminate|reflexivity]) E) as H.
  assert (headers_after (request "h" "/") = Some (r_headers (request "h" "/"))) as Hh by (vm_compute; reflexivity).
  assert (over_limit (max_body_bytes service) (r_headers (request "h" "/")) = false) as Hv by (vm_compute; reflexivity).
  rewrite Hh, Hv in H. cbn [snd] in Hl. destruct H as [[Ha (l & Hlog & _)]|[_ (_ & _ & Hlog)]]; rewrite Hlog in Hl; [|discriminate Hl].
  split; [exact Hs|]. split; [exact Ha|]. exists l. split; [exact Hlog|]. by injection Hl.
Defined.

Lemma missing_host_leaks_witness :
  let '(r, w') := run None (request "" "/") (world None) in
  status_of r = Some 400 ∧ Metrics.requests_active (metrics w') = 1%Z ∧ access_log w' = [].
Proof.
  assert (status_of (run None (request "" "/") (world None)).1 = Some 400) as Hs
    by (vm_compute; reflexivity).
  destruct (run None (request "" "/") (world None)) as [[resp| |] w'] eqn:E;
    [|discriminate Hs|discriminate Hs].
  destruct (missing_host_leaks (λ _, None) (λ _, None) (λ _ _, true) state service
    (environment None) (request "" "/") (world None) resp w') as (_ & Ha & _ & Hl);
    [vm_compute; reflexivity|vm_compute; reflexivity|vm_compute; reflexivity|exact I|exact E|].
  split; [exact Hs|]. split; [exact Ha|exact Hl].
Defined.

(** An accented character across byte 128 of the path. *)
Lemma long_path_panics_witness :
  (run None (request "h" Metrics.accent_path) (world None)).1 = Panicked.
Proof.
  set (req := request "h" Metrics.accent_path).
  assert (Host.normalize_host (r_version req) (r_authority req) (r_headers req) = inr (r_headers req))
    as Hh by (vm_compute; reflexivity).
  assert (Metrics.path_prefix (r_path req) = None) as Hp by (vm_compute; reflexivity).
  exact (long_path_panics (λ _, None) (λ _, None) (λ _ _, true) state service (environment None)
    req (r_headers req) (world None) Hh eq_refl I Hp).
Defined.

Definition routed : Matcher.Request := request_of (request "h" "/").

(** Another handler makes no difference to a request without credentials. *)
Lemma denied_never_served_witness :
  let f _ _ _ := {| resp_status := 500; resp_headers := hm_new; resp_body := Full "" |} in
  let serve loc := serve_routed state service (environment None) (request "h" "/") "site" routed
                     loc None [] (world None) in
  serve (with_handler (location (Some staff_only)) f) = serve (location (Some staff_only)) ∧
  untouched (world None) (serve (location (Some staff_only))).2.
Proof.
  intros f serve. apply (denied_never_served state service (environment None) (request "h" "/") "site"
    routed (location (Some staff_only)) None [] (world None) f).
  vm_compute. discriminate.
Defined.

Lemma refusal_drops_cookies_witness :
  let serve cs := serve_routed state service (environment None) (request "h" "/") "site" routed
                    (location (Some staff_only)) None cs (world None) in
  serve ["rsid=new"] = serve [].
Proof.
  intros serve. apply (refusal_drops_cookies state service (environment None) (request "h" "/") "site"
    routed (location (Some staff_only)) None ["rsid=new"] (world None)).
  vm_compute. discriminate.
Defined.

Definition user_rule : RateLimit.RateLimitRule :=
  RateLimit.new_rule "r" RateLimit.f1 RateLimit.f1 RateLimit.KUser.

Lemma user_key_unresolved_witness :
  let user n := {| id_username := n; id_groups := [] |} in
  let serve n := serve_routed state service (environment None) (request "h" "/") "site" routed
                   (location None) (Some (user n)) [] (world None) in
  serve "alice" = serve "bob" ∧
  RateLimit.key_string user_rule
    (request_ctx service (request "h" "/") Anonymous None []) hm_new = "".
Proof.
  intros user serve.
  destruct (user_key_unresolved state service (environment None) (request "h" "/") "site" routed
    (location None) (user "alice") (user "bob") [] (world None) user_rule None [] hm_new)
    as (Heq & _ & _ & Hk); [reflexivity..|].
  split; [exact Heq|exact Hk].
Defined.

Definition session_request : Req :=
  with_req_headers (request "h" "/") (Jwt.Demo.cookie_headers "rsid=sid1").

(** A refresh session stands in for the expired login. *)
Lemma identity_grounded_witness :
  grounds state service (environment None) [] (world (Some Oidc.Demo.after_login)) session_request
    {| id_username := "alice"; id_groups := [] |}.
Proof.
  assert (fmap fst (match (resolve_identity state service (environment None) session_request
    (world (Some Oidc.Demo.after_login))).1 with Done x => Some x | _ => None end) =
    Some (Some {| id_username := "alice"; id_groups := [] |})) as Hs by (vm_compute; reflexivity).
  destruct (resolve_identity state service (environment None) session_request
    (world (Some Oidc.Demo.after_login))) as [[[who cs]| |] w'] eqn:E;
    [|discriminate Hs|discriminate Hs]. injection Hs as ->.
  apply (identity_grounded state service (environment None) [] session_request
    (world (Some Oidc.Demo.after_login)) _ cs w').
  - intros j [= <-] key c Hin. apply elem_of_nil in Hin. destruct Hin.
  - intros p [= <-]. split; [intros keys; discriminate|].
    intros key c Hin. apply elem_of_nil in Hin. destruct Hin.
  - exact E.
Defined.

End Demo.
End Dispatch.
