(* ===== verification/Datagram.v ===== *)
(** The raw datagram proxy ([src/listener/datagram.rs]): the flow table, the
    accept loop of a UDP or unix-dgram listener, the reply task of each flow
    and the evictor, as an interleaving of their steps; and the forwarder of
    a seqpacket connection.

    A step is what a task does between two points where it can be suspended
    with the table unlocked.  Flow objects are shared: the table and the reply
    task hold the same one, so they live in a heap and are named by their
    index in it.  What the sockets deliver and the clock are in the events. *)
From S2P Require Import Prelude RustStr Net ProxyProto Listeners.

Module Dgram.

#[local] Abbreviation SocketAddr := ProxyProto.SocketAddr (only parsing).
#[local] Abbreviation Addr := (@Bind.BoundAddr SocketAddr) (only parsing).

(** * Keys and sockets *)

Inductive ClientKey :=
  | Udp (peer : SocketAddr)
  | UnixPath (path : string).

#[global] Instance sockaddr_eq_dec : EqDecision SocketAddr.
Proof. solve_decision. Defined.

#[global] Instance ip_countable : Countable IpAddr.
Proof.
  refine (inj_countable' (λ a, match a with V4 n => inl n | V6 n => inr n end)
    (λ s, match s with inl n => V4 n | inr n => V6 n end) _).
  by intros [].
Defined.

#[global] Instance sockaddr_countable : Countable SocketAddr.
Proof.
  refine (inj_countable' (λ a, (ProxyProto.sa_ip a, ProxyProto.sa_port a))
    (λ p, {| ProxyProto.sa_ip := p.1; ProxyProto.sa_port := p.2 |}) _).
  by intros [].
Defined.

#[global] Instance key_eq_dec : EqDecision ClientKey.
Proof. solve_decision. Defined.

#[global] Instance key_countable : Countable ClientKey.
Proof.
  refine (inj_countable' (λ k, match k with Udp a => inl a | UnixPath p => inr p end)
    (λ s, match s with inl a => Udp a | inr p => UnixPath p end) _).
  by intros [].
Defined.

Definition DEFAULT_FLOW_IDLE_SECS : N := 30.
Definition MAX_DATAGRAM_BYTES : N := 65535.

(** The upstream end of a flow: the socket's kind and the address it is bound
    to locally. *)
Inductive UpstreamSocket :=
  | UpUdp (bound : SocketAddr)
  | UpUnixDgram (bound : string)
  | UpSeqpacket.

Definition unspecified_for (a : SocketAddr) : SocketAddr :=
  {| ProxyProto.sa_ip := match ProxyProto.sa_ip a with V4 _ => V4 0 | V6 _ => V6 0 end;
     ProxyProto.sa_port := 0 |}.

Section process.
(** The temporary directory with its separator, and the process id. *)
Context (temp_dir pid : string).

Definition dgram_path (n : N) : string :=
  temp_dir +:+ "hypershunt-dgram-" +:+ pid +:+ "-" +:+ dec n +:+ ".sock".

(** [build_upstream]: [os_ok] says whether the socket calls succeed; the
    process-wide sequence number is threaded. *)
Definition build_upstream (os_ok : bool) (seq : N) (a : Addr) : Result UpstreamSocket * N :=
  let built s := if os_ok then Ok s else Err "io" in
  match Bind.kind a, Bind.location a with
  | Bind.UdpDgram, Bind.LInet sa => (built (UpUdp (unspecified_for sa)), seq)
  | Bind.UnixDgram, Bind.LUnix _ => (built (UpUnixDgram (dgram_path seq)), wrap64 (seq + 1))
  | Bind.UnixSeqpacket, Bind.LUnix _ => (built UpSeqpacket, seq)
  | _, _ => (Err "unsupported upstream kind", seq)
  end.

(** * The flow table *)

Record Flow := {
  f_upstream : UpstreamSocket;
  last_seen : Instant;
}.

Definition touch (now : Instant) (f : Flow) : Flow := {| f_upstream := f_upstream f; last_seen := now |}.

Record DgMetrics := {
  flows_active : N;
  datagrams_in : N;
  datagrams_out : N;
  bytes_in : N;
  bytes_out : N;
  flow_create : N;
  flow_evict : N;
}.

(** The accept loop: waiting, opening an upstream for a datagram, holding the
    flow of a datagram, or ended. *)
Inductive Accept :=
  | Waiting
  | Building (key : ClientKey) (payload : string)
  | Holding (key : ClientKey) (payload : string) (flow : nat) (fresh : bool)
  | Ended.

(** What went over an upstream socket: from which client, or to which. *)
Inductive Packet :=
  | ToUpstream (flow : nat) (from : ClientKey) (payload : string)
  | ToClient (flow : nat) (to : ClientKey) (payload : string).

Record World := {
  flows : gmap ClientKey nat;
  heap : list Flow;
  tasks : gmap nat ClientKey;
  accept : Accept;
  seq : N;
  dmetrics : DgMetrics;
  log : list Packet;
}.

Definition set_table (w : World) (t : gmap ClientKey nat) (m : DgMetrics) : World :=
  {| flows := t; heap := heap w; tasks := tasks w; accept := accept w; seq := seq w; dmetrics := m;
     log := log w |}.

Definition store_active (n : nat) (m : DgMetrics) : DgMetrics :=
  {| flows_active := wrap64 (N.of_nat n); datagrams_in := datagrams_in m; datagrams_out := datagrams_out m;
     bytes_in := bytes_in m; bytes_out := bytes_out m; flow_create := flow_create m;
     flow_evict := flow_evict m |}.

Definition count_create (m : DgMetrics) : DgMetrics :=
  {| flows_active := flows_active m; datagrams_in := datagrams_in m; datagrams_out := datagrams_out m;
     bytes_in := bytes_in m; bytes_out := bytes_out m; flow_create := wrap64 (flow_create m + 1);
     flow_evict := flow_evict m |}.

Definition count_evict (n : nat) (m : DgMetrics) : DgMetrics :=
  {| flows_active := flows_active m; datagrams_in := datagrams_in m; datagrams_out := datagrams_out m;
     bytes_in := bytes_in m; bytes_out := bytes_out m; flow_create := flow_create m;
     flow_evict := wrap64 (flow_evict m + N.of_nat n) |}.

(** A datagram from the client. *)
Definition count_in (bytes : N) (m : DgMetrics) : DgMetrics :=
  {| flows_active := flows_active m; datagrams_in := wrap64 (datagrams_in m + 1);
     datagrams_out := datagrams_out m; bytes_in := wrap64 (bytes_in m + bytes); bytes_out := bytes_out m;
     flow_create := flow_create m; flow_evict := flow_evict m |}.

(** [send_to_upstream] counts whether or not the send succeeded. *)
Definition count_out (bytes : N) (m : DgMetrics) : DgMetrics :=
  {| flows_active := flows_active m; datagrams_in := datagrams_in m;
     datagrams_out := wrap64 (datagrams_out m + 1); bytes_in := bytes_in m;
     bytes_out := wrap64 (bytes_out m + bytes); flow_create := flow_create m; flow_evict := flow_evict m |}.

(** A reply counts its bytes only. *)
Definition count_reply (bytes : N) (m : DgMetrics) : DgMetrics :=
  {| flows_active := flows_active m; datagrams_in := datagrams_in m; datagrams_out := datagrams_out m;
     bytes_in := bytes_in m; bytes_out := wrap64 (bytes_out m + bytes); flow_create := flow_create m;
     flow_evict := flow_evict m |}.

Definition idle (timeout : Duration) (now : Instant) (h : list Flow) (f : nat) : bool :=
  match h !! f with Some fl => timeout <=? since now (last_seen fl) | None => false end.

(** [FlowTable::evict_idle]. *)
Definition evict_idle (timeout : Duration) (now : Instant) (w : World) : World :=
  let kept := filter (λ kf, idle timeout now (heap w) kf.2 = false) (flows w) in
  let before := size (flows w) in
  let after := size kept in
  set_table w kept
    (if (before =? after)%nat then dmetrics w
     else count_evict (before - after) (store_active after (dmetrics w))).

(** * Steps *)

(** What the listener's socket delivers: an error, a UDP datagram, or a
    unix-dgram one whose sender may be unbound. *)
Inductive Inbound :=
  | InErr
  | InUdp (peer : SocketAddr) (payload : string)
  | InUnix (peer : option string) (payload : string).

Definition client_key (i : Inbound) : option (ClientKey * string) :=
  match i with
  | InErr => None
  | InUdp p s => Some (Udp p, s)
  | InUnix (Some path) s => Some (UnixPath path, s)
  | InUnix None _ => None
  end.

Inductive Event :=
  | Recv (i : Inbound)
  | Opened (os_ok : bool) (now : Instant)
  | Forward (sent : bool) (now : Instant)
  | Evict (now : Instant)
  | Reply (flow : nat) (payload : string) (now : Instant)
  | ReplyEnd (flow : nat)
  | Stop.

Definition set_accept (w : World) (a : Accept) : World :=
  {| flows := flows w; heap := heap w; tasks := tasks w; accept := a; seq := seq w;
     dmetrics := dmetrics w; log := log w |}.

(** The first half of [get_or_create_flow]. *)
Definition lookup_flow (key : ClientKey) (payload : string) (w : World) : World :=
  set_accept w match flows w !! key with
               | Some f => Holding key payload f false
               | None => Building key payload
               end.

(** Its second half, after the upstream was opened. *)
Definition insert_flow (a : Addr) (os_ok : bool) (now : Instant) (key : ClientKey) (payload : string)
    (w : World) : World :=
  let '(built, seq') := build_upstream os_ok (seq w) a in
  let w := {| flows := flows w; heap := heap w; tasks := tasks w; accept := Waiting; seq := seq';
              dmetrics := dmetrics w; log := log w |} in
  match built with
  | Err _ => w
  | Ok up =>
      let f := length (heap w) in
      let h := heap w ++ [{| f_upstream := up; last_seen := now |}] in
      match flows w !! key with
      | Some existing =>
          {| flows := flows w; heap := h; tasks := tasks w; accept := Holding key payload existing false;
             seq := seq w; dmetrics := dmetrics w; log := log w |}
      | None =>
          let t := <[key := f]> (flows w) in
          {| flows := t; heap := h; tasks := tasks w; accept := Holding key payload f true;
             seq := seq w; dmetrics := count_create (store_active (size t) (dmetrics w)); log := log w |}
      end
  end.

(** The rest of [forward_udp_in] and [forward_unix_in]. *)
Definition forward (sent : bool) (now : Instant) (key : ClientKey) (payload : string) (f : nat)
    (fresh : bool) (w : World) : World :=
  let n := str_len payload in
  {| flows := flows w; heap := alter (touch now) f (heap w);
     tasks := if fresh then <[f := key]> (tasks w) else tasks w;
     accept := Waiting; seq := seq w; dmetrics := count_out n (count_in n (dmetrics w));
     log := log w ++ (if sent then [ToUpstream f key payload] else []) |}.

(** A turn of the reply loop whose [send_to] succeeded. *)
Definition reply (f : nat) (key : ClientKey) (payload : string) (now : Instant) (w : World) : World :=
  {| flows := flows w; heap := alter (touch now) f (heap w); tasks := tasks w; accept := accept w;
     seq := seq w; dmetrics := count_reply (str_len payload) (dmetrics w);
     log := log w ++ [ToClient f key payload] |}.

(** The end of the reply loop: the socket failed or closed, or the client
    could not be reached. *)
Definition reply_end (f : nat) (key : ClientKey) (w : World) : World :=
  let t := delete key (flows w) in
  {| flows := t; heap := heap w; tasks := delete f (tasks w); accept := accept w; seq := seq w;
     dmetrics := store_active (size t) (dmetrics w); log := log w |}.

Section run.
Context (timeout : Duration) (upstream : Addr).

(** One step; [None] when the event is not one the tasks can make. *)
Definition step (w : World) (e : Event) : option World :=
  match e, accept w with
  | Recv i, Waiting =>
      Some match client_key i with Some (k, s) => lookup_flow k s w | None => w end
  | Opened ok now, Building k s => Some (insert_flow upstream ok now k s w)
  | Forward sent now, Holding k s f fresh => Some (forward sent now k s f fresh w)
  | Stop, Waiting => Some (set_accept w Ended)
  | Evict now, _ => Some (evict_idle timeout now w)
  | Reply f s now, _ => k ← tasks w !! f; Some (reply f k s now w)
  | ReplyEnd f, _ => k ← tasks w !! f; Some (reply_end f k w)
  | _, _ => None
  end.

Definition runs (es : list Event) (w : World) : option World :=
  fold_left (λ w e, w ← w; step w e) es (Some w).

End run.

Definition metrics0 : DgMetrics :=
  {| flows_active := 0; datagrams_in := 0; datagrams_out := 0; bytes_in := 0; bytes_out := 0;
     flow_create := 0; flow_evict := 0 |}.

(** [FlowTable::new] and the start of the listener. *)
Definition start : World :=
  {| flows := ∅; heap := []; tasks := ∅; accept := Waiting; seq := 0; dmetrics := metrics0; log := [] |}.

(** * Seqpacket connections *)

Definition open_conn (m : DgMetrics) : DgMetrics :=
  let m := count_create m in
  {| flows_active := wrap64 (flows_active m + 1); datagrams_in := datagrams_in m;
     datagrams_out := datagrams_out m; bytes_in := bytes_in m; bytes_out := bytes_out m;
     flow_create := flow_create m; flow_evict := flow_evict m |}.

Definition close_conn (m : DgMetrics) : DgMetrics :=
  {| flows_active := wrap64 (flows_active m + u64_max); datagrams_in := datagrams_in m;
     datagrams_out := datagrams_out m; bytes_in := bytes_in m; bytes_out := bytes_out m;
     flow_create := flow_create m; flow_evict := flow_evict m |}.

(** What the two halves of a connection see, in the order it happens; the
    second part of a message says whether passing it on succeeded. *)
Inductive SeqEvent :=
  | FromClient (r : Result string) (sent : bool)
  | FromUpstream (r : Result string) (sent : bool).

Record Conn := {
  to_upstream : list string;
  to_client : list string;
  cmetrics : DgMetrics;
}.

(** An empty message is the end of a seqpacket stream, and a message of the
    other kinds of socket. *)
Definition closes (up : UpstreamSocket) (s : string) : bool :=
  match up with UpSeqpacket => is_empty s | _ => false end.

(** [inl] goes on, [inr] is the end of one half. *)
Definition seq_turn (up : UpstreamSocket) (e : SeqEvent) (c : Conn) : Conn + Conn :=
  match e with
  | FromClient (Err _) _ => inr c
  | FromClient (Ok s) sent =>
      if is_empty s then inr c
      else inl {| to_upstream := to_upstream c ++ (if sent then [s] else []); to_client := to_client c;
                  cmetrics := count_out (str_len s) (count_in (str_len s) (cmetrics c)) |}
  | FromUpstream (Err _) _ => inr c
  | FromUpstream (Ok s) sent =>
      if closes up s || negb sent then inr c
      else inl {| to_upstream := to_upstream c; to_client := to_client c ++ [s];
                  cmetrics := count_reply (str_len s) (cmetrics c) |}
  end.

(** The connection after the events, and whether one of its halves ended. *)
Fixpoint seq_loop (up : UpstreamSocket) (es : list SeqEvent) (c : Conn) : Conn * bool :=
  match es with
  | [] => (c, false)
  | e :: es => match seq_turn up e c with inl c => seq_loop up es c | inr c => (c, true) end
  end.

(** [seqpacket_per_conn]. *)
Definition seqpacket_per_conn (os_ok : bool) (seq : N) (a : Addr) (es : list SeqEvent) (m : DgMetrics)
    : Conn * bool :=
  match fst (build_upstream os_ok seq a) with
  | Err _ => ({| to_upstream := []; to_client := []; cmetrics := m |}, true)
  | Ok up =>
      let '(c, ended) := seq_loop up es {| to_upstream := []; to_client := []; cmetrics := open_conn m |} in
      (if ended then {| to_upstream := to_upstream c; to_client := to_client c;
                        cmetrics := close_conn (cmetrics c) |} else c, ended)
  end.

(** * Isolation *)

Section facts.
Context (timeout : Duration) (upstream : Addr).

Definition flow_of (p : Packet) : nat := match p with ToUpstream f _ _ | ToClient f _ _ => f end.
Definition client_of (p : Packet) : ClientKey := match p with ToUpstream _ k _ | ToClient _ k _ => k end.

(** Every flow belongs to one client; the table, the reply tasks, the accept
    loop and the wire agree about whose it is. *)
Record inv (owner : gmap nat ClientKey) (w : World) : Prop := {
  inv_dom f k : owner !! f = Some k → (f < length (heap w))%nat;
  inv_flows k f : flows w !! k = Some f → owner !! f = Some k;
  inv_tasks f k : tasks w !! f = Some k → owner !! f = Some k;
  inv_holding k s f fresh : accept w = Holding k s f fresh → owner !! f = Some k;
  inv_building k s : accept w = Building k s → flows w !! k = None;
  inv_log p : p ∈ log w → owner !! flow_of p = Some (client_of p);
  inv_pumped k f : flows w !! k = Some f →
    tasks w !! f = Some k ∨ ∃ s, accept w = Holding k s f true;
  inv_gauge : flows_active (dmetrics w) = wrap64 (N.of_nat (size (flows w)));
}.

Lemma inv_start : inv ∅ start.
Proof. split; cbn; try done; set_solver. Qed.

Lemma evict_lookup now w k f :
  flows (evict_idle timeout now w) !! k = Some f ↔
  flows w !! k = Some f ∧ idle timeout now (heap w) f = false.
Proof. cbn. by rewrite map_lookup_filter_Some. Qed.

Lemma inv_evict owner now w : inv owner w → inv owner (evict_idle timeout now w).
Proof.
  intros [Hd Hf Ht Hh Hb Hl Hp Hg]. split; try done.
  - intros k f Hk. apply evict_lookup in Hk as [Hk _]. by apply Hf.
  - intros k s Ha. cbn. apply map_lookup_filter_None_2. left. by eapply Hb.
  - intros k f Hk. apply evict_lookup in Hk as [Hk _]. by apply Hp.
  - cbn. destruct (Nat.eqb_spec (size (flows w)) (size (filter
      (λ kf, idle timeout now (heap w) kf.2 = false) (flows w)))) as [E|E]; [|done].
    by rewrite <- E.
Qed.

Lemma inv_lookup owner k s w : accept w = Waiting → inv owner w → inv owner (lookup_flow k s w).
Proof.
  intros Ha [Hd Hf Ht Hh Hb Hl Hp Hg]. unfold lookup_flow.
  destruct (flows w !! k) as [f|] eqn:E; split; cbn; try done.
  - intros k' s' f' fresh [= <- _ <- _]. by apply Hf.
  - intros k' f' Hk. destruct (Hp _ _ Hk) as [|[s' Hs]]; [by left|by rewrite Ha in Hs].
  - intros k' s' [= <- _]. done.
  - intros k' f' Hk. destruct (Hp _ _ Hk) as [|[s' Hs]]; [by left|by rewrite Ha in Hs].
Qed.

Lemma inv_insert owner ok now k s w :
  accept w = Building k s → inv owner w →
  ∃ owner', inv owner' (insert_flow upstream ok now k s w).
Proof.
  intros Ha [Hd Hf Ht Hh Hb Hl Hp Hg]. specialize (Hb _ _ Ha).
  assert (∀ k' f', flows w !! k' = Some f' → tasks w !! f' = Some k') as Hp'.
  { intros k' f' Hk. destruct (Hp _ _ Hk) as [|[s' Hs]]; [done|by rewrite Ha in Hs]. }
  unfold insert_flow. destruct (build_upstream ok (seq w) upstream) as [[up|e] n]; cbn [flows heap];
    [|exists owner; split; cbn; auto; done].
  rewrite Hb. set (f := length (heap w)).
  assert (owner !! f = None) as Hfresh.
  { destruct (owner !! f) eqn:E; [|done]. apply Hd in E. unfold f in E. lia. }
  assert (∀ f' k', owner !! f' = Some k' → <[f := k]> owner !! f' = Some k') as Hext.
  { intros f' k' Ho. rewrite lookup_insert_ne; [done|]. intros <-. by rewrite Ho in Hfresh. }
  exists (<[f := k]> owner). split; cbn; try done.
  - intros f' k' [[<- <-]|[_ Ho]]%lookup_insert_Some; rewrite length_app; cbn; [lia|].
    apply Hd in Ho. lia.
  - intros k' f' [[<- <-]|[_ Hk]]%lookup_insert_Some; [by rewrite lookup_insert_eq|by auto].
  - eauto.
  - intros k' s' f' fresh [= <- <- <- <-]. by rewrite lookup_insert_eq.
  - eauto.
  - intros k' f' [[<- <-]|[_ Hk]]%lookup_insert_Some; [right; by exists s|left; auto].
Qed.

Lemma inv_forward owner sent now k s f fresh w :
  accept w = Holding k s f fresh → inv owner w → inv owner (forward sent now k s f fresh w).
Proof.
  intros Ha [Hd Hf Ht Hh Hb Hl Hp Hg]. pose proof (Hh _ _ _ _ Ha) as Ho. split; cbn; try done.
  - intros f' k' Hk. rewrite length_alter. by eapply Hd.
  - intros f' k'. destruct fresh; [|by apply Ht].
    intros [[<- <-]|[_ Hk]]%lookup_insert_Some; [done|by apply Ht].
  - intros p [Hin|Hin]%elem_of_app; [by apply Hl|]. destruct sent; [|by apply elem_of_nil in Hin].
    apply list_elem_of_singleton in Hin as ->. done.
  - intros k' f' Hk. left. destruct (Hp _ _ Hk) as [Hin|[s' Hs]].
    + destruct fresh; [|done]. destruct (decide (f' = f)) as [->|Hn].
      * rewrite lookup_insert_eq. apply Hf in Hk. congruence.
      * by rewrite lookup_insert_ne.
    + rewrite Ha in Hs. injection Hs as -> -> -> ->. by rewrite lookup_insert_eq.
Qed.

Lemma inv_reply owner f k s now w : tasks w !! f = Some k → inv owner w → inv owner (reply f k s now w).
Proof.
  intros Hk [Hd Hf Ht Hh Hb Hl Hp Hg]. split; cbn; try done.
  - intros f' k' Ho. rewrite length_alter. by eapply Hd.
  - intros p [Hin|Hin]%elem_of_app; [by apply Hl|].
    apply list_elem_of_singleton in Hin as ->. by apply Ht.
Qed.

Lemma inv_reply_end owner f k w : tasks w !! f = Some k → inv owner w → inv owner (reply_end f k w).
Proof.
  intros Hk [Hd Hf Ht Hh Hb Hl Hp Hg]. split; cbn; try done.
  - intros k' f' [_ Hk']%lookup_delete_Some. by apply Hf.
  - intros f' k' [_ Hk']%lookup_delete_Some. by apply Ht.
  - intros k' s Ha. apply lookup_delete_None. right. by eapply Hb.
  - intros k' f' [Hn Hk']%lookup_delete_Some. destruct (Hp _ _ Hk') as [Hin|]; [left|by right].
    rewrite lookup_delete_ne; [done|]. intros <-. congruence.
Qed.

Lemma inv_step owner w e w' : step timeout upstream w e = Some w' → inv owner w → ∃ owner', inv owner' w'.
Proof.
  intros Hs Hi. unfold step in Hs.
  assert (∀ a, Some a = Some w' → inv owner a → ∃ owner', inv owner' w') as Hsame
    by (intros a [= <-]; eauto).
  destruct e; destruct (accept w) eqn:Ha; try discriminate Hs;
    try (destruct (tasks w !! flow) as [k|] eqn:Ek; [|discriminate Hs]; cbn in Hs);
    eauto using inv_evict, inv_forward, inv_reply, inv_reply_end.
  - destruct (client_key i) as [[k s]|]; eauto using inv_lookup.
  - injection Hs as <-. by eapply inv_insert.
  - apply (Hsame _ Hs). destruct Hi. split; cbn; try done.
    intros k f Hk. destruct (inv_pumped0 k f Hk) as [|[s Hs']]; [by left|by rewrite Ha in Hs'].
Qed.

Lemma runs_snoc es e w : runs timeout upstream (es ++ [e]) w = w ← runs timeout upstream es w; step timeout upstream w e.
Proof. unfold runs. by rewrite fold_left_app. Qed.

Lemma runs_cons e es w w1 :
  step timeout upstream w e = Some w1 → runs timeout upstream (e :: es) w = runs timeout upstream es w1.
Proof. intros Hs. unfold runs. cbn [fold_left mbind option_bind]. by rewrite Hs. Qed.

Lemma inv_runs es w : runs timeout upstream es start = Some w → ∃ owner, inv owner w.
Proof.
  revert w. induction es as [|e es IH] using rev_ind; intros w.
  - intros [= <-]. exists ∅. apply inv_start.
  - rewrite runs_snoc. destruct (runs timeout upstream es start) as [w1|]; [|done]. cbn. intros Hs.
    destruct (IH w1 eq_refl) as [owner Hi]. by eapply inv_step.
Qed.

(** C24: clients of a datagram listener are kept apart under every interleaving
    of the accept loop, the reply tasks and the evictor: all that a flow's
    upstream socket sends came from one client and all it receives goes back
    to that client; every flow of the table has, or is about to get, the task
    that pumps its replies; and the gauge is the size of the table. *)
Theorem datagram_isolated es w :
  runs timeout upstream es start = Some w →
  (∀ p q, p ∈ log w → q ∈ log w → flow_of p = flow_of q → client_of p = client_of q) ∧
  (∀ k f, flows w !! k = Some f → tasks w !! f = Some k ∨ ∃ s, accept w = Holding k s f true) ∧
  flows_active (dmetrics w) = wrap64 (N.of_nat (size (flows w))).
Proof.
  intros Hr. destruct (inv_runs es w Hr) as [owner [_ _ _ _ _ Hl Hp Hg]]. split_and!; [|done|done].
  intros p q Hp' Hq Hf. apply Hl in Hp', Hq. rewrite Hf in Hp'. congruence.
Qed.

Definition supported (a : Addr) : bool :=
  match Bind.kind a, Bind.location a with
  | Bind.UdpDgram, Bind.LInet _ => true
  | Bind.UnixDgram, Bind.LUnix _ | Bind.UnixSeqpacket, Bind.LUnix _ => true
  | _, _ => false
  end.

Lemma build_supported seq a : supported a = true → ∃ up n, build_upstream true seq a = (Ok up, n).
Proof. destruct a as [[] []]; try discriminate; intros _; by eexists _, _. Qed.

(** A datagram is delivered: whatever happened before, a waiting listener
    that receives a datagram sends it, unchanged, on the upstream socket of
    its sender's flow, opening one if there is none, and the flow is then in
    the table with the task that returns the replies. *)
Theorem datagram_delivered es w i k s now :
  supported upstream = true →
  runs timeout upstream es start = Some w → accept w = Waiting → client_key i = Some (k, s) →
  ∃ f, let turn := if decide (is_Some (flows w !! k)) then [Recv i; Forward true now]
                   else [Recv i; Opened true now; Forward true now] in
    ∃ w', runs timeout upstream turn w = Some w' ∧ accept w' = Waiting ∧
      log w' = log w ++ [ToUpstream f k s] ∧ flows w' !! k = Some f ∧ tasks w' !! f = Some k ∧
      (last_seen <$> heap w' !! f = Some now).
Proof.
  intros Hsup Hr Ha Hi. destruct (inv_runs es w Hr) as [owner [Hd Hf Ht Hh Hb Hl Hp Hg]].
  destruct (flows w !! k) as [f|] eqn:Ek.
  - exists f. cbn zeta. rewrite decide_True by eauto.
    rewrite (runs_cons _ _ _ (lookup_flow k s w)) by (cbn; by rewrite Ha, Hi).
    unfold lookup_flow. rewrite Ek. eexists. split; [reflexivity|]. cbn. split_and!; try done.
    + destruct (Hp _ _ Ek) as [|[s' Hs]]; [done|by rewrite Ha in Hs].
    + rewrite list_lookup_alter_eq. destruct (lookup_lt_is_Some_2 (heap w) f) as [fl ->]; [|done].
      eapply Hd. by apply Hf.
  - exists (length (heap w)). cbn zeta. rewrite decide_False by (by intros [? ?]).
    rewrite (runs_cons _ _ _ (lookup_flow k s w)) by (cbn; by rewrite Ha, Hi).
    unfold lookup_flow. rewrite Ek.
    destruct (build_supported (seq w) upstream Hsup) as (up & n & Hb').
    eexists. split.
    { erewrite runs_cons by reflexivity. unfold insert_flow. cbn [seq set_accept]. rewrite Hb'.
      cbn [flows set_accept]. rewrite Ek. reflexivity. }
    cbn. split_and!; try done.
    + by rewrite lookup_insert_eq.
    + by rewrite lookup_insert_eq.
    + rewrite list_lookup_alter_eq, lookup_app_r by lia. by rewrite Nat.sub_diag.
Qed.

(** The evictor drops exactly the flows that were idle for the timeout, and
    counts them. *)
Lemma evict_spec now w :
  (∀ k, flows (evict_idle timeout now w) !! k =
     f ← flows w !! k; if idle timeout now (heap w) f then None else Some f) ∧
  flow_evict (dmetrics (evict_idle timeout now w)) =
    (if (size (flows w) =? size (flows (evict_idle timeout now w)))%nat then flow_evict (dmetrics w)
     else wrap64 (flow_evict (dmetrics w) +
            N.of_nat (size (flows w) - size (flows (evict_idle timeout now w))))).
Proof.
  split.
  - intros k. apply option_eq. intros f. rewrite evict_lookup. destruct (flows w !! k) as [g|]; cbn; [|naive_solver].
    destruct (idle timeout now (heap w) g) eqn:E; split; try done.
    + by intros [[= ->] Hi]; rewrite E in Hi.
    + by intros [[= ->] _].
    + by intros [= ->].
  - cbn. case_match; done.
Qed.

(** ** Seqpacket connections *)

Definition passed_up (e : SeqEvent) : list string :=
  match e with FromClient (Ok s) true => [s] | _ => [] end.
Definition passed_down (e : SeqEvent) : list string :=
  match e with FromUpstream (Ok s) _ => [s] | _ => [] end.

(** Messages pass in order with their boundaries until a half ends, and the
    gauge returns to what it was. *)
Lemma seq_loop_spec up es c c' ended :
  seq_loop up es c = (c', ended) →
  flows_active (cmetrics c') = flows_active (cmetrics c) ∧
  ∃ n, to_upstream c' = to_upstream c ++ concat (passed_up <$> take n es) ∧
    to_client c' = to_client c ++ concat (passed_down <$> take n es) ∧
    (if ended then (n < length es)%nat else n = length es).
Proof.
  revert c. induction es as [|e es IH]; intros c; cbn [seq_loop].
  { intros [= <- <-]. split; [done|]. exists 0%nat. cbn. by rewrite !app_nil_r. }
  destruct (seq_turn up e c) as [c1|c1] eqn:Et.
  - intros Hs. apply IH in Hs as [Hg (n & Hu & Hc & Hn)].
    assert (flows_active (cmetrics c1) = flows_active (cmetrics c) ∧
      to_upstream c1 = to_upstream c ++ passed_up e ∧ to_client c1 = to_client c ++ passed_down e)
      as (Hg1 & Hu1 & Hc1).
    { unfold seq_turn in Et. destruct e as [[s|] sent|[s|] sent]; try discriminate Et.
      - destruct (is_empty s); [discriminate Et|]. injection Et as <-. cbn. rewrite app_nil_r. by destruct sent.
      - destruct (_ || _); [discriminate Et|]. injection Et as <-. cbn. by rewrite app_nil_r. }
    split; [congruence|]. exists (S n). cbn. rewrite Hu, Hc, Hu1, Hc1, !app_assoc.
    split_and!; [done|done|]. destruct ended; lia.
  - intros [= <- <-]. assert (c1 = c) as ->.
    { unfold seq_turn in Et. destruct e as [[s|] sent|[s|] sent]; repeat case_match; congruence. }
    split; [done|]. exists 0%nat. cbn. rewrite !app_nil_r. split_and!; try done. lia.
Qed.

Lemma seqpacket_conn_spec ok n a es m :
  flows_active m < u64_mod →
  let '(c, ended) := seqpacket_per_conn ok n a es m in
  ended = true → flows_active (cmetrics c) = flows_active m.
Proof.
  intros Hm. unfold seqpacket_per_conn. destruct (fst _) as [up|e]; [|done].
  destruct (seq_loop up es _) as [c ended] eqn:Es. apply seq_loop_spec in Es as [Hg _].
  destruct ended; [|done]. intros _. cbn in Hg |- *. rewrite Hg. unfold wrap64, u64_max, u64_mod in *.
  rewrite N.Div0.add_mod_idemp_l. replace (flows_active m + 1 + 18446744073709551615)
    with (flows_active m + 1 * 18446744073709551616) by lia.
  by rewrite N.Div0.mod_add, N.mod_small by lia.
Qed.

End facts.
End process.

(** * Two clients of a UDP listener *)

Module Demo.

Definition client (n : N) : SocketAddr := {| ProxyProto.sa_ip := V4 n; ProxyProto.sa_port := 4000 |}.
Definition backend : Addr := {| Bind.kind := Bind.UdpDgram; Bind.location := Bind.LInet (client 9) |}.
Definition seconds30 : Duration := from_secs DEFAULT_FLOW_IDLE_SECS.

#[local] Abbreviation play := (runs "/tmp/" "7" seconds30 backend).

Definition hello (n now : N) : list Event := [Recv (InUdp (client n) "hi"); Opened true now; Forward true now].
Definition late : Instant := from_secs 40.

(** Two clients, a reply to the second, and the idle first flow evicted. *)
Definition talk : list Event := hello 1 0 ++ hello 2 0 ++ [Reply 1 "ho" late; Evict late].
Definition talked : World := default start (play talk start).

Lemma datagram_isolated_witness :
  play talk start = Some talked ∧
  (∀ p q, p ∈ log talked → q ∈ log talked → flow_of p = flow_of q → client_of p = client_of q) ∧
  log talked = [ToUpstream 0 (Udp (client 1)) "hi"; ToUpstream 1 (Udp (client 2)) "hi";
                ToClient 1 (Udp (client 2)) "ho"].
Proof.
  destruct (datagram_isolated "/tmp/" "7" seconds30 backend talk talked) as [Hi _];
    [vm_compute; reflexivity|].
  split; [vm_compute; reflexivity|]. split; [exact Hi|]. vm_compute. reflexivity.
Defined.

Lemma datagram_delivered_witness :
  ∃ f w', play [Recv (InUdp (client 2) "again"); Forward true 5] talked = Some w' ∧
    log w' = log talked ++ [ToUpstream f (Udp (client 2)) "again"].
Proof.
  destruct (datagram_delivered "/tmp/" "7" seconds30 backend talk talked
    (InUdp (client 2) "again") (Udp (client 2)) "again" 5) as (f & w' & Hr & _ & Hl & _);
    [reflexivity|vm_compute; reflexivity|vm_compute; reflexivity|reflexivity|].
  exists f, w'. split; [|exact Hl]. rewrite <- Hr. vm_compute. reflexivity.
Defined.

(** Eviction takes a flow off the table, but its reply task keeps the upstream
    socket open and still delivers what arrives there. *)
Lemma evicted_flow_lives_on :
  flows talked !! Udp (client 1) = None ∧ tasks talked !! 0%nat = Some (Udp (client 1)) ∧
  (last <$> (log <$> play [Reply 0 "late" late] talked)) =
    Some (Some (ToClient 0 (Udp (client 1)) "late")).
Proof. vm_compute. split_and!; reflexivity. Qed.

(** When the task of an evicted flow ends, it removes the client's new flow
    from the table. *)
Lemma old_task_removes_new_flow :
  (flows <$> play (hello 1 late) talked) ≫= lookup (Udp (client 1)) = Some 2%nat ∧
  (λ w, (flows w !! Udp (client 1), tasks w !! 2%nat)) <$> play (hello 1 late ++ [ReplyEnd 0]) talked =
    Some (None, Some (Udp (client 1))).
Proof. vm_compute. split; reflexivity. Qed.

(** The gauge is shared by all listeners: a table that stores its own size
    while a seqpacket connection is open makes it wrap below zero. *)
Lemma shared_gauge_wraps : flows_active (close_conn (store_active 0 (open_conn metrics0))) = u64_max.
Proof. vm_compute. reflexivity. Qed.

End Demo.

End Dgram.
