(* ===== verification/Kdl.v ===== *)
(** Configuration documents: the tree the [kdl] crate parses a file into, the
    readers of [src/config/kdl.rs] and [src/config/parse.rs] over it, the
    suggestion for a misspelt node, and the check for misnested blocks.

    The crate is not part of the repository: its tree is the data type below,
    and fetching an entry of a node by position or by name is the class
    [Kdl].  The floats of a document are a type parameter. *)
From S2P Require Import Prelude RustStr Utf8.

Module Kdl.

(** * Documents *)

Section document.
Context {float : Type}.

Inductive KdlValue :=
  | VString (s : string)
  | VInteger (n : Z)
  | VFloat (x : float)
  | VBool (b : bool)
  | VNull.

Record KdlEntry := {
  e_name : option string;
  e_value : KdlValue;
}.

(** A node with the byte offset of its span. *)
Inductive KdlNode :=
  | Node (n : string) (es : list KdlEntry) (block : option (list KdlNode)) (off : nat).

Definition name (n : KdlNode) : string := let 'Node s _ _ _ := n in s.
Definition entries (n : KdlNode) : list KdlEntry := let 'Node _ es _ _ := n in es.
Definition children (n : KdlNode) : option (list KdlNode) := let 'Node _ _ c _ := n in c.
Definition offset (n : KdlNode) : nat := let 'Node _ _ _ o := n in o.

(** [node.children().map(|d| d.nodes()).unwrap_or_default()]. *)
Definition nodes (n : KdlNode) : list KdlNode := default [] (children n).

Lemma KdlNode_nested (P : KdlNode → Prop) :
  (∀ s es c o, Forall P (default [] c) → P (Node s es c o)) → ∀ n, P n.
Proof.
  intros HP. fix IH 1. intros [s es [ns|] o]; apply HP; cbn; [|constructor].
  induction ns as [|n ns IHns]; constructor; [apply IH|apply IHns].
Qed.

Definition as_string (v : KdlValue) : option string := match v with VString s => Some s | _ => None end.
Definition as_integer (v : KdlValue) : option Z := match v with VInteger z => Some z | _ => None end.
Definition as_float (v : KdlValue) : option float := match v with VFloat x => Some x | _ => None end.
Definition as_bool (v : KdlValue) : option bool := match v with VBool b => Some b | _ => None end.

(** The values of the entries without a name, in order. *)
Definition args (es : list KdlEntry) : list KdlValue :=
  omap (λ e, match e_name e with None => Some (e_value e) | Some _ => None end) es.

(** [KdlNode::get] with a position and with a name.  Which of several
    properties of one name it returns is left open. *)
Class Kdl := {
  get_arg : list KdlEntry → nat → option KdlValue;
  get_prop : list KdlEntry → string → option KdlValue;
  get_arg_spec es i : get_arg es i = args es !! i;
  get_prop_in es k v : get_prop es k = Some v → {| e_name := Some k; e_value := v |} ∈ es;
  get_prop_none es k : get_prop es k = None → ∀ e, e ∈ es → e_name e ≠ Some k;
}.

End document.
#[global] Arguments KdlValue : clear implicits.
#[global] Arguments KdlEntry : clear implicits.
#[global] Arguments KdlNode : clear implicits.
#[global] Arguments Kdl : clear implicits.

(** The rightmost property of a name, as KDL prescribes. *)
Definition last_prop {float} (es : list (KdlEntry float)) (k : string) : option (KdlValue float) :=
  last (omap (λ e, if decide (e_name e = Some k) then Some (e_value e) else None) es).

#[export, program] Instance rightmost_kdl {float} : Kdl float := {|
  get_arg es i := args es !! i;
  get_prop := last_prop;
|}.
Next Obligation. done. Qed.
Next Obligation.
  intros float es k v Hl%last_Some_elem_of. apply list_elem_of_omap in Hl as ([nm v'] & Hin & Hv).
  case_decide as Hn; cbn in *; simplify_eq. done.
Qed.
Next Obligation.
  intros float es k Hl%last_None e Hin Hn.
  assert (e_value e ∈ omap (λ e, if decide (e_name e = Some k) then Some (e_value e) else None) es)
    as Hx by (apply list_elem_of_omap; exists e; rewrite decide_True by done; done).
  rewrite Hl in Hx. set_solver.
Qed.

(** * Readers *)

Section readers.
Context {float : Type} `{!Kdl float}.
Abbreviation node := (KdlNode float) (only parsing).

Definition arg_str (n : node) (pos : nat) : option string := get_arg (entries n) pos ≫= as_string.
Definition arg_strs (n : node) : list string := omap as_string (args (entries n)).
Definition req_arg_str (n : node) (pos : nat) : Result string :=
  ok_or (arg_str n pos) "missing required argument".

Definition prop_str (n : node) (key : string) : option string := get_prop (entries n) key ≫= as_string.
Definition prop_bool (n : node) (key : string) : option bool := get_prop (entries n) key ≫= as_bool.

(** [n as i64]: the low 64 bits, as a signed number. *)
Definition as_i64 (z : Z) : Z := ((z + 2 ^ 63) mod 2 ^ 64 - 2 ^ 63)%Z.
(** [n as u16] and the like: the low bits. *)
Definition as_u (bits : Z) (z : Z) : N := Z.to_N (z mod 2 ^ bits).

Definition prop_i64 (n : node) (key : string) : option Z := as_i64 <$> (get_prop (entries n) key ≫= as_integer).
(** [prop_i64(node, key).map(|n| n as u64)] and the narrower ones. *)
Definition prop_u (bits : Z) (n : node) (key : string) : option N := as_u bits <$> prop_i64 n key.

Definition has_prop (n : node) (key : string) : bool := bool_decide (is_Some (get_prop (entries n) key)).

Definition named (key : string) (n : node) : bool := String.eqb (name n) key.
(** [nodes().iter().find(|n| n.name().value() == key)] and the filter. *)
Definition find_child (n : node) (key : string) : option node := List.find (named key) (nodes n).
Definition filter_children (n : node) (key : string) : list node := List.filter (named key) (nodes n).

Definition repeated_strs (n : node) (key : string) : list string :=
  omap (λ c, arg_str c 0) (filter_children n key).

(** [opt.map(f).transpose()]. *)
Definition opt_try {A B} (f : A → Result B) (o : option A) : Result (option B) :=
  match o with None => Ok None | Some a => b ← f a; Ok (Some b) end.

(** * Lines *)

(** [str::is_char_boundary]. *)
Definition is_char_boundary (s : string) (i : nat) : bool :=
  match String.get i s with
  | Some c => negb (cont c)
  | None => (i =? String.length s)%nat
  end.

Fixpoint boundary_before (s : string) (off : nat) : nat :=
  match off with
  | O => O
  | S off' => if is_char_boundary s off then off else boundary_before s off'
  end.

Fixpoint newlines (s : string) : nat :=
  match s with
  | "" => 0
  | String c s' => if Ascii.eqb c "010" then S (newlines s') else newlines s'
  end.

Definition line_of_offset (src : string) (off : nat) : nat :=
  newlines (str_take (boundary_before src (Nat.min off (String.length src))) src) + 1.

Definition node_line (src : string) (n : node) : nat := line_of_offset src (offset n).

End readers.

(** * Suggestions *)

(** [str::chars] of a well-formed text: a character starts at every byte that
    does not continue one. *)
Fixpoint chars (s : string) : list string :=
  match s with
  | "" => []
  | String c s' =>
      match chars s' with
      | (String d _ as ch) :: rest => if cont d then String c ch :: rest else String c "" :: ch :: rest
      | rest => String c "" :: rest
      end
  end.

Section distance.
Context {A : Type} `{EqDecision A}.
#[local] Open Scope nat_scope.

(** [usize::from(ca != cb)]. *)
Definition cost (x y : A) : nat := if decide (x = y) then 0 else 1.

(** The cells [curr[1..]] of one row: [left] is the cell before, and [prev]
    starts above it. *)
Fixpoint row (ca : A) (bs : list A) (prev : list nat) (left : nat) : list nat :=
  match bs, prev with
  | cb :: bs', p :: (up :: _) as prev' =>
      let v := Nat.min (Nat.min (p + cost ca cb) (up + 1)) (left + 1) in
      v :: row ca bs' (tail prev) v
  | _, _ => []
  end.

Fixpoint rows (i : nat) (a b : list A) (prev : list nat) : list nat :=
  match a with
  | [] => prev
  | ca :: a' => rows (S i) a' b (S i :: row ca b prev (S i))
  end.

Definition distance (a b : list A) : nat :=
  default 0 (rows 0 a b (seq 0 (S (length b))) !! length b).

(** Edit scripts: keeping or replacing, deleting and inserting one symbol. *)
Inductive edits : list A → list A → nat → Prop :=
  | E_done : edits [] [] 0
  | E_change x y a b n : edits a b n → edits (x :: a) (y :: b) (n + cost x y)
  | E_delete x a b n : edits a b n → edits (x :: a) b (S n)
  | E_insert y a b n : edits a b n → edits a (y :: b) (S n).

(** The textbook recurrence. *)
Fixpoint lev (a : list A) : list A → nat :=
  match a with
  | [] => length
  | x :: a' =>
      fix go (b : list A) : nat :=
        match b with
        | [] => S (length a')
        | y :: b' => Nat.min (Nat.min (lev a' b' + cost x y) (lev a' b + 1)) (go b' + 1)
        end
  end.

Lemma lev_nil_r a : lev a [] = length a.
Proof. by destruct a. Qed.

Lemma lev_cons x a y b :
  lev (x :: a) (y :: b) =
  Nat.min (Nat.min (lev a b + cost x y) (lev a (y :: b) + 1)) (lev (x :: a) b + 1).
Proof. done. Qed.

Lemma edits_delete_all a : edits a [] (length a).
Proof. induction a; by constructor. Qed.
Lemma edits_insert_all b : edits [] b (length b).
Proof. induction b; by constructor. Qed.

Lemma lev_edits a b : edits a b (lev a b).
Proof.
  revert b. induction a as [|x a IHa]; intros b; [apply edits_insert_all|].
  induction b as [|y b IHb]; [rewrite lev_nil_r; apply edits_delete_all|].
  rewrite lev_cons.
  destruct (Nat.min_spec (Nat.min (lev a b + cost x y) (lev a (y :: b) + 1)) (lev (x :: a) b + 1))
    as [[_ ->]|[_ ->]]; [|rewrite Nat.add_1_r; by constructor].
  destruct (Nat.min_spec (lev a b + cost x y) (lev a (y :: b) + 1)) as [[_ ->]|[_ ->]];
    [by constructor|rewrite Nat.add_1_r; by constructor].
Qed.

Lemma lev_least a b n : edits a b n → lev a b ≤ n.
Proof.
  induction 1 as [|x y a b n _ IH|x a b n _ IH|y a b n _ IH]; [done| | |].
  - rewrite lev_cons. lia.
  - destruct b as [|y b]; [rewrite lev_nil_r in *; cbn in *; lia|]. rewrite lev_cons. lia.
  - destruct a as [|x a]; [cbn in *; lia|]. rewrite lev_cons. lia.
Qed.

Lemma edits_app a b n a' b' n' : edits a b n → edits a' b' n' → edits (a ++ a') (b ++ b') (n + n').
Proof.
  induction 1 as [|x y a b n _ IH|x a b n _ IH|y a b n _ IH]; intros H'; cbn; [done| | |].
  - replace (n + cost x y + n') with (n + n' + cost x y) by lia. constructor. auto.
  - constructor. auto.
  - constructor. auto.
Qed.

Lemma edits_rev a b n : edits a b n → edits (rev a) (rev b) n.
Proof.
  induction 1 as [|x y a b n _ IH|x a b n _ IH|y a b n _ IH]; cbn; [constructor| | |].
  - apply edits_app; [done|]. rewrite <- (Nat.add_0_l (cost x y)). repeat constructor.
  - rewrite <- (app_nil_r (rev b)), <- Nat.add_1_r. apply edits_app; [done|repeat constructor].
  - rewrite <- (app_nil_r (rev a)), <- Nat.add_1_r. apply edits_app; [done|repeat constructor].
Qed.

(** The distances of one text to the growing prefixes of another, both read
    backwards. *)
Fixpoint levs (ra rb bs : list A) : list nat :=
  lev ra rb :: match bs with [] => [] | y :: bs' => levs ra (y :: rb) bs' end.

Lemma levs_eq ra rb bs :
  levs ra rb bs = lev ra rb :: match bs with [] => [] | y :: bs' => levs ra (y :: rb) bs' end.
Proof. by destruct bs. Qed.

Lemma row_levs x ra rb bs :
  lev (x :: ra) rb :: row x bs (levs ra rb bs) (lev (x :: ra) rb) = levs (x :: ra) rb bs.
Proof.
  revert rb. induction bs as [|y bs IH]; intros rb; [done|]. rewrite (levs_eq (x :: ra)). f_equal.
  rewrite <- IH. cbn [levs]. rewrite (levs_eq ra (y :: rb)). cbn [row tail]. by rewrite <- lev_cons.
Qed.

Lemma rows_levs ra a b : rows (length ra) a b (levs ra [] b) = levs (rev a ++ ra) [] b.
Proof.
  revert ra. induction a as [|x a IH]; intros ra; [done|]. cbn [rows rev].
  rewrite <- (app_assoc (rev a) [x]). cbn [app]. rewrite <- IH. f_equal. apply (row_levs x ra []).
Qed.

Lemma levs_start rb bs : levs [] rb bs = seq (length rb) (S (length bs)).
Proof.
  revert rb. induction bs as [|y bs IH]; intros rb; [done|]. cbn [levs]. rewrite IH. done.
Qed.

Lemma levs_end ra rb bs : levs ra rb bs !! length bs = Some (lev ra (rev bs ++ rb)).
Proof.
  revert rb. induction bs as [|y bs IH]; intros rb; [done|]. cbn [levs length]. cbn.
  rewrite IH, <- app_assoc. done.
Qed.

Lemma distance_lev a b : distance a b = lev (rev a) (rev b).
Proof.
  unfold distance. pose proof (levs_start [] b) as Hs. cbn [length] in Hs. rewrite <- Hs.
  pose proof (rows_levs [] a b) as Hr. cbn [length] in Hr. rewrite Hr, levs_end. cbn.
  by rewrite !app_nil_r.
Qed.

Lemma distance_edits a b : edits a b (distance a b).
Proof.
  rewrite distance_lev. rewrite <- (rev_involutive a) at 1. rewrite <- (rev_involutive b) at 1.
  apply edits_rev, lev_edits.
Qed.

Lemma distance_least a b n : edits a b n → distance a b ≤ n.
Proof. intros Hn. rewrite distance_lev. by apply lev_least, edits_rev. Qed.

End distance.

Definition edit_distance (a b : string) : nat := distance (chars a) (chars b).

(** [min_by_key]: the first of the least. *)
Fixpoint first_least (l : list (nat * string)) : option (nat * string) :=
  match l with
  | [] => None
  | (d, c) :: l' =>
      match first_least l' with
      | Some (d', c') => Some (if (d <=? d')%nat then (d, c) else (d', c'))
      | None => Some (d, c)
      end
  end.

Definition suggestion (word : string) (candidates : list string) : option string :=
  snd <$> first_least (List.filter (λ dc, (dc.1 <=? 2)%nat) ((λ c, (edit_distance word c, c)) <$> candidates)).

Definition did_you_mean (word : string) (candidates : list string) : string :=
  match suggestion word candidates with
  | Some c => " -- did you mean '" +:+ c +:+ "'?"
  | None => ""
  end.

Lemma first_least_spec (d : string → nat) (cs : list string) :
  match snd <$> first_least (List.filter (λ dc, (dc.1 <=? 2)%nat) ((λ c, (d c, c)) <$> cs)) with
  | Some c =>
      (d c <= 2)%nat ∧ ∃ pre post, cs = pre ++ c :: post ∧
        Forall (λ c', (d c < d c')%nat) pre ∧ Forall (λ c', (d c <= d c')%nat) post
  | None => Forall (λ c', (2 < d c')%nat) cs
  end.
Proof.
  assert (∀ l, Forall (λ dc, dc.1 = d dc.2) l →
    match first_least l with Some (k, c) => k = d c | None => True end) as Hkey.
  { induction 1 as [|[k c] l Hk Hl IH]; [done|]. cbn [first_least]. cbn in Hk.
    destruct (first_least l) as [[k' c']|]; [|done]. by destruct (k <=? k')%nat. }
  induction cs as [|c0 cs IH]; cbn; [constructor|].
  set (l := List.filter _ _) in *. assert (Forall (λ dc, dc.1 = d dc.2) l) as Hl.
  { apply Forall_forall. intros [k c] Hin%list_elem_of_In%filter_In.
    destruct Hin as [(c' & Hk & _)%list_elem_of_In%list_elem_of_fmap _]. by simplify_eq. }
  specialize (Hkey l Hl). destruct (Nat.leb_spec (d c0) 2) as [Hle|Hgt].
  - cbn [first_least]. destruct (first_least l) as [[k c]|]; cbn in *.
    + destruct IH as (Hc & pre & post & -> & Hpre & Hpost). subst k.
      destruct (Nat.leb_spec (d c0) (d c)) as [Hle'|Hgt']; cbn.
      * split; [done|]. exists [], (pre ++ c :: post). split_and!; [done|constructor|].
        apply Forall_app. split; [|constructor; [done|]];
          (eapply Forall_impl; [eassumption|]); cbn; lia.
      * split; [done|]. exists (c0 :: pre), post. split_and!; [done|by constructor|done].
    + split; [done|]. exists [], cs. split_and!; [done|constructor|].
      eapply Forall_impl; [exact IH|]. cbn. lia.
  - destruct (first_least l) as [[k c]|]; cbn in *; [|by constructor].
    destruct IH as (Hc & pre & post & -> & Hpre & Hpost). split; [done|].
    exists (c0 :: pre), post. split_and!; [done|constructor; [lia|done]|done].
Qed.

(** The rolling row computes the least number of insertions, deletions and
    replacements of characters between two words, and the suggestion for a
    misspelt node is the first of the closest candidates, given exactly when
    one is within two edits. *)
Theorem suggestion_closest word candidates :
  let d := edit_distance word in
  (∀ c, edits (chars word) (chars c) (d c) ∧ ∀ n, edits (chars word) (chars c) n → (d c <= n)%nat) ∧
  match suggestion word candidates with
  | Some c =>
      (d c <= 2)%nat ∧ ∃ pre post, candidates = pre ++ c :: post ∧
        Forall (λ c', (d c < d c')%nat) pre ∧ Forall (λ c', (d c <= d c')%nat) post
  | None => Forall (λ c', (2 < d c')%nat) candidates
  end.
Proof.
  intros d. split; [split; [apply distance_edits|apply distance_least]|].
  apply (first_least_spec d).
Qed.

(** * Misnested blocks *)

Definition TOP_LEVEL_ONLY : list string := ["server"; "listener"; "vhost"; "certificate"].

Section misnesting.
Context {float : Type}.
Abbreviation node := (KdlNode float) (only parsing).

(** A child that may only stand at the top level; a [vhost] in a [listener]
    is a reference. *)
Definition misplaced (parent child : string) : bool :=
  if String.eqb parent "listener" && String.eqb child "vhost" then false
  else bool_decide (child ∈ TOP_LEVEL_ONLY).

Fixpoint check_children (parent : string) (cs : list node) : Result unit :=
  match cs with
  | [] => Ok tt
  | c :: cs' =>
      if misplaced parent (name c) then Err "cannot be nested inside another block"
      else check_children parent cs'
  end.

(** The body of the loop over the nodes of a document. *)
Fixpoint check_node (n : node) : Result unit :=
  match n with
  | Node parent _ (Some cs) _ =>
      _ ← check_children parent cs;
      (fix check (ns : list node) : Result unit :=
         match ns with [] => Ok tt | n :: ns' => _ ← check_node n; check ns' end) cs
  | Node _ _ None _ => Ok tt
  end.

Fixpoint check_misnesting (doc : list node) : Result unit :=
  match doc with [] => Ok tt | n :: doc' => _ ← check_node n; check_misnesting doc' end.

(** The nodes of a document at any depth. *)
Inductive within : node → list node → Prop :=
  | within_here n doc : n ∈ doc → within n doc
  | within_below n m doc : n ∈ doc → within m (nodes n) → within m doc.

Lemma check_children_ok parent cs :
  check_children parent cs = Ok tt ↔ ∀ c, c ∈ cs → misplaced parent (name c) = false.
Proof.
  induction cs as [|c cs IH]; cbn; [set_solver|].
  destruct (misplaced parent (name c)) eqn:E; [|rewrite IH; set_solver].
  split; [done|]. intros H. rewrite (H c) in E by set_solver. done.
Qed.

Lemma check_node_eq n :
  check_node n = (_ ← check_children (name n) (nodes n); check_misnesting (nodes n)).
Proof.
  destruct n as [s es [cs|] o]; cbn; [|done]. f_equal.
Qed.

Lemma check_misnesting_ok doc :
  check_misnesting doc = Ok tt ↔ ∀ n, n ∈ doc → check_node n = Ok tt.
Proof.
  induction doc as [|n doc IH]; cbn; [set_solver|]. rewrite bind_Ok. setoid_rewrite IH. split.
  - intros ([] & Hn & Hd) m [->|Hm]%elem_of_cons; eauto.
  - intros H. exists tt. split; [apply H|intros; apply H]; set_solver.
Qed.

Lemma check_node_ok n :
  check_node n = Ok tt ↔
  ∀ p c, within p [n] → c ∈ nodes p → misplaced (name p) (name c) = false.
Proof.
  induction n as [s es cs o IH] using KdlNode_nested. rewrite check_node_eq, bind_Ok. split.
  - intros ([] & Hc & Hr) p c Hp. rewrite check_children_ok in Hc. rewrite check_misnesting_ok in Hr.
    inversion Hp as [? ? Hin|m ? ? Hin Hw]; subst; apply list_elem_of_singleton in Hin; subst; [apply Hc|].
    intros Hcin. cbn in Hr, Hw. rewrite Forall_forall in IH.
    inversion Hw as [? ? Hin|m' ? ? Hin Hw']; subst; (eapply (IH _ Hin); [by apply Hr| |done]).
    + apply within_here. set_solver.
    + eapply within_below; [|done]. set_solver.
  - intros H. exists tt. rewrite check_children_ok, check_misnesting_ok. split.
    + intros c. apply (H (Node s es cs o)), within_here. set_solver.
    + intros m Hm. rewrite Forall_forall in IH. apply (IH m Hm). intros p c Hp. apply H.
      eapply within_below; [by apply list_elem_of_singleton|]. inversion Hp as [? ? Hin|m' ? ? Hin Hw]; subst.
      * apply list_elem_of_singleton in Hin as ->. by apply within_here.
      * apply list_elem_of_singleton in Hin as ->. by eapply within_below.
Qed.

(** A document is accepted exactly when no node below another, at any depth,
    is one that belongs to the top level, the vhost references of a listener
    excepted. *)
Theorem check_misnesting_exact doc :
  check_misnesting doc = Ok tt ↔
  ∀ p c, within p doc → c ∈ nodes p → name c ∈ TOP_LEVEL_ONLY → name p = "listener" ∧ name c = "vhost".
Proof.
  rewrite check_misnesting_ok. transitivity (∀ p c, within p doc → c ∈ nodes p →
    misplaced (name p) (name c) = false).
  - setoid_rewrite check_node_ok. split.
    + intros H p c Hp. inversion Hp as [? ? Hin|m ? ? Hin Hw]; subst; (apply (H _ Hin));
        [apply within_here; set_solver|eapply within_below; [|done]; set_solver].
    + intros H n Hn p c Hp. apply H. inversion Hp as [? ? Hin|m ? ? Hin Hw]; subst;
        apply list_elem_of_singleton in Hin as ->; [by apply within_here|by eapply within_below].
  - apply forall_proper; intros p. apply forall_proper; intros c. unfold misplaced.
    destruct (String.eqb_spec (name p) "listener"), (String.eqb_spec (name c) "vhost"); cbn;
      rewrite ?bool_decide_eq_false; naive_solver.
Qed.

End misnesting.

End Kdl.
