(* ===== verification/ParseRules.v ===== *)
(** The rule blocks of the configuration: policies
    ([src/config/parse/policy.rs]), request matchers
    ([src/config/parse/matcher.rs]) and variables
    ([src/config/parse/vars.rs]), read from the document into the data of the
    components that run them.

    Parameters are the parsing of an address or network by [std] and [ipnet],
    the Unicode upper-casing of [std], and [Method::from_bytes]. *)
From S2P Require Import Prelude RustStr Net Http Template Vars Auth Access Matcher Router Kdl.

Module ParseRules.
Import Kdl.

Section rules.
Context {float : Type} `{!Kdl float} `{IpNets} `{Http} `{Regex}.
Context (net_parse : string → option ip_net) (to_uppercase : string → string)
  (method_from_bytes : string → option string).
Abbreviation node := (KdlNode float) (only parsing).

(** * Policies *)

Definition build_simple_predicate (pred_type : string) (values : list string) (tcp_only : bool)
    : Result Access.Predicate :=
  if String.eqb pred_type "address" then
    if decide (values = []) then Err "address requires an argument"
    else nets ← try_map (λ s, ok_or (net_parse s) "invalid IP address or CIDR") values;
         Ok (Access.Address nets)
  else if String.eqb pred_type "country" then
    if decide (values = []) then Err "country requires an argument"
    else Ok (Access.PCountry (to_uppercase <$> values))
  else if String.eqb pred_type "user" then
    if tcp_only then Err "user predicates are not supported in stream policies"
    else if decide (values = []) then Err "user requires an argument"
    else Ok (Access.User values)
  else if String.eqb pred_type "group" then
    if tcp_only then Err "group predicates are not supported in stream policies"
    else if decide (values = []) then Err "group requires an argument"
    else Ok (Access.Group values)
  else if String.eqb pred_type "authenticated" then
    if tcp_only then Err "authenticated predicates are not supported in stream policies"
    else Ok Access.PAuthenticated
  else Err "unknown predicate type".

(** The two forms of [not]: a negated simple predicate. *)
Definition build_negated (pred_type : string) (values : list string) (tcp_only : bool)
    : Result Access.Predicate :=
  inner ← build_simple_predicate pred_type values tcp_only;
  if tcp_only && Access.needs_auth inner then Err "identity predicates are not supported"
  else Ok (Access.Not inner).

(** The arguments of a statement, of which there is at least one. *)
Definition parse_inline_predicate (arg0 : string) (rest : list string) (tcp_only : bool)
    : Result Access.Predicate :=
  if String.eqb arg0 "not" then
    match rest with
    | [] => Err "not requires a predicate type"
    | t :: values => build_negated t values tcp_only
    end
  else build_simple_predicate arg0 rest tcp_only.

Definition parse_predicate_node (n : node) (tcp_only : bool) : Result Access.Predicate :=
  let values := arg_strs n in
  if String.eqb (name n) "not" then
    match values with
    | [] => Err "not requires a predicate type"
    | t :: values => build_negated t values tcp_only
    end
  else build_simple_predicate (name n) values tcp_only.

Definition parse_predicate (n : node) (tcp_only : bool) : Result (option Access.Predicate) :=
  match arg_strs n, nodes n with
  | _ :: _, _ :: _ => Err "cannot have both an inline predicate and a child block"
  | a :: rest, [] => p ← parse_inline_predicate a rest tcp_only; Ok (Some p)
  | [], (_ :: _) as conds =>
      preds ← try_map (λ c, parse_predicate_node c tcp_only) conds;
      Ok (Some match preds with [p] => p | _ => Access.And preds end)
  | [], [] => Ok None
  end.

(** [child.get(key).and_then(as_integer).map(|n| n as u16)]: here the 128-bit
    integer is narrowed at once. *)
Definition code_prop (n : node) (default_code : N) : N :=
  default default_code (as_u 16 <$> (get_prop (entries n) "code" ≫= as_integer)).

Definition parse_action (n : node) : Result Access.PolicyAction :=
  if String.eqb (name n) "allow" then Ok Access.PAllow
  else if String.eqb (name n) "deny" then Ok (Access.PDeny (code_prop n 403))
  else if String.eqb (name n) "redirect" then
    to ← ok_or (prop_str n "to") "redirect requires a to property";
    Ok (Access.PRedirect to (code_prop n 302))
  else Err "unknown policy statement".

Definition parse_statement (tcp_only : bool) (n : node) : Result Router.PolicyRuleDef :=
  if String.eqb (name n) "apply" then
    policy ← ok_or (arg_str n 0) "apply requires a policy name";
    Ok (Router.DApply policy)
  else
    action ← parse_action n;
    predicate ← parse_predicate n tcp_only;
    Ok (Router.DRule predicate action).

Definition parse_policy_statements (n : node) (tcp_only : bool) : Result (list Router.PolicyRuleDef) :=
  try_map (parse_statement tcp_only) (nodes n).

(** * Matchers *)

(** [for x in l { check(x)?; }]. *)
Definition check_all {A} (p : A → bool) (tag : string) (l : list A) : Result unit :=
  if forallb p l then Ok tt else Err tag.

Definition some {A} (o : option A) : bool := bool_decide (is_Some o).

Definition header_value_ok (v : string) : bool :=
  match strip_prefix "~" v with Some re => some (regex_new re) | None => true end.

(** The arguments after the first. *)
Definition later_strs (n : node) : list string := omap as_string (drop 1 (args (entries n))).

Fixpoint parse_match_predicate (n : node) : Result Matcher.MatchPredicateConfig :=
  if String.eqb (name n) "method" then
    let methods := arg_strs n in
    if decide (methods = []) then Err "method requires at least one method name"
    else _ ← check_all (λ m, some (method_from_bytes m)) "match invalid method" methods;
         Ok (Matcher.CMethod methods)
  else if String.eqb (name n) "header" then
    header ← req_arg_str n 0;
    _ ← ok_or (hn_from_bytes header) "match invalid header name";
    let values := later_strs n in
    if decide (values = []) then Err "header requires at least one value"
    else _ ← check_all header_value_ok "match invalid regex" values;
         Ok (Matcher.CHeader header values)
  else if String.eqb (name n) "header-absent" then
    header ← req_arg_str n 0;
    _ ← ok_or (hn_from_bytes header) "match invalid header name";
    Ok (Matcher.CHeaderAbsent header)
  else if String.eqb (name n) "query" then
    qname ← req_arg_str n 0;
    let values := later_strs n in
    if decide (values = []) then Err "query requires at least one value"
    else Ok (Matcher.CQuery qname values)
  else if String.eqb (name n) "path" then
    let patterns := arg_strs n in
    if decide (patterns = []) then Err "path requires at least one regex"
    else _ ← check_all (λ p, some (regex_new p)) "match invalid path regex" patterns;
         Ok (Matcher.CPath patterns)
  else if String.eqb (name n) "not" then
    inner ← match n with
            | Node _ _ (Some cs) _ =>
                (fix all (cs : list node) : Result (list Matcher.MatchPredicateConfig) :=
                   match cs with
                   | [] => Ok []
                   | c :: cs' => p ← parse_match_predicate c; ps ← all cs'; Ok (p :: ps)
                   end) cs
            | Node _ _ None _ => Ok []
            end;
    if decide (inner = []) then Err "empty not block" else Ok (Matcher.CNot inner)
  else Err "unknown match predicate".

Definition parse_match_predicate_list (n : node) : Result (list Matcher.MatchPredicateConfig) :=
  try_map parse_match_predicate (nodes n).

Definition parse_matcher (n : node) : Result (list Matcher.MatchPredicateConfig) :=
  predicates ← parse_match_predicate_list n;
  if decide (predicates = []) then Err "empty match block" else Ok predicates.

(** * Variables *)

Context (src : string).

Definition parse_arm (n : node) : Result Vars.VariableArm :=
  match arg_strs n with
  | [value] =>
      if existsb (λ e, some (e_name e)) (entries n) then Err "match arm does not accept properties"
      else if some (children n) then Err "match arm does not accept a child block"
      else Ok {| Vars.arm_pattern := if String.eqb (name n) "_" then None else Some (name n);
                 Vars.arm_text := value;
                 Vars.arm_line := node_line src n |}
  | _ => Err "match arm takes exactly one value argument"
  end.

Definition parse_match (n : node) : Result Vars.VariableBody :=
  input ← req_arg_str n 0;
  if decide (nodes n = []) then Err "match requires at least one arm"
  else arms ← try_map parse_arm (nodes n); Ok (Vars.MatchOn input arms).

Definition parse_variable (n : node) : Result Vars.VariableDef :=
  var_name ← ok_or (arg_str n 0) "variable requires a name argument";
  body ← match arg_str n 1, nodes n with
         | Some _, _ :: _ => Err "cannot have both a value argument and a child block"
         | Some c, [] => Ok (Vars.Constant c)
         | None, [] => Err "requires a value argument or a match child block"
         | None, cs =>
             if forallb (named "match") cs then
               match cs with
               | [m] => parse_match m
               | _ => Err "must contain exactly one match block"
               end
             else Err "unknown node in variable"
         end;
  Ok {| Vars.def_name := var_name; Vars.def_body := body; Vars.def_line := node_line src n |}.

(** * Stream policies *)

Lemma simple_stream t vs p : build_simple_predicate t vs true = Ok p → Access.needs_auth p = false.
Proof.
  unfold build_simple_predicate. repeat case_match; try done; [|by intros [= <-]].
  by intros (nets & _ & [= <-])%bind_Ok.
Qed.

Lemma negated_stream t vs p : build_negated t vs true = Ok p → Access.needs_auth p = false.
Proof.
  intros (q & Hq & Hp)%bind_Ok. apply simple_stream in Hq. rewrite Hq in Hp. cbn in Hp.
  by simplify_eq.
Qed.

Lemma predicate_node_stream n p : parse_predicate_node n true = Ok p → Access.needs_auth p = false.
Proof.
  unfold parse_predicate_node. repeat case_match; try done; [apply negated_stream|apply simple_stream].
Qed.

Lemma and_needs_auth ps : Forall (λ p, Access.needs_auth p = false) ps → Access.needs_auth (Access.And ps) = false.
Proof. cbn. induction 1 as [|p ps Hp _ IH]; cbn; [done|]. by rewrite Hp. Qed.

Lemma predicate_stream n p : parse_predicate n true = Ok (Some p) → Access.needs_auth p = false.
Proof.
  unfold parse_predicate, parse_inline_predicate. destruct (arg_strs n) as [|a rest], (nodes n) as [|c cs]; try done.
  - intros (ps & Hps & Hp)%bind_Ok. apply try_map_Ok in Hps.
    assert (Forall (λ p, Access.needs_auth p = false) ps) as Hall.
    { eapply Forall2_Forall_r; [exact Hps|]. apply Forall_true. intros c'. apply predicate_node_stream. }
    destruct ps as [|q [|q' ps]]; simplify_eq; [done| |by apply and_needs_auth].
    by apply Forall_cons in Hall as [? _].
  - intros (q & Hq & [= <-])%bind_Ok. repeat case_match; try done;
      [by eapply negated_stream|by eapply simple_stream].
Qed.

(** The rules written out in a list of statements. *)
Definition rules_of (ds : list Router.PolicyRuleDef) : list Access.PolicyRule :=
  omap (λ d, match d with
             | Router.DRule p a => Some {| Access.rule_predicate := p; Access.rule_action := a |}
             | Router.DApply _ => None
             end) ds.

Lemma stream_rules_no_auth n ds :
  parse_policy_statements n true = Ok ds → existsb Access.rule_needs_auth (rules_of ds) = false.
Proof.
  intros Hds. apply try_map_Ok in Hds. induction Hds as [|c d cs ds Hd _ IH]; [done|].
  unfold parse_statement in Hd. destruct (String.eqb (name c) "apply").
  - apply bind_Ok in Hd as (pol & _ & [= <-]). exact IH.
  - apply bind_Ok in Hd as (a & _ & Hd). apply bind_Ok in Hd as (p & Hp & [= <-]).
    cbn. fold (rules_of ds). rewrite IH. unfold Access.rule_needs_auth. cbn.
    destruct p as [p|]; [|done]. by rewrite (predicate_stream _ _ Hp).
Qed.

(** * Matchers compile *)

Lemma check_all_Ok {A} (p : A → bool) tag l u : check_all p tag l = Ok u → Forall (λ x, p x = true) l.
Proof.
  unfold check_all. destruct (forallb p l) eqn:E; [|done]. intros _. apply Forall_forall.
  intros x Hx%list_elem_of_In. rewrite forallb_forall in E. auto.
Qed.

Lemma some_true {A} (o : option A) : some o = true ↔ is_Some o.
Proof. apply bool_decide_eq_true. Qed.

Lemma try_map_total {A B} (f : A → Result B) l :
  Forall (λ x, ∃ y, f x = Ok y) l → ∃ ys, try_map f l = Ok ys ∧ length ys = length l.
Proof.
  induction 1 as [|x l [y Hy] _ (ys & Hys & Hlen)]; [by exists []|].
  exists (y :: ys). cbn. rewrite Hy. cbn. rewrite Hys. cbn. split; [done|]. by f_equal.
Qed.

Lemma ok_or_total {A} (o : option A) tag : is_Some o → ∃ x, ok_or o tag = Ok x.
Proof. intros [x ->]. by exists x. Qed.

Definition compiles (c : Matcher.MatchPredicateConfig) : Prop :=
  ∃ m, Matcher.compile_predicate method_from_bytes c = Ok m.

Lemma parse_match_predicate_not n :
  name n = "not" →
  parse_match_predicate n =
    (inner ← parse_match_predicate_list n;
     if decide (inner = []) then Err "empty not block" else Ok (Matcher.CNot inner)).
Proof.
  destruct n as [s es cs o]; cbn [name]; intros ->. unfold parse_match_predicate_list, nodes.
  cbn [children parse_match_predicate name].
  repeat change (String.eqb "not" _) with false at 1. change (String.eqb "not" "not") with true. cbv iota. f_equal.
  destruct cs as [cs|]; [|done]. change (default [] (Some cs)) with cs. by induction cs as [|c cs IH]; cbn; [|rewrite <- IH].
Qed.

Lemma compile_not inner :
  Matcher.compile_predicate method_from_bytes (Matcher.CNot inner) =
  (ps ← Matcher.compile_predicates method_from_bytes inner; Ok (Matcher.MNot ps)).
Proof.
  cbn. f_equal. unfold Matcher.compile_predicates. by induction inner as [|c inner IH]; cbn; [|rewrite <- IH].
Qed.

Lemma compiles_method ms :
  Forall (λ m, some (method_from_bytes m) = true) ms → compiles (Matcher.CMethod ms).
Proof.
  intros Hms. destruct (try_map_total (λ m, ok_or (method_from_bytes m) "matcher invalid method") ms)
    as (xs & Hxs & _).
  { eapply Forall_impl; [exact Hms|]. intros m Hm. by apply ok_or_total, some_true. }
  eexists. cbn. by rewrite Hxs.
Qed.

Lemma compiles_path ps : Forall (λ p, some (regex_new p) = true) ps → compiles (Matcher.CPath ps).
Proof.
  intros Hps. destruct (try_map_total (λ p, ok_or (regex_new p) "matcher invalid path regex") ps)
    as (xs & Hxs & _).
  { eapply Forall_impl; [exact Hps|]. intros m Hm. by apply ok_or_total, some_true. }
  eexists. cbn. by rewrite Hxs.
Qed.

Lemma compiles_header h x tag vs :
  ok_or (hn_from_bytes h) tag = Ok x → Forall (λ v, header_value_ok v = true) vs →
  compiles (Matcher.CHeader h vs).
Proof.
  intros Hh Hvs. destruct (try_map_total Matcher.compile_header_value vs) as (xs & Hxs & _).
  { eapply Forall_impl; [exact Hvs|]. intros v. unfold header_value_ok, Matcher.compile_header_value.
    destruct (strip_prefix "~" v); [|eauto]. intros [re ->]%some_true. eauto. }
  destruct (hn_from_bytes h) eqn:E; [|done]. eexists. cbn. rewrite E. cbn. by rewrite Hxs.
Qed.

Lemma compiles_absent h x tag : ok_or (hn_from_bytes h) tag = Ok x → compiles (Matcher.CHeaderAbsent h).
Proof. destruct (hn_from_bytes h) eqn:E; [|done]. eexists. cbn. by rewrite E. Qed.

Lemma parsed_predicate_compiles n c : parse_match_predicate n = Ok c → compiles c.
Proof.
  revert c. induction n as [s es cs o IH] using KdlNode_nested. intros c.
  destruct (String.eqb_spec s "not") as [->|Hn].
  - rewrite parse_match_predicate_not by done. intros (inner & Hin & Hc)%bind_Ok.
    case_decide; simplify_eq. unfold compiles. rewrite compile_not.
    destruct (try_map_total (Matcher.compile_predicate method_from_bytes) inner) as (ps & Hps & _).
    { apply try_map_Ok in Hin. eapply Forall2_Forall_r; [exact Hin|]. cbn.
      eapply Forall_impl; [exact IH|]. cbn. intros x Hx y. apply Hx. }
    exists (Matcher.MNot ps). unfold Matcher.compile_predicates. by rewrite Hps.
  - cbn [parse_match_predicate name]. apply String.eqb_neq in Hn. rewrite Hn. repeat case_match; try done;
      repeat first [intros (? & ?%check_all_Ok & Hc)%bind_Ok; revert Hc
                   |intros (? & ? & Hc)%bind_Ok; revert Hc
                   |case_decide; [done|]]; intros [= <-].
    + by apply compiles_method.
    + by eapply compiles_header.
    + by eapply compiles_absent.
    + by eexists.
    + by apply compiles_path.
Qed.

(** A matcher the parser accepts compiles: no request header name, method or
    regular expression in it, at any depth of negation, is refused when the
    router is built, and it has at least one predicate, so it never matches
    every request by being empty. *)
Theorem parsed_matcher_compiles n cs :
  parse_matcher n = Ok cs →
  ∃ ms, Matcher.compile_predicates method_from_bytes cs = Ok ms ∧ ms ≠ [] ∧ length ms = length (nodes n).
Proof.
  intros (cs' & Hcs & Hne)%bind_Ok. case_decide; simplify_eq.
  apply try_map_Ok in Hcs. destruct (try_map_total (Matcher.compile_predicate method_from_bytes) cs)
    as (ms & Hms & Hlen).
  { eapply Forall2_Forall_r; [exact Hcs|]. apply Forall_true. intros x c. apply parsed_predicate_compiles. }
  exists ms. split_and!; [done| |by rewrite Hlen; symmetry; eapply Forall2_length].
  intros ->. by destruct cs.
Qed.

(** The identity of the client plays no part in the policy of a stream
    listener that is written out in place: whatever the authenticator would
    answer, it is not asked, and the decision is the same. *)
Theorem stream_policy_anonymous n ds b :
  parse_policy_statements n true = Ok ds → Access.pb_rules b = rules_of ds →
  ∀ auth auth' peer country,
    let run a := Access.evaluate b a (Access.new_context peer country) in
    Access.ec_calls (run auth).2 = 0%nat ∧ (run auth).1 = (run auth').1.
Proof.
  intros Hds Hb auth auth' peer country run. apply stream_rules_no_auth in Hds. rewrite <- Hb in Hds.
  unfold run, Access.evaluate. rewrite !Access.evaluate_from_no_auth by (done || apply Access.new_context_lazy).
  split; [done|]. by apply Access.decide_rules_principal.
Qed.

(** * Variables round trip *)

Definition str_arg (s : string) : KdlEntry float := {| e_name := None; e_value := VString s |}.

(** A variable written as a node, at the offsets [off] gives. *)
Definition arm_node (off : nat) (a : Vars.VariableArm) : node :=
  Node (default "_" (Vars.arm_pattern a)) [str_arg (Vars.arm_text a)] None off.

Definition variable_node (off : nat) (arm_off : nat → nat) (d : Vars.VariableDef) : node :=
  match Vars.def_body d with
  | Vars.Constant c => Node "variable" [str_arg (Vars.def_name d); str_arg c] None off
  | Vars.MatchOn input arms =>
      Node "variable" [str_arg (Vars.def_name d)]
        (Some [Node "match" [str_arg input] (Some (imap (λ i, arm_node (arm_off i)) arms)) off]) off
  end.

(** A definition with the lines the text of those offsets has. *)
Record at_lines (off : nat) (arm_off : nat → nat) (d : Vars.VariableDef) : Prop := {
  al_line : Vars.def_line d = line_of_offset src off;
  al_arms : match Vars.def_body d with
            | Vars.Constant _ => True
            | Vars.MatchOn _ arms =>
                arms ≠ [] ∧ ∀ i a, arms !! i = Some a →
                  Vars.arm_line a = line_of_offset src (arm_off i) ∧ Vars.arm_pattern a ≠ Some "_"
            end;
}.

Lemma arg_str_cons s es nm c o : arg_str (Node nm (str_arg s :: es) c o) 0 = Some s.
Proof. unfold arg_str. by rewrite get_arg_spec. Qed.

Lemma parse_arm_node off a :
  Vars.arm_line a = line_of_offset src off → Vars.arm_pattern a ≠ Some "_" →
  parse_arm (arm_node off a) = Ok a.
Proof.
  destruct a as [[p|] t l]; unfold parse_arm, arm_node, node_line; cbn; intros -> Hp; [|done].
  destruct (String.eqb_spec p "_") as [->|]; done.
Qed.

Lemma parse_match_node off arm_off input arms :
  arms ≠ [] →
  (∀ i a, arms !! i = Some a →
     Vars.arm_line a = line_of_offset src (arm_off i) ∧ Vars.arm_pattern a ≠ Some "_") →
  parse_match (Node "match" [str_arg input] (Some (imap (λ i, arm_node (arm_off i)) arms)) off)
    = Ok (Vars.MatchOn input arms).
Proof.
  intros Hne Ha. unfold parse_match, req_arg_str. rewrite arg_str_cons. cbn [ok_or mbind result_bind].
  change (nodes _) with (imap (λ i, arm_node (arm_off i)) arms).
  rewrite decide_False by (intros E; apply Hne; by destruct arms).
  assert (try_map parse_arm (imap (λ i, arm_node (arm_off i)) arms) = Ok arms) as ->; [|done].
  apply try_map_Ok, Forall2_same_length_lookup. rewrite length_imap. split; [done|].
  intros i x y. rewrite list_lookup_imap. intros (a & Hi & ->)%fmap_Some Hy. rewrite Hi in Hy. injection Hy as <-.
  destruct (Ha i a Hi). by apply parse_arm_node.
Qed.

(** Every variable, a constant or a match with at least one arm, can be
    written, and the parser reads it back. *)
Theorem variable_roundtrip off arm_off d :
  at_lines off arm_off d → parse_variable (variable_node off arm_off d) = Ok d.
Proof.
  destruct d as [nm body line]. intros [Hl Ha]. cbn in Hl, Ha. subst line.
  unfold parse_variable, variable_node. destruct body as [c|input arms]; cbn [Vars.def_body Vars.def_name].
  - rewrite arg_str_cons. cbn. unfold arg_str. rewrite get_arg_spec. done.
  - destruct Ha as [Hne Ha]. pose proof (parse_match_node off arm_off input arms Hne Ha) as Hm.
    set (m := Node "match" _ _ _) in *. rewrite arg_str_cons. cbn [ok_or mbind result_bind].
    assert (arg_str (Node "variable" [str_arg nm] (Some [m]) off) 1 = None) as ->
      by (unfold arg_str; rewrite get_arg_spec; done).
    change (nodes _) with [m]. change (forallb (named "match") [m]) with true. cbv iota. by rewrite Hm.
Qed.

End rules.

(** * Examples *)

Module Demo.

Definition no_src : string := "".
Definition arg (s : string) : KdlEntry unit := {| e_name := None; e_value := VString s |}.
Definition leaf (nm : string) (es : list (KdlEntry unit)) : KdlNode unit := Node nm es None 0.
Definition block (nm : string) (es : list (KdlEntry unit)) (cs : list (KdlNode unit)) : KdlNode unit :=
  Node nm es (Some cs) 0.

(** Networks as single addresses in decimal. *)
#[local] Instance one_host : IpNets :=
  {| ip_net := N; net_contains n a := match a with V4 b | V6 b => N.eqb n b end |}.
Definition net_of (s : string) : option (@ip_net one_host) := parse_uint u32_max s.

(** [policy { allow "address" "10"; deny }] *)
Definition office : KdlNode unit := block "policy" [] [leaf "allow" [arg "address"; arg "10"]; leaf "deny" []].

Definition office_rules : list Router.PolicyRuleDef :=
  [Router.DRule (Some (Access.Address [10])) Access.PAllow; Router.DRule None (Access.PDeny 403)].

Lemma stream_policy_anonymous_witness :
  let run a := Access.evaluate (Access.new_block (rules_of office_rules)) a (Access.new_context (V4 10) None) in
  let ann _ := Auth.Authenticated {| Auth.id_username := "ann"; Auth.id_groups := [] |} in
  Access.ec_calls (run ann).2 = 0%nat ∧ (run ann).1 = (run (λ _, Auth.Anonymous)).1.
Proof. apply (stream_policy_anonymous net_of id office office_rules); reflexivity. Defined.

(** A named policy that asks for a user passes into a stream policy through
    [apply]: the check of the parser sees the name only, and the policy is
    refused when the listener is built. *)
Definition staff : KdlNode unit := block "policy" [arg "staff"] [leaf "allow" [arg "user"; arg "ann"]].
Definition gate : KdlNode unit := block "policy" [] [leaf "apply" [arg "staff"]].

Lemma applied_identity_in_stream :
  parse_policy_statements net_of id staff true = Err "user predicates are not supported in stream policies" ∧
  parse_policy_statements net_of id gate true = Ok [Router.DApply "staff"] ∧
  ∃ ds, parse_policy_statements net_of id staff false = Ok ds ∧
    existsb Access.rule_needs_auth (rules_of ds) = true.
Proof. split_and!; [reflexivity..|]. eexists. split; reflexivity. Qed.

(** [match { method "GET"; not { path "/a" } }] *)
Definition get_only : KdlNode unit :=
  block "match" [] [leaf "method" [arg "GET"]; block "not" [] [leaf "path" [arg "/a"]]].

Lemma parsed_matcher_compiles_witness :
  ∃ ms, Matcher.compile_predicates Some [Matcher.CMethod ["GET"]; Matcher.CNot [Matcher.CPath ["/a"]]] = Ok ms ∧
    ms ≠ [] ∧ length ms = 2%nat.
Proof. apply (parsed_matcher_compiles Some get_only). reflexivity. Defined.

Definition colour : Vars.VariableDef :=
  {| Vars.def_name := "colour";
     Vars.def_body := Vars.MatchOn "{host}"
       [{| Vars.arm_pattern := Some "^a"; Vars.arm_text := "red"; Vars.arm_line := 1 |};
        {| Vars.arm_pattern := None; Vars.arm_text := "blue"; Vars.arm_line := 1 |}];
     Vars.def_line := 1 |}.

Lemma variable_roundtrip_witness :
  parse_variable no_src (variable_node (float := unit) 0 (λ _, 0%nat) colour) = Ok colour.
Proof.
  apply (variable_roundtrip no_src 0 (λ _, 0%nat) colour). split; [reflexivity|].
  split; [done|]. intros [|[|i]] a [= <-]; split; done.
Defined.

End Demo.

End ParseRules.
