(* ===== verification/ParseTls.v ===== *)
(** The TLS side of the configuration ([src/config/parse/tls.rs],
    [src/config/types_tls.rs]): certificate sources, client certificates,
    OCSP stapling, ACME challenges and DNS providers. *)
From S2P Require Import Prelude RustStr Kdl.

Module ParseTls.
Import Kdl.

(** * Data *)

Record OcspConfig := {
  ocsp_enabled : bool;
  fetch_timeout_secs : N;
  min_refresh_secs : N;
  failure_backoff_secs : N;
}.

Definition ocsp_default : OcspConfig :=
  {| ocsp_enabled := true; fetch_timeout_secs := 10; min_refresh_secs := 3600; failure_backoff_secs := 300 |}.

Inductive MtlsMode := Required | Optional.

Record MtlsConfig := {
  cas : list string;
  mode : MtlsMode;
  crls : list string;
  crl_refresh_secs : N;
}.

Inductive ChallengeKind := Http01 | Dns01 | TlsAlpn01.

#[global] Instance ChallengeKind_eq_dec : EqDecision ChallengeKind.
Proof. solve_decision. Defined.

Inductive DnsProviderConfig :=
  | AcmeDns (api_url username password subdomain : string)
  | Cloudflare (zone_id api_token : string)
  | Exec (program : string) (argv : list string).

Record AcmeConfig := {
  domains : list string;
  acme_name : option string;
  email : option string;
  staging : bool;
  acme_server : option string;
  retry_interval_secs : N;
  challenge : ChallengeKind;
  dns_provider : option DnsProviderConfig;
}.

Inductive TlsConfig :=
  | Files (cert key : string)
  | SelfSigned
  | Acme (a : AcmeConfig)
  | Ref (cert_name : string).

Inductive TlsVersion := Tls12 | Tls13.

Record TlsOptions := {
  min_version : option TlsVersion;
  ciphers : list string;
}.

Definition options_default : TlsOptions := {| min_version := None; ciphers := [] |}.

(** [TlsOptions::resolve]: what a listener leaves open comes from the server. *)
Definition resolve (o defaults : TlsOptions) : TlsOptions :=
  {| min_version := match min_version o with Some v => Some v | None => min_version defaults end;
     ciphers := if decide (ciphers o = []) then ciphers defaults else ciphers o |}.

Record TlsListenerConfig := {
  cert : TlsConfig;
  options : TlsOptions;
  mtls : option MtlsConfig;
  ocsp : OcspConfig;
}.

Record CertificateDef := {
  cd_name : string;
  cd_source : TlsConfig;
  cd_line : nat;
}.

(** * Parsing *)

Section tls.
Context {float : Type} `{!Kdl float} (src : string).
Abbreviation node := (KdlNode float) (only parsing).

Definition parse_tls_version (s : string) : Result TlsVersion :=
  if String.eqb s "1.2" then Ok Tls12
  else if String.eqb s "1.3" then Ok Tls13
  else Err "unknown TLS version".

Definition parse_tls_options (n : node) : Result TlsOptions :=
  v ← opt_try parse_tls_version (prop_str n "min-version");
  Ok {| min_version := v; ciphers := repeated_strs n "cipher" |}.

Definition need (n : node) (key : string) : Result string := ok_or (prop_str n key) "dns-provider requires a property".

Definition parse_dns_provider (parent : node) : Result (option DnsProviderConfig) :=
  match find_child parent "dns-provider" with
  | None => Ok None
  | Some n =>
      kind ← req_arg_str n 0;
      cfg ← (if String.eqb kind "acme-dns" then
               api_url ← need n "api-url"; username ← need n "username";
               password ← need n "password"; subdomain ← need n "subdomain";
               Ok (AcmeDns api_url username password subdomain)
             else if String.eqb kind "cloudflare" then
               zone_id ← need n "zone-id"; api_token ← need n "api-token";
               Ok (Cloudflare zone_id api_token)
             else if String.eqb kind "exec" then
               program ← need n "program"; Ok (Exec program (repeated_strs n "arg"))
             else Err "unknown dns-provider");
      Ok (Some cfg)
  end.

Definition parse_challenge (o : option string) : Result ChallengeKind :=
  match o with
  | None => Ok Http01
  | Some s =>
      if String.eqb s "http-01" then Ok Http01
      else if String.eqb s "dns-01" then Ok Dns01
      else if String.eqb s "tls-alpn-01" then Ok TlsAlpn01
      else Err "unknown challenge"
  end.

Definition parse_tls_acme (n : node) : Result AcmeConfig :=
  let ds := repeated_strs n "domain" in
  if decide (ds = []) then Err "acme requires at least one domain"
  else
    ch ← parse_challenge (prop_str n "challenge");
    dns ← parse_dns_provider n;
    if bool_decide (ch = Dns01) && negb (bool_decide (is_Some dns)) then Err "dns-01 requires a dns-provider"
    else if negb (bool_decide (ch = Dns01)) && bool_decide (is_Some dns) then
      Err "dns-provider is only valid with dns-01"
    else if negb (bool_decide (ch = Dns01)) && existsb (starts_with "*.") ds then
      Err "wildcards require dns-01"
    else Ok {| domains := ds; acme_name := prop_str n "name"; email := prop_str n "email";
               staging := default false (prop_bool n "staging"); acme_server := prop_str n "server";
               retry_interval_secs := default 3600 (prop_u 64 n "retry-interval");
               challenge := ch; dns_provider := dns |}.

(** A positive property: [default] when it is absent. *)
Definition positive (n : node) (key : string) (default_value : N) : Result N :=
  match prop_i64 n key with
  | Some z => if (z <=? 0)%Z then Err "must be positive" else Ok (as_u 64 z)
  | None => Ok default_value
  end.

Definition parse_ocsp (n : node) : Result OcspConfig :=
  timeout ← positive n "ocsp-timeout" (fetch_timeout_secs ocsp_default);
  refresh ← positive n "ocsp-min-refresh" (min_refresh_secs ocsp_default);
  backoff ← positive n "ocsp-failure-backoff" (failure_backoff_secs ocsp_default);
  Ok {| ocsp_enabled := default (ocsp_enabled ocsp_default) (prop_bool n "ocsp");
        fetch_timeout_secs := timeout; min_refresh_secs := refresh; failure_backoff_secs := backoff |}.

Definition parse_mtls (parent : node) : Result (option MtlsConfig) :=
  match find_child parent "mtls" with
  | None => Ok None
  | Some n =>
      let cas := repeated_strs n "ca" in
      if decide (cas = []) then Err "mtls requires at least one ca"
      else
        mode ← (let m := default "required" (prop_str n "mode") in
                if String.eqb m "required" then Ok Required
                else if String.eqb m "optional" then Ok Optional
                else Err "unknown mtls mode");
        refresh ← match prop_i64 n "refresh" with
                  | Some z => if (z <? 0)%Z then Err "mtls refresh must be >= 0" else Ok (as_u 64 z)
                  | None => Ok 0
                  end;
        Ok (Some {| cas := cas; mode := mode; crls := repeated_strs n "revocation";
                    crl_refresh_secs := refresh |})
  end.

Definition self_signed_forbids : list string := ["cert"; "key"; "name"; "domain"; "email"; "staging"].

Definition parse_tls_node (n : node) (allow_ref : bool) : Result TlsListenerConfig :=
  kind ← req_arg_str n 0;
  cert ← (if String.eqb kind "files" then
            c ← ok_or (prop_str n "cert") "tls files requires cert";
            k ← ok_or (prop_str n "key") "tls files requires key";
            Ok (Files c k)
          else if String.eqb kind "self-signed" then
            if existsb (λ f, has_prop n f || bool_decide (is_Some (find_child n f))) self_signed_forbids
            then Err "tls self-signed has no such attribute"
            else Ok SelfSigned
          else if String.eqb kind "acme" then a ← parse_tls_acme n; Ok (Acme a)
          else if String.eqb kind "ref" then
            if allow_ref then r ← ok_or (prop_str n "name") "tls ref requires name"; Ok (Ref r)
            else Err "tls ref is only valid on a listener"
          else Err "unknown tls kind");
  options ← parse_tls_options n;
  mtls ← parse_mtls n;
  ocsp ← parse_ocsp n;
  Ok {| cert := cert; options := options; mtls := mtls; ocsp := ocsp |}.

(** The only [tls] child of a block, if there is one. *)
Definition parse_listener_tls (children : list node) : Result (option TlsListenerConfig) :=
  match List.filter (named "tls") children with
  | [] => Ok None
  | [n] => t ← parse_tls_node n true; Ok (Some t)
  | _ => Err "at most one tls node per listener"
  end.

Definition parse_certificate (n : node) : Result CertificateDef :=
  cert_name ← req_arg_str n 0;
  match filter_children n "tls" with
  | [] => Err "certificate has no tls child"
  | [t] =>
      parsed ← parse_tls_node t false;
      Ok {| cd_name := cert_name; cd_source := cert parsed; cd_line := node_line src n |}
  | _ => Err "certificate has more than one tls child"
  end.

(** * What a parsed certificate source is *)

(** A source that can be obtained: an order has a domain, a wildcard is
    validated over DNS, and a DNS provider is there exactly for that. *)
Definition source_ok (c : TlsConfig) : Prop :=
  match c with
  | Acme a =>
      domains a ≠ [] ∧
      (challenge a = Dns01 ↔ is_Some (dns_provider a)) ∧
      ((∃ d, d ∈ domains a ∧ starts_with "*." d = true) → challenge a = Dns01)
  | _ => True
  end.

Definition is_ref (c : TlsConfig) : bool := match c with Ref _ => true | _ => false end.

Lemma parse_tls_acme_ok n a : parse_tls_acme n = Ok a → source_ok (Acme a).
Proof.
  unfold parse_tls_acme. case_decide as Hd; [done|].
  intros (ch & _ & H1)%bind_Ok. apply bind_Ok in H1 as (dns & _ & H1). revert H1.
  repeat case_bool_decide; cbn; try done;
    try (destruct (existsb _ _) eqn:Ew; [done|]); intros [= <-]; cbn; split_and!; try naive_solver.
  - intros (d & Hd' & Hw). exfalso. apply not_true_iff_false in Ew. apply Ew, existsb_exists.
    exists d. split; [by apply list_elem_of_In|done].
Qed.

Lemma parse_tls_node_ok n allow_ref t :
  parse_tls_node n allow_ref = Ok t →
  source_ok (cert t) ∧ (allow_ref = false → is_ref (cert t) = false) ∧
  (∀ m, mtls t = Some m → cas m ≠ []).
Proof.
  intros (kind & _ & H1)%bind_Ok. apply bind_Ok in H1 as (c & Hc & H1).
  apply bind_Ok in H1 as (o & _ & H1). apply bind_Ok in H1 as (m & Hm & H1).
  apply bind_Ok in H1 as (oc & _ & [= <-]). cbn. split_and!.
  - revert Hc. repeat case_match; try done; intros Hy; repeat (apply bind_Ok in Hy as (? & ? & Hy)); simplify_eq; try done.
    by eapply parse_tls_acme_ok.
  - intros ->. revert Hc. repeat case_match; try done; intros Hy; repeat (apply bind_Ok in Hy as (? & ? & Hy)); by simplify_eq.
  - intros x ->. revert Hm. unfold parse_mtls. destruct (find_child n "mtls"); [|done].
    case_decide as Hd; [done|]. intros Hy. repeat (apply bind_Ok in Hy as (? & ? & Hy)). by simplify_eq.
Qed.

End tls.

End ParseTls.
