(* ===== verification/ParseAuth.v ===== *)
(** The authentication back-end of the configuration
    ([src/config/parse/auth.rs], [src/config/types_auth.rs]).

    The file holding a client secret is read through the parameter
    [read_to_string]. *)
From S2P Require Import Prelude RustStr Utf8 Http Auth Jwt Oidc Kdl.

Module ParseAuth.
Import Kdl.

Record FileAuthConfig := {
  fa_path : string;
  fa_cache_ttl_secs : N;
}.

Inductive AuthBackend :=
  | Pam (service : string)
  | Ldap (cfg : Auth.LdapAuthConfig)
  | File (cfg : FileAuthConfig)
  | Subrequest (cfg : Auth.SubrequestAuthConfig)
  | Jwt (cookie_name : string) (validity_secs : N) (inner : option AuthBackend)
  | Oidc (cfg : Oidc.OidcConfig).

(** [s.split(sep).next()]: the text before the first separator. *)
Fixpoint before (sep s : string) : string :=
  if starts_with sep s then ""
  else match s with "" => "" | String c s' => String c (before sep s') end.

Section auth.
Context {float : Type} `{!Kdl float} (read_to_string : string → option string).
Abbreviation node := (KdlNode float) (only parsing).

Definition req_prop (n : node) (prefix key : string) : Result string :=
  ok_or (prop_str n (prefix +:+ key)) "required property is missing".

Definition parse_pam (n : node) (prefix : string) : Result AuthBackend :=
  Ok (Pam (default "login" (prop_str n (prefix +:+ "service")))).

Definition parse_ldap (n : node) (prefix : string) : Result AuthBackend :=
  url ← req_prop n prefix "url";
  bind_dn ← req_prop n prefix "bind-dn";
  base_dn ← req_prop n prefix "base-dn";
  if negb (bool_decide (before "://" url ∈ ["ldap"; "ldaps"; "ldapi"])) then Err "ldap url scheme"
  else if negb (contains_str "{user}" bind_dn) then Err "bind-dn must contain the {user} placeholder"
  else Ok (Ldap {| Auth.ld_url := url; Auth.ld_bind_dn := bind_dn; Auth.ld_base_dn := base_dn;
                   Auth.ld_group_filter :=
                     default "(memberUid={user})" (prop_str n (prefix +:+ "group-filter"));
                   Auth.ld_group_attr := default "cn" (prop_str n (prefix +:+ "group-attr"));
                   Auth.ld_starttls := default false (prop_bool n (prefix +:+ "starttls"));
                   Auth.ld_timeout_secs := default 5 (prop_u 64 n (prefix +:+ "timeout")) |}).

Definition parse_file (n : node) (prefix : string) : Result AuthBackend :=
  path ← req_prop n prefix "path";
  Ok (File {| fa_path := path; fa_cache_ttl_secs := default 60 (prop_u 64 n (prefix +:+ "cache")) |}).

Definition parse_subrequest (n : node) (prefix : string) : Result AuthBackend :=
  url ← req_prop n prefix "url";
  if negb (starts_with "http://" url) then Err "subrequest url must use http://"
  else Ok (Subrequest {| Auth.sc_url := url;
                         Auth.sc_forward_headers := repeated_strs n (prefix +:+ "forward-header");
                         Auth.sc_user_header := prop_str n (prefix +:+ "user-header");
                         Auth.sc_groups_header := prop_str n (prefix +:+ "groups-header");
                         Auth.sc_timeout_secs := default 5 (prop_u 64 n (prefix +:+ "timeout")) |}).

(** ** OpenID Connect *)

Definition parse_client_secret (n : node) (prefix : string) : Result (option string) :=
  match prop_str n (prefix +:+ "client-secret-file") with
  | Some path => s ← ok_or (read_to_string path) "reading client-secret-file"; Ok (Some (utrim s))
  | None => Ok (prop_str n (prefix +:+ "client-secret"))
  end.

Definition issuer_ok (issuer : string) : bool :=
  starts_with "https://" issuer || starts_with "http://localhost" issuer
  || starts_with "http://127.0.0.1" issuer.

(** The scopes asked for: [openid] is always one. *)
Definition base_scopes (given : list string) : list string :=
  if decide (given = []) then ["openid"; "profile"; "email"]
  else if bool_decide ("openid" ∈ given) then given
  else "openid" :: given.

Definition with_offline (refresh : bool) (scopes : list string) : list string :=
  if refresh && negb (bool_decide ("offline_access" ∈ scopes)) then scopes ++ ["offline_access"] else scopes.

Definition resource_ok (r : string) : bool :=
  bool_decide (before "://" r ∈ ["https"; "http"]) && negb (contains_char "#" r).

Definition routes (cfg : Oidc.OidcConfig) : list string :=
  [Oidc.login_path cfg; Oidc.callback_path cfg; Oidc.logout_path cfg; Oidc.backchannel_logout_path cfg].

(** The record read from the node, before its checks. *)
Definition read_oidc (n : node) (prefix issuer client_id redirect_uri : string) (secret : option string)
    : Oidc.OidcConfig :=
  let str key d := default d (prop_str n (prefix +:+ key)) in
  let flag key d := default d (prop_bool n (prefix +:+ key)) in
  let secs key d := default d (prop_u 64 n (prefix +:+ key)) in
  let refresh := flag "refresh" false in
  {| Oidc.issuer := issuer; Oidc.client_id := client_id; Oidc.client_secret := secret;
     Oidc.redirect_uri := redirect_uri;
     Oidc.scopes := with_offline refresh (base_scopes (repeated_strs n (prefix +:+ "scope")));
     Oidc.username_claim := str "username-claim" "sub";
     Oidc.groups_claim := str "groups-claim" "groups";
     Oidc.login_path := str "login-path" "/oidc/login";
     Oidc.callback_path := str "callback-path" "/oidc/callback";
     Oidc.state_ttl_secs := secs "state-ttl" 600;
     Oidc.cfg_refresh := refresh;
     Oidc.refresh_ttl_secs := secs "refresh-ttl" 86400;
     Oidc.refresh_cookie_name := str "refresh-cookie" "__hypershunt_oidc_refresh";
     Oidc.logout_path := str "logout-path" "/oidc/logout";
     Oidc.post_logout_uri := str "post-logout-uri" "/";
     Oidc.idp_logout := flag "idp-logout" true;
     Oidc.userinfo := flag "userinfo" false;
     Oidc.discovery_refresh_secs := secs "discovery-refresh" 3600;
     Oidc.discovery_retry := flag "discovery-retry" true;
     Oidc.backchannel_logout_enabled := flag "backchannel-logout" true;
     Oidc.backchannel_logout_path := str "backchannel-logout-path" "/oidc/backchannel-logout";
     Oidc.backchannel_max_iat_skew_secs := secs "backchannel-max-iat-skew" 120;
     Oidc.backchannel_jti_ttl_secs := secs "backchannel-jti-ttl" 300;
     Oidc.bearer := flag "bearer" false;
     Oidc.bearer_audiences := repeated_strs n (prefix +:+ "bearer-audience");
     Oidc.bearer_cache_size :=
       default 1024 ((λ z, Z.to_N (Z.max z 1)) <$> prop_i64 n (prefix +:+ "bearer-cache-size"));
     Oidc.revoke_on_logout := flag "revoke-on-logout" true;
     Oidc.require_iss := flag "require-iss" false;
     Oidc.resources := repeated_strs n (prefix +:+ "resource") |}.

Definition parse_oidc (n : node) (prefix : string) : Result AuthBackend :=
  issuer ← req_prop n prefix "issuer";
  client_id ← req_prop n prefix "client-id";
  redirect_uri ← req_prop n prefix "redirect-uri";
  secret ← parse_client_secret n prefix;
  let cfg := read_oidc n prefix issuer client_id redirect_uri secret in
  if negb (issuer_ok issuer) then Err "issuer must be https://"
  else if Oidc.bearer cfg && bool_decide (Oidc.bearer_audiences cfg = []) then
    Err "bearer requires at least one bearer-audience"
  else if negb (forallb resource_ok (Oidc.resources cfg)) then Err "resource must use http and no fragment"
  else if negb (forallb (starts_with "/") (routes cfg)) then Err "path must be absolute"
  else if negb (bool_decide (NoDup (routes cfg))) then Err "paths must differ"
  else if negb (starts_with "/" (Oidc.post_logout_uri cfg)) || starts_with "//" (Oidc.post_logout_uri cfg) then
    Err "post-logout-uri must be a same-origin absolute path"
  else Ok (Oidc cfg).

(** ** Sessions and the choice of a back-end *)

Definition parse_inner (n : node) (kind : string) : Result AuthBackend :=
  if String.eqb kind "pam" then parse_pam n "pam-"
  else if String.eqb kind "ldap" then parse_ldap n "ldap-"
  else if String.eqb kind "file" then parse_file n "file-"
  else if String.eqb kind "subrequest" then parse_subrequest n "subrequest-"
  else if String.eqb kind "oidc" then parse_oidc n "oidc-"
  else if String.eqb kind "jwt" then Err "jwt cannot wrap another jwt"
  else Err "unknown backend".

Definition parse_jwt (n : node) : Result AuthBackend :=
  inner ← opt_try (parse_inner n) (prop_str n "backend");
  Ok (Jwt (default "hypershunt_session" (prop_str n "cookie-name")) (default 300 (prop_u 64 n "validity")) inner).

Definition parse_auth_backend (n : node) : Result AuthBackend :=
  let kind := default "" (arg_str n 0) in
  if String.eqb kind "pam" then parse_pam n ""
  else if String.eqb kind "ldap" then parse_ldap n ""
  else if String.eqb kind "file" then parse_file n ""
  else if String.eqb kind "subrequest" then parse_subrequest n ""
  else if String.eqb kind "jwt" then parse_jwt n
  else if String.eqb kind "oidc" then Err "standalone oidc is not supported"
  else Err "unknown auth backend".

(** * What a parsed back-end is *)

(** The promises the OpenID Connect component relies on. *)
Record oidc_ok (cfg : Oidc.OidcConfig) : Prop := {
  ok_issuer : issuer_ok (Oidc.issuer cfg) = true;
  ok_openid : "openid" ∈ Oidc.scopes cfg;
  ok_offline : Oidc.cfg_refresh cfg = true → "offline_access" ∈ Oidc.scopes cfg;
  ok_audience : Oidc.bearer cfg = true → Oidc.bearer_audiences cfg ≠ [];
  ok_routes : NoDup (routes cfg);
  ok_absolute : ∀ p, p ∈ routes cfg → ∃ r, p = "/" +:+ r;
  ok_logout : (∃ r, Oidc.post_logout_uri cfg = "/" +:+ r) ∧ ∀ r, Oidc.post_logout_uri cfg ≠ "//" +:+ r;
  ok_cache : 1 ≤ Oidc.bearer_cache_size cfg;
}.

(** A back-end as the server can build it: single sign-on only behind a
    session, and a session around anything but another one. *)
Fixpoint backend_ok (wrapped : bool) (b : AuthBackend) : Prop :=
  match b with
  | Pam _ | File _ => True
  | Ldap cfg => contains_str "{user}" (Auth.ld_bind_dn cfg) = true
  | Subrequest cfg => ∃ r, Auth.sc_url cfg = "http://" +:+ r
  | Jwt _ _ inner => wrapped = false ∧ match inner with Some b => backend_ok true b | None => True end
  | Oidc cfg => wrapped = true ∧ oidc_ok cfg
  end.

Lemma base_scopes_openid l : "openid" ∈ base_scopes l.
Proof. unfold base_scopes. case_decide; [set_solver|]. case_bool_decide; set_solver. Qed.

Lemma with_offline_in r l s : s ∈ l → s ∈ with_offline r l.
Proof. unfold with_offline. destruct (_ && _); set_solver. Qed.

Lemma with_offline_refresh l : "offline_access" ∈ with_offline true l.
Proof. unfold with_offline. cbn. case_bool_decide; set_solver. Qed.

Lemma parse_oidc_ok n prefix b : parse_oidc n prefix = Ok b → backend_ok true b.
Proof.
  intros (issuer & _ & H1)%bind_Ok. apply bind_Ok in H1 as (cid & _ & H1).
  apply bind_Ok in H1 as (uri & _ & H1). apply bind_Ok in H1 as (secret & _ & H1). revert H1. cbv zeta.
  set (cfg := read_oidc _ _ _ _ _ _).
  destruct (issuer_ok issuer) eqn:Hi; cbn [negb]; [|done].
  destruct (Oidc.bearer cfg && _) eqn:Hb; [done|].
  destruct (negb (forallb resource_ok _)); [done|].
  destruct (forallb (starts_with "/") (routes cfg)) eqn:Ha; cbn [negb]; [|done].
  destruct (bool_decide (NoDup (routes cfg))) eqn:Hn; cbn [negb]; [|done].
  destruct (_ || _) eqn:Hl; [done|]. intros [= <-]. cbn. split; [done|].
  apply orb_false_iff in Hl as [Hl1%negb_false_iff Hl2]. split; try done.
  - apply with_offline_in, base_scopes_openid.
  - cbn. intros ->. apply with_offline_refresh.
  - intros E. rewrite E in Hb. by apply bool_decide_eq_false in Hb.
  - by apply bool_decide_eq_true in Hn.
  - intros p Hp%list_elem_of_In. rewrite forallb_forall in Ha. by apply starts_with_true, Ha.
  - split; [by apply starts_with_true|]. intros r E. apply not_true_iff_false in Hl2. apply Hl2, starts_with_true.
    by exists r.
  - cbn. destruct (prop_i64 n _) as [z|]; cbn; lia.
Qed.

Lemma parse_simple_ok n prefix w b :
  parse_pam n prefix = Ok b ∨ parse_ldap n prefix = Ok b ∨ parse_file n prefix = Ok b ∨
  parse_subrequest n prefix = Ok b → backend_ok w b.
Proof.
  intros [Hp|[Hp|[Hp|Hp]]].
  - injection Hp as <-. done.
  - repeat (apply bind_Ok in Hp as (? & ? & Hp)). revert Hp. repeat case_match; try done. intros [= <-]. cbn.
    by apply negb_false_iff.
  - repeat (apply bind_Ok in Hp as (? & ? & Hp)). by injection Hp as <-.
  - repeat (apply bind_Ok in Hp as (? & ? & Hp)). revert Hp. case_match; [done|]. intros [= <-]. cbn.
    by apply starts_with_true, negb_false_iff.
Qed.

(** A back-end the parser accepts can be built and keeps the promises of its
    kind: sessions do not nest, single sign-on is behind a session, its four
    endpoints are absolute and distinct, it asks for [openid] and, with
    refresh, for [offline_access], it does not accept bearer tokens of every
    audience, and after logout the browser stays on the site. *)
Theorem parsed_backend_ok n b : parse_auth_backend n = Ok b → backend_ok false b.
Proof.
  unfold parse_auth_backend. repeat case_match; try done; intros Hb;
    try (eapply parse_simple_ok; naive_solver). apply bind_Ok in Hb as (inner & Hi & [= <-]). cbn. split; [done|].
  destruct (prop_str n "backend") as [kind|]; cbn in Hi; [|by simplify_eq].
  apply bind_Ok in Hi as (b & Hb & [= <-]). unfold parse_inner in Hb.
  repeat case_match; try done; try (eapply parse_simple_ok; naive_solver). by eapply parse_oidc_ok.
Qed.

End auth.

Module Demo.

Definition arg (s : string) : KdlEntry unit := {| e_name := None; e_value := VString s |}.
Definition prop (k s : string) : KdlEntry unit := {| e_name := Some k; e_value := VString s |}.
Definition num (k : string) (z : Z) : KdlEntry unit := {| e_name := Some k; e_value := VInteger z |}.

(** [auth "jwt" backend="oidc" oidc-issuer=... oidc-client-id=... ...] *)
Definition sso (more : list (KdlEntry unit)) : KdlNode unit :=
  Node "auth" ([arg "jwt"; prop "backend" "oidc"; prop "oidc-issuer" "https://idp/"; prop "oidc-client-id" "app";
    prop "oidc-redirect-uri" "https://app/oidc/callback"] ++ more) None 0.

Definition sso_config : AuthBackend :=
  match parse_auth_backend (λ _, None) (sso []) with Ok b => b | Err _ => Pam "" end.

Lemma parsed_backend_ok_witness : backend_ok false sso_config.
Proof. apply (parsed_backend_ok (λ _, None) (sso [])). reflexivity. Defined.

(** Nothing relates the memory for seen logout tokens to the accepted clock
    skew, which the replay protection needs to be less than half of it. *)
Lemma short_jti_window_accepted :
  match parse_auth_backend (λ _, None) (sso [num "oidc-backchannel-max-iat-skew" 400]) with
  | Ok (Jwt _ _ (Some (Oidc cfg))) =>
      Oidc.backchannel_jti_ttl_secs cfg = 300 ∧ Oidc.backchannel_max_iat_skew_secs cfg = 400
  | _ => False
  end.
Proof. done. Qed.

(** A negative number of seconds is read as a huge one. *)
Lemma negative_ttl_wraps :
  match parse_auth_backend (λ _, None) (sso [num "oidc-state-ttl" (-1)]) with
  | Ok (Jwt _ _ (Some (Oidc cfg))) => Oidc.state_ttl_secs cfg = u64_max
  | _ => False
  end.
Proof. done. Qed.

End Demo.

End ParseAuth.
