(* ===== verification/ParseHandler.v ===== *)
(** The handler of a location as the configuration writes it
    ([src/config/parse/handler.rs]), read into the data of the handlers that
    run it, and the construction of the small handlers from it
    ([build_handler] of [src/handler/mod.rs]).

    A path is its text; [parent] is [Path::parent] of a path without [.]
    components. *)
From S2P Require Import Prelude RustStr Http Errors Template Vars LoadBalancer ProxyProto StaticFiles ProxyRequest Proxy Auth Respond Kdl.

Module ParseHandler.
Import Kdl.

(** * Data *)

Record StaticConfig := {
  st_root : option string;
  st_index_files : list string;
  st_strip_prefix : bool;
  st_try_files : list string;
  st_directory_listing : bool;
  st_fallback_redirect : option string;
  st_userdir : option string;
  st_userdir_allowlist : list string;
  st_userdir_min_uid : N;
}.

Record GrpcConfig := {
  keepalive_interval_secs : option N;
  keepalive_timeout_secs : option N;
  keepalive_while_idle : bool;
}.

Record ProxyHandlerConfig := {
  px_upstreams : list Lb.UpstreamConfig;
  px_lb_policy : Lb.LbPolicy;
  px_lb_hash_header : option string;
  px_group_by : option string;
  px_active_health : option Lb.ActiveHealthConfig;
  px_passive_health : Lb.PassiveHealthConfig;
  px_retry : Proxy.RetryConfig;
  px_strip_prefix : bool;
  px_proxy_protocol : option ProxyProto.ProxyProtocolVersion;
  px_scheme : Proxy.ProxyUpstreamScheme;
  px_pool_idle_timeout_secs : option N;
  px_pool_max_idle : option N;
  px_skip_verify : option bool;
  px_grpc : option GrpcConfig;
  px_connect_timeout_secs : option N;
}.

Inductive RespondBody :=
  | REmpty
  | RInline (text : string)
  | RFile (path : string).

Inductive HandlerConfig :=
  | CStatic (cfg : StaticConfig)
  | CProxy (cfg : ProxyHandlerConfig)
  | CRedirect (to : string) (code : N)
  | CRespond (status : N) (body : RespondBody) (content_type : option string)
  | CFastCgi (socket root : string) (index : option string)
  | CScgi (socket root : string) (index : option string)
  | CCgi (root : string)
  | CStatus
  | CMetrics
  | CAuthRequest.

(** * Paths *)

Definition is_slash (c : ascii) : bool := Ascii.eqb "/" c.

Definition parent (p : string) : option string :=
  let q := trim_end_by is_slash p in
  if is_empty q then None
  else
    let dir := trim_end_by is_slash (join "/" (removelast (split "/" q))) in
    Some (if is_empty dir && starts_with "/" q then "/" else dir).

Definition resolve_config_relative (config path : string) : string :=
  if starts_with "/" path || is_empty config then path
  else match parent config with
       | Some dir => if is_empty dir then path else StaticFiles.path_join dir path
       | None => path
       end.

Example config_dir_examples :
  resolve_config_relative "/etc/hypershunt.kdl" "/var/x.html" = "/var/x.html" ∧
  resolve_config_relative "/etc/hypershunt.kdl" "maint.html" = "/etc/maint.html" ∧
  resolve_config_relative "/etc/hs/site.kdl" "pages/503.html" = "/etc/hs/pages/503.html" ∧
  resolve_config_relative "" "maint.html" = "maint.html" ∧
  resolve_config_relative "hypershunt.kdl" "maint.html" = "maint.html".
Proof. done. Qed.

(** * Parsing *)

Section handler.
Context {float : Type} `{!Kdl float} `{Http}.
(** The path of the configuration file. *)
Context (config : string).
Abbreviation node := (KdlNode float) (only parsing).

Definition parse_proxy_protocol (v : string) : Result ProxyProto.ProxyProtocolVersion :=
  if String.eqb v "v1" then Ok ProxyProto.V1
  else if String.eqb v "v2" then Ok ProxyProto.V2
  else Err "unknown proxy-protocol".

Definition parse_socket_handler (n : node) : Result (string * string * option string) :=
  socket ← ok_or (prop_str n "socket") "handler requires socket";
  let socket := match strip_prefix "unix-stream:" socket with
                | Some path => "unix:" +:+ path
                | None => socket
                end in
  root ← ok_or (prop_str n "root") "handler requires root";
  Ok (socket, root, prop_str n "index").

Definition parse_static (n : node) : Result HandlerConfig :=
  let root := prop_str n "root" in
  let userdir := prop_str n "userdir" in
  match root, userdir with
  | None, None => Err "static handler requires root or userdir"
  | Some _, Some _ => Err "static handler cannot set both root and userdir"
  | _, _ =>
      let allowlist := repeated_strs n "userdir-allowlist" in
      if bool_decide (userdir = None)
         && (negb (bool_decide (allowlist = [])) || bool_decide (is_Some (prop_i64 n "userdir-min-uid")))
      then Err "userdir options are only valid with userdir"
      else
        let index_files := repeated_strs n "index-file" in
        Ok (CStatic {| st_root := root;
                       st_index_files := if decide (index_files = []) then ["index.html"; "index.htm"]
                                         else index_files;
                       st_strip_prefix := default false (prop_bool n "strip-prefix");
                       st_try_files := repeated_strs n "try-files";
                       st_directory_listing := default false (prop_bool n "directory-listing");
                       st_fallback_redirect := prop_str n "fallback-redirect";
                       st_userdir := userdir;
                       st_userdir_allowlist := allowlist;
                       st_userdir_min_uid := default 1000 (prop_u 32 n "userdir-min-uid") |})
  end.

(** ** Reverse proxies *)

Definition parse_upstream (n : node) : Result Lb.UpstreamConfig :=
  url ← req_arg_str n 0;
  let weight := default 1 (as_u 32 <$> (get_prop (entries n) "weight" ≫= as_integer)) in
  let group := prop_str n "group" in
  if decide (group = Some "") then Err "upstream group must not be empty"
  else Ok {| Lb.uc_url := url; Lb.uc_weight := weight; Lb.uc_group := group |}.

Definition all_urls (scheme : string) (us : list Lb.UpstreamConfig) : bool :=
  forallb (λ u, starts_with scheme (Lb.uc_url u)) us.

Definition parse_scheme (us : list Lb.UpstreamConfig) (o : option string) : Result Proxy.ProxyUpstreamScheme :=
  match o with
  | None => Ok Proxy.Auto
  | Some s =>
      if String.eqb s "" || String.eqb s "auto" then Ok Proxy.Auto
      else if String.eqb s "h3" || String.eqb s "http3" then
        if all_urls "https://" us then Ok Proxy.H3 else Err "h3 requires an https:// upstream"
      else if String.eqb s "h2c" then
        if all_urls "http://" us then Ok Proxy.H2c else Err "h2c requires an http:// upstream"
      else Err "unknown proxy scheme"
  end.

(** [skip_verify] of the upstream TLS block, when there is one. *)
Definition parse_upstream_tls (n : node) (us : list Lb.UpstreamConfig) : Result (option bool) :=
  opt_try (λ t, let skip := default false (prop_bool t "skip-verify") in
                if skip && negb (all_urls "https://" us) then Err "tls skip-verify is only meaningful for https://"
                else Ok skip) (find_child n "tls").

Definition lb_policy_of (s : string) : Result Lb.LbPolicy :=
  if String.eqb s "" || String.eqb s "round-robin" then Ok Lb.RoundRobin
  else if String.eqb s "least-conn" then Ok Lb.LeastConn
  else if String.eqb s "random" then Ok Lb.Random
  else if String.eqb s "ip-hash" then Ok Lb.IpHash
  else if String.eqb s "header-hash" then Ok Lb.HeaderHash
  else Err "unknown lb-policy".

Definition parse_lb_policy (n : node) : Result (Lb.LbPolicy * option string) :=
  match find_child n "lb-policy" with
  | None => Ok (Lb.RoundRobin, None)
  | Some l =>
      policy ← lb_policy_of (default "" (arg_str l 0));
      let header := prop_str l "header" in
      if bool_decide (policy = Lb.HeaderHash) && default true (is_empty <$> header) then
        Err "header-hash requires header"
      else if negb (bool_decide (policy = Lb.HeaderHash)) && bool_decide (is_Some header) then
        Err "header is only valid with header-hash"
      else Ok (policy, header)
  end.

Definition parse_group_by (n : node) (us : list Lb.UpstreamConfig) : Result (option string) :=
  opt_try (λ g, t ← req_arg_str g 0;
                if forallb (λ u, bool_decide (Lb.uc_group u = None)) us then
                  Err "group-by requires a labelled upstream"
                else Ok t) (find_child n "group-by").

Definition parse_active_health (n : node) : option Lb.ActiveHealthConfig :=
  (λ hc, {| Lb.probe_path := default "/" (prop_str hc "path");
            Lb.interval_secs := default 10 (prop_u 64 hc "interval");
            Lb.timeout_secs := default 2 (prop_u 64 hc "timeout");
            Lb.expect_status := default 200 (prop_u 16 hc "expect-status");
            Lb.unhealthy_after := default 2 (prop_u 32 hc "unhealthy-after");
            Lb.healthy_after := default 1 (prop_u 32 hc "healthy-after") |})
    <$> find_child n "active-health".

Definition parse_passive_health (n : node) : Lb.PassiveHealthConfig :=
  match find_child n "passive-health" with
  | None => Lb.passive_default
  | Some ph => {| Lb.eject_after := default u32_max (prop_u 32 ph "eject-after");
                  Lb.eject_for_secs := default 30 (prop_u 64 ph "eject-for") |}
  end.

Definition parse_retry (n : node) : Result Proxy.RetryConfig :=
  match find_child n "retry" with
  | None => Ok {| Proxy.retry_max := 0; Proxy.on_status := [] |}
  | Some r =>
      let max := default 0 (prop_u 32 r "max") in
      let on_status := omap (λ c, as_u 16 <$> (head (entries c) ≫= λ e, as_integer (e_value e)))
                         (filter_children r "on-status") in
      if (0 <? max) && bool_decide (on_status = []) then Err "retry requires on-status"
      else Ok {| Proxy.retry_max := max; Proxy.on_status := on_status |}
  end.

(** The keep-alive properties of a node, checked. *)
Definition parse_keepalive (n : node) : Result (option N * option N) :=
  let interval := prop_u 64 n "keepalive-interval" in
  let timeout := prop_u 64 n "keepalive-timeout" in
  if bool_decide (is_Some timeout) && bool_decide (interval = None) then
    Err "keepalive-timeout requires keepalive-interval"
  else if bool_decide (interval = Some 0) then Err "keepalive-interval must be greater than zero"
  else Ok (interval, timeout).

Definition parse_grpc (n : node) : Result (option GrpcConfig) :=
  match find_child n "grpc" with
  | None => Ok None
  | Some g =>
      on ← match get_arg (entries g) 0 with
           | None => Ok true
           | Some v => ok_or (as_bool v) "grpc takes an optional boolean"
           end;
      if on : bool then
        '(interval, timeout) ← parse_keepalive g;
        Ok (Some {| keepalive_interval_secs := interval; keepalive_timeout_secs := timeout;
                    keepalive_while_idle := default false (prop_bool g "keepalive-while-idle") |})
      else Ok None
  end.

Definition parse_proxy (n : node) : Result HandlerConfig :=
  us ← try_map parse_upstream (filter_children n "upstream");
  if decide (us = []) then Err "proxy handler requires at least one upstream"
  else
    pp ← opt_try parse_proxy_protocol (prop_str n "proxy-protocol");
    scheme ← parse_scheme us (prop_str n "scheme");
    tls ← parse_upstream_tls n us;
    lb ← parse_lb_policy n;
    group_by ← parse_group_by n us;
    retry ← parse_retry n;
    grpc ← parse_grpc n;
    if bool_decide (is_Some grpc) && (0 <? Proxy.retry_max retry) then Err "grpc cannot be combined with retry"
    else if bool_decide (is_Some grpc) && bool_decide (is_Some pp) then
      Err "grpc cannot be combined with proxy-protocol"
    else if bool_decide (is_Some grpc) && bool_decide (scheme = Proxy.H3) then
      Err "grpc cannot be combined with h3"
    else Ok (CProxy {| px_upstreams := us; px_lb_policy := lb.1; px_lb_hash_header := lb.2;
                       px_group_by := group_by; px_active_health := parse_active_health n;
                       px_passive_health := parse_passive_health n; px_retry := retry;
                       px_strip_prefix := default false (prop_bool n "strip-prefix");
                       px_proxy_protocol := pp; px_scheme := scheme;
                       px_pool_idle_timeout_secs := prop_u 64 n "pool-idle-timeout";
                       px_pool_max_idle := prop_u 32 n "pool-max-idle";
                       px_skip_verify := tls; px_grpc := grpc;
                       px_connect_timeout_secs := prop_u 64 n "connect-timeout" |}).

(** ** Redirects and canned responses *)

Definition parse_redirect (n : node) : Result HandlerConfig :=
  to ← ok_or (prop_str n "to") "redirect handler requires to";
  Ok (CRedirect to (default 301 (prop_u 16 n "code"))).

Definition parse_respond (n : node) : Result HandlerConfig :=
  status ← match prop_i64 n "status" with
           | Some z => if (100 <=? z)%Z && (z <=? 599)%Z then Ok (as_u 16 z)
                       else Err "respond status must be 100-599"
           | None => Ok 200
           end;
  body ← match prop_str n "body", prop_str n "file" with
         | Some _, Some _ => Err "respond accepts only one of body or file"
         | Some b, None => Ok (RInline b)
         | None, Some f => Ok (RFile (resolve_config_relative config f))
         | None, None => Ok REmpty
         end;
  content_type ← opt_try (λ ct, _ ← ok_or (hv_from_str ct) "content-type is not a valid header value"; Ok ct)
                   (prop_str n "content-type");
  Ok (CRespond status body content_type).

Definition parse_handler (n : node) : Result HandlerConfig :=
  let kind := name n in
  if String.eqb kind "static" then parse_static n
  else if String.eqb kind "proxy" then parse_proxy n
  else if String.eqb kind "redirect" then parse_redirect n
  else if String.eqb kind "respond" then parse_respond n
  else if String.eqb kind "fastcgi" then '(s, r, i) ← parse_socket_handler n; Ok (CFastCgi s r i)
  else if String.eqb kind "scgi" then '(s, r, i) ← parse_socket_handler n; Ok (CScgi s r i)
  else if String.eqb kind "cgi" then root ← ok_or (prop_str n "root") "cgi requires root"; Ok (CCgi root)
  else if String.eqb kind "status" then Ok CStatus
  else if String.eqb kind "metrics" then Ok CMetrics
  else if String.eqb kind "auth-request" then Ok CAuthRequest
  else Err "unknown handler".

(** * What a parsed handler is *)

(** A proxy the server can run: a pool that is not empty, transports that fit
    the URLs, a hash header exactly for the policy that hashes one, a group
    template only over labelled upstreams, retries with the statuses that
    trigger them, and gRPC only where nothing buffers or downgrades it. *)
Record proxy_ok (c : ProxyHandlerConfig) : Prop := {
  po_upstreams : px_upstreams c ≠ [];
  po_groups : Forall (λ u, Lb.uc_group u ≠ Some "") (px_upstreams c);
  po_h3 : px_scheme c = Proxy.H3 → all_urls "https://" (px_upstreams c) = true;
  po_h2c : px_scheme c = Proxy.H2c → all_urls "http://" (px_upstreams c) = true;
  po_skip : px_skip_verify c = Some true → all_urls "https://" (px_upstreams c) = true;
  po_hash : px_lb_policy c = Lb.HeaderHash ↔ ∃ h, px_lb_hash_header c = Some h ∧ h ≠ "";
  po_no_hash : px_lb_policy c ≠ Lb.HeaderHash → px_lb_hash_header c = None;
  po_group_by : is_Some (px_group_by c) → ∃ u, u ∈ px_upstreams c ∧ is_Some (Lb.uc_group u);
  po_retry : 0 < Proxy.retry_max (px_retry c) → Proxy.on_status (px_retry c) ≠ [];
  po_grpc : is_Some (px_grpc c) →
    Proxy.max_attempts (px_retry c) = 1 ∧ px_proxy_protocol c = None ∧ px_scheme c ≠ Proxy.H3;
}.

Definition config_ok (h : HandlerConfig) : Prop :=
  match h with
  | CStatic c =>
      (is_Some (st_root c) ↔ st_userdir c = None) ∧ st_index_files c ≠ [] ∧
      (st_userdir c = None → st_userdir_allowlist c = [])
  | CProxy c => proxy_ok c
  | CRespond status _ ct => 100 ≤ status ≤ 599 ∧ ∀ t, ct = Some t → is_Some (hv_from_str t)
  | CFastCgi socket _ _ | CScgi socket _ _ => strip_prefix "unix-stream:" socket = None
  | _ => True
  end.

Lemma scheme_ok us o sch :
  parse_scheme us o = Ok sch →
  (sch = Proxy.H3 → all_urls "https://" us = true) ∧ (sch = Proxy.H2c → all_urls "http://" us = true).
Proof. destruct o as [s|]; cbn; [|by intros [= <-]]. repeat case_match; try done; by intros [= <-]. Qed.

Lemma lb_policy_ok n pol hdr :
  parse_lb_policy n = Ok (pol, hdr) →
  (pol = Lb.HeaderHash ↔ ∃ h, hdr = Some h ∧ h ≠ "") ∧ (pol ≠ Lb.HeaderHash → hdr = None).
Proof.
  unfold parse_lb_policy. destruct (find_child n "lb-policy") as [l|].
  - intros (p & _ & Hp)%bind_Ok. revert Hp. case_bool_decide as Hh; cbn [negb andb].
    + destruct (prop_str l "header") as [h|]; cbn; [|done]. destruct (is_empty h) eqn:He; [done|].
      intros [= <- <-]. split; [|done]. split; [|done]. intros _. exists h. split; [done|]. by intros ->.
    + case_bool_decide as Hs; [done|]. intros [= <- <-]. apply eq_None_not_Some in Hs. rewrite Hs.
      split; [|done]. split; [done|]. by intros (? & ? & _).
  - intros [= <- <-]. split; [|done]. split; [done|]. by intros (? & ? & _).
Qed.

Lemma retry_ok n r : parse_retry n = Ok r → 0 < Proxy.retry_max r → Proxy.on_status r ≠ [].
Proof.
  unfold parse_retry. destruct (find_child n "retry") as [c|]; [|intros [= <-]; cbn; lia].
  destruct (N.ltb_spec 0 (default 0 (prop_u 32 c "max"))); cbn [andb].
  - case_bool_decide; [done|]. by intros [= <-].
  - intros [= <-]. cbn. lia.
Qed.

Lemma opt_try_Some {A B} (f : A → Result B) o b : opt_try f o = Ok (Some b) → ∃ a, o = Some a ∧ f a = Ok b.
Proof. destruct o as [a|]; cbn; [|done]. intros (b' & Hb & [= <-])%bind_Ok. eauto. Qed.

Lemma forallb_false {A} (p : A → bool) l : forallb p l = false → ∃ x, x ∈ l ∧ p x = false.
Proof.
  induction l as [|x l IH]; cbn; [done|]. destruct (p x) eqn:E; cbn; [|exists x; set_solver].
  intros (y & Hy & ?)%IH. exists y. set_solver.
Qed.

Lemma parse_proxy_ok n h : parse_proxy n = Ok h → config_ok h.
Proof.
  intros (us & Hus & H1)%bind_Ok. case_decide as Hne; [done|].
  apply bind_Ok in H1 as (pp & _ & H1). apply bind_Ok in H1 as (sch & [Hh3 Hh2]%scheme_ok & H1).
  apply bind_Ok in H1 as (tls & Htls & H1). apply bind_Ok in H1 as ([pol hdr] & [Hlb Hlb']%lb_policy_ok & H1).
  apply bind_Ok in H1 as (gb & Hgb & H1). apply bind_Ok in H1 as (rt & Hrt & H1).
  apply bind_Ok in H1 as (grpc & _ & H1). revert H1.
  destruct (_ && (0 <? _)) eqn:E1; [done|]. destruct (_ && bool_decide (is_Some pp)) eqn:E2; [done|].
  destruct (_ && bool_decide (sch = _)) eqn:E3; [done|]. intros [= <-]. split; cbn; try done.
  - apply try_map_Ok in Hus. eapply Forall2_Forall_r; [exact Hus|]. apply Forall_true. intros c u Hu.
    apply bind_Ok in Hu as (url & _ & Hu). revert Hu. cbv zeta.
    destruct (decide (prop_str c "group" = Some "")); [done|]. by intros [= <-].
  - intros ->. apply opt_try_Some in Htls as (t & _ & Ht). revert Ht.
    cbv zeta. fold (all_urls "https://" us). destruct (all_urls "https://" us); [done|]. by destruct (default false _).
  - intros [t ->]. apply opt_try_Some in Hgb as (g & _ & Hg). apply bind_Ok in Hg as (t' & _ & Hg).
    destruct (forallb _ us) eqn:Ef; [done|]. apply forallb_false in Ef as (u & Hu & Hf).
    exists u. split; [done|]. apply bool_decide_eq_false in Hf. by destruct (Lb.uc_group u); [eauto|].
  - by eapply retry_ok.
  - intros Hg. rewrite bool_decide_true in E1, E2, E3 by done. cbn in E1, E2, E3.
    apply N.ltb_ge in E1. apply bool_decide_eq_false, eq_None_not_Some in E2. apply bool_decide_eq_false in E3.
    split_and!; [|done|done]. unfold Proxy.max_attempts. by replace (Proxy.retry_max rt) with 0 by lia.
Qed.

Lemma parse_static_ok n h : parse_static n = Ok h → config_ok h.
Proof.
  unfold parse_static. destruct (prop_str n "root") as [r|], (prop_str n "userdir") as [u|]; try done;
    (destruct (_ && _) eqn:E; [done|]); intros [= <-]; cbn.
  - split_and!; [naive_solver|by case_decide|]. intros _. rewrite bool_decide_true in E by done. cbn in E.
    apply orb_false_iff in E as [E _]. by apply negb_false_iff, bool_decide_eq_true in E.
  - split_and!; [|by case_decide|done]. split; [|done]. by intros [? ?].
Qed.

Lemma as_u_small bits z : (0 ≤ z < 2 ^ bits)%Z → as_u bits z = Z.to_N z.
Proof. intros. unfold as_u. by rewrite Z.mod_small. Qed.

Lemma parse_respond_ok n h : parse_respond n = Ok h → config_ok h.
Proof.
  intros (st & Hst & H1)%bind_Ok. apply bind_Ok in H1 as (b & _ & H1). apply bind_Ok in H1 as (ct & Hct & [= <-]).
  cbn. split.
  - destruct (prop_i64 n "status") as [z|]; [|simplify_eq; lia]. destruct (_ && _) eqn:E; [|done].
    apply andb_true_iff in E as [E1%Z.leb_le E2%Z.leb_le]. injection Hst as <-.
    rewrite as_u_small; lia.
  - intros t ->. apply opt_try_Some in Hct as (t' & _ & Ht). apply bind_Ok in Ht as (v & Hv & [= <-]).
    destruct (hv_from_str t'); [eauto|done].
Qed.

Lemma socket_ok n s r i : parse_socket_handler n = Ok (s, r, i) → strip_prefix "unix-stream:" s = None.
Proof.
  intros (so & _ & H1)%bind_Ok. apply bind_Ok in H1 as (ro & _ & H1). revert H1.
  destruct (strip_prefix "unix-stream:" so) as [p|] eqn:E; intros H1; injection H1 as <- _ _; [reflexivity|done].
Qed.

(** A handler the parser accepts has the shape its component relies on. *)
Lemma parsed_handler_ok n h : parse_handler n = Ok h → config_ok h.
Proof.
  unfold parse_handler. repeat case_match; try done; try (by intros [= <-]).
  - apply parse_static_ok.
  - apply parse_proxy_ok.
  - by intros (to & _ & [= <-])%bind_Ok.
  - apply parse_respond_ok.
  - intros ([[so ro] ix] & Hs & [= <-])%bind_Ok. by eapply socket_ok.
  - intros ([[so ro] ix] & Hs & [= <-])%bind_Ok. by eapply socket_ok.
  - by intros (r & _ & [= <-])%bind_Ok.
Qed.

(** * Building the small handlers *)

Context `{Regex}.

(** The needs of the location grow by those of the templates; [None] when
    they cannot be computed. *)
Definition build_redirect (to : string) (code : N) (tbl : Vars.VarTable) (needs : Vars.VarNeeds)
    : Result (Respond.RedirectHandler * option Vars.VarNeeds) :=
  t ← Template.compile to (Vars.vt_names tbl);
  Ok ({| Respond.rd_to := t; Respond.rd_code := code |}, Vars.absorb needs t tbl).

Definition build_respond (status : N) (body : RespondBody) (content_type : option string)
    (tbl : Vars.VarTable) (needs : Vars.VarNeeds) : Result (Respond.RespondHandler * option Vars.VarNeeds) :=
  source ← match body with
           | REmpty => Ok (Respond.SEmpty, Some needs)
           | RInline s =>
               t ← Template.compile s (Vars.vt_names tbl);
               Ok (Respond.SInline t, Vars.absorb needs t tbl)
           | RFile p => Ok (Respond.SFile p, Some needs)
           end;
  if Errors.valid_status status then
    Ok ({| Respond.rp_status := status; Respond.rp_body := source.1; Respond.rp_content_type := content_type |},
        source.2)
  else Err "respond: invalid status code".

Lemma built_respond_ok n status body ct tbl needs h nd :
  parse_handler n = Ok (CRespond status body ct) → build_respond status body ct tbl needs = Ok (h, nd) →
  Respond.handler_ok h ∧ Respond.rp_status h = status ∧ Respond.rp_content_type h = ct.
Proof.
  intros [Hst Hct]%parsed_handler_ok (src & _ & Hb)%bind_Ok.
  destruct (Errors.valid_status status) eqn:E; [|done]. injection Hb as <- _. done.
Qed.

(** A [respond] location that loaded answers every request: with its status
    and body, or, when its file cannot be read, with a 500; the header value
    and the status were checked when the configuration was read. *)
Theorem respond_never_panics `{!HttpLaws} `{!HttpTextLaws} n status body ct tbl needs h nd
    read_file sc method ctx s out s' :
  parse_handler n = Ok (CRespond status body ct) → build_respond status body ct tbl needs = Ok (h, nd) →
  is_Some Errors.response_500 →
  Respond.respond read_file h sc method ctx s = Some (out, s') →
  ∃ r, out = Some r ∧ (resp_status r = status ∨ (∃ p, body = RFile p ∧ read_file p = None) ∧ resp_status r = 500).
Proof.
  intros Hp Hb [r5 H5] Hr. destruct (built_respond_ok _ _ _ _ _ _ _ _ Hp Hb) as (Hok & Hst & _).
  apply (Respond.respond_spec read_file) in Hr; [|done].
  assert (Respond.rp_body h = Respond.SEmpty ∨ (∃ t, Respond.rp_body h = Respond.SInline t) ∨
    ∃ p, Respond.rp_body h = Respond.SFile p ∧ body = RFile p) as Hbody.
  { apply bind_Ok in Hb as (src & Hsrc & Hb). destruct (Errors.valid_status status); [|done].
    injection Hb as <- _. cbn. destruct body as [|text|p]; [by simplify_eq; left| |by simplify_eq; eauto].
    apply bind_Ok in Hsrc as (t & _ & [= <-]). right. left. by exists t. }
  destruct Hbody as [E|[[t E]|(p & E & ->)]]; rewrite E in Hr.
  - destruct Hr as (r & -> & [Hs _ _ _]). exists r. split; [done|]. left. congruence.
  - destruct Hr as (text & r & _ & -> & [Hs _ _ _]). exists r. split; [done|]. left. congruence.
  - destruct (read_file p) eqn:Ef.
    + destruct Hr as (r & -> & [Hs _ _ _]). exists r. split; [done|]. left. congruence.
    + subst out. rewrite H5. exists r5. split; [done|]. right. split; [by exists p|].
      by apply Errors.build_inv in H5 as [? _].
Qed.

End handler.

Module Demo.

Definition prop (k s : string) : KdlEntry unit := {| e_name := Some k; e_value := VString s |}.
Definition num (k : string) (z : Z) : KdlEntry unit := {| e_name := Some k; e_value := VInteger z |}.
Definition no_table : Vars.VarTable := {| Vars.vt_defs := []; Vars.vt_names := Template.vn_default |}.

(** [respond status=503 file="maint.html"] of [/etc/hs.kdl]. *)
Definition maintenance : KdlNode unit := Node "respond" [num "status" 503; prop "file" "maint.html"] None 0.

Definition built : Respond.RespondHandler :=
  {| Respond.rp_status := 503; Respond.rp_body := Respond.SFile "/etc/maint.html"; Respond.rp_content_type := None |}.

Lemma respond_never_panics_witness :
  ∃ r, Respond.finish built "GET" (Some "down") = Some r ∧
    (resp_status r = 503 ∨ (∃ p, RFile "/etc/maint.html" = RFile p ∧ Some "down" = None) ∧ resp_status r = 500).
Proof.
  apply (respond_never_panics "/etc/hs.kdl" maintenance 503 (RFile "/etc/maint.html") None no_table
    Vars.needs_default built (Some Vars.needs_default) (λ _, Some "down") None "GET" Template.empty_context [] _ []).
  - reflexivity.
  - reflexivity.
  - eexists. reflexivity.
  - reflexivity.
Defined.

(** [redirect to="/x" code=99]: the code is not checked, and every request
    to the location panics. *)
Definition bad_redirect : KdlNode unit := Node "redirect" [prop "to" "/x"; num "code" 99] None 0.

Lemma bad_redirect_code_panics :
  parse_handler "" bad_redirect = Ok (CRedirect "/x" 99) ∧
  Respond.redirect_handle {| Respond.rd_to := Template.parse "/x"; Respond.rd_code := 99 |} None
    Template.empty_context [] = Some (None, []).
Proof. split; reflexivity. Qed.

(** [upstream "http://a" weight=-1]: the weight is the largest there is, and
    the ring of the pool gets an entry for every unit of it. *)
Lemma negative_weight_wraps :
  parse_upstream (Node "upstream" [{| e_name := None; e_value := VString "http://a" |}; num "weight" (-1)] None 0)
    = Ok {| Lb.uc_url := "http://a"; Lb.uc_weight := u32_max; Lb.uc_group := None |}.
Proof. reflexivity. Qed.

End Demo.

End ParseHandler.
