(* ===== verification/ParseConfig.v ===== *)
(** The blocks of the configuration ([src/config/parse.rs]): the server, its
    listeners, and the virtual hosts with their locations.

    [ConfigEnv] collects what the parsers take from elsewhere: parsing of
    addresses and networks, Unicode upper-casing, [Method::from_bytes], the
    file of a client secret, and the conversion of integers to [f64]. *)
From S2P Require Import Prelude RustStr Net Http Template Vars Auth Access CachePolicy RateLimit Matcher Router ProxyProto Listeners Health AccessLog Kdl ParseRules ParseTls ParseAuth ParseHandler.

Module ParseConfig.
Import Kdl.

Class ConfigEnv `{IpNets} `{F64} := {
  net_parse : string → option ip_net;
  to_uppercase : string → string;
  method_from_bytes : string → option string;
  read_to_string : string → option string;
  sa_parse : string → option ProxyProto.SocketAddr;
  f64_of_Z : Z → f64;
}.

Abbreviation BoundAddr := (@Bind.BoundAddr ProxyProto.SocketAddr) (only parsing).

(** * Data *)

Section config.
Context `{IpNets} `{Http} `{Regex} `{F64} `{!ConfigEnv} `{!Kdl f64}.

Inductive HeaderOpConfig :=
  | CSet (name value : string)
  | CAdd (name value : string)
  | CRemove (name : string).

Definition header_name (o : HeaderOpConfig) : string :=
  match o with CSet n _ | CAdd n _ | CRemove n => n end.

Inductive RateLimitKeyConfig :=
  | ClientIp
  | User
  | Header (name : string).

Record RateLimitConfig := {
  rc_name : string;
  rc_rate_per_sec : f64;
  rc_burst : f64;
  rc_key : RateLimitKeyConfig;
}.

Record RewriteConfig := {
  from : string;
  to : string;
}.

Record LocationConfig := {
  l_path : string;
  l_handler : ParseHandler.HandlerConfig;
  l_policy : option (list Router.PolicyRuleDef);
  l_realm : option string;
  l_request_headers : list HeaderOpConfig;
  l_response_headers : list HeaderOpConfig;
  l_rate_limits : list RateLimitConfig;
  l_max_request_body : option N;
  l_matcher : option (list Matcher.MatchPredicateConfig);
  l_rewrite : option RewriteConfig;
  l_cache : option Policy.CacheConfig;
  l_variables : list Vars.VariableDef;
  l_line : nat;
}.

Record VHostConfig := {
  v_name : Router.HostName;
  v_aliases : list Router.HostName;
  v_locations : list LocationConfig;
  v_ref_name : option string;
  v_explicit_only : bool;
  v_alpn : option (list string);
  v_variables : list Vars.VariableDef;
  v_line : nat;
}.

Definition handle (v : VHostConfig) : string := default (Router.hn_value (v_name v)) (v_ref_name v).

Record Timeouts := {
  request_header_secs : option N;
  handler_secs : option N;
  keepalive_secs : option N;
}.

Record Http2Config := {
  h2_keepalive_interval_secs : option N;
  h2_keepalive_timeout_secs : option N;
  h2_max_concurrent_streams : option N;
}.

Record QuicTransport := {
  max_concurrent_bidi_streams : option N;
  max_idle_timeout_secs : option N;
  keep_alive_interval_secs : option N;
  zero_rtt_enabled : bool;
  retry_tokens : bool;
  retry_token_lifetime_secs : option N;
}.

Record ProxyConfig := {
  p_upstream : BoundAddr;
  p_upstream_tls : option bool;
  p_upstream_dtls : option bool;
  p_proxy_protocol : option ProxyProto.ProxyProtocolVersion;
  p_policy : option (list Router.PolicyRuleDef);
  p_flow_idle_timeout_secs : option N;
}.

Record ListenerConfig := {
  bind : BoundAddr;
  tls : option ParseTls.TlsListenerConfig;
  proxy : option ProxyConfig;
  accept_proxy_protocol : option ProxyProto.ProxyProtocolVersion;
  trusted_proxies : list ip_net;
  vhosts : list string;
  reject_unknown_host : bool;
  health : option bool;
  timeouts : Timeouts;
  http2 : Http2Config;
  max_connections : option N;
  max_request_body : option N;
  auto_alt_svc : option string;
  alpn : option (list string);
  quic_transport : option QuicTransport;
  line : nat;
}.

Inductive ErrorPageDef :=
  | PFile (path : string)
  | PInline (html : string).

Record TracingConfig := {
  tr_endpoint : string;
  tr_sample_ratio : f64;
  tr_service_name : string;
  tr_trust_incoming : bool;
  tr_headers : list (string * string);
  tr_timeout_secs : N;
}.

Record ServerConfig := {
  state_dir : option string;
  tls_defaults : ParseTls.TlsOptions;
  user : option string;
  group : option string;
  inherit_supplementary_groups : bool;
  auth : option ParseAuth.AuthBackend;
  geoip : option string;
  s_health : Health.HealthConfig;
  policies : gmap string (list Router.PolicyRuleDef);
  variables : list Vars.VariableDef;
  cache : option N;
  error_pages : list (N * ErrorPageDef);
  cert_key_mode : option N;
  access_log : option AccessLog.AccessLogConfig;
  graceful_drain_timeout : N;
  upgrade_startup_timeout : N;
  lame_duck_timeout : N;
  tracing : option TracingConfig;
}.

(** * Parsing *)

(** The text and the path of the file. *)
Context (src config : string).
Abbreviation node := (KdlNode f64) (only parsing).

Definition parse_policy_statements (n : node) (tcp_only : bool) :=
  ParseRules.parse_policy_statements net_parse to_uppercase n tcp_only.

Definition parse_nonneg_u32 (n : node) (key : string) (default_value : N) : Result N :=
  match prop_i64 n key with
  | Some v => if (0 <=? v)%Z && (v <=? Z.of_N u32_max)%Z then Ok (Z.to_N v) else Err "must be a non-negative integer"
  | None => Ok default_value
  end.

(** ** The access log *)

Definition field_char (c : ascii) : bool :=
  let n := N_of_ascii c in
  ((48 <=? n) && (n <=? 57)) || ((65 <=? n) && (n <=? 90)) || ((97 <=? n) && (n <=? 122))
  || Ascii.eqb c "_" || Ascii.eqb c "-".

Fixpoint parse_fields (cs : list node) (fields : list (string * string)) : Result (list (string * string)) :=
  match cs with
  | [] => Ok fields
  | c :: cs' =>
      if negb (named "field" c) then Err "unknown node in access-log"
      else match arg_strs c with
           | [field_name; template] =>
               if is_empty field_name || negb (str_all field_char field_name) then Err "invalid field name"
               else if bool_decide (field_name ∈ AccessLog.RESERVED_FIELDS) then Err "reserved field name"
               else if bool_decide (field_name ∈ fields.*1) then Err "duplicate field"
               else parse_fields cs' (fields ++ [(field_name, template)])
           | _ => Err "access-log field takes exactly two arguments"
           end
  end.

Definition parse_access_log_fields (n : node) : Result (list (string * string)) := parse_fields (nodes n) [].

Definition parse_access_log (n : node) : Result AccessLog.AccessLogConfig :=
  format_str ← req_arg_str n 0;
  format ← (if String.eqb format_str "tracing" then Ok AccessLog.Tracing
            else if String.eqb format_str "json" then Ok AccessLog.Json
            else if String.eqb format_str "common" then Ok AccessLog.Common
            else if String.eqb format_str "combined" then Ok AccessLog.Combined
            else Err "unknown access-log format");
  fields ← parse_access_log_fields n;
  Ok {| AccessLog.ac_format := format; AccessLog.ac_path := prop_str n "path"; AccessLog.ac_fields := fields |}.

(** ** File modes *)

(** The digits of [u32::from_str_radix(s, 8)]. *)
Fixpoint octal_digits (acc : N) (s : string) : option N :=
  match s with
  | "" => Some acc
  | String c s' =>
      d ← digit_of c;
      if d <? 8 then
        let acc := acc * 8 + d in if acc <=? u32_max then octal_digits acc s' else None
      else None
  end.

Definition from_octal (s : string) : option N :=
  let digits := default s (strip_prefix "+" s) in
  if is_empty digits then None else octal_digits 0 digits.

Definition parse_file_mode (n : node) (key : string) : Result (option N) :=
  opt_try (λ s, let digits := match strip_prefix "0o" s with
                              | Some d => d
                              | None => default s (strip_prefix "0" s)
                              end in
                ok_or (from_octal digits) "invalid octal mode") (prop_str n key).

(** ** Tracing *)

Definition parse_sample_ratio (n : node) : Result f64 :=
  match get_prop (entries n) "sample-ratio" with
  | None => Ok f1
  | Some v =>
      raw ← ok_or (match as_float v with Some x => Some x | None => f64_of_Z <$> as_integer v end)
              "sample-ratio must be a number";
      if fle f0 raw && fle raw f1 then Ok raw else Err "sample-ratio out of range"
  end.

Definition parse_tracing_header (n : node) : Result (string * string) :=
  if negb (named "header" n) then Err "unknown node in tracing"
  else match arg_strs n with
       | [hname; hvalue] => Ok (hname, hvalue)
       | _ => Err "tracing header takes exactly two arguments"
       end.

Definition parse_tracing (n : node) : Result TracingConfig :=
  endpoint ← ok_or (prop_str n "endpoint") "tracing requires endpoint";
  if negb (starts_with "http://" endpoint) && negb (starts_with "https://" endpoint) then
    Err "tracing endpoint must be an http:// or https:// URL"
  else
    ratio ← parse_sample_ratio n;
    timeout ← parse_nonneg_u32 n "timeout" 10;
    if timeout =? 0 then Err "tracing timeout must be at least 1 second"
    else
      headers ← try_map parse_tracing_header (nodes n);
      Ok {| tr_endpoint := endpoint; tr_sample_ratio := ratio;
            tr_service_name := default "hypershunt" (prop_str n "service-name");
            tr_trust_incoming := default true (prop_bool n "trust-incoming");
            tr_headers := headers; tr_timeout_secs := timeout |}.

Definition parse_geoip (n : node) : Result string := ok_or (prop_str n "db") "geoip requires db".

(** ** The server *)

Definition CACHE_DEFAULT_TTL_SECS : N := 60.
Definition CACHE_DEFAULT_MAX_OBJECT : N := 1024 * 1024.
Definition CACHE_DEFAULT_MAX_SIZE : N := 256 * 1024 * 1024.

Definition parse_cache_global (n : node) : Result N := ParseTls.positive n "max-size" CACHE_DEFAULT_MAX_SIZE.

Definition health_default : Health.HealthConfig :=
  {| Health.hc_enabled := true; Health.liveness_paths := Health.DEFAULT_LIVENESS_PATHS;
     Health.readiness_paths := Health.DEFAULT_READINESS_PATHS |}.

Definition parse_health (n : node) : Health.HealthConfig :=
  let or_default paths d := if decide (paths = []) then d else paths in
  {| Health.hc_enabled := default true (prop_bool n "enabled");
     Health.liveness_paths := or_default (repeated_strs n "liveness-path") (Health.liveness_paths health_default);
     Health.readiness_paths := or_default (repeated_strs n "readiness-path") (Health.readiness_paths health_default) |}.

Fixpoint parse_policies (cs : list node) (acc : gmap string (list Router.PolicyRuleDef))
    : Result (gmap string (list Router.PolicyRuleDef)) :=
  match cs with
  | [] => Ok acc
  | c :: cs' =>
      policy_name ← ok_or (arg_str c 0) "policy requires a name argument";
      stmts ← parse_policy_statements c false;
      if bool_decide (is_Some (acc !! policy_name)) then Err "duplicate policy name"
      else parse_policies cs' (<[policy_name := stmts]> acc)
  end.

Definition parse_error_page (n : node) : Result (N * ErrorPageDef) :=
  code ← ok_or (as_u 16 <$> (head (args (entries n)) ≫= as_integer)) "error-page requires a numeric status code";
  match prop_str n "path", prop_str n "html" with
  | Some _, Some _ => Err "error-page accepts only one of path or html"
  | Some p, None => Ok (code, PFile p)
  | None, Some h => Ok (code, PInline h)
  | None, None => Err "error-page requires path or html"
  end.

Definition parse_server (n : node) : Result ServerConfig :=
  tls_defaults ← opt_try ParseTls.parse_tls_options (find_child n "tls-options");
  auth ← opt_try (ParseAuth.parse_auth_backend read_to_string) (find_child n "auth");
  geoip ← opt_try parse_geoip (find_child n "geoip");
  policies ← parse_policies (filter_children n "policy") ∅;
  variables ← try_map (ParseRules.parse_variable src) (filter_children n "variable");
  error_pages ← try_map parse_error_page (filter_children n "error-page");
  access_log ← opt_try parse_access_log (find_child n "access-log");
  drain ← parse_nonneg_u32 n "graceful-drain-timeout" 0;
  startup ← parse_nonneg_u32 n "upgrade-startup-timeout" 60;
  lame_duck ← parse_nonneg_u32 n "lame-duck-timeout" 0;
  cache ← opt_try parse_cache_global (find_child n "cache");
  tracing ← opt_try parse_tracing (find_child n "tracing");
  cert_key_mode ← parse_file_mode n "cert-key-mode";
  Ok {| state_dir := prop_str n "state-dir"; tls_defaults := default ParseTls.options_default tls_defaults;
        user := prop_str n "user"; group := prop_str n "group";
        inherit_supplementary_groups := default false (prop_bool n "inherit-supplementary-groups");
        auth := auth; geoip := geoip; s_health := default health_default (parse_health <$> find_child n "health");
        policies := policies; variables := variables; cache := cache; error_pages := error_pages;
        cert_key_mode := cert_key_mode; access_log := access_log; graceful_drain_timeout := drain;
        upgrade_startup_timeout := startup; lame_duck_timeout := lame_duck; tracing := tracing |}.

(** ** Listeners *)

Definition parse_trusted_proxies (n : node) : Result (list ip_net) :=
  try_map (λ c, s ← req_arg_str c 0; ok_or (net_parse s) "invalid IP address or CIDR in trusted-proxies")
    (filter_children n "trusted-proxies").

Definition timeouts_default : Timeouts :=
  {| request_header_secs := None; handler_secs := None; keepalive_secs := None |}.

Definition parse_timeouts (n : node) : Timeouts :=
  {| request_header_secs := prop_u 64 n "request-header"; handler_secs := prop_u 64 n "handler";
     keepalive_secs := prop_u 64 n "keepalive" |}.

Definition http2_default : Http2Config :=
  {| h2_keepalive_interval_secs := None; h2_keepalive_timeout_secs := None; h2_max_concurrent_streams := None |}.

Definition parse_http2 (n : node) : Result Http2Config :=
  '(interval, timeout) ← ParseHandler.parse_keepalive n;
  let streams := prop_u 32 n "max-concurrent-streams" in
  if bool_decide (streams = Some 0) then Err "max-concurrent-streams must be greater than zero"
  else Ok {| h2_keepalive_interval_secs := interval; h2_keepalive_timeout_secs := timeout;
             h2_max_concurrent_streams := streams |}.

(** An [alpn] child without a positional value. *)
Definition bare_alpn (c : node) : bool :=
  named "alpn" c && forallb (λ e, bool_decide (is_Some (e_name e))) (entries c).

Definition parse_alpn (n : node) : option (list string) :=
  let values := repeated_strs n "alpn" in
  if decide (values = []) then None else Some values.

Definition parse_quic_transport (kind : Bind.SocketKind) (n : node) : Result QuicTransport :=
  if negb (bool_decide (kind = Bind.UdpDgram)) then Err "quic-transport is only valid on udp:// listeners"
  else Ok {| max_concurrent_bidi_streams := prop_u 64 n "max-concurrent-bidi-streams";
             max_idle_timeout_secs := prop_u 64 n "max-idle-timeout";
             keep_alive_interval_secs := prop_u 64 n "keep-alive-interval";
             zero_rtt_enabled := default false (prop_bool n "zero-rtt");
             retry_tokens := default true (prop_bool n "retry-tokens");
             retry_token_lifetime_secs := prop_u 64 n "retry-token-lifetime" |}.

(** The PROXY-protocol settings of a listener. *)
Definition parse_accept (n : node) : Result (option ProxyProto.ProxyProtocolVersion * list ip_net) :=
  accept ← opt_try ParseHandler.parse_proxy_protocol (prop_str n "accept-proxy-protocol");
  trusted ← parse_trusted_proxies n;
  if negb (bool_decide (length trusted = 0%nat)) && bool_decide (accept = None) then
    Err "trusted-proxies requires accept-proxy-protocol"
  else Ok (accept, trusted).

Definition has_child (n : node) (key : string) : bool := bool_decide (is_Some (find_child n key)).

(** The [proxy] child of a listener. *)
Definition parse_l4_proxy (n px : node) : Result ProxyConfig :=
  if has_child n "vhost" then Err "vhost is only valid in HTTP listeners"
  else if has_prop n "reject-unknown-host" then Err "reject-unknown-host is only valid in HTTP listeners"
  else if has_prop n "health" then Err "health is only valid in HTTP listeners"
  else if has_child n "timeouts" then Err "timeouts is only valid in HTTP listeners"
  else if has_child n "http2" then Err "http2 is only valid in HTTP listeners"
  else
    upstream_str ← req_arg_str px 0;
    upstream ← Bind.parse sa_parse upstream_str;
    pp ← opt_try ParseHandler.parse_proxy_protocol (prop_str px "proxy-protocol");
    policy ← opt_try (λ p, parse_policy_statements p true) (find_child n "policy");
    let skip c := default false (prop_bool c "skip-verify") in
    Ok {| p_upstream := upstream; p_upstream_tls := skip <$> find_child px "tls";
          p_upstream_dtls := skip <$> find_child px "dtls"; p_proxy_protocol := pp; p_policy := policy;
          p_flow_idle_timeout_secs := prop_u 64 px "flow-idle-timeout" |}.

(** The [vhost] references of a listener. *)
Definition parse_vhost_refs (n : node) : Result (list string) :=
  refs ← try_map (λ c, if bool_decide (is_Some (children c)) then Err "a vhost inside a listener cannot have a block"
                       else let refs := arg_strs c in
                            if decide (refs = []) then Err "vhost requires at least one vhost name" else Ok refs)
           (filter_children n "vhost");
  Ok (concat refs).

Definition parse_listener (n : node) : Result ListenerConfig :=
  bind_str ← req_arg_str n 0;
  addr ← Bind.parse sa_parse bind_str;
  tls ← ParseTls.parse_listener_tls (nodes n);
  if existsb bare_alpn (nodes n) then Err "alpn requires a protocol identifier"
  else
    quic ← opt_try (parse_quic_transport (Bind.kind addr)) (find_child n "quic-transport");
    match find_child n "proxy" with
    | Some px =>
        proxy ← parse_l4_proxy n px;
        accept ← parse_accept n;
        Ok {| bind := addr; tls := tls; proxy := Some proxy; accept_proxy_protocol := accept.1;
              trusted_proxies := accept.2; vhosts := []; reject_unknown_host := false; health := None;
              timeouts := timeouts_default; http2 := http2_default;
              max_connections := prop_u 32 n "max-connections"; max_request_body := None; auto_alt_svc := None;
              alpn := parse_alpn n; quic_transport := quic; line := node_line src n |}
    | None =>
        if has_child n "policy" then Err "policy at the listener level is only valid for stream listeners"
        else
          refs ← parse_vhost_refs n;
          http2 ← opt_try parse_http2 (find_child n "http2");
          accept ← parse_accept n;
          Ok {| bind := addr; tls := tls; proxy := None; accept_proxy_protocol := accept.1;
                trusted_proxies := accept.2; vhosts := refs;
                reject_unknown_host := default false (prop_bool n "reject-unknown-host");
                health := prop_bool n "health";
                timeouts := default timeouts_default (parse_timeouts <$> find_child n "timeouts");
                http2 := default http2_default http2;
                max_connections := prop_u 32 n "max-connections";
                max_request_body := prop_u 64 n "max-request-body"; auto_alt_svc := None;
                alpn := parse_alpn n; quic_transport := quic; line := node_line src n |}
    end.

(** ** Locations *)

Definition to_ascii_uppercase (s : string) : string :=
  str_map (λ c, let n := N_of_ascii c in if (97 <=? n) && (n <=? 122) then ascii_of_N (n - 32) else c) s.

Definition parse_cache (n : node) : Result Policy.CacheConfig :=
  ttl ← match prop_i64 n "ttl" with
        | Some v => if (0 <=? v)%Z then Ok (Z.to_N v) else Err "cache ttl must be >= 0"
        | None => Ok CACHE_DEFAULT_TTL_SECS
        end;
  max_object ← ParseTls.positive n "max-object-size" CACHE_DEFAULT_MAX_OBJECT;
  let given := to_ascii_uppercase <$> repeated_strs n "method" in
  let methods := if decide (given = []) then ["GET"] else given in
  if negb (forallb (λ m, String.eqb m "GET" || String.eqb m "HEAD") methods) then
    Err "only GET and HEAD may be cached"
  else Ok {| Policy.cc_ttl_secs := ttl; Policy.cc_max_object_size := max_object; Policy.cc_methods := methods;
             Policy.cc_key := prop_str n "key";
             Policy.cc_honor_client := default false (prop_bool n "honor-client-cache-control") |}.

Definition parse_rewrite (n : node) : Result RewriteConfig :=
  f ← ok_or (prop_str n "from") "rewrite requires from";
  t ← ok_or (prop_str n "to") "rewrite requires to";
  _ ← ok_or (regex_new f) "rewrite invalid from regex";
  Ok {| from := f; to := t |}.

Definition parse_rate_limit_key (n : node) : Result RateLimitKeyConfig :=
  kind ← ok_or (arg_str n 0) "rate-limit key requires a form";
  if String.eqb kind "client-ip" then Ok ClientIp
  else if String.eqb kind "user" then Ok User
  else if String.eqb kind "header" then
    header ← ok_or (arg_str n 1) "key header requires a header name";
    _ ← ok_or (hn_from_bytes header) "rate-limit invalid header name";
    Ok (Header (to_ascii_lowercase header))
  else Err "rate-limit unknown key form".

Definition parse_per (s : string) : Result Z :=
  if String.eqb s "second" then Ok 1%Z
  else if String.eqb s "minute" then Ok 60%Z
  else if String.eqb s "hour" then Ok 3600%Z
  else Err "rate-limit unknown per".

Definition parse_rate_limit (loc_path : string) (idx : nat) (n : node) : Result RateLimitConfig :=
  rate_raw ← ok_or (prop_i64 n "rate") "rate-limit requires rate";
  if (rate_raw <=? 0)%Z then Err "rate-limit rate must be > 0"
  else
    per ← parse_per (default "second" (prop_str n "per"));
    burst ← match prop_i64 n "burst" with
            | Some b => if (b <=? 0)%Z then Err "rate-limit burst must be > 0" else Ok (f64_of_Z b)
            | None => Ok (f64_of_Z rate_raw)
            end;
    key_node ← ok_or (find_child n "key") "rate-limit requires a key";
    key ← parse_rate_limit_key key_node;
    Ok {| rc_name := default (trim_matches "/" loc_path +:+ "-rl-" +:+ dec (N.of_nat idx)) (prop_str n "name");
          rc_rate_per_sec := fdiv (f64_of_Z rate_raw) (f64_of_Z per); rc_burst := burst; rc_key := key |}.

Fixpoint parse_rate_limits (loc_path : string) (idx : nat) (cs : list node) : Result (list RateLimitConfig) :=
  match cs with
  | [] => Ok []
  | c :: cs' => r ← parse_rate_limit loc_path idx c; rs ← parse_rate_limits loc_path (S idx) cs'; Ok (r :: rs)
  end.

Definition parse_header_op (n : node) : Result HeaderOpConfig :=
  if named "set" n then h ← req_arg_str n 0; v ← req_arg_str n 1; Ok (CSet h v)
  else if named "add" n then h ← req_arg_str n 0; v ← req_arg_str n 1; Ok (CAdd h v)
  else if named "remove" n then h ← req_arg_str n 0; Ok (CRemove h)
  else Err "unknown header operation".

Definition parse_header_ops (n : node) : Result (list HeaderOpConfig) := try_map parse_header_op (nodes n).

Definition handler_names : list string :=
  ["static"; "proxy"; "redirect"; "respond"; "fastcgi"; "scgi"; "cgi"; "status"; "metrics"; "auth-request"].

Definition parse_location (n : node) : Result LocationConfig :=
  path ← req_arg_str n 0;
  handler_node ← ok_or (List.find (λ c, bool_decide (name c ∈ handler_names)) (nodes n)) "location has no handler node";
  handler ← ParseHandler.parse_handler config handler_node;
  policy ← opt_try (λ p, parse_policy_statements p false) (find_child n "policy");
  request_headers ← opt_try parse_header_ops (find_child n "request-headers");
  response_headers ← opt_try parse_header_ops (find_child n "response-headers");
  rate_limits ← parse_rate_limits path 0 (filter_children n "rate-limit");
  matcher ← opt_try (ParseRules.parse_matcher method_from_bytes) (find_child n "match");
  rewrite ← opt_try parse_rewrite (find_child n "rewrite");
  cache ← opt_try parse_cache (find_child n "cache");
  variables ← try_map (ParseRules.parse_variable src) (filter_children n "variable");
  Ok {| l_path := path; l_handler := handler; l_policy := policy;
        l_realm := (λ b, default "Restricted" (prop_str b "realm")) <$> find_child n "basic-auth";
        l_request_headers := default [] request_headers; l_response_headers := default [] response_headers;
        l_rate_limits := rate_limits; l_max_request_body := prop_u 64 n "max-request-body"; l_matcher := matcher;
        l_rewrite := rewrite; l_cache := cache; l_variables := variables; l_line := node_line src n |}.

(** ** Virtual hosts *)

Definition parse_vhost_name (n : node) : Result Router.HostName :=
  value ← req_arg_str n 0;
  Ok {| Router.hn_value := value; Router.hn_regex := default false (prop_bool n "regex") |}.

(** The children of a vhost, in order: aliases, locations and variables. *)
Fixpoint parse_vhost_children (cs : list node)
    : Result (list Router.HostName * list LocationConfig * list Vars.VariableDef) :=
  match cs with
  | [] => Ok ([], [], [])
  | c :: cs' =>
      if named "alias" c then
        a ← parse_vhost_name c; '(aliases, locations, variables) ← parse_vhost_children cs';
        Ok (a :: aliases, locations, variables)
      else if named "location" c then
        l ← parse_location c; '(aliases, locations, variables) ← parse_vhost_children cs';
        Ok (aliases, l :: locations, variables)
      else if named "variable" c then
        v ← ParseRules.parse_variable src c; '(aliases, locations, variables) ← parse_vhost_children cs';
        Ok (aliases, locations, v :: variables)
      else if named "alpn" c then
        if bare_alpn c then Err "alpn requires a protocol identifier" else parse_vhost_children cs'
      else Err "unknown node in vhost"
  end.

Definition parse_vhost (n : node) : Result VHostConfig :=
  vhost_name ← parse_vhost_name n;
  '(aliases, locations, variables) ← parse_vhost_children (nodes n);
  Ok {| v_name := vhost_name; v_aliases := aliases; v_locations := locations;
        v_ref_name := prop_str n "name"; v_explicit_only := default false (prop_bool n "explicit-only");
        v_alpn := parse_alpn n; v_variables := variables; v_line := node_line src n |}.

End config.

End ParseConfig.
