(* ===== verification/Config.v ===== *)
(** Loading a configuration ([src/config/mod.rs]): the document is read node
    by node, the HTTP/3 endpoints are announced on the TCP listeners of the
    same port, and the whole is validated.

    [None] is a panic of the loader. *)
From S2P Require Import Prelude RustStr Net Http Template Vars Auth Access RateLimit Matcher Router ProxyProto Listeners Health AccessLog Datagram Kdl ParseRules ParseTls ParseAuth ParseHandler ParseConfig.

Module Config.
Import Kdl ParseConfig.

Section config.
Context `{IpNets} `{Http} `{Regex} `{F64} `{!ConfigEnv} `{!Kdl f64}.
Abbreviation node := (KdlNode f64) (only parsing).

Record Config := {
  server : ServerConfig;
  listeners : list ListenerConfig;
  c_vhosts : list VHostConfig;
  certificates : list ParseTls.CertificateDef;
}.

Definition server_default : ServerConfig :=
  {| state_dir := None; tls_defaults := ParseTls.options_default; user := None; group := None;
     inherit_supplementary_groups := false; auth := None; geoip := None; s_health := health_default;
     policies := ∅; variables := []; cache := None; error_pages := []; cert_key_mode := None; access_log := None;
     graceful_drain_timeout := 0; upgrade_startup_timeout := 60; lame_duck_timeout := 0; tracing := None |}.

Definition config_default : Config :=
  {| server := server_default; listeners := []; c_vhosts := []; certificates := [] |}.

(** * Reading *)

Section read.
Context (src config : string).

(** One top-level node. *)
Definition parse_top (n : node) (c : Config) : Result Config :=
  if named "server" n then
    s ← parse_server src n;
    Ok {| server := s; listeners := listeners c; c_vhosts := c_vhosts c; certificates := certificates c |}
  else if named "listener" n then
    l ← parse_listener src n;
    Ok {| server := server c; listeners := listeners c ++ [l]; c_vhosts := c_vhosts c; certificates := certificates c |}
  else if named "vhost" n then
    v ← parse_vhost src config n;
    Ok {| server := server c; listeners := listeners c; c_vhosts := c_vhosts c ++ [v]; certificates := certificates c |}
  else if named "certificate" n then
    d ← ParseTls.parse_certificate src n;
    Ok {| server := server c; listeners := listeners c; c_vhosts := c_vhosts c; certificates := certificates c ++ [d] |}
  else Err "unknown top-level node".

Fixpoint parse_doc (doc : list node) (c : Config) : Result Config :=
  match doc with
  | [] => Ok c
  | n :: doc' => c ← parse_top n c; parse_doc doc' c
  end.

End read.

(** * Announcing HTTP/3 *)

Definition port_of (l : ListenerConfig) : option N := ProxyProto.sa_port <$> Bind.as_inet (bind l).

Definition udp_ports (ls : list ListenerConfig) : list N :=
  omap port_of (List.filter (λ l, bool_decide (Bind.kind (bind l) = Bind.UdpDgram) && bool_decide (is_Some (tls l))) ls).

Definition set_alt_svc (l : ListenerConfig) (v : string) : ListenerConfig :=
  {| bind := bind l; tls := tls l; proxy := proxy l; accept_proxy_protocol := accept_proxy_protocol l;
     trusted_proxies := trusted_proxies l; vhosts := vhosts l; reject_unknown_host := reject_unknown_host l;
     health := health l; timeouts := timeouts l; http2 := http2 l; max_connections := max_connections l;
     max_request_body := max_request_body l; auto_alt_svc := Some v; alpn := alpn l;
     quic_transport := quic_transport l; line := line l |}.

Definition alt_svc_text (port : N) : string :=
  "h3=" +:+ String Errors.Errors.quote (":" +:+ dec port +:+ String Errors.Errors.quote "; ma=86400").

Definition announce (ports : list N) (l : ListenerConfig) : ListenerConfig :=
  if negb (bool_decide (Bind.kind (bind l) = Bind.TcpStream)) || negb (bool_decide (is_Some (tls l)))
     || bool_decide (is_Some (proxy l)) then l
  else match port_of l with
       | Some port => if bool_decide (port ∈ ports) then set_alt_svc l (alt_svc_text port) else l
       | None => l
       end.

Definition announce_all (c : Config) : Config :=
  {| server := server c; listeners := announce (udp_ports (listeners c)) <$> listeners c;
     c_vhosts := c_vhosts c; certificates := certificates c |}.

(** * Validation *)

Definition check (b : bool) (tag : string) : Result unit := if b then Ok tt else Err tag.

(** [for x in l { f(x)?; }]. *)
Fixpoint each {A} (f : A → Result unit) (l : list A) : Result unit :=
  match l with [] => Ok tt | x :: l' => _ ← f x; each f l' end.

(** ** Variables *)

Definition build_vars (layers : list (list Vars.VariableDef)) : Result unit :=
  match Vars.build_layered layers with
  | Some (Ok _) => Ok tt
  | Some (Err e) => Err e
  | None => Err "out of fuel"
  end.

Definition check_vhost_vars (s : ServerConfig) (v : VHostConfig) : Result unit :=
  _ ← (if decide (v_variables v = []) then Ok tt else build_vars [variables s; v_variables v]);
  each (λ l, if decide (l_variables l = []) then Ok tt
             else build_vars [variables s; v_variables v; l_variables l]) (v_locations v).

(** ** Health paths *)

Definition check_health (h : Health.HealthConfig) : Result unit :=
  _ ← each (λ p, check (starts_with "/" p) "health path must start with /")
        (Health.liveness_paths h ++ Health.readiness_paths h);
  each (λ p, check (negb (bool_decide (p ∈ Health.liveness_paths h))) "health path is both liveness and readiness")
    (Health.readiness_paths h).

(** ** Listeners *)

Definition some {A} (o : option A) : bool := bool_decide (is_Some o).

Definition check_proxy (kind : Bind.SocketKind) (p : ProxyConfig) : Result unit :=
  let up := Bind.kind (p_upstream p) in
  _ ← check (negb (Bind.is_byte_stream kind && negb (Bind.is_byte_stream up))) "byte-stream listener, datagram upstream";
  _ ← check (negb (Bind.is_datagram_stream kind && negb (Bind.is_datagram_stream up)))
        "datagram listener, byte-stream upstream";
  _ ← check (negb (some (p_upstream_tls p) && negb (Bind.is_byte_stream up))) "tls origination is byte-stream only";
  _ ← check (negb (some (p_upstream_dtls p) && negb (bool_decide (up = Bind.UdpDgram)))) "dtls origination is udp only";
  _ ← check (negb (some (p_upstream_dtls p))) "dtls is not yet implemented";
  check (negb (some (p_proxy_protocol p) && negb (Bind.is_byte_stream up))) "PROXY protocol is byte-stream only".

Definition check_listener (l : ListenerConfig) : Result unit :=
  let kind := Bind.kind (bind l) in
  _ ← check (negb (some (tls l) && negb (Bind.is_byte_stream kind) && negb (bool_decide (kind = Bind.UdpDgram))))
        "tls on a unix datagram listener";
  _ ← check (negb (some (tls l) && some (proxy l) && bool_decide (kind = Bind.UdpDgram))) "dtls proxy is not implemented";
  _ ← check (negb (Bind.is_datagram_stream kind && negb (some (tls l)) && negb (some (proxy l))))
        "datagram listener has no handler";
  match proxy l with Some p => check_proxy kind p | None => Ok tt end.

(** ** Certificates *)

(** [resolve_cert]. *)
Definition resolve_cert (c : Config) (t : ParseTls.TlsConfig) : option ParseTls.TlsConfig :=
  match t with
  | ParseTls.Ref name =>
      ParseTls.cd_source <$> List.find (λ d, String.eqb (ParseTls.cd_name d) name) (certificates c)
  | other => Some other
  end.

Definition is_acme (t : ParseTls.TlsConfig) : bool := match t with ParseTls.Acme _ => true | _ => false end.

Definition check_ref (c : Config) (l : ListenerConfig) : Result unit :=
  match tls l with
  | Some t => check (match ParseTls.cert t with
                     | ParseTls.Ref name => existsb (λ d, String.eqb (ParseTls.cd_name d) name) (certificates c)
                     | _ => true
                     end) "listener references unknown certificate"
  | None => Ok tt
  end.

Definition uses_acme (c : Config) : bool :=
  existsb (λ t, match resolve_cert c (ParseTls.cert t) with Some s => is_acme s | None => false end)
    (omap tls (listeners c))
  || existsb (λ d, is_acme (ParseTls.cd_source d)) (certificates c).

(** The sources the server instantiates. *)
Definition cert_sources (c : Config) : list ParseTls.TlsConfig :=
  (ParseTls.cd_source <$> certificates c)
  ++ omap (λ l, t ← tls l; if ParseTls.is_ref (ParseTls.cert t) then None else Some (ParseTls.cert t)) (listeners c).

(** The directory of an ACME certificate; [domains[0]], which is evaluated
    with a name too, panics without a domain. *)
Definition acme_dir (a : ParseTls.AcmeConfig) : option string :=
  first ← head (ParseTls.domains a);
  Some (default first (ParseTls.acme_name a)).

Fixpoint acme_dirs (ts : list ParseTls.TlsConfig) : option (list string) :=
  match ts with
  | [] => Some []
  | ParseTls.Acme a :: ts' => d ← acme_dir a; ds ← acme_dirs ts'; Some (d :: ds)
  | _ :: ts' => acme_dirs ts'
  end.

Definition file_pairs (ts : list ParseTls.TlsConfig) : list (string * string) :=
  omap (λ t, match t with ParseTls.Files c k => Some (c, k) | _ => None end) ts.

Definition check_cert_identity_conflicts (c : Config) : option (Result unit) :=
  dirs ← acme_dirs (cert_sources c);
  Some (_ ← check (bool_decide (NoDup dirs)) "ACME cert directory is claimed by multiple sources";
        check (bool_decide (NoDup (file_pairs (cert_sources c)))) "file-based cert is claimed by multiple sources").

(** ** Virtual hosts *)

Definition names_of (v : VHostConfig) : list Router.HostName := v_name v :: v_aliases v.

Definition check_regexes (v : VHostConfig) : Result unit :=
  each (λ n, check (negb (Router.hn_regex n) || some (regex_new (Router.hn_value n))) "invalid regex in vhost name")
    (names_of v).

Fixpoint by_handle (vs : list VHostConfig) (acc : gmap string VHostConfig) : Result (gmap string VHostConfig) :=
  match vs with
  | [] => Ok acc
  | v :: vs' =>
      if some (acc !! handle v) then Err "duplicate vhost handle" else by_handle vs' (<[handle v := v]> acc)
  end.

Definition literal_names (v : VHostConfig) : list string :=
  omap (λ n, if Router.hn_regex n then None else Some (Router.hn_value n)) (names_of v).

(** The vhosts of a listener, in order. *)
Definition effective (c : Config) (m : gmap string VHostConfig) (l : ListenerConfig) : Result (list VHostConfig) :=
  if decide (vhosts l = []) then Ok (List.filter (λ v, negb (v_explicit_only v)) (c_vhosts c))
  else try_map (λ h, ok_or (m !! h) "listener references unknown vhost") (vhosts l).

Definition check_scope (c : Config) (m : gmap string VHostConfig) (l : ListenerConfig) : Result unit :=
  match proxy l with
  | Some _ => Ok tt
  | None =>
      vs ← effective c m l;
      check (bool_decide (NoDup (vs ≫= literal_names))) "host is served by more than one vhost on this listener"
  end.

Definition check_header_names (v : VHostConfig) : Result unit :=
  each (λ l, each (λ o, check (some (hn_from_bytes (header_name o))) "invalid header name")
               (l_request_headers l ++ l_response_headers l)) (v_locations v).

(** ** Country predicates *)

Definition rule_needs_geoip (p : option Access.Predicate) : bool :=
  match p with Some p => Access.needs_geoip p | None => false end.

(** [policy_needs_geoip] with the set of visited names; [rec] reads the
    policy of a name. *)
Fixpoint scan (ps : gmap string (list Router.PolicyRuleDef))
    (rec : list Router.PolicyRuleDef → gset string → option (bool * gset string))
    (stmts : list Router.PolicyRuleDef) (visited : gset string) : option (bool * gset string) :=
  match stmts with
  | [] => Some (false, visited)
  | Router.DRule p _ :: rest => if rule_needs_geoip p then Some (true, visited) else scan ps rec rest visited
  | Router.DApply name :: rest =>
      if bool_decide (name ∈ visited) then scan ps rec rest visited
      else
        let visited := {[name]} ∪ visited in
        match ps !! name with
        | None => scan ps rec rest visited
        | Some inner =>
            '(b, visited) ← rec inner visited;
            if b : bool then Some (true, visited) else scan ps rec rest visited
        end
  end.

Fixpoint policy_needs_geoip (fuel : nat) (ps : gmap string (list Router.PolicyRuleDef))
    (stmts : list Router.PolicyRuleDef) (visited : gset string) : option (bool * gset string) :=
  match fuel with
  | O => None
  | S fuel' => scan ps (policy_needs_geoip fuel' ps) stmts visited
  end.

(** [iter.any(..)] threading the visited names. *)
Fixpoint any_needs_geoip (fuel : nat) (ps : gmap string (list Router.PolicyRuleDef))
    (pols : list (list Router.PolicyRuleDef)) (visited : gset string) : option (bool * gset string) :=
  match pols with
  | [] => Some (false, visited)
  | p :: pols' =>
      '(b, visited) ← policy_needs_geoip fuel ps p visited;
      if b : bool then Some (true, visited) else any_needs_geoip fuel ps pols' visited
  end.

(** The policies in the order they are looked at. *)
Definition all_policies (c : Config) : list (list Router.PolicyRuleDef) :=
  (c_vhosts c ≫= λ v, omap l_policy (v_locations v))
  ++ omap (λ l, p ← proxy l; p_policy p) (listeners c)
  ++ (map_to_list (policies (server c))).*2.

(** One level for each named policy, and one for the policy itself. *)
Definition geoip_fuel (c : Config) : nat := S (size (policies (server c))).

Definition uses_country (c : Config) : option bool :=
  fst <$> any_needs_geoip (geoip_fuel c) (policies (server c)) (all_policies c) ∅.

(** ** All of it *)

Definition is_jwt (b : option ParseAuth.AuthBackend) : bool :=
  match b with Some (ParseAuth.Jwt _ _ _) => true | _ => false end.

Definition validate_first (c : Config) : Result unit :=
  let s := server c in
  _ ← check (negb (bool_decide (length (listeners c) = 0%nat))) "config must define at least one listener";
  _ ← check (negb (existsb (λ l, negb (some (proxy l))) (listeners c) && bool_decide (length (c_vhosts c) = 0%nat)))
        "config must define at least one vhost";
  _ ← build_vars [variables s];
  _ ← each (check_vhost_vars s) (c_vhosts c);
  _ ← check_health (s_health s);
  _ ← each check_listener (listeners c);
  _ ← check (negb (is_jwt (auth s) && negb (some (state_dir s)))) "state-dir is required when auth jwt is configured";
  _ ← check (bool_decide (NoDup (ParseTls.cd_name <$> certificates c))) "duplicate certificate name";
  _ ← each (check_ref c) (listeners c);
  check (negb (uses_acme c && negb (some (state_dir s)))) "state-dir is required for acme".

Definition validate_last (c : Config) : option (Result unit) :=
  b ← uses_country c;
  Some (_ ← each check_regexes (c_vhosts c);
        m ← by_handle (c_vhosts c) ∅;
        _ ← each (check_scope c m) (listeners c);
        _ ← each check_header_names (c_vhosts c);
        check (negb (b && negb (some (geoip (server c))))) "country predicates require geoip").

Definition validate (c : Config) : option (Result unit) :=
  match validate_first c with
  | Err e => Some (Err e)
  | Ok _ =>
      r ← check_cert_identity_conflicts c;
      match r with
      | Err e => Some (Err e)
      | Ok _ => validate_last c
      end
  end.

(** [parse_named], the syntax of KDL being the crate's. *)
Definition parse_named (kdl : string → option (list node)) (text config : string) : option (Result Config) :=
  match (doc ← ok_or (kdl text) "syntax error";
         _ ← check_misnesting doc;
         c ← parse_doc text config doc config_default;
         Ok (announce_all c)) with
  | Err e => Some (Err e)
  | Ok c => r ← validate c; Some (_ ← r; Ok c)
  end.

End config.

End Config.
