(* ===== verification/ConfigOk.v ===== *)
(** What a loaded configuration is: theorems about [Config.parse_named].

    A configuration that loads keeps the promises the rest of the server
    relies on, and loading never panics. *)
From Stdlib Require Import QArith Qcanon.
From S2P Require Import Prelude RustStr Net Http Template Vars Auth Access RateLimit Matcher Router ProxyProto Listeners Health AccessLog Datagram Kdl ParseRules ParseTls ParseAuth ParseHandler ParseConfig Config.

Module ConfigOk.
Import Kdl ParseConfig Config.

Section facts.
Context `{IpNets} `{Http} `{Regex} `{F64} `{!ConfigEnv} `{!Kdl f64}.
Abbreviation node := (KdlNode f64) (only parsing).

(** * Checks *)

Lemma check_Ok b tag u : check b tag = Ok u ↔ b = true.
Proof. unfold check. destruct b, u; naive_solver. Qed.

Lemma each_Ok {A} (f : A → Result unit) l u : each f l = Ok u ↔ ∀ x, x ∈ l → f x = Ok tt.
Proof.
  destruct u. induction l as [|x l IH]; cbn; [set_solver|]. rewrite bind_Ok. split.
  - intros ([] & Hx & Hl) y [->|Hy]%elem_of_cons; [done|]. by apply IH.
  - intros Hall. exists tt. split; [apply Hall; set_solver|]. apply IH. intros y Hy. apply Hall. set_solver.
Qed.

Lemma some_is_Some {A} (o : option A) : some o = true ↔ is_Some o.
Proof. apply bool_decide_eq_true. Qed.

Lemma some_is_None {A} (o : option A) : some o = false ↔ o = None.
Proof. unfold some. rewrite bool_decide_eq_false. by rewrite eq_None_not_Some. Qed.

(** Splits a chain of checks. *)
Ltac chain H := repeat (apply bind_Ok in H as (? & ?%check_Ok & H) || apply bind_Ok in H as (? & ? & H)).

(** * Country predicates *)

Definition mentions (stmts : list Router.PolicyRuleDef) : Prop :=
  ∃ p a, Router.DRule p a ∈ stmts ∧ rule_needs_geoip p = true.

Section geoip.
Context (ps : gmap string (list Router.PolicyRuleDef)).

Definition unvisited (visited : gset string) : nat := size (dom ps ∖ visited).

Lemma unvisited_mono v v' : v ⊆ v' → (unvisited v' ≤ unvisited v)%nat.
Proof. intros. unfold unvisited. apply subseteq_size. set_solver. Qed.

Lemma unvisited_lt name v :
  is_Some (ps !! name) → name ∉ v → (unvisited ({[name]} ∪ v) < unvisited v)%nat.
Proof.
  intros Hs Hn. unfold unvisited. apply subset_size. apply elem_of_dom in Hs. split; [set_solver|].
  intros Hsub. specialize (Hsub name). set_solver.
Qed.

Lemma mentions_cons d stmts :
  mentions (d :: stmts) ↔ (∃ p a, d = Router.DRule p a ∧ rule_needs_geoip p = true) ∨ mentions stmts.
Proof. unfold mentions. setoid_rewrite elem_of_cons. naive_solver. Qed.

(** A rule of the policy itself, or of a named one. *)
Definition found (stmts : list Router.PolicyRuleDef) : Prop :=
  mentions stmts ∨ ∃ name s, ps !! name = Some s ∧ mentions s.

Lemma found_cons d stmts : found stmts → found (d :: stmts).
Proof. unfold found. rewrite mentions_cons. naive_solver. Qed.

(** A run that ends with a right answer. *)
Definition answers (run : option (bool * gset string)) (stmts : list Router.PolicyRuleDef) (visited : gset string)
    : Prop :=
  ∃ b visited', run = Some (b, visited') ∧ visited ⊆ visited' ∧ (mentions stmts → b = true) ∧ (b = true → found stmts).

(** A statement that decides nothing. *)
Lemma answers_skip run d stmts v v' :
  answers run stmts v' → v ⊆ v' → ¬ (∃ p a, d = Router.DRule p a ∧ rule_needs_geoip p = true) →
  answers run (d :: stmts) v.
Proof.
  intros (b & w & -> & Hs & H4 & H5) Hv Hd. exists b, w. rewrite mentions_cons.
  split_and!; [done|set_solver|naive_solver|]. intros E. by apply found_cons, H5.
Qed.

Lemma scan_spec rec k :
  (∀ stmts v, (unvisited v < k)%nat → answers (rec stmts v) stmts v) →
  ∀ stmts v, (unvisited v < S k)%nat → answers (scan ps rec stmts v) stmts v.
Proof.
  intros Hrec. induction stmts as [|d stmts IH]; intros v Hv.
  { exists false, v. split_and!; [done..|by intros (? & ? & ?%elem_of_nil & _)|done]. }
  destruct d as [p a|name]; cbn.
  - destruct (rule_needs_geoip p) eqn:Hp.
    + exists true, v. split_and!; [done..|]. intros _. left. apply mentions_cons. left. by exists p, a.
    + eapply answers_skip; [by apply IH|done|]. intros (? & ? & [= <- <-] & ?). congruence.
  - case_bool_decide as Hn; [eapply answers_skip; [by apply IH|done|by intros (? & ? & [=] & _)]|].
    assert (unvisited ({[name]} ∪ v) ≤ unvisited v)%nat by (apply unvisited_mono; set_solver).
    destruct (ps !! name) as [inner|] eqn:Hi.
    + pose proof (unvisited_lt name v ltac:(eauto) Hn).
      destruct (Hrec inner ({[name]} ∪ v)) as (b & v1 & -> & Hs1 & _ & Hb); [lia|]. cbn. destruct b.
      * exists true, v1. split_and!; [done|set_solver|done|]. intros _. right.
        destruct (Hb eq_refl) as [Hm|Hm]; [by exists name, inner|done].
      * pose proof (unvisited_mono v v1 ltac:(set_solver)).
        eapply answers_skip; [apply IH; lia|set_solver|by intros (? & ? & [=] & _)].
    + eapply answers_skip; [apply IH; lia|set_solver|by intros (? & ? & [=] & _)].
Qed.

(** Enough fuel gives an answer. *)
Lemma policy_needs_geoip_spec fuel stmts visited :
  (unvisited visited < fuel)%nat → answers (policy_needs_geoip fuel ps stmts visited) stmts visited.
Proof.
  revert stmts visited. induction fuel as [|fuel IH]; intros stmts visited Hf; [lia|].
  by apply (scan_spec _ fuel IH).
Qed.

Lemma any_needs_geoip_spec fuel pols visited :
  (unvisited visited < fuel)%nat →
  ∃ b visited', any_needs_geoip fuel ps pols visited = Some (b, visited') ∧
    ((∃ s, s ∈ pols ∧ mentions s) → b = true) ∧
    (b = true → ∃ s, (s ∈ pols ∨ ∃ name, ps !! name = Some s) ∧ mentions s).
Proof.
  revert visited. induction pols as [|p pols IH]; intros visited Hf; cbn.
  { exists false, visited. split_and!; [done|set_solver|done]. }
  destruct (policy_needs_geoip_spec fuel p visited Hf) as (b1 & v1 & -> & Hsub & Hb1 & Hb1'). cbn.
  destruct b1.
  - exists true, v1. split_and!; [done..|]. intros _.
    destruct (Hb1' eq_refl) as [Hm|(name & s & Hn & Hm)]; [exists p|exists s]; (split; [|done]); [set_solver|eauto].
  - destruct (IH v1) as (b & v' & -> & Hb & Hb').
    { pose proof (unvisited_mono visited v1 Hsub). lia. }
    exists b, v'. split_and!; [done| |].
    + intros (s & [->|Hs]%elem_of_cons & Hm); [by specialize (Hb1 Hm)|]. apply Hb. eauto.
    + intros E. destruct (Hb' E) as (s & Hs & Hm). exists s. set_solver.
Qed.

End geoip.

(** The search for a [country] condition finishes and is exact: it finds one
    exactly when some rule of a location, of a stream listener or of a named
    policy has one, whatever the named policies apply and in whatever circle. *)
Lemma uses_country_exact c :
  ∃ b, uses_country c = Some b ∧ (b = true ↔ ∃ s, s ∈ all_policies c ∧ mentions s).
Proof.
  unfold uses_country. destruct (any_needs_geoip_spec (policies (server c)) (geoip_fuel c) (all_policies c) ∅)
    as (b & v & -> & Hb & Hb').
  { unfold unvisited, geoip_fuel. rewrite difference_empty_L, size_dom. lia. }
  exists b. split; [done|]. split; [|done]. intros E. destruct (Hb' E) as (s & [Hs|[name Hn]] & Hm); [by exists s|].
  exists s. split; [|done]. unfold all_policies. rewrite !elem_of_app. right. right.
  apply list_elem_of_fmap. exists (name, s). split; [done|]. by apply elem_of_map_to_list.
Qed.

(** * Where the parts come from *)

(** Every part of the configuration was accepted by its parser. *)
Record parsed (src config : string) (c : Config) : Prop := {
  pd_server : server c = server_default ∨ ∃ n, parse_server src n = Ok (server c);
  pd_listeners : ∀ l, l ∈ listeners c → ∃ n, parse_listener src n = Ok l;
  pd_vhosts : ∀ v, v ∈ c_vhosts c → ∃ n, parse_vhost src config n = Ok v;
  pd_certs : ∀ d, d ∈ certificates c → ∃ n, ParseTls.parse_certificate src n = Ok d;
}.

Lemma parsed_default src config : parsed src config config_default.
Proof. split; [by left|set_solver..]. Qed.

Lemma parse_top_parsed src config n c c' : parse_top src config n c = Ok c' → parsed src config c → parsed src config c'.
Proof.
  intros Hp [Hs Hl Hv Hc]. revert Hp. unfold parse_top. repeat case_match; try done;
    intros (x & Hx & [= <-])%bind_Ok; split; cbn; eauto; intros y; rewrite elem_of_app, list_elem_of_singleton;
    intros [Hy| ->]; eauto.
Qed.

Lemma parse_doc_parsed src config doc c c' :
  parse_doc src config doc c = Ok c' → parsed src config c → parsed src config c'.
Proof.
  revert c. induction doc as [|n doc IH]; intros c; cbn; [by intros [= <-]|].
  intros (c1 & Ht & Hd)%bind_Ok Hc. apply (IH c1 Hd). by eapply parse_top_parsed.
Qed.

(** What the loader adds to a listener is its [Alt-Svc] value. *)
Definition same_listener (l l' : ListenerConfig) : Prop :=
  bind l = bind l' ∧ tls l = tls l' ∧ proxy l = proxy l' ∧ vhosts l = vhosts l' ∧
  reject_unknown_host l = reject_unknown_host l' ∧ health l = health l' ∧
  accept_proxy_protocol l = accept_proxy_protocol l' ∧ trusted_proxies l = trusted_proxies l'.

Lemma announce_same ports l : same_listener l (announce ports l).
Proof. unfold announce. repeat case_match; by repeat split. Qed.

(** A listener as its parser leaves it. *)
Record listener_parsed (l : ListenerConfig) : Prop := {
  lp_bind : Bind.bound_ok (bind l);
  lp_source : ∀ t, tls l = Some t → ParseTls.source_ok (ParseTls.cert t);
  lp_mtls : ∀ t m, tls l = Some t → ParseTls.mtls t = Some m → ParseTls.cas m ≠ [];
  lp_upstream : ∀ p, proxy l = Some p → Bind.bound_ok (p_upstream p);
  lp_policy : ∀ p ds, proxy l = Some p → p_policy p = Some ds →
    existsb Access.rule_needs_auth (ParseRules.rules_of ds) = false;
  lp_proxy : is_Some (proxy l) → vhosts l = [] ∧ health l = None;
  lp_trusted : trusted_proxies l ≠ [] → is_Some (accept_proxy_protocol l);
}.

Lemma parse_accept_ok (n : node) accept trusted :
  parse_accept n = Ok (accept, trusted) → trusted ≠ [] → is_Some accept.
Proof.
  intros (a & _ & Hq)%bind_Ok. apply bind_Ok in Hq as (tr & _ & Hq). revert Hq.
  destruct (_ && _) eqn:E; [done|]. intros [= <- <-] Hne. destruct a; [eauto|].
  rewrite (bool_decide_true (None = None)), andb_true_r in E by done.
  apply negb_false_iff, bool_decide_eq_true in E. by destruct tr.
Qed.

Lemma parse_l4_ok n px p :
  parse_l4_proxy n px = Ok p →
  Bind.bound_ok (p_upstream p) ∧ (∀ ds, p_policy p = Some ds → existsb Access.rule_needs_auth (ParseRules.rules_of ds) = false).
Proof.
  unfold parse_l4_proxy. repeat (case_match; [done|]). intros Hq. apply bind_Ok in Hq as (us & _ & Hq).
  apply bind_Ok in Hq as (up & Hup & Hq). apply bind_Ok in Hq as (pp & _ & Hq).
  apply bind_Ok in Hq as (pol & Hpol & [= <-]). cbn. split; [by eapply Bind.parse_bound_ok|].
  intros ds ->. apply ParseHandler.opt_try_Some in Hpol as (pn & _ & Hp). by eapply ParseRules.stream_rules_no_auth.
Qed.

Lemma listener_tls_ok cs t :
  ParseTls.parse_listener_tls cs = Ok (Some t) →
  ParseTls.source_ok (ParseTls.cert t) ∧ ∀ m, ParseTls.mtls t = Some m → ParseTls.cas m ≠ [].
Proof.
  unfold ParseTls.parse_listener_tls. repeat case_match; try done.
  intros (t' & Ht & [= <-])%bind_Ok. by apply ParseTls.parse_tls_node_ok in Ht as (? & _ & ?).
Qed.

Lemma parse_listener_ok src n l : parse_listener src n = Ok l → listener_parsed l.
Proof.
  intros (bs & _ & Hq)%bind_Ok. apply bind_Ok in Hq as (a & Ha & Hq). apply bind_Ok in Hq as (t & Ht & Hq).
  apply Bind.parse_bound_ok in Ha. destruct (existsb bare_alpn (nodes n)); [done|].
  apply bind_Ok in Hq as (q & _ & Hq).
  assert (∀ t', t = Some t' → ParseTls.source_ok (ParseTls.cert t') ∧
    ∀ m, ParseTls.mtls t' = Some m → ParseTls.cas m ≠ []) as Htls by (intros t' ->; by eapply listener_tls_ok).
  destruct (find_child n "proxy") as [px|].
  - apply bind_Ok in Hq as (p & [Hp1 Hp2]%parse_l4_ok & Hq). apply bind_Ok in Hq as ([acc tr] & Hacc & [= <-]).
    split; cbn; [done|apply Htls|intros ? ? E; by apply (Htls _ E)| | |done|by eapply parse_accept_ok];
      intros; by simplify_eq; eauto.
  - destruct (has_child n "policy"); [done|]. apply bind_Ok in Hq as (refs & _ & Hq).
    apply bind_Ok in Hq as (h2 & _ & Hq). apply bind_Ok in Hq as ([acc tr] & Hacc & [= <-]).
    split; cbn; [done|apply Htls|intros ? ? E; by apply (Htls _ E)|done|done|by intros [? ?]|by eapply parse_accept_ok].
Qed.

Lemma listener_parsed_same l l' : same_listener l l' → listener_parsed l → listener_parsed l'.
Proof.
  intros (E1 & E2 & E3 & E4 & E5 & E6 & E7 & E8) [Hq H5 H6 H7 H8 H9 H10].
  split; rewrite <- ?E1, <- ?E2, <- ?E3, <- ?E4, <- ?E6, <- ?E7, <- ?E8; eauto.
Qed.

Lemma certificate_ok src n d :
  ParseTls.parse_certificate src n = Ok d →
  ParseTls.source_ok (ParseTls.cd_source d) ∧ ParseTls.is_ref (ParseTls.cd_source d) = false.
Proof.
  intros (nm & _ & Hq)%bind_Ok. repeat case_match; try done. apply bind_Ok in Hq as (t & Ht & [= <-]).
  apply ParseTls.parse_tls_node_ok in Ht as (? & Hr & _). cbn. eauto.
Qed.

(** * Loading never panics *)

Lemma acme_dirs_total ts :
  (∀ t, t ∈ ts → ParseTls.source_ok t) → is_Some (acme_dirs ts).
Proof.
  induction ts as [|t ts IH]; intros Hts; [eauto|]. destruct IH as [ds Hds]; [set_solver|].
  destruct t as [? ?| |a|?]; cbn; rewrite ?Hds; eauto.
  destruct (Hts (ParseTls.Acme a)) as [Hne _]; [set_solver|]. unfold acme_dir.
  destruct (ParseTls.acme_name a), (ParseTls.domains a); try done; cbn; eauto.
Qed.

Lemma cert_sources_ok c :
  (∀ l, l ∈ listeners c → listener_parsed l) →
  (∀ d, d ∈ certificates c → ParseTls.source_ok (ParseTls.cd_source d)) →
  ∀ t, t ∈ cert_sources c → ParseTls.source_ok t.
Proof.
  intros Hl Hc t. unfold cert_sources. rewrite elem_of_app, list_elem_of_fmap, list_elem_of_omap.
  intros [(d & -> & Hd)|(l & Hin & Ht)]; [by apply Hc|]. apply bind_Some in Ht as (tl & Htl & Ht).
  case_match; [done|]. injection Ht as <-. by apply (lp_source l); [apply Hl|].
Qed.

(** The configuration as loaded, before the result of the validation. *)
Lemma read_ok src config doc c :
  parse_doc src config doc config_default = Ok c →
  (∀ l, l ∈ listeners (announce_all c) → listener_parsed l) ∧
  (∀ d, d ∈ certificates (announce_all c) →
     ParseTls.source_ok (ParseTls.cd_source d) ∧ ParseTls.is_ref (ParseTls.cd_source d) = false) ∧
  (∀ v, v ∈ c_vhosts (announce_all c) → ∃ n, parse_vhost src config n = Ok v) ∧
  (server (announce_all c) = server_default ∨ ∃ n, parse_server src n = Ok (server (announce_all c))).
Proof.
  intros [Hs Hl Hv Hc]%parse_doc_parsed; [|apply parsed_default]. cbn. split_and!; [| |done|done].
  - intros l (l0 & -> & Hl0)%list_elem_of_fmap. destruct (Hl l0 Hl0) as [n Hn].
    eapply listener_parsed_same; [apply announce_same|by eapply parse_listener_ok].
  - intros d Hd. destruct (Hc d Hd) as [n Hn]. by eapply certificate_ok.
Qed.

Lemma validate_total c :
  (∀ l, l ∈ listeners c → listener_parsed l) →
  (∀ d, d ∈ certificates c → ParseTls.source_ok (ParseTls.cd_source d)) → is_Some (validate c).
Proof.
  intros Hl Hc. unfold validate. destruct (validate_first c); [|eauto].
  destruct (acme_dirs_total (cert_sources c)) as [ds Hds]; [by apply cert_sources_ok|].
  unfold check_cert_identity_conflicts. rewrite Hds. cbn. case_match; [|eauto].
  destruct (uses_country_exact c) as (b & Hb & _). unfold validate_last. rewrite Hb. cbn. eauto.
Qed.

(** Whatever the file contains, loading it ends with a configuration or an
    error: the search through circular policies finishes, and the index into
    the domains of an ACME source, which the parser does not leave empty,
    does not panic. *)
Theorem parse_named_total kdl text config : is_Some (parse_named kdl text config).
Proof.
  unfold parse_named. destruct (_ ≫= _) as [c|e] eqn:E; [|eauto].
  apply bind_Ok in E as (doc & _ & E). apply bind_Ok in E as (u & _ & E).
  apply bind_Ok in E as (c0 & Hc0 & [= <-]). apply read_ok in Hc0 as (Hl & Hc & _).
  destruct (validate_total (announce_all c0)) as [r Hr]; [done|naive_solver|].
  change (is_Some (r ← validate (announce_all c0); Some (_ ← r; Ok (announce_all c0)))). rewrite Hr. cbn. eauto.
Qed.

(** * What validation establishes *)

Record valid (c : Config) : Prop := {
  va_listeners : listeners c ≠ [];
  va_vhosts : ∀ l, l ∈ listeners c → proxy l = None → c_vhosts c ≠ [];
  va_health : check_health (s_health (server c)) = Ok tt;
  va_layers : ∀ l, l ∈ listeners c → check_listener l = Ok tt;
  va_jwt : is_jwt (auth (server c)) = true → is_Some (state_dir (server c));
  va_names : NoDup (ParseTls.cd_name <$> certificates c);
  va_refs : ∀ l, l ∈ listeners c → check_ref c l = Ok tt;
  va_acme : uses_acme c = true → is_Some (state_dir (server c));
  va_dirs : ∃ dirs, acme_dirs (cert_sources c) = Some dirs ∧ NoDup dirs;
  va_files : NoDup (file_pairs (cert_sources c));
  va_regex : ∀ v n, v ∈ c_vhosts c → n ∈ names_of v → Router.hn_regex n = true →
    is_Some (regex_new (Router.hn_value n));
  va_scopes : ∃ m, by_handle (c_vhosts c) ∅ = Ok m ∧ ∀ l, l ∈ listeners c → check_scope c m l = Ok tt;
  va_country : (∃ s, s ∈ all_policies c ∧ mentions s) → is_Some (geoip (server c));
}.

Lemma negb_and_false a b : negb (a && negb b) = true ↔ (a = true → b = true).
Proof. destruct a, b; naive_solver. Qed.

Lemma validate_first_Ok c u :
  validate_first c = Ok u →
  listeners c ≠ [] ∧ (∀ l, l ∈ listeners c → proxy l = None → c_vhosts c ≠ []) ∧
  check_health (s_health (server c)) = Ok tt ∧ (∀ l, l ∈ listeners c → check_listener l = Ok tt) ∧
  (is_jwt (auth (server c)) = true → is_Some (state_dir (server c))) ∧
  NoDup (ParseTls.cd_name <$> certificates c) ∧ (∀ l, l ∈ listeners c → check_ref c l = Ok tt) ∧
  (uses_acme c = true → is_Some (state_dir (server c))).
Proof.
  intros Hq. apply bind_Ok in Hq as (? & E1%check_Ok & Hq). apply bind_Ok in Hq as (? & E2%check_Ok & Hq).
  apply bind_Ok in Hq as (? & _ & Hq). apply bind_Ok in Hq as (? & _ & Hq).
  apply bind_Ok in Hq as ([] & E3 & Hq). apply bind_Ok in Hq as (? & E4 & Hq).
  apply bind_Ok in Hq as (? & E5%check_Ok & Hq). apply bind_Ok in Hq as (? & E6%check_Ok & Hq).
  apply bind_Ok in Hq as (? & E7 & E8%check_Ok). rewrite each_Ok in E4, E7.
  rewrite negb_and_false, some_is_Some in E5, E8. split_and!; try done.
  - intros E. by rewrite E in E1.
  - intros l Hl Hp E. rewrite E in E2. cbn in E2. rewrite andb_true_r in E2. apply negb_true_iff in E2.
    apply not_true_iff_false in E2. apply E2, existsb_exists. exists l. split; [by apply list_elem_of_In|].
    by rewrite (proj2 (some_is_None _)).
  - by apply bool_decide_eq_true in E6.
Qed.

Lemma check_regexes_Ok v :
  check_regexes v = Ok tt → ∀ n, n ∈ names_of v → Router.hn_regex n = true → is_Some (regex_new (Router.hn_value n)).
Proof.
  unfold check_regexes. rewrite each_Ok. intros Hall n Hn Hr. specialize (Hall n Hn). apply check_Ok in Hall.
  rewrite Hr in Hall. cbn in Hall. by apply some_is_Some in Hall.
Qed.

Lemma validate_last_Ok c u :
  validate_last c = Some (Ok u) →
  (∀ v, v ∈ c_vhosts c → check_regexes v = Ok tt) ∧
  (∃ m, by_handle (c_vhosts c) ∅ = Ok m ∧ ∀ l, l ∈ listeners c → check_scope c m l = Ok tt) ∧
  ((∃ s, s ∈ all_policies c ∧ mentions s) → is_Some (geoip (server c))).
Proof.
  intros Hq. destruct (uses_country_exact c) as (b & Hb & Hx). unfold validate_last in Hq. rewrite Hb in Hq.
  cbn [mbind option_bind] in Hq. injection Hq as Hq. apply bind_Ok in Hq as (? & E1 & Hq).
  apply bind_Ok in Hq as (m & E2 & Hq). apply bind_Ok in Hq as (? & E3 & Hq).
  apply bind_Ok in Hq as (? & _ & E4%check_Ok). rewrite each_Ok in E1. rewrite each_Ok in E3.
  rewrite negb_and_false, some_is_Some, Hx in E4. split_and!; eauto.
Qed.

Lemma validate_Ok c u : validate c = Some (Ok u) → valid c.
Proof.
  unfold validate. destruct (validate_first c) as [u1|] eqn:E1; [|done].
  apply validate_first_Ok in E1 as (? & ? & ? & ? & ? & ? & ? & ?).
  intros (r & Er & Hq)%bind_Some. apply bind_Some in Er as (dirs & Hd & [= <-]).
  destruct (_ ≫= _) as [u2|] eqn:E2; [|done].
  apply bind_Ok in E2 as (? & E3%check_Ok%bool_decide_eq_true & E4%check_Ok%bool_decide_eq_true).
  apply validate_last_Ok in Hq as (Hr & ? & ?). split; eauto. intros v n Hv. by apply check_regexes_Ok, Hr.
Qed.

Lemma parse_named_read kdl text config c :
  parse_named kdl text config = Some (Ok c) →
  ∃ doc c0, parse_doc text config doc config_default = Ok c0 ∧ c = announce_all c0 ∧ valid c.
Proof.
  unfold parse_named. destruct (_ ≫= _) as [c0|e] eqn:E; [|done].
  apply bind_Ok in E as (doc & _ & E). apply bind_Ok in E as (u & _ & E). apply bind_Ok in E as (c1 & Hc1 & [= <-]).
  intros (r & Hr & Hq)%bind_Some. destruct r as [u'|]; [|done]. injection Hq as <-.
  exists doc, c1. split_and!; [done..|by eapply validate_Ok].
Qed.

(** What is known of a configuration that loaded. *)
Lemma parse_named_Ok kdl text config c :
  parse_named kdl text config = Some (Ok c) →
  valid c ∧ (∀ l, l ∈ listeners c → listener_parsed l) ∧
  (∀ d, d ∈ certificates c → ParseTls.source_ok (ParseTls.cd_source d) ∧ ParseTls.is_ref (ParseTls.cd_source d) = false) ∧
  (∀ v, v ∈ c_vhosts c → ∃ n, parse_vhost text config n = Ok v) ∧
  (server c = server_default ∨ ∃ n, parse_server text n = Ok (server c)).
Proof. intros (doc & c0 & Hc & -> & Hv)%parse_named_read. split; [done|by eapply read_ok]. Qed.

(** * Listeners *)

(** The upstreams a stream proxy connects to. *)
Definition stream_upstream (a : BoundAddr) : bool :=
  match Bind.kind a, Bind.location a with
  | Bind.TcpStream, Bind.LInet _ | Bind.UnixStream, Bind.LUnix _ => true
  | _, _ => false
  end.

(** What runs a listener, and what that needs. *)
Inductive mode (l : ListenerConfig) : Prop :=
  | HttpListener :
      proxy l = None → Bind.is_byte_stream (Bind.kind (bind l)) = true → mode l
  | Http3Listener t :
      proxy l = None → Bind.kind (bind l) = Bind.UdpDgram → tls l = Some t → mode l
  | StreamProxy p :
      proxy l = Some p → Bind.is_byte_stream (Bind.kind (bind l)) = true → stream_upstream (p_upstream p) = true → mode l
  | DatagramProxy p :
      proxy l = Some p → Bind.is_datagram_stream (Bind.kind (bind l)) = true → tls l = None →
      Dgram.supported (p_upstream p) = true → p_proxy_protocol p = None → p_upstream_tls p = None → mode l.

Lemma stream_upstream_ok a : Bind.bound_ok a → Bind.is_byte_stream (Bind.kind a) = true → stream_upstream a = true.
Proof. destruct a as [[] []]; unfold Bind.bound_ok, stream_upstream; cbn; try done; by intros []. Qed.

Lemma datagram_upstream_ok a :
  Bind.bound_ok a → Bind.is_datagram_stream (Bind.kind a) = true → Dgram.supported a = true.
Proof. destruct a as [[] []]; unfold Bind.bound_ok, Dgram.supported; cbn; try done; by intros []. Qed.

Lemma check_proxy_Ok kind p :
  check_proxy kind p = Ok tt →
  Bind.is_byte_stream (Bind.kind (p_upstream p)) = Bind.is_byte_stream kind ∧ p_upstream_dtls p = None ∧
  (Bind.is_byte_stream (Bind.kind (p_upstream p)) = false → p_upstream_tls p = None ∧ p_proxy_protocol p = None).
Proof.
  intros Hq. apply bind_Ok in Hq as (? & E1%check_Ok & Hq). apply bind_Ok in Hq as (? & E2%check_Ok & Hq).
  apply bind_Ok in Hq as (? & E3%check_Ok & Hq). apply bind_Ok in Hq as (? & _ & Hq).
  apply bind_Ok in Hq as (? & E5%check_Ok & E6%check_Ok). rewrite negb_and_false in E1, E2, E3, E6.
  apply negb_true_iff, some_is_None in E5. unfold Bind.is_datagram_stream in *. split_and!; [|done|].
  - destruct (Bind.is_byte_stream kind), (Bind.is_byte_stream (Bind.kind (p_upstream p)));
      [done|by specialize (E1 eq_refl)|by specialize (E2 eq_refl)|done].
  - intros Hf. rewrite Hf in E3, E6. split; apply some_is_None; apply not_true_iff_false; intros E;
      [by specialize (E3 E)|by specialize (E6 E)].
Qed.

Lemma check_listener_mode l : listener_parsed l → check_listener l = Ok tt → mode l.
Proof.
  intros Hl Hq. apply bind_Ok in Hq as (? & E1%check_Ok & Hq). apply bind_Ok in Hq as (? & E2%check_Ok & Hq).
  apply bind_Ok in Hq as (? & E3%check_Ok & Hq).
  destruct (Bind.is_byte_stream (Bind.kind (bind l))) eqn:Hk; destruct (proxy l) as [p|] eqn:Hp.
  - apply check_proxy_Ok in Hq as (Hu & _ & _). eapply StreamProxy; [done..|].
    apply stream_upstream_ok; [by eapply lp_upstream|congruence].
  - by apply HttpListener.
  - apply check_proxy_Ok in Hq as (Hu & _ & Hn). rewrite Hk in Hu. destruct (Hn Hu) as [Ht Hpp].
    assert (tls l = None) as Htls.
    { destruct (tls l) as [t|] eqn:Et; [|done]. cbn in E1, E2.
      by destruct (bool_decide (Bind.kind (bind l) = Bind.UdpDgram)). }
    eapply DatagramProxy; eauto; [by unfold Bind.is_datagram_stream; rewrite Hk|].
    apply datagram_upstream_ok; [by eapply lp_upstream|]. unfold Bind.is_datagram_stream. by rewrite Hu.
  - destruct (tls l) as [t|] eqn:Et.
    + eapply Http3Listener; eauto. cbn in E1.
      destruct (bool_decide_reflect (Bind.kind (bind l) = Bind.UdpDgram)); done.
    + unfold Bind.is_datagram_stream in E3. rewrite Hk in E3. done.
Qed.

(** C36: every listener of a loaded configuration is one of four: HTTP on a byte
    stream, HTTP/3 on UDP with a certificate source, a stream proxy to a
    stream upstream, or a datagram proxy to an upstream the flow table can
    open, without a TLS or PROXY-protocol setting it would ignore.  The policy
    of a proxy asks for no identity of its own, and PROXY headers are read
    where a list of trusted senders is given. *)
Theorem loaded_listener_mode kdl text config c l :
  parse_named kdl text config = Some (Ok c) → l ∈ listeners c →
  mode l ∧ (trusted_proxies l ≠ [] → is_Some (accept_proxy_protocol l)) ∧
  ∀ p ds, proxy l = Some p → p_policy p = Some ds → existsb Access.rule_needs_auth (ParseRules.rules_of ds) = false.
Proof.
  intros (Hv & Hl & _)%parse_named_Ok Hin. specialize (Hl l Hin). split_and!.
  - apply check_listener_mode; [done|by apply (va_layers c Hv)].
  - apply (lp_trusted l Hl).
  - apply (lp_policy l Hl).
Qed.

(** * HTTP/3 announcements *)

Lemma parse_listener_silent src n l : parse_listener src n = Ok l → auto_alt_svc l = None.
Proof.
  intros (bs & _ & Hq)%bind_Ok. apply bind_Ok in Hq as (a & _ & Hq). apply bind_Ok in Hq as (t & _ & Hq).
  destruct (existsb bare_alpn (nodes n)); [done|]. apply bind_Ok in Hq as (q & _ & Hq).
  destruct (find_child n "proxy") as [px|].
  - apply bind_Ok in Hq as (p & _ & Hq). by apply bind_Ok in Hq as ([acc tr] & _ & [= <-]).
  - destruct (has_child n "policy"); [done|]. apply bind_Ok in Hq as (refs & _ & Hq).
    apply bind_Ok in Hq as (h2 & _ & Hq). by apply bind_Ok in Hq as ([acc tr] & _ & [= <-]).
Qed.

(** HTTPS over TCP on a port. *)
Definition https_on (p : N) (l : ListenerConfig) : Prop :=
  Bind.kind (bind l) = Bind.TcpStream ∧ is_Some (tls l) ∧ proxy l = None ∧ port_of l = Some p.

(** HTTP/3 on a port. *)
Definition http3_on (p : N) (l : ListenerConfig) : Prop :=
  Bind.kind (bind l) = Bind.UdpDgram ∧ is_Some (tls l) ∧ port_of l = Some p.

Lemma announce_value ports l v :
  auto_alt_svc l = None →
  auto_alt_svc (announce ports l) = Some v ↔ ∃ p, https_on p l ∧ p ∈ ports ∧ v = alt_svc_text p.
Proof.
  intros Hl. unfold announce, https_on.
  destruct (bool_decide_reflect (Bind.kind (bind l) = Bind.TcpStream)) as [|]; cbn; [|rewrite Hl; naive_solver].
  destruct (bool_decide_reflect (is_Some (tls l))) as [|]; cbn; [|rewrite Hl; naive_solver].
  destruct (bool_decide_reflect (is_Some (proxy l))) as [[? Hp]|Hp%eq_None_not_Some]; cbn; [rewrite Hl, Hp; naive_solver|].
  destruct (port_of l) as [p|]; [|rewrite Hl; naive_solver].
  destruct (bool_decide_reflect (p ∈ ports)); cbn; rewrite ?Hl; naive_solver.
Qed.

Lemma udp_ports_spec ls p : p ∈ udp_ports ls ↔ ∃ l, l ∈ ls ∧ http3_on p l.
Proof.
  unfold udp_ports, http3_on. rewrite list_elem_of_omap. setoid_rewrite list_elem_of_In.
  setoid_rewrite filter_In. setoid_rewrite andb_true_iff. setoid_rewrite bool_decide_eq_true. naive_solver.
Qed.

Lemma same_https p l l' : same_listener l l' → https_on p l ↔ https_on p l'.
Proof. intros (E1 & E2 & E3 & _). unfold https_on, port_of. by rewrite E1, E2, E3. Qed.

Lemma same_http3 p l l' : same_listener l l' → http3_on p l ↔ http3_on p l'.
Proof. intros (E1 & E2 & _). unfold http3_on, port_of. by rewrite E1, E2. Qed.

Lemma http3_no_proxy p l : listener_parsed l → check_listener l = Ok tt → http3_on p l → proxy l = None.
Proof.
  intros Hl Hc (Hk & Ht & _). destruct (check_listener_mode l Hl Hc) as [? ?|? ? ?|? ? Hb|? ? ? Hn]; [done|done| |].
  - by rewrite Hk in Hb.
  - rewrite Hn in Ht. by destruct Ht.
Qed.

(** The HTTPS listeners of a loaded configuration that announce HTTP/3 are
    those with an HTTP/3 listener on the same port, and the port they announce
    is that one: no other listener has an announcement. *)
Theorem loaded_alt_svc kdl text config c l v :
  parse_named kdl text config = Some (Ok c) → l ∈ listeners c →
  auto_alt_svc l = Some v ↔
  ∃ p l', https_on p l ∧ l' ∈ listeners c ∧ http3_on p l' ∧ proxy l' = None ∧ v = alt_svc_text p.
Proof.
  intros Hc Hin. pose proof (parse_named_Ok _ _ _ _ Hc) as (Hv & Hlp & _).
  apply parse_named_read in Hc as (doc & c0 & Hd & -> & _).
  apply parse_doc_parsed in Hd as [_ Hls _ _]; [|apply parsed_default].
  apply list_elem_of_fmap in Hin as (l0 & -> & Hl0).
  destruct (Hls l0 Hl0) as [n Hn%parse_listener_silent]. rewrite announce_value by done. split.
  - intros (p & Hs & Hp & ->). apply udp_ports_spec in Hp as (l' & Hl' & Hh3).
    set (f := announce (udp_ports (listeners c0))).
    assert (f l' ∈ listeners (announce_all c0)) as Hin' by (by apply list_elem_of_fmap_2).
    assert (http3_on p (f l')) as Hh3' by (by apply (same_http3 p l' _ (announce_same _ l'))).
    exists p, (f l'). split_and!; try done; [by apply (same_https p l0 _ (announce_same (udp_ports (listeners c0)) l0))|].
    eapply http3_no_proxy; [by apply Hlp|by apply (va_layers _ Hv)|done].
  - intros (p & l' & Hs & Hl' & Hh3 & _ & ->). exists p. split_and!; [by apply (same_https p l0 _ (announce_same (udp_ports (listeners c0)) l0))| |done].
    apply list_elem_of_fmap in Hl' as (l1 & -> & Hl1). apply udp_ports_spec. exists l1. split; [done|].
    by apply (same_http3 p l1 _ (announce_same (udp_ports (listeners c0)) l1)).
Qed.

(** * Certificates *)

Lemma find_cert_some c name :
  existsb (λ d, String.eqb (ParseTls.cd_name d) name) (certificates c) = true →
  ∃ d, List.find (λ d, String.eqb (ParseTls.cd_name d) name) (certificates c) = Some d ∧ d ∈ certificates c.
Proof.
  induction (certificates c) as [|d ds IH]; cbn; [done|]. destruct (String.eqb (ParseTls.cd_name d) name); cbn.
  - intros _. exists d. set_solver.
  - intros (d' & -> & ?)%IH. exists d'. set_solver.
Qed.

(** Every TLS listener of a loaded configuration has a certificate source: its
    reference resolves to a definition that is no reference itself, an ACME
    order has a domain and a challenge that can validate it, with a directory
    to keep the certificate in; and no two sources are stored in the same
    place. *)
Theorem loaded_certificates kdl text config c :
  parse_named kdl text config = Some (Ok c) →
  (∀ l t, l ∈ listeners c → tls l = Some t →
     ∃ s, resolve_cert c (ParseTls.cert t) = Some s ∧ ParseTls.is_ref s = false ∧ ParseTls.source_ok s ∧
       (is_acme s = true → is_Some (state_dir (server c)))) ∧
  (∃ dirs, acme_dirs (cert_sources c) = Some dirs ∧ NoDup dirs) ∧ NoDup (file_pairs (cert_sources c)).
Proof.
  intros (Hv & Hl & Hc & _)%parse_named_Ok. split; [|split; [apply (va_dirs c Hv)|apply (va_files c Hv)]].
  intros l t Hin Ht. pose proof (va_refs c Hv l Hin) as Hr. unfold check_ref in Hr. rewrite Ht in Hr.
  apply check_Ok in Hr. assert (∃ s, resolve_cert c (ParseTls.cert t) = Some s ∧ ParseTls.is_ref s = false ∧
    ParseTls.source_ok s) as (s & Hs & Hn & Hok).
  { pose proof (lp_source l (Hl l Hin) t Ht) as Hso. unfold resolve_cert.
    destruct (ParseTls.cert t) as [? ?| |a|name]; try by eexists.
    destruct (find_cert_some c name Hr) as (d & -> & Hd). exists (ParseTls.cd_source d). cbn.
    destruct (Hc d Hd). done. }
  exists s. split_and!; [done..|]. intros Ha. apply (va_acme c Hv). unfold uses_acme. apply orb_true_iff. left.
  apply existsb_exists. exists t. split; [|by rewrite Hs]. apply list_elem_of_In, list_elem_of_omap. eauto.
Qed.

(** * Routing tables *)

(** What the router reads of a vhost and of a listener. *)
Definition to_router (v : VHostConfig) : Router.VHostConfig :=
  {| Router.vc_name := v_name v; Router.vc_aliases := v_aliases v; Router.vc_handle := handle v;
     Router.vc_explicit_only := v_explicit_only v |}.

Definition to_router_listener (l : ListenerConfig) : Router.ListenerConfig :=
  {| Router.lc_vhosts := vhosts l; Router.lc_reject_unknown_host := reject_unknown_host l |}.

(** The handles of the vhosts with their positions, as the router collects
    them. *)
Fixpoint index_from (i : nat) (vs : list VHostConfig) (acc : gmap string nat) : gmap string nat :=
  match vs with [] => acc | v :: vs' => index_from (S i) vs' (<[handle v := i]> acc) end.

Definition handle_index (vs : list VHostConfig) : gmap string nat := index_from 0 vs ∅.

Lemma by_handle_Ok vs acc m :
  by_handle vs acc = Ok m →
  NoDup (handle <$> vs) ∧ (∀ v, v ∈ vs → acc !! handle v = None) ∧
  ∀ h v, m !! h = Some v → acc !! h = Some v ∨ v ∈ vs ∧ handle v = h.
Proof.
  revert acc. induction vs as [|v vs IH]; intros acc; cbn.
  { intros [= <-]. split_and!; [constructor|set_solver|auto]. }
  destruct (some (acc !! handle v)) eqn:E; [done|]. apply some_is_None in E.
  intros (Hnd & Hfresh & Hm)%IH. split_and!.
  - constructor; [|done]. intros (w & Ew & Hw)%list_elem_of_fmap. specialize (Hfresh w Hw).
    rewrite <- Ew, lookup_insert_eq in Hfresh. done.
  - intros w [->|Hw]%elem_of_cons; [done|]. specialize (Hfresh w Hw). by apply lookup_insert_None in Hfresh as [? _].
  - intros h w Hw. destruct (Hm h w Hw) as [Hi|[Hin <-]]; [|set_solver].
    apply lookup_insert_Some in Hi as [[<- <-]|[_ ?]]; [right|by left]. set_solver.
Qed.

Lemma index_from_other i vs acc h : h ∉ handle <$> vs → index_from i vs acc !! h = acc !! h.
Proof.
  revert i acc. induction vs as [|v vs IH]; intros i acc Hh; [done|]. cbn in *.
  rewrite IH by set_solver. apply lookup_insert_ne. set_solver.
Qed.

Lemma index_from_lookup i vs acc j v :
  NoDup (handle <$> vs) → vs !! j = Some v → index_from i vs acc !! handle v = Some (i + j)%nat.
Proof.
  revert i acc j. induction vs as [|w vs IH]; intros i acc j; [done|]. cbn [fmap list_fmap].
  intros [Hn Hnd]%NoDup_cons. destruct j as [|j]; cbn.
  - intros [= ->]. by rewrite index_from_other, lookup_insert_eq, Nat.add_0_r.
  - intros Hj. rewrite (IH _ _ j) by done. f_equal. lia.
Qed.

Lemma implicit_indices pre vs :
  Forall2 (λ i v, (pre ++ vs) !! i = Some v)
    (omap (λ '(i, v), if Router.vc_explicit_only v then None else Some i)
       (imap (λ j v, ((length pre + j)%nat, v)) (to_router <$> vs)))
    (List.filter (λ v, negb (v_explicit_only v)) vs).
Proof.
  revert pre. induction vs as [|v vs IH]; intros pre; [constructor|]. cbn.
  specialize (IH (pre ++ [v])). rewrite <- app_assoc in IH. cbn in IH. rewrite length_app in IH. cbn in IH.
  assert (imap (λ j w, ((length pre + 1 + j)%nat, w)) (to_router <$> vs)
    = imap ((λ j w, ((length pre + j)%nat, w)) ∘ S) (to_router <$> vs)) as E
    by (apply imap_ext; intros j w _; cbn; f_equal; lia).
  rewrite E in IH. rewrite Nat.add_0_r. destruct (v_explicit_only v); cbn; [done|]. constructor; [|done].
  by rewrite lookup_app_r, Nat.sub_diag by lia.
Qed.

Lemma indices_effective c m l vs :
  by_handle (c_vhosts c) ∅ = Ok m → effective c m l = Ok vs →
  Forall2 (λ i v, c_vhosts c !! i = Some v)
    (Router.listener_indices (to_router <$> c_vhosts c) (handle_index (c_vhosts c)) (to_router_listener l)) vs.
Proof.
  intros (Hnd & _ & Hm)%by_handle_Ok. unfold effective, Router.listener_indices. cbn [Router.lc_vhosts to_router_listener].
  destruct (decide (vhosts l = [])) as [E|E].
  - intros [= <-]. exact (implicit_indices [] (c_vhosts c)).
  - intros Hq%try_map_Ok. clear E. induction Hq as [|h v hs vs Hh _ IH]; [constructor|]. cbn.
    destruct (m !! h) as [w|] eqn:Ew; [|done]. injection Hh as ->.
    destruct (Hm h v Ew) as [Hx|[Hin <-]]; [by rewrite lookup_empty in Hx|].
    apply list_elem_of_lookup in Hin as [j Hj]. unfold handle_index at 1.
    rewrite (index_from_lookup 0 _ _ j v) by done. by constructor.
Qed.

Context {payload : Type}.
Abbreviation VHost := (Router.VHost (payload := payload)) (only parsing).
Abbreviation VhostTable := (Router.VhostTable (payload := payload)) (only parsing).

Definition lits (ns : list Router.HostName) : list string :=
  omap (λ n, if Router.hn_regex n then None else Some (Router.hn_value n)) ns.

(** The pattern the router compiles for a host name. *)
Definition anchored (n : Router.HostName) : Prop :=
  Router.hn_regex n = true → is_Some (regex_new ("^(?:" +:+ Router.hn_value n +:+ ")$")).

Lemma add_names_ok (vh : VHost) ns (t : VhostTable) :
  (∀ n, n ∈ ns → anchored n) →
  ∃ t', Router.add_names vh ns t = Some t' ∧
    ∀ host, Router.literals t' !! host = if decide (host ∈ lits ns) then Some vh else Router.literals t !! host.
Proof.
  revert t. induction ns as [|n ns IH]; intros t Ha; cbn.
  { exists t. split; [done|]. intros host. by rewrite decide_False by set_solver. }
  assert (∀ n, n ∈ ns → anchored n) as Ha' by (intros; apply Ha; set_solver).
  assert (anchored n) as Hn by (apply Ha; set_solver).
  unfold Router.add_name. destruct (Router.hn_regex n) eqn:E; cbn.
  - destruct (Hn E) as [re ->]. cbn.
    destruct (IH {| Router.literals := Router.literals t; Router.patterns := Router.patterns t ++ [(re, vh)];
      Router.table_default := Router.table_default t |} Ha') as (t' & -> & Ht').
    exists t'. split; [done|]. intros host. rewrite Ht'. done.
  - destruct (IH {| Router.literals := <[Router.hn_value n := vh]> (Router.literals t);
      Router.patterns := Router.patterns t; Router.table_default := Router.table_default t |} Ha') as (t' & -> & Ht').
    exists t'. split; [done|]. intros host. rewrite Ht'. cbn. fold (lits ns).
    destruct (decide (host ∈ lits ns)) as [Hl|Hl]; [by rewrite decide_True by set_solver|].
    destruct (decide (host = Router.hn_value n)) as [->|Hne].
    + by rewrite decide_True, lookup_insert_eq by set_solver.
    + by rewrite decide_False, lookup_insert_ne by set_solver.
Qed.

Lemma add_vhosts_ok (cfgs : list VHostConfig) (built : list VHost) ixs vs (t : VhostTable) :
  length built = length cfgs → Forall2 (λ i v, cfgs !! i = Some v) ixs vs →
  (∀ v n, v ∈ vs → n ∈ names_of v → anchored n) → NoDup (vs ≫= literal_names) →
  ∃ t', Router.add_vhosts (to_router <$> cfgs) built ixs t = Some t' ∧
    (∀ host, host ∉ vs ≫= literal_names → Router.literals t' !! host = Router.literals t !! host) ∧
    ∀ i v host, (i, v) ∈ zip ixs vs → host ∈ literal_names v → Router.literals t' !! host = built !! i.
Proof.
  intros Hlen Hix. revert t. induction Hix as [|i v ixs vs Hi Hix IH]; intros t Ha Hnd.
  { exists t. split_and!; [done|done|set_solver]. }
  cbn in Hnd. apply NoDup_app in Hnd as (Hnd1 & Hdis & Hnd2).
  destruct (built !! i) as [vh|] eqn:Hb.
  2:{ apply lookup_ge_None in Hb. apply lookup_lt_Some in Hi. lia. }
  destruct (add_names_ok vh (names_of v) t) as (t1 & Ht1 & Hl1); [intros n Hn; by apply (Ha v); [set_solver|]|].
  change (lits (names_of v)) with (literal_names v) in Hl1.
  destruct (IH t1) as (t' & Ht' & Hout & Hin); [intros w n Hw; apply Ha; set_solver|done|].
  exists t'. split_and!.
  - cbn [Router.add_vhosts]. rewrite list_lookup_fmap, Hi. cbn [option_fmap fmap option_map mbind option_bind].
    rewrite Hb. cbn [mbind option_bind].
    change (Router.vc_name _ :: Router.vc_aliases _) with (names_of v). by rewrite Ht1.
  - intros host Hh. cbn in Hh. rewrite elem_of_app in Hh. rewrite Hout, Hl1 by naive_solver.
    by rewrite decide_False by naive_solver.
  - intros j w host [E|Hz]%elem_of_cons Hh.
    + injection E as -> ->. rewrite Hout, Hl1 by (by apply Hdis). by rewrite decide_True.
    + by eapply Hin.
Qed.

(** The routing table of every HTTP listener of a loaded configuration is
    built without panicking, provided the anchored host patterns compile as
    the plain ones did; it serves the vhosts the listener names, or all that
    are not explicit-only, in that order, and a literal host name leads to the
    one vhost of the listener that bears it. *)
Lemma loaded_routes kdl text config c l (built : list VHost) :
  parse_named kdl text config = Some (Ok c) → l ∈ listeners c → proxy l = None →
  length built = length (c_vhosts c) →
  (∀ v n, v ∈ c_vhosts c → n ∈ names_of v → anchored n) →
  let ixs := Router.listener_indices (to_router <$> c_vhosts c) (handle_index (c_vhosts c)) (to_router_listener l) in
  ∃ vs t, Forall2 (λ i v, c_vhosts c !! i = Some v) ixs vs ∧
    (vhosts l ≠ [] → handle <$> vs = vhosts l) ∧
    (vhosts l = [] → vs = List.filter (λ v, negb (v_explicit_only v)) (c_vhosts c)) ∧
    Router.build_table (to_router <$> c_vhosts c) built (handle_index (c_vhosts c)) (to_router_listener l) = Some t ∧
    ∀ i v host, (i, v) ∈ zip ixs vs → host ∈ literal_names v → Router.literals t !! host = built !! i.
Proof.
  intros (Hv & _)%parse_named_Ok Hl Hp Hlen Ha ixs. destruct (va_scopes c Hv) as (m & Hm & Hs).
  specialize (Hs l Hl). unfold check_scope in Hs. rewrite Hp in Hs.
  apply bind_Ok in Hs as (vs & Hvs & Hnd%check_Ok%bool_decide_eq_true).
  pose proof (indices_effective c m l vs Hm Hvs) as Hix. fold ixs in Hix.
  assert (∀ v, v ∈ vs → v ∈ c_vhosts c) as Hsub.
  { intros v (i & Hi)%list_elem_of_lookup. eapply Forall2_lookup_r in Hix as (j & _ & Hj); [|done].
    by eapply list_elem_of_lookup_2. }
  destruct (add_vhosts_ok (c_vhosts c) built ixs vs Router.empty_table Hlen Hix) as (t & Ht & _ & Hlit);
    [intros v n Hin; apply Ha; auto|done|].
  exists vs. eexists. split_and!; [done| | | |].
  - intros Hne. unfold effective in Hvs. rewrite decide_False in Hvs by done.
    apply by_handle_Ok in Hm as (_ & _ & Hm). apply try_map_Ok in Hvs. clear -Hvs Hm.
    induction Hvs as [|h v hs vs Hh _ IH]; [done|]. cbn. destruct (m !! h) as [w|] eqn:E; [|done].
    injection Hh as ->. destruct (Hm h v E) as [Hx|[_ <-]]; [by rewrite lookup_empty in Hx|]. by f_equal.
  - intros E. unfold effective in Hvs. rewrite decide_True in Hvs by done. by injection Hvs.
  - unfold Router.build_table. fold ixs. rewrite Ht. cbn. reflexivity.
  - exact Hlit.
Qed.

End facts.

(** * A configuration *)

Module Demo.

#[local] Existing Instances Access.host_nets RateLimit.exact_f64.

(** The ports of the addresses used here. *)
Definition read_addr (s : string) : option ProxyProto.SocketAddr :=
  port ← parse_uint 65535 s;
  Some {| ProxyProto.sa_ip := V4 0; ProxyProto.sa_port := port |}.

#[local] Instance demo_env : ConfigEnv := {|
  net_parse _ := None;
  to_uppercase s := s;
  method_from_bytes := Some;
  read_to_string _ := None;
  sa_parse := read_addr;
  f64_of_Z z := Q2Qc (z # 1);
|}.

Abbreviation entry := (KdlEntry Qc) (only parsing).
Definition a (s : string) : entry := {| e_name := None; e_value := VString s |}.
Definition kv (k s : string) : entry := {| e_name := Some k; e_value := VString s |}.
Definition leaf (nm : string) (es : list entry) : KdlNode Qc := Node nm es None 0.
Definition block (nm : string) (es : list entry) (cs : list (KdlNode Qc)) : KdlNode Qc := Node nm es (Some cs) 0.

(** A certificate, HTTPS and HTTP/3 on one port, a mail relay, two hosts. *)
Definition document : list (KdlNode Qc) :=
  [leaf "server" [kv "state-dir" "/var/lib/hs"];
   block "certificate" [a "main"] [block "tls" [a "acme"] [leaf "domain" [a "a.example"]]];
   block "listener" [a "tcp://443"] [leaf "tls" [a "ref"; kv "name" "main"]];
   block "listener" [a "udp://443"] [leaf "tls" [a "ref"; kv "name" "main"]];
   block "listener" [a "tcp://25"] [leaf "proxy" [a "tcp://2525"]];
   block "vhost" [a "a.example"] [leaf "alias" [a "www.a.example"]; block "location" [a "/"] [leaf "respond" []]];
   block "vhost" [a "b.example"] [block "location" [a "/"] [leaf "respond" []]]].

Definition kdl (_ : string) : option (list (KdlNode (@f64 RateLimit.exact_f64))) := Some document.

Definition result : option (Result Config) := parse_named kdl "" "/etc/hs.kdl".
Definition loaded : Config := match result with Some (Ok c) => c | _ => config_default end.

Definition is_loaded (r : option (Result Config)) : bool := match r with Some (Ok _) => true | _ => false end.

Lemma loads : parse_named kdl "" "/etc/hs.kdl" = Some (Ok loaded).
Proof.
  change (result = Some (Ok loaded)). assert (is_loaded result = true) as E by (vm_compute; reflexivity).
  unfold loaded. by destruct result as [[c|]|].
Qed.

Definition no_listener : ListenerConfig :=
  {| bind := {| Bind.kind := Bind.UnixDgram; Bind.location := Bind.LUnix "" |}; tls := None; proxy := None;
     accept_proxy_protocol := None; trusted_proxies := []; vhosts := []; reject_unknown_host := false;
     health := None; timeouts := timeouts_default; http2 := http2_default; max_connections := None;
     max_request_body := None; auto_alt_svc := None; alpn := None; quic_transport := None; line := 0 |}.

Definition listener (i : nat) : ListenerConfig := default no_listener (listeners loaded !! i).

Lemma listener_loaded i : (i <? length (listeners loaded))%nat = true → listener i ∈ listeners loaded.
Proof.
  intros Hi%Nat.ltb_lt. destruct (lookup_lt_is_Some_2 _ _ Hi) as [l Hl]. unfold listener. rewrite Hl.
  by eapply list_elem_of_lookup_2.
Qed.

(** The mail relay is a stream proxy, the socket on UDP speaks HTTP/3. *)
Lemma loaded_listener_mode_witness : mode (listener 2) ∧ mode (listener 1).
Proof.
  split.
  - apply (loaded_listener_mode kdl "" "/etc/hs.kdl" loaded); [apply loads|by apply listener_loaded; vm_compute].
  - apply (loaded_listener_mode kdl "" "/etc/hs.kdl" loaded); [apply loads|by apply listener_loaded; vm_compute].
Defined.

Lemma loaded_certificates_witness :
  (∃ dirs, acme_dirs (cert_sources loaded) = Some dirs ∧ NoDup dirs) ∧ NoDup (file_pairs (cert_sources loaded)).
Proof. apply (loaded_certificates kdl "" "/etc/hs.kdl" loaded), loads. Defined.

Definition vhost (name : string) : Router.VHost (payload := unit) :=
  {| Router.vh_name := name; Router.vh_locations := [] |}.

Lemma loaded_routes_witness :
  let built := [vhost "a.example"; vhost "b.example"] in
  ∃ t, Router.build_table (to_router <$> c_vhosts loaded) built (handle_index (c_vhosts loaded))
         (to_router_listener (listener 0)) = Some t.
Proof.
  intros built. edestruct (loaded_routes kdl "" "/etc/hs.kdl" loaded (listener 0) built) as (vs & t & Hq).
  - apply loads.
  - by apply listener_loaded; vm_compute.
  - vm_compute. reflexivity.
  - vm_compute. reflexivity.
  - intros v n _ _ _. by eexists.
  - exists t. apply Hq.
Defined.

(** The TCP listener announces the HTTP/3 one of its port. *)
Lemma loaded_alt_svc_witness :
  ∃ p l', https_on p (listener 0) ∧ l' ∈ listeners loaded ∧ http3_on p l' ∧ proxy l' = None ∧
    alt_svc_text 443 = alt_svc_text p.
Proof.
  apply (loaded_alt_svc kdl "" "/etc/hs.kdl" loaded (listener 0)); [apply loads|by apply listener_loaded; vm_compute|].
  vm_compute. reflexivity.
Defined.

End Demo.

End ConfigOk.
