(* ===== verification/StreamProxy.v ===== *)
(** Stream proxies ([src/listener/stream.rs], and [apply_proxy_proto] of
    [src/listener/socket.rs]): a connection is accepted, its PROXY header
    read, its TLS terminated, its peer judged by the policy of the listener,
    and its bytes relayed to one upstream.

    A byte stream is the string of what it will deliver.  What the sockets and
    the TLS library do is a parameter of a connection; what the server does is
    a list of effects. *)
From S2P Require Import Prelude RustStr Net Http Template Auth Access ProxyProto Listeners Metrics Dispatch.

Module Stream.
Import ProxyProto.

Abbreviation PeerAddr := Dispatch.PeerAddr (only parsing).
Abbreviation BoundAddr := (@Bind.BoundAddr SocketAddr) (only parsing).

(** * Data *)

Inductive BackendStream :=
  | BTcp (a : SocketAddr)
  | BTlsTcp (a : SocketAddr)
  | BUnix (path : string)
  | BTlsUnix (path : string).

Record StreamProxyTarget := {
  upstream : BoundAddr;
  proxy_protocol : option ProxyProtocolVersion;
  upstream_tls : bool;
  local_addr : option SocketAddr;
  local_unix : option string;
}.

Inductive Effect :=
  | Connects (a : BoundAddr)
  | Handshakes (name : string)
  | Sends (s : string)
  | Returns (s : string)
  | DeniedL4 (peer : PeerAddr)
  | BadClientCert (peer : PeerAddr) (reason : string).

Record StreamMetrics := {
  stream_conns_active : Z;
  stream_conns_total : N;
  stream_bytes_in_total : N;
  stream_bytes_out_total : N;
  tls_handshakes : N;
  tls_handshake_failures : N;
  tls_handshake_timeouts : N;
  lmetrics : Metrics.ListenerMetrics;
}.

(** How [copy_bidirectional] or the wait for a shutdown ends: after both
    streams ended, with an error, or by the signal, the latter two after [n]
    bytes of the client were passed on. *)
Inductive Copy :=
  | Completed (reply : string)
  | Failed (n : nat) (reply : string)
  | Interrupted (n : nat) (reply : string).

(** What the sockets do for one connection. *)
Record Network := {
  connects : bool;
  upstream_handshake : bool;
  header_cut : option nat;
  copies : Copy;
}.

Inductive Handshake :=
  | Accepted (plain : string)
  | Rejected (reason : option string)
  | TimedOut.

Section stream.
Context `{IpText} `{IpNets} `{Http}.

(** * The PROXY header of the client *)

Definition tcp_peer (a : SocketAddr) : PeerAddr := Dispatch.Tcp (sa_ip a) (sa_port a).

Definition trusted (nets : list ip_net) (peer : PeerAddr) : bool :=
  existsb (λ n, net_contains n (Dispatch.peer_ip peer)) nets.

(** [apply_proxy_proto]: the peer, and what is left of the stream. *)
Definition apply_proxy_proto (stream : string) (version : ProxyProtocolVersion) (peer : PeerAddr)
    (trusted_proxies : list ip_net) : option (PeerAddr * string) :=
  if negb (bool_decide (length trusted_proxies = 0%nat)) && negb (trusted trusted_proxies peer) then None
  else match parse_incoming stream version with
       | Ok (Some (src, _), rest) => Some (tcp_peer src, rest)
       | Ok (None, rest) => Some (peer, rest)
       | Err _ => None
       end.

(** * One connection *)

Definition country_of (geoip : option (IpAddr → option string)) (policy : Access.PolicyBlock) (peer : PeerAddr)
    : option string :=
  if Access.pb_needs_geoip policy then reader ← geoip; reader (Dispatch.peer_ip peer) else None.

(** The policy, evaluated without an authenticator; a redirect refuses. *)
Definition admits (access : option Access.PolicyBlock) (geoip : option (IpAddr → option string)) (peer : PeerAddr)
    : bool :=
  match access with
  | None => true
  | Some policy =>
      match (Access.evaluate policy (λ _, Auth.Anonymous)
              (Access.new_context (Dispatch.peer_ip peer) (country_of geoip policy peer))).1 with
      | Access.Allow => true
      | _ => false
      end
  end.

Definition connect_tcp_upstream (net : Network) (a : SocketAddr) (tls : bool) : list Effect * option BackendStream :=
  if negb (connects net) then ([], None)
  else if tls then
    ([Handshakes (ip_text (sa_ip a))], if upstream_handshake net then Some (BTlsTcp a) else None)
  else ([], Some (BTcp a)).

Definition connect_unix_upstream (net : Network) (path : string) (tls : bool) : list Effect * option BackendStream :=
  if negb (connects net) then ([], None)
  else if tls then ([Handshakes "localhost"], if upstream_handshake net then Some (BTlsUnix path) else None)
  else ([], Some (BUnix path)).

Definition connect_backend (net : Network) (target : StreamProxyTarget) : list Effect * option BackendStream :=
  let a := upstream target in
  match Bind.kind a, Bind.location a with
  | Bind.UnixStream, Bind.LUnix path =>
      let '(es, b) := connect_unix_upstream net path (upstream_tls target) in (Connects a :: es, b)
  | Bind.TcpStream, Bind.LInet sa =>
      let '(es, b) := connect_tcp_upstream net sa (upstream_tls target) in (Connects a :: es, b)
  | _, _ => ([], None)
  end.

Definition unspecified : SocketAddr := {| sa_ip := V4 0; sa_port := 0 |}.

Definition proxy_header (target : StreamProxyTarget) (version : ProxyProtocolVersion) (peer : PeerAddr) : string :=
  match peer with
  | Dispatch.Tcp ip port =>
      build_header version {| sa_ip := ip; sa_port := port |} (default unspecified (local_addr target))
  | Dispatch.Unix =>
      match version with
      | V1 => build_v1_unknown
      | V2 => match local_unix target with
              | Some path => build_v2_unix None (Some path)
              | None => build_v2_unspec
              end
      end
  end.

Definition preamble (target : StreamProxyTarget) (peer : PeerAddr) : string :=
  match proxy_protocol target with Some v => proxy_header target v peer | None => "" end.

Definition add_bytes (c2b b2c : N) (m : StreamMetrics) : StreamMetrics :=
  {| stream_conns_active := stream_conns_active m; stream_conns_total := stream_conns_total m;
     stream_bytes_in_total := wrap64 (stream_bytes_in_total m + c2b);
     stream_bytes_out_total := wrap64 (stream_bytes_out_total m + b2c);
     tls_handshakes := tls_handshakes m; tls_handshake_failures := tls_handshake_failures m;
     tls_handshake_timeouts := tls_handshake_timeouts m; lmetrics := lmetrics m |}.

(** Relaying: bytes are counted only when both directions ended cleanly. *)
Definition relay (net : Network) (client : string) (m : StreamMetrics) : Result unit * list Effect * StreamMetrics :=
  match copies net with
  | Completed reply =>
      (Ok tt, [Sends client; Returns reply],
       add_bytes (N.of_nat (String.length client)) (N.of_nat (String.length reply)) m)
  | Failed n reply => (Err "io", [Sends (str_take n client); Returns reply], m)
  | Interrupted n reply => (Ok tt, [Sends (str_take n client); Returns reply], m)
  end.

Definition stream_proxy_connection (net : Network) (client : string) (peer : PeerAddr) (target : StreamProxyTarget)
    (shutdown : bool) (access : option Access.PolicyBlock) (geoip : option (IpAddr → option string))
    (m : StreamMetrics) : Result unit * list Effect * StreamMetrics :=
  if shutdown then (Ok tt, [], m)
  else if negb (admits access geoip peer) then (Ok tt, [DeniedL4 peer], m)
  else
    match connect_backend net target with
    | (es, None) => (Ok tt, es, m)
    | (es, Some _) =>
        match proxy_protocol target, header_cut net with
        | Some v, Some n => (Err "io", es ++ [Sends (str_take n (proxy_header target v peer))], m)
        | Some v, None =>
            let '(r, es', m) := relay net client m in (r, es ++ Sends (proxy_header target v peer) :: es', m)
        | None, _ => let '(r, es', m) := relay net client m in (r, es ++ es', m)
        end
    end.

(** * The task of a connection *)

(** What the listener fixes for its connections. *)
Record Config := {
  target : StreamProxyTarget;
  accept_proxy_protocol : option ProxyProtocolVersion;
  trusted_proxies : list ip_net;
  access : option Access.PolicyBlock;
  geoip : option (IpAddr → option string);
  acceptor : option (string → Handshake);
}.

Definition shift_conns (d : Z) (count : N) (m : StreamMetrics) : StreamMetrics :=
  {| stream_conns_active := stream_conns_active m + d; stream_conns_total := wrap64 (stream_conns_total m + count);
     stream_bytes_in_total := stream_bytes_in_total m; stream_bytes_out_total := stream_bytes_out_total m;
     tls_handshakes := tls_handshakes m; tls_handshake_failures := tls_handshake_failures m;
     tls_handshake_timeouts := tls_handshake_timeouts m;
     lmetrics :=
       {| Metrics.tls_handshakes_total := Metrics.tls_handshakes_total (lmetrics m);
          Metrics.tls_handshake_failures_total := Metrics.tls_handshake_failures_total (lmetrics m);
          Metrics.tls_handshake_timeouts_total := Metrics.tls_handshake_timeouts_total (lmetrics m);
          Metrics.conns_total := wrap64 (Metrics.conns_total (lmetrics m) + count);
          Metrics.conns_active := Metrics.conns_active (lmetrics m) + d;
          Metrics.lm_requests_total := Metrics.lm_requests_total (lmetrics m) |} |}.

(** The counts at the start of a task, and [StreamConnGuard::drop]. *)
Definition enter : StreamMetrics → StreamMetrics := shift_conns 1 1.
Definition drop_guard : StreamMetrics → StreamMetrics := shift_conns (-1) 0.

Definition count_tls (ok failed timed_out : N) (m : StreamMetrics) : StreamMetrics :=
  {| stream_conns_active := stream_conns_active m; stream_conns_total := stream_conns_total m;
     stream_bytes_in_total := stream_bytes_in_total m; stream_bytes_out_total := stream_bytes_out_total m;
     tls_handshakes := wrap64 (tls_handshakes m + ok);
     tls_handshake_failures := wrap64 (tls_handshake_failures m + failed);
     tls_handshake_timeouts := wrap64 (tls_handshake_timeouts m + timed_out);
     lmetrics :=
       {| Metrics.tls_handshakes_total := wrap64 (Metrics.tls_handshakes_total (lmetrics m) + ok);
          Metrics.tls_handshake_failures_total := wrap64 (Metrics.tls_handshake_failures_total (lmetrics m) + failed);
          Metrics.tls_handshake_timeouts_total :=
            wrap64 (Metrics.tls_handshake_timeouts_total (lmetrics m) + timed_out);
          Metrics.conns_total := Metrics.conns_total (lmetrics m);
          Metrics.conns_active := Metrics.conns_active (lmetrics m);
          Metrics.lm_requests_total := Metrics.lm_requests_total (lmetrics m) |} |}.

(** TLS is terminated, if it is, after the PROXY header was read. *)
Definition terminate (cfg : Config) (net : Network) (shutdown : bool) (stream : string) (peer : PeerAddr)
    (m : StreamMetrics) : list Effect * StreamMetrics :=
  let run client m :=
    let '(_, es, m) := stream_proxy_connection net client peer (target cfg) shutdown (access cfg) (geoip cfg) m in
    (es, m) in
  match acceptor cfg with
  | Some accept =>
      match accept stream with
      | Accepted plain => run plain (count_tls 1 0 0 m)
      | Rejected reason =>
          (match reason with Some r => [BadClientCert peer r] | None => [] end, count_tls 0 1 0 m)
      | TimedOut => ([], count_tls 0 0 1 m)
      end
  | None => run stream m
  end.

Definition connection_task (cfg : Config) (net : Network) (shutdown : bool) (stream : string) (peer : PeerAddr)
    (m : StreamMetrics) : list Effect * StreamMetrics :=
  let m := enter m in
  let '(es, m) :=
    match accept_proxy_protocol cfg with
    | Some v =>
        match apply_proxy_proto stream v peer (trusted_proxies cfg) with
        | Some (p, rest) => terminate cfg net shutdown rest p m
        | None => ([], m)
        end
    | None => terminate cfg net shutdown stream peer m
    end in
  (es, drop_guard m).

(** * What an upstream sees *)

(** The bytes the upstream received. *)
Fixpoint sent (es : list Effect) : string :=
  match es with
  | [] => ""
  | Sends s :: es' => s +:+ sent es'
  | _ :: es' => sent es'
  end.

(** The bytes the client received. *)
Fixpoint returned (es : list Effect) : string :=
  match es with
  | [] => ""
  | Returns s :: es' => s +:+ returned es'
  | _ :: es' => returned es'
  end.

Lemma returned_app es es' : returned (es ++ es') = returned es +:+ returned es'.
Proof. induction es as [|[] es IH]; cbn; rewrite ?IH, ?str_app_assoc; done. Qed.

(** An upstream that can be spoken to. *)
Definition stream_address (a : BoundAddr) : bool :=
  match Bind.kind a, Bind.location a with
  | Bind.UnixStream, Bind.LUnix _ | Bind.TcpStream, Bind.LInet _ => true
  | _, _ => false
  end.

Definition reachable (net : Network) (tgt : StreamProxyTarget) : bool :=
  stream_address (upstream tgt) && connects net && (negb (upstream_tls tgt) || upstream_handshake net).

(** What the network lets through, of [client] behind [header], and back. *)
Definition carried (net : Network) (client : string) : string * string :=
  match copies net with
  | Completed reply => (client, reply)
  | Failed n reply | Interrupted n reply => (str_take n client, reply)
  end.

(** The bytes exchanged are all those the network carries: the header, whole,
    then the client's, and back to the client the upstream's. *)
Definition exchanged (net : Network) (tgt : StreamProxyTarget) (header client : string) (es : list Effect) : Prop :=
  if negb (reachable net tgt) then sent es = "" ∧ returned es = ""
  else match proxy_protocol tgt, header_cut net with
       | Some _, Some n => sent es = str_take n header ∧ returned es = ""
       | _, _ => sent es = header +:+ (carried net client).1 ∧ returned es = (carried net client).2
       end.

Lemma sent_app es es' : sent (es ++ es') = sent es +:+ sent es'.
Proof. induction es as [|[] es IH]; cbn; rewrite ?IH, ?str_app_assoc; done. Qed.

Definition contacts (e : Effect) : bool :=
  match e with Connects _ | Handshakes _ | Sends _ | Returns _ => true | _ => false end.

(** Where the address the policy judges comes from: the socket, or a PROXY
    header, which is read from trusted senders only where a list of them is
    given. *)
Inductive source (cfg : Config) (stream : string) (peer : PeerAddr) : PeerAddr → string → Prop :=
  | FromSocket :
      accept_proxy_protocol cfg = None → source cfg stream peer peer stream
  | NoAddress v rest :
      accept_proxy_protocol cfg = Some v → parse_incoming stream v = Ok (None, rest) →
      source cfg stream peer peer rest
  | FromHeader v src dst rest :
      accept_proxy_protocol cfg = Some v → parse_incoming stream v = Ok (Some (src, dst), rest) →
      (trusted_proxies cfg ≠ [] → trusted (trusted_proxies cfg) peer = true) →
      source cfg stream peer (tcp_peer src) rest.

(** What the client said, under its TLS. *)
Definition application (cfg : Config) (rest client : string) : Prop :=
  match acceptor cfg with Some accept => accept rest = Accepted client | None => client = rest end.

(** The rule that lets a peer in. *)
Definition allowed_by_rule (cfg : Config) (p : PeerAddr) : Prop :=
  ∀ policy, access cfg = Some policy →
    ∃ pre r post, Access.pb_rules policy = pre ++ r :: post ∧ Access.rule_action r = Access.PAllow ∧
      let judge := Access.rule_meaning (Access.normalise (Dispatch.peer_ip p)) (country_of (geoip cfg) policy p)
                     Auth.Anonymous in
      judge r = Access.PMatch ∧ Forall (λ q, judge q = Access.PNoMatch) pre.

Lemma admits_rule cfg p : admits (access cfg) (geoip cfg) p = true → allowed_by_rule cfg p.
Proof.
  intros Ha policy Hp. unfold admits in Ha. rewrite Hp in Ha.
  set (ctx := Access.new_context (Dispatch.peer_ip p) (country_of (geoip cfg) policy p)) in *.
  destruct (Access.evaluate_from_correct policy (λ _, Auth.Anonymous) 0 (Access.pb_rules policy) ctx)
    as (ctx' & E & _); [apply Access.new_context_lazy|].
  unfold Access.evaluate in Ha. rewrite E in Ha. cbn [fst] in Ha.
  destruct (Access.decide_rules _ _ _ _ _ _) eqn:Ed; try done.
  apply Access.decide_rules_Allow in Ed as (pre & r & post & -> & Hpre & Hr & Hact). eauto 10.
Qed.

Lemma proxy_connection_contacts net client peer tgt shutdown acc geo m r es m' :
  stream_proxy_connection net client peer tgt shutdown acc geo m = (r, es, m') → existsb contacts es = true →
  shutdown = false ∧ admits acc geo peer = true.
Proof.
  unfold stream_proxy_connection. destruct shutdown; [by intros [= <- <- <-]|].
  destruct (admits acc geo peer); [done|]. by intros [= <- <- <-].
Qed.

Lemma relay_carried net client m r es m' :
  relay net client m = (r, es, m') → (sent es, returned es) = carried net client.
Proof.
  unfold relay, carried. destruct (copies net); intros [= <- <- <-]; cbn; by rewrite !str_app_nil_r.
Qed.

Lemma relay_sent net client m r es m' :
  relay net client m = (r, es, m') →
  ∃ k, sent es = str_take k client ∧ (∀ reply, copies net = Completed reply → sent es = client).
Proof.
  unfold relay. destruct (copies net) as [reply|n reply|n reply]; intros [= <- <- <-]; cbn; rewrite str_app_nil_r.
  - exists (String.length client). split; [|done]. by rewrite <- (str_app_nil_r client) at 3; rewrite str_take_app.
  - exists n. split; done.
  - exists n. split; done.
Qed.

Lemma relay_quiet net client m r es m' :
  relay net client m = (r, es, m') → ∀ a, Connects a ∉ es.
Proof. unfold relay. destruct (copies net); intros [= <- <- <-]; set_solver. Qed.

Lemma connect_backend_spec net tgt es b :
  connect_backend net tgt = (es, b) → sent es = "" ∧ ∀ a, Connects a ∈ es → a = upstream tgt.
Proof.
  unfold connect_backend, connect_tcp_upstream, connect_unix_upstream.
  repeat case_match; intros [= <- <-]; simplify_eq; split; try done; set_solver.
Qed.

Lemma proxy_connection_sent net client peer tgt shutdown acc geo m r es m' :
  stream_proxy_connection net client peer tgt shutdown acc geo m = (r, es, m') →
  (∀ a, Connects a ∈ es → a = upstream tgt) ∧
  ∃ k, sent es = str_take k (preamble tgt peer +:+ client).
Proof.
  unfold stream_proxy_connection, preamble. destruct shutdown; [intros [= <- <- <-]; split; [set_solver|by exists 0%nat]|].
  destruct (admits acc geo peer); cbn [negb]; [|intros [= <- <- <-]; split; [set_solver|by exists 0%nat]].
  destruct (connect_backend net tgt) as [ces [b|]] eqn:Ec; apply connect_backend_spec in Ec as [Hs Hc];
    [|intros [= <- <- <-]; split; [done|by exists 0%nat]].
  destruct (proxy_protocol tgt) as [v|]; [destruct (header_cut net) as [n|]|].
  - intros [= <- <- <-]. split; [set_solver|]. rewrite sent_app, Hs. cbn. rewrite str_app_nil_r.
    set (h := proxy_header tgt v peer). exists (String.length (str_take n h)).
    rewrite str_take_app_le by (rewrite length_str_take; lia). by rewrite str_take_length.
  - destruct (relay net client m) as [[r' es'] m1] eqn:Er. intros [= <- <- <-].
    pose proof (relay_quiet _ _ _ _ _ _ Er) as Hq. apply relay_sent in Er as (k & Hk & _).
    split; [set_solver|]. rewrite sent_app, Hs. cbn. rewrite Hk. eexists. by rewrite str_take_add_app.
  - destruct (relay net client m) as [[r' es'] m1] eqn:Er. intros [= <- <- <-].
    pose proof (relay_quiet _ _ _ _ _ _ Er) as Hq. apply relay_sent in Er as (k & Hk & _).
    split; [set_solver|]. rewrite sent_app, Hs. cbn. by exists k.
Qed.

Lemma connect_backend_reach net tgt es b :
  connect_backend net tgt = (es, b) →
  sent es = "" ∧ returned es = "" ∧ bool_decide (is_Some b) = reachable net tgt.
Proof.
  unfold connect_backend, connect_tcp_upstream, connect_unix_upstream, reachable, stream_address.
  destruct (Bind.kind (upstream tgt)), (Bind.location (upstream tgt)); try (by intros [= <- <-]);
    destruct (connects net), (upstream_tls tgt), (upstream_handshake net); by intros [= <- <-].
Qed.

Lemma proxy_connection_exchanged net client peer tgt acc geo m r es m' :
  stream_proxy_connection net client peer tgt false acc geo m = (r, es, m') → admits acc geo peer = true →
  exchanged net tgt (preamble tgt peer) client es.
Proof.
  unfold stream_proxy_connection, exchanged, preamble. intros Hq Ha. rewrite Ha in Hq. cbn [negb] in Hq.
  destruct (connect_backend net tgt) as [ces b] eqn:Ec.
  apply connect_backend_reach in Ec as (Hs & Hr & <-).
  destruct b as [b|]; [|by injection Hq as <- <- <-].
  destruct (relay net client m) as [[r' es'] m1] eqn:Er. apply relay_carried in Er.
  destruct (carried net client) as [c back]. injection Er as Hsent Hback. cbn.
  destruct (proxy_protocol tgt) as [v|]; [destruct (header_cut net) as [n|]|]; injection Hq as <- <- <-;
    rewrite !sent_app, !returned_app, Hs, Hr; cbn; by rewrite ?Hsent, ?Hback, ?str_app_nil_r, ?str_app_nil_l.
Qed.

(** What a task does once the peer is known. *)
Lemma terminate_spec cfg net shutdown stream peer m es m' :
  terminate cfg net shutdown stream peer m = (es, m') →
  (existsb contacts es = false ∧ sent es = "") ∨
  ∃ client, application cfg stream client ∧ shutdown = false ∧ admits (access cfg) (geoip cfg) peer = true ∧
    (∀ a, Connects a ∈ es → a = upstream (target cfg)) ∧
    exchanged net (target cfg) (preamble (target cfg) peer) client es ∧
    ∃ k, sent es = str_take k (preamble (target cfg) peer +:+ client).
Proof.
  assert (∀ client m r es m', application cfg stream client →
    stream_proxy_connection net client peer (target cfg) shutdown (access cfg) (geoip cfg) m = (r, es, m') →
    (existsb contacts es = false ∧ sent es = "") ∨ ∃ client, application cfg stream client ∧ shutdown = false ∧
      admits (access cfg) (geoip cfg) peer = true ∧ (∀ a, Connects a ∈ es → a = upstream (target cfg)) ∧
      exchanged net (target cfg) (preamble (target cfg) peer) client es ∧
      ∃ k, sent es = str_take k (preamble (target cfg) peer +:+ client)) as Hrun.
  { intros client m0 r es0 m1 Happ Hq. pose proof (proxy_connection_sent _ _ _ _ _ _ _ _ _ _ _ Hq) as [Hc Hk].
    destruct (existsb contacts es0) eqn:E.
    - right. destruct (proxy_connection_contacts _ _ _ _ _ _ _ _ _ _ _ Hq E) as [-> Ha].
      exists client. split_and!; [done..|by eapply proxy_connection_exchanged|done].
    - left. split; [done|]. clear -E. induction es0 as [|[] es0 IH]; cbn in *; auto; done. }
  unfold terminate, application in *. destruct (acceptor cfg) as [acc|].
  - destruct (acc stream) as [plain|reason|] eqn:Ea.
    + destruct (stream_proxy_connection _ _ _ _ _ _ _ _) as [[r es0] m0] eqn:Eq. intros [= <- <-].
      by apply (Hrun _ _ _ _ _ eq_refl Eq).
    + intros [= <- <-]. left. by destruct reason.
    + intros [= <- <-]. by left.
  - destruct (stream_proxy_connection _ _ _ _ _ _ _ _) as [[r es0] m0] eqn:Eq. intros [= <- <-].
    by apply (Hrun _ _ _ _ _ eq_refl Eq).
Qed.

(** C32: a stream proxy contacts an upstream only for a peer that a rule of the
    listener's policy allows, judged by the address of the socket or of a
    PROXY header, which is believed from the listed senders only, or from
    anybody where no trusted sender is listed; it contacts the configured
    upstream only.  An upstream that is reached receives the PROXY header for
    that peer and then the client's bytes, all that the network carries, and
    the client receives what the upstream sends; a header or a client cut
    short by the network leaves a prefix. *)
Theorem stream_confined cfg net shutdown stream peer m es m' :
  connection_task cfg net shutdown stream peer m = (es, m') → existsb contacts es = true →
  ∃ p rest client, source cfg stream peer p rest ∧ application cfg rest client ∧ allowed_by_rule cfg p ∧
    (∀ a, Connects a ∈ es → a = upstream (target cfg)) ∧
    exchanged net (target cfg) (preamble (target cfg) p) client es ∧
    ∃ k, sent es = str_take k (preamble (target cfg) p +:+ client).
Proof.
  unfold connection_task. intros Hq Hc.
  assert (∃ p rest m0 m1, source cfg stream peer p rest ∧ terminate cfg net shutdown rest p m0 = (es, m1))
    as (p & rest & m0 & m1 & Hsrc & Ht).
  { destruct (accept_proxy_protocol cfg) as [v|] eqn:Ev.
    - unfold apply_proxy_proto in Hq. destruct (_ && _) eqn:Etr; [by injection Hq as <- <-|].
      destruct (parse_incoming stream v) as [[[[src dst]|] rest]|] eqn:Ep; [| |by injection Hq as <- <-];
        destruct (terminate _ _ _ _ _ _) as [es1 m1] eqn:Et in Hq; injection Hq as -> <-; do 4 eexists; split; eauto.
      + eapply FromHeader; [done..|]. intros Hne. apply andb_false_iff in Etr as [Et0|Et0%negb_false_iff]; [|done].
        apply negb_false_iff, bool_decide_eq_true in Et0. by destruct (trusted_proxies cfg).
      + by eapply NoAddress.
    - destruct (terminate _ _ _ _ _ _) as [es1 m1] eqn:Et in Hq. injection Hq as -> <-.
      do 4 eexists. split; [by apply FromSocket|done]. }
  apply terminate_spec in Ht as [[Hf _]|(client & Happ & _ & Ha & Hu & Hx & Hk)]; [congruence|].
  exists p, rest, client. split_and!; try done. by apply admits_rule.
Qed.

(** The connection counters. *)
Definition conns (m : StreamMetrics) : Z * Z * N * N :=
  (stream_conns_active m, Metrics.conns_active (lmetrics m), stream_conns_total m, Metrics.conns_total (lmetrics m)).

Lemma relay_conns net client m : conns (relay net client m).2 = conns m.
Proof. unfold relay. by destruct (copies net). Qed.

Lemma proxy_connection_conns net client peer tgt shutdown acc geo m :
  conns (stream_proxy_connection net client peer tgt shutdown acc geo m).2 = conns m.
Proof.
  pose proof (relay_conns net client m) as Hr. unfold stream_proxy_connection.
  destruct (relay net client m) as [[r es] m0]. cbn in Hr.
  destruct shutdown; [done|]. destruct (admits acc geo peer); [|done].
  destruct (connect_backend net tgt) as [ces [b|]]; [|done].
  by destruct (proxy_protocol tgt), (header_cut net).
Qed.

Lemma terminate_conns cfg net shutdown stream peer m :
  conns (terminate cfg net shutdown stream peer m).2 = conns m.
Proof.
  assert (∀ client m0, conns (let '(_, es, m) := stream_proxy_connection net client peer (target cfg) shutdown
    (access cfg) (geoip cfg) m0 in (es, m)).2 = conns m0) as Hrun.
  { intros client m0. pose proof (proxy_connection_conns net client peer (target cfg) shutdown (access cfg)
      (geoip cfg) m0) as Hc. by destruct (stream_proxy_connection _ _ _ _ _ _ _ _) as [[r es] m1]. }
  unfold terminate. destruct (acceptor cfg) as [acc|]; [|apply Hrun].
  destruct (acc stream); [by rewrite Hrun|done|done].
Qed.

(** Every connection is counted once and leaves the gauges of the process and
    of the listener as it found them, on whatever path it ends. *)
Theorem stream_counted cfg net shutdown stream peer m :
  let m' := (connection_task cfg net shutdown stream peer m).2 in
  stream_conns_active m' = stream_conns_active m ∧
  Metrics.conns_active (lmetrics m') = Metrics.conns_active (lmetrics m) ∧
  stream_conns_total m' = wrap64 (stream_conns_total m + 1) ∧
  Metrics.conns_total (lmetrics m') = wrap64 (Metrics.conns_total (lmetrics m) + 1).
Proof.
  intros m'. assert (∃ m1, m' = drop_guard m1 ∧ conns m1 = conns (enter m)) as (m1 & Em & Hm).
  { unfold m', connection_task. destruct (accept_proxy_protocol cfg) as [v|].
    - destruct (apply_proxy_proto _ _ _ _) as [[p rest]|]; [|by eexists].
      pose proof (terminate_conns cfg net shutdown rest p (enter m)) as Ht.
      destruct (terminate _ _ _ _ _ _) as [es m1]. by exists m1.
    - pose proof (terminate_conns cfg net shutdown stream peer (enter m)) as Ht.
      destruct (terminate _ _ _ _ _ _) as [es m1]. by exists m1. }
  rewrite Em. injection Hm as E1 E2 E3 E4. unfold drop_guard, shift_conns. cbn.
  rewrite E1, E2, E3, E4, !N.add_0_r, !wrap64_idem. split_and!; lia || done.
Qed.

(** * A chain of proxies *)

(** What a listener that accepts PROXY headers makes of a connection this
    proxy relays completely: the peer of this one, unless it is a Unix socket
    or of another address family than the local address; version 1 has no way
    to say the latter and the header is refused. *)
Definition seen_downstream (tgt : StreamProxyTarget) (v : ProxyProtocolVersion) (peer previous : PeerAddr)
    : option PeerAddr :=
  match peer with
  | Dispatch.Tcp ip port =>
      if decide (same_family {| sa_ip := ip; sa_port := port |} (default unspecified (local_addr tgt))) then Some peer
      else match v with V1 => None | V2 => Some previous end
  | Dispatch.Unix => Some previous
  end.

Definition peer_ok (p : PeerAddr) : Prop :=
  match p with Dispatch.Tcp ip port => addr_ok {| sa_ip := ip; sa_port := port |} | Dispatch.Unix => True end.

Context `{!IpTextLaws}.

Lemma header_read tgt v peer previous rest :
  peer_ok peer → addr_ok (default unspecified (local_addr tgt)) →
  apply_proxy_proto (proxy_header tgt v peer +:+ rest) v previous []
    = (λ p, (p, rest)) <$> seen_downstream tgt v peer previous.
Proof.
  intros Hp Hl. unfold apply_proxy_proto, proxy_header, seen_downstream. cbn [length negb andb bool_decide].
  destruct peer as [ip port|].
  - unfold build_header. destruct v; cbn [parse_incoming].
    + rewrite parse_v1_build by done. by case_decide.
    + rewrite proxy_v2_roundtrip by done. by case_decide.
  - destruct (proxy_unknown_roundtrip None (local_unix tgt) rest) as (E1 & E2 & E3).
    destruct v; cbn [parse_incoming]; [by rewrite E1|]. destruct (local_unix tgt); [by rewrite E3|by rewrite E2].
Qed.

(** The address of the client passes through a chain of stream proxies. *)
Theorem stream_peer_transmitted net client peer tgt v acc geo m reply es m' previous :
  stream_proxy_connection net client peer tgt false acc geo m = (Ok tt, es, m') →
  proxy_protocol tgt = Some v → sent es ≠ "" → copies net = Completed reply →
  peer_ok peer → addr_ok (default unspecified (local_addr tgt)) →
  apply_proxy_proto (sent es) v previous [] = (λ p, (p, client)) <$> seen_downstream tgt v peer previous.
Proof.
  unfold stream_proxy_connection. intros Hq Hv Hne Hc Hp Hl. destruct (admits acc geo peer); cbn [negb] in Hq;
    [|by injection Hq as <- <-].
  destruct (connect_backend net tgt) as [ces [b|]] eqn:Ec; apply connect_backend_spec in Ec as [Hs _];
    [|by injection Hq as <- <-].
  rewrite Hv in Hq. destruct (header_cut net) as [n|]; [by injection Hq|].
  destruct (relay net client m) as [[r es'] m1] eqn:Er. injection Hq as -> <- <-.
  apply relay_sent in Er as (k & _ & Hall). rewrite sent_app, Hs. cbn. rewrite (Hall reply Hc).
  by apply header_read.
Qed.

End stream.

(** * Example *)

Module Demo.

#[local] Existing Instances Access.host_nets dec_ips.

Definition backend : BoundAddr :=
  {| Bind.kind := Bind.TcpStream; Bind.location := Bind.LInet {| sa_ip := V4 9; sa_port := 5432 |} |}.

Definition relay_target : StreamProxyTarget :=
  {| upstream := backend; proxy_protocol := Some V2; upstream_tls := false;
     local_addr := Some {| sa_ip := V4 1; sa_port := 5432 |}; local_unix := None |}.

(** [policy { allow address "7" }] behind a balancer at 3. *)
Definition guard : Access.PolicyBlock :=
  Access.new_block [{| Access.rule_predicate := Some (Access.Address [V4 7]); Access.rule_action := Access.PAllow |}].

Definition listener : Config :=
  {| target := relay_target; accept_proxy_protocol := Some V2; trusted_proxies := [V4 3]; access := Some guard;
     geoip := None; acceptor := None |}.

Definition working : Network :=
  {| connects := true; upstream_handshake := true; header_cut := None; copies := Completed "ok" |}.

Definition zero : StreamMetrics :=
  {| stream_conns_active := 0; stream_conns_total := 0; stream_bytes_in_total := 0; stream_bytes_out_total := 0;
     tls_handshakes := 0; tls_handshake_failures := 0; tls_handshake_timeouts := 0;
     lmetrics := Metrics.lm_default |}.

Definition client_addr : SocketAddr := {| sa_ip := V4 7; sa_port := 40000 |}.
Definition announced : string := build_v2 client_addr {| sa_ip := V4 3; sa_port := 443 |} +:+ "query".
Definition balancer : PeerAddr := Dispatch.Tcp (V4 3) 1000.

Lemma stream_confined_witness :
  let es := (connection_task listener working false announced balancer zero).1 in
  existsb contacts es = true ∧
  ∃ p rest client, source listener announced balancer p rest ∧ application listener rest client ∧
    allowed_by_rule listener p ∧ (∀ a, Connects a ∈ es → a = upstream (target listener)) ∧
    sent es = preamble (target listener) p +:+ client ∧ returned es = "ok".
Proof.
  intros es. split; [vm_compute; reflexivity|].
  destruct (stream_confined listener working false announced balancer zero es
    (connection_task listener working false announced balancer zero).2)
    as (p & rest & client & Hs & Happ & Ha & Hu & Hx & _); [vm_compute; reflexivity..|].
  exists p, rest, client. split_and!; try done; apply Hx.
Defined.

(** Where no sender is listed, any sender's header is believed. *)
Example anybody_announces :
  let open := {| target := relay_target; accept_proxy_protocol := Some V2; trusted_proxies := []; access := Some guard;
                 geoip := None; acceptor := None |} in
  returned (connection_task open working false announced (Dispatch.Tcp (V4 8) 1000) zero).1 = "ok".
Proof. vm_compute. reflexivity. Qed.

(** A stranger cannot announce an address. *)
Example stranger_refused :
  (connection_task listener working false announced (Dispatch.Tcp (V4 8) 1000) zero).1 = [].
Proof. vm_compute. reflexivity. Qed.

Lemma stream_peer_transmitted_witness :
  let es := (stream_proxy_connection working "query" (tcp_peer client_addr) relay_target false None None zero).1.2 in
  apply_proxy_proto (sent es) V2 (Dispatch.Tcp (V4 9) 1) [] = Some (tcp_peer client_addr, "query").
Proof.
  intros es. pose proof dec_ips_laws as Hlaws.
  apply (stream_peer_transmitted working "query" (tcp_peer client_addr) relay_target V2 None None zero "ok" es
    (stream_proxy_connection working "query" (tcp_peer client_addr) relay_target false None None zero).2);
    [vm_compute; reflexivity|reflexivity|vm_compute; congruence|reflexivity|split; vm_compute; congruence|
     split; vm_compute; congruence].
Defined.

End Demo.

End Stream.
