(* ===== verification/Accept.v ===== *)
(** HTTP listeners ([src/listener/http.rs], [src/listener.rs]): the protocol
    settings of a connection, the accept loop with its connection cap, the
    connections it spawned, and the drain at the end.

    The loop and its tasks interleave: [step] is one move of the loop, of a
    task, or of the signals that stop them. *)
From S2P Require Import Prelude RustStr Net Http Template RateLimit Metrics ParseConfig.

Module Accept.
Import ParseConfig.

Definition DRAIN_TIMEOUT : Duration := from_secs 30.
Definition TLS_HANDSHAKE_TIMEOUT : Duration := from_secs 10.
Definition DEFAULT_HEADER_TIMEOUT_SECS : N := 30.
Definition ACCEPT_ERROR_BACKOFF : Duration := 100000000.

(** * Protocol settings *)

(** What is set on the connection builder; a time that is not set is the
    library's. *)
Record Builder := {
  keep_alive : bool;
  header_read_timeout : option Duration;
  connect_protocol : bool;
  keep_alive_interval : option Duration;
  keep_alive_timeout : option Duration;
  max_streams : option N;
}.

(** [[a, b].iter().filter_map(|x| *x).min()]. *)
Definition least (a b : option N) : option N :=
  match a, b with
  | Some x, Some y => Some (N.min x y)
  | Some x, None | None, Some x => Some x
  | None, None => None
  end.

Definition header_timeout (t : Timeouts) : option Duration :=
  let secs := default DEFAULT_HEADER_TIMEOUT_SECS (least (request_header_secs t) (keepalive_secs t)) in
  if 0 <? secs then Some (from_secs secs) else None.

Definition make_builder (t : Timeouts) (h2 : Http2Config) : Builder :=
  let off := bool_decide (keepalive_secs t = Some 0) in
  {| keep_alive := negb off; header_read_timeout := if off then None else header_timeout t;
     connect_protocol := true; keep_alive_interval := from_secs <$> h2_keepalive_interval_secs h2;
     keep_alive_timeout := from_secs <$> h2_keepalive_timeout_secs h2;
     max_streams := h2_max_concurrent_streams h2 |}.

(** The wait for the first request of a connection. *)
Definition first_request_window (t : Timeouts) : option Duration :=
  let secs := default DEFAULT_HEADER_TIMEOUT_SECS (request_header_secs t) in
  if secs =? 0 then None else Some (from_secs secs).

(** * Listeners at work *)

(** A connection task: reading its PROXY header and negotiating TLS, ready to
    be served, or in service, having seen its first request or not, and told
    to finish or not. *)
Inductive Phase :=
  | Opening
  | Ready
  | Serving (first_seen graceful : bool).

Definition is_serving (p : Phase) : bool := match p with Serving _ _ => true | Opening | Ready => false end.

(** The loop: at its [select!], waiting for a permit with an accepted socket
    in hand, draining the connections there were, or gone. *)
Inductive Loop :=
  | Selecting
  | Blocked
  | Draining (n : nat)
  | Gone.

Record Counters := {
  http_conns_total : N;
  http_conns_active : Z;
  l_conns_total : N;
  l_conns_active : Z;
  shutdown_drained_total : N;
  shutdown_abandoned_total : N;
  tls_handshakes_total : N;
  tls_handshake_failures_total : N;
  tls_handshake_timeouts_total : N;
}.

(** The [JoinSet] holds the tasks that run and those that [finished] and were
    not taken out yet.  A connection that was upgraded is served by a detached
    task of its own: [tunnels] counts those. *)
Record World := {
  loop : Loop;
  permits : option nat;
  live : list Phase;
  finished : nat;
  shutdown : bool;
  stop_accept : bool;
  tunnels : nat;
  counters : Counters;
}.

(** ** Counting *)

Definition open_conn (c : Counters) : Counters :=
  {| http_conns_total := wrap64 (http_conns_total c + 1); http_conns_active := http_conns_active c + 1;
     l_conns_total := wrap64 (l_conns_total c + 1); l_conns_active := l_conns_active c + 1;
     shutdown_drained_total := shutdown_drained_total c; shutdown_abandoned_total := shutdown_abandoned_total c;
     tls_handshakes_total := tls_handshakes_total c;
     tls_handshake_failures_total := tls_handshake_failures_total c;
     tls_handshake_timeouts_total := tls_handshake_timeouts_total c |}.

(** [HttpConnGuard::drop]. *)
Definition drop_guard (k : nat) (c : Counters) : Counters :=
  {| http_conns_total := http_conns_total c; http_conns_active := http_conns_active c - Z.of_nat k;
     l_conns_total := l_conns_total c; l_conns_active := l_conns_active c - Z.of_nat k;
     shutdown_drained_total := shutdown_drained_total c; shutdown_abandoned_total := shutdown_abandoned_total c;
     tls_handshakes_total := tls_handshakes_total c;
     tls_handshake_failures_total := tls_handshake_failures_total c;
     tls_handshake_timeouts_total := tls_handshake_timeouts_total c |}.

Definition count_drain (drained abandoned : nat) (c : Counters) : Counters :=
  {| http_conns_total := http_conns_total c; http_conns_active := http_conns_active c;
     l_conns_total := l_conns_total c; l_conns_active := l_conns_active c;
     shutdown_drained_total := wrap64 (shutdown_drained_total c + N.of_nat drained);
     shutdown_abandoned_total := wrap64 (shutdown_abandoned_total c + N.of_nat abandoned);
     tls_handshakes_total := tls_handshakes_total c;
     tls_handshake_failures_total := tls_handshake_failures_total c;
     tls_handshake_timeouts_total := tls_handshake_timeouts_total c |}.

(** The outcome of a handshake, counted for the process; the counters of the
    listener move with them. *)
Definition count_tls (ok failed timed_out : N) (c : Counters) : Counters :=
  {| http_conns_total := http_conns_total c; http_conns_active := http_conns_active c;
     l_conns_total := l_conns_total c; l_conns_active := l_conns_active c;
     shutdown_drained_total := shutdown_drained_total c; shutdown_abandoned_total := shutdown_abandoned_total c;
     tls_handshakes_total := wrap64 (tls_handshakes_total c + ok);
     tls_handshake_failures_total := wrap64 (tls_handshake_failures_total c + failed);
     tls_handshake_timeouts_total := wrap64 (tls_handshake_timeouts_total c + timed_out) |}.

Definition serving (l : list Phase) : nat := length (List.filter is_serving l).

#[local] Arguments serving : simpl never.

Definition release (p : option nat) : option nat := S <$> p.

(** ** Moves *)

(** [connections.len()]. *)
Definition in_set (w : World) : nat := (length (live w) + finished w)%nat.

Definition with_loop (w : World) (s : Loop) : World :=
  {| loop := s; permits := permits w; live := live w; finished := finished w; shutdown := shutdown w;
     stop_accept := stop_accept w; tunnels := tunnels w; counters := counters w |}.

Definition with_task (w : World) (l : list Phase) (c : Counters) : World :=
  {| loop := loop w; permits := permits w; live := l; finished := finished w; shutdown := shutdown w;
     stop_accept := stop_accept w; tunnels := tunnels w; counters := c |}.

(** A task that ends gives its permit back. *)
Definition end_task (w : World) (l : list Phase) (c : Counters) : World :=
  {| loop := loop w; permits := release (permits w); live := l; finished := S (finished w);
     shutdown := shutdown w; stop_accept := stop_accept w; tunnels := tunnels w; counters := c |}.

(** An HTTP/1 connection that is upgraded ends here: its socket goes to the
    tunnel that [serve_upgrade] of the proxy handler spawned, outside the
    [JoinSet], and its task gives the permit back. *)
Definition hand_over (w : World) (l : list Phase) (c : Counters) : World :=
  {| loop := loop w; permits := release (permits w); live := l; finished := S (finished w);
     shutdown := shutdown w; stop_accept := stop_accept w; tunnels := S (tunnels w); counters := c |}.

Section listener.
(** Whether the listener terminates TLS: [run_tls] or [run_plain]. *)
Context (tls : bool).

(** The loop of [run_plain] and [run_tls]. *)
Inductive loop_step : World → World → Prop :=
  | Accepts w : loop w = Selecting → loop_step w (with_loop w Blocked)
  | AcceptFails w : loop w = Selecting → loop_step w w
  | Spawns w p :
      loop w = Blocked → permits w = Some (S p) →
      loop_step w {| loop := Selecting; permits := Some p; live := live w ++ [Opening]; finished := finished w; shutdown := shutdown w;
                stop_accept := stop_accept w; tunnels := tunnels w; counters := counters w |}
  | SpawnsFreely w :
      loop w = Blocked → permits w = None →
      loop_step w {| loop := Selecting; permits := None; live := live w ++ [Opening]; finished := finished w; shutdown := shutdown w;
                stop_accept := stop_accept w; tunnels := tunnels w; counters := counters w |}
  | Leaves w :
      loop w = Selecting → shutdown w || stop_accept w = true →
      loop_step w (with_loop w (Draining (in_set w))).

(** A spawned task up to the service: the PROXY header and the handshake. *)
Inductive opening_step : World → World → Prop :=
  | Refuses w l1 l2 :
      live w = l1 ++ Opening :: l2 → opening_step w (end_task w (l1 ++ l2) (counters w))
  | Negotiates w l1 l2 :
      live w = l1 ++ Opening :: l2 →
      opening_step w (with_task w (l1 ++ Ready :: l2) (if tls then count_tls 1 0 0 (counters w) else counters w))
  | HandshakeFails w l1 l2 (timed_out : bool) :
      tls = true → live w = l1 ++ Opening :: l2 →
      opening_step w (end_task w (l1 ++ l2) (if timed_out then count_tls 0 0 1 (counters w) else count_tls 0 1 0 (counters w))).

(** [serve_connection]. *)
Inductive serving_step : World → World → Prop :=
  | Skips w l1 l2 :
      live w = l1 ++ Ready :: l2 → shutdown w = true → serving_step w (end_task w (l1 ++ l2) (counters w))
  | Serves w l1 l2 :
      live w = l1 ++ Ready :: l2 → shutdown w = false →
      serving_step w (with_task w (l1 ++ Serving false false :: l2) (open_conn (counters w)))
  | FirstRequest w l1 g l2 :
      live w = l1 ++ Serving false g :: l2 → serving_step w (with_task w (l1 ++ Serving true g :: l2) (counters w))
  | HeaderTimeout w l1 g l2 :
      live w = l1 ++ Serving false g :: l2 →
      serving_step w (end_task w (l1 ++ l2) (drop_guard 1 (counters w)))
  | Graceful w l1 f l2 :
      live w = l1 ++ Serving f false :: l2 → shutdown w = true →
      serving_step w (with_task w (l1 ++ Serving f true :: l2) (counters w))
  | Closes w l1 f g l2 :
      live w = l1 ++ Serving f g :: l2 → serving_step w (end_task w (l1 ++ l2) (drop_guard 1 (counters w)))
  | Upgrades w l1 g l2 :
      live w = l1 ++ Serving true g :: l2 → serving_step w (hand_over w (l1 ++ l2) (drop_guard 1 (counters w))).

(** [drain_connections], and the reaping of finished tasks. *)
Inductive drain_step : World → World → Prop :=
  | Reaps w n :
      loop w = Selecting ∨ (∃ n, loop w = Draining n) → finished w = S n →
      drain_step w {| loop := loop w; permits := permits w; live := live w; finished := n; shutdown := shutdown w;
                stop_accept := stop_accept w; tunnels := tunnels w; counters := counters w |}
  | Drained w n :
      loop w = Draining n → in_set w = 0%nat →
      drain_step w {| loop := Gone; permits := permits w; live := []; finished := 0; shutdown := shutdown w;
                stop_accept := stop_accept w; tunnels := tunnels w; counters := count_drain n 0 (counters w) |}
  | Abandons w n :
      loop w = Draining n → in_set w ≠ 0%nat →
      drain_step w {| loop := Gone; permits := (λ p, (p + length (live w))%nat) <$> permits w; live := []; finished := 0;
                shutdown := shutdown w; stop_accept := stop_accept w; tunnels := tunnels w;
                counters := drop_guard (serving (live w))
                  (count_drain (n - in_set w) (in_set w) (counters w)) |}.

Inductive step : World → World → Prop :=
  | ByLoop w w' : loop_step w w' → step w w'
  | ByOpening w w' : opening_step w w' → step w w'
  | ByServing w w' : serving_step w w' → step w w'
  | ByDrain w w' : drain_step w w' → step w w'
  | TunnelEnds w n :
      tunnels w = S n →
      step w {| loop := loop w; permits := permits w; live := live w; finished := finished w; shutdown := shutdown w;
                stop_accept := stop_accept w; tunnels := n; counters := counters w |}
  | SignalsShutdown w :
      step w {| loop := loop w; permits := permits w; live := live w; finished := finished w; shutdown := true;
                stop_accept := stop_accept w; tunnels := tunnels w; counters := counters w |}
  | SignalsStop w :
      step w {| loop := loop w; permits := permits w; live := live w; finished := finished w; shutdown := shutdown w;
                stop_accept := true; tunnels := tunnels w; counters := counters w |}.

(** [run_plain] or [run_tls] at its start. *)
Definition start (max_connections : option N) (c : Counters) : World :=
  {| loop := Selecting; permits := N.to_nat <$> max_connections; live := []; finished := 0; shutdown := false;
     stop_accept := false; tunnels := 0; counters := c |}.

(** * Invariant *)

Lemma serving_app l1 l2 : serving (l1 ++ l2) = (serving l1 + serving l2)%nat.
Proof. unfold serving. by rewrite List.filter_app, length_app. Qed.

Lemma serving_cons p l : serving (p :: l) = ((if is_serving p then 1 else 0) + serving l)%nat.
Proof. unfold serving. cbn. by destruct (is_serving p). Qed.

Lemma serving_nil : serving [] = 0%nat.
Proof. done. Qed.

Lemma serving_le l : (serving l <= length l)%nat.
Proof. apply List.filter_length_le. Qed.

(** With [c0] the counters at the start. *)
Record inv (cap : option N) (c0 : Counters) (w : World) : Prop := {
  inv_permits : match cap with
                | Some c => ∃ f, permits w = Some f ∧ (f + length (live w))%nat = N.to_nat c
                | None => permits w = None
                end;
  inv_http : http_conns_active (counters w) = (http_conns_active c0 + Z.of_nat (serving (live w)))%Z;
  inv_listener : l_conns_active (counters w) = (l_conns_active c0 + Z.of_nat (serving (live w)))%Z;
  inv_drain : ∀ n, loop w = Draining n → (in_set w <= n)%nat;
  inv_gone : loop w = Gone → live w = [] ∧ finished w = 0%nat;
  inv_quiet : loop w ≠ Gone → shutdown_drained_total (counters w) = shutdown_drained_total c0 ∧
    shutdown_abandoned_total (counters w) = shutdown_abandoned_total c0;
}.

Lemma listener_start cap c0 : inv cap c0 (start cap c0).
Proof.
  split; cbn; try done; try (unfold serving; cbn; lia). destruct cap; cbn; [|done]. eexists. split; [done|lia].
Qed.

(** The cap in one formula: the free permits and the tasks make it up. *)
Lemma permits_moved cap p n p' n' :
  match cap with
  | Some c => ∃ f, p = Some f ∧ (f + n)%nat = N.to_nat c
  | None => p = None
  end →
  (∀ f, p = Some f → ∃ f', p' = Some f' ∧ (f' + n' = f + n)%nat) → (p = None → p' = None) →
  match cap with
  | Some c => ∃ f, p' = Some f ∧ (f + n')%nat = N.to_nat c
  | None => p' = None
  end.
Proof. destruct cap; [|naive_solver]. intros (f & Hf & <-) Hs _. destruct (Hs f Hf) as (f' & -> & ?). eauto. Qed.

Ltac counted :=
  unfold in_set in *;
  repeat match goal with E : live _ = _ |- _ => rewrite E in *; clear E end;
  rewrite ?serving_app, ?serving_cons, ?serving_nil, ?length_app in *; cbn [is_serving length Nat.add] in *.

Ltac settle :=
  try done; try lia;
  first [ by intros; simplify_eq/=
        | intros ? E; rewrite E in *; simplify_eq/=; eexists; split; [done|lia]
        | by intros ->
        | intros; simplify_eq/=; lia
        | match goal with D : ∀ n, _ = Draining n → _ |- _ => intros ? E; specialize (D _ E); lia end
        | by match goal with G : _ = Gone → _ ∧ _ |- _ => intros E; destruct (G E) as [[_ ?]%app_eq_nil _] end
        | match goal with G : _ = Gone → _ ∧ _ |- _ => intros E; destruct (G E); split; [done|lia] end
        | by match goal with Q : _ ≠ Gone → _ |- _ => intros ?; apply Q; congruence end ].

Lemma listener_step cap c0 w w' : step w w' → inv cap c0 w → inv cap c0 w'.
Proof.
  intros Hs [Hp Hh Hl Hd Hg Hq].
  pose proof (serving_le (live w)) as Hle.
  destruct Hs as [? ? Hs|? ? Hs|? ? Hs|? ? Hs| | |]; try destruct Hs; try destruct tls; try destruct timed_out; (split; [eapply permits_moved; [exact Hp|..]|..]); cbn in *; counted; settle.
Qed.

Lemma listener_reachable cap c0 w : rtc step (start cap c0) w → inv cap c0 w.
Proof.
  intros Hr. pose proof (listener_start cap c0) as Hi. revert Hi.
  induction Hr as [|w1 w2 w3 Hs _ IH]; [done|]. intros Hi. apply IH. by eapply listener_step.
Qed.

(** The sockets a listener accepted that are still open: of its tasks, the
    one the loop holds while it waits for a permit, and of the tunnels. *)
Definition held_by_loop (w : World) : nat := match loop w with Blocked => 1 | _ => 0 end.

Definition open_sockets (w : World) : nat := (length (live w) + held_by_loop w + tunnels w)%nat.

(** C33: at every moment of every interleaving the connection tasks of a
    listener are within its cap, and the open sockets beyond the cap are at
    most one that waits for a permit and those of upgraded connections, whose
    tunnels hold no permit.  The gauges count exactly the connections in
    service, a tunnel not among them; when the listener is gone they are what
    they were before it, and only tunnels are left open. *)
Theorem listener_invariant cap c0 w :
  rtc step (start cap c0) w →
  (∀ c, cap = Some c → (length (live w) <= N.to_nat c)%nat ∧
     (open_sockets w <= N.to_nat c + 1 + tunnels w)%nat ∧
     (permits w = Some 0%nat ↔ length (live w) = N.to_nat c)) ∧
  http_conns_active (counters w) = (http_conns_active c0 + Z.of_nat (serving (live w)))%Z ∧
  l_conns_active (counters w) = (l_conns_active c0 + Z.of_nat (serving (live w)))%Z ∧
  (loop w = Gone → http_conns_active (counters w) = http_conns_active c0 ∧
     l_conns_active (counters w) = l_conns_active c0 ∧ open_sockets w = tunnels w).
Proof.
  intros [Hp Hh Hl _ Hg _]%listener_reachable. split_and!; [|done|done|].
  - intros c ->. destruct Hp as (f & -> & Hf). unfold open_sockets, held_by_loop.
    split_and!; [lia|destruct (loop w); lia|]. split; [intros [= ->]; lia|intros ?; f_equal; lia].
  - intros E. destruct (Hg E) as [Hn _]. rewrite Hn, serving_nil in Hh, Hl.
    unfold open_sockets, held_by_loop. rewrite E, Hn. cbn. lia.
Qed.

(** A listener that leaves accounts for every connection it had when it
    stopped accepting, as drained or as abandoned; the subtraction of the
    abandoned ones does not underflow. *)
Theorem drain_accounted cap c0 w n w' :
  rtc step (start cap c0) w → loop w = Draining n → step w w' → loop w' = Gone →
  ∃ drained abandoned, (drained + abandoned)%nat = n ∧
    shutdown_drained_total (counters w') = wrap64 (shutdown_drained_total c0 + N.of_nat drained) ∧
    shutdown_abandoned_total (counters w') = wrap64 (shutdown_abandoned_total c0 + N.of_nat abandoned).
Proof.
  intros Hi%listener_reachable Hn Hs Hg. destruct Hi as [_ _ _ Hd _ Hq]. specialize (Hd n Hn).
  destruct Hq as [Hq1 Hq2]; [congruence|].
  destruct Hs as [? ? Hs|? ? Hs|? ? Hs|? ? Hs| | |]; try destruct Hs; cbn in *; try congruence.
  - assert (n0 = n) as -> by congruence. exists n, 0%nat. rewrite Hq1, Hq2. split_and!; [lia|done|done].
  - assert (n0 = n) as -> by congruence. exists (n - in_set w)%nat, (in_set w). rewrite Hq1, Hq2.
    split_and!; [lia|done|done].
Qed.

(** A listener at its cap with one more socket accepted does not look at the
    signals until a connection ends. *)
Lemma full_listener_waits w w' :
  step w w' → loop w = Blocked → permits w = Some 0%nat → loop w' = Blocked.
Proof.
  intros Hs Hb Hp. destruct Hs as [? ? Hs|? ? Hs|? ? Hs|? ? Hs| | |]; try destruct Hs; cbn in *; congruence || naive_solver.
Qed.

(** A keep-alive time bounds the header timer, unless the header time is
    unlimited: zero is then the least of the two, and no timer is set. *)
Lemma keepalive_bounds t h2 k :
  keepalive_secs t = Some k → 0 < k →
  match header_read_timeout (make_builder t h2) with
  | Some d => d <= from_secs k
  | None => request_header_secs t = Some 0
  end.
Proof.
  intros Hk Hpos. unfold make_builder, header_timeout, least. cbn. rewrite Hk.
  rewrite bool_decide_false by (intros [= ->]; lia).
  destruct (request_header_secs t) as [r|]; cbn.
  - destruct (N.ltb_spec 0 (r `min` k)); [unfold from_secs; nia|]. f_equal. lia.
  - destruct (N.ltb_spec 0 k); [unfold from_secs; lia|lia].
Qed.

End listener.

(** * Example *)

Module Demo.

Definition zero : Counters :=
  {| http_conns_total := 0; http_conns_active := 0; l_conns_total := 0; l_conns_active := 0;
     shutdown_drained_total := 0; shutdown_abandoned_total := 0; tls_handshakes_total := 0;
     tls_handshake_failures_total := 0; tls_handshake_timeouts_total := 0 |}.

(** A listener with room for one: a connection is served, a second accepted
    and held, the listener removed, the first client leaves, the second gets
    its turn, and the drain gives it up. *)
Definition serving_one : World :=
  {| loop := Blocked; permits := Some 0%nat; live := [Serving false false]; finished := 0; shutdown := false;
     stop_accept := true; tunnels := 0; counters := open_conn zero |}.

Ltac take_step := eapply rtc_l; [|cbn].

Lemma held : rtc (step false) (start (Some 1) zero) serving_one.
Proof.
  take_step; [by apply ByLoop, Accepts|]. take_step; [by apply ByLoop, (Spawns _ 0)|]. take_step; [by apply ByOpening, (Negotiates _ _ [] [])|].
  take_step; [by apply ByServing, (Serves _ [] [])|].
  take_step; [by apply ByLoop, Accepts|]. take_step; [by apply SignalsStop|]. done.
Qed.

Definition draining_second : World :=
  {| loop := Draining 2; permits := Some 0%nat; live := [Opening]; finished := 1; shutdown := false;
     stop_accept := true; tunnels := 0; counters := drop_guard 1 (open_conn zero) |}.

Lemma drains : rtc (step false) (start (Some 1) zero) draining_second.
Proof.
  etrans; [apply held|]. take_step; [by apply ByServing, (Closes _ [] false false [])|]. take_step; [by apply ByLoop, (Spawns _ 0)|].
  take_step; [by apply ByLoop, Leaves|]. done.
Qed.

Lemma listener_invariant_witness :
  http_conns_active (counters serving_one) = 1%Z ∧ (length (live serving_one) <= 1)%nat ∧
  (open_sockets serving_one <= 2)%nat.
Proof.
  destruct (listener_invariant false (Some 1) zero serving_one held) as (Hc & Hh & _).
  destruct (Hc 1 eq_refl) as (Hl & Ho & _). split_and!; [exact Hh|exact Hl|exact Ho].
Defined.

(** The cap does not bound the sockets open: one upgraded connection after
    another leaves a tunnel behind and makes room for the next. *)
Definition idle (c : Counters) (f n : nat) : World :=
  {| loop := Selecting; permits := Some 1%nat; live := []; finished := f; shutdown := false; stop_accept := false;
     tunnels := n; counters := c |}.

Lemma upgrade_one c f n : ∃ c', rtc (step false) (idle c f n) (idle c' (S f) (S n)).
Proof.
  exists (drop_guard 1 (open_conn c)). take_step; [by apply ByLoop, Accepts|]. take_step; [by apply ByLoop, (Spawns _ 0)|].
  take_step; [by apply ByOpening, (Negotiates _ _ [] [])|]. take_step; [by apply ByServing, (Serves _ [] [])|].
  take_step; [by apply ByServing, (FirstRequest _ [] false [])|].
  take_step; [by apply ByServing, (Upgrades _ [] false [])|]. done.
Qed.

Lemma tunnels_escape_cap n : ∃ w, rtc (step false) (start (Some 1) zero) w ∧ open_sockets w = n ∧ live w = [].
Proof.
  assert (∃ c f, rtc (step false) (start (Some 1) zero) (idle c f n)) as (c & f & Hr).
  { induction n as [|n (c & f & IH)]; [by exists zero, 0%nat|]. destruct (upgrade_one c f n) as [c' Hc].
    exists c', (S f). by etrans. }
  exists (idle c f n). split_and!; done.
Qed.

Lemma drain_accounted_witness :
  ∃ drained abandoned, (drained + abandoned)%nat = 2%nat ∧ shutdown_drained_total zero = 0 ∧ (abandoned <= 2)%nat.
Proof.
  edestruct (drain_accounted false (Some 1) zero draining_second 2) as (d & a & Hn & _ & _);
    [apply drains|done|by apply ByDrain, Abandons|done|]. exists d, a. split_and!; [done|done|lia].
Defined.

(** [timeouts request-header=0 keepalive=60]. *)
Lemma zero_header_lifts_idle_cap h2 :
  header_read_timeout
    (make_builder {| request_header_secs := Some 0; handler_secs := None; keepalive_secs := Some 60 |} h2) = None.
Proof. reflexivity. Qed.

End Demo.

End Accept.
