(* ===== verification/Quic.v ===== *)
(** HTTP/3 requests ([src/listener/quic.rs]): address validation, the header
    window, the request body as the handlers read it, and the response as it
    is sent. *)
From S2P Require Import Prelude RustStr Net Http Errors Template RateLimit Metrics ParseConfig Dispatch Accept.

Module H3.

(** * Admission *)

(** Whether a connection attempt is answered with a retry token. *)
Definition answers_retry (transport : option ParseConfig.QuicTransport) (validated may_retry : bool) : bool :=
  default true (ParseConfig.retry_tokens <$> transport) && negb validated && may_retry.

(** * The request body *)

(** What the receive half yields. *)
Inductive Recv :=
  | Chunk (b : string)
  | Finished
  | Reset.

(** How the body ends for its reader: at its end, or not yet. *)
Inductive BodyEnd := EndOfBody | Pending.

Definition len (s : string) : N := N.of_nat (String.length s).

(** [poll_frame] until it has nothing more: the data frames, and the end. *)
Fixpoint frames (max_body : option N) (seen : N) (evs : list Recv) : list string * BodyEnd :=
  match evs with
  | [] => ([], Pending)
  | Chunk b :: evs' =>
      let seen := wrap64 (seen + len b) in
      if match max_body with Some max => max <? seen | None => false end then ([], EndOfBody)
      else let '(fs, e) := frames max_body seen evs' in (b :: fs, e)
  | Finished :: _ | Reset :: _ => ([], EndOfBody)
  end.

Lemma len_nil : len "" = 0.
Proof. done. Qed.

(** The bytes the client sent before the stream ended. *)
Fixpoint payload (evs : list Recv) : string :=
  match evs with
  | Chunk b :: evs' => b +:+ payload evs'
  | _ => ""
  end.

(** * A request *)

Inductive Handled :=
  | HeadersLate
  | Refused (r : HttpResponse)
  | Dispatched (body : list string * BodyEnd).

Section request.
Context `{Http}.

(** [handle_h3_request] up to the dispatch: [late] says whether the headers
    took longer than the window. *)
Definition handle_h3_request (timeouts : ParseConfig.Timeouts) (max_body : option N) (late : Duration → bool)
    (headers : header_map) (evs : list Recv) : option Handled :=
  if match Accept.first_request_window timeouts with Some d => late d | None => false end then Some HeadersLate
  else
    match max_body, Dispatch.content_length headers with
    | Some max, Some cl =>
        if max <? cl then Refused <$> Errors.response_413 else Some (Dispatched (frames max_body 0 evs))
    | _, _ => Some (Dispatched (frames max_body 0 evs))
    end.

(** * The response *)

Inductive Frame :=
  | Data (s : string)
  | Trailers (h : header_map)
  | BodyError.

Inductive Send :=
  | SendHead (status : N) (h : header_map)
  | SendData (s : string)
  | SendTrailers (h : header_map)
  | Finish.

(** [HeaderMap::extend] with another map. *)
Context (extend : header_map → header_map → header_map).

Fixpoint send_body (fs : list Frame) (trailers : option header_map) : list Send * Result unit :=
  match fs with
  | [] => (match trailers with Some h => [SendTrailers h] | None => [] end ++ [Finish], Ok tt)
  | Data s :: fs' => let '(es, r) := send_body fs' trailers in (SendData s :: es, r)
  | Trailers h :: fs' => send_body fs' (Some match trailers with Some acc => extend acc h | None => h end)
  | BodyError :: _ => ([], Err "response body read error")
  end.

(** [send_h3_response], the stream accepting what is sent. *)
Definition send_h3_response (status : N) (h : header_map) (fs : list Frame) : list Send * Result unit :=
  let '(es, r) := send_body fs None in (SendHead status h :: es, r).

(** * Properties *)

Lemma frames_prefix max seen evs fs e :
  frames max seen evs = (fs, e) → ∃ rest, payload evs = String.concat "" fs +:+ rest.
Proof.
  revert seen fs. induction evs as [|ev evs IH]; intros seen fs; cbn; [intros [= <- <-]; by eexists|].
  destruct ev as [b| |]; [|intros [= <- <-]; by eexists..].
  case_match; [intros [= <- <-]; by eexists|].
  destruct (frames max (wrap64 (seen + len b)) evs) as [fs' e'] eqn:E. intros [= <- <-].
  destruct (IH _ _ E) as [rest ->]. exists rest. by rewrite concat_empty_cons, str_app_assoc.
Qed.

Lemma len_app a b : len (a +:+ b) = len a + len b.
Proof. unfold len. rewrite str_length_app. lia. Qed.

Lemma frames_capped max seen evs fs e :
  seen ≤ max → seen + len (payload evs) < 2 ^ 64 → frames (Some max) seen evs = (fs, e) →
  seen + len (String.concat "" fs) ≤ max.
Proof.
  revert seen fs. induction evs as [|ev evs IH]; intros seen fs Hs Hb; cbn; [intros [= <- <-]; cbn; rewrite len_nil; lia|].
  destruct ev as [b| |]; [|intros [= <- <-]; cbn; rewrite len_nil; lia..]. cbn in Hb. rewrite len_app in Hb.
  rewrite wrap64_small by (unfold u64_mod; lia). case_match eqn:E; [intros [= <- <-]; cbn; rewrite len_nil; lia|]. apply N.ltb_ge in E.
  destruct (frames (Some max) (seen + len b) evs) as [fs' e'] eqn:Ef. intros [= <- <-].
  rewrite concat_empty_cons, len_app. specialize (IH _ _ E ltac:(lia) Ef). lia.
Qed.

Lemma frames_all max seen evs :
  seen + len (payload evs) < 2 ^ 64 → match max with Some m => seen + len (payload evs) ≤ m | None => True end →
  String.concat "" (frames max seen evs).1 = payload evs.
Proof.
  revert seen. induction evs as [|ev evs IH]; intros seen Hb Hm; [done|].
  destruct ev as [b| |]; [|done..]. cbn [payload frames] in *. rewrite len_app in Hb, Hm.
  rewrite wrap64_small by (unfold u64_mod; lia).
  assert (match max with Some m => m <? seen + len b | None => false end = false) as ->
    by (destruct max; [apply N.ltb_ge; lia|done]).
  specialize (IH (seen + len b) ltac:(lia)). destruct (frames max (seen + len b) evs) as [fs e]. cbn [fst] in *.
  rewrite concat_empty_cons, IH; [done|]. destruct max; [lia|done].
Qed.

(** A handler reads of an HTTP/3 body what the client sent, in order, and
    never more than the cap: all of it if it is within the cap, and otherwise
    whole chunks from its beginning. *)
Theorem h3_body_capped max_body evs fs e :
  len (payload evs) < 2 ^ 64 → frames max_body 0 evs = (fs, e) →
  (∃ rest, payload evs = String.concat "" fs +:+ rest) ∧
  (∀ max, max_body = Some max → len (String.concat "" fs) ≤ max) ∧
  ((∀ max, max_body = Some max → len (payload evs) ≤ max) → String.concat "" fs = payload evs).
Proof.
  intros Hb Hf. split_and!.
  - by eapply frames_prefix.
  - intros max ->. change (0 + len (String.concat "" fs) ≤ max). eapply frames_capped; [lia|by rewrite N.add_0_l|done].
  - intros Hm. pose proof (frames_all max_body 0 evs) as Ha. rewrite Hf in Ha. apply Ha; [by rewrite N.add_0_l|].
    destruct max_body; [|done]. by apply Hm.
Qed.

(** A body cut by the cap or by a reset of the stream ends for its reader as
    a complete one does. *)
Lemma cut_body_looks_complete b :
  frames None 0 [Chunk b; Reset] = frames None 0 [Chunk b; Finished] ∧
  frames (Some 2) 0 [Chunk "ab"; Chunk "c"; Finished] = frames (Some 2) 0 [Chunk "ab"; Finished].
Proof. split; reflexivity. Qed.

Fixpoint data (fs : list Frame) : list string :=
  match fs with [] => [] | Data s :: fs' => s :: data fs' | _ :: fs' => data fs' end.

Definition trailers_of (fs : list Frame) (acc : option header_map) : option header_map :=
  foldl (λ acc f, match f with
                  | Trailers h => Some match acc with Some a => extend a h | None => h end
                  | _ => acc
                  end) acc fs.

Lemma send_body_ok fs acc :
  Forall (λ f, f ≠ BodyError) fs →
  send_body fs acc
    = ((SendData <$> data fs) ++ match trailers_of fs acc with Some h => [SendTrailers h] | None => [] end ++ [Finish], Ok tt).
Proof.
  revert acc. induction fs as [|f fs IH]; intros acc; [done|]. intros [Hf Hfs]%Forall_cons.
  destruct f as [s|h|]; cbn; [by rewrite IH|by rewrite IH|done].
Qed.

(** A response is sent as its head, its data in order, its trailers and the
    end of the stream; when the body fails the stream is left unfinished. *)
Theorem h3_response_sent status h fs :
  (Forall (λ f, f ≠ BodyError) fs →
   send_h3_response status h fs
     = (SendHead status h :: (SendData <$> data fs) ++
          match trailers_of fs None with Some t => [SendTrailers t] | None => [] end ++ [Finish], Ok tt)) ∧
  (∀ pre post, fs = pre ++ BodyError :: post → Forall (λ f, f ≠ BodyError) pre →
   send_h3_response status h fs = (SendHead status h :: (SendData <$> data pre), Err "response body read error")).
Proof.
  unfold send_h3_response. split.
  - intros Hf. by rewrite send_body_ok.
  - intros pre post -> Hpre. assert (∀ acc, send_body (pre ++ BodyError :: post) acc
      = (SendData <$> data pre, Err "response body read error")) as ->; [|done].
    induction Hpre as [|f fs Hf _ IH]; intros acc; [done|]. destruct f as [s|t|]; cbn; [by rewrite IH|apply IH|done].
Qed.

End request.

(** * Example *)

Module Demo.

Lemma h3_body_capped_witness :
  (∃ rest, "abcdef" = String.concat "" ["ab"; "cd"] +:+ rest) ∧ len (String.concat "" ["ab"; "cd"]) ≤ 5.
Proof.
  destruct (h3_body_capped (Some 5) [Chunk "ab"; Chunk "cd"; Chunk "ef"; Finished] ["ab"; "cd"] EndOfBody)
    as (Hp & Hm & _); [vm_compute; reflexivity|vm_compute; reflexivity|]. split; [exact Hp|by apply Hm].
Defined.

End Demo.

End H3.
