(* ===== verification/Build.v ===== *)
(** Building the routes of a configuration ([build_vhost] and its helpers in
    [src/router.rs], [build_handler] in [src/handler/mod.rs], the constructors
    of the static and proxy handlers): every template of a location is
    compiled against the variables in its scope, and what it will read of a
    request is added to the needs of the location.

    [None] is a panic. *)
From Stdlib Require Import QArith Qcanon.
From S2P Require Import Prelude RustStr Net Http Errors Template Vars HeaderRules Auth Access CachePolicy Metrics LoadBalancer.
From S2P Require Import RateLimit Matcher Router StaticFiles ProxyProto ProxyRequest Proxy Respond Dispatch Listeners AccessLog Kdl ParseRules ParseHandler ParseConfig Config ConfigOk.

Module Build.
Import Vars ParseConfig.

(** * Steps

    A step threads the needs of the location and may fail. *)

Definition B (A : Type) : Type := VarNeeds → option (Result (A * VarNeeds)).

#[global] Instance B_ret : MRet B := λ _ a nd, Some (Ok (a, nd)).
#[global] Instance B_bind : MBind B := λ _ _ f m nd,
  match m nd with
  | Some (Ok (a, nd)) => f a nd
  | Some (Err e) => Some (Err e)
  | None => None
  end.

Definition lift {A} (r : Result A) : B A := λ nd, Some (a ← r; Ok (a, nd)).
Definition lift_panic {A} (r : option (Result A)) : B A := λ nd, x ← r; Some (a ← x; Ok (a, nd)).

(** [.map(f).transpose()?]. *)
Definition opt_step {A C} (f : A → B C) (o : option A) : B (option C) :=
  match o with Some a => c ← f a; mret (Some c) | None => mret None end.

(** [.iter().map(f).collect::<Result<_>>()?]. *)
Fixpoint map_step {A C} (f : A → B C) (l : list A) : B (list C) :=
  match l with [] => mret [] | a :: l' => c ← f a; cs ← map_step f l'; mret (c :: cs) end.

Section build.
Context `{IpNets} `{Http} `{Regex} `{F64} `{Uris}.

Abbreviation Template := (list Template.TemplatePart) (only parsing).

(** * Handlers *)

Inductive BuiltHandler :=
  | HStatic (h : StaticFiles.StaticHandler)
  | HProxy (inners : list Proxy.InnerProxyClient) (pool : Lb.UpstreamPool) (group_by : option Template)
      (retry : Proxy.RetryConfig) (probe : option Lb.ActiveHealthConfig)
  | HRedirect (h : Respond.RedirectHandler)
  | HRespond (h : Respond.RespondHandler)
  | HFastCgi (socket root : string) (index : option string)
  | HScgi (socket root : string) (index : option string)
  | HCgi (root : string)
  | HStatus
  | HMetrics
  | HAuthRequest.

Definition handler_kind (h : ParseHandler.HandlerConfig) : Metrics.HandlerKind :=
  match h with
  | ParseHandler.CStatic _ => Metrics.Static
  | ParseHandler.CProxy _ => Metrics.Proxy
  | ParseHandler.CRedirect _ _ => Metrics.Redirect
  | ParseHandler.CRespond _ _ _ => Metrics.Respond
  | ParseHandler.CFastCgi _ _ _ => Metrics.FastCgi
  | ParseHandler.CScgi _ _ _ => Metrics.Scgi
  | ParseHandler.CCgi _ => Metrics.CgiKind
  | ParseHandler.CStatus => Metrics.Status
  | ParseHandler.CMetrics => Metrics.MetricsKind
  | ParseHandler.CAuthRequest => Metrics.AuthRequest
  end.

(** The counters of a fresh pool, whether an HTTP/3 client can be made for an
    upstream, [Method::from_bytes], the named policies and the log fields of
    the server. *)
Context (lb_metrics : Lb.LbMetrics) (h3_new : uri → bool) (method_from_bytes : string → option string)
  (named : gmap string (list Access.PolicyRule)) (log_fields : list (string * string)).

Section scope.
(** The variables in scope. *)
Context (tbl : VarTable).

Definition absorb_step (t : Template) : B unit := λ nd, nd ← absorb nd t tbl; Some (Ok (tt, nd)).

(** Compiles a template and absorbs what it reads. *)
Definition template (s : string) : B Template :=
  t ← lift (Template.compile s (vt_names tbl)); _ ← absorb_step t; mret t.

(** [StaticHandler::new]. *)
Definition build_static (c : ParseHandler.StaticConfig) : B StaticFiles.StaticHandler :=
  try_files ← map_step template (ParseHandler.st_try_files c);
  fallback ← opt_step template (ParseHandler.st_fallback_redirect c);
  mret {| StaticFiles.h_root := ParseHandler.st_root c; StaticFiles.h_index_files := ParseHandler.st_index_files c;
          StaticFiles.h_strip_prefix := ParseHandler.st_strip_prefix c; StaticFiles.h_try_files := try_files;
          StaticFiles.h_directory_listing := ParseHandler.st_directory_listing c;
          StaticFiles.h_fallback_redirect := fallback; StaticFiles.h_userdir := ParseHandler.st_userdir c;
          StaticFiles.h_userdir_allowlist := ParseHandler.st_userdir_allowlist c;
          StaticFiles.h_userdir_min_uid := ParseHandler.st_userdir_min_uid c |}.

(** [ProxyHandler::new_pool]. *)
Definition build_proxy (c : ParseHandler.ProxyHandlerConfig) : B BuiltHandler :=
  group_by ← opt_step template (ParseHandler.px_group_by c);
  if decide (ParseHandler.px_upstreams c = []) then lift (Err "proxy pool requires at least one upstream")
  else
    inners ← map_step (λ u, lift_panic (Proxy.new_inner h3_new (Lb.uc_url u) (ParseHandler.px_strip_prefix c)
                              (ParseHandler.px_proxy_protocol c) (ParseHandler.px_scheme c)))
               (ParseHandler.px_upstreams c);
    mret (HProxy inners
            (Lb.new_pool (Lb.build_upstreams (ParseHandler.px_upstreams c)) (ParseHandler.px_lb_policy c)
               (ParseHandler.px_lb_hash_header c) (ParseHandler.px_passive_health c) lb_metrics)
            group_by (ParseHandler.px_retry c) (ParseHandler.px_active_health c)).

Definition build_body (b : ParseHandler.RespondBody) : B Respond.RespondBodySource :=
  match b with
  | ParseHandler.REmpty => mret Respond.SEmpty
  | ParseHandler.RInline s => t ← template s; mret (Respond.SInline t)
  | ParseHandler.RFile p => mret (Respond.SFile p)
  end.

Definition build_handler (c : ParseHandler.HandlerConfig) : B BuiltHandler :=
  match c with
  | ParseHandler.CStatic c => h ← build_static c; mret (HStatic h)
  | ParseHandler.CProxy c => build_proxy c
  | ParseHandler.CRedirect to code =>
      t ← template to; mret (HRedirect {| Respond.rd_to := t; Respond.rd_code := code |})
  | ParseHandler.CRespond status body ct =>
      source ← build_body body;
      if Errors.valid_status status then
        mret (HRespond {| Respond.rp_status := status; Respond.rp_body := source; Respond.rp_content_type := ct |})
      else lift (Err "respond: invalid status code")
  | ParseHandler.CFastCgi socket root index => mret (HFastCgi socket root index)
  | ParseHandler.CScgi socket root index => mret (HScgi socket root index)
  | ParseHandler.CCgi root => mret (HCgi root)
  | ParseHandler.CStatus => mret HStatus
  | ParseHandler.CMetrics => mret HMetrics
  | ParseHandler.CAuthRequest => mret HAuthRequest
  end.

(** * The rest of a location *)

Definition op_from_config (o : HeaderOpConfig) : B HeaderRules.HeaderOp :=
  match o with
  | CSet n v =>
      name ← lift (ok_or (hn_from_bytes n) "invalid header name"); t ← template v; mret (HeaderRules.OpSet name t)
  | CAdd n v =>
      name ← lift (ok_or (hn_from_bytes n) "invalid header name"); t ← template v; mret (HeaderRules.OpAdd name t)
  | CRemove n => name ← lift (ok_or (hn_from_bytes n) "invalid header name"); mret (HeaderRules.OpRemove name)
  end.

Definition build_rules (request response : list HeaderOpConfig) : B (option HeaderRules.HeaderRules) :=
  if decide (request = [] ∧ response = []) then mret None
  else
    req ← map_step op_from_config request;
    resp ← map_step op_from_config response;
    mret (Some (HeaderRules.new_rules req resp)).

Definition build_policy (defs : list Router.PolicyRuleDef) : B Access.PolicyBlock :=
  rules ← lift (Router.inline_rules defs named false);
  block ← lift (Access.with_vars rules (vt_names tbl));
  _ ← map_step absorb_step (Access.redirect_templates block);
  mret block.

Definition rate_limit_rule_from_config (c : RateLimitConfig) : Result RateLimit.RateLimitRule :=
  key ← match rc_key c with
        | ClientIp => Ok RateLimit.KClientIp
        | User => Ok RateLimit.KUser
        | Header n => h ← ok_or (hn_from_bytes n) "rate-limit invalid header name"; Ok (RateLimit.KHeader h)
        end;
  Ok (RateLimit.new_rule (rc_name c) (rc_rate_per_sec c) (rc_burst c) key).

Definition rewrite_from_config (c : RewriteConfig) : Result Router.Rewrite :=
  re ← ok_or (regex_new (from c)) "rewrite invalid from regex";
  Ok {| Router.rw_from := re; Router.rw_to := to c |}.

Definition build_cache (c : Policy.CacheConfig) : B Policy.CachePolicy :=
  p ← lift (Policy.compile_policy c (vt_names tbl));
  _ ← opt_step absorb_step (Policy.cp_key p);
  mret p.

Definition build_log_fields : B (option (list (string * Template))) :=
  if decide (log_fields = []) then mret None
  else fs ← map_step (λ f, t ← template f.2; mret (f.1, t)) log_fields; mret (Some fs).

(** A location as built. *)
Record Built := {
  b_handler : BuiltHandler;
  b_kind : Metrics.HandlerKind;
  b_policy : option Access.PolicyBlock;
  b_realm : option string;
  b_header_rules : option HeaderRules.HeaderRules;
  b_rate_limits : list RateLimit.RateLimitRule;
  b_max_request_body : option N;
  b_cache_policy : option Policy.CachePolicy;
  b_log_fields : option (list (string * Template));
}.

Definition build_parts (l : LocationConfig) : B (Built * option (list Matcher.MatchPredicate) * option Router.Rewrite) :=
  handler ← build_handler (l_handler l);
  rules ← build_rules (l_request_headers l) (l_response_headers l);
  policy ← opt_step build_policy (l_policy l);
  limits ← lift (try_map rate_limit_rule_from_config (l_rate_limits l));
  matcher ← opt_step (λ c, lift (Matcher.compile_predicates method_from_bytes c)) (l_matcher l);
  rewrite ← opt_step (λ c, lift (rewrite_from_config c)) (l_rewrite l);
  cache ← opt_step build_cache (l_cache l);
  fields ← build_log_fields;
  mret ({| b_handler := handler; b_kind := handler_kind (l_handler l); b_policy := policy; b_realm := l_realm l;
           b_header_rules := rules; b_rate_limits := limits; b_max_request_body := l_max_request_body l;
           b_cache_policy := cache; b_log_fields := fields |}, matcher, rewrite).

End scope.

(** * Virtual hosts *)

(** The payload of a location: what it attaches, and its variables with their
    needs when it renders anything that varies. *)
Definition Payload : Type := Built * option Dispatch.RouteVars.

Abbreviation Location := (Router.Location (payload := Payload)) (only parsing).
Abbreviation VHost := (Router.VHost (payload := Payload)) (only parsing).

Definition build_location (tbl : VarTable) (l : LocationConfig) : option (Result Location) :=
  r ← build_parts tbl l needs_default;
  Some (
    '(b, matcher, rewrite, needs) ← r;
    let vars := if needs_any needs then Some {| Dispatch.rv_table := tbl; Dispatch.rv_needs := needs |} else None in
    Ok {| Router.loc_path := l_path l; Router.loc_matcher := matcher; Router.loc_rewrite := rewrite;
          Router.loc_payload := (b, vars) |}).

(** The table of a scope: the enclosing one unless the scope adds variables. *)
Definition scope_table (outer : VarTable) (own : list VariableDef) (layers : list (list VariableDef))
    : option (Result VarTable) :=
  if decide (own = []) then Some (Ok outer) else build_layered layers.

(** A pool of a reverse proxy as the status page lists it. *)
Record LbPoolEntry := {
  label : string;
  pool : Lb.UpstreamPool;
}.

Definition pool_entry (vhost path : string) (b : Built) : list LbPoolEntry :=
  match b_handler b with
  | HProxy _ p _ _ _ => [{| label := vhost +:+ " " +:+ path; pool := p |}]
  | _ => []
  end.

Fixpoint build_locations (vhost : string) (server_vars vhost_vars : list VariableDef) (vhost_table : VarTable)
    (ls : list LocationConfig) (pools : list LbPoolEntry) : option (Result (list Location * list LbPoolEntry)) :=
  match ls with
  | [] => Some (Ok ([], pools))
  | l :: ls' =>
      t ← scope_table vhost_table (l_variables l) [server_vars; vhost_vars; l_variables l];
      match t with
      | Err e => Some (Err e)
      | Ok t =>
          r ← build_location t l;
          match r with
          | Err e => Some (Err e)
          | Ok loc =>
              let pools := pools ++ pool_entry vhost (l_path l) (Router.loc_payload loc).1 in
              rest ← build_locations vhost server_vars vhost_vars vhost_table ls' pools;
              Some ('(locs, pools) ← rest; Ok (loc :: locs, pools))
          end
      end
  end.

Definition build_vhost (server_vars : list VariableDef) (server_table : VarTable) (v : VHostConfig)
    (pools : list LbPoolEntry) : option (Result (VHost * list LbPoolEntry)) :=
  t ← scope_table server_table (v_variables v) [server_vars; v_variables v];
  match t with
  | Err e => Some (Err e)
  | Ok t =>
      let name := Router.hn_value (v_name v) in
      r ← build_locations name server_vars (v_variables v) t (v_locations v) pools;
      Some ('(locs, pools) ← r; Ok ({| Router.vh_name := name; Router.vh_locations := locs |}, pools))
  end.

Fixpoint build_vhosts (server_vars : list VariableDef) (server_table : VarTable) (vs : list VHostConfig)
    (pools : list LbPoolEntry) : option (Result (list VHost * list LbPoolEntry)) :=
  match vs with
  | [] => Some (Ok ([], pools))
  | v :: vs' =>
      r ← build_vhost server_vars server_table v pools;
      match r with
      | Err e => Some (Err e)
      | Ok (b, pools) =>
          rest ← build_vhosts server_vars server_table vs' pools;
          Some ('(bs, pools) ← rest; Ok (b :: bs, pools))
      end
  end.

(** * What a location may read

    Every template a location keeps is covered by its needs. *)

Definition handler_templates (h : BuiltHandler) : list Template :=
  match h with
  | HStatic h => StaticFiles.h_try_files h ++ option_list (StaticFiles.h_fallback_redirect h)
  | HProxy _ _ g _ _ => option_list g
  | HRedirect h => [Respond.rd_to h]
  | HRespond h => match Respond.rp_body h with Respond.SInline t => [t] | _ => [] end
  | _ => []
  end.

Definition op_templates (o : HeaderRules.HeaderOp) : list Template :=
  match o with HeaderRules.OpSet _ t | HeaderRules.OpAdd _ t => [t] | HeaderRules.OpRemove _ => [] end.

Definition rules_templates (r : HeaderRules.HeaderRules) : list Template :=
  (HeaderRules.hr_request r ++ HeaderRules.hr_response r) ≫= op_templates.

Definition built_templates (b : Built) : list Template :=
  handler_templates (b_handler b)
  ++ (option_list (b_header_rules b) ≫= rules_templates)
  ++ (option_list (b_policy b) ≫= Access.redirect_templates)
  ++ (option_list (b_cache_policy b) ≫= λ p, option_list (Policy.cp_key p))
  ++ (option_list (b_log_fields b) ≫= λ fs, fs.*2).

Definition grows (a b : VarNeeds) : Prop := needs_le a b ∧ (n_uses_vars a = true → n_uses_vars b = true).

#[local] Instance grows_preorder : PreOrder grows.
Proof.
  split; [intros a; by split|]. intros a b c [L1 U1] [L2 U2]. split; [by etrans|auto].
Qed.

Section covered.
Context (tbl : VarTable) (Hwell : well_built tbl).

Record covered (nd : VarNeeds) (t : Template) : Prop := {
  cv_source : ∃ s, Template.compile s (vt_names tbl) = Ok t;
  cv_reads : reads_within nd t;
  cv_vars : ∀ id, Template.uses_var t id → covers tbl nd id ∧ n_uses_vars nd = true;
}.

Definition all_covered (nd : VarNeeds) (ts : list Template) : Prop := ∀ t, t ∈ ts → covered nd t.

Definition mono (P : VarNeeds → Prop) : Prop := ∀ nd nd', grows nd nd' → P nd → P nd'.

Lemma covered_mono t : mono (λ nd, covered nd t).
Proof.
  intros nd nd' [Hle Hu] [Hs Hr Hv]. split; [done|by eapply reads_within_le|].
  intros id Hid. destruct (Hv id Hid). split; [by eapply covers_le|auto].
Qed.

Lemma all_covered_mono ts : mono (λ nd, all_covered nd ts).
Proof. intros nd nd' Hg Ha t Ht. eapply covered_mono; eauto. Qed.

Lemma mono_and P Q : mono P → mono Q → mono (λ nd, P nd ∧ Q nd).
Proof. intros HP HQ nd nd' Hg [? ?]. split; eauto. Qed.

(** A step that does not panic, loses no need, and meets [Q] if it succeeds. *)
Definition triple {A} (P : VarNeeds → Prop) (m : B A) (Q : A → VarNeeds → Prop) : Prop :=
  ∀ nd, P nd → ∃ r, m nd = Some r ∧ ∀ a nd', r = Ok (a, nd') → grows nd nd' ∧ Q a nd'.

(** A step whose result keeps the templates [ts]. *)
Definition emits {A} (m : B A) (ts : A → list Template) : Prop :=
  ∀ P, mono P → triple P m (λ a nd, P nd ∧ all_covered nd (ts a)).

Lemma triple_ret {A} P (a : A) Q : (∀ nd, P nd → Q a nd) → triple P (mret a) Q.
Proof. intros Hq nd HP. eexists. split; [reflexivity|]. intros ? ? [= <- <-]. split; [done|auto]. Qed.

Lemma triple_bind {A C} P (m : B A) Q (f : A → B C) R :
  triple P m Q → (∀ a, triple (Q a) (f a) R) → triple P (m ≫= f) R.
Proof.
  intros Hm Hf nd HP. destruct (Hm nd HP) as (r & Er & Hr). unfold mbind, B_bind. rewrite Er.
  destruct r as [[a nd1]|e]; [|eexists; split; [reflexivity|done]].
  destruct (Hr a nd1 eq_refl) as [Hg HQ]. destruct (Hf a nd1 HQ) as (r' & Er' & Hr'). exists r'. split; [done|].
  intros c nd2 ->. destruct (Hr' c nd2 eq_refl). split; [by etrans|done].
Qed.

Lemma triple_weaken {A} P (m : B A) (Q R : A → VarNeeds → Prop) :
  triple P m Q → (∀ a nd, Q a nd → R a nd) → triple P m R.
Proof.
  intros Hm Hqr nd HP. destruct (Hm nd HP) as (r & Er & Hr). exists r. split; [done|].
  intros a nd' E. destruct (Hr a nd' E). auto.
Qed.

Lemma triple_err {A} P e (Q : A → VarNeeds → Prop) : triple P (lift (Err e)) Q.
Proof. intros nd _. eexists. split; [reflexivity|]. done. Qed.

Lemma emits_lift {A} (r : Result A) : emits (lift r) (λ _, []).
Proof.
  intros P _ nd HP. eexists. split; [reflexivity|]. intros a nd' E. destruct r as [x|]; [|done]. cbn in E.
  injection E as <- <-. split; [done|]. split; [done|]. intros t Ht. by apply elem_of_nil in Ht.
Qed.

Lemma absorb_total nd s t :
  Template.compile s (vt_names tbl) = Ok t →
  ∃ nd', absorb nd t tbl = Some nd' ∧ (n_uses_vars nd = true → n_uses_vars nd' = true) ∧
    (∀ id, Template.uses_var t id → n_uses_vars nd' = true).
Proof.
  intros Hc. assert (∀ id, id ∈ Template.r_vars (Template.refs t) → (id < length (vt_defs tbl))%nat) as Hin.
  { intros id Hid%Template.refs_vars. by eapply compile_in_range. }
  unfold absorb. setoid_rewrite <- Template.refs_vars. revert Hin. generalize (Template.r_vars (Template.refs t)).
  set (nd0 := {| n_principal := _ |}). change (n_uses_vars nd) with (n_uses_vars nd0). generalize nd0. clear nd0.
  intros nd0 ids. revert nd0. induction ids as [|id ids IH]; intros nd0 Hin; cbn.
  { exists nd0. split_and!; [done|done|]. intros id Hid. by apply elem_of_nil in Hid. }
  destruct (lookup_lt_is_Some_2 (vt_defs tbl) id) as [def Hd]; [apply Hin; set_solver|].
  unfold needs_of at 2. rewrite Hd. cbn.
  match goal with |- context [foldl _ (Some ?x) ids] => destruct (IH x) as (nd' & E & Hu & Hi) end;
    [intros; apply Hin; set_solver|].
  exists nd'. split_and!; [exact E|intros _; by apply Hu|intros _ _; by apply Hu].
Qed.

Lemma emits_absorb t : (∃ s, Template.compile s (vt_names tbl) = Ok t) → emits (absorb_step tbl t) (λ _, [t]).
Proof.
  intros [s Hs] P HP nd Hnd. destruct (absorb_total nd s t Hs) as (nd' & Ea & Hu & Hv).
  unfold absorb_step. rewrite Ea. cbn. eexists. split; [reflexivity|]. intros a nd1 [= <- <-].
  destruct (absorb_covers _ _ _ _ (wb_needs _ Hwell) Ea) as (Hr & Hle & Hcov).
  assert (grows nd nd') as Hg by done. split; [done|]. split; [by eapply HP|].
  intros t' ->%list_elem_of_singleton. split; [by exists s|done|]. intros id Hid. split; [by apply Hcov|by eapply Hv].
Qed.

Lemma emits_template s : emits (template tbl s) (λ t, [t]).
Proof.
  intros P HP. unfold template. intros nd Hnd. unfold mbind, B_bind, lift.
  destruct (Template.compile s (vt_names tbl)) as [t|e] eqn:Ec; cbn; [|eexists; split; [reflexivity|done]].
  destruct (emits_absorb t (ex_intro _ s Ec) P HP nd Hnd) as (r & Er & Hr).
  unfold absorb_step in Er |- *. rewrite Er. destruct r as [[u nd1]|e]; [|eexists; split; [reflexivity|done]].
  eexists. split; [reflexivity|]. intros t' nd' [= <- <-]. by apply (Hr u nd1).
Qed.

Lemma emits_map {A C} (f : A → B C) ts l :
  (∀ a, a ∈ l → emits (f a) ts) → emits (map_step f l) (λ cs, cs ≫= ts).
Proof.
  induction l as [|a l IH]; intros Hf P HP; cbn.
  { apply triple_ret. intros nd Hnd. split; [done|]. intros t Ht. by apply elem_of_nil in Ht. }
  eapply triple_bind; [apply Hf; [set_solver|done]|]. intros c. cbn.
  eapply triple_bind; [apply IH; [set_solver|apply mono_and; [done|apply all_covered_mono]]|]. intros cs. cbn.
  apply triple_ret. intros nd [[? Hc] Hcs]. split; [done|]. intros t [?|?]%elem_of_app; auto.
Qed.

Lemma emits_opt {A C} (f : A → B C) ts o :
  (∀ a, o = Some a → emits (f a) ts) → emits (opt_step f o) (λ oc, option_list oc ≫= ts).
Proof.
  intros Hf P HP. destruct o as [a|]; cbn.
  - eapply triple_bind; [by apply Hf|]. intros c. cbn. apply triple_ret. intros nd [? Hc]. split; [done|].
    intros t. cbn. rewrite app_nil_r. auto.
  - apply triple_ret. intros nd Hnd. split; [done|]. intros t Ht. by apply elem_of_nil in Ht.
Qed.

Ltac mono := repeat first [assumption | apply mono_and | apply all_covered_mono].

Lemma all_covered_bind {A} nd (l : list A) f : all_covered nd (l ≫= f) ↔ ∀ x, x ∈ l → all_covered nd (f x).
Proof.
  split.
  - intros Ha x Hx t Ht. apply Ha, list_elem_of_bind. eauto.
  - intros Ha t (x & Ht & Hx)%list_elem_of_bind. by apply (Ha x).
Qed.

Lemma all_covered_app nd l l' : all_covered nd (l ++ l') ↔ all_covered nd l ∧ all_covered nd l'.
Proof. unfold all_covered. setoid_rewrite elem_of_app. naive_solver. Qed.

Lemma all_covered_one nd t : all_covered nd [t] ↔ covered nd t.
Proof. unfold all_covered. setoid_rewrite list_elem_of_singleton. naive_solver. Qed.

Lemma all_covered_nil nd : all_covered nd [].
Proof. intros t Ht. by apply elem_of_nil in Ht. Qed.

(** A list of templates, made one by one. *)
Lemma all_covered_each nd (l : list Template) : all_covered nd (l ≫= λ t, [t]) ↔ all_covered nd l.
Proof. rewrite all_covered_bind. unfold all_covered at 2. by setoid_rewrite all_covered_one. Qed.

Lemma emits_absorbs ts :
  (∀ t, t ∈ ts → ∃ s, Template.compile s (vt_names tbl) = Ok t) → emits (map_step (absorb_step tbl) ts) (λ _, ts).
Proof.
  induction ts as [|t ts IH]; intros Hts P HP; cbn [map_step].
  { apply triple_ret. intros nd ?. split; [done|apply all_covered_nil]. }
  eapply triple_bind; [apply (emits_absorb t); [apply Hts; set_solver|mono]|]. intros u. cbn beta.
  eapply triple_bind; [apply IH; [set_solver|mono]|]. intros us. cbn beta.
  apply (triple_ret _ (u :: us) (λ _ nd, P nd ∧ all_covered nd (t :: ts))). intros nd [[? Ht] Hs]. split; [done|].
  intros t' [->|?]%elem_of_cons; [apply Ht; set_solver|by apply Hs].
Qed.

(** The end of a construction. *)
Lemma triple_done {A} (P Q : VarNeeds → Prop) (a : A) ts :
  (∀ nd, Q nd → P nd ∧ all_covered nd (ts a)) → triple Q (mret a) (λ a nd, P nd ∧ all_covered nd (ts a)).
Proof. intros Hq. by apply (triple_ret Q a (λ a nd, P nd ∧ all_covered nd (ts a))). Qed.

Lemma emits_static c :
  emits (build_static tbl c) (λ h, StaticFiles.h_try_files h ++ option_list (StaticFiles.h_fallback_redirect h)).
Proof.
  intros P HP. unfold build_static.
  eapply triple_bind; [apply (emits_map _ (λ t, [t])); [intros; apply emits_template|mono]|]. intros ts. cbn beta.
  eapply triple_bind; [apply (emits_opt _ (λ t, [t])); [intros; apply emits_template|mono]|]. intros fb. cbn beta.
  apply triple_done. intros nd. rewrite !all_covered_each, all_covered_app. tauto.
Qed.

Lemma emits_inners c us :
  is_Some (uri_parse "http://localhost") →
  emits (map_step (λ u, lift_panic (Proxy.new_inner h3_new (Lb.uc_url u) (ParseHandler.px_strip_prefix c)
          (ParseHandler.px_proxy_protocol c) (ParseHandler.px_scheme c))) us) (λ _, []).
Proof.
  intros [l Hl] P HP. eapply triple_weaken; [apply (emits_map _ (λ _, []))|]; [|done|].
  - intros u _ Q HQ nd Hnd. unfold lift_panic, Proxy.new_inner.
    destruct (strip_prefix "unix:" (Lb.uc_url u)); [rewrite Hl|]; cbn; (eexists; split; [reflexivity|]);
      intros a nd' E; [injection E as <- <-; split; [done|split; [done|apply all_covered_nil]]|].
    apply bind_Ok in E as (x & _ & [= <- <-]). split; [done|split; [done|apply all_covered_nil]].
  - intros a nd [? _]. split; [done|apply all_covered_nil].
Qed.

Lemma emits_proxy c : is_Some (uri_parse "http://localhost") → emits (build_proxy tbl c) handler_templates.
Proof.
  intros Hl P HP. unfold build_proxy.
  eapply triple_bind; [apply (emits_opt _ (λ t, [t])); [intros; apply emits_template|mono]|]. intros g. cbn beta.
  case_decide; [by apply triple_err|].
  eapply triple_bind; [apply emits_inners; [done|mono]|]. intros inners. cbn beta.
  apply triple_done. intros nd. rewrite all_covered_each. cbn. tauto.
Qed.

Lemma emits_body b : emits (build_body tbl b) (λ s, match s with Respond.SInline t => [t] | _ => [] end).
Proof.
  intros P HP. destruct b as [|s|p]; cbn [build_body]; try (apply triple_done; intros nd ?; split; [done|apply all_covered_nil]).
  eapply triple_bind; [apply emits_template; mono|]. intros t. cbn beta. by apply triple_done.
Qed.

Lemma emits_handler c : is_Some (uri_parse "http://localhost") → emits (build_handler tbl c) handler_templates.
Proof.
  intros Hl P HP. destruct c as [c|c|to code|status body ct|? ? ?|? ? ?|?| | |]; cbn [build_handler];
    try (apply triple_done; intros nd ?; split; [done|apply all_covered_nil]).
  - eapply triple_bind; [apply emits_static; mono|]. intros h. cbn beta. by apply triple_done.
  - by apply emits_proxy.
  - eapply triple_bind; [apply emits_template; mono|]. intros t. cbn beta. by apply triple_done.
  - eapply triple_bind; [apply (emits_body body); mono|]. intros b. cbn beta.
    destruct (Errors.valid_status status); [|by apply triple_err]. by apply triple_done.
Qed.

Lemma emits_op o : emits (op_from_config tbl o) op_templates.
Proof.
  intros P HP. destruct o as [n v|n v|n]; cbn [op_from_config];
    (eapply triple_bind; [apply emits_lift; mono|]; intros nm; cbn beta).
  - eapply triple_bind; [apply emits_template; mono|]. intros t. cbn beta. apply triple_done. intros nd ?. tauto.
  - eapply triple_bind; [apply emits_template; mono|]. intros t. cbn beta. apply triple_done. intros nd ?. tauto.
  - apply triple_done. intros nd ?. tauto.
Qed.

Lemma emits_rules req resp : emits (build_rules tbl req resp) (λ o, option_list o ≫= rules_templates).
Proof.
  intros P HP. unfold build_rules. case_decide; [apply triple_done; intros nd ?; split; [done|apply all_covered_nil]|].
  eapply triple_bind; [apply (emits_map _ op_templates); [intros; apply emits_op|mono]|]. intros r1. cbn beta.
  eapply triple_bind; [apply (emits_map _ op_templates); [intros; apply emits_op|mono]|]. intros r2. cbn beta.
  apply triple_done. intros nd. cbn. rewrite app_nil_r. unfold rules_templates. cbn. rewrite bind_app, all_covered_app. tauto.
Qed.

Lemma with_vars_compiled rules block t :
  Access.with_vars rules (vt_names tbl) = Ok block → t ∈ Access.redirect_templates block →
  ∃ s, Template.compile s (vt_names tbl) = Ok t.
Proof.
  intros (ts & Hts & [= <-])%bind_Ok. unfold Access.redirect_templates. cbn. rewrite list_elem_of_omap.
  intros (o & Ho & Et). cbn in Et. subst o. apply try_map_Ok in Hts.
  apply list_elem_of_lookup in Ho as [i Hi]. eapply Forall2_lookup_r in Hts as (r & _ & Hr); [|done].
  cbn in Hr. destruct (Access.rule_action r) as [| |to code]; [done|done|]. apply bind_Ok in Hr as (t' & Hc & [= ->]). eauto.
Qed.

Lemma emits_policy defs : emits (build_policy tbl defs) Access.redirect_templates.
Proof.
  intros P HP. unfold build_policy. eapply triple_bind; [apply emits_lift; mono|]. intros rules. cbn beta.
  intros nd Hnd. unfold mbind, B_bind, lift at 1.
  destruct (Access.with_vars rules (vt_names tbl)) as [block|e] eqn:Ew; cbn; [|eexists; split; [reflexivity|done]].
  revert nd Hnd. change (triple (λ nd, P nd ∧ all_covered nd [])
    (map_step (absorb_step tbl) (Access.redirect_templates block) ≫= λ _, mret block)
    (λ a nd, P nd ∧ all_covered nd (Access.redirect_templates a))).
  eapply triple_bind; [apply emits_absorbs; [intros t; by eapply with_vars_compiled|mono]|]. intros u. cbn beta.
  apply triple_done. intros nd ?. tauto.
Qed.

Lemma emits_cache c : emits (build_cache tbl c) (λ p, option_list (Policy.cp_key p)).
Proof.
  intros P HP nd Hnd. unfold build_cache, mbind, B_bind, lift at 1.
  destruct (Policy.compile_policy c (vt_names tbl)) as [p|e] eqn:Ec; cbn; [|eexists; split; [reflexivity|done]].
  revert nd Hnd. change (triple P (opt_step (absorb_step tbl) (Policy.cp_key p) ≫= λ _, mret p)
    (λ a nd, P nd ∧ all_covered nd (option_list (Policy.cp_key a)))).
  assert (∀ t, Policy.cp_key p = Some t → ∃ s, Template.compile s (vt_names tbl) = Ok t) as Hk.
  { intros t Et. unfold Policy.compile_policy, Policy.compile_key in Ec. destruct (Policy.cc_key c) as [k|].
    - apply bind_Ok in Ec as (key & (t' & Hc & [= <-])%bind_Ok & [= <-]). injection Et as ->. eauto.
    - injection Ec as <-. done. }
  destruct (Policy.cp_key p) as [t|] eqn:Et; cbn [opt_step].
  - eapply triple_bind.
    { eapply triple_bind; [apply (emits_absorb t); [by apply Hk|mono]|]. intros u. cbn beta.
      apply (triple_ret _ (Some u) (λ _ nd, P nd ∧ all_covered nd [t])). done. }
    intros o. cbn beta. apply triple_done. intros nd. by rewrite Et.
  - eapply triple_bind; [apply (triple_ret _ None (λ _ nd, P nd)); done|]. intros o. cbn beta.
    apply triple_done. intros nd ?. rewrite Et. split; [done|apply all_covered_nil].
Qed.

Lemma emits_log_fields : emits (build_log_fields tbl) (λ o, option_list o ≫= λ fs, fs.*2).
Proof.
  intros P HP. unfold build_log_fields. case_decide; [apply triple_done; intros nd ?; split; [done|apply all_covered_nil]|].
  eapply triple_bind; [apply (emits_map _ (λ f, [f.2])); [|mono]|].
  { intros f _ Q HQ. eapply triple_bind; [apply emits_template; mono|]. intros t. cbn beta. by apply triple_done. }
  intros fs. cbn beta. apply triple_done. intros nd. cbn. rewrite app_nil_r, all_covered_bind.
  intros [? Hf]. split; [done|]. intros t ([n t'] & -> & Hin)%list_elem_of_fmap. apply (Hf (n, t') Hin). set_solver.
Qed.

Lemma emits_opt_lift {A C} (f : A → Result C) o : emits (opt_step (λ a, lift (f a)) o) (λ _, []).
Proof.
  intros P HP. eapply triple_weaken; [apply (emits_opt _ (λ _, [])); [intros; apply emits_lift|done]|].
  intros a nd [? _]. split; [done|apply all_covered_nil].
Qed.

Lemma emits_parts l :
  is_Some (uri_parse "http://localhost") → emits (build_parts tbl l) (λ r, built_templates r.1.1).
Proof.
  intros Hl P HP. unfold build_parts.
  eapply triple_bind; [apply emits_handler; [done|mono]|]. intros h. cbn beta.
  eapply triple_bind; [apply emits_rules; mono|]. intros rules. cbn beta.
  eapply triple_bind; [apply (emits_opt _ Access.redirect_templates); [intros; apply emits_policy|mono]|].
  intros policy. cbn beta. eapply triple_bind; [apply emits_lift; mono|]. intros limits. cbn beta.
  eapply triple_bind; [apply emits_opt_lift; mono|]. intros matcher. cbn beta.
  eapply triple_bind; [apply emits_opt_lift; mono|]. intros rewrite'. cbn beta.
  eapply triple_bind; [apply (emits_opt _ (λ p, option_list (Policy.cp_key p))); [intros; apply emits_cache|mono]|].
  intros cache. cbn beta. eapply triple_bind; [apply emits_log_fields; mono|]. intros fields. cbn beta.
  apply triple_done. intros nd. unfold built_templates. cbn. rewrite !all_covered_app. tauto.
Qed.

End covered.

(** * Every location renders from what it asked for *)

(** The needs a request is served with, and the scope its templates are
    rendered in. *)
Definition payload_needs (p : Payload) : VarNeeds :=
  match p.2 with Some v => Dispatch.rv_needs v | None => needs_default end.

Definition payload_scope (p : Payload) : option VarTable :=
  v ← p.2; if n_uses_vars (Dispatch.rv_needs v) then Some (Dispatch.rv_table v) else None.

Definition payload_slots (p : Payload) : list (option string) :=
  match payload_scope p with Some t => new_slots t | None => [] end.

(** The requests [ctx] and [ctx'] render [t] to the same text. *)
Definition renders_alike (p : Payload) (ctx ctx' : Template.RequestContext) (t : Template) : Prop :=
  ∃ text sl sl', render (payload_scope p) ctx t (payload_slots p) = Some (text, sl) ∧
    render (payload_scope p) ctx' t (payload_slots p) = Some (text, sl').

(** A location that renders only what its needs announce. *)
Definition self_sufficient (p : Payload) : Prop :=
  ∀ t ctx ctx', t ∈ built_templates p.1 → agrees (payload_needs p) ctx ctx' → renders_alike p ctx ctx' t.

Lemma render_scopeless ctx t sl :
  (∀ id, ¬ Template.uses_var t id) →
  ∃ sl', render None ctx t sl = Some (Template.render_pure ctx None (λ _, "") t, sl').
Proof.
  intros Hn. destruct (Template.render_inner_empty (λ _, True) ctx None (get_var None ctx) (λ _, "") t sl)
    as (sl' & E & _); [intros id s Hu; by destruct (Hn id)|done|]. by exists sl'.
Qed.

Lemma needs_none nd : needs_any nd = false → nd = needs_default.
Proof.
  destruct nd as [p g h u]. unfold needs_any. cbn. rewrite !orb_false_iff, bool_decide_eq_false.
  intros [[[-> ->] ->] Hh]. destruct h; [done|]. by destruct Hh.
Qed.

Lemma covered_alike tbl nd t ctx ctx' :
  well_built tbl → covered tbl nd t → agrees nd ctx ctx' → ∀ sc sl, 
  (sc = Some tbl ∧ sl = new_slots tbl ∨ sc = None ∧ n_uses_vars nd = false) →
  ∃ text sl1 sl2, render sc ctx t sl = Some (text, sl1) ∧ render sc ctx' t sl = Some (text, sl2).
Proof.
  intros Hw [[s Hs] Hr Hv] Hag sc sl [[-> ->]|[-> Hu]].
  - destruct (render_built tbl ctx s None t (new_slots tbl) None Hw Hs (new_slots_consistent _ _)) as (s1 & E1 & _).
    destruct (render_built tbl ctx' s None t (new_slots tbl) None Hw Hs (new_slots_consistent _ _)) as (s2 & E2 & _).
    exists (Template.render_pure ctx None (env_of tbl ctx) t), s1, s2. split; [exact E1|].
    unfold render. rewrite E2. do 2 f_equal. symmetry. apply render_pure_ext. intros p Hp.
    apply part_text_agrees with nd t; [done..|]. intros id Hid.
    apply env_of_agrees with nd; [apply Hw|by eapply compile_in_range|by apply Hv|done].
  - assert (∀ id, ¬ Template.uses_var t id) as Hn by (intros id Hid; destruct (Hv id Hid); congruence).
    destruct (render_scopeless ctx t sl Hn) as [s1 E1]. destruct (render_scopeless ctx' t sl Hn) as [s2 E2].
    exists (Template.render_pure ctx None (λ _, "") t), s1, s2. split; [done|]. rewrite E2. do 2 f_equal. symmetry.
    apply render_pure_ext. intros p Hp. apply part_text_agrees with nd t; [done..|]. intros id Hid. by destruct (Hn id).
Qed.

Lemma build_location_sound tbl l :
  well_built tbl → is_Some (uri_parse "http://localhost") →
  ∃ r, build_location tbl l = Some r ∧ ∀ loc, r = Ok loc → self_sufficient (Router.loc_payload loc).
Proof.
  intros Hw Hl. destruct (emits_parts tbl Hw l Hl (λ _, True) (λ _ _ _ _, I) needs_default I) as (r & Er & Hr).
  unfold build_location. rewrite Er. cbn. eexists. split; [reflexivity|]. intros loc E.
  destruct r as [[[[b m] rw] nd]|e]; [|done]. injection E as <-. cbn.
  destruct (Hr _ _ eq_refl) as (_ & _ & Hc). cbn in Hc. intros t ctx ctx' Ht Hag. cbn in Ht.
  unfold renders_alike, payload_slots, payload_scope, payload_needs in *. cbn in *. destruct (needs_any nd) eqn:Ea; cbn in *.
  - apply covered_alike with tbl nd; [done|by apply Hc|done|]. destruct (n_uses_vars nd); [by left|by right].
  - apply needs_none in Ea as ->. apply covered_alike with tbl needs_default; [done|by apply Hc|done|by right].
Qed.

Lemma scope_table_sound outer own layers :
  well_built outer → ∃ r, scope_table outer own layers = Some r ∧ ∀ t, r = Ok t → well_built t.
Proof.
  intros Hw. unfold scope_table. case_decide; [|apply build_layered_correct].
  exists (Ok outer). split; [done|]. by intros t [= <-].
Qed.

Lemma build_locations_sound name sv vv tbl ls pools :
  well_built tbl → is_Some (uri_parse "http://localhost") →
  ∃ r, build_locations name sv vv tbl ls pools = Some r ∧
    ∀ locs ps, r = Ok (locs, ps) → Forall (λ loc, self_sufficient (Router.loc_payload loc)) locs.
Proof.
  intros Hw Hl. revert pools. induction ls as [|l ls IH]; intros pools; cbn.
  { eexists. split; [reflexivity|]. by intros ? ? [= <- _]. }
  destruct (scope_table_sound tbl (l_variables l) [sv; vv; l_variables l] Hw) as ([t|e] & -> & Ht); cbn;
    [|eexists; split; [reflexivity|done]].
  destruct (build_location_sound t l (Ht t eq_refl) Hl) as ([loc|e] & -> & Hloc); cbn; [|eexists; split; [reflexivity|done]].
  edestruct IH as (r & -> & Hr). cbn. eexists. split; [reflexivity|]. intros locs ps E.
  destruct r as [[locs' ps']|e]; [|done]. injection E as <- <-. constructor; [by apply Hloc|by eapply Hr].
Qed.

Lemma build_vhosts_sound sv tbl vs pools :
  well_built tbl → is_Some (uri_parse "http://localhost") →
  ∃ r, build_vhosts sv tbl vs pools = Some r ∧
    ∀ bs ps, r = Ok (bs, ps) → length bs = length vs ∧
      Forall (λ b, Forall (λ loc, self_sufficient (Router.loc_payload loc)) (Router.vh_locations b)) bs.
Proof.
  intros Hw Hl. revert pools. induction vs as [|v vs IH]; intros pools; cbn.
  { eexists. split; [reflexivity|]. by intros ? ? [= <- _]. }
  unfold build_vhost. destruct (scope_table_sound tbl (v_variables v) [sv; v_variables v] Hw) as ([t|e] & -> & Ht); cbn;
    [|eexists; split; [reflexivity|done]].
  destruct (build_locations_sound (Router.hn_value (v_name v)) sv (v_variables v) t (v_locations v) pools (Ht t eq_refl) Hl)
    as ([[locs ps]|e] & -> & Hlocs); cbn; [|eexists; split; [reflexivity|done]].
  edestruct IH as (r & -> & Hr). cbn. eexists. split; [reflexivity|]. intros bs ps' E.
  destruct r as [[bs' ps'']|e]; [|done]. injection E as <- <-. destruct (Hr _ _ eq_refl) as [Hlen Hall].
  split; [cbn; by rewrite Hlen|]. constructor; [by eapply Hlocs|done].
Qed.

End build.

(** * The router *)

Section router.
Context `{IpNets} `{Http} `{Regex} `{F64} `{Uris} `{!ConfigEnv} `{!Kdl.Kdl f64}.
Context (lb_metrics : Lb.LbMetrics) (h3_new : uri → bool) (sa_text : ProxyProto.SocketAddr → string).
Import Config ConfigOk.

Abbreviation VHost := (Router.VHost (payload := Payload)) (only parsing).
Abbreviation VhostTable := (Router.VhostTable (payload := Payload)) (only parsing).

(** [pools] is what the status page is given. *)
Record Router := {
  tables : gmap string VhostTable;
  named_policies : gmap string (list Access.PolicyRule);
  pools : list LbPoolEntry;
}.

Definition local_name (l : ListenerConfig) : string := Bind.to_url sa_text (bind l).

(** One table per listener that is no stream proxy. *)
Fixpoint build_tables (c : Config) (built : list VHost) (ls : list ListenerConfig) (ts : gmap string VhostTable)
    : option (gmap string VhostTable) :=
  match ls with
  | [] => Some ts
  | l :: ls' =>
      match proxy l with
      | Some _ => build_tables c built ls' ts
      | None =>
          t ← Router.build_table (to_router <$> c_vhosts c) built (handle_index (c_vhosts c)) (to_router_listener l);
          build_tables c built ls' (<[local_name l := t]> ts)
      end
  end.

Definition log_fields_of (c : Config) : list (string * string) :=
  match access_log (server c) with Some a => AccessLog.ac_fields a | None => [] end.

(** [Router::new]. *)
Definition router_new (c : Config) : option (Result Router) :=
  t ← build_layered [variables (server c)];
  match t with
  | Err e => Some (Err e)
  | Ok tbl =>
      n ← Router.resolve_names (policies (server c)) (map_to_list (policies (server c))).*1 ∅;
      match n with
      | Err e => Some (Err e)
      | Ok named =>
          r ← build_vhosts lb_metrics h3_new ParseConfig.method_from_bytes named (log_fields_of c)
                (variables (server c)) tbl (c_vhosts c) [];
          match r with
          | Err e => Some (Err e)
          | Ok (built, pools) =>
              ts ← build_tables c built (listeners c) ∅;
              Some (Ok {| tables := ts; named_policies := named; pools := pools |})
          end
      end
  end.

Definition table_vhosts (t : VhostTable) : list VHost :=
  (map_to_list (Router.literals t)).*2 ++ (Router.patterns t).*2 ++ option_list (Router.table_default t).

(** Whether a response store is needed at all. *)
Definition any_cache_enabled (rt : Router) : bool :=
  existsb (λ t, existsb (λ v,
    existsb (λ l, bool_decide (is_Some (b_cache_policy (Router.loc_payload l).1))) (Router.vh_locations v))
    (table_vhosts t)) (map_to_list (tables rt)).*2.

(** A table all of whose vhosts satisfy [P]. *)
Record table_all (P : VHost → Prop) (t : VhostTable) : Prop := {
  ta_literals h v : Router.literals t !! h = Some v → P v;
  ta_patterns re v : (re, v) ∈ Router.patterns t → P v;
  ta_default v : Router.table_default t = Some v → P v;
}.

Lemma add_names_all P (v : VHost) ns (t t' : VhostTable) :
  P v → table_all P t → Router.add_names v ns t = Some t' → table_all P t'.
Proof.
  intros Hv. revert t. induction ns as [|n ns IH]; intros t Ht; cbn; [by intros [= <-]|].
  unfold Router.add_name. destruct Ht as [Hl Hp Hd]. destruct (Router.hn_regex n).
  - destruct (regex_new _) as [re|]; [|done]. apply IH. split; cbn; [done| |done].
    intros re' w [?|[= -> ->]%list_elem_of_singleton]%elem_of_app; [by eapply Hp|done].
  - apply IH. split; cbn; [|done|done]. intros h w. rewrite lookup_insert_Some. intros [[_ <-]|[_ ?]]; [done|by eapply Hl].
Qed.

Lemma build_table_all P vs (built : list VHost) m l (t : VhostTable) :
  (∀ i v, built !! i = Some v → P v) → Router.build_table vs built m l = Some t → table_all P t.
Proof.
  intros Hb. unfold Router.build_table. destruct (Router.add_vhosts _ _ _ _) as [t0|] eqn:Ea; [|done].
  intros [= <-]. assert (table_all P t0) as [Hl Hp _].
  { assert (table_all P (Router.empty_table (payload := Payload))) as He
      by (split; cbn; [intros h v; by rewrite lookup_empty|intros re v Hin; by apply elem_of_nil in Hin|done]).
    revert Ea He. generalize (Router.empty_table (payload := Payload)).
    induction (Router.listener_indices vs m l) as [|i ixs IH]; intros t1; cbn; [by intros [= <-]|].
    destruct (vs !! i) as [vc|]; [|done]. cbn. destruct (built !! i) as [v|] eqn:Ei; [|done]. cbn.
    destruct (Router.add_name v t1 (Router.vc_name vc)) as [ta|] eqn:En; cbn; [|done].
    destruct (Router.add_names v (Router.vc_aliases vc) ta) as [tb|] eqn:En'; cbn; [|done].
    intros Hr He. apply (IH tb Hr). apply (add_names_all P v (Router.vc_name vc :: Router.vc_aliases vc) t1); [eauto|done|].
    cbn. by rewrite En. }
  split; cbn; [done|done|]. intros v. destruct (Router.lc_reject_unknown_host l); [done|].
  destruct (head _) as [i|]; [|done]. cbn. apply Hb.
Qed.

Lemma build_tables_all P c (built : list VHost) ls ts ts' :
  (∀ i v, built !! i = Some v → P v) → map_Forall (λ _, table_all P) ts →
  build_tables c built ls ts = Some ts' →
  map_Forall (λ _, table_all P) ts' ∧ dom ts ⊆ dom ts' ∧
  ∀ l, l ∈ ls → proxy l = None → is_Some (ts' !! local_name l).
Proof.
  intros Hb. revert ts. induction ls as [|l ls IH]; intros ts Hts; cbn.
  { intros [= <-]. split_and!; [done..|]. set_solver. }
  destruct (proxy l) as [p|] eqn:Ep.
  - intros E. destruct (IH ts Hts E) as (Ha & Hd & Hin). split_and!; [done..|].
    intros l' [->|?]%elem_of_cons ?; [congruence|by apply Hin].
  - destruct (Router.build_table _ _ _ _) as [t|] eqn:Et; cbn; [|done]. intros E.
    destruct (IH (<[local_name l := t]> ts)) as (Ha & Hd & Hin); [|done|].
    { apply map_Forall_insert_2; [|done]. by eapply build_table_all. }
    split_and!; [done|set_solver|].
    intros l' [->|?]%elem_of_cons ?; [|by apply Hin]. apply elem_of_dom. set_solver.
Qed.

Lemma build_tables_None c (built : list VHost) ls ts :
  build_tables c built ls ts = None →
  ∃ l, l ∈ ls ∧ proxy l = None ∧ Router.build_table (to_router <$> c_vhosts c) built
     (handle_index (c_vhosts c)) (to_router_listener l) = None.
Proof.
  revert ts. induction ls as [|l ls IH]; intros ts; cbn; [done|]. destruct (proxy l) as [p|] eqn:Ep.
  - intros (l' & ? & ?)%IH. exists l'. set_solver.
  - destruct (Router.build_table _ _ _ _) as [t|] eqn:Et; cbn; [|exists l; set_solver].
    intros (l' & ? & ?)%IH. exists l'. set_solver.
Qed.

(** A request is only ever routed to a vhost of some table. *)
Lemma resolve_in_tables P (ts : gmap string VhostTable) host name v :
  map_Forall (λ _, table_all P) ts → Router.resolve_vhost ts host name = Some v → P v.
Proof.
  intros Hts. unfold Router.resolve_vhost. destruct (Router.find_table ts name) as [t|] eqn:Ef; [|done]. cbn.
  assert (table_all P t) as [Hl Hp Hd].
  { unfold Router.find_table in Ef. destruct (ts !! name) as [t'|] eqn:E; [injection Ef as ->; by apply (Hts name)|].
    destruct (map_to_list ts) as [|[k t'] [|? ?]] eqn:Em; [done| |done]. injection Ef as ->.
    apply (Hts k). apply elem_of_map_to_list. rewrite Em. set_solver. }
  destruct host as [host|]; [|apply Hd]. destruct (Router.literals t !! host) eqn:E; [intros [= <-]; eauto|].
  destruct (Router.first_pattern (Router.patterns t) host) eqn:E1; [|apply Hd]. intros [= <-].
  revert E1 Hp. clear. induction (Router.patterns t) as [|[re w] ps IH]; cbn; [done|].
  intros E Hp. destruct (regex_is_match re host); [injection E as <-; apply (Hp re); set_solver|].
  apply IH; [done|]. intros re' v' ?. apply (Hp re'). set_solver.
Qed.

Context (parse_pq : string → option (string * option string))
  (from_parts : Matcher.Request → string * option string → bool).

Lemma routed_payload (Q : Payload → Prop) (ts : gmap string VhostTable) name req v req' loc :
  map_Forall (λ _, table_all (λ b, Forall (λ l, Q (Router.loc_payload l)) (Router.vh_locations b))) ts →
  Router.route parse_pq from_parts ts name req = Some (v, req', loc) → Q (Router.loc_payload loc).
Proof.
  intros Hts. unfold Router.route.
  destruct (Router.resolve_vhost ts _ name) as [w|] eqn:Er; cbn [mbind option_bind]; [|done].
  apply (resolve_in_tables _ _ _ _ _ Hts) in Er. rewrite Forall_forall in Er.
  destruct (Router.route_loop parse_pq from_parts Router.MAX_REWRITES w req) as [[r1 l1]|] eqn:El; cbn [mbind option_bind]; [|done]. intros [= <- <- <-].
  apply Router.route_loop_iff in El as (k & _ & _ & i & Hp & _).
  apply (Router.pick_location_Some parse_pq) in Hp as [Hp _]. apply Er. by eapply list_elem_of_lookup_2.
Qed.

(** A failure to have every pattern anchored is a pattern that is not. *)
Lemma not_all_anchored (vs : list VHostConfig) :
  ¬ (∀ v n, v ∈ vs → n ∈ names_of v → anchored n) → ∃ v n, v ∈ vs ∧ n ∈ names_of v ∧ ¬ anchored n.
Proof.
  intros Hn. destruct (decide (Exists (λ v, Exists (λ n, ¬ anchored n) (names_of v)) vs)) as [He|He].
  - apply Exists_exists in He as (v & Hv & (n & Hin & Ha)%Exists_exists). by exists v, n.
  - destruct Hn. intros v n Hv Hin. apply (dec_stable). intros Ha. apply He, Exists_exists. exists v.
    split; [done|]. apply Exists_exists. by exists n.
Qed.

(** C31: the router of a loaded configuration is built, or an error message
    says why not; it panics only when a host pattern of the configuration,
    which compiled on its own when it was read, does not compile anchored.  A
    router that is built has a table for every HTTP listener, and wherever it
    sends a request, the location renders each of its templates (those of the
    handler, the header rules, the redirects of the policy, the cache key and
    the log fields) from the parts of the request its needs announce: two
    requests that agree on those, whatever their user, country or other
    headers, give the same text. *)
Theorem router_built kdl text config c :
  parse_named kdl text config = Some (Ok c) → is_Some (uri_parse "http://localhost") →
  (router_new c = None → ∃ v n, v ∈ c_vhosts c ∧ n ∈ names_of v ∧ ¬ anchored n) ∧
  ∀ rt, router_new c = Some (Ok rt) →
    (∀ l, l ∈ listeners c → proxy l = None → is_Some (tables rt !! local_name l)) ∧
    ∀ name req v req' loc, Router.route parse_pq from_parts (tables rt) name req = Some (v, req', loc) →
      self_sufficient (Router.loc_payload loc).
Proof.
  intros Hc Hl. unfold router_new.
  destruct (build_layered_correct [variables (server c)]) as ([tbl|e] & -> & Ht); cbn; [|done].
  destruct (Router.resolve_names_ok (policies (server c)) (map_to_list (policies (server c))).*1 ∅) as (n & -> & _);
    [apply map_Forall_empty|]. cbn. destruct n as [named|e]; [|done].
  destruct (build_vhosts_sound lb_metrics h3_new ParseConfig.method_from_bytes named (log_fields_of c)
    (variables (server c)) tbl (c_vhosts c) [] (Ht tbl eq_refl) Hl) as ([[built ps]|e] & -> & Hb); cbn; [|done].
  destruct (Hb built ps eq_refl) as [Hlen Hall]. rewrite Forall_lookup in Hall.
  destruct (build_tables c built (listeners c) ∅) as [ts|] eqn:Ets; cbn; (split; [|intros rt [= <-]]).
  - done.
  - destruct (build_tables_all (λ b, Forall (λ loc, self_sufficient (Router.loc_payload loc)) (Router.vh_locations b))
      c built (listeners c) ∅ ts Hall (map_Forall_empty _) Ets) as (Hts & _ & Hin).
    split; [done|]. intros name req v req' loc. by apply routed_payload.
  - intros _. apply build_tables_None in Ets as (l & Hin & Hp & E).
    apply not_all_anchored. intros Ha.
    destruct (loaded_routes kdl text config c l built Hc Hin Hp Hlen Ha) as (vs & t & _ & _ & _ & E' & _). congruence.
Qed.

End router.

(** * A router *)

Module Demo.
Import Kdl.Kdl ConfigOk.Demo.

#[local] Existing Instances Access.host_nets RateLimit.exact_f64 ConfigOk.Demo.demo_env.

(** Every text is a URI. *)
#[local] Instance text_uris : Uris := {
  uri := string; uri_parse := Some; uri_scheme _ := Some "http"; uri_authority := Some; uri_host := Some;
  uri_port_u16 _ := None; uri_path _ := "/"; uri_query _ := None; uri_build _ a _ := Some a;
}.

Definition no_picks : Lb.LbMetrics :=
  {| Lb.lb_picks := 0; Lb.lb_no_upstream := 0; Lb.lb_ejections := 0; Lb.lb_health_checks := 0;
     Lb.lb_health_recoveries := 0; Lb.lb_health_failures := 0 |}.

(** A host that greets the user of each request by name. *)
Definition greeting : list (Kdl.KdlNode Qc) :=
  [leaf "listener" [a "tcp://80"];
   block "vhost" [a "a.example"]
     [block "location" [a "/"] [leaf "respond" [kv "body" "hello {username}"]];
      block "location" [a "/api"] [block "proxy" [] [leaf "upstream" [a "http://backend"]]]]].

Definition text_kdl (_ : string) : option (list (Kdl.KdlNode (@f64 RateLimit.exact_f64))) := Some greeting.

Definition result : option (Result Config.Config) := Config.parse_named text_kdl "" "/etc/hs.kdl".
Definition loaded : Config.Config := match result with Some (Ok c) => c | _ => Config.config_default end.

Lemma greeting_loads : Config.parse_named text_kdl "" "/etc/hs.kdl" = Some (Ok loaded).
Proof.
  change (result = Some (Ok loaded)). assert (is_loaded result = true) as E by (vm_compute; reflexivity).
  unfold loaded. by destruct result as [[c|]|].
Qed.

Definition made : option (Result Router) := router_new no_picks (λ _, true) (λ _, "[::]:80") loaded.

(** The needs of its locations, and the pools the status page lists. *)
Example needs_of_greeting :
  match made with
  | Some (Ok rt) =>
      (λ l, n_principal (payload_needs (Router.loc_payload l))) <$>
        match Router.resolve_vhost (tables rt) None "tcp://[::]:80" with Some v => Router.vh_locations v | None => [] end
      = [true; false] ∧ label <$> pools rt = ["a.example /api"]
  | _ => False
  end.
Proof. vm_compute. done. Qed.

Lemma router_built_witness :
  match router_new no_picks (λ _, true) (λ _, "[::]:80") loaded with
  | Some (Ok rt) => ∀ l, l ∈ Config.listeners loaded → ParseConfig.proxy l = None → is_Some (tables rt !! local_name (λ _, "[::]:80") l)
  | _ => False
  end.
Proof.
  destruct (router_built no_picks (λ _, true) (λ _, "[::]:80") (λ _, None) (λ _ _, true) text_kdl "" "/etc/hs.kdl" loaded)
    as [_ Hrt]; [apply greeting_loads|by eexists|].
  destruct (router_new _ _ _ loaded) as [[rt|e]|] eqn:E; [by apply (Hrt rt)|..];
    apply (f_equal (λ o, match o with Some (Ok _) => true | _ => false end)) in E; vm_compute in E; discriminate.
Defined.

End Demo.

End Build.
