(* ===== verification/Reload.v ===== *)
(** Reloading a configuration ([src/reload.rs], [src/reload/builders.rs],
    [src/task.rs], the certificate registry of [src/bootstrap.rs]): what a
    SIGHUP changes of a running server and what it leaves alone.

    The server is one record of its shared cells; tasks are numbered, and so
    are the channels that stop accept loops.  What the file system, the
    kernel, the certificate authority and the TLS library answer is the [Env]
    of a step. *)
From S2P Require Import Prelude RustStr Net Http Errors Template Vars Auth Access Metrics LoadBalancer RateLimit Matcher Router.
From S2P Require Import ProxyProto Listeners Health AccessLog Datagram ProxyRequest Kdl ParseTls ParseAuth ParseHandler ParseConfig Config ConfigOk Build.

Module Reload.
Import ParseConfig Config.

Section reload.
Context `{IpNets} `{Http} `{Regex} `{F64} `{Uris} `{!ConfigEnv} `{!Kdl.Kdl f64}.
(** The KDL grammar, the counters and clients of fresh pools, the text of an
    address; the [Debug] text of configuration values. *)
Context (kdl : string → option (list (Kdl.KdlNode f64))) (lb_metrics : Lb.LbMetrics) (h3_new : uri → bool)
  (sa_text : ProxyProto.SocketAddr → string) (debug_auth : option ParseAuth.AuthBackend → string)
  (debug_source : ParseTls.TlsConfig → string).
(** Certificates being served; an open GeoIP database; what is carried from
    one state to the next: authenticator, sessions, OpenID Connect provider,
    ACME challenges and cached responses. *)
Context {CertSource Reader Carried : Type}.

Definition key (l : ListenerConfig) : string := Build.local_name sa_text l.

(** * Tasks *)

(** What a background task does; [Starts] prepares an added listener, with
    the policies of a router, and then becomes its accept loop, stopped by a
    channel. *)
Inductive Job :=
  | Renewal
  | CertWatcher
  | CrlWatcher
  | OcspRefresh
  | Starts (l : ListenerConfig) (rt : Build.Router)
  | Accepts (l : ListenerConfig) (chan : nat).

(** A supervisor waits on the join handle of the task it spawned. *)
Inductive Task :=
  | Work (j : Job)
  | Supervisor (inner : nat).

Record Tasks := {
  next : nat;
  live : gmap nat Task;
}.

Definition spawn (t : Task) (ts : Tasks) : nat * Tasks :=
  (next ts, {| next := S (next ts); live := <[next ts := t]> (live ts) |}).

(** The handle is that of the supervisor. *)
Definition spawn_supervised (j : Job) (ts : Tasks) : nat * Tasks :=
  let '(inner, ts) := spawn (Work j) ts in spawn (Supervisor inner) ts.

(** [JoinHandle::abort]: the task is dropped with all it owns.  A join handle
    among that detaches its task, which runs on. *)
Definition abort (h : nat) (ts : Tasks) : Tasks := {| next := next ts; live := delete h (live ts) |}.
Definition abort_all (hs : list nat) (ts : Tasks) : Tasks := foldl (λ ts h, abort h ts) ts hs.

(** * The running server *)

Record App := {
  router : Build.Router;
  app_geoip : option Reader;
  app_health : Health.HealthState;
  app_error_pages : Errors.ErrorPages;
  app_access_log : AccessLog.AccessLogger;
  carried : Carried;
}.

(** [ReloadState] and [ListenerSpawnDeps].  [swept] is the router whose rate
    limiters the eviction task sweeps; [signalled] are the channels on which
    a stop was sent. *)
Record Server := {
  current_listeners : list ListenerConfig;
  auth_fingerprint : string;
  app : App;
  swept : Build.Router;
  cert_registry : gmap string CertSource;
  cert_source_fingerprints : gmap string string;
  vhost_alpn_overrides : list (string * list string);
  stop_accept_txs : gmap string nat;
  signalled : gset nat;
  next_chan : nat;
  listener_helpers : gmap string (list nat);
  cert_helpers : gmap string (list nat);
  tasks : Tasks;
}.

(** What was fixed at startup. *)
Record Boot := {
  config_path : string;
  boot_state_dir : option string;
}.

(** The answers of the world to one step. *)
Record Env := {
  read_file : string → option string;
  geoip_open : string → Result Reader;
  log_open : string → bool;
  bind_socket : ListenerConfig → bool;
  acme_issued : ParseTls.AcmeConfig → bool;
  cert_load : ParseTls.TlsConfig → Result CertSource;
  fallback : Result CertSource;
  verifier : ParseTls.MtlsConfig → bool;
  alpn_map : CertSource → bool;
}.

Inductive ReloadOutcome :=
  | Applied
  | RejectedUnsupportedChange (what : string)
  | ParseError (msg : string).

Inductive Ended :=
  | Returned (o : ReloadOutcome)
  | Panicked.

(** ** Updates of one cell *)

Definition set_tasks (ts : Tasks) (s : Server) : Server :=
  {| current_listeners := current_listeners s; auth_fingerprint := auth_fingerprint s; app := app s; swept := swept s;
     cert_registry := cert_registry s; cert_source_fingerprints := cert_source_fingerprints s;
     vhost_alpn_overrides := vhost_alpn_overrides s; stop_accept_txs := stop_accept_txs s; signalled := signalled s;
     next_chan := next_chan s; listener_helpers := listener_helpers s; cert_helpers := cert_helpers s; tasks := ts |}.

Definition set_certs (reg : gmap string CertSource) (fps : gmap string string) (s : Server) : Server :=
  {| current_listeners := current_listeners s; auth_fingerprint := auth_fingerprint s; app := app s; swept := swept s;
     cert_registry := reg; cert_source_fingerprints := fps;
     vhost_alpn_overrides := vhost_alpn_overrides s; stop_accept_txs := stop_accept_txs s; signalled := signalled s;
     next_chan := next_chan s; listener_helpers := listener_helpers s; cert_helpers := cert_helpers s; tasks := tasks s |}.

Definition set_cert_helpers (hs : gmap string (list nat)) (ts : Tasks) (s : Server) : Server :=
  {| current_listeners := current_listeners s; auth_fingerprint := auth_fingerprint s; app := app s; swept := swept s;
     cert_registry := cert_registry s; cert_source_fingerprints := cert_source_fingerprints s;
     vhost_alpn_overrides := vhost_alpn_overrides s; stop_accept_txs := stop_accept_txs s; signalled := signalled s;
     next_chan := next_chan s; listener_helpers := listener_helpers s; cert_helpers := hs; tasks := ts |}.

Definition set_swept (r : Build.Router) (s : Server) : Server :=
  {| current_listeners := current_listeners s; auth_fingerprint := auth_fingerprint s; app := app s; swept := r;
     cert_registry := cert_registry s; cert_source_fingerprints := cert_source_fingerprints s;
     vhost_alpn_overrides := vhost_alpn_overrides s; stop_accept_txs := stop_accept_txs s; signalled := signalled s;
     next_chan := next_chan s; listener_helpers := listener_helpers s; cert_helpers := cert_helpers s; tasks := tasks s |}.

Definition set_app (a : App) (s : Server) : Server :=
  {| current_listeners := current_listeners s; auth_fingerprint := auth_fingerprint s; app := a; swept := swept s;
     cert_registry := cert_registry s; cert_source_fingerprints := cert_source_fingerprints s;
     vhost_alpn_overrides := vhost_alpn_overrides s; stop_accept_txs := stop_accept_txs s; signalled := signalled s;
     next_chan := next_chan s; listener_helpers := listener_helpers s; cert_helpers := cert_helpers s; tasks := tasks s |}.

Definition set_stops (txs : gmap string nat) (sig : gset nat) (hs : gmap string (list nat)) (ts : Tasks) (s : Server)
    : Server :=
  {| current_listeners := current_listeners s; auth_fingerprint := auth_fingerprint s; app := app s; swept := swept s;
     cert_registry := cert_registry s; cert_source_fingerprints := cert_source_fingerprints s;
     vhost_alpn_overrides := vhost_alpn_overrides s; stop_accept_txs := txs; signalled := sig;
     next_chan := next_chan s; listener_helpers := hs; cert_helpers := cert_helpers s; tasks := ts |}.

Definition set_overrides (o : list (string * list string)) (s : Server) : Server :=
  {| current_listeners := current_listeners s; auth_fingerprint := auth_fingerprint s; app := app s; swept := swept s;
     cert_registry := cert_registry s; cert_source_fingerprints := cert_source_fingerprints s;
     vhost_alpn_overrides := o; stop_accept_txs := stop_accept_txs s; signalled := signalled s;
     next_chan := next_chan s; listener_helpers := listener_helpers s; cert_helpers := cert_helpers s; tasks := tasks s |}.

Definition set_listeners (ls : list ListenerConfig) (s : Server) : Server :=
  {| current_listeners := ls; auth_fingerprint := auth_fingerprint s; app := app s; swept := swept s;
     cert_registry := cert_registry s; cert_source_fingerprints := cert_source_fingerprints s;
     vhost_alpn_overrides := vhost_alpn_overrides s; stop_accept_txs := stop_accept_txs s; signalled := signalled s;
     next_chan := next_chan s; listener_helpers := listener_helpers s; cert_helpers := cert_helpers s; tasks := tasks s |}.

(** * Certificates *)

(** [build_cert_source_from_source]: [None] is a panic.  A renewal task is
    spawned for an ACME certificate, issued or replaced by a self-signed one
    for the time being. *)
Definition build_cert_source_from_source (boot : Boot) (env : Env) (cert : ParseTls.TlsConfig) (ts : Tasks)
    : option (Result (CertSource * option nat)) * Tasks :=
  match cert with
  | ParseTls.Acme a =>
      match boot_state_dir boot with
      | None => (None, ts)
      | Some _ =>
          match (if acme_issued env a then cert_load env cert else fallback env) with
          | Err e => (Some (Err e), ts)
          | Ok src => let '(h, ts) := spawn_supervised Renewal ts in (Some (Ok (src, Some h)), ts)
          end
      end
  | ParseTls.Files _ _ | ParseTls.SelfSigned => (Some (src ← cert_load env cert; Ok (src, None)), ts)
  | ParseTls.Ref _ => (None, ts)
  end.

(** [build_cert_source]: a listener's certificate, shared if it is named. *)
Definition build_cert_source (boot : Boot) (env : Env) (registry : gmap string CertSource)
    (t : ParseTls.TlsListenerConfig) (ts : Tasks) : option (Result (CertSource * option nat)) * Tasks :=
  match ParseTls.cert t with
  | ParseTls.Ref name => (Some (src ← ok_or (registry !! name) "unknown certificate"; Ok (src, None)), ts)
  | cert => build_cert_source_from_source boot env cert ts
  end.

(** The entry a definition keeps: same name, same source. *)
Definition carried_source (existing : gmap string CertSource) (sources : gmap string string)
    (d : ParseTls.CertificateDef) : option CertSource :=
  fp ← sources !! ParseTls.cd_name d;
  if String.eqb fp (debug_source (ParseTls.cd_source d)) then existing !! ParseTls.cd_name d else None.

Fixpoint build_cert_registry (boot : Boot) (env : Env) (existing : gmap string CertSource)
    (sources : gmap string string) (defs : list ParseTls.CertificateDef) (registry : gmap string CertSource)
    (handles : gmap string nat) (ts : Tasks)
    : option (Result (gmap string CertSource * gmap string nat)) * Tasks :=
  match defs with
  | [] => (Some (Ok (registry, handles)), ts)
  | d :: defs' =>
      let name := ParseTls.cd_name d in
      match carried_source existing sources d with
      | Some src => build_cert_registry boot env existing sources defs' (<[name := src]> registry) handles ts
      | None =>
          match build_cert_source_from_source boot env (ParseTls.cd_source d) ts with
          | (None, ts) => (None, ts)
          | (Some (Err e), ts) => (Some (Err e), ts)
          | (Some (Ok (src, h)), ts) =>
              build_cert_registry boot env existing sources defs' (<[name := src]> registry)
                (match h with Some h => <[name := h]> handles | None => handles end) ts
          end
      end
  end.

(** A new renewal replaces the one kept under the name. *)
Definition merge_handle (s : Server) (nh : string * nat) : Server :=
  set_cert_helpers (<[nh.1 := [nh.2]]> (cert_helpers s))
    (abort_all (default [] (cert_helpers s !! nh.1)) (tasks s)) s.

Definition fingerprints_of (c : Config) : gmap string string :=
  foldl (λ m d, <[ParseTls.cd_name d := debug_source (ParseTls.cd_source d)]> m) ∅ (certificates c).

(** * A reload *)

(** The steps of a reload stop early with an outcome. *)
Definition R (A : Type) : Type := Server → (A + Ended) * Server.

#[local] Instance R_ret : MRet R := λ _ a s, (inl a, s).
#[local] Instance R_bind : MBind R := λ _ _ f m s,
  match m s with
  | (inl a, s) => f a s
  | (inr e, s) => (inr e, s)
  end.

Definition stop {A} (e : Ended) : R A := λ s, (inr e, s).
Definition update (f : Server → Server) : R unit := λ s, (inl tt, f s).

(** A step that returns a message on failure, [None] being a panic. *)
Definition attempt {A} (r : option (Result A)) : R A :=
  match r with
  | Some (Ok a) => mret a
  | Some (Err e) => stop (Returned (ParseError e))
  | None => stop Panicked
  end.

(** [Config::load]. *)
Definition load (env : Env) (path : string) : option (Result Config) :=
  match read_file env path with
  | None => Some (Err "reading the configuration")
  | Some text => parse_named kdl text path
  end.

Definition check_auth (c : Config) : R unit := λ s,
  if String.eqb (debug_auth (auth (server c))) (auth_fingerprint s) then (inl tt, s)
  else (inr (Returned (RejectedUnsupportedChange "auth backend changed")), s).

Definition rebuild_certs (boot : Boot) (env : Env) (c : Config) : R unit := λ s,
  match build_cert_registry boot env (cert_registry s) (cert_source_fingerprints s) (certificates c) ∅ ∅ (tasks s) with
  | (None, ts) => (inr Panicked, set_tasks ts s)
  | (Some (Err e), ts) => (inr (Returned (ParseError e)), set_tasks ts s)
  | (Some (Ok (registry, handles)), ts) =>
      (inl tt, set_certs registry (fingerprints_of c) (foldl merge_handle (set_tasks ts s) (map_to_list handles)))
  end.

Definition open_geoip (env : Env) (c : Config) : Result (option Reader) :=
  match geoip (server c) with
  | Some db => r ← geoip_open env db; Ok (Some r)
  | None => Ok None
  end.

Definition error_page_of (d : ErrorPageDef) : Errors.ErrorPageEntry :=
  match d with PFile p => Errors.PageFile p | PInline h => Errors.PageInline h end.

Definition error_pages_of (c : Config) : Errors.ErrorPages :=
  foldl (λ m e, <[e.1 := error_page_of e.2]> m) ∅ (error_pages (server c)).

Definition to_health (l : ListenerConfig) : Health.ListenerConfig :=
  {| Health.lc_is_proxy := bool_decide (is_Some (proxy l)); Health.lc_health := health l;
     Health.lc_local_name := key l |}.

Definition new_app (c : Config) (rt : Build.Router) (gp : option Reader) (log : AccessLog.AccessLogger)
    (old : App) : App :=
  {| router := rt; app_geoip := gp; app_health := Health.from_config (s_health (server c)) (to_health <$> listeners c);
     app_error_pages := error_pages_of c; app_access_log := log; carried := carried old |}.

(** The sockets of the added listeners, bound in order; the first failure
    releases them all. *)
Definition stage_binds (env : Env) (added : list ListenerConfig) : Result (list ListenerConfig) :=
  if forallb (bind_socket env) added then Ok added else Err "bind".

(** A removed listener is told to stop and its helpers are aborted. *)
Definition remove_listener (s : Server) (l : ListenerConfig) : Server :=
  set_stops (delete (key l) (stop_accept_txs s))
    (match stop_accept_txs s !! key l with Some ch => {[ch]} ∪ signalled s | None => signalled s end)
    (delete (key l) (listener_helpers s))
    (abort_all (default [] (listener_helpers s !! key l)) (tasks s)) s.

(** The renewals of certificates that are gone are aborted. *)
Definition remove_cert (s : Server) (name : string) : Server :=
  set_cert_helpers (delete name (cert_helpers s)) (abort_all (default [] (cert_helpers s !! name)) (tasks s)) s.

Definition removed_certs (old : gmap string string) (c : Config) : list string :=
  List.filter (λ n, negb (bool_decide (n ∈ ParseTls.cd_name <$> certificates c))) (map_to_list old).*1.

Definition alpn_overrides (c : Config) : list (string * list string) :=
  omap (λ v, if Router.hn_regex (v_name v) then None else (λ a, (Router.hn_value (v_name v), a)) <$> v_alpn v)
    (c_vhosts c)
  ++ (c_vhosts c ≫= λ v,
        omap (λ a, if Router.hn_regex a then None else (λ p, (Router.hn_value a, p)) <$> v_alpn v) (v_aliases v)).

Definition start_added (rt : Build.Router) (s : Server) (l : ListenerConfig) : Server :=
  set_tasks (spawn_supervised (Starts l rt) (tasks s)).2 s.

(** All that can fail comes first. *)
Record Prepared := {
  p_config : Config;
  p_router : Build.Router;
  p_geoip : option Reader;
  p_log : AccessLog.AccessLogger;
  p_added : list ListenerConfig;
  p_removed : list ListenerConfig;
  p_old_certs : gmap string string;
}.

Definition prepare (boot : Boot) (env : Env) : R Prepared :=
  c ← attempt (load env (config_path boot));
  old ← (λ s, (inl s, s));
  let diff := Diff.diff_listeners key (current_listeners old) (listeners c) in
  _ ← check_auth c;
  _ ← rebuild_certs boot env c;
  rt ← attempt (Build.router_new lb_metrics h3_new sa_text c);
  gp ← attempt (Some (open_geoip env c));
  log ← attempt (Some (AccessLog.build_access_log (log_open env) (access_log (server c))));
  _ ← update (set_swept rt);
  added ← attempt (Some (stage_binds env (Diff.added diff)));
  mret {| p_config := c; p_router := rt; p_geoip := gp; p_log := log; p_added := added;
          p_removed := Diff.removed diff; p_old_certs := cert_source_fingerprints old |}.

(** From the swap of the state on nothing fails. *)
Definition commit (p : Prepared) (s : Server) : Server :=
  let c := p_config p in
  let s := set_app (new_app c (p_router p) (p_geoip p) (p_log p) (app s)) s in
  let s := foldl remove_listener s (p_removed p) in
  let s := foldl remove_cert s (removed_certs (p_old_certs p) c) in
  let s := set_overrides (alpn_overrides c) s in
  let s := foldl (start_added (p_router p)) s (p_added p) in
  set_listeners (listeners c) s.

Definition reload (boot : Boot) (env : Env) (s : Server) : Ended * Server :=
  match prepare boot env s with
  | (inl p, s) => (Returned Applied, commit p s)
  | (inr e, s) => (e, s)
  end.

(** * Starting an added listener *)

(** The channel that will stop a listener, registered under its address. *)
Definition register (l : ListenerConfig) : R nat := λ s,
  let ch := next_chan s in
  (inl ch,
   {| current_listeners := current_listeners s; auth_fingerprint := auth_fingerprint s; app := app s; swept := swept s;
      cert_registry := cert_registry s; cert_source_fingerprints := cert_source_fingerprints s;
      vhost_alpn_overrides := vhost_alpn_overrides s; stop_accept_txs := <[key l := ch]> (stop_accept_txs s);
      signalled := signalled s; next_chan := S ch; listener_helpers := listener_helpers s;
      cert_helpers := cert_helpers s; tasks := tasks s |}).

Definition obtain_cert (boot : Boot) (env : Env) (t : ParseTls.TlsListenerConfig) : R (CertSource * option nat) := λ s,
  let '(r, ts) := build_cert_source boot env (cert_registry s) t (tasks s) in attempt r (set_tasks ts s).

Definition spawn_helper (j : Job) : R nat := λ s,
  let '(h, ts) := spawn_supervised j (tasks s) in (inl h, set_tasks ts s).

Definition set_listener_helpers (m : gmap string (list nat)) (s : Server) : Server :=
  set_stops (stop_accept_txs s) (signalled s) m (tasks s) s.

Definition check_verifier (env : Env) (t : ParseTls.TlsListenerConfig) : R unit :=
  attempt (Some (match ParseTls.mtls t with
                 | Some m => if verifier env m then Ok tt else Err "building mTLS client verifier"
                 | None => Ok tt
                 end)).

(** The CRLs are watched if there are any and they are to be refreshed. *)
Definition watches_crls (t : ParseTls.TlsListenerConfig) : bool :=
  match ParseTls.mtls t with
  | Some m => (0 <? ParseTls.crl_refresh_secs m) && negb (bool_decide (length (ParseTls.crls m) = 0%nat))
  | None => false
  end.

Definition spawn_if (b : bool) (j : Job) : R (list nat) := if b then h ← spawn_helper j; mret [h] else mret [].

Definition build_plain_listener (l : ListenerConfig) : R nat := register l.

Definition build_tls_listener (boot : Boot) (env : Env) (l : ListenerConfig) (t : ParseTls.TlsListenerConfig) : R nat :=
  '(src, acme) ← obtain_cert boot env t;
  _ ← check_verifier env t;
  _ ← attempt (Some (if alpn_map env src then Ok tt else Err "vhost ALPN map"));
  watcher ← spawn_helper CertWatcher;
  crl ← spawn_if (watches_crls t) CrlWatcher;
  staple ← spawn_if (ParseTls.ocsp_enabled (ParseTls.ocsp t)) OcspRefresh;
  _ ← update (λ s, set_listener_helpers
                     (<[key l := option_list acme ++ [watcher] ++ crl ++ staple]> (listener_helpers s)) s);
  register l.

(** [entry(..).or_default().push(h)]. *)
Definition push_helper (l : ListenerConfig) (h : option nat) : R unit :=
  update (λ s, match h with
               | Some h => set_listener_helpers
                   (<[key l := default [] (listener_helpers s !! key l) ++ [h]]> (listener_helpers s)) s
               | None => s
               end).

Definition build_quic_listener (boot : Boot) (env : Env) (l : ListenerConfig) (t : ParseTls.TlsListenerConfig) : R nat :=
  '(_, acme) ← obtain_cert boot env t;
  _ ← check_verifier env t;
  _ ← push_helper l acme;
  register l.

Definition build_stream_listener (boot : Boot) (env : Env) (rt : Build.Router) (l : ListenerConfig) (p : ProxyConfig)
    : R nat :=
  acme ← match tls l with
         | Some t => '(_, acme) ← obtain_cert boot env t; mret acme
         | None => mret None
         end;
  _ ← push_helper l acme;
  _ ← attempt (Some (match p_policy p with
                     | Some defs => b ← Router.resolve_block (Build.named_policies rt) defs true; Ok (Some b)
                     | None => Ok None
                     end));
  register l.

Definition build_dgram_proxy (l : ListenerConfig) : R nat := register l.

(** The layers of the listener choose the builder; other combinations are
    unreachable. *)
Definition build_listener (boot : Boot) (env : Env) (rt : Build.Router) (l : ListenerConfig) : R nat :=
  match Bind.is_byte_stream (Bind.kind (bind l)), tls l, proxy l with
  | true, _, Some p => build_stream_listener boot env rt l p
  | true, Some t, None => build_tls_listener boot env l t
  | true, None, None => build_plain_listener l
  | false, Some t, None => build_quic_listener boot env l t
  | false, None, Some _ => build_dgram_proxy l
  | false, _, _ => stop Panicked
  end.

Definition with_task (id : nat) (t : option Task) (s : Server) : Server :=
  set_tasks {| next := next (tasks s); live := partial_alter (λ _, t) id (live (tasks s)) |} s.

(** A task spawned by a reload comes to its turn. *)
Definition start_listener (boot : Boot) (env : Env) (id : nat) (s : Server) : Server :=
  match live (tasks s) !! id with
  | Some (Work (Starts l rt)) =>
      match build_listener boot env rt l s with
      | (inl ch, s) => with_task id (Some (Work (Accepts l ch))) s
      | (inr _, s) => with_task id None s
      end
  | _ => s
  end.

(** * Handing over to a new binary *)

(** [perform_upgrade] in the parent: how the wait for the ready byte of the
    child ended. *)
Inductive Ready := ReportsReady | ClosesPipe | TimesOut.

(** Every listener is stopped once the child is ready; otherwise the child is
    killed and the parent serves on. *)
Definition perform_upgrade (r : Ready) (s : Server) : Result unit * Server :=
  match r with
  | ReportsReady =>
      (Ok tt, set_stops (stop_accept_txs s) (list_to_set (map_to_list (stop_accept_txs s)).*2 ∪ signalled s)
                (listener_helpers s) (tasks s) s)
  | ClosesPipe => (Err "child closed ready pipe before signalling", s)
  | TimesOut => (Err "child did not signal ready", s)
  end.

(** * Runs *)

(** No added listener is still being prepared. *)
Definition started (s : Server) : Prop := ∀ id l rt, live (tasks s) !! id ≠ Some (Work (Starts l rt)).

(** The server at work: signals, the turns of spawned tasks, and the ends of
    accept loops that were told to stop. *)
Inductive step (boot : Boot) : Server → Server → Prop :=
  | Sighup env s : started s → step boot s (reload boot env s).2
  | Sigusr2 r s : step boot s (perform_upgrade r s).2
  | Turn env id s : step boot s (start_listener boot env id s)
  | Leaves id l ch s :
      live (tasks s) !! id = Some (Work (Accepts l ch)) → ch ∈ signalled s → step boot s (with_task id None s).

(** * What tasks become *)

Definition fresh (ts : Tasks) : Prop := ∀ id t, live ts !! id = Some t → (id < next ts)%nat.

(** A handle the server keeps: of a supervisor, or of a task that is gone. *)
Definition helper (ts : Tasks) (h : nat) : Prop := (h < next ts)%nat ∧ ∀ j, live ts !! h ≠ Some (Work j).

(** No work is lost, and what is new does one of the jobs [P]. *)
Record evolves (P : Job → Prop) (ts ts' : Tasks) : Prop := {
  ev_next : (next ts <= next ts')%nat;
  ev_keep id j : live ts !! id = Some (Work j) → live ts' !! id = Some (Work j);
  ev_new id j : live ts' !! id = Some (Work j) → live ts !! id = Some (Work j) ∨ (next ts <= id)%nat ∧ P j;
  ev_fresh : fresh ts → fresh ts';
}.

#[local] Instance evolves_preorder P : PreOrder (evolves P).
Proof.
  split; [intros ts; split; auto|]. intros a b c [N1 K1 W1 F1] [N2 K2 W2 F2]. split; [lia|auto| |auto].
  intros id j [?%W1|[? ?]]%W2; [done|]. right. split; [lia|done].
Qed.

Lemma evolves_helper P ts ts' h : evolves P ts ts' → helper ts h → helper ts' h.
Proof.
  intros [Hn _ Hw _] [Hh Hj]. split; [lia|]. intros j E. destruct (Hw h j E) as [?|[? _]]; [by eapply Hj|lia].
Qed.

Lemma evolves_weaken (P Q : Job → Prop) ts ts' : (∀ j, P j → Q j) → evolves P ts ts' → evolves Q ts ts'.
Proof. intros Hpq [Hn Hk Hw Hf]. split; [done..| |done]. intros id j [?|[? ?]]%Hw; auto. Qed.

Lemma spawn_supervised_evolves (P : Job → Prop) j ts :
  fresh ts → P j →
  let r := spawn_supervised j ts in
  evolves P ts r.2 ∧ helper r.2 r.1 ∧ live r.2 !! next ts = Some (Work j).
Proof.
  intros Hf Hj. cbn.
  assert (∀ id, (id < next ts)%nat → id ≠ next ts ∧ id ≠ S (next ts)) as Hne by (intros; lia).
  split; [split; cbn|split].
  - lia.
  - intros id j' E. destruct (Hne id (Hf _ _ E)). by rewrite !lookup_insert_ne.
  - intros id j'. destruct (decide (id = S (next ts))) as [->|]; [by rewrite lookup_insert_eq|].
    rewrite lookup_insert_ne by done. destruct (decide (id = next ts)) as [->|].
    + rewrite lookup_insert_eq. intros [= <-]. right. split; [lia|done].
    + rewrite lookup_insert_ne by done. by left.
  - intros _ id t. cbn. rewrite !lookup_insert_Some. intros [[<- _]|[_ [[<- _]|[_ E%Hf]]]]; lia.
  - split; cbn; [lia|]. intros j'. by rewrite lookup_insert_eq.
  - cbn. rewrite lookup_insert_ne by lia. by rewrite lookup_insert_eq.
Qed.

Lemma abort_evolves P h ts : helper ts h → evolves P ts (abort h ts).
Proof.
  intros [_ Hh]. split; cbn; [lia| | |].
  - intros id j E. rewrite lookup_delete_ne; [done|]. intros ->. by apply (Hh j).
  - intros id j [_ ?]%lookup_delete_Some. by left.
  - intros Hf id t E. cbn in E. apply lookup_delete_Some in E as [_ E]. by eapply Hf.
Qed.

Lemma abort_all_evolves P hs ts : (∀ h, h ∈ hs → helper ts h) → evolves P ts (abort_all hs ts).
Proof.
  unfold abort_all. revert ts. induction hs as [|h hs IH]; intros ts Hh; cbn; [done|].
  assert (evolves P ts (abort h ts)) as He by (apply abort_evolves, Hh; set_solver).
  etrans; [exact He|]. apply IH. intros h' ?. eapply evolves_helper; [exact He|]. apply Hh. set_solver.
Qed.

(** ** Kept handles *)

Definition kept (ts : Tasks) (m : gmap string (list nat)) : Prop := map_Forall (λ _ hs, Forall (helper ts) hs) m.

Record wf (s : Server) : Prop := {
  wf_fresh : fresh (tasks s);
  wf_listeners : kept (tasks s) (listener_helpers s);
  wf_certs : kept (tasks s) (cert_helpers s);
}.

Lemma kept_evolves P ts ts' m : evolves P ts ts' → kept ts m → kept ts' m.
Proof.
  intros He Hk n hs E. eapply Forall_impl; [by apply (Hk n)|]. intros h. by apply (evolves_helper P).
Qed.

Lemma kept_default ts m n : kept ts m → ∀ h, h ∈ default [] (m !! n) → helper ts h.
Proof.
  intros Hk h. destruct (m !! n) as [hs|] eqn:E; cbn; [|intros Hh; by apply elem_of_nil in Hh].
  pose proof (Hk n hs E) as Hf. rewrite Forall_forall in Hf. apply Hf.
Qed.

Lemma kept_insert ts m n hs : kept ts m → (∀ h, h ∈ hs → helper ts h) → kept ts (<[n := hs]> m).
Proof. intros Hk Hh. apply map_Forall_insert_2; [by apply Forall_forall|done]. Qed.

Lemma kept_delete ts m n : kept ts m → kept ts (delete n m).
Proof. intros Hk. by apply map_Forall_delete. Qed.

(** * What fails leaves the service alone *)

Record quiet (s s' : Server) : Prop := {
  q_app : app s' = app s;
  q_listeners : current_listeners s' = current_listeners s;
  q_auth : auth_fingerprint s' = auth_fingerprint s;
  q_txs : stop_accept_txs s' = stop_accept_txs s;
  q_signalled : signalled s' = signalled s;
  q_chan : next_chan s' = next_chan s;
  q_helpers : listener_helpers s' = listener_helpers s;
  q_overrides : vhost_alpn_overrides s' = vhost_alpn_overrides s;
  q_tasks : evolves (λ j, j = Renewal) (tasks s) (tasks s');
}.

#[local] Instance quiet_preorder : PreOrder quiet.
Proof. split; [by split|]. intros a b c [] []. split; [congruence..|by etrans]. Qed.

Definition quietly {A} (m : R A) : Prop := ∀ s, wf s → wf (m s).2 ∧ quiet s (m s).2.

Lemma quietly_ret {A} (a : A) : quietly (mret a).
Proof. intros s Hs. by split. Qed.

Lemma quietly_bind {A B} (m : R A) (f : A → R B) : quietly m → (∀ a, quietly (f a)) → quietly (m ≫= f).
Proof.
  intros Hm Hf s Hs. destruct (Hm s Hs) as [Hw Hq]. unfold mbind, R_bind. destruct (m s) as [[a|e] s1]; cbn in *; [|done].
  destruct (Hf a s1 Hw). split; [done|by etrans].
Qed.

Lemma quietly_attempt {A} (r : option (Result A)) : quietly (attempt r).
Proof. intros s Hs. by destruct r as [[a|e]|]. Qed.

Lemma wf_tasks P ts s : evolves P (tasks s) ts → wf s → wf (set_tasks ts s).
Proof. intros He [Hf Hl Hc]. split; cbn; [by apply He|by eapply kept_evolves..]. Qed.

Lemma source_evolves boot env cert ts :
  fresh ts →
  let r := build_cert_source_from_source boot env cert ts in
  evolves (λ j, j = Renewal) ts r.2 ∧ ∀ src h, r.1 = Some (Ok (src, Some h)) → helper r.2 h.
Proof.
  intros Hf. unfold build_cert_source_from_source. destruct cert as [c k| |a|name]; cbn; try done.
  - split; [done|]. intros src h. by destruct (cert_load _ _).
  - split; [done|]. intros src h. by destruct (cert_load _ _).
  - destruct (boot_state_dir boot); cbn; [|done].
    destruct (if acme_issued env a then _ else _) as [src|e]; cbn; [|done].
    destruct (spawn_supervised_evolves (λ j, j = Renewal) Renewal ts Hf eq_refl) as (He & Hh & _).
    split; [exact He|]. intros src' h [= <- <-]. exact Hh.
Qed.

Lemma registry_evolves boot env existing sources defs registry handles ts :
  fresh ts → (∀ n h, handles !! n = Some h → helper ts h) →
  let r := build_cert_registry boot env existing sources defs registry handles ts in
  evolves (λ j, j = Renewal) ts r.2 ∧
  ∀ reg hs, r.1 = Some (Ok (reg, hs)) → ∀ n h, hs !! n = Some h → helper r.2 h.
Proof.
  revert registry handles ts. induction defs as [|d defs IH]; intros registry handles ts Hf Hh; cbn.
  { split; [done|]. intros reg hs [= <- <-]. done. }
  destruct (carried_source existing sources d) as [src|]; [by apply IH|].
  destruct (source_evolves boot env (ParseTls.cd_source d) ts Hf) as [He Hn].
  destruct (build_cert_source_from_source boot env (ParseTls.cd_source d) ts) as [[[[src h]|e]|] ts1]; cbn in *; [|done..].
  edestruct IH as [He2 Hh2]; [by apply He| |split; [by etrans|exact Hh2]].
  intros n h' E. destruct h as [h|].
  - apply lookup_insert_Some in E as [[_ <-]|[_ E]]; [by eapply Hn|]. eapply evolves_helper; [exact He|by eapply Hh].
  - eapply evolves_helper; [exact He|by eapply Hh].
Qed.

Lemma merge_quiet l s :
  wf s → (∀ n h, (n, h) ∈ l → helper (tasks s) h) →
  wf (foldl merge_handle s l) ∧ quiet s (foldl merge_handle s l).
Proof.
  revert s. induction l as [|[n h] l IH]; intros s Hs Hl; cbn; [done|].
  assert (evolves (λ j, j = Renewal) (tasks s) (abort_all (default [] (cert_helpers s !! n)) (tasks s))) as He.
  { apply abort_all_evolves. by eapply kept_default, wf_certs. }
  destruct (IH (merge_handle s (n, h))) as [Hw Hq].
  - destruct Hs as [Hf Hlh Hch]. split; cbn; [by apply He|by eapply kept_evolves|].
    apply kept_insert; [by eapply kept_evolves|]. intros h' ->%list_elem_of_singleton.
    eapply evolves_helper; [exact He|]. apply (Hl n). set_solver.
  - intros n' h' Hin. cbn. eapply evolves_helper; [exact He|]. apply (Hl n'). set_solver.
  - split; [done|]. etrans; [|exact Hq]. by split.
Qed.

Lemma rebuild_quietly boot env c : quietly (rebuild_certs boot env c).
Proof.
  intros s Hs. unfold rebuild_certs.
  destruct (registry_evolves boot env (cert_registry s) (cert_source_fingerprints s) (certificates c) ∅ ∅ (tasks s))
    as [He Hh]; [by apply wf_fresh|intros n h; by rewrite lookup_empty|].
  destruct (build_cert_registry _ _ _ _ _ _ _ _) as [[[[reg hs]|e]|] ts]; cbn in *;
    [|by split; [eapply wf_tasks|split]..].
  destruct (merge_quiet (map_to_list hs) (set_tasks ts s)) as [Hw Hq].
  - by eapply wf_tasks.
  - intros n h Hin%elem_of_map_to_list. cbn. by eapply Hh.
  - split; [by destruct Hw|]. etrans; [|destruct Hq; by split]. by split.
Qed.

Lemma prepare_quietly boot env : quietly (prepare boot env).
Proof.
  unfold prepare. repeat first [apply quietly_attempt | apply quietly_ret | apply rebuild_quietly
    | apply quietly_bind; [|intros ?]].
  - intros s Hs. by split.
  - intros s Hs. unfold check_auth. by destruct (String.eqb _ _).
  - intros s [Hf Hl Hc]. split; [by split|by split].
Qed.

(** * What a reload applies *)

(** The cells only [register] and the ends of a reload write. *)
Definition settled (s s' : Server) : Prop :=
  app s' = app s ∧ current_listeners s' = current_listeners s ∧ next_chan s' = next_chan s ∧
  cert_registry s' = cert_registry s ∧ swept s' = swept s ∧ auth_fingerprint s' = auth_fingerprint s.

#[local] Instance settled_preorder : PreOrder settled.
Proof. split; [by intros s|]. intros a b c (? & ? & ? & ? & ? & ?) (? & ? & ? & ? & ? & ?). unfold settled. split_and!; congruence. Qed.

Definition no_job (_ : Job) : Prop := False.

Lemma remove_listener_step l s :
  wf s →
  let s' := remove_listener s l in
  wf s' ∧ evolves no_job (tasks s) (tasks s').
Proof.
  intros [Hf Hl Hc].
  assert (evolves no_job (tasks s) (abort_all (default [] (listener_helpers s !! key l)) (tasks s))) as He.
  { apply abort_all_evolves. by eapply kept_default. }
  split; [|exact He]. split; cbn; [by apply He| |by eapply kept_evolves].
  apply kept_delete. by eapply kept_evolves.
Qed.

Lemma remove_listeners ls s :
  wf s →
  let s' := foldl remove_listener s ls in
  wf s' ∧ evolves no_job (tasks s) (tasks s') ∧ settled s s' ∧ signalled s ⊆ signalled s' ∧
  (∀ k, stop_accept_txs s' !! k = if decide (k ∈ key <$> ls) then None else stop_accept_txs s !! k) ∧
  (∀ k ch, k ∈ key <$> ls → stop_accept_txs s !! k = Some ch → ch ∈ signalled s').
Proof.
  revert s. induction ls as [|l ls IH]; intros s Hs; cbn.
  { split_and!; [done..|set_solver|]. intros k ch Hk. by apply elem_of_nil in Hk. }
  destruct (remove_listener_step l s Hs) as [Hw He].
  destruct (IH _ Hw) as (Hw' & He' & Hse & Hsub & Htx & Hsig). split_and!.
  - done.
  - by etrans.
  - etrans; [|exact Hse]. by split_and!.
  - etrans; [|exact Hsub]. cbn. destruct (stop_accept_txs s !! key l); set_solver.
  - intros k. rewrite Htx. cbn. destruct (decide (k = key l)) as [->|].
    + rewrite lookup_delete_eq, (decide_True (P := key l ∈ key l :: (key <$> ls))) by set_solver. by case_decide.
    + rewrite lookup_delete_ne by done. repeat case_decide; set_solver.
  - intros k ch Hk Hch. destruct (decide (k = key l)) as [->|].
    + apply Hsub. cbn. rewrite Hch. set_solver.
    + apply (Hsig k); [set_solver|]. cbn. by rewrite lookup_delete_ne.
Qed.

Lemma remove_certs names s :
  wf s →
  let s' := foldl remove_cert s names in
  wf s' ∧ evolves no_job (tasks s) (tasks s') ∧ settled s s' ∧ signalled s' = signalled s ∧
  stop_accept_txs s' = stop_accept_txs s.
Proof.
  revert s. induction names as [|n names IH]; intros s Hs; cbn; [by split_and!|].
  assert (evolves no_job (tasks s) (abort_all (default [] (cert_helpers s !! n)) (tasks s))) as He.
  { apply abort_all_evolves. by eapply kept_default, wf_certs. }
  destruct (IH (remove_cert s n)) as (Hw & He' & Hse & Hsig & Htx).
  { destruct Hs as [Hf Hl Hc]. split; cbn; [by apply He|by eapply kept_evolves|]. apply kept_delete. by eapply kept_evolves. }
  split_and!; [done|by etrans|etrans; [|exact Hse]; by split_and!|done|done].
Qed.

Lemma start_all rt ls s :
  wf s →
  let s' := foldl (start_added rt) s ls in
  wf s' ∧ evolves (λ j, ∃ l, l ∈ ls ∧ j = Starts l rt) (tasks s) (tasks s') ∧ settled s s' ∧
  signalled s' = signalled s ∧ stop_accept_txs s' = stop_accept_txs s ∧
  (∀ l, l ∈ ls → ∃ id, live (tasks s') !! id = Some (Work (Starts l rt))) ∧
  (NoDup (key <$> ls) → ∀ i j l l', (next (tasks s) <= i)%nat → (next (tasks s) <= j)%nat →
     live (tasks s') !! i = Some (Work (Starts l rt)) → live (tasks s') !! j = Some (Work (Starts l' rt)) →
     key l = key l' → i = j).
Proof.
  revert s. induction ls as [|l ls IH]; intros s Hs; cbn.
  { split_and!; [done..|set_solver|]. intros _ i j l l' Hi _ E. apply (wf_fresh s Hs) in E. lia. }
  destruct (spawn_supervised_evolves (λ j, j = Starts l rt) (Starts l rt) (tasks s) (wf_fresh s Hs) eq_refl) as (He & _ & Hid).
  destruct (IH (start_added rt s l)) as (Hw & He' & Hse & Hsig & Htx & Hin & Huniq); [by eapply wf_tasks|].
  pose proof (ev_keep _ _ _ He' _ _ Hid) as Hid'. split_and!.
  - done.
  - etrans; [eapply evolves_weaken; [|exact He]|eapply evolves_weaken; [|exact He']]; [intros j ->|intros j (l' & ? & ->)];
      eexists; (split; [|done]); set_solver.
  - etrans; [|exact Hse]. by split_and!.
  - done.
  - done.
  - intros l' [->|?]%elem_of_cons; [eauto|by apply Hin].
  - intros [Hn Hnd]%NoDup_cons i j a b Hi Hj Ei Ej Hab.
    assert (∀ x y, (next (tasks s) <= x)%nat → live (tasks (foldl (start_added rt) (start_added rt s l) ls)) !! x
              = Some (Work (Starts y rt)) → x = next (tasks s) ∧ y = l ∨ (S (S (next (tasks s))) <= x)%nat ∧ y ∈ ls) as Hcase.
    { intros x y Hx E. destruct (ev_new _ _ _ He' x _ E) as [E0|[Hge (y' & Hy & [= <-])]]; [|by right].
      destruct (decide (x = next (tasks s))) as [->|Hne]; 
        [assert (Some (Work (Starts y rt)) = Some (Work (Starts l rt))) as [= ->] by (etrans; [symmetry; exact E0|exact Hid]); by left|].
      destruct (ev_new _ _ _ He x _ E0) as [E1%(wf_fresh s Hs)|_]; [lia|].
      exfalso. cbn in E0. destruct (decide (x = S (next (tasks s)))) as [->|]; [by rewrite lookup_insert_eq in E0|].
      rewrite !lookup_insert_ne in E0 by done. apply (wf_fresh s Hs) in E0. lia. }
    destruct (Hcase i a Hi Ei) as [[-> ->]|[Hi' Ha]], (Hcase j b Hj Ej) as [[-> ->]|[Hj' Hb]]; [done|..].
    + destruct Hn. rewrite Hab. by apply list_elem_of_fmap_2.
    + destruct Hn. rewrite <- Hab. by apply list_elem_of_fmap_2.
    + by apply (Huniq Hnd i j a b).
Qed.

(** * What starting a listener does *)

Definition helper_job (j : Job) : Prop := match j with Starts _ _ | Accepts _ _ => False | _ => True end.

Record calm (s s' : Server) : Prop := {
  ca_app : app s' = app s;
  ca_listeners : current_listeners s' = current_listeners s;
  ca_txs : stop_accept_txs s' = stop_accept_txs s;
  ca_signalled : signalled s' = signalled s;
  ca_chan : next_chan s' = next_chan s;
  ca_tasks : evolves helper_job (tasks s) (tasks s');
}.

#[local] Instance calm_preorder : PreOrder calm.
Proof. split; [by split|]. intros a b c [] []. split; [congruence..|by etrans]. Qed.

(** A step of a builder, with what it needs and gives of the tasks. *)
Definition calmly {A} (P : Tasks → Prop) (m : R A) (Q : A → Tasks → Prop) : Prop :=
  ∀ s, wf s → P (tasks s) → wf (m s).2 ∧ calm s (m s).2 ∧ ∀ a, (m s).1 = inl a → Q a (tasks (m s).2).

(** A builder: registers the listener if it succeeds. *)
Definition registers (P : Tasks → Prop) (m : R nat) (l : ListenerConfig) : Prop :=
  ∀ s, wf s → P (tasks s) →
    let s' := (m s).2 in
    wf s' ∧ app s' = app s ∧ current_listeners s' = current_listeners s ∧ signalled s' = signalled s ∧
    evolves helper_job (tasks s) (tasks s') ∧
    match (m s).1 with
    | inl ch => ch = next_chan s ∧ stop_accept_txs s' = <[key l := ch]> (stop_accept_txs s)
    | inr _ => stop_accept_txs s' = stop_accept_txs s
    end.

Lemma registers_bind {A} P Q (m : R A) (f : A → R nat) l :
  calmly P m Q → (∀ a, registers (Q a) (f a) l) → registers P (m ≫= f) l.
Proof.
  intros Hm Hf s Hs HP. destruct (Hm s Hs HP) as (Hw & [? ? ? ? ? ?] & Hq). unfold mbind, R_bind.
  destruct (m s) as [[a|e] s1]; cbn in *; [|by split_and!].
  destruct (Hf a s1 Hw (Hq a eq_refl)) as (? & ? & ? & ? & ? & Hr). cbn in *.
  split_and!; try congruence; [by etrans|]. destruct (f a s1) as [[ch|e] s2]; cbn in *; [|congruence].
  destruct Hr. split; congruence.
Qed.

Lemma registers_register P l : registers P (register l) l.
Proof. intros s [Hf Hl Hc] _. cbn. by split_and!. Qed.

Lemma calmly_bind {A B} P Q (m : R A) (f : A → R B) S :
  calmly P m Q → (∀ a, calmly (Q a) (f a) S) → calmly P (m ≫= f) S.
Proof.
  intros Hm Hf s Hs HP. destruct (Hm s Hs HP) as (Hw & Hc & Hq). unfold mbind, R_bind.
  destruct (m s) as [[a|e] s1]; cbn in *; [|by split_and!].
  destruct (Hf a s1 Hw (Hq a eq_refl)) as (? & ? & ?). split_and!; [done|by etrans|done].
Qed.

Lemma calmly_ret {A} P (a : A) Q : (∀ ts, P ts → Q a ts) → calmly P (mret a) Q.
Proof. intros Hq s Hs HP. split_and!; [done|done|]. intros a' [= <-]. by apply Hq. Qed.

Lemma calmly_attempt {A} P (r : option (Result A)) : calmly P (attempt r) (λ _ ts, P ts).
Proof. intros s Hs HP. by destruct r as [[a|e]|]. Qed.

Definition stable (P : Tasks → Prop) : Prop := ∀ ts ts', evolves helper_job ts ts' → P ts → P ts'.

Lemma stable_handles hs : stable (λ ts, Forall (helper ts) hs).
Proof. intros ts ts' He Hf. eapply Forall_impl; [exact Hf|]. intros h. by apply (evolves_helper helper_job). Qed.

Lemma stable_and P Q : stable P → stable Q → stable (λ ts, P ts ∧ Q ts).
Proof. intros Hp Hq ts ts' He []. split; eauto. Qed.

Lemma stable_true : stable (λ _, True).
Proof. done. Qed.

Lemma stable_helper h : stable (λ ts, helper ts h).
Proof. intros ts ts' He. by apply (evolves_helper helper_job). Qed.

Ltac stays := repeat first [apply stable_true | apply stable_handles | apply stable_helper | apply stable_and].

Lemma calmly_obtain P boot env t :
  stable P → calmly P (obtain_cert boot env t) (λ r ts, P ts ∧ Forall (helper ts) (option_list r.2)).
Proof.
  intros HP s Hs Hp. unfold obtain_cert, build_cert_source.
  destruct (ParseTls.cert t) as [c k| |a|name] eqn:Et.
  4:{ cbn. destruct (cert_registry s !! name); cbn; (split_and!; [by destruct Hs|by split|]); [|done].
      intros r [= <-]. by split. }
  all: rewrite <- Et;
    match goal with |- context [build_cert_source_from_source ?b ?e ?c ?ts] =>
      destruct (source_evolves b e c ts (wf_fresh s Hs)) as [He Hh]; destruct (build_cert_source_from_source b e c ts) as [r ts1]
    end; cbn in He, Hh; apply (evolves_weaken _ helper_job) in He; try (by intros j ->);
    destruct r as [[[src h]|e]|]; cbn;
    (split_and!; [by eapply wf_tasks|by split|]); try done; intros [src' h'] [= <- <-];
    (split; [by eapply HP|]); destruct h as [h|]; cbn; [|done|..]; repeat constructor; by eapply Hh.
Qed.

Lemma calmly_spawn P b j :
  stable P → helper_job j → calmly P (spawn_if b j) (λ hs ts, P ts ∧ Forall (helper ts) hs).
Proof.
  intros HP Hj s Hs Hp. unfold spawn_if. destruct b.
  2:{ split_and!; [done..|]. intros hs [= <-]. by split. }
  destruct (spawn_supervised_evolves helper_job j (tasks s) (wf_fresh s Hs) Hj) as (He & Hh & _).
  cbn. split_and!; [by eapply wf_tasks|by split|]. intros hs [= <-]. split; [by eapply HP|]. by constructor.
Qed.

Lemma calmly_helper P j :
  stable P → helper_job j → calmly P (spawn_helper j) (λ h ts, P ts ∧ helper ts h).
Proof.
  intros HP Hj s Hs Hp.
  destruct (spawn_supervised_evolves helper_job j (tasks s) (wf_fresh s Hs) Hj) as (He & Hh & _).
  cbn. split_and!; [by eapply wf_tasks|by split|]. intros h [= <-]. split; [by eapply HP|done].
Qed.

Lemma calmly_keep (P : Tasks → Prop) l (hs : gmap string (list nat) → list nat) :
  (∀ ts m, P ts → kept ts m → Forall (helper ts) (hs m)) →
  calmly P (update (λ s, set_listener_helpers (<[key l := hs (listener_helpers s)]> (listener_helpers s)) s)) (λ _, P).
Proof.
  intros Hh s Hs HP. split_and!; cbn.
  - destruct Hs as [Hf Hl Hc]. split; cbn; [done| |done]. apply kept_insert; [done|]. apply Forall_forall. by apply Hh.
  - by split.
  - done.
Qed.

Lemma calmly_push P l h :
  stable P → calmly (λ ts, P ts ∧ Forall (helper ts) (option_list h)) (push_helper l h) (λ _, P).
Proof.
  intros HP s Hs [Hp Hh]. destruct h as [h|]; [|by split_and!].
  destruct (calmly_keep (λ ts, P ts ∧ Forall (helper ts) [h]) l (λ m, default [] (m !! key l) ++ [h])) with (s := s)
    as (Hw & Hc & Hq); [|done|done|split_and!; [done|done|]; intros [] E; by apply (Hq tt)].
  intros ts m [_ Hf] Hk. apply Forall_app. split; [|done]. apply Forall_forall. by apply kept_default.
Qed.

Lemma registers_built boot env rt l : registers (λ _, True) (build_listener boot env rt l) l.
Proof.
  unfold build_listener.
  destruct (Bind.is_byte_stream (Bind.kind (bind l))), (tls l) as [t|] eqn:Et, (proxy l) as [p|];
    try apply registers_register.
  1,3: unfold build_stream_listener; rewrite Et; eapply registers_bind with (Q := λ h ts, True ∧ Forall (helper ts) (option_list h));
    [|intros h; eapply registers_bind; [apply (calmly_push (λ _, True)); done|]; intros u;
      eapply registers_bind; [apply calmly_attempt|]; intros b; apply registers_register].
  - eapply calmly_bind; [apply (calmly_obtain (λ _, True)); done|]. intros [src h]. by apply calmly_ret.
  - apply calmly_ret. by split.
  - unfold build_tls_listener. eapply registers_bind; [apply (calmly_obtain (λ _, True)); done|]. intros [src acme]. cbn beta iota.
    eapply registers_bind; [apply calmly_attempt|]. intros u. eapply registers_bind; [apply calmly_attempt|]. intros u'.
    eapply registers_bind; [apply calmly_helper; [stays|done]|]. intros w. cbn beta.
    eapply registers_bind; [apply calmly_spawn; [stays|done]|]. intros crl. cbn beta.
    eapply registers_bind; [apply calmly_spawn; [stays|done]|]. intros st. cbn beta.
    eapply registers_bind; [|intros u''; apply registers_register].
    apply (calmly_keep _ l (λ _, option_list acme ++ [w] ++ crl ++ st)).
    intros ts m ((((_ & Ha) & Hw) & Hc) & Hst) _.
    rewrite !Forall_app, Forall_cons, Forall_nil. by split_and!.
  - intros s Hs _. cbn. by split_and!.
  - unfold build_quic_listener. eapply registers_bind; [apply (calmly_obtain (λ _, True)); done|]. intros [src acme]. cbn beta iota.
    eapply registers_bind; [apply calmly_attempt|]. intros u.
    eapply registers_bind; [apply (calmly_push (λ _, True)); done|]. intros u'. apply registers_register.
  - intros s Hs _. cbn. by split_and!.
Qed.

(** * Invariant *)

Record orderly (s : Server) : Prop := {
  or_wf : wf s;
  or_accepts id l ch :
    live (tasks s) !! id = Some (Work (Accepts l ch)) → ch ∈ signalled s ∨ stop_accept_txs s !! key l = Some ch;
  or_known k : is_Some (stop_accept_txs s !! k) → k ∈ key <$> current_listeners s;
  or_starts id l rt :
    live (tasks s) !! id = Some (Work (Starts l rt)) →
    stop_accept_txs s !! key l = None ∧ key l ∈ key <$> current_listeners s;
  or_once i j l l' rt rt' :
    live (tasks s) !! i = Some (Work (Starts l rt)) → live (tasks s) !! j = Some (Work (Starts l' rt')) →
    key l = key l' → i = j;
}.

Lemma with_task_live id t s i :
  live (tasks (with_task id t s)) !! i = if decide (i = id) then t else live (tasks s) !! i.
Proof.
  cbn. case_decide as E; [subst; by rewrite lookup_partial_alter_eq|]. by rewrite lookup_partial_alter_ne.
Qed.

(** Ending work, or turning it into other work, keeps the handles. *)
Lemma wf_with_task id j t s :
  live (tasks s) !! id = Some (Work j) → wf s → wf (with_task id t s).
Proof.
  intros Hid [Hf Hl Hc].
  assert (∀ m, kept (tasks s) m → kept (tasks (with_task id t s)) m) as Hk.
  { intros m Hm n hs E. eapply Forall_impl; [by apply (Hm n)|]. intros h [Hh Hj]. split; [done|]. intros j'.
    rewrite with_task_live. case_decide as Eh; [subst; by destruct (Hj j)|done]. }
  split; [|by apply Hk..]. intros i t'. rewrite with_task_live. case_decide as E; [subst; intros _; by eapply Hf|by apply Hf].
Qed.

Lemma quiet_orderly s s' : wf s' → quiet s s' → orderly s → orderly s'.
Proof.
  intros Hw [Ea El _ Et Es _ _ _ He] [_ Hac Hkn Hst Hon].
  assert (∀ id j, live (tasks s') !! id = Some (Work j) → j ≠ Renewal → live (tasks s) !! id = Some (Work j)) as Hold.
  { intros id j E Hj. by destruct (ev_new _ _ _ He id j E) as [?|[_ ?]]. }
  split; [done|..]; rewrite ?Es, ?Et, ?El.
  - intros id l ch E. by apply (Hac id), Hold.
  - done.
  - intros id l rt E. by apply (Hst id l rt), Hold.
  - intros i j l l' rt rt' Ei Ej. by eapply Hon; apply Hold.
Qed.

Lemma commit_orderly p s :
  orderly s → started s →
  (let diff := Diff.diff_listeners key (current_listeners s) (listeners (p_config p)) in
   p_added p = Diff.added diff ∧ p_removed p = Diff.removed diff) →
  orderly (commit p s).
Proof.
  intros [Hwf Hac Hkn _ _] Hno [Ea Er]. unfold commit.
  destruct (Diff.only_in_spec key (listeners (p_config p)) (current_listeners s)) as (Ka & Hnd & _).
  destruct (Diff.only_in_spec key (current_listeners s) (listeners (p_config p))) as (Kr & _ & _).
  fold (Diff.diff_listeners key (current_listeners s) (listeners (p_config p))) in *.
  change (Diff.sort_by_key key _) with (Diff.added (Diff.diff_listeners key (current_listeners s) (listeners (p_config p)))) in Ka, Hnd.
  change (Diff.sort_by_key key _) with (Diff.removed (Diff.diff_listeners key (current_listeners s) (listeners (p_config p)))) in Kr.
  rewrite <- Ea in Ka, Hnd. rewrite <- Er in Kr. clear Ea Er.
  set (s1 := set_app _ s). assert (wf s1) as Hw1 by (by destruct Hwf).
  destruct (remove_listeners (p_removed p) s1 Hw1) as (Hw2 & He2 & Hs2 & Hsub & Htx & Hsig).
  set (s2 := foldl remove_listener s1 (p_removed p)) in *.
  destruct (remove_certs (removed_certs (p_old_certs p) (p_config p)) s2 Hw2) as (Hw3 & He3 & Hs3 & Hsig3 & Htx3).
  set (s3 := foldl remove_cert s2 _) in *.
  set (s4 := set_overrides _ s3). assert (wf s4) as Hw4 by (by destruct Hw3).
  destruct (start_all (p_router p) (p_added p) s4 Hw4) as (Hw5 & He5 & Hs5 & Hsig5 & Htx5 & _ & Huniq).
  set (s5 := foldl _ s4 (p_added p)) in *.
  assert (∀ k, stop_accept_txs s5 !! k = if decide (k ∈ key <$> p_removed p) then None else stop_accept_txs s !! k) as Htxs.
  { intros k. rewrite Htx5. change (stop_accept_txs s4) with (stop_accept_txs s3). by rewrite Htx3, Htx. }
  assert (∀ id j, live (tasks s5) !! id = Some (Work j) →
    live (tasks s) !! id = Some (Work j) ∨ (next (tasks s4) <= id)%nat ∧ ∃ l, l ∈ p_added p ∧ j = Starts l (p_router p)) as Hnew.
  { intros id j E. destruct (ev_new _ _ _ He5 id j E) as [E4|?]; [|by right]. left.
    destruct (ev_new _ _ _ He3 id j E4) as [E3|[_ []]]. by destruct (ev_new _ _ _ He2 id j E3) as [?|[_ []]]. }
  split; cbn.
  - by destruct Hw5.
  - intros id l ch E. rewrite Hsig5. change (signalled s4) with (signalled s3). rewrite Hsig3.
    destruct (Hnew _ _ E) as [E0|[_ (l' & _ & ?)]]; [|done]. destruct (Hac id l ch E0) as [?|Hch]; [left; by apply Hsub|].
    rewrite Htxs. case_decide as Hr; [left; by apply (Hsig (key l))|by right].
  - intros k. rewrite Htxs. case_decide as Hr; [by intros [? ?]|]. intros Hk%Hkn.
    destruct (decide (k ∈ key <$> listeners (p_config p))) as [|Hn]; [done|]. destruct Hr. by apply Kr.
  - intros id l rt E. destruct (Hnew _ _ E) as [E0|[_ (l' & Hin & [= -> ->])]]; [by destruct (Hno id l rt)|].
    assert (key l' ∈ key <$> p_added p) as [Hk Hn]%Ka by (by apply list_elem_of_fmap_2). split; [|done].
    rewrite Htxs. case_decide; [done|]. apply eq_None_not_Some. by intros ?%Hkn.
  - intros i j l l' rt rt' Ei Ej Hkey.
    destruct (Hnew _ _ Ei) as [E0|[Hi (? & _ & [= <- ->])]]; [by destruct (Hno i l rt)|].
    destruct (Hnew _ _ Ej) as [E0|[Hj (? & _ & [= <- ->])]]; [by destruct (Hno j l' rt')|].
    by apply (Huniq Hnd i j l l').
Qed.

Lemma attempt_inl {A} (r : option (Result A)) s a s' : attempt r s = (inl a, s') → r = Some (Ok a) ∧ s' = s.
Proof. destruct r as [[x|e]|]; cbn; by intros [= -> ->]. Qed.

Lemma R_bind_inl {A B} (m : R A) (f : A → R B) s b s' :
  (m ≫= f) s = (inl b, s') → ∃ a s1, m s = (inl a, s1) ∧ f a s1 = (inl b, s').
Proof. unfold mbind, R_bind. destruct (m s) as [[a|e] s1]; [eauto|done]. Qed.

(** What a successful preparation found. *)
Lemma prepare_inl boot env s p s' :
  prepare boot env s = (inl p, s') →
  load env (config_path boot) = Some (Ok (p_config p)) ∧
  debug_auth (auth (server (p_config p))) = auth_fingerprint s ∧
  Build.router_new lb_metrics h3_new sa_text (p_config p) = Some (Ok (p_router p)) ∧
  (let diff := Diff.diff_listeners key (current_listeners s) (listeners (p_config p)) in
   p_added p = Diff.added diff ∧ p_removed p = Diff.removed diff) ∧
  (∀ l, l ∈ p_added p → bind_socket env l = true) ∧ swept s' = p_router p.
Proof.
  intros (c & s0 & [Hl ->]%attempt_inl & Hp)%R_bind_inl. apply R_bind_inl in Hp as (old & s0 & [= <- <-] & Hp).
  apply R_bind_inl in Hp as (? & s1 & Ha & Hp). apply R_bind_inl in Hp as (? & s2 & _ & Hp).
  apply R_bind_inl in Hp as (rt & s3 & [Hr ->]%attempt_inl & Hp).
  apply R_bind_inl in Hp as (gp & s4 & [_ ->]%attempt_inl & Hp).
  apply R_bind_inl in Hp as (log & s5 & [_ ->]%attempt_inl & Hp).
  apply R_bind_inl in Hp as (? & s6 & [= _ <-] & Hp).
  apply R_bind_inl in Hp as (added & s7 & [Hb ->]%attempt_inl & [= <- <-]).
  unfold stage_binds in Hb. destruct (forallb _ _) eqn:Ef; [|done]. injection Hb as <-. cbn. split_and!; try done.
  - unfold check_auth in Ha. by destruct (String.eqb_spec (debug_auth (auth (server c))) (auth_fingerprint s)).
  - rewrite forallb_forall in Ef. intros l Hin. apply Ef. by apply list_elem_of_In.
Qed.

Lemma reload_orderly boot env s : orderly s → started s → orderly (reload boot env s).2.
Proof.
  intros Ho Hno. destruct (prepare_quietly boot env s (or_wf s Ho)) as [Hw Hq]. unfold reload.
  destruct (prepare boot env s) as [[p|e] s1] eqn:Ep; cbn in *; [|by eapply quiet_orderly].
  apply prepare_inl in Ep as (_ & _ & _ & Hd & _). apply commit_orderly; [by eapply quiet_orderly| |].
  - intros id l rt E. destruct (ev_new _ _ _ (q_tasks _ _ Hq) id _ E) as [E0|[_ ?]]; [by apply (Hno id l rt)|done].
  - by rewrite (q_listeners _ _ Hq).
Qed.

Lemma start_orderly boot env id s : orderly s → orderly (start_listener boot env id s).
Proof.
  intros [Hwf Hac Hkn Hst Hon]. unfold start_listener. destruct (live (tasks s) !! id) as [[j|]|] eqn:Eid; [|by split..].
  destruct j as [| | | |l rt|]; try by split.
  destruct (registers_built boot env rt l s Hwf I) as (Hw & _ & El & Es & He & Hr). cbn in *.
  destruct (Hst id l rt Eid) as [Hnone Hcur].
  destruct (build_listener boot env rt l s) as [r s1]. cbn in *. pose proof (ev_keep _ _ _ He _ _ Eid) as Eid1.
  assert (∀ i j, live (tasks s1) !! i = Some (Work j) → ¬ helper_job j → live (tasks s) !! i = Some (Work j)) as Hold.
  { intros i j E Hj. by destruct (ev_new _ _ _ He i j E) as [?|[_ ?]]. }
  assert (∀ t, (∀ l rt, t ≠ Some (Work (Starts l rt))) → ∀ i l' rt',
    live (tasks (with_task id t s1)) !! i = Some (Work (Starts l' rt')) →
    i ≠ id ∧ live (tasks s) !! i = Some (Work (Starts l' rt'))) as Hstill.
  { intros t Ht i l' rt'. rewrite with_task_live. case_decide; [by intros ?%Ht|]. intros E. split; [done|]. apply Hold; auto. }
  destruct r as [ch|e].
  - destruct Hr as [-> Htx]. split; cbn [with_task set_tasks signalled stop_accept_txs current_listeners]; rewrite ?Es, ?El, ?Htx.
    + by eapply wf_with_task.
    + intros i l' ch'. rewrite with_task_live. case_decide as Ei.
      * intros [= <- <-]. right. apply lookup_insert_eq.
      * intros E. destruct (Hac i l' ch') as [?|Hch]; [apply Hold; auto|by left|]. right.
        rewrite lookup_insert_ne; [done|]. intros Hk. by rewrite <- Hk, Hnone in Hch.
    + intros k. rewrite lookup_insert_is_Some. intros [<-|[_ ?]]; [done|by apply Hkn].
    + intros i l' rt' [Hne E]%Hstill; [|done]. destruct (Hst i l' rt' E). split; [|done]. rewrite lookup_insert_ne; [done|].
      intros Hk. apply Hne. by eapply Hon.
    + intros i j a b r1 r2 [_ Ei]%Hstill [_ Ej]%Hstill; [|done..]. by eapply Hon.
  - split; cbn [with_task set_tasks signalled stop_accept_txs current_listeners]; rewrite ?Es, ?El, ?Hr.
    + by eapply wf_with_task.
    + intros i l' ch'. rewrite with_task_live. case_decide; [done|]. intros E. eapply Hac, Hold; [exact E|auto].
    + done.
    + intros i l' rt' [_ E]%Hstill; [|done]. by eapply Hst.
    + intros i j a b r1 r2 [_ Ei]%Hstill [_ Ej]%Hstill; [|done..]. by eapply Hon.
Qed.

Lemma leave_orderly id l ch s :
  live (tasks s) !! id = Some (Work (Accepts l ch)) → orderly s → orderly (with_task id None s).
Proof.
  intros Eid [Hwf Hac Hkn Hst Hon].
  assert (∀ i t, live (tasks (with_task id None s)) !! i = Some t → live (tasks s) !! i = Some t) as Hold.
  { intros i t. rewrite with_task_live. by case_decide. }
  split; [by eapply wf_with_task| |done| |].
  - intros i l' ch' E%Hold. by eapply Hac.
  - intros i l' rt E%Hold. by eapply Hst.
  - intros i j a b r1 r2 Ei%Hold Ej%Hold. by eapply Hon.
Qed.

Lemma step_orderly boot s s' : step boot s s' → orderly s → orderly s'.
Proof.
  intros [env s0 Hno|r s0|env id s0|id l ch s0 Eid _] Ho.
  - by apply reload_orderly.
  - destruct r; cbn; [|done..]. destruct Ho as [[? ? ?] Hac Hkn Hst Hon]. split; cbn; [by split| |done..].
    intros id l ch E. destruct (Hac id l ch E) as [?|?]; [left; set_solver|by right].
  - by apply start_orderly.
  - by eapply leave_orderly.
Qed.

(** A step that stops did not apply anything. *)
Definition honest {A} (m : R A) : Prop := ∀ s, (m s).1 ≠ inr (Returned Applied).

Lemma honest_bind {A B} (m : R A) (f : A → R B) : honest m → (∀ a, honest (f a)) → honest (m ≫= f).
Proof.
  intros Hm Hf s. specialize (Hm s). unfold mbind, R_bind. destruct (m s) as [[a|e] s1]; cbn in *; [apply Hf|congruence].
Qed.

Lemma honest_attempt {A} (r : option (Result A)) : honest (attempt r).
Proof. intros s. by destruct r as [[a|e]|]. Qed.

Lemma prepare_honest boot env : honest (prepare boot env).
Proof.
  unfold prepare. repeat first [apply honest_attempt | apply honest_bind; [|intros ?]]; try by intros s.
  - intros s. unfold check_auth. by destruct (String.eqb _ _).
  - intros s. unfold rebuild_certs. by destruct (build_cert_registry _ _ _ _ _ _ _ _) as [[[[reg hs]|e]|] ts].
Qed.

(** * Properties *)

(** C35: a reload that is not applied, for whatever reason and also if it panics,
    leaves the service as it was: the state new connections are given, the
    listeners, their stop channels and their accept loops. *)
Theorem failed_reload_keeps_serving boot env s :
  wf s → (reload boot env s).1 ≠ Returned Applied →
  let s' := (reload boot env s).2 in
  app s' = app s ∧ current_listeners s' = current_listeners s ∧ stop_accept_txs s' = stop_accept_txs s ∧
  signalled s' = signalled s ∧ listener_helpers s' = listener_helpers s ∧
  vhost_alpn_overrides s' = vhost_alpn_overrides s ∧
  ∀ id l ch, live (tasks s') !! id = Some (Work (Accepts l ch)) ↔ live (tasks s) !! id = Some (Work (Accepts l ch)).
Proof.
  intros Hs. destruct (prepare_quietly boot env s Hs) as [_ [? ? ? ? ? ? ? ? He]].
  unfold reload. destruct (prepare boot env s) as [[p|e] s1]; cbn in *; [done|]. intros _. split_and!; [done..|].
  intros id l ch. split; [|apply He]. by intros [?|[_ ?]]%(ev_new _ _ _ He).
Qed.

(** A reload that is applied gives new connections the router of the file as
    it is now, keeping authenticator, sessions, challenges and cache; the
    authentication is configured as before.  A listener of the old and the
    new configuration keeps its channel; one of the old only is told to stop
    and forgotten; one of the new only had its socket bound and is being
    started. *)
Theorem reload_applied boot env s :
  wf s → (reload boot env s).1 = Returned Applied →
  let s' := (reload boot env s).2 in
  ∃ c, load env (config_path boot) = Some (Ok c) ∧ debug_auth (auth (server c)) = auth_fingerprint s ∧
    Build.router_new lb_metrics h3_new sa_text c = Some (Ok (router (app s'))) ∧
    carried (app s') = carried (app s) ∧ swept s' = router (app s') ∧ current_listeners s' = listeners c ∧
    (∀ k ch, stop_accept_txs s !! k = Some ch → k ∈ key <$> current_listeners s →
       if decide (k ∈ key <$> listeners c) then stop_accept_txs s' !! k = Some ch
       else stop_accept_txs s' !! k = None ∧ ch ∈ signalled s') ∧
    ∀ k, k ∈ key <$> listeners c → k ∉ key <$> current_listeners s →
      ∃ id l, key l = k ∧ l ∈ listeners c ∧ bind_socket env l = true ∧
        live (tasks s') !! id = Some (Work (Starts l (router (app s')))).
Proof.
  intros Hs. destruct (prepare_quietly boot env s Hs) as [Hw [Ea El _ Et Es _ _ _ He]]. unfold reload.
  pose proof (prepare_honest boot env s) as Hho.
  destruct (prepare boot env s) as [[p|e] s1] eqn:Ep; cbn in *; [intros _|congruence].
  apply prepare_inl in Ep as (Hl & Hau & Hr & [Ead Erm] & Hb & Hsw). exists (p_config p).
  destruct (Diff.only_in_spec key (listeners (p_config p)) (current_listeners s)) as (Ka & _).
  destruct (Diff.only_in_spec key (current_listeners s) (listeners (p_config p))) as (Kr & _).
  change (Diff.sort_by_key key _) with (Diff.added (Diff.diff_listeners key (current_listeners s) (listeners (p_config p)))) in Ka.
  change (Diff.sort_by_key key _) with (Diff.removed (Diff.diff_listeners key (current_listeners s) (listeners (p_config p)))) in Kr.
  rewrite <- Ead in Ka. rewrite <- Erm in Kr.
  set (s2 := set_app _ s1). assert (wf s2) as Hw2 by (by destruct Hw).
  destruct (remove_listeners (p_removed p) s2 Hw2) as (Hw3 & _ & (A3 & _ & _ & _ & W3 & _) & _ & Htx & Hsig).
  set (s3 := foldl remove_listener s2 (p_removed p)) in *.
  destruct (remove_certs (removed_certs (p_old_certs p) (p_config p)) s3 Hw3)
    as (Hw4 & _ & (A4 & _ & _ & _ & W4 & _) & Hsig4 & Htx4).
  set (s4 := foldl remove_cert s3 _) in *.
  set (s5 := set_overrides _ s4). assert (wf s5) as Hw5 by (by destruct Hw4).
  destruct (start_all (p_router p) (p_added p) s5 Hw5) as (_ & _ & (A6 & _ & _ & _ & W6 & _) & Hsig6 & Htx6 & Hin & _).
  set (s6 := foldl _ s5 (p_added p)) in *.
  change (app s5) with (app s4) in A6. rewrite A4, A3 in A6. change (swept s5) with (swept s4) in W6. rewrite W4, W3 in W6.
  rewrite A6, W6. cbn. rewrite <- Ea, <- Hsw in *. split_and!; try done.
  - intros k ch Hk Hc. rewrite Htx6. change (stop_accept_txs s5) with (stop_accept_txs s4). rewrite Htx4, Htx. cbn.
    rewrite Hsig6. change (signalled s5) with (signalled s4). rewrite Hsig4, Et.
    destruct (decide (k ∈ key <$> listeners (p_config p))) as [Hn|Hn].
    + rewrite decide_False; [done|]. by intros [_ ?]%Kr.
    + assert (k ∈ key <$> p_removed p) as Hrm by (by apply Kr). rewrite decide_True by done. split; [done|].
      apply (Hsig k); [done|]. cbn. by rewrite Et.
  - intros k Hk Hn. assert (k ∈ key <$> p_added p) as (l & -> & Hadd)%list_elem_of_fmap by (by apply Ka).
    destruct (Hin l Hadd) as [id Hid]. exists id, l. split_and!; [done| |by apply Hb|done].
    rewrite Ead in Hadd. by eapply Diff.added_in.
Qed.

(** C34: whatever the sequence of reloads, upgrades, listeners started and accept
    loops ended, as long as no reload runs while an earlier one's listeners
    are still being started: an accept loop whose address is not configured
    has been told to stop, and the channel of one that has not is where the
    next reload looks for it. *)
Theorem no_orphan_listener boot s s' :
  orderly s → rtc (step boot) s s' →
  ∀ id l ch, live (tasks s') !! id = Some (Work (Accepts l ch)) → ch ∉ signalled s' →
    key l ∈ key <$> current_listeners s' ∧ stop_accept_txs s' !! key l = Some ch.
Proof.
  intros Ho Hr. assert (orderly s') as [_ Hac Hkn _ _].
  { induction Hr as [|s0 s1 s2 Hs _ IH]; [done|]. apply IH. by eapply step_orderly. }
  intros id l ch E Hns. destruct (Hac id l ch E) as [?|Hch]; [done|]. split; [|done]. apply Hkn. by exists ch.
Qed.

(** No reload ends the work of a task: a handle it aborts is that of the
    supervisor, and the renewal, watcher or refresh behind it runs on. *)
Theorem reload_ends_no_work boot env s id j :
  wf s → live (tasks s) !! id = Some (Work j) → live (tasks (reload boot env s).2) !! id = Some (Work j).
Proof.
  intros Hs E. destruct (prepare_quietly boot env s Hs) as [Hw [_ _ _ _ _ _ _ _ He]]. unfold reload.
  destruct (prepare boot env s) as [[p|e] s1]; cbn in *; [|by apply He]. unfold commit.
  set (s2 := set_app _ s1). assert (wf s2) as Hw2 by (by destruct Hw).
  destruct (remove_listeners (p_removed p) s2 Hw2) as (Hw3 & He3 & _).
  set (s3 := foldl remove_listener s2 (p_removed p)) in *.
  destruct (remove_certs (removed_certs (p_old_certs p) (p_config p)) s3 Hw3) as (Hw4 & He4 & _).
  set (s4 := foldl remove_cert s3 _) in *.
  set (s5 := set_overrides _ s4). assert (wf s5) as Hw5 by (by destruct Hw4).
  destruct (start_all (p_router p) (p_added p) s5 Hw5) as (_ & He6 & _).
  by apply He6, He4, He3, He.
Qed.

End reload.

(** * A server that reloads *)

Module Demo.
Import Kdl.Kdl ConfigOk.Demo Build.Demo.

#[local] Existing Instances Access.host_nets RateLimit.exact_f64 ConfigOk.Demo.demo_env Build.Demo.text_uris.

Definition sa_text (a : ProxyProto.SocketAddr) : string := "[::]:" +:+ dec (ProxyProto.sa_port a).
Definition debug_auth (a : option ParseAuth.AuthBackend) : string := match a with Some _ => "Some" | None => "None" end.
Definition debug_source (t : ParseTls.TlsConfig) : string :=
  match t with
  | ParseTls.Files c k => "Files " +:+ c +:+ " " +:+ k
  | ParseTls.SelfSigned => "SelfSigned"
  | ParseTls.Acme _ => "Acme"
  | ParseTls.Ref n => "Ref " +:+ n
  end.

(** The versions of the file. *)
Definition texts (s : string) : option (list (KdlNode (@f64 RateLimit.exact_f64))) :=
  if String.eqb s "one" then Some greeting
  else if String.eqb s "two" then Some (leaf "listener" [a "tcp://81"] :: greeting)
  else if String.eqb s "acme" then
    Some (leaf "server" [kv "state-dir" "/var/lib/hs"]
          :: block "certificate" [a "main"] [block "tls" [a "acme"] [leaf "domain" [a "a.example"]]] :: greeting)
  else None.

Abbreviation server := (Server (CertSource := nat) (Reader := unit) (Carried := unit)) (only parsing).
Abbreviation reload := (reload texts no_picks (λ _, true) sa_text debug_auth debug_source (CertSource := nat)
  (Reader := unit) (Carried := unit)) (only parsing).
Abbreviation start_listener := (start_listener sa_text (CertSource := nat) (Reader := unit) (Carried := unit))
  (only parsing).

(** The world while the file has a given text. *)
Definition world (text : string) (binds : bool) : Env (CertSource := nat) (Reader := unit) :=
  {| read_file _ := Some text; geoip_open _ := Ok tt; log_open _ := true; bind_socket _ := binds; acme_issued _ := true;
     cert_load _ := Ok 0%nat; fallback := Ok 1%nat; verifier _ := true; alpn_map _ := true |}.

Definition boot (dir : option string) : Boot := {| config_path := "/etc/hs.kdl"; boot_state_dir := dir |}.

Definition first_router : Build.Router :=
  match Build.router_new no_picks (λ _, true) sa_text loaded with
  | Some (Ok rt) => rt
  | _ => {| Build.tables := ∅; Build.named_policies := ∅; Build.pools := [] |}
  end.

Definition port_80 : ListenerConfig := default no_listener (head (listeners loaded)).

(** Started with the first version: one accept loop. *)
Definition booted : server :=
  {| current_listeners := listeners loaded; auth_fingerprint := "None";
     app := {| router := first_router; app_geoip := None;
               app_health := Health.from_config health_default []; app_error_pages := ∅;
               app_access_log := AccessLog.tracing_default; carried := tt |};
     swept := first_router; cert_registry := ∅; cert_source_fingerprints := ∅; vhost_alpn_overrides := [];
     stop_accept_txs := {[key sa_text port_80 := 0%nat]}; signalled := ∅; next_chan := 1; listener_helpers := ∅;
     cert_helpers := ∅; tasks := {| next := 1; live := {[0%nat := Work (Accepts port_80 0)]} |} |}.

Lemma booted_wf : wf booted.
Proof.
  split; [|apply map_Forall_empty..]. intros id t E. cbn in E. apply lookup_singleton_Some in E as [<- _]. by apply Nat.ltb_lt.
Qed.

Lemma booted_orderly : orderly sa_text booted.
Proof.
  split; [apply booted_wf|..]; cbn [booted tasks live signalled stop_accept_txs current_listeners].
  - intros id l ch [<- [= <- <-]]%lookup_singleton_Some. right. apply lookup_singleton_eq.
  - intros k [ch [<- _]%lookup_singleton_Some]. apply list_elem_of_fmap_2. vm_compute. by left.
  - by intros id l rt [<- ?]%lookup_singleton_Some.
  - by intros i j l l' rt rt' [<- ?]%lookup_singleton_Some.
Qed.

Definition refused (e : Ended) : bool := match e with Returned (ParseError _) => true | _ => false end.
Definition applied (e : Ended) : bool := match e with Returned Applied => true | _ => false end.
Definition panicked (e : Ended) : bool := match e with Panicked => true | _ => false end.

Lemma two_refused : refused (reload (boot None) (world "two" false) booted).1 = true.
Proof. vm_compute. reflexivity. Qed.

Lemma two_applied : applied (reload (boot None) (world "two" true) booted).1 = true.
Proof. vm_compute. reflexivity. Qed.

(** The second version cannot be bound: the first is still served. *)
Lemma failed_reload_keeps_serving_witness :
  app (reload (boot None) (world "two" false) booted).2 = app booted.
Proof.
  destruct (failed_reload_keeps_serving texts no_picks (λ _, true) sa_text debug_auth debug_source (boot None)
    (world "two" false) booted) as (E & _); [apply booted_wf| |exact E].
  intros E. pose proof two_refused as Hr. rewrite E in Hr. discriminate Hr.
Defined.

(** The second version is applied: its new listener is being started. *)
Lemma reload_applied_witness :
  ∃ c, parse_named texts "two" "/etc/hs.kdl" = Some (Ok c) ∧
    current_listeners (reload (boot None) (world "two" true) booted).2 = listeners c.
Proof.
  destruct (reload_applied texts no_picks (λ _, true) sa_text debug_auth debug_source (boot None)
    (world "two" true) booted) as (c & Hl & _ & _ & _ & _ & E & _); [apply booted_wf| |exists c; split; [exact Hl|exact E]].
  pose proof two_applied as Ha. destruct (reload _ _ _).1 as [[| |]|]; [reflexivity|discriminate Ha..].
Defined.

(** The accept loop of port 80 is one of the running configuration. *)
Lemma no_orphan_listener_witness :
  key sa_text port_80 ∈ key sa_text <$> current_listeners booted.
Proof.
  apply (no_orphan_listener texts no_picks (λ _, true) sa_text debug_auth debug_source (boot None) booted booted
    booted_orderly (rtc_refl _ _) 0%nat port_80 0%nat); [reflexivity|apply not_elem_of_empty].
Defined.

Lemma reload_ends_no_work_witness :
  live (tasks (reload (boot None) (world "two" true) booted).2) !! 0%nat = Some (Work (Accepts port_80 0)).
Proof.
  apply (reload_ends_no_work texts no_picks (λ _, true) sa_text debug_auth debug_source); [apply booted_wf|reflexivity].
Defined.

(** ** Departures *)

(** A state directory and an ACME certificate added by a reload: the
    directory of the start-up is used, there is none, and the reload panics. *)
Example acme_added_on_reload_panics :
  panicked (reload (boot None) (world "acme" true) booted).1 = true.
Proof. vm_compute. reflexivity. Qed.

(** The rate limiters the eviction task sweeps are already those of the
    refused configuration, here of a router with one table more. *)
Example refused_reload_moves_limiters :
  size (Build.tables (swept (reload (boot None) (world "two" false) booted).2)) = 2%nat ∧
  size (Build.tables (router (app (reload (boot None) (world "two" false) booted).2))) = 1%nat.
Proof. vm_compute. done. Qed.

(** A certificate added, then removed again: its handle is gone and its
    renewal is not. *)
Definition with_cert : server := (reload (boot (Some "/var/lib/hs")) (world "acme" true) booted).2.
Definition without_cert : server := (reload (boot (Some "/var/lib/hs")) (world "one" true) with_cert).2.

Definition renews (t : option Task) : bool := match t with Some (Work Renewal) => true | _ => false end.

Example removed_renewal_runs_on :
  bool_decide (is_Some (cert_helpers without_cert !! "main")) = false ∧ renews (live (tasks without_cert) !! 1%nat) = true.
Proof. vm_compute. done. Qed.

(** A listener added and, before its task has had a turn, removed again: it
    starts all the same, and nobody holds its address. *)
Definition added : server := (reload (boot None) (world "two" true) booted).2.
Definition removed : server := (reload (boot None) (world "one" true) added).2.
Definition late : server := start_listener (boot None) (world "one" true) 1 removed.

Example removed_listener_starts_late :
  match live (tasks late) !! 1%nat with
  | Some (Work (Accepts l ch)) =>
      bool_decide (key sa_text l ∈ key sa_text <$> current_listeners late) = false ∧
      bool_decide (ch ∈ signalled late) = false
  | _ => False
  end.
Proof. vm_compute. done. Qed.

End Demo.

End Reload.
