(* ===== verification/Acme.v ===== *)
(** ACME certificates ([src/cert/acme.rs], [src/cert/acme_alpn.rs],
    [src/cert/state.rs]): how an order is validated and what it leaves behind,
    how a certificate is put on disk, when it is renewed, and which
    certificate a handshake is given.

    The certificate authority, the DNS provider and the X.509 parser are
    parameters; the file system is a map of directories on which operations
    can be interrupted. *)
From S2P Require Import Prelude RustStr ParseTls.

Module Acme.
Import ParseTls.

(** * Settings *)

Definition cert_name (a : AcmeConfig) : option string :=
  first ← head (domains a); Some (default first (acme_name a)).

(** [env_staging] is whether HYPERSHUNT_ACME_STAGING is set. *)
Definition is_staging (a : AcmeConfig) (env_staging : bool) : bool := staging a || env_staging.

Inductive Directory := Custom (url : string) | LetsEncryptStaging | LetsEncryptProduction.

Definition acme_server_url (a : AcmeConfig) (env_staging : bool) : Directory :=
  match acme_server a with
  | Some url => Custom url
  | None => if is_staging a env_staging then LetsEncryptStaging else LetsEncryptProduction
  end.

(** * Validation *)

(** An authorization as the authority reports it, and how the steps on it go:
    whether it could be fetched and is valid already, whether the challenge is
    offered, its answer could be put in place and be announced. *)
Record Authz := {
  az_fetched : bool;
  az_valid : bool;
  az_domain : string;
  az_offered : bool;
  az_token : string;
  az_key_auth : string;
  az_installed : bool;
  az_ready : bool;
}.

(** The answers in place: HTTP-01 tokens, TXT records, TLS-ALPN-01
    certificates by name. *)
Record Answers := {
  http : gmap string string;
  txt : list (string * string);
  alpn : gmap string string;
}.

Inductive Installed :=
  | Token (t : string)
  | Txt (fqdn value : string)
  | Sni (domain : string).

#[global] Instance Installed_eq_dec : EqDecision Installed.
Proof. solve_decision. Defined.

Definition trim_wildcard (domain : string) : string := default domain (strip_prefix "*." domain).

Section order.
(** The challenge; whether there is a DNS provider and a certificate store;
    the record value and the digest of a key authorization. *)
Context (kind : ChallengeKind) (has_provider has_store : bool) (dns_value digest : string → string).

(** One challenge, answered as its kind demands. *)
Definition install (az : Authz) (s : Answers) : Result (Installed * Answers) :=
  match kind with
  | Http01 =>
      Ok (Token (az_token az), {| http := <[az_token az := az_key_auth az]> (http s); txt := txt s; alpn := alpn s |})
  | Dns01 =>
      if negb has_provider then Err "DNS-01 selected but no dns-provider configured"
      else if negb (az_installed az) then Err "publishing TXT"
      else
        let fqdn := "_acme-challenge." +:+ trim_wildcard (az_domain az) in
        let v := dns_value (az_key_auth az) in
        Ok (Txt fqdn v, {| http := http s; txt := (fqdn, v) :: txt s; alpn := alpn s |})
  | TlsAlpn01 =>
      if negb has_store then Err "TLS-ALPN-01 selected but no challenge store attached"
      else if negb (az_installed az) then Err "building TLS-ALPN-01 challenge cert"
      else Ok (Sni (az_domain az),
               {| http := http s; txt := txt s; alpn := <[az_domain az := digest (az_key_auth az)]> (alpn s) |})
  end.

Fixpoint register (azs : list Authz) (s : Answers) (cleanup : list Installed) : Result (list Installed) * Answers :=
  match azs with
  | [] => (Ok cleanup, s)
  | az :: azs' =>
      if negb (az_fetched az) then (Err "fetching authorization", s)
      else if az_valid az then register azs' s cleanup
      else if negb (az_offered az) then (Err "no such challenge", s)
      else match install az s with
           | Err e => (Err e, s)
           | Ok (i, s) =>
               if az_ready az then register azs' s (cleanup ++ [i]) else (Err "setting challenge ready", s)
           end
  end.

(** [ChallengeCleanup::run]; [cleared] is whether the provider clears the
    record. *)
Definition take_down (cleared : bool) (s : Answers) (i : Installed) : Answers :=
  match i with
  | Token t => {| http := delete t (http s); txt := txt s; alpn := alpn s |}
  | Sni d => {| http := http s; txt := txt s; alpn := delete d (alpn s) |}
  | Txt f v =>
      {| http := http s; alpn := alpn s;
         txt := if cleared then List.filter (λ r, negb (String.eqb r.1 f && String.eqb r.2 v)) (txt s) else txt s |}
  end.

Inductive OrderStatus := Pending | Ready | Invalid.
Inductive PollEnd := IsReady | IsInvalid | PollFails | StillPolling.

(** The polls of the order, [None] being one that fails. *)
Fixpoint poll (ps : list (option OrderStatus)) : PollEnd :=
  match ps with
  | [] => StillPolling
  | None :: _ => PollFails
  | Some Ready :: _ => IsReady
  | Some Invalid :: _ => IsInvalid
  | Some Pending :: ps' => poll ps'
  end.

Inductive Provisioned :=
  | Issued (cert key : string)
  | Refused (why : string)
  | Waiting.

(** [RealProvisioner::provision]. *)
Definition provision (account : Result unit) (order : Result (list Authz)) (polls : list (option OrderStatus))
    (cleared : bool) (finalized : Result (string * string)) (s : Answers) : Provisioned * Answers :=
  match (_ ← account; order) with
  | Err e => (Refused e, s)
  | Ok azs =>
      match register azs s [] with
      | (Err e, s) => (Refused e, s)
      | (Ok cleanup, s) =>
          let clean := foldl (take_down cleared) s cleanup in
          match poll polls with
          | StillPolling => (Waiting, s)
          | PollFails => (Refused "polling order", s)
          | IsInvalid => (Refused "ACME order invalid", clean)
          | IsReady =>
              (match finalized with Ok (cert, key) => Issued cert key | Err e => Refused e end, clean)
          end
      end
  end.

End order.

(** ** What an order leaves behind *)

Section cleanup.
Context (kind : ChallengeKind) (has_provider has_store : bool) (dns_value digest : string → string).
Local Abbreviation reg := (register kind has_provider has_store dns_value digest).

(** Nothing but what is listed differs from [s0]. *)
Definition accounted (s0 s : Answers) (cleanup : list Installed) : Prop :=
  (∀ t, Token t ∉ cleanup → http s !! t = http s0 !! t) ∧
  (∀ d, Sni d ∉ cleanup → alpn s !! d = alpn s0 !! d) ∧
  (∀ r, r ∈ txt s → r ∈ txt s0 ∨ Txt r.1 r.2 ∈ cleanup).

Lemma install_accounted az s0 s i s' cleanup :
  install kind has_provider has_store dns_value digest az s = Ok (i, s') →
  accounted s0 s cleanup → accounted s0 s' (cleanup ++ [i]).
Proof.
  intros Hi (Hh & Ha & Ht). unfold install in Hi.
  destruct kind; repeat (case_match; [|]); simplify_eq; split_and!; cbn; intros x;
    rewrite ?elem_of_app, ?list_elem_of_singleton, ?elem_of_cons;
    repeat match goal with
    | |- context [<[?k := _]> _ !! ?x] => destruct (decide (k = x)) as [->|];
        [rewrite ?lookup_insert_eq|rewrite ?lookup_insert_ne by done]
    end; naive_solver.
Qed.

Lemma register_accounted azs s0 s cleanup :
  accounted s0 s cleanup →
  ∀ cleanup' s', reg azs s cleanup = (Ok cleanup', s') → accounted s0 s' cleanup'.
Proof.
  revert s cleanup. induction azs as [|az azs IH]; intros s cleanup Hacc cleanup' s' Hr; cbn in Hr; [by simplify_eq|].
  destruct (az_fetched az); cbn in Hr; [|done]. destruct (az_valid az); [by eauto|].
  destruct (az_offered az); cbn in Hr; [|done].
  destruct (install kind has_provider has_store dns_value digest az s) as [[i s1]|e] eqn:Hi; [|done].
  destruct (az_ready az); [|done]. eapply IH; [|done]. by eapply install_accounted.
Qed.

End cleanup.

(** What is taken down stays down, and nothing else changes. *)
Lemma take_down_all cleared cleanup s :
  let s' := foldl (take_down cleared) s cleanup in
  (∀ t, http s' !! t = if decide (Token t ∈ cleanup) then None else http s !! t) ∧
  (∀ d, alpn s' !! d = if decide (Sni d ∈ cleanup) then None else alpn s !! d) ∧
  (∀ r, r ∈ txt s' ↔ r ∈ txt s ∧ (cleared = true → Txt r.1 r.2 ∉ cleanup)).
Proof.
  cbn. revert s. induction cleanup as [|i cleanup IH]; intros s; cbn [foldl].
  { split_and!; intros; rewrite ?decide_False by apply not_elem_of_nil; [done..|]. set_solver. }
  destruct (IH (take_down cleared s i)) as (Hh & Ha & Ht). clear IH. split_and!.
  - intros t. rewrite Hh. destruct (decide (Token t ∈ cleanup)).
    { by rewrite decide_True by set_solver. }
    destruct i as [t'|f v|d]; cbn; [destruct (decide (t' = t)) as [->|]|..].
    + rewrite lookup_delete_eq, decide_True by set_solver. done.
    + rewrite lookup_delete_ne, decide_False by set_solver. done.
    + by rewrite decide_False by set_solver.
    + by rewrite decide_False by set_solver.
  - intros d. rewrite Ha. destruct (decide (Sni d ∈ cleanup)).
    { by rewrite decide_True by set_solver. }
    destruct i as [t'|f v|d']; cbn; [..|destruct (decide (d' = d)) as [->|]].
    + by rewrite decide_False by set_solver.
    + by rewrite decide_False by set_solver.
    + rewrite lookup_delete_eq, decide_True by set_solver. done.
    + rewrite lookup_delete_ne, decide_False by set_solver. done.
  - intros [f v]. rewrite Ht. cbn [fst snd]. rewrite not_elem_of_cons.
    destruct i as [t'|f' v'|d']; cbn; [by naive_solver| |by naive_solver].
    destruct cleared; [|by naive_solver]. rewrite list_elem_of_In, List.filter_In, <- list_elem_of_In, negb_true_iff, andb_false_iff, !String.eqb_neq.
    cbn. clear Hh Ha Ht. split.
    + intros [[Hr Hn] Hc]. split; [done|]. intros _. split; [|auto]. intros E. injection E as -> ->. by destruct Hn.
    + intros [Hr Hc]. destruct (Hc eq_refl) as [Hne Hnc]. split; [|done]. split; [done|].
      destruct (decide (f = f')) as [->|]; [|by left]. right. congruence.
Qed.

(** An order that is issued, refused by the authority or fails to be finalized
    leaves none of its answers: every HTTP-01 token and TLS-ALPN-01
    certificate it put in place is gone, and when the provider clears records
    every TXT record too; answers of other orders are as they were. *)
Theorem order_leaves_nothing (kind : ChallengeKind) (hp hs : bool) (dns_value digest : string → string)
    (azs : list Authz) (polls : list (option OrderStatus)) (finalized : Result (string * string)) (s s' : Answers)
    (cleanup : list Installed) (o : Provisioned) :
  (register kind hp hs dns_value digest azs s []).1 = Ok cleanup →
  poll polls = IsReady ∨ poll polls = IsInvalid →
  provision kind hp hs dns_value digest (Ok tt) (Ok azs) polls true finalized s = (o, s') →
  (∀ t, http s' !! t = if decide (Token t ∈ cleanup) then None else http s !! t) ∧
  (∀ d, alpn s' !! d = if decide (Sni d ∈ cleanup) then None else alpn s !! d) ∧
  (∀ r, r ∈ txt s' → r ∈ txt s ∧ Txt r.1 r.2 ∉ cleanup).
Proof.
  intros Hr Hp Hpr. unfold provision in Hpr. cbn in Hpr.
  destruct (register kind hp hs dns_value digest azs s []) as [[c|e] s1] eqn:E; cbn in Hr; [|done]. injection Hr as ->.
  assert (accounted s s []) as H0 by (split_and!; auto).
  destruct (register_accounted _ _ _ _ _ _ _ _ _ H0 _ _ E) as (Hh & Ha & Ht).
  assert (s' = foldl (take_down true) s1 cleanup) as -> by (destruct Hp as [Hp|Hp]; rewrite Hp in Hpr; congruence).
  destruct (take_down_all true cleanup s1) as (Hh' & Ha' & Ht'). split_and!.
  - intros t. rewrite Hh'. case_decide; auto.
  - intros d. rewrite Ha'. case_decide; auto.
  - intros r [Hr Hn]%Ht'. destruct (Ht _ Hr); [by auto|]. by destruct Hn.
Qed.

(** ** The certificate of a handshake *)

(** [AlpnAwareResolver::resolve]. *)
Definition resolve {cert} (store : gmap string cert) (production : cert) (protocols : option (list string))
    (sni : option string) : cert :=
  let wants := match protocols with Some ps => existsb (λ p, String.eqb p "acme-tls/1") ps | None => false end in
  match sni with
  | Some n => if wants then default production (store !! n) else production
  | None => production
  end.

(** * Storage *)

Record File := {
  contents : string;
  mode : N;
}.

Abbreviation Dir := (gmap string File) (only parsing).
(** The directories below [certs]. *)
Abbreviation Fs := (gmap string (gmap string File)) (only parsing).

Inductive Op :=
  | RemoveAll (d : string)
  | CreateDir (d : string)
  | WriteFile (d f data : string)
  | WritePrivate (d f data : string) (m : N)
  | Rename (a b : string).

(** What an operation that succeeds makes of the files. *)
Definition after (op : Op) (fs fs' : Fs) : Prop :=
  match op with
  | RemoveAll d => fs' = delete d fs
  | CreateDir d => fs' = <[d := default ∅ (fs !! d)]> fs
  | WriteFile d f data =>
      ∃ dir m, fs !! d = Some dir ∧ fs' = <[d := <[f := {| contents := data; mode := m |}]> dir]> fs
  | WritePrivate d f data m =>
      ∃ dir, fs !! d = Some dir ∧ fs' = <[d := <[f := {| contents := data; mode := m |}]> dir]> fs
  | Rename a b => ∃ dir, fs !! a = Some dir ∧ default ∅ (fs !! b) = ∅ ∧ fs' = <[b := dir]> (delete a fs)
  end.

(** What it may leave when it is interrupted or fails: a removal some of the
    files, a write some of the data; a rename happens or does not. *)
Definition during (op : Op) (fs fs' : Fs) : Prop :=
  fs' = fs ∨
  match op with
  | RemoveAll d => fs' = delete d fs ∨ ∃ dir dir', fs !! d = Some dir ∧ dir' ⊆ dir ∧ fs' = <[d := dir']> fs
  | CreateDir d => after op fs fs'
  | WriteFile d f data | WritePrivate d f data _ =>
      ∃ dir k m, fs !! d = Some dir ∧ fs' = <[d := <[f := {| contents := str_take k data; mode := m |}]> dir]> fs
  | Rename a b => after op fs fs'
  end.

(** Operations in order: the failure of a strict one ends the whole, that of
    another is ignored. *)
Inductive Prog :=
  | Done
  | Seq (strict : bool) (op : Op) (k : Prog)
  | IfDir (d : string) (yes no : Prog).

(** The files at some moment of a run, interrupted there or not. *)
Fixpoint sees (p : Prog) (fs fs' : Fs) : Prop :=
  match p with
  | Done => fs' = fs
  | Seq strict op k =>
      during op fs fs' ∨ (∃ fs1, after op fs fs1 ∧ sees k fs1 fs') ∨
      (strict = false ∧ ∃ fs1, during op fs fs1 ∧ sees k fs1 fs')
  | IfDir d yes no => if decide (is_Some (fs !! d)) then sees yes fs fs' else sees no fs fs'
  end.

(** The files at the end of a run that succeeded. *)
Fixpoint completes (p : Prog) (fs fs' : Fs) : Prop :=
  match p with
  | Done => fs' = fs
  | Seq strict op k =>
      (∃ fs1, after op fs fs1 ∧ completes k fs1 fs') ∨
      (strict = false ∧ ∃ fs1, during op fs fs1 ∧ completes k fs1 fs')
  | IfDir d yes no => if decide (is_Some (fs !! d)) then completes yes fs fs' else completes no fs fs'
  end.

Definition staging_dir (name : string) : string := name +:+ ".new".
Definition old_dir (name : string) : string := name +:+ ".old".

Definition move_in (name : string) : Prog :=
  Seq true (Rename (staging_dir name) name) (Seq false (RemoveAll (old_dir name)) Done).

Definition atomic_write_cert_dir (name cert key : string) (m : N) : Prog :=
  Seq false (RemoveAll (staging_dir name))
    (Seq true (CreateDir (staging_dir name))
      (Seq true (WriteFile (staging_dir name) "cert.pem" cert)
        (Seq true (WritePrivate (staging_dir name) "key.pem" key m)
          (IfDir name
            (Seq false (RemoveAll (old_dir name)) (Seq true (Rename name (old_dir name)) (move_in name)))
            (move_in name))))).

(** A certificate and its key as stored. *)
Definition stored (fs : Fs) (name : string) : option (string * string) :=
  dir ← fs !! name; c ← dir !! "cert.pem"; k ← dir !! "key.pem"; Some (contents c, contents k).

(** ** Crash safety *)

Lemma app_longer (s t : string) : t ≠ "" → s +:+ t ≠ s.
Proof.
  intros Ht E. apply (f_equal String.length) in E. rewrite str_length_app in E. destruct t; [done|]. cbn in E. lia.
Qed.

Lemma dirs_apart name : staging_dir name ≠ name ∧ old_dir name ≠ name ∧ staging_dir name ≠ old_dir name.
Proof.
  split_and!; [by apply app_longer..|]. unfold staging_dir, old_dir. intros E.
  induction name as [|c s IH]; [done|]. rewrite !str_app_cons in E. injection E as E. auto.
Qed.

(** The directory an operation may change. *)
Definition touches (op : Op) (d : string) : Prop :=
  match op with
  | RemoveAll d' | CreateDir d' | WriteFile d' _ _ | WritePrivate d' _ _ _ => d' = d
  | Rename a b => a = d ∨ b = d
  end.

Lemma after_other op fs fs' d : after op fs fs' → ¬ touches op d → fs' !! d = fs !! d.
Proof.
  intros Ha Ht. destruct op as [d'|d'|d' f data|d' f data m|a b]; cbn in *.
  - subst. by rewrite lookup_delete_ne.
  - subst. by rewrite lookup_insert_ne.
  - destruct Ha as (? & ? & _ & ->). by rewrite lookup_insert_ne.
  - destruct Ha as (? & _ & ->). by rewrite lookup_insert_ne.
  - destruct Ha as (? & _ & _ & ->). rewrite lookup_insert_ne, lookup_delete_ne by naive_solver. done.
Qed.

Lemma during_other op fs fs' d : during op fs fs' → ¬ touches op d → fs' !! d = fs !! d.
Proof.
  intros [->|Hd] Ht; [done|]. destruct op as [d'|d'|d' f data|d' f data m|a b].
  - destruct Hd as [->|(? & ? & _ & _ & ->)]; [by rewrite lookup_delete_ne|by rewrite lookup_insert_ne].
  - by eapply (after_other (CreateDir d')).
  - destruct Hd as (? & ? & ? & _ & ->). by rewrite lookup_insert_ne.
  - destruct Hd as (? & ? & ? & _ & ->). by rewrite lookup_insert_ne.
  - by eapply (after_other (Rename a b)).
Qed.

(** Reasoning step by step: [G] at every moment, [J] before the rest. *)
Lemma sees_step (I J G : Fs → Prop) strict op k :
  (∀ fs fs', I fs → during op fs fs' → G fs') →
  (∀ fs fs1, I fs → after op fs fs1 → J fs1) →
  (strict = false → ∀ fs fs1, I fs → during op fs fs1 → J fs1) →
  (∀ fs fs', J fs → sees k fs fs' → G fs') →
  ∀ fs fs', I fs → sees (Seq strict op k) fs fs' → G fs'.
Proof. intros Hg Ha Hd Hk fs fs' HI [?|[(fs1 & ? & ?)|(? & fs1 & ? & ?)]]; eauto. Qed.

Lemma sees_if d yes no fs fs' :
  sees (IfDir d yes no) fs fs' = if decide (is_Some (fs !! d)) then sees yes fs fs' else sees no fs fs'.
Proof. done. Qed.

Section crash.
Context (name cert key : string) (m : N) (fs0 : Fs).

Definition new_pair (dir : Dir) : Prop :=
  contents <$> dir !! "cert.pem" = Some cert ∧ dir !! "key.pem" = Some {| contents := key; mode := m |}.

(** What a reader finds in the place of the certificate. *)
Definition live_ok (fs : Fs) : Prop :=
  fs !! name = fs0 !! name ∨ fs !! name = None ∨ ∃ dir, fs !! name = Some dir ∧ new_pair dir.

Definition ready (fs : Fs) : Prop := ∃ dir, fs !! staging_dir name = Some dir ∧ new_pair dir.

Lemma move_in_ok fs fs' : fs !! name = None → ready fs → sees (move_in name) fs fs' → live_ok fs'.
Proof.
  destruct (dirs_apart name) as (Hs & Ho & Hso). intros Hn Hr.
  apply (sees_step (λ fs, fs !! name = None ∧ ready fs) (λ fs, ∃ dir, fs !! name = Some dir ∧ new_pair dir)
    live_ok); [| |done| |by split].
  - intros f f' [E (dir & Ed & Hp)] [->|(dir' & Ed' & _ & ->)]; [by right; left|]. right. right.
    rewrite lookup_insert_eq. assert (dir' = dir) as -> by congruence. eauto.
  - intros f f1 [E (dir & Ed & Hp)] (dir' & Ed' & _ & ->). rewrite lookup_insert_eq.
    assert (dir' = dir) as -> by congruence. eauto.
  - intros f f'. apply (sees_step (λ fs, ∃ dir, fs !! name = Some dir ∧ new_pair dir)
      (λ fs, ∃ dir, fs !! name = Some dir ∧ new_pair dir) live_ok).
    + intros f1 f2 Hd E%(during_other _ _ _ name); [|done]. right. right. by rewrite E.
    + intros f1 f2 Hd E%(after_other _ _ _ name); [|done]. by rewrite E.
    + intros _ f1 f2 Hd E%(during_other _ _ _ name); [|done]. by rewrite E.
    + intros f1 f2 Hd ->. by right; right.
Qed.

Lemma write_ok fs' : sees (atomic_write_cert_dir name cert key m) fs0 fs' → live_ok fs'.
Proof.
  destruct (dirs_apart name) as (Hs & Ho & Hso). set (A := λ fs : Fs, fs !! name = fs0 !! name).
  set (B := λ fs : Fs, A fs ∧ ∃ dir, fs !! staging_dir name = Some dir ∧ contents <$> dir !! "cert.pem" = Some cert).
  set (C := λ fs : Fs, A fs ∧ ready fs).
  assert (∀ op fs1 fs2, A fs1 → during op fs1 fs2 → ¬ touches op name → A fs2) as Hd.
  { intros op f1 f2 HA E Ht. unfold A. by rewrite (during_other _ _ _ _ E Ht). }
  assert (∀ op fs1 fs2, A fs1 → after op fs1 fs2 → ¬ touches op name → A fs2) as Ha.
  { intros op f1 f2 HA E Ht. unfold A. by rewrite (after_other _ _ _ _ E Ht). }
  apply (sees_step A A live_ok); [|by eauto|by eauto| |done].
  { intros f1 f2 HA E. left. by eapply Hd. }
  apply (sees_step A A live_ok); [|by eauto|done|].
  { intros f1 f2 HA E. left. by eapply Hd. }
  apply (sees_step A B live_ok); [| |done|].
  { intros f1 f2 HA E. left. by eapply Hd. }
  { intros f1 f2 HA E. split; [by eapply Ha|]. destruct E as (dir & m' & _ & ->). rewrite lookup_insert_eq.
    eexists. split; [done|]. by rewrite lookup_insert_eq. }
  apply (sees_step B C live_ok); [| |done|].
  { intros f1 f2 [HA _] E. left. by eapply Hd. }
  { intros f1 f2 [HA (dir & Ed & Hc)] E. split; [by eapply Ha|]. destruct E as (dir' & Ed' & ->).
    assert (dir' = dir) as -> by congruence. eexists. split; [apply lookup_insert_eq|]. split; [|apply lookup_insert_eq].
    by rewrite lookup_insert_ne. }
  intros fs f' [HA Hr]. rewrite sees_if. case_decide as Hex.
  2:{ apply move_in_ok; [by apply eq_None_not_Some|done]. }
  revert HA Hr. generalize fs, f'. clear Hex fs f'. intros fs f' HA Hr.
  assert (∀ op f1 f2, ready f1 → during op f1 f2 → ¬ touches op (staging_dir name) → ready f2) as Hdr.
  { intros op f1 f2 (dir & E & Hp) Hop Ht. exists dir. by rewrite (during_other _ _ _ _ Hop Ht). }
  assert (∀ op f1 f2, ready f1 → after op f1 f2 → ¬ touches op (staging_dir name) → ready f2) as Har.
  { intros op f1 f2 (dir & E & Hp) Hop Ht. exists dir. by rewrite (after_other _ _ _ _ Hop Ht). }
  apply (sees_step C C live_ok); [| | | |by split].
  - intros f1 f2 [HA1 _] E. left. by eapply Hd.
  - intros f1 f2 [HA1 Hr1] E. split; [by eapply Ha|]. eapply Har; [done..|]. cbn. congruence.
  - intros _ f1 f2 [HA1 Hr1] E. split; [by eapply Hd|]. eapply Hdr; [done..|]. cbn. congruence.
  - apply (sees_step C (λ fs, fs !! name = None ∧ ready fs) live_ok); [| |done|].
    + intros f1 f2 [HA1 _] [->|(dir & _ & _ & ->)]; [by left|]. right. left. rewrite lookup_insert_ne by done. apply lookup_delete_eq.
    + intros f1 f2 [HA1 Hr1] E. split; [|eapply Har; [done..|cbn; naive_solver]]. destruct E as (dir & _ & _ & ->).
      rewrite lookup_insert_ne by done. apply lookup_delete_eq.
    + intros f1 f2 [Hn Hr1]. by apply move_in_ok.
Qed.

End crash.

(** Directories the certificate does not use are left alone. *)
Lemma sees_other p d fs fs' :
  (fix untouched (p : Prog) : Prop :=
     match p with
     | Done => True
     | Seq _ op k => ¬ touches op d ∧ untouched k
     | IfDir _ yes no => untouched yes ∧ untouched no
     end) p →
  sees p fs fs' → fs' !! d = fs !! d.
Proof.
  revert fs. induction p as [|strict op k IH|c yes IHy no IHn]; intros fs Hu Hs.
  - by rewrite Hs.
  - destruct Hu as [Ht Hu], Hs as [Hd|[(fs1 & Ha & Hk)|(_ & fs1 & Hd & Hk)]].
    + by eapply during_other.
    + rewrite (IH _ Hu Hk). by eapply after_other.
    + rewrite (IH _ Hu Hk). by eapply during_other.
  - destruct Hu as [Hy Hn]. cbn in Hs. case_decide; auto.
Qed.

Lemma completes_sees p fs fs' : completes p fs fs' → sees p fs fs'.
Proof.
  revert fs. induction p as [|strict op k IH|c yes IHy no IHn]; intros fs Hc; [done| |].
  - destruct Hc as [(fs1 & Ha & Hk)|(-> & fs1 & Hd & Hk)]; [right; left|right; right; split; [done|]]; eauto.
  - cbn in *. case_decide; auto.
Qed.

(** A write that succeeds leaves the new pair: it ends with the rename and a
    removal elsewhere. *)
Lemma move_in_done name fs fs' :
  completes (move_in name) fs fs' → ∃ dir, fs !! staging_dir name = Some dir ∧ fs' !! name = Some dir.
Proof.
  destruct (dirs_apart name) as (_ & Ho & _).
  intros [(fs1 & (dir & E & _ & ->) & Hc)|(? & _)]; [|done]. exists dir. split; [done|].
  rewrite <- (lookup_insert_eq (delete (staging_dir name) fs) name dir).
  destruct Hc as [(fs2 & Ha & ->)|(_ & fs2 & Hd & ->)]; [by eapply after_other|by eapply during_other].
Qed.

Lemma write_done name cert key m fs fs' :
  completes (atomic_write_cert_dir name cert key m) fs fs' → ∃ dir, fs' !! name = Some dir ∧ new_pair cert key m dir.
Proof.
  destruct (dirs_apart name) as (Hs & Ho & Hso). unfold atomic_write_cert_dir.
  intros Hc. assert (∃ f1, completes (Seq true (CreateDir (staging_dir name))
      (Seq true (WriteFile (staging_dir name) "cert.pem" cert) (Seq true (WritePrivate (staging_dir name) "key.pem" key m)
      (IfDir name (Seq false (RemoveAll (old_dir name)) (Seq true (Rename name (old_dir name)) (move_in name)))
      (move_in name))))) f1 fs') as (f1 & Hc1) by (destruct Hc as [(f1 & _ & ?)|(_ & f1 & _ & ?)]; eauto).
  clear Hc. destruct Hc1 as [(f2 & _ & [(f3 & (dir & m' & _ & ->) & [(f4 & (dir' & E & ->) & Hif)|[? _]])|[? _]])|[? _]];
    [|done..].
  rewrite lookup_insert_eq in E. injection E as <-. set (full := <["key.pem" := _]> _) in Hif.
  assert (new_pair cert key m full) as Hp.
  { unfold full. split; [|apply lookup_insert_eq]. by rewrite lookup_insert_ne, lookup_insert_eq. }
  enough (∃ dir, full = dir ∧ fs' !! name = Some dir) as (? & <- & ?) by eauto.
  cbn [completes] in Hif. case_decide.
  - assert (∃ f5, f5 !! staging_dir name = Some full ∧ completes (Seq true (Rename name (old_dir name)) (move_in name)) f5 fs')
      as (f5 & Ef & [(f6 & Ha & Hm)|[? _]]); [|  |done].
    { destruct Hif as [(f5 & Ha & Hk)|(_ & f5 & Hd & Hk)]; exists f5; (split; [|done]).
      - rewrite (after_other _ _ _ (staging_dir name) Ha) by (cbn; congruence). apply lookup_insert_eq.
      - rewrite (during_other _ _ _ (staging_dir name) Hd) by (cbn; congruence). apply lookup_insert_eq. }
    destruct (move_in_done _ _ _ Hm) as (dir0 & E & Hd). exists dir0. split; [|done].
    rewrite (after_other _ _ _ (staging_dir name) Ha) in E by (cbn; naive_solver). congruence.
  - destruct (move_in_done _ _ _ Hif) as (dir0 & E & Hd). exists dir0. split; [|done].
    rewrite lookup_insert_eq in E. congruence.
Qed.

Lemma new_stored name cert key m fs dir :
  fs !! name = Some dir → new_pair cert key m dir →
  stored fs name = Some (cert, key) ∧ mode <$> (fs !! name ≫= (.!! "key.pem")) = Some m.
Proof.
  intros E [Hc Hk]. unfold stored. rewrite E. cbn. rewrite Hk.
  destruct (dir !! "cert.pem"); [|done]. cbn in *. split; congruence.
Qed.

(** C37: however the writing of a certificate ends, and at every moment of it, the
    directory it is read from holds the old pair, is not there, or holds the
    whole new pair with the key's mode: never a certificate with the key of
    another.  Other certificates are not touched, but for one called like the
    staging or the old directory, [name.new] or [name.old] ([names_collide]),
    and when the writing succeeds the new pair is the one that is read. *)
Theorem cert_dir_never_mixed (name cert key : string) (m : N) (fs fs' : Fs) :
  sees (atomic_write_cert_dir name cert key m) fs fs' →
  (fs' !! name = fs !! name ∨ stored fs' name = None ∧ fs' !! name = None ∨
   stored fs' name = Some (cert, key) ∧ mode <$> (fs' !! name ≫= (.!! "key.pem")) = Some m) ∧
  (∀ d, d ∉ [name; staging_dir name; old_dir name] → fs' !! d = fs !! d) ∧
  (completes (atomic_write_cert_dir name cert key m) fs fs' → stored fs' name = Some (cert, key)).
Proof.
  intros Hs. split_and!.
  - destruct (write_ok _ _ _ _ _ _ Hs) as [?|[E|(dir & E & Hp)]]; [by left| |right; right; by eapply new_stored].
    right. left. unfold stored. by rewrite E.
  - intros d Hd. rewrite !not_elem_of_cons in Hd. eapply sees_other; [|done]. cbn. naive_solver.
  - intros Hc. destruct (write_done _ _ _ _ _ _ Hc) as (dir & E & Hp). by eapply new_stored.
Qed.

(** * Renewal *)

Record CertState := {
  cs_domains : list string;
  expiry_ts : Z;
  next_renewal_ts : Z;
}.

Definition days30 : Z := 30 * 24 * 3600.

Fixpoint upsert (entry : CertState) (v : list CertState) : list CertState :=
  match v with
  | [] => [entry]
  | c :: v' => if decide (cs_domains c = cs_domains entry) then entry :: v' else c :: upsert entry v'
  end.

Lemma upsert_domains entry v :
  cs_domains <$> upsert entry v =
  if decide (cs_domains entry ∈ cs_domains <$> v) then cs_domains <$> v else (cs_domains <$> v) ++ [cs_domains entry].
Proof.
  induction v as [|c v IH]; [done|]. cbn [upsert]. destruct (decide (cs_domains c = cs_domains entry)) as [E|E].
  - rewrite decide_True by (cbn; rewrite E; left). cbn. by rewrite E.
  - rewrite !fmap_cons, IH. case_decide; case_decide; set_solver.
Qed.

Lemma upsert_in entry v : entry ∈ upsert entry v.
Proof. induction v as [|c v IH]; cbn; [set_solver|]. case_decide; set_solver. Qed.

Lemma upsert_unique entry v : NoDup (cs_domains <$> v) → NoDup (cs_domains <$> upsert entry v).
Proof.
  intros Hn. rewrite upsert_domains. case_decide; [done|]. apply NoDup_app. split_and!; [done|set_solver|apply NoDup_singleton].
Qed.

Section renewal.
(** [cert_expiry_timestamp]; reading a PEM pair; whether an acceptor can be
    built from it. *)
Context {Pair : Type}.
Context (expiry : string → option Z) (read_pair : string → string → option Pair) (usable : Pair → bool).
(** The certificate's name, domains and settings. *)
Context (name : string) (doms : list string) (key_mode : N) (retry_interval : Z).

Definition cert_pem (fs : Fs) : option string := dir ← fs !! name; f ← dir !! "cert.pem"; Some (contents f).

Definition cert_needs_renewal (fs : Fs) (now : Z) : bool :=
  match cert_pem fs with
  | None => true
  | Some pem => match expiry pem with Some e => (e - now <? days30)%Z | None => true end
  end.

Definition time_until_renewal (fs : Fs) (now : Z) : Z :=
  match (pem ← cert_pem fs; expiry pem) with
  | None => 60
  | Some e => Z.max (e - days30 - now) 60
  end.

Definition publish_cert_state (fs : Fs) (v : list CertState) : list CertState :=
  match (pem ← cert_pem fs; expiry pem) with
  | None => v
  | Some e => upsert {| cs_domains := doms; expiry_ts := e; next_renewal_ts := e - days30 |} v
  end.

Definition load_cert_pair (fs : Fs) : option Pair := '(c, k) ← stored fs name; read_pair c k.

(** What [acquire_cert] can do to the files: nothing when they cannot be
    written or nothing was issued. *)
Definition acquire_cert (writable : bool) (issued : Result (string * string)) (fs fs' : Fs) (ok : bool) : Prop :=
  match issued with
  | Ok (cert, key) =>
      if writable then
        let p := atomic_write_cert_dir name cert key key_mode in
        if ok then completes p fs fs' else sees p fs fs'
      else fs' = fs ∧ ok = false
  | Err _ => fs' = fs ∧ ok = false
  end.

(** What the task holds and what it has handed out: the acceptor of TCP
    listeners, the pair QUIC listeners see. *)
Record Renewal := {
  disk : Fs;
  acceptor : Pair;
  channel : Pair;
  states : list CertState;
  last_failed : bool;
  renewals : N;
  failures : N;
}.

Definition next_sleep (st : Renewal) (now : Z) : Z :=
  if last_failed st then retry_interval else time_until_renewal (disk st) now.

Definition failed (st : Renewal) (fs : Fs) : Renewal :=
  {| disk := fs; acceptor := acceptor st; channel := channel st; states := states st; last_failed := true;
     renewals := renewals st; failures := failures st + 1 |}.

(** A round of [renewal_loop] after its sleep, [acquire_cert] having left
    [fs]. *)
Definition renewal_round (acquired : bool) (fs : Fs) (st : Renewal) : Renewal :=
  if negb acquired then failed st fs
  else match load_cert_pair fs with
       | None => failed st fs
       | Some pr =>
           if usable pr then
             {| disk := fs; acceptor := pr; channel := pr; states := publish_cert_state fs (states st);
                last_failed := false; renewals := renewals st + 1; failures := failures st |}
           else failed st fs
       end.

(** [ensure_valid_cert] and the fallback of the start-up
    (bootstrap.rs): the pair of the disk, or a self-signed one, which rcgen
    makes without fail, and a retry. *)
Definition start_up (acquired : bool) (fs fs' : Fs) (now : Z) (self_signed : Pair) (v : list CertState) : Renewal :=
  let fallback fs v := {| disk := fs; acceptor := self_signed; channel := self_signed; states := v;
                          last_failed := true; renewals := 0; failures := 0 |} in
  let needs := cert_needs_renewal fs now in
  if needs && negb acquired then fallback fs' v
  else
    let fs := if needs then fs' else fs in
    let v := publish_cert_state fs v in
    match load_cert_pair fs with
    | None => fallback fs v
    | Some pr =>
        if usable pr then
          {| disk := fs; acceptor := pr; channel := pr; states := v; last_failed := false; renewals := 0;
             failures := 0 |}
        else fallback fs v
    end.

(** ** Properties *)

(** The list of the status page has one entry for each certificate, whatever
    is published, and entries keep their places. *)
Theorem one_entry_per_certificate (fs : Fs) (v : list CertState) :
  NoDup (cs_domains <$> v) →
  NoDup (cs_domains <$> publish_cert_state fs v) ∧ (cs_domains <$> v) `prefix_of` (cs_domains <$> publish_cert_state fs v) ∧
  (∀ e, (cert_pem fs ≫= expiry) = Some e →
    {| cs_domains := doms; expiry_ts := e; next_renewal_ts := e - days30 |} ∈ publish_cert_state fs v).
Proof.
  intros Hn. unfold publish_cert_state. destruct (cert_pem fs ≫= expiry) as [e|]; [|done].
  split_and!; [by apply upsert_unique| |intros ? [= <-]; apply upsert_in].
  rewrite upsert_domains. case_decide; [done|]. by apply prefix_app_r.
Qed.

(** A round of the renewal either hands out the pair just issued, which is
    then the one on disk, to TCP and QUIC alike, or leaves what is served as
    it was and comes back after the retry interval. *)
Theorem renewal_keeps_serving (writable : bool) (issued : Result (string * string)) (ok : bool) (fs : Fs) (st : Renewal) :
  acquire_cert writable issued (disk st) fs ok → acceptor st = channel st →
  let st' := renewal_round ok fs st in
  acceptor st' = channel st' ∧ renewals st' + failures st' = renewals st + failures st + 1 ∧
  (last_failed st' = false ∧ usable (acceptor st') = true ∧
     (∃ cert key, issued = Ok (cert, key) ∧ stored (disk st') name = Some (cert, key) ∧
        read_pair cert key = Some (acceptor st')) ∧
     (∀ now, 60 ≤ next_sleep st' now)%Z ∨
   acceptor st' = acceptor st ∧ states st' = states st ∧ ∀ now, next_sleep st' now = retry_interval).
Proof.
  intros Hacq Heq. unfold renewal_round.
  destruct ok; cbn [negb]; [|cbn; split_and!; [done|lia|by right]].
  destruct (load_cert_pair fs) as [pr|] eqn:El; [|cbn; split_and!; [done|lia|by right]].
  destruct (usable pr) eqn:Hu; [|cbn; split_and!; [done|lia|by right]].
  cbn [acceptor channel states last_failed disk renewals failures]. split_and!; [done|lia|]. left. split_and!; [done..| |].
  - unfold acquire_cert in Hacq. destruct issued as [[c k]|e]; [|by destruct Hacq].
    destruct writable; [|by destruct Hacq]. destruct (write_done _ _ _ _ _ _ Hacq) as (dir & E & Hp).
    destruct (new_stored _ _ _ _ _ _ E Hp) as [Hs _]. exists c, k. unfold load_cert_pair in El. by rewrite Hs in El.
  - intros now. unfold next_sleep, time_until_renewal. cbn. destruct (cert_pem fs ≫= expiry); lia.
Qed.

(** A certificate that is not renewed yet is renewed as it comes to thirty
    days of its end, and one that needs renewal within a minute. *)
Lemma renewal_on_time (fs : Fs) (now e : Z) :
  (cert_pem fs ≫= expiry) = Some e →
  (cert_needs_renewal fs now = false → e - days30 ≤ now + time_until_renewal fs now ≤ e - days30 + 60)%Z ∧
  (cert_needs_renewal fs now = true → time_until_renewal fs now = 60%Z).
Proof.
  unfold cert_needs_renewal, time_until_renewal. destruct (cert_pem fs) as [pem|]; [|done]. cbn. intros ->.
  rewrite Z.ltb_ge, Z.ltb_lt. lia.
Qed.

(** A certificate that is issued for thirty days or less is issued again
    every minute: the loop does not ask whether it needs to be. *)
Lemma short_lived_every_minute (st : Renewal) (now e : Z) :
  last_failed st = false → (cert_pem (disk st) ≫= expiry) = Some e → (e ≤ now + days30)%Z → next_sleep st now = 60%Z.
Proof.
  unfold next_sleep, time_until_renewal. intros ->. destruct (cert_pem (disk st)); [|done]. cbn. intros ->. lia.
Qed.

(** The start-up always has a pair to serve, and a self-signed one only
    together with a retry. *)
Lemma start_up_serves acquired fs fs' now self_signed v :
  let st := start_up acquired fs fs' now self_signed v in
  acceptor st = channel st ∧
  (last_failed st = true ∧ acceptor st = self_signed ∨
   last_failed st = false ∧ load_cert_pair (disk st) = Some (acceptor st) ∧ usable (acceptor st) = true).
Proof. unfold start_up. repeat case_match; cbn; eauto 6. Qed.

End renewal.

(** * Concrete runs *)

Module Demo.

Definition dir (cert key : string) : gmap string File :=
  {[ "cert.pem" := {| contents := cert; mode := 420 |}; "key.pem" := {| contents := key; mode := 384 |} ]}.

Definition filled : Fs := {[ "site" := dir "c2" "k2" ]}.

Lemma first_write : completes (atomic_write_cert_dir "site" "c2" "k2" 384) ∅ filled.
Proof.
  cbn. left. exists ∅. split; [by rewrite delete_empty|].
  left. exists {[ "site.new" := ∅ ]}. split; [done|].
  left. exists {[ "site.new" := {[ "cert.pem" := {| contents := "c2"; mode := 420 |} ]} ]}. split.
  { exists ∅, 420%N. split; [done|]. reflexivity. }
  left. exists {[ "site.new" := dir "c2" "k2" ]}. split.
  { eexists. split; [apply lookup_singleton_eq|]. reflexivity. }
  left. exists filled. split.
  { exists (dir "c2" "k2"). split; [done|]. split; [done|]. reflexivity. }
  left. exists filled. split; [|done]. reflexivity.
Qed.

Lemma cert_dir_never_mixed_witness :
  sees (atomic_write_cert_dir "site" "c2" "k2" 384) ∅ filled ∧ stored filled "site" = Some ("c2", "k2").
Proof.
  split; [apply completes_sees, first_write|].
  apply (cert_dir_never_mixed "site" "c2" "k2" 384 ∅ filled); [apply completes_sees|]; apply first_write.
Defined.

(** A certificate named as the staging directory of another is lost when the
    other is written. *)
Example names_collide (fs fs' : Fs) :
  staging_dir "site" = "site.new" ∧
  (after (RemoveAll (staging_dir "site")) fs fs' → stored fs' "site.new" = None).
Proof. split; [done|]. cbn. intros ->. unfold stored. by rewrite lookup_delete_eq. Qed.

Definition authz (token : string) : Authz :=
  {| az_fetched := true; az_valid := false; az_domain := "a.example"; az_offered := true; az_token := token;
     az_key_auth := token +:+ ".thumb"; az_installed := true; az_ready := true |}.
Definition none : Answers := {| http := {[ "other" := "x" ]}; txt := []; alpn := ∅ |}.
Definition run (polls : list (option OrderStatus)) : Provisioned * Answers :=
  provision Http01 false false id id (Ok tt) (Ok [authz "t1"; authz "t2"]) polls true (Ok ("c", "k")) none.

Lemma order_leaves_nothing_witness : http (run [Some Pending; Some Ready]).2 !! "t1" = None.
Proof.
  assert (provision Http01 false false id id (Ok tt) (Ok [authz "t1"; authz "t2"]) [Some Pending; Some Ready] true
    (Ok ("c", "k")) none = ((run [Some Pending; Some Ready]).1, (run [Some Pending; Some Ready]).2)) as E
    by reflexivity.
  destruct (order_leaves_nothing Http01 false false id id [authz "t1"; authz "t2"] [Some Pending; Some Ready]
    (Ok ("c", "k")) none _ [Token "t1"; Token "t2"] _ eq_refl (or_introl eq_refl) E) as (H & _).
  rewrite H. reflexivity.
Defined.

(** A poll that fails leaves the answers in place. *)
Example poll_error_leaves_token :
  (run [Some Pending; None]).1 = Refused "polling order" ∧
  http (run [Some Pending; None]).2 !! "t1" = Some "t1.thumb" ∧ http (run [Some Ready]).2 !! "t1" = None.
Proof. by split_and!. Qed.

(** The names and the wildcard of a TXT record. *)
Example txt_names : trim_wildcard "*.a.example" = "a.example" ∧ trim_wildcard "a.example" = "a.example".
Proof. done. Qed.

Definition expiry (pem : string) : option Z := if String.eqb pem "c2" then Some 7776000%Z else None.
Definition read_pair (c k : string) : option (string * string) := Some (c, k).
Definition served : Renewal := {| disk := ∅; acceptor := ("self", "signed"); channel := ("self", "signed"); states := [];
  last_failed := true; renewals := 0; failures := 0 |}.

Lemma renewal_keeps_serving_witness :
  acceptor (renewal_round expiry read_pair (λ _, true) "site" ["a.example"] true filled served) = ("c2", "k2").
Proof.
  destruct (renewal_keeps_serving expiry read_pair (λ _, true) "site" ["a.example"] 384 3600 true (Ok ("c2", "k2")) true
    filled served first_write eq_refl) as (_ & _ & [(_ & _ & (c & k & E & _ & R) & _)|(E & _)]).
  - reflexivity.
  - discriminate E.
Defined.

Lemma one_entry_per_certificate_witness :
  NoDup (cs_domains <$> publish_cert_state expiry "site" ["a.example"] filled
    [{| cs_domains := ["a.example"]; expiry_ts := 1; next_renewal_ts := 0 |}]).
Proof.
  apply (one_entry_per_certificate expiry "site" ["a.example"] filled
    [{| cs_domains := ["a.example"]; expiry_ts := 1; next_renewal_ts := 0 |}]).
  apply NoDup_singleton.
Defined.

(** A certificate of ninety days is left alone for sixty, one of a week is
    issued again in a minute. *)
Example renewal_times :
  time_until_renewal expiry "site" filled 0 = 5184000%Z ∧
  time_until_renewal (λ _, Some 604800%Z) "site" filled 0 = 60%Z ∧
  cert_needs_renewal expiry "site" filled 0 = false ∧ cert_needs_renewal expiry "site" filled 6000000 = true ∧
  cert_needs_renewal expiry "site" ∅ 0 = true.
Proof. by split_and!. Qed.

(** A handshake is given the certificate of a challenge only when it asks for
    it. *)
Example handshakes :
  resolve {[ "a.example" := "challenge" ]} "production" (Some ["h2"; "acme-tls/1"]) (Some "a.example") = "challenge" ∧
  resolve {[ "a.example" := "challenge" ]} "production" (Some ["h2"]) (Some "a.example") = "production" ∧
  resolve {[ "a.example" := "challenge" ]} "production" (Some ["acme-tls/1"]) None = "production".
Proof. done. Qed.

End Demo.

End Acme.
