(* ===== verification/Tls.v ===== *)
(** TLS server configurations ([src/cert/tls.rs], and the watchers of
    [src/reload/builders.rs] and [src/listener/quic.rs]).

    rustls, quinn and the PEM parser are parameters: what rustls accepts and
    what a file holds. *)
From S2P Require Import Prelude RustStr ParseTls ParseConfig.

Module Tls.
Import ParseTls.

(** * Cipher suites and versions *)

Inductive CipherSuite :=
  | TLS13_AES_256_GCM_SHA384
  | TLS13_AES_128_GCM_SHA256
  | TLS13_CHACHA20_POLY1305_SHA256
  | TLS_ECDHE_ECDSA_WITH_AES_256_GCM_SHA384
  | TLS_ECDHE_ECDSA_WITH_AES_128_GCM_SHA256
  | TLS_ECDHE_ECDSA_WITH_CHACHA20_POLY1305_SHA256
  | TLS_ECDHE_RSA_WITH_AES_256_GCM_SHA384
  | TLS_ECDHE_RSA_WITH_AES_128_GCM_SHA256
  | TLS_ECDHE_RSA_WITH_CHACHA20_POLY1305_SHA256.

#[global] Instance CipherSuite_eq_dec : EqDecision CipherSuite.
Proof. solve_decision. Defined.

Definition suite_names : list (string * CipherSuite) :=
  [("TLS13_AES_256_GCM_SHA384", TLS13_AES_256_GCM_SHA384);
   ("TLS13_AES_128_GCM_SHA256", TLS13_AES_128_GCM_SHA256);
   ("TLS13_CHACHA20_POLY1305_SHA256", TLS13_CHACHA20_POLY1305_SHA256);
   ("TLS_ECDHE_ECDSA_WITH_AES_256_GCM_SHA384", TLS_ECDHE_ECDSA_WITH_AES_256_GCM_SHA384);
   ("TLS_ECDHE_ECDSA_WITH_AES_128_GCM_SHA256", TLS_ECDHE_ECDSA_WITH_AES_128_GCM_SHA256);
   ("TLS_ECDHE_ECDSA_WITH_CHACHA20_POLY1305_SHA256", TLS_ECDHE_ECDSA_WITH_CHACHA20_POLY1305_SHA256);
   ("TLS_ECDHE_RSA_WITH_AES_256_GCM_SHA384", TLS_ECDHE_RSA_WITH_AES_256_GCM_SHA384);
   ("TLS_ECDHE_RSA_WITH_AES_128_GCM_SHA256", TLS_ECDHE_RSA_WITH_AES_128_GCM_SHA256);
   ("TLS_ECDHE_RSA_WITH_CHACHA20_POLY1305_SHA256", TLS_ECDHE_RSA_WITH_CHACHA20_POLY1305_SHA256)].

Definition name_to_cipher_suite (name : string) : Result CipherSuite :=
  ok_or (snd <$> List.find (λ p, String.eqb p.1 name) suite_names) "unknown cipher suite".

Definition protocol_versions (min : option TlsVersion) : list TlsVersion :=
  match min with
  | None | Some Tls12 => [Tls12; Tls13]
  | Some Tls13 => [Tls13]
  end.

(** * Certificates *)

(** DER blobs as strings; the store of TLS-ALPN-01 certificates by name. *)
Record CertPair := {
  chain : list string;
  key : string;
  alpn_store : option string;
  staple : string;
}.

Inductive CertResolver :=
  | SingleCert (chain : list string) (key staple : string)
  | AlpnAware (store : string) (chain : list string) (key : string) (staple : option string).

(** What a client certificate is checked against. *)
Record Verifier := {
  roots : list string;
  v_crls : list string;
  unauthenticated : bool;
}.

Record ServerConfig := {
  suites : list CipherSuite;
  versions : list TlsVersion;
  client_verifier : option Verifier;
  resolver : CertResolver;
  alpn_protocols : list string;
  max_early_data_size : N;
}.

Record VhostAlpnMap := {
  by_default : ServerConfig;
  by_sni : gmap string ServerConfig;
}.

(** What of rustls the code relies on: the provider's suites, whether
    versions fit them, whether a key can sign and goes with its chain. *)
Class Rustls := {
  provider_suites : list CipherSuite;
  versions_fit : list CipherSuite → list TlsVersion → bool;
  key_supported : string → bool;
  chain_fits : list string → string → bool;
}.

(** What files hold: certificates, revocation lists, keys; [None] when they
    cannot be opened or parsed. [anchors] counts the usable ones. *)
Class PemFiles := {
  file_certs : string → option (list string);
  file_crls : string → option (list string);
  file_key : string → option (option string);
  usable_anchor : string → bool;
  verifier_ok : Verifier → bool;
}.

Section configs.
Context `{!Rustls} `{!PemFiles}.

Definition resolve_ciphers (names : list string) : Result (list CipherSuite) :=
  try_map (λ name,
    cs ← name_to_cipher_suite name;
    ok_or (List.find (λ s, bool_decide (s = cs)) provider_suites) "cipher suite not available") names.

(** The builder both kinds of configuration start from. *)
Definition provider_for (opts : TlsOptions) : Result (list CipherSuite * list TlsVersion) :=
  ss ← (if decide (ciphers opts = []) then Ok provider_suites else resolve_ciphers (ciphers opts));
  let vs := protocol_versions (min_version opts) in
  if versions_fit ss vs then Ok (ss, vs) else Err "invalid TLS protocol version configuration".

Definition single_cert (p : CertPair) : Result CertResolver :=
  if key_supported (key p) && chain_fits (chain p) (key p) then Ok (SingleCert (chain p) (key p) (staple p))
  else Err "building TLS ServerConfig".

Definition cert_resolver (p : CertPair) : Result CertResolver :=
  match alpn_store p with
  | Some store =>
      if key_supported (key p) then
        Ok (AlpnAware store (chain p) (key p) (if String.eqb (staple p) "" then None else Some (staple p)))
      else Err "loading TLS server key"
  | None => single_cert p
  end.

Definition acme_proto : string := "acme-tls/1".

Definition offered (p : CertPair) (alpn : option (list string)) : list string :=
  let ps := default ["h2"; "http/1.1"] alpn in
  match alpn_store p with
  | Some _ => if existsb (String.eqb acme_proto) ps then ps else ps ++ [acme_proto]
  | None => ps
  end.

Definition make_rustls_server_config (p : CertPair) (opts : TlsOptions) (alpn : option (list string))
    (v : option Verifier) : Result ServerConfig :=
  '(ss, vs) ← provider_for opts;
  r ← cert_resolver p;
  Ok {| suites := ss; versions := vs; client_verifier := v; resolver := r; alpn_protocols := offered p alpn;
        max_early_data_size := 0 |}.

(** [VhostAlpnMap::build]. *)
Definition build (p : CertPair) (opts : TlsOptions) (listener_alpn : option (list string))
    (overrides : list (string * list string)) (v : option Verifier) : Result VhostAlpnMap :=
  d ← make_rustls_server_config p opts listener_alpn v;
  es ← try_map (λ o, c ← make_rustls_server_config p opts (Some o.2) v; Ok (o.1, c)) overrides;
  Ok {| by_default := d; by_sni := foldl (λ m e, <[e.1 := e.2]> m) ∅ es |}.

(** [VhostAlpnMap::pick]. *)
Definition pick (m : VhostAlpnMap) (sni : option string) : ServerConfig :=
  match sni with Some name => default (by_default m) (by_sni m !! name) | None => by_default m end.

Definition load_crls (paths : list string) : Result (list string) :=
  (concat (A:=string)) <$> try_map (λ p,
    match file_crls p with
    | None => Err "mtls revocation file"
    | Some [] => Err "no CRL entries found"
    | Some cs => Ok cs
    end) paths.

Definition load_roots (paths : list string) : Result (list string) :=
  (concat (A:=string)) <$> try_map (λ p,
    match file_certs p with
    | None => Err "mtls CA file"
    | Some [] => Err "no CA certificates found"
    | Some cs =>
        match List.filter usable_anchor cs with
        | [] => Err "no usable trust anchors"
        | anchors => Ok anchors
        end
    end) paths.

Definition build_client_verifier (m : MtlsConfig) : Result Verifier :=
  rs ← load_roots (cas m);
  cs ← load_crls (crls m);
  let v := {| roots := rs; v_crls := cs; unauthenticated := match mode m with Optional => true | Required => false end |} in
  if verifier_ok v then Ok v else Err "building rustls WebPkiClientVerifier".

Definition load_cert_and_key (cert_path key_path : string) : Result (list string * string) :=
  match file_certs cert_path with
  | None => Err "cert file"
  | Some [] => Err "no certificates found"
  | Some cs =>
      match file_key key_path with
      | None => Err "key file"
      | Some None => Err "no private key found"
      | Some (Some k) => Ok (cs, k)
      end
  end.

(** [build_acceptor_with_pair_alpn]; [self_signed] is the pair rcgen makes.
    [None] is a panic. *)
Definition build_acceptor_with_pair_alpn (t : TlsListenerConfig) (defaults : TlsOptions) (alpn : option (list string))
    (self_signed : CertPair) : option (Result (ServerConfig * CertPair)) :=
  let opts := resolve (options t) defaults in
  let acceptor p := c ← make_rustls_server_config p opts alpn None; Ok (c, p) in
  match cert t with
  | Files c k =>
      Some ('(cs, key) ← load_cert_and_key c k;
            acceptor {| chain := cs; key := key; alpn_store := None; staple := "" |})
  | SelfSigned => Some (acceptor self_signed)
  | Acme _ | Ref _ => None
  end.

(** ** QUIC *)

Record QuicConfig := {
  crypto : ServerConfig;
  bidi_streams : option N;
  idle_timeout : option N;
  keep_alive : option (option N);
  token_lifetime : option N;
}.

Definition build_quic_rustls_config (p : CertPair) (opts : TlsOptions) (alpn : option (list string))
    (transport : option ParseConfig.QuicTransport) (v : option Verifier) : Result ServerConfig :=
  '(ss, vs) ← provider_for opts;
  r ← single_cert p;
  Ok {| suites := ss; versions := vs; client_verifier := v; resolver := r; alpn_protocols := default ["h3"] alpn;
        max_early_data_size :=
          if default false (ParseConfig.zero_rtt_enabled <$> transport) then 2 ^ 32 - 1 else 0 |}.

(** The largest QUIC variable-length integer is [2^62 - 1]. *)
Definition varint (n : N) (tag : string) : Result N := if (n <? 2 ^ 62)%N then Ok n else Err tag.

Definition opt_varint (o : option N) (tag : string) : Result (option N) :=
  match o with Some n => m ← varint n tag; Ok (Some m) | None => Ok None end.

(** [quic_fit] is whether quinn takes the configuration. Idle timeouts are in
    milliseconds. *)
Definition build_quic_server_config (quic_fit : ServerConfig → bool) (p : CertPair) (opts : TlsOptions)
    (alpn : option (list string)) (transport : option ParseConfig.QuicTransport) (v : option Verifier)
    : Result QuicConfig :=
  c ← build_quic_rustls_config p opts alpn transport v;
  if negb (quic_fit c) then Err "wrapping rustls config as QuicServerConfig"
  else match transport with
       | None => Ok {| crypto := c; bidi_streams := None; idle_timeout := None; keep_alive := None; token_lifetime := None |}
       | Some t =>
           streams ← opt_varint (ParseConfig.max_concurrent_bidi_streams t) "max-concurrent-bidi-streams out of range";
           idle ← opt_varint ((λ s, s * 1000)%N <$> ParseConfig.max_idle_timeout_secs t) "max-idle-timeout out of range";
           Ok {| crypto := c; bidi_streams := streams; idle_timeout := idle;
                 keep_alive := (λ s, if (s =? 0)%N then None else Some s) <$> ParseConfig.keep_alive_interval_secs t;
                 token_lifetime := ParseConfig.retry_token_lifetime_secs t |}
       end.

(** ** Properties *)

Lemma cipher_names_distinct : NoDup suite_names.*1 ∧ NoDup suite_names.*2.
Proof. split; apply (bool_decide_unpack _); vm_compute; done. Qed.

(** Names resolve in order, each to its own suite. *)
Lemma resolve_ciphers_ok names ss :
  resolve_ciphers names = Ok ss ↔
  Forall2 (λ n cs, name_to_cipher_suite n = Ok cs ∧ cs ∈ provider_suites) names ss.
Proof.
  unfold resolve_ciphers. rewrite try_map_Ok.
  split; intros Hf; (eapply Forall2_impl; [exact Hf|]); clear Hf; intros n cs; cbn.
  - intros (cs' & E & Hf)%bind_Ok. destruct (List.find _ _) as [c|] eqn:E2; [|done]. injection Hf as <-.
    apply List.find_some in E2 as [Hin Heq]. apply bool_decide_eq_true in Heq as ->.
    split; [done|]. by apply list_elem_of_In.
  - intros [E Hin]. rewrite E. cbn. destruct (List.find _ _) as [c|] eqn:E2.
    + apply List.find_some in E2 as [_ Heq]. apply bool_decide_eq_true in Heq as ->. done.
    + exfalso. apply list_elem_of_In in Hin. apply (List.find_none _ _ E2) in Hin. by rewrite bool_decide_true in Hin.
Qed.

(** Everything about a configuration but the protocols it offers. *)
Definition alike (a b : ServerConfig) : Prop :=
  suites a = suites b ∧ versions a = versions b ∧ client_verifier a = client_verifier b ∧ resolver a = resolver b ∧
  max_early_data_size a = max_early_data_size b.

Lemma config_shape p opts alpn v c :
  make_rustls_server_config p opts alpn v = Ok c →
  versions c = protocol_versions (min_version opts) ∧ client_verifier c = v ∧ alpn_protocols c = offered p alpn ∧
  cert_resolver p = Ok (resolver c).
Proof.
  unfold make_rustls_server_config. intros ([ss vs] & Hp & (r & Hr & Hc)%bind_Ok)%bind_Ok. injection Hc as <-.
  unfold provider_for in Hp. apply bind_Ok in Hp as (ss' & _ & Hv). case_match; [|done]. injection Hv as <- <-. done.
Qed.

Lemma config_alike p opts a1 a2 v c1 c2 :
  make_rustls_server_config p opts a1 v = Ok c1 → make_rustls_server_config p opts a2 v = Ok c2 → alike c1 c2.
Proof.
  unfold make_rustls_server_config. destruct (provider_for opts) as [[ss vs]|]; [|done]. cbn.
  destruct (cert_resolver p); [|done]. cbn. intros [= <-] [= <-]. done.
Qed.

Lemma overrides_lookup p opts v (os : list (string * list string)) es (m : gmap string ServerConfig) :
  try_map (λ o, c ← make_rustls_server_config p opts (Some o.2) v; Ok (o.1, c)) os = Ok es →
  (∀ n c, m !! n = Some c → ∃ a, make_rustls_server_config p opts a v = Ok c) →
  ∀ n c, foldl (λ m e, <[e.1 := e.2]> m) m es !! n = Some c → ∃ a, make_rustls_server_config p opts a v = Ok c.
Proof.
  rewrite try_map_Ok. intros Hall. revert m. induction Hall as [|o e os es Ho Hall IH]; intros m Hm; cbn; [done|].
  apply IH. intros n c. apply bind_Ok in Ho as (c' & Hc & [= <-]). cbn.
  destruct (decide (o.1 = n)) as [->|]; [rewrite lookup_insert_eq|rewrite lookup_insert_ne by done; apply Hm].
  intros [= <-]. eauto.
Qed.

Lemma overrides_other p opts v (os : list (string * list string)) es (m : gmap string ServerConfig) n :
  try_map (λ o, c ← make_rustls_server_config p opts (Some o.2) v; Ok (o.1, c)) os = Ok es →
  n ∉ os.*1 → m !! n = None → foldl (λ m e, <[e.1 := e.2]> m) m es !! n = None.
Proof.
  rewrite try_map_Ok. intros Hall. revert m. induction Hall as [|o e os es Ho Hall IH]; intros m Hn He; cbn; [done|].
  apply bind_Ok in Ho as (c & _ & [= <-]). rewrite fmap_cons, not_elem_of_cons in Hn. destruct Hn as [Hno Hn].
  apply IH; [done|]. by rewrite lookup_insert_ne.
Qed.

Lemma picked_built p opts alpn os v m sni :
  build p opts alpn os v = Ok m → ∃ a, make_rustls_server_config p opts a v = Ok (pick m sni).
Proof.
  unfold build. intros (d & Hd & (es & Hes & Hm)%bind_Ok)%bind_Ok. injection Hm as <-.
  destruct sni as [n|]; cbn; [|eauto]. destruct (foldl _ ∅ es !! n) as [c|] eqn:E; cbn; [|eauto].
  by eapply overrides_lookup in E as (a & ?); [eauto|done|].
Qed.

Lemma vhost_verifier p opts alpn os v m sni : build p opts alpn os v = Ok m → client_verifier (pick m sni) = v.
Proof. intros Hb. destruct (picked_built _ _ _ _ _ _ sni Hb) as (a & Ha). by apply config_shape in Ha as (_ & ? & _). Qed.

(** Whatever name a client sends, a listener answers with the one certificate,
    the same versions and suites, and checks client certificates alike: a
    virtual host changes the protocols offered and nothing else. *)
Theorem sni_changes_alpn_only (p : CertPair) (opts : TlsOptions) (alpn : option (list string))
    (os : list (string * list string)) (v : option Verifier) (m : VhostAlpnMap) (sni : option string) :
  build p opts alpn os v = Ok m →
  alike (pick m sni) (by_default m) ∧ client_verifier (pick m sni) = v ∧
  versions (pick m sni) = protocol_versions (min_version opts) ∧
  (alpn_store p ≠ None → acme_proto ∈ alpn_protocols (pick m sni)) ∧
  (∀ n, sni = Some n → n ∉ os.*1 → pick m sni = by_default m).
Proof.
  intros Hb. destruct (picked_built _ _ _ _ _ _ sni Hb) as (a & Ha).
  unfold build in Hb. apply bind_Ok in Hb as (d & Hd & (es & Hes & Hm)%bind_Ok). injection Hm as <-.
  destruct (config_shape _ _ _ _ _ Ha) as (Hv & Hc & Hp & _). split_and!; [by eapply config_alike|done..| |].
  - rewrite Hp. unfold offered. destruct (alpn_store p); [|done]. intros _. case_match eqn:E; [|set_solver].
    apply existsb_exists in E as (x & Hx & ->%String.eqb_eq). by apply list_elem_of_In.
  - intros n -> Hn. cbn. assert (foldl (λ m e, <[e.1 := e.2]> m) (∅ : gmap string ServerConfig) es !! n = None) as ->; [|done].
    by eapply overrides_other.
Qed.

(** The trust anchors of a verifier come from the listed files, and each file
    gives at least one: a listener with [mtls] never starts without. *)
Lemma verifier_has_roots m v :
  build_client_verifier m = Ok v → cas m ≠ [] →
  roots v ≠ [] ∧ (∀ r, r ∈ roots v → ∃ f cs, f ∈ cas m ∧ file_certs f = Some cs ∧ r ∈ cs ∧ usable_anchor r = true) ∧
  unauthenticated v = match mode m with Optional => true | Required => false end.
Proof.
  unfold build_client_verifier. intros (rs & Hr & (cs & _ & Hv)%bind_Ok)%bind_Ok Hne. case_match; [|done].
  injection Hv as <-. cbn. unfold load_roots in Hr.
  destruct (try_map _ (cas m)) as [ls|] eqn:E; cbn in Hr; [|done]. injection Hr as <-. apply try_map_Ok in E.
  assert (Forall2 (λ f l, l ≠ [] ∧ ∃ cs, file_certs f = Some cs ∧ ∀ r, r ∈ l → r ∈ cs ∧ usable_anchor r = true) (cas m) ls) as E'.
  { eapply Forall2_impl; [done|]. intros f l Hl. cbn in Hl. destruct (file_certs f) as [[|c cs']|] eqn:Ec; [done| |done].
    destruct (List.filter usable_anchor (c :: cs')) as [|x xs] eqn:Ef; [done|]. injection Hl as <-. split; [done|].
    eexists. split; [done|]. intros r Hin. rewrite <- Ef in Hin.
    apply list_elem_of_In, List.filter_In in Hin as [Hin ?]. split; [|done]. by apply list_elem_of_In. }
  split_and!; [| |done].
  - destruct E' as [|f l fs ls [Hl _] _]; [done|]. cbn. by destruct l.
  - intros r Hr. apply list_elem_of_In, List.in_concat in Hr as (l & Hl & Hr).
    apply list_elem_of_In, list_elem_of_lookup in Hl as (i & Hi). apply list_elem_of_In in Hr.
    destruct (Forall2_lookup_r _ _ _ _ _ E' Hi) as (f & Hf & _ & cs0 & Hcs & Hin). exists f, cs0.
    destruct (Hin r Hr). split_and!; [by eapply list_elem_of_lookup_2|done..].
Qed.

End configs.

(** ** A listener's configuration while it runs *)

(** The acceptor of TLS stream listeners, and the one each certificate source
    starts with, asks no client for a certificate, whatever the listener's
    [mtls] block says. *)
Lemma stream_acceptor_asks_nothing `{!Rustls} `{!PemFiles} t defaults alpn ss c p :
  build_acceptor_with_pair_alpn t defaults alpn ss = Some (Ok (c, p)) → client_verifier c = None.
Proof.
  unfold build_acceptor_with_pair_alpn. destruct (cert t) as [cf kf| | |]; intros E; try discriminate E;
    injection E as E.
  - apply bind_Ok in E as ([cs k] & _ & (c' & Hc & [= <- <-])%bind_Ok). apply config_shape in Hc. by destruct Hc as (_ & -> & _).
  - apply bind_Ok in E as (c' & Hc & [= <- <-]). apply config_shape in Hc. by destruct Hc as (_ & -> & _).
Qed.

Section live.
Context `{!Rustls}.
(** The listener's options, protocols, overrides and client certificate
    settings. *)
Context (opts : TlsOptions) (listener_alpn : option (list string)) (overrides : list (string * list string)).
Context (mtls : option MtlsConfig).

Record Live := {
  published : CertPair;
  verifier : option Verifier;
  alpn_map : VhostAlpnMap;
}.

Definition start `{!PemFiles} (p : CertPair) : Result Live :=
  v ← (match mtls with Some m => v ← build_client_verifier m; Ok (Some v) | None => Ok None end);
  m ← build p opts listener_alpn overrides v;
  Ok {| published := p; verifier := v; alpn_map := m |}.

(** The watcher of certificates: a map that cannot be built leaves the old
    one. *)
Definition rotated (p : CertPair) (l : Live) : Live :=
  {| published := p; verifier := verifier l;
     alpn_map := match build p opts listener_alpn overrides (verifier l) with Ok m => m | Err _ => alpn_map l end |}.

(** A tick of the CRL watcher. *)
Definition crl_tick `{!PemFiles} (m : MtlsConfig) (l : Live) : Live :=
  match build_client_verifier m with
  | Err _ => l
  | Ok v =>
      {| published := published l; verifier := Some v;
         alpn_map := match build (published l) opts listener_alpn overrides (Some v) with Ok m => m | Err _ => alpn_map l end |}
  end.

(** Both watch the channel, the second only for client certificates. Files may
    change from step to step. *)
Inductive live_step : Live → Live → Prop :=
  | live_rotated l p : live_step l (rotated p l)
  | live_tick l m (files : PemFiles) : mtls = Some m → live_step l (crl_tick m l).

(** A verifier the settings could have given. *)
Definition checks (v : option Verifier) : Prop :=
  match mtls with
  | Some m => ∃ v', v = Some v' ∧ unauthenticated v' = (match mode m with Optional => true | Required => false end) ∧
      (cas m ≠ [] → roots v' ≠ [])
  | None => v = None
  end.

Definition live_ok (l : Live) : Prop :=
  checks (verifier l) ∧ ∃ p v, checks v ∧ build p opts listener_alpn overrides v = Ok (alpn_map l).

Lemma verifier_checks `{!PemFiles} m v : mtls = Some m → build_client_verifier m = Ok v → checks (Some v).
Proof.
  intros E Hb. unfold checks. rewrite E. exists v. split_and!; [done|..].
  - unfold build_client_verifier in Hb. apply bind_Ok in Hb as (rs & _ & (cs & _ & Hv)%bind_Ok).
    case_match; [|done]. by injection Hv as <-.
  - intros Hne. by destruct (verifier_has_roots _ _ Hb Hne).
Qed.

Lemma start_ok `{!PemFiles} p l : start p = Ok l → live_ok l.
Proof.
  unfold start. intros (v & Hv & (m & Hm & Hl)%bind_Ok)%bind_Ok. injection Hl as <-.
  assert (checks v) as Hc.
  { destruct mtls as [c|] eqn:E; [|injection Hv as <-; unfold checks; by rewrite E].
    apply bind_Ok in Hv as (v' & Hv & [= <-]). by eapply verifier_checks. }
  split; [done|]. by exists p, v.
Qed.

Lemma live_step_ok l l' : live_ok l → live_step l l' → live_ok l'.
Proof.
  intros [Hv (p & v & Hc & Hb)] Hs. destruct Hs as [l p'|l m files E].
  - split; [done|]. cbn. destruct (build p' opts listener_alpn overrides (verifier l)) eqn:Eb; eauto.
  - unfold crl_tick. destruct (build_client_verifier m) as [v'|] eqn:Ev; [|by split; eauto].
    pose proof (verifier_checks _ _ E Ev) as Hc'. split; [done|]. cbn. case_match eqn:Eb; eauto.
Qed.

(** C38: through every renewal of the certificate and reload of the revocation
    lists, and whichever of them fail, an HTTPS listener that demands client
    certificates goes on demanding them, for every name a client may send and
    against trust anchors that are there.  (A TLS stream listener never does:
    [stream_acceptor_asks_nothing].) *)
Theorem mtls_never_dropped `{!PemFiles} (p : CertPair) (l0 l : Live) (m : MtlsConfig) (sni : option string) :
  mtls = Some m → start p = Ok l0 → rtc live_step l0 l →
  ∃ v, client_verifier (pick (alpn_map l) sni) = Some v ∧
    unauthenticated v = (match mode m with Optional => true | Required => false end) ∧ (cas m ≠ [] → roots v ≠ []).
Proof.
  intros E Hs Hr. assert (live_ok l) as [_ (p' & v & Hc & Hb)].
  { apply start_ok in Hs. induction Hr as [|l0 l1 l2 Hst _ IH]; eauto using live_step_ok. }
  destruct (vhost_verifier _ _ _ _ _ _ sni Hb). unfold checks in Hc. rewrite E in Hc. done.
Qed.

End live.

(** * Concrete runs *)

Module Demo.

Local Instance rustls : Rustls := {|
  provider_suites := suite_names.*2;
  versions_fit _ _ := true;
  key_supported k := negb (String.eqb k "");
  chain_fits c _ := match c with [] => false | _ => true end;
|}.

Local Instance files : PemFiles := {|
  file_certs f := if String.eqb f "ca.pem" then Some ["ca"] else if String.eqb f "empty.pem" then Some [] else None;
  file_crls f := if String.eqb f "crl.pem" then Some ["crl"] else if String.eqb f "crl.der" then Some [] else None;
  file_key _ := None;
  usable_anchor _ := true;
  verifier_ok _ := true;
|}.

Definition pair1 : CertPair := {| chain := ["leaf"; "issuer"]; key := "k"; alpn_store := Some "store"; staple := "" |}.
Definition pair2 : CertPair := {| chain := ["leaf2"; "issuer"]; key := "k2"; alpn_store := Some "store"; staple := "" |}.
Definition required : MtlsConfig := {| cas := ["ca.pem"]; mode := Required; crls := ["crl.pem"]; crl_refresh_secs := 60 |}.
Definition map1 : Result VhostAlpnMap :=
  build pair1 options_default None [("old.example", ["http/1.1"])] None.

Definition offers (r : Result VhostAlpnMap) (sni : option string) : list string :=
  match r with Ok m => alpn_protocols (pick m sni) | Err _ => [] end.

Example protocols_offered :
  offers map1 None = ["h2"; "http/1.1"; "acme-tls/1"] ∧ offers map1 (Some "old.example") = ["http/1.1"; "acme-tls/1"].
Proof. done. Qed.

Lemma sni_changes_alpn_only_witness :
  ∃ m, map1 = Ok m ∧ alike (pick m (Some "old.example")) (by_default m).
Proof.
  eexists. split; [reflexivity|]. eapply (sni_changes_alpn_only pair1 options_default None [("old.example", ["http/1.1"])] None).
  reflexivity.
Defined.

Definition live0 : Result Live := start options_default None [] (Some required) pair1.

Definition live1 : option Live :=
  match live0 with Ok l => Some (rotated options_default None [] pair2 (crl_tick options_default None [] required l)) | Err _ => None end.

Lemma mtls_never_dropped_witness :
  ∃ l v, live1 = Some l ∧ client_verifier (pick (alpn_map l) None) = Some v ∧ unauthenticated v = false.
Proof.
  destruct live0 as [l0|] eqn:E; [|discriminate E].
  edestruct (mtls_never_dropped options_default None [] (Some required) pair1 l0
    (rotated options_default None [] pair2 (crl_tick options_default None [] required l0)) required None eq_refl E)
    as (v & Hv & Hu & _).
  - eapply rtc_l; [apply (live_tick _ _ _ _ _ required files); reflexivity|]. eapply rtc_l; [apply live_rotated|apply rtc_refl].
  - eexists _, v. split; [|split; [exact Hv|exact Hu]]. unfold live1. rewrite E. reflexivity.
Defined.

(** A stream listener with [mtls mode="required"] starts, and asks nothing. *)
Example stream_mtls_ignored :
  match build_acceptor_with_pair_alpn
          {| cert := SelfSigned; options := options_default; mtls := Some required; ocsp := ocsp_default |}
          options_default None pair1 with
  | Some (Ok (c, _)) => client_verifier c = None
  | _ => False
  end.
Proof. vm_compute. reflexivity. Qed.

(** A revocation list that is not PEM has no entries to the reader, and the
    listener does not start. *)
Example der_crl_refused :
  build_client_verifier {| cas := ["ca.pem"]; mode := Required; crls := ["crl.der"]; crl_refresh_secs := 0 |} =
  Err "no CRL entries found".
Proof. done. Qed.

Example ciphers_resolved :
  resolve_ciphers ["TLS13_CHACHA20_POLY1305_SHA256"; "TLS13_AES_128_GCM_SHA256"] =
    Ok [TLS13_CHACHA20_POLY1305_SHA256; TLS13_AES_128_GCM_SHA256] ∧
  resolve_ciphers ["RC4_MD5"] = Err "unknown cipher suite".
Proof. done. Qed.

End Demo.

End Tls.
