(* ===== verification/Ocsp.v ===== *)
(** OCSP stapling ([src/cert/ocsp.rs]): when a staple is fetched again, and the
    refresh task as one of the two writers of the channel a listener takes
    its certificate from; the other is the renewal of ACME certificates.

    The X.509 parser and the responder are parameters. Times are in
    nanoseconds. *)
From S2P Require Import Prelude RustStr ParseTls Tls.

Module Ocsp.
Import ParseTls Tls.

(** * The next fetch *)

Definition secs (n : N) : N := n * 10 ^ 9.

(** [chrono_to_systemtime], in nanoseconds since the epoch. *)
Definition chrono_to_systemtime (timestamp : Z) : N := if (timestamp <=? 0)%Z then 0 else secs (Z.to_N timestamp).

Definition schedule_next (next_update : option N) (cfg : OcspConfig) (now : N) : N :=
  let min := secs (min_refresh_secs cfg) in
  match next_update with
  | None => min
  | Some next =>
      if (next <? now)%N then secs (failure_backoff_secs cfg)
      else
        let total := (next - now)%N in
        let chosen := N.min (total / 2) (total - secs 300) in
        if (chosen <? min)%N then min else chosen
  end.

(** A staple that lasts longer than the floor and five minutes is fetched again
    while it has five minutes left; the wait is never shorter than the
    floor. *)
Lemma refreshed_in_time (next now : N) (cfg : OcspConfig) :
  (now + secs (min_refresh_secs cfg) + secs 300 ≤ next)%N →
  (secs (min_refresh_secs cfg) ≤ schedule_next (Some next) cfg now ∧
   now + schedule_next (Some next) cfg now + secs 300 ≤ next)%N.
Proof.
  intros H. unfold schedule_next. assert ((next <? now)%N = false) as -> by (apply N.ltb_ge; lia).
  set (half := ((next - now) / 2)%N). case_match eqn:E; [|apply N.ltb_ge in E]; lia.
Qed.

(** One that lasts less than the floor has expired by the time of the next
    fetch. *)
Lemma expires_before_refresh (next now : N) (cfg : OcspConfig) :
  (now ≤ next)%N → (next < now + secs (min_refresh_secs cfg))%N → (next < now + schedule_next (Some next) cfg now)%N.
Proof.
  intros H H'. unfold schedule_next. assert ((next <? now)%N = false) as -> by (apply N.ltb_ge; lia).
  assert ((next - now) / 2 ≤ next - now)%N as Hh by (apply N.Div0.div_le_upper_bound; lia).
  case_match eqn:E; [lia|]. apply N.ltb_ge in E. lia.
Qed.

(** * Responses *)

Inductive OcspResponseStatus :=
  | Successful | MalformedRequest | InternalError | TryLater | SigRequired | Unauthorized.

#[global] Instance OcspResponseStatus_eq_dec : EqDecision OcspResponseStatus.
Proof. solve_decision. Defined.

(** A response as rasn decodes it: the status, the type of its body, and the
    [nextUpdate] of the first answer in it. *)
Record OcspResponse := {
  status : OcspResponseStatus;
  bytes : option (list N * option (list (option Z)));
}.

Definition OID_OCSP_BASIC : list N := [1; 3; 6; 1; 5; 5; 7; 48; 1; 1].

Record Staple := {
  der : string;
  next_update : option N;
}.

Section response.
Context (decode : string → option OcspResponse).

Definition parse_response (d : string) : Result Staple :=
  resp ← ok_or (decode d) "decoding OCSPResponse";
  if negb (bool_decide (status resp = Successful)) then Err "non-success status"
  else
    '(ty, basic) ← ok_or (bytes resp) "no responseBytes";
    if negb (bool_decide (ty = OID_OCSP_BASIC)) then Err "not id-pkix-ocsp-basic"
    else
      responses ← ok_or basic "decoding BasicOCSPResponse";
      single ← ok_or (head responses) "no SingleResponse";
      Ok {| der := d; next_update := chrono_to_systemtime <$> single |}.

(** Only a successful basic response is stapled, byte for byte. *)
Lemma stapled_verbatim d st :
  parse_response d = Ok st →
  der st = d ∧ ∃ resp ty basic, decode d = Some resp ∧ status resp = Successful ∧ bytes resp = Some (ty, Some basic) ∧
    ty = OID_OCSP_BASIC ∧ basic ≠ [].
Proof.
  unfold parse_response. intros (resp & Hd & H)%bind_Ok. destruct (decode d) as [r|]; [|done]. injection Hd as ->.
  case_bool_decide as Hs; [|done]. cbn in H. apply bind_Ok in H as ([ty basic] & Hb & H).
  destruct (bytes resp) as [[ty' basic']|] eqn:Eb; [|done]. injection Hb as -> ->.
  case_bool_decide as Ht; [|done]. cbn in H. apply bind_Ok in H as (rs & Hrs & (x & Hx & H)%bind_Ok).
  destruct basic as [rs'|]; [|done]. injection Hrs as ->. injection H as <-. split; [done|].
  exists resp, ty, rs. split_and!; try done. by destruct rs.
Qed.

End response.

(** * The refresh task *)

Inductive StapleSource := Url (url : string) | NotOffered.

Inductive Phase :=
  | Reading
  | Fetching (pair : CertPair) (url leaf issuer : string)
  | Sleeping (delay : N)
  | Parked.

(** The channel with the version of its last write, and what the task keeps.
    [cache] is the staples on disk, by leaf. *)
Record State := {
  channel : CertPair;
  version : N;
  seen : N;
  prior_leaf : option string;
  phase : Phase;
  cache : gmap string string;
  refreshes : N;
  failures : N;
}.

Section task.
(** [extract_ocsp_url] on a leaf; the settings; whether there is a state
    directory. *)
Context (extract_ocsp_url : string → Result (option string)) (cfg : OcspConfig) (has_state_dir : bool).

Definition staple_source (leaf : string) : Result StapleSource :=
  url ← extract_ocsp_url leaf; Ok (match url with Some u => Url u | None => NotOffered end).

Definition goes (p : Phase) (s : State) : State :=
  {| channel := channel s; version := version s; seen := seen s; prior_leaf := prior_leaf s; phase := p;
     cache := cache s; refreshes := refreshes s; failures := failures s |}.

Definition fails (s : State) : State :=
  {| channel := channel s; version := version s; seen := seen s; prior_leaf := prior_leaf s;
     phase := Sleeping (secs (failure_backoff_secs cfg)); cache := cache s; refreshes := refreshes s;
     failures := failures s + 1 |}.

(** From the top of the loop to its first wait. *)
Definition read (s : State) : State :=
  let pair := channel s in
  let s := {| channel := channel s; version := version s; seen := version s; prior_leaf := prior_leaf s;
              phase := phase s; cache := cache s; refreshes := refreshes s; failures := failures s |} in
  match chain pair with
  | [] => goes (Sleeping (secs (failure_backoff_secs cfg))) s
  | leaf :: rest =>
      let stale := match prior_leaf s with Some l => if String.eqb l leaf then None else Some l | None => None end in
      let s := {| channel := channel s; version := version s; seen := seen s; prior_leaf := Some leaf;
                  phase := phase s;
                  cache := match stale with Some l => if has_state_dir then delete l (cache s) else cache s | None => cache s end;
                  refreshes := refreshes s; failures := failures s |} in
      match staple_source leaf with
      | Ok NotOffered => goes Parked s
      | Err _ => fails s
      | Ok (Url u) =>
          match rest with
          | [] => goes Parked s
          | issuer :: _ => goes (Fetching pair u leaf issuer) s
          end
      end
  end.

(** The same chain and key with a new staple. *)
Definition stapled (p : CertPair) (d : string) : CertPair :=
  {| chain := chain p; key := key p; alpn_store := alpn_store p; staple := d |}.

(** The end of a fetch. The task holds a receiver of its own, so sending
    never fails. *)
Definition fetched (p : CertPair) (leaf : string) (r : Result Staple) (now : N) (s : State) : State :=
  match r with
  | Ok st =>
      {| channel := stapled p (der st); version := version s + 1; seen := seen s; prior_leaf := prior_leaf s;
         phase := Sleeping (schedule_next (next_update st) cfg now);
         cache := if has_state_dir then <[leaf := der st]> (cache s) else cache s;
         refreshes := refreshes s + 1; failures := failures s |}
  | Err _ => fails s
  end.

(** A renewal sends a pair of its own. *)
Definition renew (p : CertPair) (s : State) : State :=
  {| channel := p; version := version s + 1; seen := seen s; prior_leaf := prior_leaf s; phase := phase s;
     cache := cache s; refreshes := refreshes s; failures := failures s |}.

(** What the responder may answer. *)
Context (answer : string → string → string → Result Staple → Prop).

Inductive task_step : State → State → Prop :=
  | step_read s : phase s = Reading → task_step s (read s)
  | step_fetched s p u leaf issuer r now :
      phase s = Fetching p u leaf issuer → answer u leaf issuer r → task_step s (fetched p leaf r now s)
  | step_wake s d : phase s = Sleeping d → task_step s (goes Reading s)
  | step_changed s : phase s = Parked → seen s ≠ version s → task_step s (goes Reading s).

Inductive step : State → State → Prop :=
  | by_task s s' : task_step s s' → step s s'
  | by_renewal s p : staple p = "" → step s (renew p s).

(** ** Invariant *)

(** A staple belongs to the certificate it is sent with. *)
Definition own_staple (p : CertPair) : Prop :=
  staple p = "" ∨ ∃ u leaf issuer st, chain p !! 0%nat = Some leaf ∧ chain p !! 1%nat = Some issuer ∧
    staple_source leaf = Ok (Url u) ∧ answer u leaf issuer (Ok st) ∧ staple p = der st.

Definition inv (s : State) : Prop :=
  own_staple (channel s) ∧ (seen s ≤ version s)%N ∧
  match phase s with
  | Fetching p u leaf issuer =>
      chain p !! 0%nat = Some leaf ∧ chain p !! 1%nat = Some issuer ∧ staple_source leaf = Ok (Url u) ∧ own_staple p
  | _ => True
  end.

Lemma refresh_inv_goes p s : (∀ a b c d, p ≠ Fetching a b c d) → inv s → inv (goes p s).
Proof. intros Hp (H1 & H2 & _). split_and!; [done..|]. cbn. destruct p as [|a b c d|d|]; [done| |done|done]. by destruct (Hp a b c d). Qed.

Lemma refresh_inv_fails s : inv s → inv (fails s).
Proof. by intros (H1 & H2 & _). Qed.

Lemma refresh_inv_read s : inv s → inv (read s).
Proof.
  intros (H1 & H2 & _). unfold read.
  destruct (chain (channel s)) as [|leaf [|issuer rest]] eqn:E; [by split_and!|..];
    (destruct (staple_source leaf) as [[u|]|] eqn:Es; [|by split_and!|by split_and!]); [by split_and!|].
  split_and!; [done|done|]. cbn. by rewrite E.
Qed.

Lemma refresh_inv_step s s' : inv s → step s s' → inv s'.
Proof.
  intros Hi Hs. destruct Hs as [s s' Ht|s p Hp].
  - destruct Ht as [s Hp|s p u leaf issuer r now Hp Ha|s d Hp|s Hp Hv]; [by apply refresh_inv_read| |by apply refresh_inv_goes..].
    destruct r as [st|e]; [|by apply refresh_inv_fails]. destruct Hi as (H1 & H2 & H3). rewrite Hp in H3.
    split_and!; cbn; [|lia|done]. right. destruct H3 as (H3 & H4 & H5 & _). by exists u, leaf, issuer, st.
  - destruct Hi as (H1 & H2 & H3). split_and!; cbn; [by left|lia|done].
Qed.

(** However fetches and renewals interleave, a listener is never given a
    staple that was fetched for another certificate than the one it is sent
    with. *)
Theorem staple_of_own_certificate (s0 s : State) :
  staple (channel s0) = "" → phase s0 = Reading → seen s0 = version s0 → rtc step s0 s → own_staple (channel s).
Proof.
  intros Hs Hp Hv Hr. assert (inv s) as (H & _); [|done].
  assert (inv s0) as Hi by (split_and!; [by left|lia|by rewrite Hp]). clear Hs Hp Hv.
  induction Hr as [|s0 s1 s2 Hst _ IH]; eauto using refresh_inv_step.
Qed.

(** ** A renewal during a fetch *)

(** The task holds on to this certificate. *)
Definition holds (ch : list string) (k : string) (s : State) : Prop :=
  chain (channel s) = ch ∧ key (channel s) = k ∧
  match phase s with Fetching p _ _ _ => chain p = ch ∧ key p = k | _ => True end.

Lemma read_channel s :
  channel (read s) = channel s ∧ match phase (read s) with Fetching p _ _ _ => p = channel s | _ => True end.
Proof.
  unfold read. destruct (chain (channel s)) as [|leaf [|issuer rest]]; [done|..]; by destruct (staple_source leaf) as [[u|]|].
Qed.

Lemma holds_step ch k s s' : holds ch k s → task_step s s' → holds ch k s'.
Proof.
  intros (H1 & H2 & H3) Ht. destruct Ht as [s Hp|s p u leaf issuer r now Hp Ha|s d Hp|s Hp Hv]; [| |done|done].
  - destruct (read_channel s) as [E Hph]. unfold holds. rewrite E. split_and!; [done..|].
    destruct (phase (read s)); [done| |done|done]. by subst.
  - rewrite Hp in H3. destruct r; [|done]. destruct H3. by split_and!.
Qed.

(** The task changes the staple only: between renewals it leaves the
    certificate alone, provided none came while it was fetching. *)
Theorem refresh_keeps_certificate (s s' : State) :
  (match phase s with Fetching p _ _ _ => chain p = chain (channel s) ∧ key p = key (channel s) | _ => True end) →
  rtc task_step s s' → chain (channel s') = chain (channel s) ∧ key (channel s') = key (channel s).
Proof.
  intros Hp Hr. assert (holds (chain (channel s)) (key (channel s)) s') as (? & ? & _); [|done].
  assert (holds (chain (channel s)) (key (channel s)) s) as Hh by done. revert Hh.
  generalize (chain (channel s)), (key (channel s)). clear Hp.
  induction Hr as [|s0 s1 s2 Hst _ IH]; eauto using holds_step.
Qed.

(** A renewal that comes while a staple is fetched is undone when the fetch
    succeeds, and the old certificate is what listeners are given until there
    is another renewal, whatever the task does. *)
Theorem renewal_undone (s s' : State) (p new : CertPair) (u leaf issuer : string) (st : Staple) (now : N) :
  phase s = Fetching p u leaf issuer →
  rtc task_step (fetched p leaf (Ok st) now (renew new s)) s' →
  chain (channel s') = chain p ∧ key (channel s') = key p.
Proof.
  intros Hp Hr. assert (holds (chain p) (key p) s') as (? & ? & _); [|done].
  assert (holds (chain p) (key p) (fetched p leaf (Ok st) now (renew new s))) as Hh by done. revert Hh.
  generalize (chain p), (key p). clear Hp.
  induction Hr as [|s0 s1 s2 Hst _ IH]; eauto using holds_step.
Qed.

End task.

(** * Concrete runs *)

Module Demo.

Definition url_of (leaf : string) : Result (option string) := Ok (Some "http://ocsp").
Definition answer (u leaf issuer : string) (r : Result Staple) : Prop :=
  r = Ok {| der := "ok:" +:+ leaf; next_update := None |}.

Definition old : CertPair := {| chain := ["leaf1"; "ca"]; key := "k1"; alpn_store := None; staple := "" |}.
Definition new : CertPair := {| chain := ["leaf2"; "ca"]; key := "k2"; alpn_store := None; staple := "" |}.
Definition s0 : State := {| channel := old; version := 0; seen := 0; prior_leaf := None; phase := Reading; cache := ∅;
  refreshes := 0; failures := 0 |}.
Definition s1 : State := read url_of ocsp_default true s0.
Definition staple1 : Staple := {| der := "ok:leaf1"; next_update := None |}.
Definition s2 : State := fetched ocsp_default true old "leaf1" (Ok staple1) 0 s1.

Lemma staple_of_own_certificate_witness : own_staple url_of answer (channel s2).
Proof.
  apply (staple_of_own_certificate url_of ocsp_default true answer s0 s2 eq_refl eq_refl eq_refl).
  eapply rtc_l; [apply by_task, step_read; reflexivity|]. eapply rtc_l; [|apply rtc_refl].
  apply by_task. apply (step_fetched url_of ocsp_default true answer s1 old "http://ocsp" "leaf1" "ca" (Ok staple1) 0); reflexivity.
Defined.

Lemma refresh_keeps_certificate_witness : chain (channel s1) = ["leaf1"; "ca"].
Proof.
  apply (refresh_keeps_certificate url_of ocsp_default true answer s0 s1 I).
  eapply rtc_l; [apply step_read; reflexivity|apply rtc_refl].
Defined.

(** The new certificate arrives during the fetch; after it the old one is
    sent again, and is the one that is read from then on. *)
Definition after_fetch : State := fetched ocsp_default true old "leaf1" (Ok staple1) 0 (renew new s1).

Lemma renewal_undone_witness :
  channel (renew new s1) = new ∧ chain (channel (read url_of ocsp_default true (goes Reading after_fetch))) = ["leaf1"; "ca"].
Proof.
  split; [reflexivity|].
  apply (renewal_undone url_of ocsp_default true answer s1 (read url_of ocsp_default true (goes Reading after_fetch))
    old new "http://ocsp" "leaf1" "ca" staple1 0 eq_refl).
  eapply rtc_l; [eapply step_wake; reflexivity|]. eapply rtc_l; [apply step_read; reflexivity|apply rtc_refl].
Defined.

(** A renewal during a sleep is stapled only when the sleep ends. *)
Example unstapled_while_asleep : staple (channel (renew new s2)) = "" ∧ phase (renew new s2) = Sleeping (secs 3600).
Proof. done. Qed.

(** With the default floor of an hour, a staple of a week is fetched after
    three days and a half, and one of half an hour expires unreplaced. *)
Example waits :
  schedule_next (Some (secs 604800)) ocsp_default 0 = secs 302400 ∧
  schedule_next (Some (secs 1800)) ocsp_default 0 = secs 3600.
Proof. by vm_compute. Qed.

End Demo.

End Ocsp.
