(* ===== verification/Dns.v ===== *)
(** DNS-01 providers ([src/dns_provider.rs]): the clients that set and clear
    the TXT record of a challenge at an acme-dns server, at Cloudflare or
    through a program.

    What the network and the programs do is a parameter over the state of the
    outside world; [CloudflareZone] states what the API documents of the
    records of a zone. *)
From S2P Require Import Prelude RustStr Http Jwt Oidc StaticFiles ParseTls.

(** A request and its answer; the body of an answer may fail to arrive. *)
Module Dns.

Record Request := {
  rq_method : string;
  rq_uri : string;
  rq_headers : list (string * string);
  rq_body : string;
}.

Record Response := {
  rs_status : N;
  rs_body : Result string;
}.

Definition is_success (r : Response) : bool := rs_status r / 100 =? 2.

Definition urlencoding (s : string) : string := StaticFiles.url_encode_segment s.

(** A text between quotes, as it stands. *)
Definition QUOTE : ascii := "034".
Definition quoted (s : string) : string := String QUOTE (s +:+ String QUOTE "").

Section providers.
Context `{Json} {W : Type}.
(** An HTTPS exchange; [None] where the request cannot be built. *)
Context (buildable : Request → bool) (exchange : Request → W → Result Response * W).
(** A program with its arguments and environment: whether it ended well. *)
Context (spawn : string → list string → list (string * string) → W → Result bool * W).

Definition request (rq : Request) (w : W) : Result Response * W :=
  if buildable rq then exchange rq w else (Err "building request", w).

(** ** acme-dns *)

Definition acme_dns_body (subdomain value : string) : string :=
  "{" +:+ quoted "subdomain" +:+ ":" +:+ quoted subdomain +:+ "," +:+ quoted "txt" +:+ ":" +:+ quoted value +:+ "}".

Definition acme_dns_set (api_url username password subdomain value : string) (w : W) : Result unit * W :=
  let url := trim_end_by (λ c, Ascii.eqb c "/") api_url +:+ "/update" in
  match request {| rq_method := "POST"; rq_uri := url;
                   rq_headers := [("X-Api-User", username); ("X-Api-Key", password); ("Content-Type", "application/json")];
                   rq_body := acme_dns_body subdomain value |} w with
  | (Ok r, w) => (if is_success r then Ok tt else Err "acme-dns /update", w)
  | (Err e, w) => (Err e, w)
  end.

(** ** Cloudflare *)

Definition records_url (zone_id : string) : string :=
  "https://api.cloudflare.com/client/v4/zones/" +:+ zone_id +:+ "/dns_records".

Definition auth_header (api_token : string) : string * string := ("Authorization", "Bearer " +:+ api_token).

Definition trim_dots (fqdn : string) : string := trim_end_by (λ c, Ascii.eqb c ".") fqdn.

Definition record_json (name value : string) : json :=
  JObj (list_to_map [("type", JStr "TXT"); ("name", JStr name); ("content", JStr value); ("ttl", JU64 60)]).

Definition create_request (zone_id api_token name value : string) : Request :=
  {| rq_method := "POST"; rq_uri := records_url zone_id;
     rq_headers := [auth_header api_token; ("Content-Type", "application/json")];
     rq_body := json_print (record_json name value) |}.

Definition list_request (zone_id api_token name value : string) : Request :=
  {| rq_method := "GET";
     rq_uri := records_url zone_id +:+ "?type=TXT&name=" +:+ urlencoding name +:+ "&content=" +:+ urlencoding value;
     rq_headers := [auth_header api_token]; rq_body := "" |}.

Definition delete_request (zone_id api_token id : string) : Request :=
  {| rq_method := "DELETE"; rq_uri := records_url zone_id +:+ "/" +:+ id; rq_headers := [auth_header api_token]; rq_body := "" |}.

(** [v.get("result")?.as_array()?.first()?.get("id")?.as_str()]. *)
Definition first_id (v : json) : option string :=
  l ← match Jwt.json_get v "result" with Some (JArr l) => Some l | _ => None end;
  r ← head l;
  match Jwt.json_get r "id" with Some (JStr s) => Some s | _ => None end.

Definition cloudflare_set (zone_id api_token fqdn value : string) (w : W) : Result unit * W :=
  match request (create_request zone_id api_token (trim_dots fqdn) value) w with
  | (Ok r, w) => (if is_success r then Ok tt else Err "Cloudflare create-record", w)
  | (Err e, w) => (Err e, w)
  end.

Definition cloudflare_clear (zone_id api_token fqdn value : string) (w : W) : Result unit * W :=
  match request (list_request zone_id api_token (trim_dots fqdn) value) w with
  | (Err e, w) => (Err e, w)
  | (Ok r, w) =>
      if negb (is_success r) then (Err "Cloudflare list-records", w)
      else
        match (body ← rs_body r; ok_or (json_parse body) "parsing Cloudflare list-records response") with
        | Err e => (Err e, w)
        | Ok v =>
            match first_id v with
            | None => (Ok tt, w)
            | Some id =>
                match request (delete_request zone_id api_token id) w with
                | (Ok r, w) => (if is_success r then Ok tt else Err "Cloudflare delete-record", w)
                | (Err e, w) => (Err e, w)
                end
            end
        end
  end.

(** ** Programs *)

Definition exec_run (program : string) (args : list string) (action fqdn value : string) (w : W) : Result unit * W :=
  match spawn program args [("HYPERSHUNT_DNS_ACTION", action); ("HYPERSHUNT_DNS_FQDN", fqdn); ("HYPERSHUNT_DNS_VALUE", value)] w with
  | (Ok true, w) => (Ok tt, w)
  | (Ok false, w) => (Err "DNS exec hook", w)
  | (Err e, w) => (Err e, w)
  end.

(** ** Providers *)

(** [DnsProvider], with the methods of the three implementations. *)
Record DnsProvider := {
  set_txt : string → string → W → Result unit * W;
  clear_txt : string → string → W → Result unit * W;
}.

Definition build (cfg : ParseTls.DnsProviderConfig) : DnsProvider :=
  match cfg with
  | ParseTls.AcmeDns api_url username password subdomain =>
      {| set_txt _ value := acme_dns_set api_url username password subdomain value; clear_txt _ _ w := (Ok tt, w) |}
  | ParseTls.Cloudflare zone_id api_token =>
      {| set_txt := cloudflare_set zone_id api_token; clear_txt := cloudflare_clear zone_id api_token |}
  | ParseTls.Exec program args =>
      {| set_txt := exec_run program args "set"; clear_txt := exec_run program args "clear" |}
  end.

(** * What the records of a zone become *)

Record Rec := {
  r_id : string;
  r_name : string;
  r_content : string;
}.

Definition matches (name value : string) (r : Rec) : bool := String.eqb (r_name r) name && String.eqb (r_content r) value.

(** Characters a query or a path segment of the client is made of. *)
Definition uri_char (c : ascii) : bool :=
  StaticFiles.href_char c || Ascii.eqb c "?" || Ascii.eqb c "&" || Ascii.eqb c "=" || Ascii.eqb c "/".

(** The documented API under a zone and a token that can stand in a URI and a
    header: a record created is added under a new identifier, the list has
    the records of a name and a content, both decoded from the query, and a
    deletion removes the record of an identifier. *)
Class CloudflareZone (zone_id api_token : string) (records : W → list Rec) : Prop := {
  cf_buildable m rest hs body :
    m ∈ ["POST"; "GET"; "DELETE"] → str_all uri_char rest = true → hs = [] ∨ hs = [("Content-Type", "application/json")] →
    buildable {| rq_method := m; rq_uri := records_url zone_id +:+ rest; rq_headers := auth_header api_token :: hs; rq_body := body |} = true;
  cf_ids w x : x ∈ records w → str_all StaticFiles.url_safe (r_id x) = true;
  cf_distinct w : NoDup (r_id <$> records w);
  cf_create rq name value w :
    rq_method rq = "POST" → rq_uri rq = records_url zone_id → auth_header api_token ∈ rq_headers rq →
    json_parse (rq_body rq) = Some (record_json name value) →
    ∃ r id w', exchange rq w = (Ok r, w') ∧ is_success r = true ∧
      records w' = records w ++ [{| r_id := id; r_name := name; r_content := value |}];
  cf_list rq n v w :
    rq_method rq = "GET" → contains_char "&" n = false → contains_char "&" v = false →
    rq_uri rq = records_url zone_id +:+ "?type=TXT&name=" +:+ n +:+ "&content=" +:+ v → auth_header api_token ∈ rq_headers rq →
    ∃ r w' body m, exchange rq w = (Ok r, w') ∧ is_success r = true ∧ records w' = records w ∧ rs_body r = Ok body ∧
      json_parse body = Some (JObj m) ∧
      m !! "result" = Some (JArr ((λ x, JObj {["id" := JStr (r_id x)]}) <$>
        List.filter (matches (StaticFiles.percent_decode_bytes n) (StaticFiles.percent_decode_bytes v)) (records w)));
  cf_delete rq id w :
    rq_method rq = "DELETE" → rq_uri rq = records_url zone_id +:+ "/" +:+ id → auth_header api_token ∈ rq_headers rq →
    ∃ r w', exchange rq w = (Ok r, w') ∧ is_success r = true ∧
      records w' = List.filter (λ x, negb (String.eqb (r_id x) id)) (records w);
}.

(** The records without the first that satisfies a test. *)
Fixpoint remove_first (p : Rec → bool) (l : list Rec) : list Rec :=
  match l with
  | [] => []
  | x :: l' => if p x then l' else x :: remove_first p l'
  end.

(** * Lemmas *)

Lemma filter_other_ids id l : id ∉ (r_id <$> l) → List.filter (λ x, negb (String.eqb (r_id x) id)) l = l.
Proof.
  induction l as [|x l IH]; [done|]. rewrite fmap_cons. intros [Hx Hl]%not_elem_of_cons. cbn.
  destruct (String.eqb_spec (r_id x) id) as [E|]; [congruence|]. cbn. by rewrite IH.
Qed.

Lemma head_filter p (l : list Rec) x : head (List.filter p l) = Some x → x ∈ l.
Proof. intros [Hx _]%head_Some_elem_of%list_elem_of_In%filter_In. by apply list_elem_of_In. Qed.

(** Deleting by the identifier of the first match deletes the first match. *)
Lemma delete_first p l x :
  NoDup (r_id <$> l) → head (List.filter p l) = Some x →
  List.filter (λ y, negb (String.eqb (r_id y) (r_id x))) l = remove_first p l.
Proof.
  induction l as [|y l IH]; [done|]. rewrite fmap_cons. intros [Hy Hl]%NoDup_cons. cbn [List.filter remove_first].
  destruct (p y) eqn:Ep; cbn [head].
  - intros [= ->]. rewrite String.eqb_refl. cbn. by apply filter_other_ids.
  - intros Hx. destruct (String.eqb_spec (r_id y) (r_id x)) as [E|]; cbn [negb]; [|by rewrite IH].
    destruct Hy. rewrite E. apply list_elem_of_fmap. exists x. split; [done|].
    by eapply head_filter.
Qed.

Lemma remove_first_none p l : List.filter p l = [] → remove_first p l = l.
Proof. induction l as [|x l IH]; [done|]. cbn. destruct (p x); [done|]. intros E. by rewrite IH. Qed.

Lemma remove_first_app p l x : List.filter p l = [] → p x = true → remove_first p (l ++ [x]) = l.
Proof.
  intros Hl Hx. induction l as [|y l IH]; cbn in *; [by rewrite Hx|]. destruct (p y); [done|]. by rewrite IH.
Qed.

Lemma encoded_uri s : str_all uri_char (urlencoding s) = true.
Proof.
  eapply str_all_impl; [|apply StaticFiles.encode_chars]. intros c Hc. unfold uri_char. by rewrite Hc.
Qed.

Lemma encoded_no_amp s : contains_char "&" (urlencoding s) = false.
Proof.
  rewrite contains_char_all, (str_all_impl StaticFiles.href_char); [done| |apply StaticFiles.encode_chars].
  by intros [[] [] [] [] [] [] [] []].
Qed.

Lemma list_uri name value :
  str_all uri_char ("?type=TXT&name=" +:+ urlencoding name +:+ "&content=" +:+ urlencoding value) = true.
Proof. by rewrite !str_all_app, !encoded_uri. Qed.

Lemma id_uri id : str_all StaticFiles.url_safe id = true → str_all uri_char ("/" +:+ id) = true.
Proof.
  intros Hid. rewrite str_all_app. cbn. eapply str_all_impl; [|done]. intros c Hc.
  unfold uri_char, StaticFiles.href_char. by rewrite Hc.
Qed.

Lemma record_flat name value : flat_object (record_json name value).
Proof. cbn [record_json flat_object list_to_map fold_right foldr]. repeat (apply map_Forall_insert_2; [done|]). apply map_Forall_empty. Qed.

Lemma first_id_of m (l : list Rec) :
  m !! "result" = Some (JArr ((λ x, JObj {["id" := JStr (r_id x)]}) <$> l)) → first_id (JObj m) = r_id <$> head l.
Proof. intros Hm. unfold first_id. cbn [Jwt.json_get]. rewrite Hm. by destruct l. Qed.

Section zone.
Context `{!JsonLaws} {zone_id api_token : string} {records : W → list Rec}.
Context {zone : CloudflareZone zone_id api_token records}.

(** The client's requests can be built. *)
Lemma goes_out m rest hs body w :
  m ∈ ["POST"; "GET"; "DELETE"] → str_all uri_char rest = true → hs = [] ∨ hs = [("Content-Type", "application/json")] →
  let rq := {| rq_method := m; rq_uri := records_url zone_id +:+ rest; rq_headers := auth_header api_token :: hs; rq_body := body |} in
  request rq w = exchange rq w.
Proof. intros. unfold request, rq. by rewrite cf_buildable. Qed.

Lemma create_adds fqdn value w :
  ∃ id w', cloudflare_set zone_id api_token fqdn value w = (Ok tt, w') ∧
    records w' = records w ++ [{| r_id := id; r_name := trim_dots fqdn; r_content := value |}].
Proof.
  destruct (cf_create (create_request zone_id api_token (trim_dots fqdn) value) (trim_dots fqdn) value w)
    as (r & id & w' & E & Hr & Hw'); [done|done|by left|by apply json_parse_print, record_flat|].
  exists id, w'. split; [|done]. unfold cloudflare_set.
  pose proof (goes_out "POST" "" [("Content-Type", "application/json")]
    (json_print (record_json (trim_dots fqdn) value)) w ltac:(set_solver) eq_refl ltac:(by right)) as Hb.
  rewrite str_app_nil_r in Hb. unfold create_request in *. by rewrite Hb, E, Hr.
Qed.

Lemma listed fqdn value w :
  ∃ r w' body m, request (list_request zone_id api_token (trim_dots fqdn) value) w = (Ok r, w') ∧
    is_success r = true ∧ records w' = records w ∧ rs_body r = Ok body ∧ json_parse body = Some (JObj m) ∧
    first_id (JObj m) = r_id <$> head (List.filter (matches (trim_dots fqdn) value) (records w)).
Proof.
  destruct (cf_list (list_request zone_id api_token (trim_dots fqdn) value) (urlencoding (trim_dots fqdn)) (urlencoding value) w)
    as (r & w' & body & m & E & Hr & Hw & Hb & Hj & Hm); [done|apply encoded_no_amp|apply encoded_no_amp|done|by left|].
  unfold urlencoding in Hm. rewrite !StaticFiles.decode_encode in Hm. exists r, w', body, m. apply first_id_of in Hm.
  split; [|done].
  unfold list_request. rewrite goes_out; [done|set_solver|apply list_uri|by left].
Qed.

Lemma deleted id w :
  str_all StaticFiles.url_safe id = true →
  ∃ r w', request (delete_request zone_id api_token id) w = (Ok r, w') ∧ is_success r = true ∧
    records w' = List.filter (λ x, negb (String.eqb (r_id x) id)) (records w).
Proof.
  intros Hid. destruct (cf_delete (delete_request zone_id api_token id) id w) as (r & w' & E & Hr & Hw); [done|done|by left|].
  exists r, w'. split; [|done]. unfold delete_request. rewrite goes_out; [done|set_solver|by apply id_uri|by left].
Qed.

(** Clearing a challenge removes the oldest record of that name and value,
    and no other record: names and values go through the query encoded. *)
Theorem clear_removes_one fqdn value w :
  ∃ w', cloudflare_clear zone_id api_token fqdn value w = (Ok tt, w') ∧
    records w' = remove_first (matches (trim_dots fqdn) value) (records w).
Proof.
  destruct (listed fqdn value w) as (r & w1 & body & m & E & Hr & Hw & Hb & Hj & Hid).
  unfold cloudflare_clear. rewrite E, Hr, Hb. cbn [negb mbind result_bind]. rewrite Hj. cbn [ok_or]. rewrite Hid.
  destruct (head (List.filter (matches (trim_dots fqdn) value) (records w))) as [x|] eqn:Hx; cbn [fmap option_fmap option_map].
  - destruct (deleted (r_id x) w1) as (r2 & w2 & E2 & Hr2 & Hw2).
    { eapply (cf_ids w), head_filter, Hx. }
    exists w2. rewrite E2, Hr2, Hw2, Hw. split; [done|]. apply delete_first; [apply cf_distinct|done].
  - exists w1. rewrite Hw. split; [done|]. symmetry. apply remove_first_none. by apply head_None.
Qed.

(** A challenge set and cleared leaves the zone as it was, when the zone had
    no such record before. *)
Theorem set_then_clear fqdn value w :
  List.filter (matches (trim_dots fqdn) value) (records w) = [] →
  ∃ w1 w2, set_txt (build (ParseTls.Cloudflare zone_id api_token)) fqdn value w = (Ok tt, w1) ∧
    clear_txt (build (ParseTls.Cloudflare zone_id api_token)) fqdn value w1 = (Ok tt, w2) ∧ records w2 = records w.
Proof.
  intros Hw. destruct (create_adds fqdn value w) as (id & w1 & E1 & H1).
  destruct (clear_removes_one fqdn value w1) as (w2 & E2 & H2). exists w1, w2. split; [done|]. split; [done|].
  rewrite H2, H1. apply remove_first_app; [done|]. unfold matches. cbn. by rewrite !String.eqb_refl.
Qed.

End zone.

End providers.

(** A server that keeps to the documented API, and what the three clients do. *)
Module Demo.
Import Jwt.Demo.

(** Answers are the flat objects of [Jwt.Demo], or a list of identifiers. *)
Definition ids_json (ids : list string) : json :=
  JObj {["result" := JArr ((λ i, JObj {["id" := JStr i]}) <$> ids)]}.

#[local] Instance api_json : Json := {
  json_print := @json_print flat_json;
  json_parse s :=
    match strip_prefix "L" s with
    | Some r => '(l, _) ← take_list take_str (String.length r) r; Some (ids_json l)
    | None => @json_parse flat_json s
    end;
}.

Lemma put_list_digit {A} (f : A → string) l : strip_prefix "L" (put_list f l) = None.
Proof. by destruct l. Qed.

#[local] Instance api_json_laws : JsonLaws.
Proof.
  split. intros v Hv. pose proof (@json_parse_print flat_json flat_json_laws v Hv) as E.
  cbn [json_parse json_print api_json]. destruct v as [| | | | | | |m]; cbn in Hv; try done.
  rewrite <- E. cbn [json_print flat_json]. by rewrite put_list_digit.
Qed.

Lemma ids_read ids : json_parse ("L" +:+ put_list put_str ids) = Some (ids_json ids).
Proof.
  cbn [json_parse api_json]. rewrite strip_prefix_app.
  rewrite <- (str_app_nil_r (put_list put_str ids)) at 2.
  rewrite take_put_list; [done|intros; apply take_put_str|apply put_list_length].
Qed.

(** The names and values of the server by position, gaps where a record was
    deleted; the position is the identifier. *)
Abbreviation Zone := (list (option (string * string))).

Fixpoint records_from (i : N) (z : Zone) : list Rec :=
  match z with
  | [] => []
  | None :: z' => records_from (i + 1) z'
  | Some (n, v) :: z' => {| r_id := dec i; r_name := n; r_content := v |} :: records_from (i + 1) z'
  end.

Fixpoint delete_from (i : N) (id : string) (z : Zone) : Zone :=
  match z with
  | [] => []
  | x :: z' => (if String.eqb (dec i) id then None else x) :: delete_from (i + 1) id z'
  end.

Definition server (zone_id : string) (rq : Request) (z : Zone) : Result Response * Zone :=
  let ok body z := (Ok {| rs_status := 200; rs_body := Ok body |}, z) in
  let refused := (Ok {| rs_status := 400; rs_body := Ok "" |}, z) in
  if String.eqb (rq_method rq) "POST" then
    match (v ← json_parse (rq_body rq); n ← Jwt.get_text v "name"; c ← Jwt.get_text v "content"; Some (n, c)) with
    | Some x => ok "" (z ++ [Some x])
    | None => refused
    end
  else if String.eqb (rq_method rq) "GET" then
    match (q ← strip_prefix (records_url zone_id +:+ "?type=TXT&name=") (rq_uri rq);
           '(n, q) ← split_once "&" q; v ← strip_prefix "content=" q; Some (n, v)) with
    | Some (n, v) =>
        ok ("L" +:+ put_list put_str (r_id <$>
          List.filter (matches (StaticFiles.percent_decode_bytes n) (StaticFiles.percent_decode_bytes v)) (records_from 0 z))) z
    | None => refused
    end
  else
    match strip_prefix (records_url zone_id +:+ "/") (rq_uri rq) with
    | Some id => ok "" (delete_from 0 id z)
    | None => refused
    end.

Definition any_request (rq : Request) : bool := true.

Lemma delete_records i id z : records_from i (delete_from i id z) = List.filter (λ x, negb (String.eqb (r_id x) id)) (records_from i z).
Proof.
  revert i. induction z as [|[[n v]|] z IH]; intros i; [done| |]; cbn [delete_from records_from].
  - cbn. destruct (String.eqb (dec i) id); cbn; by rewrite IH.
  - destruct (String.eqb (dec i) id); cbn; by rewrite IH.
Qed.

Lemma append_records i z n v :
  ∃ id, records_from i (z ++ [Some (n, v)]) = records_from i z ++ [{| r_id := id; r_name := n; r_content := v |}].
Proof.
  revert i. induction z as [|[[n' v']|] z IH]; intros i; [by exists (dec i)| |]; destruct (IH (i + 1)) as [id E];
    exists id; cbn; by rewrite E.
Qed.

Lemma records_ids i z id : id ∈ r_id <$> records_from i z → ∃ k, i ≤ k ∧ id = dec k.
Proof.
  revert i. induction z as [|[[n v]|] z IH]; intros i; cbn; [set_solver| |].
  - intros [->|Hin]%elem_of_cons; [by exists i|]. destruct (IH _ Hin) as (k & ? & ?). exists k. split; [lia|done].
  - intros Hin. destruct (IH _ Hin) as (k & ? & ?). exists k. split; [lia|done].
Qed.

Lemma records_distinct i z : NoDup (r_id <$> records_from i z).
Proof.
  revert i. induction z as [|[[n v]|] z IH]; intros i; cbn; [constructor| |done].
  constructor; [|done]. intros (k & Hk & E)%records_ids. apply (inj pretty) in E. lia.
Qed.

#[local] Instance server_zone : CloudflareZone any_request (server "Z") "Z" "T" (records_from 0).
Proof.
  split.
  - done.
  - intros w x Hx. destruct (records_ids 0 w (r_id x)) as (k & _ & ->); [by apply list_elem_of_fmap_2|].
    eapply str_all_impl; [|apply dec_digits]. by intros [[] [] [] [] [] [] [] []].
  - intros w. apply records_distinct.
  - intros rq name value w Hm _ _ Hj. unfold server. rewrite Hm, Hj. destruct (append_records 0 w name value) as [id E].
    eexists _, id, _. split; [cbn; reflexivity|]. done.
  - intros rq n v w Hm Hn _ Hu _. unfold server. rewrite Hm, Hu.
    rewrite <- str_app_assoc, strip_prefix_app. cbn [mbind option_bind].
    change ("&content=" +:+ v) with (String "&" ("content=" +:+ v)). rewrite split_once_app by done. cbn [mbind option_bind].
    rewrite strip_prefix_app. cbn [mbind option_bind].
    eexists _, _, _, _. split; [cbn -[String.append]; reflexivity|]. split; [done|]. split; [done|]. split; [done|].
    split; [apply ids_read|]. rewrite lookup_singleton_eq. by rewrite <- list_fmap_compose.
  - intros rq id w Hm Hu _. unfold server. rewrite Hm, Hu. rewrite <- str_app_assoc, strip_prefix_app.
    eexists _, _. split; [cbn; reflexivity|]. split; [done|]. apply delete_records.
Qed.

(** Another challenge and a gap stand in the zone. *)
Definition z0 : Zone := [Some ("_acme-challenge.a.test", "other"); None].

Lemma set_then_clear_witness :
  ∃ w1 w2, set_txt (build any_request (server "Z") (λ _ _ _ w, (Ok true, w)) (ParseTls.Cloudflare "Z" "T")) "_acme-challenge.a.test." "tok=" z0 = (Ok tt, w1) ∧
    clear_txt (build any_request (server "Z") (λ _ _ _ w, (Ok true, w)) (ParseTls.Cloudflare "Z" "T")) "_acme-challenge.a.test." "tok=" w1 = (Ok tt, w2) ∧
    records_from 0 w2 = records_from 0 z0.
Proof. apply (set_then_clear any_request (server "Z") (λ _ _ _ w, (Ok true, w))). reflexivity. Defined.

(** Of two records of one name and value the older is cleared. *)
Lemma older_is_cleared :
  cloudflare_clear any_request (server "Z") "Z" "T" "n." "v" [Some ("n", "v"); Some ("n", "w"); Some ("n", "v")] =
    (Ok tt, [None; Some ("n", "w"); Some ("n", "v")]).
Proof. by vm_compute. Qed.

(** The body sent to an acme-dns server has the subdomain as it stands: a
    quote in it writes another member. *)
Lemma subdomain_writes_member :
  acme_dns_body ("a" +:+ String QUOTE ("," +:+ quoted "x" +:+ ":" +:+ String QUOTE "b")) "v" =
    "{" +:+ quoted "subdomain" +:+ ":" +:+ quoted "a" +:+ "," +:+ quoted "x" +:+ ":" +:+ quoted "b" +:+ "," +:+
      quoted "txt" +:+ ":" +:+ quoted "v" +:+ "}".
Proof. by vm_compute. Qed.

End Demo.

End Dns.
