(* ===== verification/H3Client.v ===== *)
(** The HTTP/3 client of the reverse proxy ([src/handler/proxy/h3.rs]): the one
    connection it keeps per upstream, shared by the requests in flight and
    watched by the reaper, and the bodies it streams.

    A step is what a task does between two points where it can be suspended.
    The mutex of the cache is held across a handshake and nothing else, so
    every other use of the cache is one step of a state where nobody
    connects.  What quinn and h3 do is in the events: a connection may close at
    any time, and on a closed one no stream opens and nothing more arrives. *)
From S2P Require Import Prelude RustStr Http ProxyRequest.

Module H3Client.

(** * Construction *)

Section construction.
Context `{Uris}.

Record Client := {
  authority : string;
  server_name : string;
  port_u16 : option N;
  reaper : option (Duration * Duration);
  verify : bool;
}.

Definition DEFAULT_IDLE_TIMEOUT : Duration := from_secs 90.
Definition min_tick : Duration := 50 * 1000000.

(** The idle time and the tick of the reaper, where it runs. *)
Definition reaper_of (pool_idle : option Duration) : option (Duration * Duration) :=
  match pool_idle with
  | Some 0 => None
  | d => let idle := default DEFAULT_IDLE_TIMEOUT d in Some (idle, N.max (idle / 4) min_tick)
  end.

(** [quic_config] and [endpoint] are whether quinn takes the rustls settings
    and binds a socket, [server_name_ok] is the parser of rustls. *)
Definition new_with_crypto (quic_config endpoint : bool) (server_name_ok : string → bool) (verify : bool)
    (upstream : uri) (pool_idle : option Duration) : Result Client :=
  if negb quic_config then Err "rustls to quic"
  else if negb endpoint then Err "endpoint"
  else
    a ← ok_or (uri_authority upstream) "upstream has no authority";
    let name := default "" (uri_host upstream) in
    if server_name_ok name then
      Ok {| authority := a; server_name := name; port_u16 := uri_port_u16 upstream; reaper := reaper_of pool_idle; verify := verify |}
    else Err "bad upstream host".

Definition new (quic_config endpoint : bool) (server_name_ok : string → bool) : uri → option Duration → Result Client :=
  new_with_crypto quic_config endpoint server_name_ok true.
Definition new_skip_verify (quic_config endpoint : bool) (server_name_ok : string → bool) : uri → option Duration → Result Client :=
  new_with_crypto quic_config endpoint server_name_ok false.

(** The first address of the name, at the port of the upstream or 443. *)
Definition resolve {A} (lookup_host : string → N → Result (list A)) (c : Client) : Result A :=
  addrs ← lookup_host (server_name c) (default 443 (port_u16 c));
  ok_or (head addrs) "no addresses for upstream".

End construction.

(** * Connections and requests *)

(** A connection: whether its close reason is set, and whether the task that
    drives it runs. *)
Record Conn := {
  closed : bool;
  drive : bool;
}.

Record H3Cached := {
  conn : N;
  last_used : Instant;
}.

(** Where a request is: [tried] is the connection its first attempt failed on,
    [arrived] whether the rest of the response body has arrived. *)
Inductive Phase :=
  | Wants (tried : option N)
  | Connecting (tried : option N)
  | Sending (c : N) (tried : option N)
  | Evicting (c : N)
  | Streaming (c : N)
  | Failing
  | Answered (c : N) (arrived : bool)
  | Refused
  | Done (complete : bool)
  | Cancelled.

(** [attempts] records the calls of [send_request]: the request and the
    connection it went to. *)
Record State := {
  now : Instant;
  conns : gmap N Conn;
  next : N;
  cached : option H3Cached;
  lock : option N;
  reqs : gmap N Phase;
  handshakes : N;
  wake : Instant;
  attempts : list (N * N);
}.

Definition set_req (r : N) (p : Phase) (s : State) : State :=
  {| now := now s; conns := conns s; next := next s; cached := cached s; lock := lock s; reqs := <[r := p]> (reqs s);
     handshakes := handshakes s; wake := wake s; attempts := attempts s |}.

Definition set_lock (l : option N) (s : State) : State :=
  {| now := now s; conns := conns s; next := next s; cached := cached s; lock := l; reqs := reqs s;
     handshakes := handshakes s; wake := wake s; attempts := attempts s |}.

Definition count_handshake (s : State) : State :=
  {| now := now s; conns := conns s; next := next s; cached := cached s; lock := lock s; reqs := reqs s;
     handshakes := wrap64 (handshakes s + 1); wake := wake s; attempts := attempts s |}.

(** [send_request] on connection [c]: the attempt is on its way. *)
Definition sends (r c : N) (tried : option N) (s : State) : State :=
  {| now := now s; conns := conns s; next := next s; cached := cached s; lock := lock s;
     reqs := <[r := Sending c tried]> (reqs s);
     handshakes := handshakes s; wake := wake s; attempts := attempts s ++ [(r, c)] |}.

(** The drop of an [H3Cached] stops its driver. *)
Definition drop_cached (o : option H3Cached) (m : gmap N Conn) : gmap N Conn :=
  match o with
  | Some k => alter (λ x, {| closed := closed x; drive := false |}) (conn k) m
  | None => m
  end.

Definition set_cached (o : option H3Cached) (m : gmap N Conn) (s : State) : State :=
  {| now := now s; conns := m; next := next s; cached := o; lock := lock s; reqs := reqs s;
     handshakes := handshakes s; wake := wake s; attempts := attempts s |}.

Definition evict_cached (s : State) : State := set_cached None (drop_cached (cached s) (conns s)) s.

(** The end of [build_cached] and the replacement of the cached entry. *)
Definition install (s : State) : State :=
  {| now := now s; conns := <[next s := {| closed := false; drive := true |}]> (drop_cached (cached s) (conns s)); next := next s + 1;
     cached := Some {| conn := next s; last_used := now s |}; lock := None; reqs := reqs s;
     handshakes := handshakes s; wake := wake s; attempts := attempts s |}.

Definition open (s : State) (c : N) : bool := match conns s !! c with Some x => negb (closed x) | None => false end.

Definition close (c : N) (s : State) : State :=
  set_cached (cached s) (alter (λ x, {| closed := true; drive := drive x |}) c (conns s)) s.

Inductive Event :=
  | Arrive (r : N)
  | Handle (r : N)
  | Connected (r : N)
  | ConnectFails (r : N)
  | SetupFails (r : N)
  | SendOk (r : N)
  | SendFails (r : N)
  | Evict (r : N)
  | Answer (r : N)
  | StreamFails (r : N)
  | Arrives (r : N)
  | BodyEnds (r : N) (complete : bool)
  | Cancel (r : N)
  | Reap
  | Closes (c : N)
  | Time (d : Duration).

Section steps.
Context (pool_idle : option Duration).

Definition init : State :=
  {| now := 0; conns := ∅; next := 0; cached := None; lock := None; reqs := ∅; handshakes := 0;
     wake := match reaper_of pool_idle with Some (_, tick) => tick | None => 0 end; attempts := [] |}.

Definition is_free (s : State) : bool := match lock s with None => true | Some _ => false end.

(** [send_handle], up to the handshake it may need. *)
Definition send_handle (r : N) (tried : option N) (s : State) : State :=
  match cached s with
  | Some k =>
      if open s (conn k) then
        sends r (conn k) tried (set_cached (Some {| conn := conn k; last_used := now s |}) (conns s) s)
      else set_lock (Some r) (set_req r (Connecting tried) s)
  | None => set_lock (Some r) (set_req r (Connecting tried) s)
  end.

(** One round of the reaper. *)
Definition reap (idle tick : Duration) (s : State) : State :=
  let s := {| now := now s; conns := conns s; next := next s; cached := cached s; lock := lock s; reqs := reqs s;
              handshakes := handshakes s; wake := now s + tick; attempts := attempts s |} in
  match cached s with
  | Some k => if idle <=? since (now s) (last_used k) then evict_cached (close (conn k) s) else s
  | None => s
  end.

Definition step (e : Event) (s : State) : option State :=
  match e with
  | Arrive r => match reqs s !! r with None => Some (set_req r (Wants None) s) | Some _ => None end
  | Handle r =>
      match reqs s !! r with
      | Some (Wants t) => if is_free s then Some (send_handle r t s) else None
      | _ => None
      end
  | Connected r =>
      match reqs s !! r with
      | Some (Connecting t) => Some (sends r (next s) t (install (count_handshake s)))
      | _ => None
      end
  | ConnectFails r =>
      match reqs s !! r with
      | Some (Connecting _) => Some (set_lock None (set_req r Failing s))
      | _ => None
      end
  | SetupFails r =>
      match reqs s !! r with
      | Some (Connecting _) => Some (set_lock None (set_req r Failing (count_handshake s)))
      | _ => None
      end
  | SendOk r =>
      match reqs s !! r with
      | Some (Sending c _) => if open s c then Some (set_req r (Streaming c) s) else None
      | _ => None
      end
  | SendFails r =>
      match reqs s !! r with
      | Some (Sending c None) => Some (set_req r (Evicting c) s)
      | Some (Sending _ (Some _)) => Some (set_req r Failing s)
      | _ => None
      end
  | Evict r =>
      if is_free s then
        match reqs s !! r with
        | Some (Evicting c) => Some (set_req r (Wants (Some c)) (evict_cached s))
        | Some Failing => Some (set_req r Refused (evict_cached s))
        | _ => None
        end
      else None
  | Answer r =>
      match reqs s !! r with
      | Some (Streaming c) => Some (set_req r (Answered c false) s)
      | _ => None
      end
  | StreamFails r =>
      match reqs s !! r with Some (Streaming _) => Some (set_req r Failing s) | _ => None end
  | Arrives r =>
      match reqs s !! r with
      | Some (Answered c false) => if open s c then Some (set_req r (Answered c true) s) else None
      | _ => None
      end
  | BodyEnds r complete =>
      match reqs s !! r with
      | Some (Answered _ arrived) => if arrived || negb complete then Some (set_req r (Done complete) s) else None
      | _ => None
      end
  | Cancel r =>
      match reqs s !! r with
      | Some (Wants _ | Sending _ _ | Evicting _ | Streaming _ | Failing | Answered _ _) => Some (set_req r Cancelled s)
      | Some (Connecting _) => Some (set_lock None (set_req r Cancelled s))
      | _ => None
      end
  | Reap =>
      match reaper_of pool_idle with
      | Some (idle, tick) => if is_free s && (wake s <=? now s) then Some (reap idle tick s) else None
      | None => None
      end
  | Closes c => Some (close c s)
  | Time d =>
      Some {| now := now s + d; conns := conns s; next := next s; cached := cached s; lock := lock s; reqs := reqs s;
              handshakes := handshakes s; wake := wake s; attempts := attempts s |}
  end.

Fixpoint run (es : list Event) (s : State) : option State :=
  match es with
  | [] => Some s
  | e :: es' => s' ← step e s; run es' s'
  end.

(** * Bodies *)

Inductive Frame {T : Type} :=
  | Data (b : string)
  | Trailers (h : T).
#[global] Arguments Frame : clear implicits.

(** The request body, frame by frame; [accepts] is whether the stream takes a
    frame after those sent before. *)
Fixpoint send_frames {T} (accepts : list (Frame T) → bool) (sent : list (Frame T)) (body : list (Result (Frame T)))
    : Result unit * list (Frame T) :=
  match body with
  | [] => (Ok tt, sent)
  | Err _ :: _ => (Err "read request body", sent)
  | Ok (Data b) :: body' => if accepts sent then send_frames accepts (sent ++ [Data b]) body' else (Err "h3 send_data", sent)
  | Ok (Trailers h) :: _ => if accepts sent then (Ok tt, sent ++ [Trailers h]) else (Err "h3 send_trailers", sent)
  end.

(** With the end of the stream. *)
Definition send_body {T} (accepts : list (Frame T) → bool) (finishes : bool) (body : list (Result (Frame T)))
    : Result unit * list (Frame T) :=
  match send_frames accepts [] body with
  | (Ok _, sent) => (if finishes then Ok tt else Err "h3 finish", sent)
  | r => r
  end.

(** What [recv_data] returns in turn. *)
Inductive Recv :=
  | Chunk (b : string)
  | EndOfData
  | RecvError.

(** The pump task: the frames of the response body; [receives] is whether the
    reader of the body still takes the next one. *)
Fixpoint pump {T} (receives : list (Result (Frame T)) → bool) (out : list (Result (Frame T))) (evs : list Recv) : list (Result (Frame T)) :=
  match evs with
  | Chunk b :: evs' => if receives out then pump receives (out ++ [Ok (Data b)]) evs' else out
  | RecvError :: _ => if receives out then out ++ [Err "h3 recv_data"] else out
  | EndOfData :: _ | [] => out
  end.

(** * The invariant *)

Definition attempts_of (r : N) (s : State) : list N := (List.filter (λ a, N.eqb (fst a) r) (attempts s)).*2.

(** What the phase of a request says of its attempts: a second one goes to
    another connection, since the first one left the cache for good. *)
Definition phase_ok (s : State) (r : N) (p : Phase) : Prop :=
  match p with
  | Wants None | Connecting None => attempts_of r s = []
  | Wants (Some c) | Connecting (Some c) =>
      attempts_of r s = [c] ∧ c < next s ∧ ∀ k, cached s = Some k → conn k ≠ c
  | Sending c None | Evicting c => attempts_of r s = [c] ∧ c < next s
  | Sending c (Some c') => attempts_of r s = [c'; c] ∧ c ≠ c'
  | _ => (length (attempts_of r s) ≤ 2)%nat ∧ NoDup (attempts_of r s)
  end.

(** The drivers that run are that of the cached connection. *)
Record CacheOk (m : gmap N Conn) (n : N) (o : option H3Cached) : Prop := {
  ok_fresh c : is_Some (m !! c) → c < n;
  ok_cached k : o = Some k → ∃ x, m !! conn k = Some x ∧ drive x = true;
  ok_drive c x : m !! c = Some x → drive x = true → ∃ k, o = Some k ∧ conn k = c;
}.

Definition connecting (p : Phase) : bool := match p with Connecting _ => true | _ => false end.

Record Inv (s : State) : Prop := {
  inv_cache : CacheOk (conns s) (next s) (cached s);
  inv_lock r : lock s = Some r ↔ ∃ p, reqs s !! r = Some p ∧ connecting p = true;
  inv_new r : reqs s !! r = None → attempts_of r s = [];
  inv_phase r p : reqs s !! r = Some p → phase_ok s r p;
}.

(** ** The cache *)

Lemma cache_init : CacheOk ∅ 0 None.
Proof. by split; intros c; rewrite ?lookup_empty; try intros x; rewrite ?lookup_empty; try intros [??]; intros; simplify_eq. Qed.

Lemma cache_drop m n o : CacheOk m n o → CacheOk (drop_cached o m) n None.
Proof.
  intros [Hf Hc Hd]. split; [| done |].
  - intros c. destruct o as [k|]; cbn; [|apply Hf]. rewrite lookup_alter_is_Some. apply Hf.
  - intros c x. destruct o as [k|]; cbn; [|by intros; edestruct Hd as (?&?&?)].
    rewrite lookup_alter_Some. intros [(<- & y & Hy & ->)|[Hk Hx]] Hdr; [done|].
    destruct (Hd c x Hx Hdr) as (k' & [= <-] & E). done.
Qed.

Lemma cache_install m n k :
  CacheOk m n None → conn k = n → CacheOk (<[n := {| closed := false; drive := true |}]> m) (n + 1) (Some k).
Proof.
  intros [Hf Hc Hd] <-. split.
  - intros c. rewrite lookup_insert_is_Some. intros [->|[_ Hx]]; [lia|]. apply Hf in Hx. lia.
  - intros k' [= <-]. rewrite lookup_insert_eq. by eexists.
  - intros c x. rewrite lookup_insert_Some. intros [[<- _]|[_ Hx]] Hdr; [by eexists|].
    destruct (Hd c x Hx Hdr) as (? & ? & _). done.
Qed.

Lemma cache_close m n o c : CacheOk m n o → CacheOk (alter (λ x, {| closed := true; drive := drive x |}) c m) n o.
Proof.
  intros [Hf Hc Hd]. split.
  - intros c'. rewrite lookup_alter_is_Some. apply Hf.
  - intros k Hk. destruct (Hc k Hk) as (x & Hx & Hdr). destruct (decide (c = conn k)) as [->|].
    + rewrite lookup_alter_eq, Hx. by eexists.
    + rewrite lookup_alter_ne by done. by eexists.
  - intros c' x. rewrite lookup_alter_Some. intros [(<- & y & Hy & ->)|[_ Hx]] Hdr; by eapply Hd.
Qed.

Lemma cache_touch m n k k' : CacheOk m n (Some k) → conn k' = conn k → CacheOk m n (Some k').
Proof.
  intros [Hf Hc Hd] E. split; [done| |].
  - intros ? [= <-]. rewrite E. by apply Hc.
  - intros c x Hx Hdr. destruct (Hd c x Hx Hdr) as (? & [= <-] & <-). by exists k'.
Qed.

(** ** Requests *)

(** A connection of the later cache was in the cache or is new. *)
Definition later_cache (s s' : State) : Prop :=
  ∀ k', cached s' = Some k' → next s ≤ conn k' ∨ ∃ k, cached s = Some k ∧ conn k = conn k'.

Lemma phase_later s s' r p :
  attempts_of r s' = attempts_of r s → next s ≤ next s' → later_cache s s' → phase_ok s r p → phase_ok s' r p.
Proof.
  intros Ha Hn Hc. unfold phase_ok. rewrite Ha. destruct p as [[c|]|[c|]|c [c'|]|c| | | | | |]; try done.
  all: try (intros (? & ?); split; [done|lia]).
  all: intros (? & ? & Hk); split; [done|]; split; [lia|]; intros k' Hk'; destruct (Hc k' Hk') as [|(k & E & <-)]; [lia|by apply Hk].
Qed.

(** What a step of request [r] has to establish. *)
Lemma inv_request s s' r p :
  Inv s → CacheOk (conns s') (next s') (cached s') → next s ≤ next s' → later_cache s s' →
  (∀ r', r' ≠ r → attempts_of r' s' = attempts_of r' s) →
  reqs s' = <[r := p]> (reqs s) → phase_ok s' r p →
  lock s' = (if connecting p then Some r else if decide (lock s = Some r) then None else lock s) →
  (connecting p = true → lock s = None) → Inv s'.
Proof.
  intros [Hc Hl Hw Hp] Hc' Hn Hlc Ha Hr Hpr Hlk Hfree. split; [done| | |].
  - intros r'. rewrite Hr, Hlk. destruct (decide (r' = r)) as [->|Hne].
    + rewrite lookup_insert_eq. destruct (connecting p) eqn:E; [split; [by eexists|done]|].
      split; [by case_decide|]. intros (p' & [= <-] & ?). congruence.
    + rewrite lookup_insert_ne by done. rewrite <- Hl. destruct (connecting p); [rewrite Hfree by done; split; congruence|].
      case_decide; split; congruence.
  - intros r'. rewrite Hr. intros [Hr' Hne]%lookup_insert_None. rewrite Ha by done. by apply Hw.
  - intros r' p'. rewrite Hr. intros [[<- <-]|[Hne Hr']]%lookup_insert_Some; [done|].
    eapply phase_later; [by apply Ha|done|done|by apply Hp].
Qed.

(** A step that leaves the requests alone. *)
Lemma inv_quiet s s' :
  Inv s → CacheOk (conns s') (next s') (cached s') → next s ≤ next s' → later_cache s s' →
  attempts s' = attempts s → reqs s' = reqs s → lock s' = lock s → Inv s'.
Proof.
  intros [Hc Hl Hw Hp] Hc' Hn Hlc Ha Hr Hlk.
  assert (∀ r, attempts_of r s' = attempts_of r s) as Ha' by (intros r; unfold attempts_of; by rewrite Ha).
  split; [done| | |]; intros r; rewrite ?Hlk, ?Hr; [done| |].
  - rewrite Ha'. apply Hw.
  - intros p Hrp. eapply phase_later; by eauto.
Qed.

Lemma later_same s s' : cached s' = cached s → later_cache s s'.
Proof. intros E k'. rewrite E. intros Hk. right. by exists k'. Qed.

Lemma attempts_sends r c t s r' :
  attempts_of r' (sends r c t s) = attempts_of r' s ++ (if decide (r' = r) then [c] else []).
Proof.
  unfold attempts_of, sends. cbn. rewrite List.filter_app, fmap_app. cbn.
  case_decide as E; [subst; by rewrite N.eqb_refl|]. by rewrite (proj2 (N.eqb_neq r r')) by congruence.
Qed.

Lemma attempts_other r c t s r' : r' ≠ r → attempts_of r' (sends r c t s) = attempts_of r' s.
Proof. intros Hr. rewrite attempts_sends, decide_False by done. apply app_nil_r. Qed.

Lemma attempts_own r c t s : attempts_of r (sends r c t s) = attempts_of r s ++ [c].
Proof. by rewrite attempts_sends, decide_True. Qed.

(** The lock is not that of a request that does not connect. *)
Lemma lock_other s r p : Inv s → reqs s !! r = Some p → connecting p = false → lock s ≠ Some r.
Proof. intros HI Hr Hp (p' & Hr' & Hp')%(inv_lock s HI). congruence. Qed.

Lemma lock_own s r t : Inv s → reqs s !! r = Some (Connecting t) → lock s = Some r.
Proof. intros HI Hr. apply (inv_lock s HI). by eexists. Qed.

(** A request that did not connect goes on to a phase that does not either. *)
Lemma inv_set_req s r p :
  Inv s → lock s ≠ Some r → connecting p = false → phase_ok s r p → Inv (set_req r p s).
Proof.
  intros HI Hl Hp Hok. eapply (inv_request s _ r p); try done.
  - apply HI.
  - by apply later_same.
  - cbn. by rewrite Hp, decide_False.
  - congruence.
Qed.

(** It gives up connecting. *)
Lemma inv_unlock s r p t :
  Inv s → reqs s !! r = Some (Connecting t) → connecting p = false → phase_ok s r p → Inv (set_lock None (set_req r p s)).
Proof.
  intros HI Hr Hp Hok. eapply (inv_request s _ r p); try done.
  - apply HI.
  - by apply later_same.
  - cbn. by rewrite Hp, decide_True by (by eapply lock_own).
  - congruence.
Qed.

Lemma inv_count s : Inv s → Inv (count_handshake s).
Proof. intros HI. eapply (inv_quiet s); try done; [apply HI|by apply later_same]. Qed.

Lemma inv_close c s : Inv s → Inv (close c s).
Proof. intros HI. eapply (inv_quiet s); try done; [apply cache_close, HI|by apply later_same]. Qed.

Lemma inv_evicted s : Inv s → Inv (evict_cached s).
Proof. intros HI. eapply (inv_quiet s); try done. apply cache_drop, HI. Qed.

(** The end of a request keeps what its attempts were. *)
Lemma attempts_end s r p :
  Inv s → reqs s !! r = Some p → (length (attempts_of r s) ≤ 2)%nat ∧ NoDup (attempts_of r s).
Proof.
  intros HI Hr. pose proof (inv_phase s HI r p Hr) as Hp. unfold phase_ok in Hp.
  destruct p as [[c|]|[c|]|c [c'|]|c| | | | | |]; try done.
  all: destruct_and?; match goal with E : attempts_of _ _ = _ |- _ => rewrite E end; split; cbn; [lia|]; repeat constructor; set_solver.
Qed.

Lemma connect_inv s r t :
  Inv s → reqs s !! r = Some (Wants t) → lock s = None → Inv (set_lock (Some r) (set_req r (Connecting t) s)).
Proof.
  intros HI Hr Hl. eapply (inv_request s _ r (Connecting t)); try done.
  - apply HI.
  - by apply later_same.
  - pose proof (inv_phase s HI r _ Hr) as Hp. by destruct t.
Qed.

Lemma send_handle_inv s r t :
  Inv s → reqs s !! r = Some (Wants t) → lock s = None → Inv (send_handle r t s).
Proof.
  intros HI Hr Hl. unfold send_handle. destruct (cached s) as [k|] eqn:Ek; [|by apply connect_inv].
  destruct (open s (conn k)); [|by apply connect_inv].
  pose proof (inv_phase s HI r _ Hr) as Hp. pose proof (inv_cache s HI) as Hc. rewrite Ek in Hc.
  destruct (ok_cached _ _ _ Hc k eq_refl) as (x & Hx & _).
  assert (conn k < next s) as Hn by (eapply (ok_fresh _ _ _ Hc); by eexists).
  eapply (inv_request s _ r (Sending (conn k) t)); try done.
  - cbn. by eapply cache_touch.
  - intros k' [= <-]. right. by exists k.
  - intros r' Hr'. by rewrite attempts_other.
  - cbn [phase_ok]. rewrite attempts_own. change (attempts_of r _) with (attempts_of r s).
    destruct t as [c|]; cbn [phase_ok] in Hp; [|by rewrite Hp].
    destruct Hp as (Ha & _ & Hne). rewrite Ha. split; [done|]. by apply Hne.
  - cbn. by rewrite Hl, decide_False.
Qed.

Lemma connected_inv s r t :
  Inv s → reqs s !! r = Some (Connecting t) → Inv (sends r (next s) t (install (count_handshake s))).
Proof.
  intros HI Hr. pose proof (inv_phase s HI r _ Hr) as Hp.
  eapply (inv_request s _ r (Sending (next s) t)); try done.
  - cbn. apply cache_install; [apply cache_drop, HI|done].
  - cbn. lia.
  - intros k' [= <-]. left. cbn. lia.
  - intros r' Hr'. by rewrite attempts_other.
  - cbn [phase_ok]. rewrite attempts_own. change (attempts_of r _) with (attempts_of r s).
    destruct t as [c|]; cbn [phase_ok] in Hp; [|rewrite Hp; cbn; split; [done|lia]].
    destruct Hp as (Ha & ? & _). rewrite Ha. split; [done|lia].
  - cbn. by rewrite decide_True by (by eapply lock_own).
Qed.

Lemma reap_inv idle tick s : Inv s → Inv (reap idle tick s).
Proof.
  intros HI. unfold reap.
  set (s1 := {| now := now s; conns := conns s; next := next s; cached := cached s; lock := lock s; reqs := reqs s;
                handshakes := handshakes s; wake := now s + tick; attempts := attempts s |}).
  assert (Inv s1) as H1 by (eapply (inv_quiet s); try done; [apply HI|by apply later_same]).
  cbn zeta. destruct (cached s1); [|done]. destruct (_ <=? _); [|done]. by apply inv_evicted, inv_close.
Qed.

(** Phases after the attempts. *)
Definition attempted (q : Phase) : bool :=
  match q with Wants _ | Connecting _ | Sending _ _ | Evicting _ => false | _ => true end.

Lemma attempted_ok s r p q : Inv s → reqs s !! r = Some p → attempted q = true → phase_ok s r q.
Proof. intros HI Hr Hq. pose proof (attempts_end s r p HI Hr). by destruct q. Qed.

Lemma free_lock s : is_free s = true → lock s = None.
Proof. unfold is_free. by destruct (lock s). Qed.

Lemma evict_inv s r p q :
  Inv s → reqs s !! r = Some p → connecting p = false → connecting q = false →
  phase_ok (evict_cached s) r q → Inv (set_req r q (evict_cached s)).
Proof. intros HI Hr Hp Hq Hok. apply inv_set_req; [by apply inv_evicted|exact (lock_other s r p HI Hr Hp)|done|done]. Qed.

Create HintDb h3.
#[local] Hint Resolve connected_inv send_handle_inv inv_close reap_inv free_lock lock_other : h3.

(** A step of a request outside the cache. *)
Ltac moves := apply inv_set_req; [done|by eapply lock_other|done|by eapply attempted_ok].

Lemma step_inv e s s' : Inv s → step e s = Some s' → Inv s'.
Proof.
  intros HI. destruct e as [r|r|r|r|r|r|r|r|r|r|r|r b|r| |c|d]; cbn [step]; intros Hs.
  - destruct (reqs s !! r) eqn:Hr; [done|]. injection Hs as <-. apply inv_set_req; [done| |done|by apply (inv_new s HI)].
    intros (p & ? & _)%(inv_lock s HI). congruence.
  - destruct (reqs s !! r) as [[]|] eqn:Hr; try done. destruct (is_free s) eqn:Hf; [|done]. injection Hs as <-.
    by eauto with h3.
  - destruct (reqs s !! r) as [[]|] eqn:Hr; try done. injection Hs as <-. by eauto with h3.
  - destruct (reqs s !! r) as [[]|] eqn:Hr; try done. injection Hs as <-. eapply inv_unlock; by eauto using attempted_ok.
  - destruct (reqs s !! r) as [[]|] eqn:Hr; try done. injection Hs as <-.
    eapply inv_unlock; [by apply inv_count|done|done|]. by apply (attempts_end s r _ HI Hr).
  - destruct (reqs s !! r) as [[]|] eqn:Hr; try done. destruct (open s c); [|done]. injection Hs as <-. moves.
  - destruct (reqs s !! r) as [[| |c [c'|]| | | | | | |]|] eqn:Hr; try done; injection Hs as <-; [moves|].
    apply inv_set_req; [done|by eapply lock_other|done|]. apply (inv_phase s HI r _ Hr).
  - destruct (is_free s) eqn:Hf; [|done]. destruct (reqs s !! r) as [[]|] eqn:Hr; try done; injection Hs as <-.
    + eapply evict_inv; [done|done|done|done|]. destruct (inv_phase s HI r _ Hr) as [Ha Hn]. by split.
    + eapply evict_inv; [done|done|done|done|]. by apply (attempts_end s r _ HI Hr).
  - destruct (reqs s !! r) as [[]|] eqn:Hr; try done. injection Hs as <-. moves.
  - destruct (reqs s !! r) as [[]|] eqn:Hr; try done. injection Hs as <-. moves.
  - destruct (reqs s !! r) as [[| | | | | |c [] | | |]|] eqn:Hr; try done. destruct (open s c); [|done]. injection Hs as <-. moves.
  - destruct (reqs s !! r) as [[]|] eqn:Hr; try done. destruct (_ || _); [|done]. injection Hs as <-. moves.
  - destruct (reqs s !! r) as [[]|] eqn:Hr; try done; injection Hs as <-; try moves. eapply inv_unlock; by eauto using attempted_ok.
  - destruct (reaper_of pool_idle) as [[idle tick]|]; [|done]. destruct (_ && _); [|done]. injection Hs as <-. by eauto with h3.
  - injection Hs as <-. by eauto with h3.
  - injection Hs as <-. eapply (inv_quiet s); try done; [apply HI|by apply later_same].
Qed.

Lemma init_inv : Inv init.
Proof. split; [apply cache_init| | |]; intros r; cbn; rewrite ?lookup_empty; [split; [done|by intros (? & ? & _)]|done|done]. Qed.

Lemma run_inv es s s' : Inv s → run es s = Some s' → Inv s'.
Proof.
  revert s. induction es as [|e es IH]; intros s HI; cbn; [by intros [= <-]|].
  destruct (step e s) as [s1|] eqn:E; cbn; [|done]. apply IH. by eapply step_inv.
Qed.

(** Whatever requests, closes, evictions and time-outs do, one connection at
    most is driven, the cached one, and a request is sent at most twice, the
    second time on another connection. *)
Theorem one_connection es s :
  run es init = Some s →
  (∀ c x, conns s !! c = Some x → drive x = true → conn <$> cached s = Some c) ∧
  (∀ r, (length (attempts_of r s) ≤ 2)%nat ∧ NoDup (attempts_of r s)).
Proof.
  intros Hs. pose proof (run_inv _ _ _ init_inv Hs) as HI. split.
  - intros c x Hx Hd. destruct (ok_drive _ _ _ (inv_cache s HI) c x Hx Hd) as (k & -> & <-). done.
  - intros r. destruct (reqs s !! r) as [p|] eqn:Hr; [by eapply attempts_end|].
    rewrite (inv_new s HI r Hr). split; [cbn; lia|constructor].
Qed.

(** * Progress *)

(** The request an event is a step of. *)
Definition request_of (e : Event) : option N :=
  match e with
  | Arrive r | Handle r | Connected r | ConnectFails r | SetupFails r | SendOk r | SendFails r | Evict r | Answer r
  | StreamFails r | Arrives r | BodyEnds r _ | Cancel r => Some r
  | Reap | Closes _ | Time _ => None
  end.

(** The steps a request has left at most. *)
Definition steps_left (o : option Phase) : nat :=
  match o with
  | None => 11
  | Some (Wants None) => 10
  | Some (Connecting None) => 9
  | Some (Sending _ None) => 8
  | Some (Evicting _) => 7
  | Some (Wants (Some _)) => 6
  | Some (Connecting (Some _)) => 5
  | Some (Sending _ (Some _)) => 4
  | Some (Streaming _) => 3
  | Some (Answered _ false) => 2
  | Some (Answered _ true) | Some Failing => 1
  | Some (Refused | Done _ | Cancelled) => 0
  end%nat.

Definition finished (p : Phase) : bool := match p with Refused | Done _ | Cancelled => true | _ => false end.

Lemma reqs_send_handle r t s : ∃ p, reqs (send_handle r t s) = <[r := p]> (reqs s) ∧ (steps_left (Some p) < steps_left (Some (Wants t)))%nat.
Proof.
  unfold send_handle. destruct (cached s) as [k|]; [destruct (open s (conn k))|]; (eexists; split; [reflexivity|]); destruct t; cbn; lia.
Qed.

Lemma reqs_reap idle tick s : reqs (reap idle tick s) = reqs s.
Proof. unfold reap. cbn. by destruct (cached s) as [k|]; [destruct (_ <=? _)|]. Qed.

(** A step of a request moves that request alone, and forward. *)
Lemma step_moves e s s' :
  step e s = Some s' →
  match request_of e with
  | Some r => ∃ p, reqs s' = <[r := p]> (reqs s) ∧ (steps_left (Some p) < steps_left (reqs s !! r))%nat
  | None => reqs s' = reqs s
  end.
Proof.
  destruct e as [r|r|r|r|r|r|r|r|r|r|r|r b|r| |c|d]; cbn [step request_of]; intros Hs.
  all: try (injection Hs as <-; reflexivity).
  all: try (destruct (reaper_of pool_idle) as [[idle tick]|]; [|done]; destruct (_ && _); [|done]; injection Hs as <-; apply reqs_reap).
  all: try (destruct (is_free s) eqn:Hf; [|by repeat case_match]).
  all: destruct (reqs s !! r) as [[[]|[]|? []|?|?| |? []| | |]|] eqn:Hr; try done.
  all: repeat (case_match; try done); simplify_eq.
  all: first [apply reqs_send_handle | eexists; split; [reflexivity|]; cbn; lia].
Qed.

(** Every request is over after eleven of its own steps at most, whatever the
    other tasks and the network do. *)
Theorem requests_end r es s s' :
  run es s = Some s' →
  (length (List.filter (λ e, bool_decide (request_of e = Some r)) es) + steps_left (reqs s' !! r) ≤ steps_left (reqs s !! r))%nat.
Proof.
  revert s. induction es as [|e es IH]; intros s; cbn [run]; [by intros [= <-]|].
  destruct (step e s) as [s1|] eqn:E; cbn [mbind option_bind]; [|done]. intros Hr. specialize (IH s1 Hr).
  apply step_moves in E. cbn [List.filter]. case_bool_decide as Hq.
  - rewrite Hq in E. destruct E as (p & Hp & Hlt). rewrite Hp, lookup_insert_eq in IH. cbn [length]. lia.
  - destruct (request_of e) as [r'|]; [|by rewrite <- E].
    destruct E as (p & Hp & _). rewrite Hp, lookup_insert_ne in IH by congruence. done.
Qed.

(** A request that is not over can take a step, or waits for one that is
    connecting and can. *)
Theorem never_stuck es s r p :
  run es init = Some s → reqs s !! r = Some p → finished p = false →
  ∃ e r', request_of e = Some r' ∧ e ≠ Cancel r' ∧ is_Some (step e s) ∧ (r' = r ∨ lock s = Some r').
Proof.
  intros Hs Hr Hp. pose proof (run_inv _ _ _ init_inv Hs) as HI.
  destruct (lock s) as [h|] eqn:Hl.
  - destruct (proj1 (inv_lock s HI h) Hl) as ([] & Hh & ?); try done.
    exists (ConnectFails h), h. cbn. rewrite Hh. naive_solver.
  - assert (is_free s = true) as Hf by (unfold is_free; by rewrite Hl).
    destruct p as [t|t|c t|c|c| |c a| | |]; try done.
    + exists (Handle r), r. cbn. rewrite Hr, Hf. naive_solver.
    + by pose proof (lock_own s r t HI Hr); simplify_eq.
    + exists (SendFails r), r. cbn. rewrite Hr. destruct t; naive_solver.
    + exists (Evict r), r. cbn. rewrite Hr, Hf. naive_solver.
    + exists (StreamFails r), r. cbn. rewrite Hr. naive_solver.
    + exists (Evict r), r. cbn. rewrite Hr, Hf. naive_solver.
    + exists (BodyEnds r false), r. cbn. rewrite Hr, orb_true_r. naive_solver.
Qed.

(** * Closed connections *)

(** The rest of a body can no longer arrive. *)
Definition cut_off (c r : N) (s : State) : Prop :=
  (∃ x, conns s !! c = Some x ∧ closed x = true) ∧ c < next s ∧
  match reqs s !! r with Some (Answered c' false) => c' = c | Some (Done b) => b = false | Some Cancelled => True | _ => False end.

Lemma closed_drop c o m x : m !! c = Some x → closed x = true → ∃ y, drop_cached o m !! c = Some y ∧ closed y = true.
Proof.
  intros Hx Hc. destruct o as [k|]; [|by eexists]. cbn. destruct (decide (conn k = c)) as [->|].
  - rewrite lookup_alter_eq, Hx. by eexists.
  - rewrite lookup_alter_ne by done. by eexists.
Qed.

Lemma closed_close c c' (m : gmap N Conn) x :
  m !! c = Some x → closed x = true →
  ∃ y, alter (λ x, {| closed := true; drive := drive x |}) c' m !! c = Some y ∧ closed y = true.
Proof.
  intros Hx Hc. destruct (decide (c' = c)) as [->|].
  - rewrite lookup_alter_eq, Hx. by eexists.
  - rewrite lookup_alter_ne by done. by eexists.
Qed.

Lemma closed_step e s s' c x :
  step e s = Some s' → conns s !! c = Some x → closed x = true → c < next s →
  (∃ y, conns s' !! c = Some y ∧ closed y = true) ∧ c < next s'.
Proof.
  intros Hs Hx Hc Hn.
  assert (conns s' = conns s ∧ next s' = next s →
    (∃ y, conns s' !! c = Some y ∧ closed y = true) ∧ c < next s') as Hkept by (intros [-> ->]; eauto).
  destruct e as [r|r|r|r|r|r|r|r|r|r|r|r b|r| |c'|d]; cbn [step] in Hs.
  all: try (destruct (reqs s !! r) as [[| |? []| | | |? []| | |]|]; repeat (case_match; try done); simplify_eq; by apply Hkept).
  all: try (by simplify_eq; apply Hkept).
  - destruct (reqs s !! r) as [[]|]; try done. destruct (is_free s); [|done]. injection Hs as <-.
    unfold send_handle. repeat case_match; (split; [by eexists|done]).
  - destruct (reqs s !! r) as [[]|]; try done. injection Hs as <-. cbn. split; [|lia].
    rewrite lookup_insert_ne by lia. by eapply closed_drop.
  - destruct (is_free s); [|done]. destruct (reqs s !! r) as [[]|]; try done; injection Hs as <-;
      (split; [by eapply closed_drop|done]).
  - destruct (reaper_of pool_idle) as [[idle tick]|]; [|done]. destruct (_ && _); [|done]. injection Hs as <-.
    unfold reap. cbn. destruct (cached s) as [k|]; [|by split; [eexists|]]. destruct (_ <=? _); [|by split; [eexists|]].
    split; [|done]. destruct (closed_close c (conn k) _ _ Hx Hc) as (y & Hy & Hyc). by eapply (closed_drop c (Some k)).
  - injection Hs as <-. split; [by eapply closed_close|done].
Qed.

Lemma cut_off_step e s s' c r : step e s = Some s' → cut_off c r s → cut_off c r s'.
Proof.
  intros Hs ((x & Hx & Hc) & Hn & Hp). destruct (closed_step _ _ _ _ _ Hs Hx Hc Hn) as [Hx' Hn'].
  split; [done|]. split; [done|]. pose proof (step_moves _ _ _ Hs) as Hm.
  destruct (request_of e) as [r'|] eqn:He; [|by rewrite Hm].
  destruct (decide (r' = r)) as [->|Hne].
  - destruct (reqs s !! r) as [[| | | | | |c' []| |b|]|] eqn:Hr; try done; [subst c'| |].
    + assert (open s c = false) as Ho by (unfold open; by rewrite Hx, Hc).
      destruct e; cbn [request_of] in He; try done; injection He as ->; cbn [step] in Hs; rewrite Hr, ?Ho in Hs; try done;
        try (by destruct (is_free s)); simplify_eq; cbn; rewrite ?lookup_insert_eq; try done.
      destruct complete; [done|]. injection Hs as <-. cbn [set_req reqs]. by rewrite lookup_insert_eq.
    + destruct Hm as (p & _ & Hlt). cbn in Hlt. lia.
    + destruct Hm as (p & _ & Hlt). cbn in Hlt. lia.
  - destruct Hm as (p & -> & _). by rewrite lookup_insert_ne.
Qed.

(** A response whose connection closed before the rest of it arrived is never
    complete. *)
Lemma cut_off_for_good es s s' c r : run es s = Some s' → cut_off c r s → reqs s' !! r ≠ Some (Done true).
Proof.
  revert s. induction es as [|e es IH]; intros s; cbn [run].
  - intros [= <-] (_ & _ & Hp) E. by rewrite E in Hp.
  - destruct (step e s) as [s1|] eqn:E; cbn [mbind option_bind]; [|done]. intros Hr Hc. eapply IH; [done|]. by eapply cut_off_step.
Qed.

(** * What the bodies carry *)

Fixpoint until_trailers {T} (body : list (Frame T)) : list (Frame T) :=
  match body with
  | [] => []
  | Data b :: body' => Data b :: until_trailers body'
  | Trailers h :: _ => [Trailers h]
  end.

Definition frames_of {T} (body : list (Result (Frame T))) : list (Frame T) :=
  omap (λ r, match r with Ok f => Some f | Err _ => None end) body.

(** What is sent after [acc] of frames [fs]: a beginning, and all of it on success. *)
Definition sent_of {T} (acc fs sent : list (Frame T)) (r : Result unit) : Prop :=
  ∃ more, sent = acc ++ more ∧ more `prefix_of` fs ∧ (r = Ok tt → more = fs).

Lemma nothing_sent {T} (acc fs : list (Frame T)) e : sent_of acc fs acc (Err e).
Proof. exists []. rewrite app_nil_r. split; [done|]. split; [apply prefix_nil|done]. Qed.

Lemma frames_sent {T} (accepts : list (Frame T) → bool) body acc r sent :
  send_frames accepts acc body = (r, sent) → sent_of acc (until_trailers (frames_of body)) sent r.
Proof.
  revert acc. induction body as [|[[b|h]|e] body IH]; intros acc; cbn [send_frames].
  - intros [= <- <-]. exists []. by rewrite app_nil_r.
  - destruct (accepts acc); [|intros [= <- <-]; apply nothing_sent].
    intros (more & -> & Hp & Hok)%IH. exists (Data b :: more). rewrite <- app_assoc. split; [done|].
    split; [by apply prefix_cons|]. intros Hr. by rewrite (Hok Hr).
  - destruct (accepts acc); intros [= <- <-]; [|apply nothing_sent]. by exists [Trailers h].
  - intros [= <- <-]. apply nothing_sent.
Qed.

(** What goes upstream is a beginning of the request body, and on success all
    of it up to the trailers. *)
Theorem body_sent {T} (accepts : list (Frame T) → bool) finishes body r sent :
  send_body accepts finishes body = (r, sent) →
  sent `prefix_of` until_trailers (frames_of body) ∧
  (r = Ok tt → sent = until_trailers (frames_of body) ∧ finishes = true).
Proof.
  unfold send_body. destruct (send_frames accepts [] body) as [[[]|e] sent'] eqn:E; intros [= <- <-];
    apply frames_sent in E as (more & -> & Hp & Hok); (split; [done|]); [|done].
  destruct finishes; [|done]. intros _. split; [by apply Hok|done].
Qed.

(** The client is given the chunks of the response in order, and an error
    where the stream fails. *)
Fixpoint response_frames {T} (evs : list Recv) : list (Result (Frame T)) :=
  match evs with
  | Chunk b :: evs' => Ok (Data b) :: response_frames evs'
  | RecvError :: _ => [Err "h3 recv_data"]
  | EndOfData :: _ | [] => []
  end.

Lemma pump_all {T} (out : list (Result (Frame T))) evs : pump (λ _, true) out evs = out ++ response_frames evs.
Proof.
  revert out. induction evs as [|[b| |] evs IH]; intros out; cbn; rewrite ?app_nil_r; try done.
  rewrite IH, <- app_assoc. done.
Qed.

End steps.

(** Runs of the client. *)
Module Demo.

(** Two requests share the connection of the first, the second has its answer. *)
Definition shared : list Event :=
  [Arrive 0; Handle 0; Connected 0; SendOk 0; Arrive 1; Handle 1; SendOk 1; Answer 1].

(** The state after some events, with a default that the lemmas below exclude. *)
Definition after (pool_idle : option Duration) (es : list Event) : State := default (init pool_idle) (run pool_idle es (init pool_idle)).
Definition runs (pool_idle : option Duration) (es : list Event) : bool := bool_decide (is_Some (run pool_idle es (init pool_idle))).

Lemma run_after pool_idle es : runs pool_idle es = true → run pool_idle es (init pool_idle) = Some (after pool_idle es).
Proof. unfold runs, after. by destruct (run pool_idle es _). Qed.

Lemma one_connection_witness :
  (∀ c x, conns (after None shared) !! c = Some x → drive x = true → conn <$> cached (after None shared) = Some c) ∧
  (∀ r, (length (attempts_of r (after None shared)) ≤ 2)%nat ∧ NoDup (attempts_of r (after None shared))).
Proof. apply (one_connection None shared). by apply run_after; vm_compute. Defined.

Lemma never_stuck_witness :
  ∃ e r', request_of e = Some r' ∧ e ≠ Cancel r' ∧ is_Some (step None e (after None shared)) ∧
    (r' = 0 ∨ lock (after None shared) = Some r').
Proof. apply (never_stuck None shared (after None shared) 0 (Streaming 0)); [by apply run_after; vm_compute|by vm_compute|done]. Defined.

(** A download longer than the idle time is cut: the reaper sees when the
    connection was last handed out, not that it is in use. *)
Definition download : list Event :=
  [Arrive 0; Handle 0; Connected 0; SendOk 0; Answer 0; Time (from_secs 90); Reap].

Lemma long_download_cut es s :
  runs None download = true ∧
  (run None es (after None download) = Some s → reqs s !! 0 ≠ Some (Done true)).
Proof.
  split; [by vm_compute|]. intros Hr. eapply (cut_off_for_good None es _ s 0 0 Hr).
  split; [|by vm_compute]. eexists. split; [by vm_compute|done].
Qed.

(** Two requests lose one connection; the first has reconnected when the second
    evicts, and what it evicts is the new connection. *)
Definition race : list Event :=
  [Arrive 0; Handle 0; Connected 0; Arrive 1; Handle 1; Closes 0; SendFails 0; SendFails 1;
   Evict 0; Handle 0; Connected 0; Evict 1].

Lemma stale_failure_evicts_fresh :
  runs None race = true ∧ reqs (after None race) !! 0 = Some (Sending 1 (Some 0)) ∧
  conns (after None race) !! 1 = Some {| closed := false; drive := false |} ∧ cached (after None race) = None.
Proof. by vm_compute. Qed.

(** A request that fails for a reason of its own, a broken upload say, takes
    the connection from the others. *)
Definition broken_upload : list Event := shared ++ [StreamFails 0; Evict 0].

Lemma broken_upload_evicts :
  runs None broken_upload = true ∧ reqs (after None broken_upload) !! 1 = Some (Answered 0 false) ∧
  conns (after None broken_upload) !! 0 = Some {| closed := false; drive := false |}.
Proof. by vm_compute. Qed.

(** An idle time of zero keeps the connection for ever, and reuses it. *)
Lemma zero_still_reuses s :
  step (Some 0) Reap s = None ∧ attempts (after (Some 0) shared) = [(0, 0); (1, 0)].
Proof. by vm_compute. Qed.

(** The trailers after the data of a response are not asked for. *)
Lemma response_trailers_lost : pump (T := string) (λ _, true) [] [Chunk "a"; EndOfData] = [Ok (Data "a")].
Proof. done. Qed.

Lemma body_sent_witness :
  [Data "a"; Trailers "t"] `prefix_of` until_trailers (frames_of [Ok (Data "a"); Ok (Trailers "t"); Ok (Data "b")]) ∧
  (Ok tt = Ok tt → [Data "a"; Trailers "t"] = until_trailers (frames_of [Ok (Data "a"); Ok (Trailers "t"); Ok (Data "b")]) ∧ true = true).
Proof. apply (body_sent (λ _, true)). reflexivity. Defined.

Lemma requests_end_witness :
  (length (List.filter (λ e, bool_decide (request_of e = Some 0%N)) download) + steps_left (reqs (after None download) !! 0%N) ≤ 11)%nat.
Proof. apply (requests_end None 0 download (init None) (after None download)). by apply run_after; vm_compute. Defined.

End Demo.

End H3Client.
