(* ===== verification/Mtls.v ===== *)
(** Client-certificate identities ([src/cert/mtls.rs]): what a request is told
    of the certificate its connection was opened with.

    The X.509 parser is a parameter: what it reads from the bytes of a
    certificate is a [Certificate]. *)
From S2P Require Import Prelude RustStr Dispatch.

Module Mtls.
Import Dispatch.Dispatch.

Inductive GeneralName :=
  | DNSName (s : string)
  | URI (s : string)
  | RFC822Name (s : string)
  | IPAddress (b : string)
  | DirectoryName (s : string)
  | OtherForm.

Inductive ParsedExtension :=
  | SubjectAlternativeName (general_names : list GeneralName)
  | OtherExtension.

(** The subject as text, the common names of it ([None] where one is not
    text), and the extensions. *)
Record Certificate := {
  subject_text : string;
  common_names : list (option string);
  extensions : list ParsedExtension;
}.

Definition name_text (n : GeneralName) : list string :=
  match n with DNSName s | URI s | RFC822Name s => [s] | _ => [] end.

Definition extension_names (e : ParsedExtension) : list string :=
  match e with SubjectAlternativeName l => l ≫= name_text | OtherExtension => [] end.

Section identity.
Context (parse : string → option Certificate).

Definition from_der (der : string) : Result ClientCertIdentity :=
  cert ← ok_or (parse der) "client cert parse";
  let subject_str := subject_text cert in
  let cn := default subject_str
    (s ← (head (common_names cert) ≫= id); if String.eqb s "" then None else Some s) in
  Ok {| cn := cn; cert_subject := subject_str; sans := extensions cert ≫= extension_names |}.

Definition from_chain (chain : list string) : Result ClientCertIdentity :=
  leaf ← ok_or (head chain) "empty peer cert chain";
  from_der leaf.

(** [None] where the peer sent no certificate. *)
Definition identity_from_connection (peer_certificates : option (list string)) : option ClientCertIdentity :=
  chain ← peer_certificates;
  match from_chain chain with Ok i => Some i | Err _ => None end.

(** An identity is that of the leaf, whatever else is in the chain; its name
    is the first common name when that is a text that is not empty, the whole
    subject otherwise; and its alternative names are the host names, URIs and
    mail addresses of the certificate in order. *)
Theorem identity_of_leaf leaf rest i :
  identity_from_connection (Some (leaf :: rest)) = Some i →
  ∃ cert, parse leaf = Some cert ∧ cert_subject i = subject_text cert ∧
    sans i = extensions cert ≫= extension_names ∧
    (∀ s, head (common_names cert) = Some (Some s) → s ≠ "" → cn i = s) ∧
    ((∀ s, head (common_names cert) = Some (Some s) → s = "") → cn i = subject_text cert) ∧
    (cn i = "" → subject_text cert = "").
Proof.
  cbn. unfold from_der. destruct (parse leaf) as [cert|]; cbn; [|done]. intros [= <-]. exists cert. cbn.
  split; [done|]. split; [done|]. split; [done|].
  destruct (head (common_names cert)) as [[s|]|]; cbn; [|naive_solver..].
  destruct (String.eqb_spec s "") as [->|Hs]; cbn; naive_solver.
Qed.

End identity.

Module Demo.

Definition leaf : Certificate :=
  {| subject_text := "O=Acme, CN=ann"; common_names := [Some "ann"; Some "root"];
     extensions := [OtherExtension; SubjectAlternativeName [DNSName "a.test"; IPAddress "1"; RFC822Name "ann@a.test"]] |}.
Definition reader (der : string) : option Certificate := if String.eqb der "leaf" then Some leaf else None.

Lemma identity_of_leaf_witness :
  ∃ cert, reader "leaf" = Some cert ∧ "O=Acme, CN=ann" = subject_text cert ∧
    ["a.test"; "ann@a.test"] = extensions cert ≫= extension_names ∧
    (∀ s, head (common_names cert) = Some (Some s) → s ≠ "" → "ann" = s) ∧
    ((∀ s, head (common_names cert) = Some (Some s) → s = "") → "ann" = subject_text cert) ∧
    ("ann" = "" → subject_text cert = "").
Proof.
  apply (identity_of_leaf reader "leaf" ["issuer"] {| cn := "ann"; cert_subject := "O=Acme, CN=ann"; sans := ["a.test"; "ann@a.test"] |}).
  reflexivity.
Defined.

End Demo.

End Mtls.
