(* ===== verification/QuicAccept.v ===== *)
(** The QUIC listener ([run_quic_inner] of [src/listener/quic.rs]): its accept
    loop with the connection cap, the tasks of its connections, the requests
    they spawn, and the drain at the end.

    The loop and its tasks interleave: [step] is one move of the loop, of a
    task, or of the signals that stop them.  The requests are tasks of their
    own that nobody joins. *)
From S2P Require Import Prelude RustStr Net Http Template RateLimit Metrics ParseConfig Accept Quic.

Module QuicLoop.
Import ParseConfig.

(** A connection task: in its QUIC handshake, setting up HTTP/3, or accepting
    requests. *)
Inductive Phase :=
  | Handshaking
  | Setup
  | Serving.

Definition counts (p : Phase) : bool := match p with Handshaking => false | _ => true end.

(** The loop: at its [select!], waiting for a permit with a connection attempt
    in hand, waiting for the endpoint to be idle, waiting for the tasks, or
    gone. *)
Inductive Loop :=
  | Selecting
  | Blocked
  | WaitingIdle
  | Joining
  | Gone.

Record Counters := {
  quic_handshakes_total : N;
  quic_handshake_failures_total : N;
  quic_connections_active : Z;
  conns_total : N;
  conns_active : Z;
}.

(** [server_config] is whether the endpoint takes new connections, [closed]
    whether it was closed by force, [requests] the requests at work. *)
Record World := {
  loop : Loop;
  permits : option nat;
  live : list Phase;
  requests : nat;
  shutdown : bool;
  stop_accept : bool;
  server_config : bool;
  closed : bool;
  counters : Counters;
}.

(** ** Counting *)

Definition handshake_ok (c : Counters) : Counters :=
  {| quic_handshakes_total := wrap64 (quic_handshakes_total c + 1); quic_handshake_failures_total := quic_handshake_failures_total c;
     quic_connections_active := quic_connections_active c + 1; conns_total := wrap64 (conns_total c + 1);
     conns_active := conns_active c + 1 |}.

Definition handshake_failed (c : Counters) : Counters :=
  {| quic_handshakes_total := quic_handshakes_total c; quic_handshake_failures_total := wrap64 (quic_handshake_failures_total c + 1);
     quic_connections_active := quic_connections_active c; conns_total := conns_total c; conns_active := conns_active c |}.

(** [QuicConnGuard::drop]. *)
Definition drop_guard (k : nat) (c : Counters) : Counters :=
  {| quic_handshakes_total := quic_handshakes_total c; quic_handshake_failures_total := quic_handshake_failures_total c;
     quic_connections_active := quic_connections_active c - Z.of_nat k; conns_total := conns_total c;
     conns_active := conns_active c - Z.of_nat k |}.

Definition counted_conns (l : list Phase) : nat := length (List.filter counts l).

#[local] Arguments counted_conns : simpl never.

(** ** Moves *)

Definition with_loop (w : World) (s : Loop) : World :=
  {| loop := s; permits := permits w; live := live w; requests := requests w; shutdown := shutdown w;
     stop_accept := stop_accept w; server_config := server_config w; closed := closed w; counters := counters w |}.

Definition with_task (w : World) (l : list Phase) (c : Counters) : World :=
  {| loop := loop w; permits := permits w; live := l; requests := requests w; shutdown := shutdown w;
     stop_accept := stop_accept w; server_config := server_config w; closed := closed w; counters := c |}.

Definition with_requests (w : World) (n : nat) : World :=
  {| loop := loop w; permits := permits w; live := live w; requests := n; shutdown := shutdown w;
     stop_accept := stop_accept w; server_config := server_config w; closed := closed w; counters := counters w |}.

(** A task that ends gives its permit back. *)
Definition end_task (w : World) (l : list Phase) (c : Counters) : World :=
  {| loop := loop w; permits := Accept.release (permits w); live := l; requests := requests w; shutdown := shutdown w;
     stop_accept := stop_accept w; server_config := server_config w; closed := closed w; counters := c |}.

(** Out of the loop: the endpoint takes no new connections. *)
Definition leave (w : World) : World :=
  {| loop := WaitingIdle; permits := permits w; live := live w; requests := requests w; shutdown := shutdown w;
     stop_accept := stop_accept w; server_config := false; closed := closed w; counters := counters w |}.

Section listener.
Context (transport : option QuicTransport).

Inductive loop_step : World → World → Prop :=
  | Retries w validated may_retry :
      loop w = Selecting → H3.answers_retry transport validated may_retry = true → loop_step w w
  | Takes w validated may_retry :
      loop w = Selecting → H3.answers_retry transport validated may_retry = false → loop_step w (with_loop w Blocked)
  | Spawns w p :
      loop w = Blocked → permits w = Some (S p) →
      loop_step w {| loop := Selecting; permits := Some p; live := live w ++ [Handshaking]; requests := requests w; shutdown := shutdown w;
                stop_accept := stop_accept w; server_config := server_config w; closed := closed w; counters := counters w |}
  | SpawnsFreely w :
      loop w = Blocked → permits w = None →
      loop_step w {| loop := Selecting; permits := None; live := live w ++ [Handshaking]; requests := requests w; shutdown := shutdown w;
                stop_accept := stop_accept w; server_config := server_config w; closed := closed w; counters := counters w |}
  | EndpointGone w : loop w = Selecting → loop_step w (leave w)
  | Leaves w : loop w = Selecting → shutdown w || stop_accept w = true → loop_step w (leave w).

Inductive conn_step : World → World → Prop :=
  | HandshakeFails w l1 l2 :
      live w = l1 ++ Handshaking :: l2 → conn_step w (end_task w (l1 ++ l2) (handshake_failed (counters w)))
  | HandshakeOk w l1 l2 :
      live w = l1 ++ Handshaking :: l2 → conn_step w (with_task w (l1 ++ Setup :: l2) (handshake_ok (counters w)))
  | SetupFails w l1 l2 :
      live w = l1 ++ Setup :: l2 → conn_step w (end_task w (l1 ++ l2) (drop_guard 1 (counters w)))
  | SetupOk w l1 l2 :
      live w = l1 ++ Setup :: l2 → conn_step w (with_task w (l1 ++ Serving :: l2) (counters w))
  | AcceptsRequest w l1 l2 :
      live w = l1 ++ Serving :: l2 → closed w = false → conn_step w (with_requests w (S (requests w)))
  | RequestEnds w n : requests w = S n → conn_step w (with_requests w n)
  | ConnEnds w l1 l2 :
      live w = l1 ++ Serving :: l2 → conn_step w (end_task w (l1 ++ l2) (drop_guard 1 (counters w))).

(** [wait_idle] returns when no connection is left on the endpoint; both waits
    are bounded by [DRAIN_TIMEOUT], and what is left in the [JoinSet] at the
    end is aborted. *)
Inductive drain_step : World → World → Prop :=
  | Idle w : loop w = WaitingIdle → live w = [] → requests w = 0%nat → drain_step w (with_loop w Joining)
  | IdleTimeout w :
      loop w = WaitingIdle →
      drain_step w {| loop := Joining; permits := permits w; live := live w; requests := requests w; shutdown := shutdown w;
                stop_accept := stop_accept w; server_config := server_config w; closed := true; counters := counters w |}
  | Joined w : loop w = Joining → live w = [] → drain_step w (with_loop w Gone)
  | JoinTimeout w :
      loop w = Joining →
      drain_step w {| loop := Gone; permits := (λ p, (p + length (live w))%nat) <$> permits w; live := []; requests := requests w;
                shutdown := shutdown w; stop_accept := stop_accept w; server_config := server_config w; closed := closed w;
                counters := drop_guard (counted_conns (live w)) (counters w) |}.

Inductive step : World → World → Prop :=
  | ByLoop w w' : loop_step w w' → step w w'
  | ByConn w w' : conn_step w w' → step w w'
  | ByDrain w w' : drain_step w w' → step w w'
  | SignalsShutdown w :
      step w {| loop := loop w; permits := permits w; live := live w; requests := requests w; shutdown := true;
                stop_accept := stop_accept w; server_config := server_config w; closed := closed w; counters := counters w |}
  | SignalsStop w :
      step w {| loop := loop w; permits := permits w; live := live w; requests := requests w; shutdown := shutdown w;
                stop_accept := true; server_config := server_config w; closed := closed w; counters := counters w |}.

Definition start (max_connections : option N) (c : Counters) : World :=
  {| loop := Selecting; permits := N.to_nat <$> max_connections; live := []; requests := 0; shutdown := false;
     stop_accept := false; server_config := true; closed := false; counters := c |}.

(** * Invariant *)

Lemma counted_app l1 l2 : counted_conns (l1 ++ l2) = (counted_conns l1 + counted_conns l2)%nat.
Proof. unfold counted_conns. by rewrite List.filter_app, length_app. Qed.

Lemma counted_cons p l : counted_conns (p :: l) = ((if counts p then 1 else 0) + counted_conns l)%nat.
Proof. unfold counted_conns. cbn. by destruct (counts p). Qed.

Lemma counted_nil : counted_conns [] = 0%nat.
Proof. done. Qed.

Definition in_loop (s : Loop) : bool := match s with Selecting | Blocked => true | _ => false end.

(** With [c0] the counters at the start. *)
Record inv (cap : option N) (c0 : Counters) (w : World) : Prop := {
  q_permits : match cap with
              | Some c => ∃ f, permits w = Some f ∧ (f + length (live w))%nat = N.to_nat c
              | None => permits w = None
              end;
  q_active : quic_connections_active (counters w) = (quic_connections_active c0 + Z.of_nat (counted_conns (live w)))%Z;
  q_listener : conns_active (counters w) = (conns_active c0 + Z.of_nat (counted_conns (live w)))%Z;
  q_config : server_config w = in_loop (loop w);
  q_gone : loop w = Gone → live w = [];
}.

Lemma quic_start cap c0 : inv cap c0 (start cap c0).
Proof.
  split; cbn; try done; try (unfold counted_conns; cbn; lia). destruct cap; cbn; [|done]. eexists. split; [done|lia].
Qed.

Ltac tally :=
  repeat match goal with E : live _ = _ |- _ => rewrite E in *; clear E end;
  repeat match goal with E : loop _ = _ |- _ => rewrite E in *; clear E end;
  rewrite ?counted_app, ?counted_cons, ?counted_nil, ?length_app in *; cbn [counts length Nat.add] in *.

Ltac settled :=
  try done; try lia;
  first [ by intros; simplify_eq/=
        | intros ? E; rewrite E in *; simplify_eq/=; eexists; split; [done|lia]
        | by intros ->
        | by match goal with G : _ = Gone → _ = [] |- _ => intros E; destruct (app_eq_nil _ _ (G E)) as [_ ?] end ].

Lemma quic_step cap c0 w w' : step w w' → inv cap c0 w → inv cap c0 w'.
Proof.
  intros Hs [Hp Ha Hl Hc Hg].
  destruct Hs as [? ? Hs|? ? Hs|? ? Hs| |]; try destruct Hs; (split; [eapply Accept.permits_moved; [exact Hp|..]|..]); cbn in *; tally; settled.
Qed.

Lemma quic_reachable cap c0 w : rtc step (start cap c0) w → inv cap c0 w.
Proof.
  intros Hr. pose proof (quic_start cap c0) as Hi. revert Hi.
  induction Hr as [|w1 w2 w3 Hs _ IH]; [done|]. intros Hi. apply IH. by eapply quic_step.
Qed.

(** At every moment of every interleaving the connections of a QUIC listener,
    those in their handshake included, are within its cap, its gauges count
    the connections that finished the handshake, new connections are taken
    exactly while the loop runs, and when the listener is gone the gauges are
    what they were before it. *)
Theorem quic_listener_invariant cap c0 w :
  rtc step (start cap c0) w →
  (∀ c, cap = Some c → (length (live w) <= N.to_nat c)%nat) ∧
  quic_connections_active (counters w) = (quic_connections_active c0 + Z.of_nat (counted_conns (live w)))%Z ∧
  conns_active (counters w) = (conns_active c0 + Z.of_nat (counted_conns (live w)))%Z ∧
  server_config w = in_loop (loop w) ∧
  (loop w = Gone → quic_connections_active (counters w) = quic_connections_active c0 ∧ conns_active (counters w) = conns_active c0).
Proof.
  intros [Hp Ha Hl Hc Hg]%quic_reachable. split_and!; [|done|done|done|].
  - intros c ->. destruct Hp as (f & _ & Hf). lia.
  - intros E. rewrite (Hg E), counted_nil in Ha, Hl. lia.
Qed.

(** At its cap with one more attempt in hand the loop does not see the signals
    until a connection ends. *)
Lemma full_quic_waits w w' : step w w' → loop w = Blocked → permits w = Some 0%nat → loop w' = Blocked.
Proof.
  intros Hs Hb Hp. destruct Hs as [? ? Hs|? ? Hs|? ? Hs| |]; try destruct Hs; cbn in *; congruence.
Qed.

End listener.

Module Demo.

Definition zero : Counters :=
  {| quic_handshakes_total := 0; quic_handshake_failures_total := 0; quic_connections_active := 0; conns_total := 0; conns_active := 0 |}.

(** A connection is served, the process is told to stop, and the connection
    goes on to take requests while the listener drains. *)
Definition draining : World :=
  {| loop := WaitingIdle; permits := Some 0%nat; live := [Serving]; requests := 1; shutdown := true; stop_accept := false;
     server_config := false; closed := false; counters := handshake_ok zero |}.

Ltac take_step := eapply rtc_l; [|cbn].

Lemma request_while_draining : rtc (step None) (start (Some 1) zero) draining.
Proof.
  take_step; [by apply ByLoop, (Takes _ _ true true)|]. take_step; [by apply ByLoop, (Spawns _ _ 0)|].
  take_step; [by apply ByConn, (HandshakeOk _ [] [])|]. take_step; [by apply ByConn, (SetupOk _ [] [])|].
  take_step; [by apply SignalsShutdown|]. take_step; [by apply ByLoop, Leaves|].
  take_step; [by apply ByConn, (AcceptsRequest _ [] [])|]. done.
Qed.

Lemma quic_listener_invariant_witness :
  quic_connections_active (counters draining) = 1%Z ∧ (length (live draining) <= 1)%nat ∧ server_config draining = false.
Proof.
  destruct (quic_listener_invariant None (Some 1) zero draining request_while_draining) as (Hc & Ha & _ & Hs & _).
  split; [exact Ha|]. split; [by apply (Hc 1)|exact Hs].
Defined.

End Demo.

End QuicLoop.
