(* ===== verification/Probe.v ===== *)
(** Active health probes ([HttpHealthProber] of [src/handler/proxy.rs]): the
    request a probe sends, its verdict, and what a history of probes makes of
    the upstreams of a pool.

    The client of the prober speaks HTTP/1.1 or HTTP/2 over TCP; what it gets is
    a parameter: the status of the answer, or [None] for an error and for an
    answer that takes longer than the bound. *)
From S2P Require Import Prelude RustStr ProxyRequest LoadBalancer.

Module Probe.
Import Lb.

Section probes.
Context `{Uris}.

Definition is_slash (c : ascii) : bool := Ascii.eqb c "/".

Definition probe_text (upstream path : string) : string :=
  let base := trim_end_by is_slash upstream in
  let suffix := if starts_with "/" path then path else "/" +:+ path in
  base +:+ suffix.

Definition build_probe_uri (upstream path : string) : option uri := uri_parse (probe_text upstream path).

(** [request_ok] is whether the request builder takes the URI. *)
Definition probe (request_ok : uri → bool) (answer : uri → Duration → option N) (cfg : ActiveHealthConfig) (url : string) : bool :=
  if starts_with "unix:" url then true
  else
    match build_probe_uri url (probe_path cfg) with
    | None => false
    | Some u =>
        if request_ok u then
          match answer u (from_secs (N.max (timeout_secs cfg) 1)) with
          | Some status => status =? expect_status cfg
          | None => false
          end
        else false
    end.

(** The rounds of the task, one network after the other. *)
Definition rounds (request_ok : uri → bool) (cfg : ActiveHealthConfig) (nets : list (uri → Duration → option N))
    (runs : list ProbeState) (us : list Upstream) : list ProbeState * list Upstream :=
  fold_left (λ ru net, probe_tick cfg (probe request_ok net cfg) ru.1 ru.2) nets (runs, us).

(** * Lemmas *)

Lemma trim_no_slash s : ∀ r, trim_end_by is_slash s ≠ r +:+ "/".
Proof.
  induction s as [|c s IH]; intros r; [by destruct r|]. cbn [trim_end_by].
  destruct (trim_end_by is_slash s) as [|d t] eqn:E.
  - destruct (is_slash c) eqn:Hc; [by destruct r|]. intros Hr. destruct r as [|x r]; [|by destruct r].
    injection Hr as ->. done.
  - intros Hr. destruct r as [|x r]; [done|]. rewrite str_app_cons in Hr. injection Hr as -> Hr. by apply (IH r).
Qed.

(** The text of a probe is the upstream without its trailing slashes, and a
    path that starts with one. *)
Theorem probe_text_joined upstream path :
  ∃ base suffix, probe_text upstream path = base +:+ suffix ∧ starts_with "/" suffix = true ∧
    (∀ r, base ≠ r +:+ "/") ∧ (∃ r, upstream = base +:+ r) ∧
    (suffix = path ∨ suffix = "/" +:+ path).
Proof.
  unfold probe_text. exists (trim_end_by is_slash upstream), (if starts_with "/" path then path else "/" +:+ path).
  split; [done|]. split.
  { destruct (starts_with "/" path) eqn:E; [done|]. apply starts_with_true. by eexists. }
  split; [apply trim_no_slash|]. split; [apply ProxyReq.trim_end_prefix|]. destruct (starts_with "/" path); auto.
Qed.

(** One round probes every upstream by its own address. *)
Lemma tick_lookup cfg p runs us i s u :
  runs !! i = Some s → us !! i = Some u →
  (probe_tick cfg p runs us).1 !! i = Some (probe_result cfg (p (url u)) s u).1 ∧
  (probe_tick cfg p runs us).2 !! i = Some (probe_result cfg (p (url u)) s u).2.
Proof.
  revert us i. induction runs as [|s0 runs IH]; intros [|u0 us] i; try done.
  cbn [probe_tick]. destruct (probe_result cfg (p (url u0)) s0 u0) as [s' u'] eqn:E.
  destruct (probe_tick cfg p runs us) as [runs'' us''] eqn:Et. destruct i as [|i]; cbn.
  - intros [= ->] [= ->]. by rewrite E.
  - intros Hs Hu. specialize (IH us i Hs Hu). by rewrite Et in IH.
Qed.

Lemma result_url cfg ok s u : url (probe_result cfg ok s u).2 = url u.
Proof. unfold probe_result. by destruct ok; cbn; destruct (_ && _). Qed.

(** After any rounds an upstream is where the verdicts of its own probes
    bring it. *)
Theorem rounds_judge request_ok cfg nets runs us i s u :
  runs !! i = Some s → us !! i = Some u →
  let verdicts := (λ net, probe request_ok net cfg (url u)) <$> nets in
  let '(s', u') := fold_left (λ su ok, probe_result cfg ok su.1 su.2) verdicts (s, u) in
  (rounds request_ok cfg nets runs us).1 !! i = Some s' ∧ (rounds request_ok cfg nets runs us).2 !! i = Some u'.
Proof.
  unfold rounds. revert runs us s u. induction nets as [|net nets IH]; intros runs us s u Hs Hu; [done|]. cbn [fmap list_fmap fold_left fst snd].
  destruct (tick_lookup cfg (probe request_ok net cfg) runs us i s u Hs Hu) as [H1 H2].
  destruct (probe_tick cfg (probe request_ok net cfg) runs us) as [runs1 us1]. cbn in H1, H2.
  pose proof (result_url cfg (probe request_ok net cfg (url u)) s u) as Hurl.
  destruct (probe_result cfg (probe request_ok net cfg (url u)) s u) as [s1 u1]. cbn in H1, H2, Hurl.
  specialize (IH runs1 us1 s1 u1 H1 H2). by rewrite Hurl in IH.
Qed.

Lemma unix_not_sent request_ok net cfg url path : url = "unix:" +:+ path → probe request_ok net cfg url = true.
Proof. intros ->. unfold probe. by rewrite (proj2 (starts_with_true "unix:" ("unix:" +:+ path))) by (by eexists). Qed.

(** An upstream behind a unix socket is never found unhealthy, whatever the
    network does: its probes are not sent. *)
Theorem unix_stays_healthy request_ok cfg nets runs us i s u path :
  runs !! i = Some s → us !! i = Some u → url u = "unix:" +:+ path → healthy u = true →
  healthy <$> (rounds request_ok cfg nets runs us).2 !! i = Some true.
Proof.
  intros Hs Hu Hurl Hh. pose proof (rounds_judge request_ok cfg nets runs us i s u Hs Hu) as Hr. cbn zeta in Hr.
  assert (∀ s, healthy (fold_left (λ su ok, probe_result cfg ok su.1 su.2) ((λ net, probe request_ok net cfg (url u)) <$> nets) (s, u)).2 = true) as Hk.
  { clear Hr Hs Hu. induction nets as [|net nets IH]; intros s'; [done|]. cbn [fmap list_fmap fold_left fst snd].
    rewrite (unix_not_sent request_ok net cfg (url u) path Hurl).
    cbn [probe_result]. rewrite Hh. cbn. apply IH. }
  specialize (Hk s). destruct (fold_left _ _ (s, u)) as [s' u']. destruct Hr as [_ ->]. cbn in *. by rewrite Hk.
Qed.

End probes.

Module Demo.
#[local] Instance text_uris : Uris :=
  {| uri := string; uri_parse s := Some s; uri_scheme _ := None; uri_authority _ := None; uri_host _ := None; uri_port_u16 _ := None;
     uri_path s := s; uri_query _ := None; uri_build _ _ _ := None |}.

Definition cfg : ActiveHealthConfig :=
  {| probe_path := "/healthz"; interval_secs := 5; timeout_secs := 2; expect_status := 200; unhealthy_after := 2; healthy_after := 1 |}.
Definition pool : list Upstream :=
  [new_upstream "https://h3.test/" 1 None; new_upstream "unix:/run/app.sock" 1 None].

(** Nothing answers on TCP: an upstream that serves HTTP/3 alone is given up
    after two rounds, for the prober has no HTTP/3 client; one behind a unix
    socket that is gone stays. *)
Lemma http3_only_given_up :
  healthy <$> (rounds (λ _, true) cfg [λ _ _, None; λ _ _, None] [probe_default; probe_default] pool).2 = [false; true].
Proof. by vm_compute. Qed.

Lemma unix_stays_healthy_witness :
  healthy <$> (rounds (λ _, true) cfg [λ _ _, None; λ _ _, None] [probe_default; probe_default] pool).2 !! 1%nat = Some true.
Proof. eapply (unix_stays_healthy _ _ _ _ _ _ probe_default _ "/run/app.sock"); reflexivity. Defined.

Lemma rounds_judge_witness :
  let '(s', u') := fold_left (λ su ok, probe_result cfg ok su.1 su.2) [false] (probe_default, new_upstream "https://h3.test/" 1 None) in
  (rounds (λ _, true) cfg [λ _ _, Some 503] [probe_default] [new_upstream "https://h3.test/" 1 None]).2 !! 0%nat = Some u'.
Proof.
  pose proof (rounds_judge (λ _, true) cfg [λ _ _, Some 503] [probe_default] [new_upstream "https://h3.test/" 1 None] 0 probe_default
    (new_upstream "https://h3.test/" 1 None) eq_refl eq_refl) as Hr. exact (proj2 Hr).
Defined.

Lemma probe_joined : probe_text "http://a.test:8080//" "healthz" = "http://a.test:8080/healthz".
Proof. by vm_compute. Qed.

End Demo.

End Probe.
