(* ===== verification/Prom.v ===== *)
(** The metrics page ([src/handler/metrics.rs]): the counters of a snapshot in
    the text format Prometheus reads, and a reader of that format to show
    that nothing in them can be mistaken for something else.

    Numbers that the code divides as [f64] are printed as the decimals they
    stand for: the shortest decimal that gives back an [f64] is that decimal
    as long as it has at most fifteen digits, which microseconds have for
    thirty years. The CPU percentage is a measured [f64] and stays as it is
    printed. *)
From S2P Require Import Prelude RustStr Http Errors Metrics LoadBalancer.

Module Prom.
Import Metrics.

(** * Snapshots *)

Record StreamSnap := {
  stream_conns_active : Z;
  stream_conns_total : N;
  stream_bytes_in : N;
  stream_bytes_out : N;
}.

Record CompressionSnap := {
  comp_responses : N;
  comp_skipped : N;
  comp_bytes_in : N;
  comp_bytes_out : N;
  comp_gzip : N;
  comp_brotli : N;
  comp_zstd : N;
}.

Record TlsSnap := {
  tls_handshakes : N;
  tls_failures : N;
  tls_timeouts : N;
}.

Record GeoipSnap := {
  geo_lookups : N;
  geo_misses : N;
}.

Record ShutdownSnap := {
  shut_drained : N;
  shut_abandoned : N;
}.

Record AcmeSnap := {
  acme_issuances : N;
  acme_issuance_failures : N;
  acme_renewals : N;
  acme_renewal_failures : N;
}.

Record OcspSnap := {
  ocsp_refreshes : N;
  ocsp_refresh_failures : N;
}.

Record LbSnap := {
  lb_picks : N;
  lb_no_upstream : N;
  lb_retries : N;
  lb_ejections : N;
  lb_health_failures : N;
  lb_health_recoveries : N;
  lb_health_checks : N;
}.

Record UpstreamSnap := {
  up_bytes_in : N;
  up_bytes_out : N;
  up_connect_errors : N;
  up_latency : list N;
  up_latency_sum_us : N;
}.

Record RateLimitSnap := {
  rl_triggers : N;
  rl_active_keys : N;
}.

Record CacheSnap := {
  cache_hits : N;
  cache_misses : N;
  cache_stores : N;
  cache_bypass : N;
  cache_evictions : N;
  cache_revalidations : N;
  cache_entries : N;
  cache_bytes : N;
}.

Record DatagramSnap := {
  dg_flows_active : N;
  dg_datagrams_in : N;
  dg_datagrams_out : N;
  dg_bytes_in : N;
  dg_bytes_out : N;
  dg_flow_create : N;
  dg_flow_evict : N;
}.

Record HttpConnSnap := {
  hc_active : Z;
  hc_total : N;
}.

Record BackendSnap := {
  be_requests : N;
  be_errors : N;
  be_in_flight : Z;
}.

Record CgiSnap := {
  cgi_requests : N;
  cgi_errors : N;
  cgi_in_flight : Z;
  cgi_spawn_failures : N;
  cgi_timeouts : N;
}.

Record StaticSnap := {
  static_bytes_served : N;
  static_not_modified : N;
  static_range : N;
}.

Record OidcSnap := {
  oidc_refreshes : N;
  oidc_refresh_failures : N;
  oidc_logouts : N;
  oidc_discoveries : N;
  oidc_discovery_failures : N;
  oidc_userinfo_failures : N;
  oidc_backchannel_logouts : N;
  oidc_backchannel_failures : N;
  oidc_bearer_validations : N;
  oidc_bearer_failures : N;
  oidc_revocations : N;
  oidc_revocation_failures : N;
  oidc_callback_iss_mismatches : N;
}.

Record Snapshot (f64 : Type) := {
  s_uptime : Duration;
  s_requests_total : N;
  s_requests_active : Z;
  s_status_2xx : N;
  s_status_3xx : N;
  s_status_4xx : N;
  s_status_5xx : N;
  s_latency : list N;
  s_latency_sum_us : N;
  s_rate_current : f64;
  s_rate_1min : f64;
  s_rate_5min : f64;
  s_rate_15min : f64;
  s_memory_kb : option N;
  s_cpu_percent : option f64;
  s_auth_failures_total : N;
  s_jwt_failures_total : N;
  s_jwt_expiries_total : N;
  s_jwt_issued_total : N;
  s_auth_fail_1h : N;
  s_jwt_fail_1h : N;
  s_jwt_expiry_1h : N;
  s_jwt_issued_1h : N;
  s_quic_handshakes_total : N;
  s_quic_handshake_failures_total : N;
  s_quic_connections_active : Z;
  s_quic_requests_total : N;
  s_quic_outbound_handshakes_total : N;
  s_stream : StreamSnap;
  s_datagram : DatagramSnap;
  s_compression : CompressionSnap;
  s_tls : TlsSnap;
  s_geoip : GeoipSnap;
  s_shutdown : ShutdownSnap;
  s_acme : AcmeSnap;
  s_ocsp : OcspSnap;
  s_lb : LbSnap;
  s_upstream : UpstreamSnap;
  s_rate_limit : RateLimitSnap;
  s_cache : CacheSnap;
  s_oidc : OidcSnap;
  s_http_conns : HttpConnSnap;
  s_fcgi : BackendSnap;
  s_scgi : BackendSnap;
  s_cgi : CgiSnap;
  s_static_files : StaticSnap;
  s_by_handler : list (string * Metrics.ClassCounters);
  s_by_vhost : list (string * Metrics.ClassCounters);
  s_by_listener : list (string * Metrics.ListenerMetrics);
}.

Abbreviation Snap := (Snapshot string) (only parsing).
Arguments s_uptime {f64} _.
Arguments s_requests_total {f64} _.
Arguments s_requests_active {f64} _.
Arguments s_status_2xx {f64} _.
Arguments s_status_3xx {f64} _.
Arguments s_status_4xx {f64} _.
Arguments s_status_5xx {f64} _.
Arguments s_latency {f64} _.
Arguments s_latency_sum_us {f64} _.
Arguments s_rate_current {f64} _.
Arguments s_rate_1min {f64} _.
Arguments s_rate_5min {f64} _.
Arguments s_rate_15min {f64} _.
Arguments s_memory_kb {f64} _.
Arguments s_cpu_percent {f64} _.
Arguments s_auth_failures_total {f64} _.
Arguments s_jwt_failures_total {f64} _.
Arguments s_jwt_expiries_total {f64} _.
Arguments s_jwt_issued_total {f64} _.
Arguments s_auth_fail_1h {f64} _.
Arguments s_jwt_fail_1h {f64} _.
Arguments s_jwt_expiry_1h {f64} _.
Arguments s_jwt_issued_1h {f64} _.
Arguments s_quic_handshakes_total {f64} _.
Arguments s_quic_handshake_failures_total {f64} _.
Arguments s_quic_connections_active {f64} _.
Arguments s_quic_requests_total {f64} _.
Arguments s_quic_outbound_handshakes_total {f64} _.
Arguments s_stream {f64} _.
Arguments s_datagram {f64} _.
Arguments s_compression {f64} _.
Arguments s_tls {f64} _.
Arguments s_geoip {f64} _.
Arguments s_shutdown {f64} _.
Arguments s_acme {f64} _.
Arguments s_ocsp {f64} _.
Arguments s_lb {f64} _.
Arguments s_upstream {f64} _.
Arguments s_rate_limit {f64} _.
Arguments s_cache {f64} _.
Arguments s_oidc {f64} _.
Arguments s_http_conns {f64} _.
Arguments s_fcgi {f64} _.
Arguments s_scgi {f64} _.
Arguments s_cgi {f64} _.
Arguments s_static_files {f64} _.
Arguments s_by_handler {f64} _.
Arguments s_by_vhost {f64} _.
Arguments s_by_listener {f64} _.

(** * Lines *)

Inductive Line :=
  | Help (name help : string)
  | Type_ (name kind : string)
  | Sample (name : string) (labels : list (string * string)) (value : string).

Definition BS : ascii := "\".
Definition QUOTE : ascii := "034".
Definition NL : ascii := "010".

Fixpoint escape_label (v : string) : string :=
  match v with
  | "" => ""
  | String c v' =>
      if Ascii.eqb c BS then String BS (String BS (escape_label v'))
      else if Ascii.eqb c QUOTE then String BS (String QUOTE (escape_label v'))
      else if Ascii.eqb c NL then String BS (String "n" (escape_label v'))
      else String c (escape_label v')
  end.

Definition show_label (l : string * string) : string :=
  l.1 +:+ String "=" (String QUOTE (escape_label l.2 +:+ String QUOTE "")).

Definition write_labels (ls : list (string * string)) : string :=
  match ls with [] => "" | _ => String "{" (join "," (show_label <$> ls) +:+ "}") end.

Definition show_line (l : Line) : string :=
  match l with
  | Help n h => "# HELP " +:+ n +:+ " " +:+ h
  | Type_ n k => "# TYPE " +:+ n +:+ " " +:+ k
  | Sample n ls v => n +:+ write_labels ls +:+ " " +:+ v
  end.

Definition show_page (ls : list Line) : string := String.concat "" ((λ l, show_line l +:+ String NL "") <$> ls).

Definition write_meta (name help kind : string) : list Line := [Help name help; Type_ name kind].
Definition write_value (name : string) (labels : list (string * string)) (v : N) : list Line := [Sample name labels (dec v)].

Definition show_Z (z : Z) : string := if (z <? 0)%Z then "-" +:+ dec (Z.to_N (- z)) else dec (Z.to_N z).

Definition write_value_i64 (name : string) (labels : list (string * string)) (v : Z) : list Line :=
  [Sample name labels (show_Z v)].
Definition write_value_f64 (name : string) (labels : list (string * string)) (v : string) : list Line :=
  [Sample name labels v].

(** [n] over [10^k], as [f64] prints it. *)
Fixpoint pad_zeros (n : nat) : string := match n with O => "" | S n => String "0" (pad_zeros n) end.
Definition pad (k : nat) (s : string) : string := pad_zeros (k - String.length s) +:+ s.
Definition decimal (k : nat) (n : N) : string :=
  let frac := trim_end_by (λ c, Ascii.eqb c "0") (pad k (dec (n mod 10 ^ N.of_nat k))) in
  dec (n / 10 ^ N.of_nat k) +:+ (if is_empty frac then "" else "." +:+ frac).

Definition bound_secs (us : N) : string := decimal 6 us.

(** The running sums of the buckets; [u64] additions wrap. *)
Fixpoint cumulate (acc : N) (buckets : list N) : list N :=
  match buckets with
  | [] => []
  | b :: bs => let acc := wrap64 (acc + b) in acc :: cumulate acc bs
  end.

Definition le_of (i : nat) : string :=
  match LATENCY_BOUNDS_US !! i with Some us => bound_secs us | None => "+Inf" end.

Definition write_hist (name : string) (labels : list (string * string)) (buckets : list N) (sum_us : N) : list Line :=
  let cums := cumulate 0 buckets in
  imap (λ i cum, Sample (name +:+ "_bucket") (labels ++ [("le", le_of i)]) (dec cum)) cums ++
  write_value_f64 (name +:+ "_sum") labels (decimal 6 sum_us) ++
  write_value (name +:+ "_count") labels (List.last cums 0).

Definition write_class (name key val : string) (c : ClassCounters) : list Line :=
  flat_map (λ p, write_value name [(key, val); ("code", p.1)] p.2)
    [("2xx", s2xx c); ("3xx", s3xx c); ("4xx", s4xx c); ("5xx", s5xx c)].

(** * The page *)

Definition p (name : string) : string := "hypershunt_" +:+ name.

Definition scalars (kind : string) (rows : list (string * string * N)) : list Line :=
  flat_map (λ '(name, help, v), write_meta (p name) help kind ++ write_value (p name) [] v) rows.
Definition scalars_i64 (kind : string) (rows : list (string * string * Z)) : list Line :=
  flat_map (λ '(name, help, v), write_meta (p name) help kind ++ write_value_i64 (p name) [] v) rows.

Definition by_direction (name : string) (i o : N) : list Line :=
  write_value (p name) [("direction", "in")] i ++ write_value (p name) [("direction", "out")] o.

(** A pool as the registry names it. *)
Record LbPoolEntry := {
  pool_label : string;
  upstreams : list Lb.Upstream;
}.

Section page.
Context (version : string) (s : Snap) (now_ms : N).

Definition request_lines : list Line :=
  write_meta (p "build_info") "Build metadata; value is always 1." "gauge" ++
  write_value (p "build_info") [("version", version)] 1 ++
  write_meta (p "uptime_seconds") "Seconds since process start." "gauge" ++
  write_value (p "uptime_seconds") [] (as_secs (s_uptime s)) ++
  write_meta (p "requests_total") "Completed requests." "counter" ++
  write_value (p "requests_total") [] (s_requests_total s) ++
  write_meta (p "requests_active") "Requests currently in flight." "gauge" ++
  write_value_i64 (p "requests_active") [] (s_requests_active s) ++
  write_meta (p "responses_total") "Responses by status class." "counter" ++
  flat_map (λ r, write_value (p "responses_total") [("code", r.1)] r.2)
    [("2xx", s_status_2xx s); ("3xx", s_status_3xx s); ("4xx", s_status_4xx s); ("5xx", s_status_5xx s)] ++
  write_meta (p "request_duration_seconds") "Request latency." "histogram" ++
  write_hist (p "request_duration_seconds") [] (s_latency s) (s_latency_sum_us s).

Definition breakdown_lines : list Line :=
  write_meta (p "vhost_requests_total") "Requests by vhost and status class." "counter" ++
  flat_map (λ r, write_class (p "vhost_requests_total") "vhost" r.1 r.2) (s_by_vhost s) ++
  write_meta (p "vhost_request_duration_seconds") "Request latency by vhost." "histogram" ++
  flat_map (λ r, write_hist (p "vhost_request_duration_seconds") [("vhost", r.1)] (latency r.2) (latency_sum_us r.2))
    (s_by_vhost s) ++
  write_meta (p "handler_requests_total") "Requests by handler type and status class." "counter" ++
  flat_map (λ r, if (total r.2 =? 0)%N then [] else write_class (p "handler_requests_total") "handler" r.1 r.2)
    (s_by_handler s).

Definition listener_lines : list Line :=
  write_meta (p "listener_requests_total") "Requests by listener bind." "counter" ++
  flat_map (λ r, write_value (p "listener_requests_total") [("listener", r.1)] (lm_requests_total r.2)) (s_by_listener s) ++
  write_meta (p "listener_connections_total") "Connections by listener bind." "counter" ++
  write_meta (p "listener_connections_active") "Open connections by listener bind." "gauge" ++
  flat_map (λ r, write_value (p "listener_connections_total") [("listener", r.1)] (conns_total r.2) ++
                 write_value_i64 (p "listener_connections_active") [("listener", r.1)] (conns_active r.2)) (s_by_listener s) ++
  write_meta (p "listener_tls_handshakes_total") "TLS handshake outcomes by listener bind." "counter" ++
  flat_map (λ r, flat_map (λ x, write_value (p "listener_tls_handshakes_total") [("listener", r.1); ("result", x.1)] x.2)
      [("ok", tls_handshakes_total r.2); ("error", tls_handshake_failures_total r.2);
       ("timeout", tls_handshake_timeouts_total r.2)]) (s_by_listener s).

Definition connection_rows : list (string * string * N) :=
  [("tls_handshakes_total", "TLS handshakes.", tls_handshakes (s_tls s));
   ("tls_handshake_failures_total", "Failed TLS handshakes.", tls_failures (s_tls s));
   ("tls_handshake_timeouts_total", "Timed-out TLS handshakes.", tls_timeouts (s_tls s));
   ("quic_handshakes_total", "QUIC handshakes.", s_quic_handshakes_total s);
   ("quic_handshake_failures_total", "Failed QUIC handshakes.", s_quic_handshake_failures_total s);
   ("quic_requests_total", "HTTP/3 requests.", s_quic_requests_total s);
   ("quic_outbound_handshakes_total", "Outbound (proxy) QUIC handshakes.", s_quic_outbound_handshakes_total s);
   ("http_connections_total", "HTTP connections accepted.", hc_total (s_http_conns s))].
Definition connection_gauges : list (string * string * Z) :=
  [("quic_connections_active", "Open QUIC connections.", s_quic_connections_active s);
   ("http_connections_active", "Open HTTP connections.", hc_active (s_http_conns s))].
Definition auth_rows : list (string * string * N) :=
  [("auth_failures_total", "Credential auth failures.", s_auth_failures_total s);
   ("jwt_failures_total", "JWT validation failures.", s_jwt_failures_total s);
   ("jwt_expiries_total", "Expired-but-valid JWTs seen.", s_jwt_expiries_total s);
   ("jwt_issued_total", "JWT session cookies issued.", s_jwt_issued_total s);
   ("oidc_refreshes_total", "OIDC token refreshes.", oidc_refreshes (s_oidc s));
   ("oidc_refresh_failures_total", "OIDC refresh failures.", oidc_refresh_failures (s_oidc s));
   ("oidc_logouts_total", "OIDC logouts.", oidc_logouts (s_oidc s));
   ("oidc_discoveries_total", "OIDC discovery runs.", oidc_discoveries (s_oidc s));
   ("oidc_discovery_failures_total", "OIDC discovery failures.", oidc_discovery_failures (s_oidc s));
   ("oidc_userinfo_failures_total", "OIDC UserInfo failures.", oidc_userinfo_failures (s_oidc s));
   ("oidc_backchannel_logouts_total", "OIDC back-channel logouts.", oidc_backchannel_logouts (s_oidc s));
   ("oidc_backchannel_failures_total", "OIDC back-channel failures.", oidc_backchannel_failures (s_oidc s));
   ("oidc_bearer_validations_total", "OIDC bearer tokens validated.", oidc_bearer_validations (s_oidc s));
   ("oidc_bearer_failures_total", "OIDC bearer validation failures.", oidc_bearer_failures (s_oidc s));
   ("oidc_revocations_total", "RFC 7009 revocations sent.", oidc_revocations (s_oidc s));
   ("oidc_revocation_failures_total", "Failed revocations.", oidc_revocation_failures (s_oidc s));
   ("oidc_callback_iss_mismatches_total", "RFC 9207 iss mismatches on callback.", oidc_callback_iss_mismatches (s_oidc s))].
Definition lb_rows : list (string * string * N) :=
  [("lb_picks_total", "Upstream picks.", lb_picks (s_lb s));
   ("lb_no_upstream_total", "Picks with no upstream available.", lb_no_upstream (s_lb s));
   ("lb_retries_total", "Proxy retries.", lb_retries (s_lb s));
   ("lb_ejections_total", "Passive upstream ejections.", lb_ejections (s_lb s));
   ("lb_health_failures_total", "Active health probe failures.", lb_health_failures (s_lb s));
   ("lb_health_recoveries_total", "Active health recoveries.", lb_health_recoveries (s_lb s));
   ("lb_health_checks_total", "Active health probes run.", lb_health_checks (s_lb s));
   ("proxy_upstream_connect_errors_total", "Upstream connect errors.", up_connect_errors (s_upstream s))].
Definition cache_rows : list (string * string * N) :=
  [("cache_hits_total", "Cache hits.", cache_hits (s_cache s));
   ("cache_misses_total", "Cache misses.", cache_misses (s_cache s));
   ("cache_stores_total", "Responses stored.", cache_stores (s_cache s));
   ("cache_bypass_total", "Cache bypasses.", cache_bypass (s_cache s));
   ("cache_evictions_total", "Evictions.", cache_evictions (s_cache s));
   ("cache_revalidations_total", "Revalidations.", cache_revalidations (s_cache s));
   ("rate_limit_triggers_total", "Requests rejected with 429.", rl_triggers (s_rate_limit s));
   ("compress_responses_total", "Responses compressed.", comp_responses (s_compression s));
   ("compress_skipped_total", "Responses not compressed.", comp_skipped (s_compression s))].
Definition cache_gauges : list (string * string * N) :=
  [("cache_entries", "Cached responses.", cache_entries (s_cache s));
   ("cache_bytes", "Cached body bytes.", cache_bytes (s_cache s));
   ("rate_limit_active_keys", "Live rate-limit buckets (refreshed every 60s).", rl_active_keys (s_rate_limit s))].
Definition stream_rows : list (string * string * N) :=
  [("stream_connections_total", "L4 stream connections.", stream_conns_total (s_stream s));
   ("datagram_flow_create_total", "Datagram flows created.", dg_flow_create (s_datagram s));
   ("datagram_flow_evict_total", "Datagram flows evicted.", dg_flow_evict (s_datagram s))].
Definition other_rows : list (string * string * N) :=
  [("cgi_spawn_failures_total", "CGI spawn failures.", cgi_spawn_failures (s_cgi s));
   ("cgi_timeouts_total", "CGI timeouts.", cgi_timeouts (s_cgi s));
   ("static_bytes_served_total", "Static file bytes served.", static_bytes_served (s_static_files s));
   ("static_not_modified_total", "304 responses.", static_not_modified (s_static_files s));
   ("static_range_total", "Range responses.", static_range (s_static_files s));
   ("geoip_lookups_total", "GeoIP lookups.", geo_lookups (s_geoip s));
   ("geoip_lookup_misses_total", "GeoIP misses.", geo_misses (s_geoip s));
   ("shutdown_drained_total", "Connections drained at shutdown.", shut_drained (s_shutdown s));
   ("shutdown_abandoned_total", "Connections abandoned at shutdown.", shut_abandoned (s_shutdown s));
   ("acme_issuances_total", "ACME issuances.", acme_issuances (s_acme s));
   ("acme_issuance_failures_total", "ACME issuance failures.", acme_issuance_failures (s_acme s));
   ("acme_renewals_total", "ACME renewals.", acme_renewals (s_acme s));
   ("acme_renewal_failures_total", "ACME renewal failures.", acme_renewal_failures (s_acme s));
   ("ocsp_refreshes_total", "OCSP refreshes.", ocsp_refreshes (s_ocsp s));
   ("ocsp_refresh_failures_total", "OCSP refresh failures.", ocsp_refresh_failures (s_ocsp s))].

Definition proxy_lines : list Line :=
  write_meta (p "proxy_upstream_bytes_total") "Proxy bytes by direction (Content-Length derived)." "counter" ++
  by_direction "proxy_upstream_bytes_total" (up_bytes_in (s_upstream s)) (up_bytes_out (s_upstream s)) ++
  write_meta (p "proxy_upstream_duration_seconds") "Upstream round-trip latency (all upstreams)." "histogram" ++
  write_hist (p "proxy_upstream_duration_seconds") [] (up_latency (s_upstream s)) (up_latency_sum_us (s_upstream s)).

Definition upstream_metas : list Line :=
  write_meta (p "upstream_requests_total") "Requests by pool and upstream (resets on reload)." "counter" ++
  write_meta (p "upstream_errors_total") "5xx or failed requests by pool and upstream." "counter" ++
  write_meta (p "upstream_bytes_total") "Bytes by pool, upstream, direction." "counter" ++
  write_meta (p "upstream_in_flight") "In-flight requests per upstream." "gauge" ++
  write_meta (p "upstream_healthy") "Active-probe verdict (1 healthy)." "gauge" ++
  write_meta (p "upstream_ejected") "Passive ejection state (1 ejected)." "gauge" ++
  write_meta (p "upstream_consecutive_errors") "Consecutive failures toward passive ejection." "gauge" ++
  write_meta (p "upstream_eject_remaining_seconds") "Seconds until a passive ejection lifts." "gauge" ++
  write_meta (p "upstream_request_duration_seconds") "Upstream latency by pool and upstream." "histogram".

Definition upstream_samples (label : string) (u : Lb.Upstream) : list Line :=
  let labels := [("pool", label); ("upstream", Lb.url u)] in
  write_value (p "upstream_requests_total") labels (Lb.requests_total u) ++
  write_value (p "upstream_errors_total") labels (Lb.errors_total u) ++
  write_value (p "upstream_bytes_total") (labels ++ [("direction", "in")]) (Lb.bytes_in_total u) ++
  write_value (p "upstream_bytes_total") (labels ++ [("direction", "out")]) (Lb.bytes_out_total u) ++
  write_value (p "upstream_in_flight") labels (Lb.in_flight u) ++
  write_value (p "upstream_healthy") labels (if Lb.healthy u then 1 else 0) ++
  write_value (p "upstream_ejected") labels (if Lb.is_ejected u now_ms then 1 else 0) ++
  write_value (p "upstream_consecutive_errors") labels (Lb.consecutive_errors u) ++
  write_value_f64 (p "upstream_eject_remaining_seconds") labels (decimal 3 (Lb.ejected_remaining_ms u now_ms)) ++
  write_hist (p "upstream_request_duration_seconds") labels (Lb.latency u) (Lb.latency_sum_us u).

Definition upstream_lines (reg : option (list LbPoolEntry)) : list Line :=
  match reg with
  | None => []
  | Some pools => upstream_metas ++ flat_map (λ e, flat_map (upstream_samples (pool_label e)) (upstreams e)) pools
  end.

Definition compress_lines : list Line :=
  write_meta (p "compress_bytes_total") "Compression bytes by direction." "counter" ++
  by_direction "compress_bytes_total" (comp_bytes_in (s_compression s)) (comp_bytes_out (s_compression s)) ++
  write_meta (p "compress_encoded_total") "Compressed responses by encoding." "counter" ++
  flat_map (λ r, write_value (p "compress_encoded_total") [("encoding", r.1)] r.2)
    [("gzip", comp_gzip (s_compression s)); ("brotli", comp_brotli (s_compression s)); ("zstd", comp_zstd (s_compression s))].

Definition stream_lines : list Line :=
  write_meta (p "stream_connections_active") "Open L4 stream connections." "gauge" ++
  write_value_i64 (p "stream_connections_active") [] (stream_conns_active (s_stream s)) ++
  write_meta (p "datagram_flows_active") "Live datagram flows." "gauge" ++
  write_value (p "datagram_flows_active") [] (dg_flows_active (s_datagram s)) ++
  write_meta (p "stream_bytes_total") "L4 stream bytes by direction (flushed at close)." "counter" ++
  by_direction "stream_bytes_total" (stream_bytes_in (s_stream s)) (stream_bytes_out (s_stream s)) ++
  write_meta (p "datagrams_total") "Datagrams by direction." "counter" ++
  write_meta (p "datagram_bytes_total") "Datagram bytes by direction." "counter" ++
  flat_map (λ '(dir, dg, by_), write_value (p "datagrams_total") [("direction", dir)] dg ++
                               write_value (p "datagram_bytes_total") [("direction", dir)] by_)
    [("in", dg_datagrams_in (s_datagram s), dg_bytes_in (s_datagram s));
     ("out", dg_datagrams_out (s_datagram s), dg_bytes_out (s_datagram s))].

Definition backend_lines : list Line :=
  write_meta (p "backend_requests_total") "CGI-family backend requests." "counter" ++
  write_meta (p "backend_errors_total") "CGI-family backend errors." "counter" ++
  write_meta (p "backend_in_flight") "CGI-family backend in-flight requests." "gauge" ++
  flat_map (λ '(b, req, err, inf), write_value (p "backend_requests_total") [("backend", b)] req ++
                                  write_value (p "backend_errors_total") [("backend", b)] err ++
                                  write_value_i64 (p "backend_in_flight") [("backend", b)] inf)
    [("fcgi", be_requests (s_fcgi s), be_errors (s_fcgi s), be_in_flight (s_fcgi s));
     ("scgi", be_requests (s_scgi s), be_errors (s_scgi s), be_in_flight (s_scgi s));
     ("cgi", cgi_requests (s_cgi s), cgi_errors (s_cgi s), cgi_in_flight (s_cgi s))].

(** [kb * 1024] on [u64]. *)
Definition process_lines : list Line :=
  match s_memory_kb s with
  | Some kb => write_meta (p "process_resident_memory_bytes") "VmRSS." "gauge" ++
               write_value (p "process_resident_memory_bytes") [] (wrap64 (kb * 1024))
  | None => []
  end ++
  match s_cpu_percent s with
  | Some cpu => write_meta (p "process_cpu_percent") "CPU percent of one core (5s window)." "gauge" ++
                write_value_f64 (p "process_cpu_percent") [] cpu
  | None => []
  end.

Definition render_prometheus (reg : option (list LbPoolEntry)) : list Line :=
  request_lines ++ breakdown_lines ++ listener_lines ++ scalars "counter" connection_rows ++
  scalars_i64 "gauge" connection_gauges ++ scalars "counter" auth_rows ++ scalars "counter" lb_rows ++ proxy_lines ++
  upstream_lines reg ++ scalars "counter" cache_rows ++ scalars "gauge" cache_gauges ++ compress_lines ++
  scalars "counter" stream_rows ++ stream_lines ++ backend_lines ++ scalars "counter" other_rows ++ process_lines.

End page.

(** [MetricsHandler::handle]. *)
Definition CONTENT_TYPE : string := "text/plain; version=0.0.4; charset=utf-8".

Definition handle `{Http} (method : string) (page : list Line) : option HttpResponse :=
  if negb (String.eqb method "GET" || String.eqb method "HEAD") then
    Errors.build 405 [("Allow", "GET, HEAD")] ("method not allowed" +:+ String NL "")
  else Errors.build 200 [("Content-Type", CONTENT_TYPE)] (if String.eqb method "HEAD" then "" else show_page page).

(** * Reading a page *)

Definition name_char (c : ascii) : bool := is_digit c || Ascii.eqb c "_" || Ascii.eqb c ":" ||
  ((97 <=? N_of_ascii c) && (N_of_ascii c <=? 122)) || ((65 <=? N_of_ascii c) && (N_of_ascii c <=? 90)).

Fixpoint span_name (s : string) : string * string :=
  match s with
  | "" => ("", "")
  | String c s' => if name_char c then let '(a, b) := span_name s' in (String c a, b) else ("", s)
  end.

(** A quoted value up to its closing quote. *)
Fixpoint read_value (s : string) : option (string * string) :=
  match s with
  | "" => None
  | String c s' =>
      if Ascii.eqb c QUOTE then Some ("", s')
      else if Ascii.eqb c BS then
        match s' with
        | "" => None
        | String d s'' =>
            e ← (if Ascii.eqb d BS then Some BS else if Ascii.eqb d QUOTE then Some QUOTE
                 else if Ascii.eqb d "n" then Some NL else None);
            '(v, r) ← read_value s''; Some (String e v, r)
        end
      else '(v, r) ← read_value s'; Some (String c v, r)
  end.

(** Labels up to the closing brace, one for each unit of [fuel]. *)
Fixpoint read_labels (fuel : nat) (s : string) : option (list (string * string) * string) :=
  match fuel with
  | O => None
  | S fuel =>
      '(k, r) ← split_once "=" s;
      match r with
      | String q r =>
          if Ascii.eqb q QUOTE then
            '(v, r) ← read_value r;
            match r with
            | String "," r => '(ls, r) ← read_labels fuel r; Some ((k, v) :: ls, r)
            | String "}" r => Some ([(k, v)], r)
            | _ => None
            end
          else None
      | "" => None
      end
  end.

Definition read_sample (l : string) : option Line :=
  let '(n, r) := span_name l in
  match r with
  | String "{" r =>
      '(ls, r) ← read_labels (String.length r) r;
      match r with String " " v => Some (Sample n ls v) | _ => None end
  | String " " v => Some (Sample n [] v)
  | _ => None
  end.

Definition read_line (l : string) : option Line :=
  match strip_prefix "# HELP " l with
  | Some r => '(n, h) ← split_once " " r; Some (Help n h)
  | None =>
      match strip_prefix "# TYPE " l with
      | Some r => '(n, k) ← split_once " " r; Some (Type_ n k)
      | None => read_sample l
      end
  end.

Definition read_page (s : string) : option (list Line) := mapM read_line (List.removelast (split NL s)).

(** ** Round trip *)

Definition word (s : string) : bool := str_all name_char s.
Definition one_line (s : string) : bool := negb (contains_char NL s).

Definition line_ok (l : Line) : bool :=
  match l with
  | Help n h => word n && one_line h
  | Type_ n k => word n && one_line k
  | Sample n ls v => word n && forallb (λ l, word l.1) ls && one_line v
  end.

Lemma read_value_escape v r : read_value (escape_label v +:+ String QUOTE r) = Some (v, r).
Proof.
  induction v as [|c v IH]; [done|]. cbn [escape_label].
  destruct (Ascii.eqb_spec c BS) as [->|Hb]; [rewrite !str_app_cons; cbn [read_value]; by rewrite IH|].
  destruct (Ascii.eqb_spec c QUOTE) as [->|Hq]; [rewrite !str_app_cons; cbn [read_value]; by rewrite IH|].
  destruct (Ascii.eqb_spec c NL) as [->|Hn]; [rewrite !str_app_cons; cbn [read_value]; by rewrite IH|].
  rewrite str_app_cons. cbn [read_value]. apply Ascii.eqb_neq in Hb, Hq. rewrite Hb, Hq, IH. done.
Qed.

Lemma word_not c n : word n = true → name_char c = false → contains_char c n = false.
Proof.
  intros Hw Hc. induction n as [|d n IH]; [done|]. cbn in *. apply andb_true_iff in Hw as [Hd Hw].
  destruct (Ascii.eqb_spec d c) as [->|]; [congruence|]. by apply IH.
Qed.

Lemma span_name_word n c r : word n = true → name_char c = false → span_name (n +:+ String c r) = (n, String c r).
Proof.
  intros Hw Hc. induction n as [|d n IH].
  { rewrite str_app_nil_l. cbn [span_name]. by rewrite Hc. }
  unfold word in Hw. cbn [str_all] in Hw. apply andb_true_iff in Hw as [Hd Hw].
  rewrite str_app_cons. cbn [span_name]. by rewrite Hd, IH.
Qed.

Lemma show_label_app l r : show_label l +:+ r = l.1 +:+ String "=" (String QUOTE (escape_label l.2 +:+ String QUOTE r)).
Proof. unfold show_label. by rewrite str_app_assoc, !str_app_cons, str_app_assoc. Qed.

Lemma read_labels_show ls r fuel :
  ls ≠ [] → forallb (λ l, word l.1) ls = true → (length ls ≤ fuel)%nat →
  read_labels fuel (join "," (show_label <$> ls) +:+ String "}" r) = Some (ls, r).
Proof.
  revert fuel. induction ls as [|l ls IH]; intros fuel Hne Hok Hf; [done|]. destruct fuel as [|fuel]; [cbn in Hf; lia|].
  cbn in Hok. apply andb_true_iff in Hok as [Hl Hok]. destruct ls as [|l' ls].
  - change (join "," (show_label <$> [l])) with (show_label l). rewrite show_label_app. cbn [read_labels].
    rewrite split_once_app by by apply word_not. cbn. rewrite read_value_escape. cbn. by destruct l.
  - change (join "," (show_label <$> l :: l' :: ls)) with (show_label l +:+ String "," (join "," (show_label <$> l' :: ls))).
    rewrite str_app_assoc, show_label_app, str_app_cons. cbn [read_labels].
    rewrite split_once_app by by apply word_not. cbn [mbind option_bind]. rewrite Ascii.eqb_refl, read_value_escape.
    cbn [mbind option_bind]. rewrite IH; [by destruct l|done|done|cbn in *; lia].
Qed.

Lemma labels_length ls r : ls ≠ [] → (length ls ≤ String.length (join "," (show_label <$> ls) +:+ String "}" r))%nat.
Proof.
  intros _. rewrite str_length_app. cbn [String.length].
  enough (length ls ≤ S (String.length (join "," (show_label <$> ls))))%nat by lia.
  induction ls as [|l [|l' ls] IH]; [cbn; lia|cbn; lia|].
  change (join "," (show_label <$> l :: l' :: ls)) with (show_label l +:+ String "," (join "," (show_label <$> l' :: ls))).
  rewrite str_length_app. cbn [String.length length] in *. lia.
Qed.

Lemma read_sample_show n ls v :
  word n = true → forallb (λ l, word l.1) ls = true → read_sample (n +:+ write_labels ls +:+ " " +:+ v) = Some (Sample n ls v).
Proof.
  intros Hn Hl. unfold read_sample, write_labels. destruct ls as [|l ls].
  - rewrite str_app_nil_l. change (" " +:+ v) with (String " " v). by rewrite span_name_word.
  - rewrite str_app_cons, str_app_assoc. change ("}" +:+ " " +:+ v) with (String "}" (String " " v)).
    rewrite span_name_word by done. cbn zeta match. rewrite read_labels_show; [done|done|done|]. by apply labels_length.
Qed.

Lemma strip_hash n ls v t :
  word n = true → strip_prefix (String "#" t) (n +:+ write_labels ls +:+ " " +:+ v) = None.
Proof.
  intros Hn. destruct n as [|c n]; [by destruct ls|]. rewrite str_app_cons. cbn in *. apply andb_true_iff in Hn as [Hc _].
  destruct (Ascii.eqb_spec "#" c) as [<-|Hne]; [done|]. done.
Qed.

Lemma read_line_show l : line_ok l = true → read_line (show_line l) = Some l.
Proof.
  destruct l as [n h|n k|n ls v]; cbn [line_ok show_line]; rewrite ?andb_true_iff.
  - intros [Hn _]. unfold read_line. rewrite strip_prefix_app. change (" " +:+ h) with (String " " h).
    rewrite split_once_app by by apply word_not. done.
  - intros [Hn _]. unfold read_line. change (strip_prefix "# HELP " ("# TYPE " +:+ n +:+ " " +:+ k)) with (@None string).
    cbn match. rewrite strip_prefix_app. change (" " +:+ k) with (String " " k).
    rewrite split_once_app by by apply word_not. done.
  - intros [[Hn Hl] _]. unfold read_line. rewrite !strip_hash by done. by apply read_sample_show.
Qed.

Lemma one_line_app a b : one_line (a +:+ b) = one_line a && one_line b.
Proof. unfold one_line. by rewrite contains_char_app, negb_orb. Qed.

Lemma one_line_cons c s : one_line (String c s) = negb (Ascii.eqb c NL) && one_line s.
Proof. unfold one_line. cbn [contains_char]. by rewrite negb_orb. Qed.

Lemma word_one_line s : word s = true → one_line s = true.
Proof. intros H. unfold one_line. by rewrite (word_not NL). Qed.

Lemma escape_one_line v : one_line (escape_label v) = true.
Proof.
  induction v as [|c v IH]; [done|]. cbn [escape_label].
  destruct (Ascii.eqb_spec c BS) as [->|Hb]; [by rewrite !one_line_cons|].
  destruct (Ascii.eqb_spec c QUOTE) as [->|Hq]; [by rewrite !one_line_cons|].
  destruct (Ascii.eqb_spec c NL) as [->|Hn]; [by rewrite !one_line_cons|].
  rewrite one_line_cons, IH. apply Ascii.eqb_neq in Hn. by rewrite Hn.
Qed.

Lemma label_one_line l : word l.1 = true → one_line (show_label l) = true.
Proof.
  intros Hl. unfold show_label. rewrite one_line_app, !one_line_cons, one_line_app, escape_one_line, word_one_line; done.
Qed.

Lemma labels_one_line ls : forallb (λ l, word l.1) ls = true → one_line (write_labels ls) = true.
Proof.
  intros Hl. unfold write_labels. destruct ls as [|l0 ls0]; [done|]. set (ls := l0 :: ls0) in *. clearbody ls.
  rewrite one_line_cons, one_line_app. cbn [negb andb Ascii.eqb]. rewrite andb_true_r.
  change (one_line (join "," (show_label <$> ls)) = true). induction ls as [|l [|l' ls] IH]; [done|..].
  - cbn in Hl. apply andb_true_iff in Hl as [Hl _]. by apply label_one_line.
  - change (join "," (show_label <$> l :: l' :: ls)) with (show_label l +:+ String "," (join "," (show_label <$> l' :: ls))).
    cbn [forallb] in Hl. apply andb_true_iff in Hl as [Hl Hls].
    rewrite one_line_app, one_line_cons, label_one_line by done. by apply IH.
Qed.

Lemma line_one_line l : line_ok l = true → one_line (show_line l) = true.
Proof.
  destruct l as [n h|n k|n ls v]; cbn [line_ok show_line]; rewrite ?andb_true_iff.
  - intros [Hn Hh]. rewrite !one_line_app, (word_one_line n), Hh by done. done.
  - intros [Hn Hh]. rewrite !one_line_app, (word_one_line n), Hh by done. done.
  - intros [[Hn Hl] Hv]. rewrite !one_line_app, (word_one_line n), labels_one_line, Hv by done. done.
Qed.

Lemma show_page_cons l ls : show_page (l :: ls) = show_line l +:+ String NL (show_page ls).
Proof. unfold show_page. rewrite fmap_cons, concat_empty_cons, str_app_assoc. done. Qed.

Lemma split_page ls : Forall (λ l, line_ok l = true) ls → split NL (show_page ls) = (show_line <$> ls) ++ [""].
Proof.
  induction 1 as [|l ls Hl _ IH]; [done|]. apply line_one_line in Hl. unfold one_line in Hl. apply negb_true_iff in Hl.
  rewrite show_page_cons, split_app, IH, split_no_sep by done. done.
Qed.

Lemma read_show_page ls : Forall (λ l, line_ok l = true) ls → read_page (show_page ls) = Some ls.
Proof.
  intros H. unfold read_page. rewrite split_page, List.removelast_app, app_nil_r by done. cbn [List.removelast].
  rewrite ?app_nil_r. induction H as [|l ls Hl _ IH]; [done|]. cbn [fmap list_fmap mapM]. by rewrite read_line_show, IH.
Qed.

(** ** The page is well formed *)

Lemma digits_one_line s : str_all is_digit s = true → one_line s = true.
Proof. intros H. apply word_one_line. unfold word. eapply str_all_impl; [|exact H]. intros c Hc. unfold name_char. by rewrite Hc. Qed.

Lemma dec_one_line n : one_line (dec n) = true.
Proof. apply digits_one_line, dec_digits. Qed.

Lemma show_Z_one_line z : one_line (show_Z z) = true.
Proof. unfold show_Z. case_match; rewrite ?one_line_app, dec_one_line; done. Qed.

Lemma trim_end_one_line q s : one_line s = true → one_line (trim_end_by q s) = true.
Proof.
  induction s as [|c s IH]; [done|]. rewrite one_line_cons, andb_true_iff. intros [Hc Hs]. cbn [trim_end_by].
  destruct (trim_end_by q s) as [|d t] eqn:E; [by destruct (q c); rewrite ?one_line_cons, ?Hc|].
  rewrite one_line_cons, Hc. by apply IH.
Qed.

Lemma zeros_one_line n : one_line (pad_zeros n) = true.
Proof. by induction n. Qed.

Lemma decimal_one_line k n : one_line (decimal k n) = true.
Proof.
  unfold decimal. rewrite one_line_app, dec_one_line. case_match; [done|]. rewrite one_line_app. apply trim_end_one_line.
  unfold pad. by rewrite one_line_app, zeros_one_line, dec_one_line.
Qed.

Definition ok (ls : list Line) : Prop := Forall (λ l, line_ok l = true) ls.

Lemma ok_app a b : ok a → ok b → ok (a ++ b).
Proof. intros. by apply Forall_app. Qed.

Lemma ok_flat_map {A} (f : A → list Line) l : (∀ x, ok (f x)) → ok (flat_map f l).
Proof. intros H. induction l as [|x l IH]; [by apply Forall_nil|]. by apply ok_app. Qed.

Lemma ok_meta n h k : word n && one_line h && one_line k = true → ok (write_meta n h k).
Proof. rewrite !andb_true_iff. intros [[Hn Hh] Hk]. repeat constructor; cbn; by rewrite Hn, ?Hh, ?Hk. Qed.

Lemma ok_sample n ls v : word n && forallb (λ l, word l.1) ls = true → one_line v = true → ok [Sample n ls v].
Proof. intros H Hv. repeat constructor. cbn. by rewrite H, Hv. Qed.

Lemma word_app a b : word (a +:+ b) = word a && word b.
Proof. apply str_all_app. Qed.

Lemma ok_hist n ls bs sum : word n && forallb (λ l, word l.1) ls = true → ok (write_hist n ls bs sum).
Proof.
  intros H. apply andb_true_iff in H as [Hn Hl]. unfold write_hist. apply ok_app.
  - unfold ok. apply Forall_forall. intros l Hin. apply list_elem_of_lookup in Hin as (i & Hi). rewrite list_lookup_imap in Hi.
    destruct (cumulate 0 bs !! i); [|done]. injection Hi as <-. cbn. rewrite word_app, Hn, forallb_app, Hl, dec_one_line. done.
  - apply ok_app; apply ok_sample; try apply decimal_one_line; try apply dec_one_line; by rewrite word_app, Hn, Hl.
Qed.

Lemma ok_class n k v c : word n && word k = true → ok (write_class n k v c).
Proof.
  intros H. apply ok_flat_map. intros x. apply ok_sample; [|apply dec_one_line].
  apply andb_true_iff in H as [Hn Hk]. cbn [forallb fst]. by rewrite Hn, Hk.
Qed.

Definition row_ok {A} (r : string * string * A) : bool := word r.1.1 && one_line r.1.2.

Lemma ok_rows {A} kind (w : string → list (string * string) → A → list Line) (rows : list (string * string * A)) :
  (∀ n v, word n = true → ok (w n [] v)) → one_line kind = true → forallb row_ok rows = true →
  ok (flat_map (λ '(name, help, v), write_meta (p name) help kind ++ w (p name) [] v) rows).
Proof.
  intros Hw Hk Hr. induction rows as [|[[n h] v] rows IH]; [by apply Forall_nil|]. cbn [forallb] in Hr.
  apply andb_true_iff in Hr as [[Hn Hh]%andb_true_iff Hr]. cbn [fst snd] in *.
  assert (word (p n) = true) as Hp by (unfold p; by rewrite word_app, Hn).
  apply ok_app; [|by apply IH]. apply ok_app; [apply ok_meta; by rewrite Hp, Hh, Hk|by apply Hw].
Qed.

Lemma ok_value n ls v : word n && forallb (λ l, word l.1) ls = true → ok (write_value n ls v).
Proof. intros H. apply ok_sample; [done|apply dec_one_line]. Qed.

Lemma ok_value_i64 n ls v : word n && forallb (λ l, word l.1) ls = true → ok (write_value_i64 n ls v).
Proof. intros H. apply ok_sample; [done|apply show_Z_one_line]. Qed.

Create HintDb page.
#[export] Hint Resolve ok_app ok_meta ok_value ok_value_i64 ok_hist ok_class : page.

(** The parts of the page, one rule for each shape. *)
Ltac page :=
  repeat match goal with
  | |- ok (_ ++ _) => apply ok_app
  | |- ok (flat_map _ _) => apply ok_flat_map; intros
  | x : prod _ _ |- _ => destruct x
  | |- ok (if ?b then _ else _) => destruct b
  | |- ok [] => constructor
  | |- ok (by_direction _ _ _) => unfold by_direction
  | |- ok (write_value_f64 _ _ (decimal _ _)) => apply ok_sample; [reflexivity|apply decimal_one_line]
  | |- ok (scalars _ _) => apply (ok_rows _ write_value); [intros; apply ok_value; cbn; by rewrite andb_true_r|reflexivity|reflexivity]
  | |- ok (scalars_i64 _ _) => apply (ok_rows _ write_value_i64); [intros; apply ok_value_i64; cbn; by rewrite andb_true_r|reflexivity|reflexivity]
  | |- ok _ => solve [eauto with page; (apply ok_meta || apply ok_value || apply ok_value_i64 || apply ok_hist || apply ok_class); reflexivity]
  end.

Lemma page_ok version (s : Snap) now_ms reg :
  (∀ c, s_cpu_percent s = Some c → one_line c = true) → ok (render_prometheus version s now_ms reg).
Proof.
  intros Hc. unfold render_prometheus, request_lines, breakdown_lines, listener_lines, proxy_lines, upstream_lines,
    compress_lines, stream_lines, backend_lines, process_lines.
  assert (∀ label u, ok (upstream_samples now_ms label u)) as Hu by (intros; unfold upstream_samples; page).
  assert (ok (match reg with Some pools => upstream_metas ++
      flat_map (λ e, flat_map (upstream_samples now_ms (pool_label e)) (upstreams e)) pools | None => [] end)) as Hr.
  { destruct reg; [|by apply Forall_nil]. apply ok_app; [unfold upstream_metas; page|]. by do 2 (apply ok_flat_map; intros). }
  page; [destruct (s_memory_kb s); page|].
  destruct (s_cpu_percent s) as [c|]; [|constructor]. apply ok_app; [page|]. apply ok_sample; [reflexivity|by apply Hc].
Qed.

(** C39: what the page says is what a reader of the format reads: whatever bytes
    the names of virtual hosts, listeners, pools and upstreams are made of,
    they end no line and no label and read back as they are. *)
Theorem page_reads_back (version : string) (s : Snap) (now_ms : N) (reg : option (list LbPoolEntry)) :
  (∀ c, s_cpu_percent s = Some c → one_line c = true) →
  read_page (show_page (render_prometheus version s now_ms reg)) = Some (render_prometheus version s now_ms reg).
Proof. intros Hc. by apply read_show_page, page_ok. Qed.

(** ** Histograms *)

Definition sum (l : list N) : N := foldr N.add 0 l.

Lemma cumulate_nth bs acc i c :
  acc + sum bs < u64_mod → cumulate acc bs !! i = Some c → c = acc + sum (take (S i) bs).
Proof.
  revert acc i. induction bs as [|b bs IH]; intros acc i Hs Hi; [done|].
  change (sum (b :: bs)) with (b + sum bs) in Hs. cbn [cumulate] in Hi.
  rewrite (wrap64_small (acc + b)) in Hi by lia.
  destruct i as [|i].
  { change (Some (acc + b) = Some c) in Hi. injection Hi as <-. unfold sum. cbn [take foldr]. rewrite take_0. cbn [foldr]. lia. }
  change (cumulate (acc + b) bs !! i = Some c) in Hi.
  apply IH in Hi; [|lia]. rewrite Hi. change (take (S (S i)) (b :: bs)) with (b :: take (S i) bs).
  change (sum (b :: take (S i) bs)) with (b + sum (take (S i) bs)). lia.
Qed.

Lemma cumulate_length acc bs : length (cumulate acc bs) = length bs.
Proof. revert acc. induction bs as [|b bs IH]; intros acc; cbn; [done|]. by rewrite IH. Qed.

Lemma last_cons_default {A} (x d : A) l : List.last (x :: l) d = List.last l x.
Proof. revert x d. induction l as [|y l IH]; intros x d; [done|]. change (List.last (y :: l) d = List.last (y :: l) x). by rewrite !IH. Qed.

Lemma cumulate_last bs acc : acc + sum bs < u64_mod → List.last (cumulate acc bs) acc = acc + sum bs.
Proof.
  revert acc. induction bs as [|b bs IH]; intros acc Hs; [cbn; lia|]. change (sum (b :: bs)) with (b + sum bs) in *.
  cbn [cumulate]. rewrite (wrap64_small (acc + b)), last_cons_default, IH by lia. lia.
Qed.

(** A histogram's buckets count the observations up to their bounds, so they
    never decrease, and its count is all of them, the bucket without a bound
    included. *)
Theorem histogram_counts (name : string) (labels : list (string * string)) (buckets : list N) (sum_us : N) :
  sum buckets < u64_mod → length buckets = LATENCY_BUCKETS →
  ∃ bs, write_hist name labels buckets sum_us =
      bs ++ [Sample (name +:+ "_sum") labels (decimal 6 sum_us); Sample (name +:+ "_count") labels (dec (sum buckets))] ∧
    length bs = LATENCY_BUCKETS ∧
    (∀ i, (i < LATENCY_BUCKETS)%nat →
      bs !! i = Some (Sample (name +:+ "_bucket") (labels ++ [("le", le_of i)]) (dec (sum (take (S i) buckets))))) ∧
    le_of (pred LATENCY_BUCKETS) = "+Inf" ∧ sum (take LATENCY_BUCKETS buckets) = sum buckets.
Proof.
  intros Hs Hl. eexists. split_and!; [unfold write_hist; rewrite cumulate_last by lia; reflexivity|..].
  - by rewrite length_imap, cumulate_length.
  - intros i Hi. rewrite list_lookup_imap.
    destruct (cumulate 0 buckets !! i) as [c|] eqn:E; [|apply lookup_ge_None in E; rewrite cumulate_length in E; lia].
    apply cumulate_nth in E; [|lia]. by rewrite E.
  - done.
  - by rewrite take_ge by lia.
Qed.

(** ** Families *)

(** The families declared, with their kinds. *)
Definition types (ls : list Line) : list (string * string) :=
  omap (λ l, match l with Type_ n k => Some (n, k) | _ => None end) ls.

(** A sample belongs to a declared family: of its own name, or a histogram
    it is a part of. *)
Definition declared (seen : list (string * string)) (n : string) : bool :=
  existsb (λ f, if String.eqb f.2 "histogram"
                then existsb (λ suffix, String.eqb n (f.1 +:+ suffix)) ["_bucket"; "_sum"; "_count"]
                else String.eqb n f.1) seen.

Fixpoint declared_first (seen : list (string * string)) (ls : list Line) : bool :=
  match ls with
  | [] => true
  | Help n _ :: ls => declared_first seen ls
  | Type_ n k :: ls => negb (existsb (λ f, String.eqb f.1 n) seen) && declared_first (seen ++ [(n, k)]) ls
  | Sample n _ _ :: ls => declared seen n && declared_first seen ls
  end.

Lemma declared_first_app seen a b :
  declared_first seen (a ++ b) = declared_first seen a && declared_first (seen ++ types a) b.
Proof.
  revert seen. induction a as [|l a IH]; intros seen; cbn [app declared_first types omap list_omap]; [by rewrite app_nil_r|].
  destruct l as [n h|n k|n ls v]; rewrite IH; rewrite ?andb_assoc, <- ?app_assoc; done.
Qed.

Definition samples_in (seen : list (string * string)) (ls : list Line) : Prop :=
  Forall (λ l, match l with Sample n _ _ => declared seen n = true | _ => False end) ls.

Lemma samples_first seen ls : samples_in seen ls → declared_first seen ls = true ∧ types ls = [].
Proof.
  induction 1 as [|l ls Hl _ [IH1 IH2]]; [done|]. destruct l as [n h|n k|n lb v]; [done..|]. cbn. by rewrite Hl, IH1.
Qed.

Lemma samples_app seen a b : samples_in seen a → samples_in seen b → samples_in seen (a ++ b).
Proof. intros. by apply Forall_app. Qed.

Lemma samples_flat_map {A} seen (f : A → list Line) l : (∀ x, samples_in seen (f x)) → samples_in seen (flat_map f l).
Proof. intros H. induction l as [|x l IH]; [constructor|]. by apply samples_app. Qed.

Lemma samples_one seen n ls v : declared seen n = true → samples_in seen [Sample n ls v].
Proof. intros H. by repeat constructor. Qed.

Lemma samples_hist seen n ls bs sum :
  declared seen (n +:+ "_bucket") && declared seen (n +:+ "_sum") && declared seen (n +:+ "_count") = true →
  samples_in seen (write_hist n ls bs sum).
Proof.
  rewrite !andb_true_iff. intros [[Hb Hs] Hc]. apply samples_app; [|apply samples_app; by apply samples_one].
  apply Forall_forall. intros l Hin. apply list_elem_of_lookup in Hin as (i & Hi). rewrite list_lookup_imap in Hi.
  destruct (cumulate 0 bs !! i); [|done]. by injection Hi as <-.
Qed.

Ltac samples :=
  repeat match goal with
  | |- samples_in _ (_ ++ _) => apply samples_app
  | |- samples_in _ (flat_map _ _) => apply samples_flat_map; intros
  | x : prod _ _ |- _ => destruct x
  | |- samples_in _ (if ?b then _ else _) => destruct b
  | |- samples_in _ [] => constructor
  | |- samples_in _ (by_direction _ _ _) => unfold by_direction
  | |- samples_in _ (write_hist _ _ _ _) => apply samples_hist; vm_compute; reflexivity
  | |- samples_in _ (write_class _ _ _ _) => unfold write_class
  | |- samples_in _ _ => apply samples_one; vm_compute; reflexivity
  end.

Lemma samples_then seen a b : samples_in seen a → declared_first seen b = true → declared_first seen (a ++ b) = true.
Proof. intros Ha Hb. destruct (samples_first _ _ Ha) as [Hf Ht]. rewrite declared_first_app, Hf, Ht, app_nil_r. done. Qed.

Lemma meta_then seen n h k b :
  existsb (λ f, String.eqb f.1 n) seen = false → declared_first (seen ++ [(n, k)]) b = true →
  declared_first seen (write_meta n h k ++ b) = true.
Proof. intros Hn Hb. cbn. by rewrite Hn, Hb. Qed.

(** Rows of one sample each. *)
Fixpoint fresh (kind : string) (seen : list (string * string)) (names : list string) : bool :=
  match names with
  | [] => true
  | n :: names => negb (existsb (λ f, String.eqb f.1 (p n)) seen) && fresh kind (seen ++ [(p n, kind)]) names
  end.

Lemma rows_then {A} seen kind (show : A → string) (rows : list (string * string * A)) b :
  String.eqb kind "histogram" = false → fresh kind seen rows.*1.*1 = true →
  declared_first (seen ++ ((λ n, (p n, kind)) <$> rows.*1.*1)) b = true →
  declared_first seen (flat_map (λ '(name, help, v), write_meta (p name) help kind ++ [Sample (p name) [] (show v)]) rows ++ b) = true.
Proof.
  intros Hk. revert seen. induction rows as [|[[n h] v] rows IH]; intros seen Hf Hb; [cbn in *; by rewrite app_nil_r in Hb|].
  cbn [fmap list_fmap fresh fst] in Hf. apply andb_true_iff in Hf as [Hn Hf]. apply negb_true_iff in Hn.
  cbn [flat_map]. rewrite <- !app_assoc. apply meta_then; [done|].
  assert (declared (seen ++ [(p n, kind)]) (p n) = true) as Hd.
  { unfold declared. rewrite existsb_app. cbn [existsb snd fst]. rewrite Hk, String.eqb_refl. by rewrite orb_true_r. }
  apply samples_then; [by apply samples_one|]. apply IH; [done|]. by rewrite <- app_assoc.
Qed.

(** Compute the families seen so far, and nothing else. *)
Ltac seen_now :=
  match goal with |- declared_first ?seen ?b = true => let v := eval vm_compute in seen in change (declared_first v b = true) end.

Ltac families :=
  repeat match goal with
  | |- declared_first _ ((_ ++ _) ++ _) = true => rewrite <- app_assoc
  | |- declared_first _ (write_meta _ _ _ ++ _) = true => apply meta_then; [vm_compute; reflexivity|]; seen_now
  | |- declared_first _ (scalars _ _ ++ _) = true =>
      apply (rows_then _ _ dec); [reflexivity|vm_compute; reflexivity|]; seen_now
  | |- declared_first _ (scalars_i64 _ _ ++ _) = true =>
      apply (rows_then _ _ show_Z); [reflexivity|vm_compute; reflexivity|]; seen_now
  | |- declared_first _ ([] ++ _) = true => cbn [app]
  | |- declared_first _ (_ ++ _) = true => apply samples_then; [samples|]
  end.

Lemma process_first (s : Snap) seen :
  existsb (λ f, String.eqb f.1 (p "process_resident_memory_bytes")) seen = false →
  existsb (λ f, String.eqb f.1 (p "process_cpu_percent")) seen = false → declared_first seen (process_lines s) = true.
Proof.
  intros Hm Hc. unfold process_lines.
  assert (∀ seen kind n, String.eqb kind "histogram" = false → declared (seen ++ [(n, kind)]) n = true) as Hd.
  { intros seen' kind n Hk. unfold declared. rewrite existsb_app. cbn [existsb snd fst]. by rewrite Hk, String.eqb_refl, orb_true_r. }
  assert (∀ seen, existsb (λ f, String.eqb f.1 (p "process_cpu_percent")) seen = false →
    declared_first seen (match s_cpu_percent s with
      | Some cpu => write_meta (p "process_cpu_percent") "CPU percent of one core (5s window)." "gauge" ++
                    write_value_f64 (p "process_cpu_percent") [] cpu
      | None => [] end) = true) as Hcpu.
  { intros seen' Hs. destruct (s_cpu_percent s); [|done]. apply meta_then; [done|]. cbn [write_value_f64 declared_first].
    by rewrite Hd. }
  destruct (s_memory_kb s); [|by apply Hcpu]. rewrite <- app_assoc. apply meta_then; [done|].
  apply samples_then; [apply samples_one; by apply Hd|]. apply Hcpu. by rewrite existsb_app, Hc.
Qed.

(** Every sample of the page comes after the declaration of its family, and
    no family is declared twice, with or without upstreams, memory and CPU
    figures. *)
Theorem families_declared (version : string) (s : Snap) (now_ms : N) (reg : option (list LbPoolEntry)) :
  declared_first [] (render_prometheus version s now_ms reg) = true.
Proof.
  unfold render_prometheus, request_lines, breakdown_lines, listener_lines, proxy_lines, compress_lines, stream_lines,
    backend_lines, upstream_lines, upstream_metas, upstream_samples.
  destruct reg; families; apply process_first; vm_compute; reflexivity.
Qed.

Definition within (m l : list Line) : Prop := ∃ a b, l = a ++ m ++ b.

Lemma within_r m x y : within m y → within m (x ++ y).
Proof. intros (a & b & ->). exists (x ++ a), b. by rewrite <- app_assoc. Qed.

Lemma within_l m x y : within m x → within m (x ++ y).
Proof. intros (a & b & ->). exists a, (b ++ y). by rewrite <- !app_assoc. Qed.

(** The samples of a family are not together, as the format asks: on every
    page those of datagrams and of their bytes alternate. *)
Lemma families_interleaved version (s : Snap) now_ms reg :
  within (write_value (p "datagrams_total") [("direction", "in")] (dg_datagrams_in (s_datagram s)) ++
          write_value (p "datagram_bytes_total") [("direction", "in")] (dg_bytes_in (s_datagram s)) ++
          write_value (p "datagrams_total") [("direction", "out")] (dg_datagrams_out (s_datagram s)))
    (render_prometheus version s now_ms reg).
Proof.
  unfold render_prometheus. do 13 apply within_r. apply within_l.
  exists (take 14 (stream_lines s)), (drop 17 (stream_lines s)). reflexivity.
Qed.

(** * Concrete runs *)

Module Demo.

Definition labelled (v : string) : Line := Sample (p "vhost_requests_total") [("vhost", v); ("code", "2xx")] "7".

(** A name that tries to end its label and its line. *)
Definition hostile : string := "a" +:+ String QUOTE ("} 1" +:+ String NL ("x" +:+ String BS "")).

Example hostile_stays_a_name :
  read_page (show_page [labelled hostile]) = Some [labelled hostile] ∧ length (split NL (show_page [labelled hostile])) = 2%nat.
Proof. split; vm_compute; reflexivity. Qed.

Definition empty : Snap := {|
  s_uptime := 0; s_requests_total := 3; s_requests_active := -1; s_status_2xx := 2; s_status_3xx := 0; s_status_4xx := 1;
  s_status_5xx := 0; s_latency := replicate LATENCY_BUCKETS 0; s_latency_sum_us := 1500000; s_rate_current := "0";
  s_rate_1min := "0"; s_rate_5min := "0"; s_rate_15min := "0"; s_memory_kb := Some 4; s_cpu_percent := Some "1.5";
  s_auth_failures_total := 0; s_jwt_failures_total := 0; s_jwt_expiries_total := 0; s_jwt_issued_total := 0;
  s_auth_fail_1h := 0; s_jwt_fail_1h := 0; s_jwt_expiry_1h := 0; s_jwt_issued_1h := 0; s_quic_handshakes_total := 0;
  s_quic_handshake_failures_total := 0; s_quic_connections_active := 0; s_quic_requests_total := 0;
  s_quic_outbound_handshakes_total := 0; s_stream := Build_StreamSnap 0 0 0 0; s_datagram := Build_DatagramSnap 0 0 0 0 0 0 0;
  s_compression := Build_CompressionSnap 0 0 0 0 0 0 0; s_tls := Build_TlsSnap 0 0 0; s_geoip := Build_GeoipSnap 0 0;
  s_shutdown := Build_ShutdownSnap 0 0; s_acme := Build_AcmeSnap 0 0 0 0; s_ocsp := Build_OcspSnap 0 0;
  s_lb := Build_LbSnap 0 0 0 0 0 0 0; s_upstream := Build_UpstreamSnap 0 0 0 (replicate LATENCY_BUCKETS 0) 0;
  s_rate_limit := Build_RateLimitSnap 0 0; s_cache := Build_CacheSnap 0 0 0 0 0 0 0 0;
  s_oidc := Build_OidcSnap 0 0 0 0 0 0 0 0 0 0 0 0 0; s_http_conns := Build_HttpConnSnap 0 0;
  s_fcgi := Build_BackendSnap 0 0 0; s_scgi := Build_BackendSnap 0 0 0; s_cgi := Build_CgiSnap 0 0 0 0 0;
  s_static_files := Build_StaticSnap 0 0 0; s_by_handler := []; s_by_vhost := [(hostile, cc_default)];
  s_by_listener := [("tcp://[::]:80", lm_default)] |}.

Lemma page_reads_back_witness :
  read_page (show_page (render_prometheus "1.0" empty 0 None)) = Some (render_prometheus "1.0" empty 0 None).
Proof. apply (page_reads_back "1.0" empty 0 None). intros c [= <-]. reflexivity. Defined.

Lemma histogram_counts_witness :
  ∃ bs, write_hist "h" [] [1; 2; 0; 0; 0; 0; 0; 0; 0; 0; 0; 0; 4] 2500000 =
    bs ++ [Sample "h_sum" [] "2.5"; Sample "h_count" [] "7"].
Proof.
  destruct (histogram_counts "h" [] [1; 2; 0; 0; 0; 0; 0; 0; 0; 0; 0; 0; 4] 2500000) as (bs & E & _);
    [vm_compute; reflexivity|reflexivity|]. exists bs. exact E.
Defined.

Example numbers_as_printed :
  bound_secs 500 = "0.0005" ∧ bound_secs 1000000 = "1" ∧ decimal 6 0 = "0" ∧ decimal 3 29500 = "29.5" ∧ show_Z (-3) = "-3".
Proof. done. Qed.

End Demo.

End Prom.
