(* ===== verification/Snapshots.v ===== *)
(** The snapshot of the counters ([Metrics] and [Metrics::snapshot] of
    [src/metrics.rs]) that the metrics page and the status page show, and the
    two readers of [/proc/self].

    [Metrics.Metrics] holds the counters of the dispatch; the counters that
    other components bump are here by name.  Loads of a snapshot are not
    simultaneous in the code; here they are. *)
From S2P Require Import Prelude RustStr Metrics Archive Auth Oidc Prom.

Module Snapshots.
Import Metrics Prom.

(** * Counters *)

Module Atom.

(** [AtomicU64]. *)
Inductive Field :=
  | oidc_discoveries
  | oidc_discovery_failures
  | oidc_userinfo_failures
  | oidc_revocations
  | oidc_revocation_failures
  | quic_handshakes_total
  | quic_handshake_failures_total
  | quic_requests_total
  | quic_outbound_handshakes_total
  | proxy_lb_picks
  | proxy_lb_no_upstream
  | proxy_lb_retries
  | proxy_lb_ejections
  | proxy_lb_health_failures
  | proxy_lb_health_recoveries
  | rate_limit_active_keys
  | cache_hits
  | cache_misses
  | cache_stores
  | cache_bypass
  | cache_evictions
  | cache_revalidations
  | cache_entries
  | cache_bytes
  | ocsp_refreshes
  | ocsp_refresh_failures
  | datagram_flows_active
  | datagrams_in_total
  | datagrams_out_total
  | bytes_in_total
  | bytes_out_total
  | datagram_flow_create_total
  | datagram_flow_evict_total
  | stream_conns_total
  | stream_bytes_in_total
  | stream_bytes_out_total
  | tls_handshakes_total
  | tls_handshake_failures_total
  | tls_handshake_timeouts_total
  | shutdown_drained_total
  | shutdown_abandoned_total
  | acme_issuances_total
  | acme_issuance_failures_total
  | acme_renewals_total
  | acme_renewal_failures_total
  | proxy_lb_health_checks_total
  | proxy_upstream_bytes_in_total
  | proxy_upstream_bytes_out_total
  | proxy_upstream_connect_errors_total
  | http_conns_total
  | fcgi_requests_total
  | fcgi_errors_total
  | scgi_requests_total
  | scgi_errors_total
  | cgi_requests_total
  | cgi_errors_total
  | cgi_spawn_failures_total
  | cgi_timeouts_total
  | static_bytes_served_total
  | static_not_modified_total
  | static_range_total.

(** [AtomicI64]. *)
Inductive Gauge :=
  | quic_connections_active
  | stream_conns_active
  | http_conns_active
  | fcgi_in_flight
  | scgi_in_flight
  | cgi_in_flight.

#[global] Instance Field_eq_dec : EqDecision Field.
Proof. solve_decision. Defined.
#[global] Instance Gauge_eq_dec : EqDecision Gauge.
Proof. solve_decision. Defined.

End Atom.

(** The atomics of [Metrics]. *)
Record Atomics := {
  core : Metrics.Metrics;
  counter : Atom.Field → N;
  gauge : Atom.Gauge → Z;
}.

Definition atomics_new : Atomics := {| core := Metrics.new; counter := λ _, 0; gauge := λ _, 0%Z |}.

(** * The groups of a snapshot *)

Definition stream_snap (m : Atomics) : StreamSnap :=
  {| stream_conns_active := gauge m Atom.stream_conns_active;
     stream_conns_total := counter m Atom.stream_conns_total;
     stream_bytes_in := counter m Atom.stream_bytes_in_total;
     stream_bytes_out := counter m Atom.stream_bytes_out_total |}.

Definition datagram_snap (m : Atomics) : DatagramSnap :=
  {| dg_flows_active := counter m Atom.datagram_flows_active;
     dg_datagrams_in := counter m Atom.datagrams_in_total;
     dg_datagrams_out := counter m Atom.datagrams_out_total; dg_bytes_in := counter m Atom.bytes_in_total;
     dg_bytes_out := counter m Atom.bytes_out_total;
     dg_flow_create := counter m Atom.datagram_flow_create_total;
     dg_flow_evict := counter m Atom.datagram_flow_evict_total |}.

Definition compression_snap (m : Atomics) : CompressionSnap :=
  {| comp_responses := named (core m) Metrics.compress_responses_total;
     comp_skipped := named (core m) Metrics.compress_skipped_total;
     comp_bytes_in := named (core m) Metrics.compress_bytes_in_total;
     comp_bytes_out := named (core m) Metrics.compress_bytes_out_total;
     comp_gzip := named (core m) Metrics.compress_gzip_total;
     comp_brotli := named (core m) Metrics.compress_brotli_total;
     comp_zstd := named (core m) Metrics.compress_zstd_total |}.

Definition tls_snap (m : Atomics) : TlsSnap :=
  {| tls_handshakes := counter m Atom.tls_handshakes_total;
     tls_failures := counter m Atom.tls_handshake_failures_total;
     tls_timeouts := counter m Atom.tls_handshake_timeouts_total |}.

Definition geoip_snap (m : Atomics) : GeoipSnap :=
  {| geo_lookups := named (core m) Metrics.geoip_lookups_total;
     geo_misses := named (core m) Metrics.geoip_lookup_misses_total |}.

Definition shutdown_snap (m : Atomics) : ShutdownSnap :=
  {| shut_drained := counter m Atom.shutdown_drained_total;
     shut_abandoned := counter m Atom.shutdown_abandoned_total |}.

Definition acme_snap (m : Atomics) : AcmeSnap :=
  {| acme_issuances := counter m Atom.acme_issuances_total;
     acme_issuance_failures := counter m Atom.acme_issuance_failures_total;
     acme_renewals := counter m Atom.acme_renewals_total;
     acme_renewal_failures := counter m Atom.acme_renewal_failures_total |}.

Definition ocsp_snap (m : Atomics) : OcspSnap :=
  {| ocsp_refreshes := counter m Atom.ocsp_refreshes;
     ocsp_refresh_failures := counter m Atom.ocsp_refresh_failures |}.

Definition lb_snap (m : Atomics) : LbSnap :=
  {| lb_picks := counter m Atom.proxy_lb_picks; lb_no_upstream := counter m Atom.proxy_lb_no_upstream;
     lb_retries := counter m Atom.proxy_lb_retries; lb_ejections := counter m Atom.proxy_lb_ejections;
     lb_health_failures := counter m Atom.proxy_lb_health_failures;
     lb_health_recoveries := counter m Atom.proxy_lb_health_recoveries;
     lb_health_checks := counter m Atom.proxy_lb_health_checks_total |}.

Definition upstream_snap (m : Atomics) : UpstreamSnap :=
  {| up_bytes_in := counter m Atom.proxy_upstream_bytes_in_total;
     up_bytes_out := counter m Atom.proxy_upstream_bytes_out_total;
     up_connect_errors := counter m Atom.proxy_upstream_connect_errors_total;
     up_latency := Metrics.proxy_upstream_latency (core m);
     up_latency_sum_us := Metrics.proxy_upstream_latency_sum_us (core m) |}.

Definition rate_limit_snap (m : Atomics) : RateLimitSnap :=
  {| rl_triggers := named (core m) Metrics.rate_limit_triggers;
     rl_active_keys := counter m Atom.rate_limit_active_keys |}.

Definition cache_snap (m : Atomics) : CacheSnap :=
  {| cache_hits := counter m Atom.cache_hits; cache_misses := counter m Atom.cache_misses;
     cache_stores := counter m Atom.cache_stores; cache_bypass := counter m Atom.cache_bypass;
     cache_evictions := counter m Atom.cache_evictions;
     cache_revalidations := counter m Atom.cache_revalidations;
     cache_entries := counter m Atom.cache_entries; cache_bytes := counter m Atom.cache_bytes |}.

Definition oidc_snap (m : Atomics) : OidcSnap :=
  {| oidc_refreshes := named (core m) Metrics.oidc_refreshes;
     oidc_refresh_failures := named (core m) Metrics.oidc_refresh_failures;
     oidc_logouts := named (core m) Metrics.oidc_logouts;
     oidc_discoveries := counter m Atom.oidc_discoveries;
     oidc_discovery_failures := counter m Atom.oidc_discovery_failures;
     oidc_userinfo_failures := counter m Atom.oidc_userinfo_failures;
     oidc_backchannel_logouts := named (core m) Metrics.oidc_backchannel_logouts;
     oidc_backchannel_failures := named (core m) Metrics.oidc_backchannel_failures;
     oidc_bearer_validations := named (core m) Metrics.oidc_bearer_validations;
     oidc_bearer_failures := named (core m) Metrics.oidc_bearer_failures;
     oidc_revocations := counter m Atom.oidc_revocations;
     oidc_revocation_failures := counter m Atom.oidc_revocation_failures;
     oidc_callback_iss_mismatches := named (core m) Metrics.oidc_callback_iss_mismatches |}.


(** * The snapshot *)

(** The sum of a column over the latest [60.min(written)] minutes. *)
Definition last_hour (col : Archive.Columns → list N) (mi : Archive.CoarseArchive) : option N :=
  let n := Nat.min 60 (N.to_nat (Archive.a_written mi)) in
  Archive.sum64 <$> mapM (λ i, col (Archive.a_cols mi) !! ((Archive.a_head mi + Archive.a_cap mi - 1 - i) mod Archive.a_cap mi)%nat)
    (seq 0 n).

Section snapshot.
Context {f64 : Type} (rate : N → N → f64) (cpu_pct_from_hp : N → option f64).

(** [None] is an index out of range. *)
Definition snapshot (m : Atomics) (a : Archive.Archives) (uptime : Duration) (memory_kb : option N) : option (Snapshot f64) :=
  let requests_total := total (requests (core m)) in
  let fine := Archive.fine a in
  let rate_current := rate (requests_total - Archive.last_total (Archive.f_last fine)) Archive.WINDOW_SECS in
  w1 ← Archive.window_req fine 12;
  w5 ← Archive.window_req fine 60;
  w15 ← Archive.window_req fine 180;
  let rate_1min := rate w1 (12 * Archive.WINDOW_SECS) in
  let rate_5min := rate w5 (60 * Archive.WINDOW_SECS) in
  let rate_15min := rate w15 (180 * Archive.WINDOW_SECS) in
  hp ← Archive.c_cpu (Archive.f_cols fine) !! ((Archive.f_head fine + Archive.FINE_SLOTS - 1) mod Archive.FINE_SLOTS)%nat;
  let cpu_percent := cpu_pct_from_hp hp in
  auth_fail_1h ← last_hour Archive.c_auth (Archive.minute a);
  jwt_fail_1h ← last_hour Archive.c_jwt (Archive.minute a);
  jwt_expiry_1h ← last_hour Archive.c_jwt_expiry (Archive.minute a);
  jwt_issued_1h ← last_hour Archive.c_jwt_issued (Archive.minute a);
  by_handler ← (class_snapshots (core m)).1;
  let by_vhost := (class_snapshots (core m)).2 in
  Some {| s_uptime := uptime; s_requests_total := requests_total;
    s_requests_active := Metrics.requests_active (core m); s_status_2xx := s2xx (requests (core m));
    s_status_3xx := s3xx (requests (core m)); s_status_4xx := s4xx (requests (core m));
    s_status_5xx := s5xx (requests (core m)); s_latency := Metrics.latency (requests (core m));
    s_latency_sum_us := Metrics.latency_sum_us (requests (core m)); s_rate_current := rate_current;
    s_rate_1min := rate_1min; s_rate_5min := rate_5min; s_rate_15min := rate_15min;
    s_memory_kb := memory_kb; s_cpu_percent := cpu_percent;
    s_auth_failures_total := named (core m) Metrics.auth_failures;
    s_jwt_failures_total := named (core m) Metrics.jwt_failures;
    s_jwt_expiries_total := named (core m) Metrics.jwt_expiries;
    s_jwt_issued_total := named (core m) Metrics.jwt_issued; s_auth_fail_1h := auth_fail_1h;
    s_jwt_fail_1h := jwt_fail_1h; s_jwt_expiry_1h := jwt_expiry_1h; s_jwt_issued_1h := jwt_issued_1h;
    s_quic_handshakes_total := counter m Atom.quic_handshakes_total;
    s_quic_handshake_failures_total := counter m Atom.quic_handshake_failures_total;
    s_quic_connections_active := gauge m Atom.quic_connections_active;
    s_quic_requests_total := counter m Atom.quic_requests_total;
    s_quic_outbound_handshakes_total := counter m Atom.quic_outbound_handshakes_total;
    s_stream := stream_snap m; s_datagram := datagram_snap m; s_compression := compression_snap m;
    s_tls := tls_snap m; s_geoip := geoip_snap m; s_shutdown := shutdown_snap m; s_acme := acme_snap m;
    s_ocsp := ocsp_snap m; s_lb := lb_snap m; s_upstream := upstream_snap m;
    s_rate_limit := rate_limit_snap m; s_cache := cache_snap m; s_oidc := oidc_snap m;
    s_http_conns := {| hc_active := gauge m Atom.http_conns_active; hc_total := counter m Atom.http_conns_total |};
    s_fcgi := {| be_requests := counter m Atom.fcgi_requests_total; be_errors := counter m Atom.fcgi_errors_total;
       be_in_flight := gauge m Atom.fcgi_in_flight |};
    s_scgi := {| be_requests := counter m Atom.scgi_requests_total; be_errors := counter m Atom.scgi_errors_total;
       be_in_flight := gauge m Atom.scgi_in_flight |};
    s_cgi := {| cgi_requests := counter m Atom.cgi_requests_total; cgi_errors := counter m Atom.cgi_errors_total;
       cgi_in_flight := gauge m Atom.cgi_in_flight;
       cgi_spawn_failures := counter m Atom.cgi_spawn_failures_total;
       cgi_timeouts := counter m Atom.cgi_timeouts_total |};
    s_static_files := {| static_bytes_served := counter m Atom.static_bytes_served_total;
       static_not_modified := counter m Atom.static_not_modified_total;
       static_range := counter m Atom.static_range_total |};
    s_by_handler := by_handler; s_by_vhost := by_vhost; s_by_listener := listener_snapshots (core m) |}.

End snapshot.

(** * The process *)

(** [read_memory_kb] on the text of [/proc/self/status]. *)
Definition read_memory_kb (file : option string) : option N :=
  s ← file;
  rest ← head (omap (strip_prefix "VmRSS:") (Auth.lines s));
  head (Oidc.split_whitespace rest) ≫= parse_uint u64_max.

(** [read_cpu_ticks] on the text of [/proc/self/stat]. *)
Definition read_cpu_ticks (file : option string) : option N :=
  s ← file;
  after ← split ")" s !! 1%nat;
  let fields := Oidc.split_whitespace after in
  utime ← fields !! 11%nat ≫= parse_uint u64_max;
  stime ← fields !! 12%nat ≫= parse_uint u64_max;
  Some (wrap64 (utime + stime)).

(** * Every counter has its place *)

Lemma class_counters_ext c c' :
  total c = total c' → s2xx c = s2xx c' → s3xx c = s3xx c' → s4xx c = s4xx c' → s5xx c = s5xx c' →
  Metrics.latency c = Metrics.latency c' → Metrics.latency_sum_us c = Metrics.latency_sum_us c' → c = c'.
Proof. destruct c, c'. cbn. by intros -> -> -> -> -> -> ->. Qed.

Section separation.
Context {f64 : Type} (rate : N → N → f64) (cpu_pct_from_hp : N → option f64).

(** Two states of the counters with the same snapshot are the same: none is
    left out, and none is shown in the place of another. *)
Theorem snapshot_separates m a u mem m' a' u' mem' s :
  snapshot rate cpu_pct_from_hp m a u mem = Some s → snapshot rate cpu_pct_from_hp m' a' u' mem' = Some s →
  (∀ f, counter m f = counter m' f) ∧ (∀ g, gauge m g = gauge m' g) ∧
  (∀ c, named (core m) c = named (core m') c) ∧ requests (core m) = requests (core m') ∧
  requests_active (core m) = requests_active (core m') ∧
  proxy_upstream_latency (core m) = proxy_upstream_latency (core m') ∧
  proxy_upstream_latency_sum_us (core m) = proxy_upstream_latency_sum_us (core m').
Proof.
  unfold snapshot. cbv zeta. intros H H'.
  repeat (apply bind_Some in H as (? & _ & H)). repeat (apply bind_Some in H' as (? & _ & H')).
  injection H as <-. injection H'. intros. split_and!; [by intros []|by intros []|by intros []| |done..].
  by apply class_counters_ext.
Qed.

End separation.

(** * Rates and the last hour *)

(** A column shows the values of the rows. *)
Lemma column_shows (col : Archive.Columns → list N) (proj : Archive.Slot → N) c cap head hist :
  (∀ i s, Archive.cols_get c i = Some s → col c !! i = Some (proj s)) →
  Archive.shows (Archive.cols_get c) cap head hist Archive.slot_zero →
  Archive.shows (λ i, col c !! i) cap head (proj <$> hist) (proj Archive.slot_zero).
Proof.
  intros Hcol [Hh Hs]. split; [done|]. intros i Hi. rewrite (Hcol _ _ (Hs i Hi)). f_equal. symmetry. apply map_nth.
Qed.

(** Reads a column of a row. *)
Ltac columns :=
  unfold Archive.cols_get; intros ?? Hget;
  repeat (apply bind_Some in Hget as (? & ? & Hget)); by injection Hget as <-.

Lemma get_req c i s : Archive.cols_get c i = Some s → Archive.c_req c !! i = Some (Archive.req s).
Proof. revert i s. columns. Qed.
Lemma get_cpu c i s : Archive.cols_get c i = Some s → Archive.c_cpu c !! i = Some (Archive.cpu s).
Proof. revert i s. columns. Qed.
Lemma get_auth c i s : Archive.cols_get c i = Some s → Archive.c_auth c !! i = Some (Archive.auth s).
Proof. revert i s. columns. Qed.
Lemma get_jwt c i s : Archive.cols_get c i = Some s → Archive.c_jwt c !! i = Some (Archive.jwt s).
Proof. revert i s. columns. Qed.
Lemma get_jwt_expiry c i s : Archive.cols_get c i = Some s → Archive.c_jwt_expiry c !! i = Some (Archive.jwt_expiry s).
Proof. revert i s. columns. Qed.
Lemma get_jwt_issued c i s : Archive.cols_get c i = Some s → Archive.c_jwt_issued c !! i = Some (Archive.jwt_issued s).
Proof. revert i s. columns. Qed.

Lemma last_hour_shows col proj mi cap rows :
  (∀ i s, Archive.cols_get (Archive.a_cols mi) i = Some s → col (Archive.a_cols mi) !! i = Some (proj s)) →
  Archive.coarse_shows mi cap rows → (60 ≤ cap)%nat →
  last_hour col mi = Some (Archive.sum64 (proj <$> take 60 rows.*1)).
Proof.
  intros Hcol [Hc _ Hs _ _ Hw] Hcap. unfold last_hour. rewrite Hc, Hw, Nat2N.id. cbv zeta.
  rewrite (Archive.shows_recent _ _ _ _ _ _ (column_shows _ _ _ _ _ _ Hcol Hs)) by lia. cbn [fmap option_fmap option_map].
  rewrite Archive.recent_take by (rewrite !length_fmap; lia). do 2 f_equal. rewrite <- fmap_take. f_equal.
  destruct (Nat.le_ge_cases 60 (length rows)); [by rewrite Nat.min_l|].
  rewrite Nat.min_r by done. by rewrite !take_ge by (rewrite length_fmap; lia).
Qed.

Lemma window_shows h n hist :
  Archive.shows (Archive.cols_get (Archive.f_cols h)) Archive.FINE_SLOTS (Archive.f_head h) hist Archive.slot_zero →
  (n ≤ Archive.FINE_SLOTS)%nat →
  Archive.window_req h n = Some (Archive.sum64 (Archive.recent n (Archive.req <$> hist) 0)).
Proof.
  intros Hs Hn. unfold Archive.window_req. rewrite Nat.min_l by done.
  by rewrite (Archive.shows_recent _ _ _ _ _ _ (column_shows Archive.c_req Archive.req _ _ _ _ (get_req _) Hs)).
Qed.

Section history.
Context {f64 : Type} (rate : N → N → f64) (cpu_pct_from_hp : N → option f64).

(** After any samples a snapshot can be taken; its rates are the requests of
    the latest twelve, sixty and hundred and eighty windows over their length,
    the failures of the last hour those of the latest sixty minutes or of all
    there were, and the processor share that of the latest window. *)
Theorem snapshot_reads_history cpu_share iter_map ticks m uptime memory_kb :
  N.of_nat (length ticks) < u64_mod → length (per_kind (core m)) = HANDLER_KINDS →
  let h := Archive.history_of cpu_share iter_map ticks in
  let window n := Archive.sum64 (Archive.recent n (Archive.req <$> Archive.h_fine h) 0) in
  let hour proj := Archive.sum64 (proj <$> take 60 (Archive.h_minute h).*1) in
  ∃ a s, Archive.run_ticks cpu_share iter_map ticks Archive.archives_new = Some a ∧
    snapshot rate cpu_pct_from_hp m a uptime memory_kb = Some s ∧
    s_rate_1min s = rate (window 12%nat) 60 ∧ s_rate_5min s = rate (window 60%nat) 300 ∧
    s_rate_15min s = rate (window 180%nat) 900 ∧
    s_cpu_percent s = cpu_pct_from_hp (Archive.cpu (nth 0 (Archive.h_fine h) Archive.slot_zero)) ∧
    s_auth_fail_1h s = hour Archive.auth ∧ s_jwt_fail_1h s = hour Archive.jwt ∧
    s_jwt_expiry_1h s = hour Archive.jwt_expiry ∧ s_jwt_issued_1h s = hour Archive.jwt_issued.
Proof.
  intros Hn Hk h window hour. destruct (Archive.archive_run cpu_share iter_map ticks Hn) as (a & b & Ha & Hs).
  fold h in Hs. destruct Hs as [_ _ Hr _ _ _ _ Hm _ _ _ _ _].
  assert (∃ l, (class_snapshots (core m)).1 = Some l) as [l Hl].
  { apply mapM_is_Some_2, Forall_true. intros k. apply fmap_is_Some, lookup_lt_is_Some_2. rewrite Hk.
    destruct k; unfold HANDLER_KINDS; cbn; lia. }
  assert (60 ≤ Archive.MINUTE_SLOTS)%nat as H60 by (unfold Archive.MINUTE_SLOTS; lia).
  assert (180 ≤ Archive.FINE_SLOTS)%nat as H180 by (unfold Archive.FINE_SLOTS; lia).
  pose proof (λ n, window_shows (Archive.fine a) n _ Hr) as Hw.
  pose proof (column_shows Archive.c_cpu Archive.cpu _ _ _ _ (get_cpu _) Hr) as [_ Hcpu].
  specialize (Hcpu 0%nat ltac:(lia)). rewrite Nat.sub_0_r in Hcpu.
  exists a. eexists. split; [done|]. split.
  - unfold snapshot. cbv zeta. rewrite !Hw by lia. cbn [mbind option_bind]. rewrite Hcpu. cbn [mbind option_bind].
    rewrite (last_hour_shows _ _ _ _ _ (get_auth _) Hm H60), (last_hour_shows _ _ _ _ _ (get_jwt _) Hm H60),
      (last_hour_shows _ _ _ _ _ (get_jwt_expiry _) Hm H60), (last_hour_shows _ _ _ _ _ (get_jwt_issued _) Hm H60).
    cbn [mbind option_bind]. rewrite Hl. cbn [mbind option_bind]. reflexivity.
  - cbn. split_and!; try done. f_equal. by destruct (Archive.h_fine h).
Qed.

End history.

Module Demo.

Definition status_text : string :=
  "Name:	hypershunt" +:+ String NL ("VmPeak:	  9000 kB" +:+ String NL ("VmRSS:	    8192 kB" +:+ String NL "")).

Example memory_read : read_memory_kb (Some status_text) = Some 8192 ∧ read_memory_kb (Some "VmRSS: none") = None.
Proof. split; vm_compute; reflexivity. Qed.

Definition stat_text (comm : string) : string :=
  "42 (" +:+ comm +:+ ") S 1 42 42 0 -1 4194560 100 0 0 0 250 50 0 0 20 0 4 0 1000".

(** A process renamed with a parenthesis has no processor share. *)
Example ticks_read :
  read_cpu_ticks (Some (stat_text "hypershunt")) = Some 300 ∧ read_cpu_ticks (Some (stat_text "hs(1)")) = None.
Proof. split; vm_compute; reflexivity. Qed.

Lemma snapshot_reads_history_witness :
  ∃ a s, Archive.run_ticks (λ n, n) map_to_list [] Archive.archives_new = Some a ∧
    snapshot (λ n d, (n, d)) (λ n, Some (n, 100)) atomics_new a 0 None = Some s ∧ s_rate_1min s = (0, 60).
Proof.
  destruct (snapshot_reads_history (λ n d, (n, d)) (λ n, Some (n, 100)) (λ n, n) map_to_list [] atomics_new 0 None) as (a & s & Ha & Hs & Hr & _);
    [reflexivity|reflexivity|]. exists a, s. split; [exact Ha|]. split; [exact Hs|]. exact Hr.
Defined.

End Demo.

End Snapshots.
