(* ===== verification/Status.v ===== *)
(** The status endpoint ([src/handler/status.rs], [status/render_json.rs]): the
    summary of the configuration it shows, the rows of upstreams, the choice
    of a format and the JSON document. [f64] values are opaque; the text of a
    document is serde_json's. *)
From S2P Require Import Prelude RustStr Net Http Template ProxyProto Matcher RateLimit Kdl Errors Calendar Metrics Archive LoadBalancer Router Auth Oidc Listeners ParseTls ParseAuth ParseHandler ParseConfig Config ConfigOk Acme Prom.

Module Status.
Import Metrics Prom.

(** * Summaries *)

Record ListenerSummary := {
  address : string;
  protocol : string;
  acme_domains : list string;
  max_connections : option N;
  handler_timeout_secs : option N;
}.

Record LocationSummary := {
  ls_path : string;
  ls_handler : string;
}.

Record VHostSummary := {
  vs_name : string;
  vs_aliases : list string;
  vs_locations : list LocationSummary;
}.

Record AuthDesc := {
  kind : string;
  detail : string;
  has_jwt_session : bool;
  jwt_validity_secs : option N;
}.

Record ServerSummary := {
  version : string;
  sm_listeners : list ListenerSummary;
  sm_vhosts : list VHostSummary;
  sm_auth : option AuthDesc;
}.

Definition plain_auth (k d : string) : AuthDesc :=
  {| kind := k; detail := d; has_jwt_session := false; jwt_validity_secs := None |}.

Fixpoint auth_desc (b : ParseAuth.AuthBackend) : AuthDesc :=
  match b with
  | ParseAuth.Pam service => plain_auth "PAM" service
  | ParseAuth.Ldap c => plain_auth "LDAP" (Auth.ld_url c)
  | ParseAuth.File c => plain_auth "File" (ParseAuth.fa_path c)
  | ParseAuth.Subrequest c => plain_auth "Subrequest" (Auth.sc_url c)
  | ParseAuth.Oidc c => plain_auth "OIDC" (Oidc.issuer c)
  | ParseAuth.Jwt _ validity inner =>
      match inner with
      | None => {| kind := "JWT"; detail := "standalone"; has_jwt_session := false; jwt_validity_secs := Some validity |}
      | Some i => let d := auth_desc i in
          {| kind := kind d; detail := detail d; has_jwt_session := true; jwt_validity_secs := Some validity |}
      end
  end.

Section summary.
Context `{IpNets} `{Http} `{Regex} `{F64} `{!ParseConfig.ConfigEnv} `{!Kdl.Kdl f64}.
Context (sa_text : ProxyProto.SocketAddr → string).

Definition tls_protocol_name (c : Config.Config) (t : ParseTls.TlsListenerConfig) (prefix : string) : string * list string :=
  match default (ParseTls.cert t) (Config.resolve_cert c (ParseTls.cert t)) with
  | ParseTls.Files _ _ => (prefix +:+ "-file", [])
  | ParseTls.SelfSigned => (prefix +:+ "-self-signed", [])
  | ParseTls.Acme a => (prefix +:+ "-ACME", ParseTls.domains a)
  | ParseTls.Ref _ => (prefix +:+ "-unknown", [])
  end.

Definition listener_protocol (c : Config.Config) (l : ParseConfig.ListenerConfig) : string * list string :=
  let has_proxy := bool_decide (is_Some (ParseConfig.proxy l)) in
  if Bind.is_datagram_stream (Bind.kind (ParseConfig.bind l)) then
    match ParseConfig.tls l, has_proxy with
    | Some t, false => tls_protocol_name c t "HTTP/3"
    | None, true => ("dgram-proxy", [])
    | _, _ => ("HTTP/3", [])
    end
  else
    match ParseConfig.tls l with
    | None => (if has_proxy then "stream" else "HTTP", [])
    | Some t => tls_protocol_name c t (if has_proxy then "TLS-stream" else "HTTPS")
    end.

Definition handler_type_name (h : ParseHandler.HandlerConfig) : string :=
  match h with
  | ParseHandler.CStatic _ => "static"
  | ParseHandler.CProxy _ => "proxy"
  | ParseHandler.CRedirect _ _ => "redirect"
  | ParseHandler.CRespond _ _ _ => "respond"
  | ParseHandler.CFastCgi _ _ _ => "fastcgi"
  | ParseHandler.CScgi _ _ _ => "scgi"
  | ParseHandler.CCgi _ => "cgi"
  | ParseHandler.CStatus => "status"
  | ParseHandler.CMetrics => "metrics"
  | ParseHandler.CAuthRequest => "auth-request"
  end.

(** [ServerSummary::from_config]. *)
Definition from_config (crate_version : string) (c : Config.Config) : ServerSummary :=
  {| version := crate_version;
     sm_listeners := (λ l,
       let '(proto, doms) := listener_protocol c l in
       {| address := Bind.to_url sa_text (ParseConfig.bind l); protocol := proto; acme_domains := doms;
          max_connections := ParseConfig.max_connections l;
          handler_timeout_secs := ParseConfig.handler_secs (ParseConfig.timeouts l) |}) <$> Config.listeners c;
     sm_vhosts := (λ v,
       {| vs_name := Router.hn_value (ParseConfig.v_name v); vs_aliases := Router.hn_value <$> ParseConfig.v_aliases v;
          vs_locations := (λ l, {| ls_path := ParseConfig.l_path l; ls_handler := handler_type_name (ParseConfig.l_handler l) |})
                            <$> ParseConfig.v_locations v |}) <$> Config.c_vhosts c;
     sm_auth := auth_desc <$> ParseConfig.auth (Config.server c) |}.

End summary.

(** * Upstreams *)

Record UpstreamRow := {
  u_label : string;
  u_url : string;
  u_weight : N;
  u_in_flight : N;
  u_healthy : bool;
  u_ejected : bool;
  u_group : option string;
  u_consecutive_errors : N;
  u_ejected_remaining_ms : N;
  u_requests : N;
  u_errors : N;
}.

Definition upstream_row (now_ms : N) (label : string) (u : Lb.Upstream) : UpstreamRow :=
  {| u_label := label; u_url := Lb.url u; u_weight := Lb.weight u; u_in_flight := Lb.in_flight u; u_healthy := Lb.healthy u;
     u_ejected := Lb.is_ejected u now_ms; u_group := Lb.group u; u_consecutive_errors := Lb.consecutive_errors u;
     u_ejected_remaining_ms := Lb.ejected_remaining_ms u now_ms; u_requests := Lb.requests_total u; u_errors := Lb.errors_total u |}.

Definition read_upstreams (reg : option (list LbPoolEntry)) (now_ms : N) : list UpstreamRow :=
  match reg with
  | None => []
  | Some pools => flat_map (λ e, upstream_row now_ms (pool_label e) <$> upstreams e) pools
  end.

(** * Requests *)

Definition accept_json (accept : option string) : bool :=
  default false (contains_str "application/json" <$> accept).

Definition query_wants_json (query : option string) : bool :=
  existsb (String.eqb "format=json") (split "&" (default "" query)).

Fixpoint find_map {A B} (f : A → option B) (l : list A) : option B :=
  match l with [] => None | x :: l' => match f x with Some y => Some y | None => find_map f l' end end.

Definition query_period (query : option string) : Archive.TimePeriod :=
  default Archive.Min15 (find_map (λ kv, Archive.from_query <$> strip_prefix "period=" kv) (split "&" (default "" query))).

Definition ICON_FILE : string := "hs-icon.svg".
Definition FAVICON_FILE : string := "hs-favicon.svg".

Inductive Asked := Icon | Favicon | JsonDoc (p : Archive.TimePeriod) | HtmlPage (p : Archive.TimePeriod).

(** The dispatch of [StatusHandler::handle]. *)
Definition asked (path : string) (query accept : option string) : Asked :=
  let file := List.last (split "/" path) "" in
  if String.eqb file ICON_FILE then Icon
  else if String.eqb file FAVICON_FILE then Favicon
  else if accept_json accept || query_wants_json query then JsonDoc (query_period query)
  else HtmlPage (query_period query).

(** An embedded file with its entity tag; [None] is a panic of the builder. *)
Definition serve_cached_asset `{Http} (asset content_type : string) (if_none_match : option string) : option HttpResponse :=
  let etag := String QUOTE (dec (str_len asset) +:+ String QUOTE "") in
  if bool_decide (if_none_match = Some etag) then Errors.build 304 [("ETag", etag)] ""
  else Errors.build 200 [("Content-Type", content_type); ("Cache-Control", "public, max-age=86400");
                         ("Content-Length", dec (str_len asset)); ("ETag", etag)] asset.

(** * The JSON document *)

Inductive Json (f64 : Type) :=
  | JNull
  | JBool (b : bool)
  | JNat (n : N)
  | JInt (z : Z)
  | JFloat (x : f64)
  | JStr (s : string)
  | JArr (l : list (Json f64))
  | JObj (fields : list (string * Json f64)).
Arguments JNull {f64}.
Arguments JBool {f64} b.
Arguments JNat {f64} n.
Arguments JInt {f64} z.
Arguments JFloat {f64} x.
Arguments JStr {f64} s.
Arguments JArr {f64} l.
Arguments JObj {f64} fields.

Record SparklineData (f64 : Type) := {
  sp_step_secs : N;
  sp_req_rate : list f64;
  sp_mem_kb : list (option N);
  sp_cpu_pct : list (option f64);
  sp_auth_fail : list N;
  sp_jwt_fail : list N;
  sp_jwt_expiry : list N;
  sp_jwt_issued : list N;
  sp_err4xx : list N;
  sp_err5xx : list N;
  sp_active : list N;
}.
Arguments sp_step_secs {f64} _.
Arguments sp_req_rate {f64} _.
Arguments sp_mem_kb {f64} _.
Arguments sp_cpu_pct {f64} _.
Arguments sp_auth_fail {f64} _.
Arguments sp_jwt_fail {f64} _.
Arguments sp_jwt_expiry {f64} _.
Arguments sp_jwt_issued {f64} _.
Arguments sp_err4xx {f64} _.
Arguments sp_err5xx {f64} _.
Arguments sp_active {f64} _.

Section json.
Context {f64 : Type}.
Local Abbreviation Json := (Json f64).

(** [as f64] division, and the processor share of a slot. *)
Context (rate : N → N → f64) (cpu_pct_from_hp : N → option f64).

(** The columns of [fine_sparkline] and [coarse_sparkline]. *)
Definition sparkline_data (rows : list Archive.Slot) (step : N) : SparklineData f64 :=
  {| sp_step_secs := step;
     sp_req_rate := (λ r, rate (Archive.req r) step) <$> rows;
     sp_mem_kb := (λ r, if Archive.mem r =? 0 then None else Some (Archive.mem r)) <$> rows;
     sp_cpu_pct := (λ r, cpu_pct_from_hp (Archive.cpu r)) <$> rows;
     sp_auth_fail := Archive.auth <$> rows;
     sp_jwt_fail := Archive.jwt <$> rows;
     sp_jwt_expiry := Archive.jwt_expiry <$> rows;
     sp_jwt_issued := Archive.jwt_issued <$> rows;
     sp_err4xx := Archive.err4xx <$> rows;
     sp_err5xx := Archive.err5xx <$> rows;
     sp_active := Archive.active <$> rows |}.

(** Values that serde_json turns into documents. *)
Class ToJson (A : Type) := j : A → Json.
#[local] Instance json_bool : ToJson bool := JBool.
#[local] Instance json_nat : ToJson N := JNat.
#[local] Instance json_int : ToJson Z := JInt.
#[local] Instance json_float : ToJson f64 := JFloat.
#[local] Instance json_str : ToJson string := JStr.
#[local] Instance json_opt {A} `{ToJson A} : ToJson (option A) := λ o, match o with Some x => j x | None => JNull end.
#[local] Instance json_list {A} `{ToJson A} : ToJson (list A) := λ l, JArr (j <$> l).

Definition listener_summary_json (l : ListenerSummary) : Json :=
  JObj [("address", j (address l));
   ("protocol", j (protocol l));
   ("acme_domains", j (acme_domains l));
   ("max_connections", j (max_connections l));
   ("handler_timeout_secs", j (handler_timeout_secs l))].

Definition vhost_json (v : VHostSummary) : Json :=
  JObj [("name", j (vs_name v)); ("aliases", j (vs_aliases v));
   ("locations", JArr ((λ l, JObj [("path", j (ls_path l)); ("handler", j (ls_handler l))]) <$> vs_locations v))].

Definition cert_json (c : Acme.CertState) : Json :=
  JObj [("domains", j (Acme.cs_domains c));
   ("expiry_ts", j (Acme.expiry_ts c));
   ("next_renewal_ts", j (Acme.next_renewal_ts c))].

Definition auth_json (a : option AuthDesc) : Json :=
  match a with
  | None => JNull
  | Some a =>
      let s := kind a +:+ ":" +:+ detail a in
      j (match has_jwt_session a, jwt_validity_secs a with
         | true, Some v => s +:+ "+jwt:" +:+ dec v +:+ "s"
         | _, _ => s
         end)
  end.

(** A label and the counts of the classes. *)
Definition labelled (key name : string) (c : ClassCounters) : Json :=
  JObj [(key, j name); ("total", j (total c)); ("2xx", j (s2xx c)); ("3xx", j (s3xx c)); ("4xx", j (s4xx c)); ("5xx", j (s5xx c))].

Definition listener_json (r : string * ListenerMetrics) : Json :=
  JObj [("listener", j r.1);
   ("requests", j (lm_requests_total r.2));
   ("conns_total", j (conns_total r.2));
   ("conns_active", j (conns_active r.2));
   ("tls_handshakes", j (tls_handshakes_total r.2));
   ("tls_failures", j (tls_handshake_failures_total r.2));
   ("tls_timeouts", j (tls_handshake_timeouts_total r.2))].

Definition upstream_json (u : UpstreamRow) : Json :=
  JObj [("label", j (u_label u));
   ("url", j (u_url u));
   ("weight", j (u_weight u));
   ("in_flight", j (u_in_flight u));
   ("healthy", j (u_healthy u));
   ("ejected", j (u_ejected u));
   ("group", j (u_group u));
   ("consecutive_errors", j (u_consecutive_errors u));
   ("ejected_remaining_ms", j (u_ejected_remaining_ms u));
   ("requests", j (u_requests u));
   ("errors", j (u_errors u))].

Section document.
Context (s : Snapshot f64).

Definition stream_json : Json :=
  JObj [("conns_active", j (stream_conns_active (s_stream s)));
   ("conns_total", j (stream_conns_total (s_stream s)));
   ("bytes_in", j (stream_bytes_in (s_stream s)));
   ("bytes_out", j (stream_bytes_out (s_stream s)))].

Definition datagram_json : Json :=
  JObj [("flows_active", j (dg_flows_active (s_datagram s)));
   ("datagrams_in", j (dg_datagrams_in (s_datagram s)));
   ("datagrams_out", j (dg_datagrams_out (s_datagram s)));
   ("bytes_in", j (dg_bytes_in (s_datagram s)));
   ("bytes_out", j (dg_bytes_out (s_datagram s)));
   ("flow_create", j (dg_flow_create (s_datagram s)));
   ("flow_evict", j (dg_flow_evict (s_datagram s)))].

Definition compression_json : Json :=
  JObj [("responses", j (comp_responses (s_compression s)));
   ("skipped", j (comp_skipped (s_compression s)));
   ("bytes_in", j (comp_bytes_in (s_compression s)));
   ("bytes_out", j (comp_bytes_out (s_compression s)));
   ("gzip", j (comp_gzip (s_compression s)));
   ("brotli", j (comp_brotli (s_compression s)));
   ("zstd", j (comp_zstd (s_compression s)))].

Definition tls_json : Json :=
  JObj [("handshakes", j (tls_handshakes (s_tls s)));
   ("failures", j (tls_failures (s_tls s)));
   ("timeouts", j (tls_timeouts (s_tls s)))].

Definition geoip_json : Json :=
  JObj [("lookups", j (geo_lookups (s_geoip s)));
   ("misses", j (geo_misses (s_geoip s)))].

Definition shutdown_json : Json :=
  JObj [("drained", j (shut_drained (s_shutdown s)));
   ("abandoned", j (shut_abandoned (s_shutdown s)))].

Definition acme_json : Json :=
  JObj [("issuances", j (acme_issuances (s_acme s)));
   ("issuance_failures", j (acme_issuance_failures (s_acme s)));
   ("renewals", j (acme_renewals (s_acme s)));
   ("renewal_failures", j (acme_renewal_failures (s_acme s)))].

Definition ocsp_json : Json :=
  JObj [("refreshes", j (ocsp_refreshes (s_ocsp s)));
   ("refresh_failures", j (ocsp_refresh_failures (s_ocsp s)))].

Definition proxy_lb_json : Json :=
  JObj [("picks", j (lb_picks (s_lb s)));
   ("no_upstream", j (lb_no_upstream (s_lb s)));
   ("retries", j (lb_retries (s_lb s)));
   ("ejections", j (lb_ejections (s_lb s)));
   ("health_failures", j (lb_health_failures (s_lb s)));
   ("health_recoveries", j (lb_health_recoveries (s_lb s)));
   ("health_checks", j (lb_health_checks (s_lb s)))].

Definition proxy_upstream_json : Json :=
  let up_lat6 := legacy6 (up_latency (s_upstream s)) in
  JObj [("bytes_in", j (up_bytes_in (s_upstream s)));
   ("bytes_out", j (up_bytes_out (s_upstream s)));
   ("connect_errors", j (up_connect_errors (s_upstream s)));
   ("latency_ms", JObj [("lt_1", j (List.nth 0 up_lat6 0));
   ("lt_10", j (List.nth 1 up_lat6 0));
   ("lt_50", j (List.nth 2 up_lat6 0));
   ("lt_200", j (List.nth 3 up_lat6 0));
   ("lt_1000", j (List.nth 4 up_lat6 0));
   ("ge_1000", j (List.nth 5 up_lat6 0))]);
   ("latency_hist", JObj [("bounds_us", j LATENCY_BOUNDS_US);
   ("buckets", j (up_latency (s_upstream s)));
   ("sum_us", j (up_latency_sum_us (s_upstream s)))])].

Definition rate_limit_json : Json :=
  JObj [("triggers", j (rl_triggers (s_rate_limit s)));
   ("active_keys", j (rl_active_keys (s_rate_limit s)))].

Definition cache_json : Json :=
  JObj [("hits", j (cache_hits (s_cache s)));
   ("misses", j (cache_misses (s_cache s)));
   ("stores", j (cache_stores (s_cache s)));
   ("bypass", j (cache_bypass (s_cache s)));
   ("evictions", j (cache_evictions (s_cache s)));
   ("revalidations", j (cache_revalidations (s_cache s)));
   ("entries", j (cache_entries (s_cache s)));
   ("bytes", j (cache_bytes (s_cache s)))].

Definition oidc_json : Json :=
  JObj [("refreshes", j (oidc_refreshes (s_oidc s)));
   ("refresh_failures", j (oidc_refresh_failures (s_oidc s)));
   ("logouts", j (oidc_logouts (s_oidc s)));
   ("discoveries", j (oidc_discoveries (s_oidc s)));
   ("discovery_failures", j (oidc_discovery_failures (s_oidc s)));
   ("userinfo_failures", j (oidc_userinfo_failures (s_oidc s)));
   ("backchannel_logouts", j (oidc_backchannel_logouts (s_oidc s)));
   ("backchannel_failures", j (oidc_backchannel_failures (s_oidc s)));
   ("bearer_validations", j (oidc_bearer_validations (s_oidc s)));
   ("bearer_failures", j (oidc_bearer_failures (s_oidc s)));
   ("revocations", j (oidc_revocations (s_oidc s)));
   ("revocation_failures", j (oidc_revocation_failures (s_oidc s)));
   ("callback_iss_mismatches", j (oidc_callback_iss_mismatches (s_oidc s)))].

Definition http_conns_json : Json :=
  JObj [("active", j (hc_active (s_http_conns s)));
   ("total", j (hc_total (s_http_conns s)))].

Definition backends_json : Json :=
  JObj [("fcgi", JObj [("requests", j (be_requests (s_fcgi s)));
   ("errors", j (be_errors (s_fcgi s)));
   ("in_flight", j (be_in_flight (s_fcgi s)))]);
   ("scgi", JObj [("requests", j (be_requests (s_scgi s)));
   ("errors", j (be_errors (s_scgi s)));
   ("in_flight", j (be_in_flight (s_scgi s)))]);
   ("cgi", JObj [("requests", j (cgi_requests (s_cgi s)));
   ("errors", j (cgi_errors (s_cgi s)));
   ("in_flight", j (cgi_in_flight (s_cgi s)));
   ("spawn_failures", j (cgi_spawn_failures (s_cgi s)));
   ("timeouts", j (cgi_timeouts (s_cgi s)))]);
   ("static", JObj [("bytes_served", j (static_bytes_served (s_static_files s)));
   ("not_modified", j (static_not_modified (s_static_files s)));
   ("range", j (static_range (s_static_files s)))])].


Definition render_json (sp : SparklineData f64) (top_paths : list (string * N)) (period : Archive.TimePeriod)
    (sum : ServerSummary) (certs : list Acme.CertState) (ups : list UpstreamRow) (pid : N) : Json :=
  let lat6 := legacy6 (s_latency s) in
  JObj [("version", j (version sum));
   ("pid", j pid);
   ("uptime_secs", j (as_secs (s_uptime s)));
   ("uptime_human", j (uptime_human (s_uptime s)));
   ("requests_total", j (s_requests_total s));
   ("requests_active", j (s_requests_active s));
   ("status", JObj [("2xx", j (s_status_2xx s));
   ("3xx", j (s_status_3xx s));
   ("4xx", j (s_status_4xx s));
   ("5xx", j (s_status_5xx s))]);
   ("rates", JObj [("current_per_sec", j (s_rate_current s));
   ("avg_1min", j (s_rate_1min s));
   ("avg_5min", j (s_rate_5min s));
   ("avg_15min", j (s_rate_15min s))]);
   ("latency_ms", JObj [("lt_1", j (List.nth 0 lat6 0));
   ("lt_10", j (List.nth 1 lat6 0));
   ("lt_50", j (List.nth 2 lat6 0));
   ("lt_200", j (List.nth 3 lat6 0));
   ("lt_1000", j (List.nth 4 lat6 0));
   ("ge_1000", j (List.nth 5 lat6 0))]);
   ("latency_hist", JObj [("bounds_us", j LATENCY_BOUNDS_US);
   ("buckets", j (s_latency s));
   ("sum_us", j (s_latency_sum_us s))]);
   ("by_listener", JArr (listener_json <$> s_by_listener s));
   ("memory_kb", j (s_memory_kb s));
   ("cpu_percent", j (s_cpu_percent s));
   ("auth_failures_total", j (s_auth_failures_total s));
   ("jwt_failures_total", j (s_jwt_failures_total s));
   ("jwt_expiries_total", j (s_jwt_expiries_total s));
   ("jwt_issued_total", j (s_jwt_issued_total s));
   ("auth_fail_1h", j (s_auth_fail_1h s));
   ("jwt_fail_1h", j (s_jwt_fail_1h s));
   ("jwt_expiry_1h", j (s_jwt_expiry_1h s));
   ("jwt_issued_1h", j (s_jwt_issued_1h s));
   ("http3", JObj [("handshakes_total", j (s_quic_handshakes_total s));
   ("handshake_failures_total", j (s_quic_handshake_failures_total s));
   ("connections_active", j (s_quic_connections_active s));
   ("requests_total", j (s_quic_requests_total s));
   ("outbound_handshakes_total", j (s_quic_outbound_handshakes_total s))]);
   ("stream", stream_json);
   ("datagram", datagram_json);
   ("compression", compression_json);
   ("tls", tls_json);
   ("geoip", geoip_json);
   ("shutdown", shutdown_json);
   ("acme", acme_json);
   ("ocsp", ocsp_json);
   ("proxy_lb", proxy_lb_json);
   ("proxy_upstream", proxy_upstream_json);
   ("rate_limit", rate_limit_json);
   ("cache", cache_json);
   ("oidc", oidc_json);
   ("http_conns", http_conns_json);
   ("backends", backends_json);
   ("by_handler", JArr ((λ r, labelled "handler" r.1 r.2) <$> s_by_handler s));
   ("by_vhost", JArr ((λ r, labelled "vhost" r.1 r.2) <$> s_by_vhost s));
   ("upstreams", JArr (upstream_json <$> ups));
   ("period", j (Archive.as_str period));
   ("sparkline", JObj [("step_secs", j (sp_step_secs sp));
   ("req_rate", j (sp_req_rate sp));
   ("mem_kb", j (sp_mem_kb sp));
   ("cpu_pct", j (sp_cpu_pct sp));
   ("auth_fail", j (sp_auth_fail sp));
   ("jwt_fail", j (sp_jwt_fail sp));
   ("jwt_expiry", j (sp_jwt_expiry sp));
   ("jwt_issued", j (sp_jwt_issued sp));
   ("err4xx", j (sp_err4xx sp));
   ("err5xx", j (sp_err5xx sp));
   ("active", j (sp_active sp))]);
   ("top_paths", JArr ((λ p, JArr [j p.1; j p.2]) <$> top_paths));
   ("certs", JArr (cert_json <$> certs));
   ("listeners", JArr (listener_summary_json <$> sm_listeners sum));
   ("vhosts", JArr (vhost_json <$> sm_vhosts sum));
   ("auth", auth_json (sm_auth sum))].

End document.

(** The answer with a document; the text is serde_json's. *)
Definition json_response `{Http} (to_string : Json → string) (doc : Json) : option HttpResponse :=
  Errors.build 200 [("Content-Type", "application/json")] (to_string doc).

(** * The members of the document *)

(** serde_json keeps one of two members with the same name; no object of a
    well-keyed document has two. *)
Definition distinct (keys : list string) : bool := bool_decide (NoDup keys).

Fixpoint well_keyed (v : Json) : bool :=
  match v with
  | JArr l => forallb well_keyed l
  | JObj fs => distinct (fst <$> fs) && forallb (λ f, well_keyed f.2) fs
  | _ => true
  end.

(** Following the names of members from the root. *)
Fixpoint member (path : list string) (v : Json) : option Json :=
  match path with
  | [] => Some v
  | k :: path' =>
      match v with
      | JObj fs => kv ← List.find (λ f, String.eqb f.1 k) fs; member path' kv.2
      | _ => None
      end
  end.

Lemma well_keyed_arr {A} (f : A → Json) l : (∀ x, well_keyed (f x) = true) → well_keyed (JArr (f <$> l)) = true.
Proof. intros Hf. cbn. rewrite forallb_forall. by intros x (y & <- & _)%in_map_iff. Qed.

Lemma well_keyed_opt {A} `{ToJson A} (o : option A) : (∀ x : A, well_keyed (j x) = true) → well_keyed (j o) = true.
Proof. intros Hj. by destruct o; cbn. Qed.

Lemma well_keyed_list {A} `{ToJson A} (l : list A) : (∀ x : A, well_keyed (j x) = true) → well_keyed (j l) = true.
Proof. apply well_keyed_arr. Qed.

Lemma well_keyed_obj (fs : list (string * Json)) :
  distinct (fst <$> fs) = true → Forall (λ f, well_keyed f.2 = true) fs → well_keyed (JObj fs) = true.
Proof. intros Hd Hf. cbn. rewrite Hd. cbn. by apply forallb_forall, List.Forall_forall. Qed.

(** Goes through the members of a literal object. *)
Ltac keyed :=
  repeat first
    [ reflexivity
    | apply well_keyed_obj; [vm_compute; reflexivity|]
    | apply Forall_cons; split; [cbn [snd]|]
    | apply Forall_nil_2
    | apply well_keyed_opt; intros ?
    | apply well_keyed_list; intros ?
    | apply well_keyed_arr; intros ? ].

Lemma vhost_well_keyed v : well_keyed (vhost_json v) = true.
Proof. unfold vhost_json. keyed. Qed.

Lemma auth_well_keyed a : well_keyed (auth_json a) = true.
Proof. by destruct a. Qed.

(** Every object of the status document has distinct members, so every value
    put into it arrives. *)
Theorem document_well_keyed s sp paths p sum certs ups pid :
  well_keyed (render_json s sp paths p sum certs ups pid) = true.
Proof.
  unfold render_json, listener_json, labelled, upstream_json, cert_json, listener_summary_json, stream_json, datagram_json,
    compression_json, tls_json, geoip_json, shutdown_json, acme_json, ocsp_json, proxy_lb_json, proxy_upstream_json,
    rate_limit_json, cache_json, oidc_json, http_conns_json, backends_json. cbv zeta.
  keyed; first [apply vhost_well_keyed | apply auth_well_keyed | idtac].
Qed.

(** A chart of the document. *)
Definition chart (name : string) (v : Json) : option Json := member ["sparkline"; name] v.

(** For any sequence of samples the archives serve every period, and the charts
    of the document show the recent history of that period, oldest first and
    one value per slot. *)
Theorem document_shows_history cpu_share iter_map ticks p s paths sum certs ups pid :
  N.of_nat (length ticks) < u64_mod →
  ∃ a rows, Archive.run_ticks cpu_share iter_map ticks Archive.archives_new = Some a ∧
    Archive.sparkline_for_period a p = Some (rows, Archive.step_secs p) ∧
    rows = reverse (Archive.recent (Archive.archive p).2 (Archive.period_rows (Archive.history_of cpu_share iter_map ticks) p)
                      Archive.slot_zero) ∧
    length rows = (Archive.archive p).2 ∧
    let doc := render_json s (sparkline_data rows (Archive.step_secs p)) paths p sum certs ups pid in
    chart "step_secs" doc = Some (JNat (Archive.step_secs p)) ∧
    chart "req_rate" doc = Some (JArr ((λ r, JFloat (rate (Archive.req r) (Archive.step_secs p))) <$> rows)) ∧
    chart "err4xx" doc = Some (JArr (JNat ∘ Archive.err4xx <$> rows)) ∧
    chart "err5xx" doc = Some (JArr (JNat ∘ Archive.err5xx <$> rows)) ∧
    chart "auth_fail" doc = Some (JArr (JNat ∘ Archive.auth <$> rows)) ∧
    chart "active" doc = Some (JArr (JNat ∘ Archive.active <$> rows)).
Proof.
  intros Hn. destruct (Archive.charts_show_history cpu_share iter_map ticks Hn) as (a & Ha & Hp).
  exists a. eexists. split; [done|]. split; [apply Hp|]. split; [done|]. split.
  { rewrite length_reverse. apply Archive.length_recent. }
  generalize (reverse (Archive.recent (Archive.archive p).2 (Archive.period_rows
    (Archive.history_of cpu_share iter_map ticks) p) Archive.slot_zero)). intros rows.
  split_and!; [reflexivity|..]; apply (f_equal (λ l, Some (JArr l))); cbn; symmetry; apply list_fmap_compose.
Qed.

End json.

(** * Requests of the page *)

(** The script asks for the period shown: the answer is the document of that
    period, whatever the client accepts. *)
Theorem poll_answered path p accept :
  List.last (split "/" path) "" ≠ ICON_FILE → List.last (split "/" path) "" ≠ FAVICON_FILE →
  asked path (Some ("format=json&period=" +:+ Archive.as_str p)) accept = JsonDoc p.
Proof.
  intros Hi%String.eqb_neq Hf%String.eqb_neq. unfold asked. rewrite Hi, Hf.
  replace (query_wants_json _) with true by by destruct p. rewrite orb_true_r. f_equal. by destruct p.
Qed.

(** * Upstreams *)

(** A row shows what the balancer decides by: the upstream is picked from
    exactly when its row says that it has a weight, is healthy and is not
    ejected, and it is ejected while time remains. *)
Theorem row_tells_eligibility now_ms label u :
  let r := upstream_row now_ms label u in
  Lb.is_available u now_ms = (0 <? u_weight r) && u_healthy r && negb (u_ejected r) ∧
  u_ejected r = (0 <? u_ejected_remaining_ms r).
Proof.
  split; [done|]. cbn. unfold Lb.is_ejected, Lb.ejected_remaining_ms.
  destruct (N.ltb_spec now_ms (Lb.ejected_until_ms u)), (N.eqb_spec (Lb.ejected_until_ms u) 0); cbn;
    symmetry; rewrite ?N.ltb_lt, ?N.ltb_ge; try done; lia.
Qed.

Lemma read_upstreams_length pools now_ms :
  length (read_upstreams (Some pools) now_ms) = list_sum (length ∘ upstreams <$> pools).
Proof. unfold read_upstreams. induction pools as [|e es IH]; cbn; [done|]. by rewrite length_app, length_fmap, IH. Qed.

(** * Listeners *)

Section protocols.
Context `{IpNets} `{Http} `{Regex} `{F64} `{!ParseConfig.ConfigEnv} `{!Kdl.Kdl f64}.

(** What a listener runs. *)
Definition service (l : ParseConfig.ListenerConfig) : string :=
  match Bind.is_datagram_stream (Bind.kind (ParseConfig.bind l)), ParseConfig.proxy l, ParseConfig.tls l with
  | true, None, _ => "HTTP/3"
  | true, Some _, _ => "dgram-proxy"
  | false, None, None => "HTTP"
  | false, None, Some _ => "HTTPS"
  | false, Some _, None => "stream"
  | false, Some _, Some _ => "TLS-stream"
  end.

(** Where its certificate comes from. *)
Definition source (t : ParseTls.TlsConfig) : string * list string :=
  match t with
  | ParseTls.Files _ _ => ("-file", [])
  | ParseTls.SelfSigned => ("-self-signed", [])
  | ParseTls.Acme a => ("-ACME", ParseTls.domains a)
  | ParseTls.Ref _ => ("-unknown", [])
  end.

(** The summary of a loaded configuration names for every listener what it
    runs and, where it terminates TLS, the kind of its certificate source with
    the domains of an ACME order; no source is unknown. *)
Theorem protocol_shown kdl text config c l :
  Config.parse_named kdl text config = Some (Ok c) → l ∈ Config.listeners c →
  match ParseConfig.tls l with
  | None => listener_protocol c l = (service l, [])
  | Some t => ∃ s, Config.resolve_cert c (ParseTls.cert t) = Some s ∧ ParseTls.is_ref s = false ∧
      listener_protocol c l = (service l +:+ (source s).1, (source s).2)
  end.
Proof.
  intros Hc Hl. pose proof Hc as (Hv & Hp & _)%ConfigOk.parse_named_Ok.
  pose proof (ConfigOk.check_listener_mode l (Hp l Hl) (ConfigOk.va_layers c Hv l Hl)) as Hm.
  destruct (ConfigOk.loaded_certificates kdl text config c Hc) as [Hcert _].
  destruct (ParseConfig.tls l) as [t|] eqn:Ht.
  - destruct (Hcert l t Hl Ht) as (s & Hs & Hr & _). exists s. split_and!; [done..|].
    unfold listener_protocol, service, tls_protocol_name. rewrite Ht, Hs. cbn [default].
    destruct Hm as [Hx Hk|t' Hx Hk _|p Hx Hk _|p Hx Hk Hn _ _ _]; [..|congruence]; unfold Bind.is_datagram_stream;
      rewrite Hx, Hk; by destruct s.
  - unfold listener_protocol, service. rewrite Ht.
    destruct Hm as [Hx Hk|t' Hx Hk Hn|p Hx Hk _|p Hx Hk Hn _ _ _]; [|congruence|..];
      unfold Bind.is_datagram_stream in *; rewrite Hx; [by rewrite Hk..|]. destruct (Bind.is_byte_stream _); [done|done].
Qed.

End protocols.

Module Demo.

(** The endpoint of the demonstration: TLS listeners on TCP and UDP for one
    ACME certificate, and a relay. *)
Lemma protocol_shown_witness :
  listener_protocol ConfigOk.Demo.loaded (ConfigOk.Demo.listener 1) = ("HTTP/3-ACME", ["a.example"]).
Proof.
  pose proof (protocol_shown ConfigOk.Demo.kdl "" "/etc/hs.kdl" ConfigOk.Demo.loaded (ConfigOk.Demo.listener 1)
    ConfigOk.Demo.loads (ConfigOk.Demo.listener_loaded 1 ltac:(vm_compute; reflexivity))) as Hs.
  vm_compute in Hs. vm_compute. destruct Hs as (s & [= <-] & _ & ?). reflexivity.
Defined.

Example relay_shown :
  (listener_protocol ConfigOk.Demo.loaded (ConfigOk.Demo.listener 2)).1 = "stream".
Proof. vm_compute. reflexivity. Qed.

Lemma poll_answered_witness :
  asked "/status" (Some "format=json&period=7d") (Some "text/html") = JsonDoc Archive.Day7.
Proof. apply (poll_answered "/status" Archive.Day7); vm_compute; discriminate. Defined.

(** The first period asked for counts; an unknown one is the default. *)
Example periods :
  query_period (Some "period=1h&period=1y") = Archive.Min60 ∧ query_period (Some "period=2w") = Archive.Min15 ∧
  query_period None = Archive.Min15.
Proof. vm_compute. done. Qed.

(** A client that refuses JSON gets it. *)
Example accept_ignores_weights :
  asked "/status" None (Some "text/html, application/json;q=0") = JsonDoc Archive.Min15.
Proof. vm_compute. reflexivity. Qed.

Definition idle_summary : ServerSummary :=
  {| version := "1.0"; sm_listeners := []; sm_vhosts := []; sm_auth := Some (plain_auth "PAM" "login") |}.

(** A session layer over another backend shows that backend. *)
Example session_described :
  @auth_json unit (Some {| kind := "LDAP"; detail := "ldap://x"; has_jwt_session := true; jwt_validity_secs := Some 3600 |})
  = JStr "LDAP:ldap://x+jwt:3600s".
Proof. vm_compute. reflexivity. Qed.

End Demo.

End Status.
