(* ===== verification/StatusPage.v ===== *)
(** The HTML status page ([src/handler/status/render_html.rs]) and the handler
    that chooses between it, the JSON document and the brand files
    ([StatusHandler::handle] of [src/handler/status.rs]).

    [f64] arithmetic and [format!] of an [f64] with a precision are a class.
    In a markup literal a backquote stands for a double quote, which [html]
    puts back; the markup of the source has no backquote. *)
From S2P Require Import Prelude RustStr Http Errors Calendar Metrics Archive LoadBalancer AccessLog Acme Prom Status.

Module StatusPage.
Import Metrics Prom Status.

Class Floats (f64 : Type) := {
  of_u64 : N → f64;
  f_0 : f64;
  f_1 : f64;
  f_100 : f64;
  f_sub : f64 → f64 → f64;
  f_mul : f64 → f64 → f64;
  f_div : f64 → f64 → f64;
  f_max : f64 → f64 → f64;
  (** [format!] with a precision. *)
  fixed : nat → f64 → string;
}.

(** * Constants *)

Fixpoint html (s : string) : string :=
  match s with
  | "" => ""
  | String c s' => String (if Ascii.eqb c "`" then QUOTE else c) (html s')
  end.

Definition CSS : string := html "
*,*::before,*::after{box-sizing:border-box}
:root{
  --bg:#f5f7fa;--surface:#fff;--border:#dde3eb;
  --text:#1a2332;--muted:#5e6e82;--accent:#1e3a5f;
  --accent-bg:#edf2f8;
  --green:#16a34a;--green-bg:#dcfce7;
  --amber:#b45309;--amber-bg:#fef3c7;
  --red:#b91c1c;--red-bg:#fee2e2;
  --spark-stroke:#1e3a5f;--spark-fill:rgba(0,0,0,.07);
  --spark-grid:#dde3eb;
  --cpu-color:#7c3aed;--auth-color:#dc2626;--jwt-color:#ea580c;
  --mem-color:#0891b2;--active-color:#059669;
  --jwt-issued-color:#16a34a;
  --live-dot:#22c55e;
}
body{margin:0;font-family:-apple-system,BlinkMacSystemFont,`Segoe UI`,
  system-ui,sans-serif;font-size:15px;line-height:1.65;color:var(--text);
  background:var(--bg);display:flex;min-height:100vh}
a{color:var(--accent)}

/* --- Sidebar --- */
.sidebar{width:240px;flex-shrink:0;background:var(--surface);
  border-right:1px solid var(--border);position:sticky;top:0;
  height:100vh;overflow-y:auto;display:flex;flex-direction:column}
.sidebar-brand{padding:.9rem 1rem .75rem;border-bottom:1px solid var(--border)}
.sidebar-brand img{width:140px;display:block;margin:0 auto}
.sidebar-live{display:flex;align-items:center;gap:.4rem;
  padding:.45rem 1rem;font-size:.78rem;color:var(--muted);
  border-bottom:1px solid var(--border)}
.sidebar details>summary{display:none}
.sidebar-nav{display:block;padding:.6rem 0 1rem;flex:1}
.nav-group-label{font-size:.68rem;font-weight:700;
  text-transform:uppercase;letter-spacing:.09em;color:var(--muted);
  padding:.6rem 1.25rem .2rem}
.nav-link{display:block;padding:.28rem 1.25rem;font-size:.875rem;
  color:var(--text);text-decoration:none;
  border-left:3px solid transparent;transition:.12s}
.nav-link:hover,.nav-link.active{border-left-color:var(--accent);
  background:var(--accent-bg);color:var(--accent)}
.sidebar-footer{padding:.75rem 1rem;font-size:.72rem;color:var(--muted);
  border-top:1px solid var(--border)}

/* --- Main content --- */
.main{flex:1;min-width:0;padding:2rem 2.5rem 4rem}
.main-inner{max-width:860px}

/* --- Sections --- */
.section{margin-bottom:1.5rem;scroll-margin-top:1.5rem}
h2{font-size:.82rem;font-weight:700;color:var(--muted);
  text-transform:uppercase;letter-spacing:.06em;margin:0 0 .65rem}
.card{background:var(--surface);border:1px solid var(--border);
  border-radius:10px;padding:1.25rem 1.5rem}
.grid-3{display:grid;grid-template-columns:repeat(3,1fr);gap:1rem}
.grid-2{display:grid;grid-template-columns:repeat(2,1fr);gap:1rem}

/* --- Stats --- */
.stat-val{font-size:2rem;font-weight:800;color:var(--accent);
  letter-spacing:-.03em;margin:.15rem 0 0;line-height:1.1}
.stat-label{font-size:.82rem;color:var(--muted)}
.big-val{font-size:1.4rem;font-weight:700;color:var(--accent)}

/* --- Tables --- */
.info-table{width:100%;border-collapse:collapse;font-size:.875rem}
.info-table th{text-align:left;color:var(--muted);font-weight:600;
  font-size:.78rem;text-transform:uppercase;letter-spacing:.04em;
  padding:.4rem .6rem .4rem 0;border-bottom:1px solid var(--border)}
.info-table td{padding:.4rem .6rem .4rem 0;
  border-bottom:1px solid var(--border);word-break:break-word}
.info-table tr:last-child td{border-bottom:none}
.info-table tbody tr:hover td{background:var(--accent-bg)}

/* --- Rate table --- */
.rate-table{width:100%;border-collapse:collapse;font-size:.875rem;
  margin-bottom:.75rem}
.rate-table th{color:var(--muted);font-weight:600;
  font-size:.78rem;text-transform:uppercase;letter-spacing:.04em;
  padding:.3rem .4rem .5rem 0;text-align:left}
.rate-table th:last-child{text-align:right}
.rate-table td{padding:.3rem .4rem;border-top:1px solid var(--border)}
.rate-table td:last-child{text-align:right;font-weight:600;
  color:var(--accent);font-variant-numeric:tabular-nums}

/* --- Status codes --- */
.sc-grid{display:grid;grid-template-columns:repeat(4,1fr);gap:.6rem}
.sc{border-radius:8px;padding:.9rem;text-align:center}
.sc-val{font-size:1.4rem;font-weight:800;letter-spacing:-.02em}
.sc-label{font-size:.72rem;font-weight:700;text-transform:uppercase;
  letter-spacing:.05em;margin-top:.1rem;opacity:.85}
.sc-2xx{background:var(--green-bg);color:var(--green)}
.sc-3xx{background:var(--accent-bg);color:var(--accent)}
.sc-4xx{background:var(--amber-bg);color:var(--amber)}
.sc-5xx{background:var(--red-bg);color:var(--red)}

/* --- Security event cards --- */
.sec-grid{display:grid;grid-template-columns:repeat(2,1fr);gap:.75rem}
/* Surface card with coloured left stripe; text stays neutral */
.sec-card{background:var(--surface);border:1px solid var(--border);
  border-radius:8px;padding:1rem 1.25rem}
.sec-card-auth{border-left:4px solid var(--red)}
.sec-card-jwt-fail{border-left:4px solid var(--amber)}
.sec-card-jwt-exp{border-left:4px solid var(--amber)}
.sec-card-jwt-issued{border-left:4px solid var(--green)}
.sec-card-title{font-size:.72rem;font-weight:700;color:var(--muted);
  text-transform:uppercase;letter-spacing:.05em}
.sec-card-val{font-size:1.4rem;font-weight:800;letter-spacing:-.02em;
  color:var(--accent)}
.sec-card-sub{font-size:.75rem;margin-top:.2rem;color:var(--muted)}

/* --- Latency bars --- */
.bar-row{display:flex;align-items:center;gap:.6rem;
  margin:.25rem 0;font-size:.82rem}
.bar-label{width:5.5rem;color:var(--muted);flex-shrink:0;
  text-align:right;white-space:nowrap}
.bar-track{flex:1;background:var(--accent-bg);border-radius:4px;
  height:.85rem;overflow:hidden}
.bar-fill{height:100%;background:var(--accent);border-radius:4px;
  min-width:2px}
.bar-count{width:4.5rem;color:var(--text);
  font-variant-numeric:tabular-nums;text-align:right}

/* --- Sparklines --- */
.sparkline{display:block;width:100%;height:56px;margin-top:.75rem}

/* --- Badges --- */
.badge{display:inline-block;font-size:.75rem;font-weight:600;
  background:var(--accent-bg);color:var(--accent);
  border-radius:4px;padding:.1rem .45rem}

/* --- Certs --- */
.cert-ok{color:var(--green)}
.cert-warn{color:var(--amber)}
.cert-crit{color:var(--red);font-weight:700}

/* --- Live dot --- */
.live-dot{display:inline-block;width:8px;height:8px;
  background:var(--live-dot);border-radius:50%;flex-shrink:0;
  animation:pulse 2s infinite}
.live-dot.offline{background:var(--red);animation:none}
@keyframes pulse{0%,100%{opacity:1}50%{opacity:.3}}

/* --- Mono --- */
.mono{font-family:ui-monospace,`SF Mono`,Consolas,monospace;font-size:.82rem}

/* --- Sidebar controls (period + refresh, always visible) --- */
.sidebar-controls{display:flex;flex-direction:column;gap:.5rem;
  padding:.6rem 1.25rem .75rem;
  border-top:1px solid var(--border)}
.sidebar-controls label{font-size:.78rem;font-weight:600;
  color:var(--muted);display:block;margin-bottom:.15rem}
.sidebar-controls select{background:var(--surface);
  border:1px solid var(--border);border-radius:6px;
  padding:.28rem .5rem;font-size:.82rem;color:var(--text);
  cursor:pointer;width:100%;outline:none}
.sidebar-controls select:hover{border-color:var(--accent)}
.sidebar-controls select:focus{border-color:var(--accent);
  box-shadow:0 0 0 2px rgba(30,58,95,.15)}

/* --- Mobile --- */
@media(max-width:768px){
  body{display:block}
  .sidebar{width:100%;height:auto;position:static;border-right:none;
    border-bottom:1px solid var(--border)}
  .sidebar-nav{display:none}
  .sidebar details{cursor:pointer}
  .sidebar details[open] .sidebar-nav{display:block}
  .sidebar summary{padding:.6rem 1rem;font-size:.875rem;
    font-weight:600;color:var(--accent);list-style:none;
    display:flex;align-items:center;gap:.4rem}
  .sidebar summary::-webkit-details-marker{display:none}
  .main{padding:1.25rem 1rem 3rem}
  .grid-3,.sc-grid{grid-template-columns:1fr 1fr}
  .sec-grid{grid-template-columns:1fr 1fr}
}
@media(max-width:480px){
  .grid-3,.grid-2,.sc-grid,.sec-grid{grid-template-columns:1fr}
}
".

(** The script: drawing, tables, counters, polling. *)
Definition js_charts : string := html "<script>
(function(){
var POLL_MS=3000;
var cur='15min';
var lastData=null;
var online=true;
var timer;

// Navigate logo to referring page if available.
var ll=document.getElementById('logo-link');
if(ll)ll.href=document.referrer||'/';

document.getElementById('period-sel').addEventListener('change',function(){
  cur=this.value;
  poll();
});
document.getElementById('refresh-sel').addEventListener('change',function(){
  POLL_MS=+this.value;
  clearInterval(timer);
  timer=setInterval(poll,POLL_MS);
});

function setText(id,v){var el=document.getElementById(id);if(el)el.textContent=v;}
function fmt(n){return (+n).toLocaleString();}

function setOnline(on){
  if(on===online)return;
  online=on;
  var dot=document.getElementById('live-dot');
  var lbl=document.getElementById('live-label');
  if(dot){dot.classList.toggle('offline',!on);}
  if(lbl){lbl.textContent=on?'Live':'Offline';lbl.style.color=on?'':'var(--red)';}
}

function drawSparkline(id,data,color,fmtMax,stepSecs){
  var svg=document.getElementById(id);
  if(!svg||!data||data.length<2)return;
  var W=400,H=50,LH=14;
  svg.setAttribute('viewBox','0 0 '+W+' '+(H+LH));
  var vals=data.map(function(v){return v==null?0:+v;});
  var max=Math.max.apply(null,vals)||1;
  var n=vals.length,pad=2;
  var pts=vals.map(function(v,i){
    var x=((i/(n-1))*W).toFixed(1);
    var y=(H-pad-(v/max)*(H-pad*2)).toFixed(1);
    return x+','+y;
  });
  svg.innerHTML='';
  var NS='http://www.w3.org/2000/svg';
  [0.25,0.5,0.75].forEach(function(f){
    var line=document.createElementNS(NS,'line');
    var y=(H*(1-f)).toFixed(1);
    line.setAttribute('x1','0');line.setAttribute('x2',String(W));
    line.setAttribute('y1',y);line.setAttribute('y2',y);
    line.setAttribute('stroke','var(--spark-grid)');
    line.setAttribute('stroke-width','1');
    svg.appendChild(line);
  });
  var area=document.createElementNS(NS,'path');
  var fx=pts[0].split(',')[0],lx=pts[n-1].split(',')[0];
  area.setAttribute('d','M'+fx+','+H+' L'+pts.join(' L')+' L'+lx+','+H+' Z');
  area.setAttribute('fill','var(--spark-fill)');
  svg.appendChild(area);
  var pl=document.createElementNS(NS,'polyline');
  pl.setAttribute('points',pts.join(' '));
  pl.setAttribute('fill','none');
  pl.setAttribute('stroke',color||'var(--spark-stroke)');
  pl.setAttribute('stroke-width','1.5');
  pl.setAttribute('stroke-linejoin','round');
  svg.appendChild(pl);
  if(fmtMax){
    var lbl=document.createElementNS(NS,'text');
    lbl.setAttribute('x',String(W-2));lbl.setAttribute('y','11');
    lbl.setAttribute('text-anchor','end');lbl.setAttribute('font-size','10');
    lbl.setAttribute('fill','var(--muted)');lbl.textContent=fmtMax(max);
    svg.appendChild(lbl);
  }
  if(stepSecs&&n>1){
    var totalSecs=stepSecs*n;
    function tl(s){
      if(s<60)return'-'+s+'s';
      if(s<3600)return'-'+Math.round(s/60)+'m';
      if(s<86400)return'-'+Math.round(s/3600)+'h';
      return'-'+Math.round(s/86400)+'d';
    }
    [{x:2,s:totalSecs,a:'start'},{x:W/2,s:totalSecs/2,a:'middle'},
     {x:W-2,s:0,a:'end'}].forEach(function(t){
      var tx=document.createElementNS(NS,'text');
      tx.setAttribute('x',t.x.toFixed(0));
      tx.setAttribute('y',String(H+LH-1));
      tx.setAttribute('text-anchor',t.a);tx.setAttribute('font-size','9');
      tx.setAttribute('fill','var(--muted)');
      tx.textContent=t.s===0?'now':tl(Math.round(t.s));
      svg.appendChild(tx);
    });
  }
}

".

Definition js_tables : string := html "function escHtml(s){
  return String(s).replace(/&/g,'&amp;').replace(/</g,'&lt;').replace(/>/g,'&gt;');
}

function fmtTs(ts){
  // Format a Unix timestamp as `YYYY-MM-DD HH:MM UTC`.
  var d=new Date(ts*1000);
  return d.toISOString().replace('T',' ').slice(0,16)+' UTC';
}

function updateCerts(certs){
  var sec=document.getElementById('certs-section');
  if(!sec)return;
  if(!certs||!certs.length){sec.style.display='none';return;}
  sec.style.display='';
  var tbody=sec.querySelector('tbody');
  if(!tbody)return;
  function cc(ts){
    var days=(ts-Math.floor(Date.now()/1000))/86400;
    if(days<7)return'cert-crit';
    if(days<30)return'cert-warn';
    return'cert-ok';
  }
  tbody.innerHTML=certs.map(function(c){
    var cls=cc(c.expiry_ts);
    var status=cls==='cert-ok'?'OK':cls==='cert-warn'?'Expiring soon':'Critical';
    return'<tr><td class=`mono`>'+escHtml(c.domains.join(', '))+'</td>'+
      '<td class=`'+cls+' mono`>'+escHtml(fmtTs(c.expiry_ts))+'</td>'+
      '<td class=`mono`>'+escHtml(fmtTs(c.next_renewal_ts))+'</td>'+
      '<td><span class=`badge '+cls+'`>'+status+'</span></td></tr>';
  }).join('');
}

function updatePaths(d){
  var rows=(d&&d.top_paths)?d.top_paths:[];
  var tbody=document.getElementById('paths-tbody');
  if(!tbody)return;
  if(!rows.length){
    tbody.innerHTML='<tr><td colspan=`2` style=`color:var(--muted);font-style:italic`>No data yet</td></tr>';
    return;
  }
  var maxH=rows[0][1]||1;
  tbody.innerHTML=rows.map(function(r){
    var pct=(r[1]/maxH*100).toFixed(1);
    return'<tr><td class=`mono` style=`word-break:break-all`>'+escHtml(r[0])+'</td>'+
      '<td style=`text-align:right;white-space:nowrap;padding-left:.6rem`>'+
      '<span style=`display:inline-block;height:.6rem;width:'+pct+'px;max-width:60px;'+
      'background:var(--accent);border-radius:2px;vertical-align:middle;margin-right:.3rem`></span>'+
      fmt(r[1])+'</td></tr>';
  }).join('');
}

function fmtBytes(n){
  n=+n||0;
  if(n>=(1<<30))return (n/(1<<30)).toFixed(1)+' GiB';
  if(n>=(1<<20))return (n/(1<<20)).toFixed(1)+' MiB';
  if(n>=(1<<10))return (n/(1<<10)).toFixed(1)+' KiB';
  return n+' B';
}

".

Definition js_counters : string := html "// Refresh the newly-surfaced metric sections.  Every id is optional:
// setText no-ops when a section was server-side hidden, so a feature
// that only becomes active after page load simply waits for a reload.
function updateExtra(d){
  if(d.stream){var s=d.stream;
    setText('val-stream-active',s.conns_active);
    setText('val-stream-total',fmt(s.conns_total));
    setText('val-stream-in',fmtBytes(s.bytes_in));
    setText('val-stream-out',fmtBytes(s.bytes_out));}
  if(d.datagram){var g=d.datagram;
    setText('val-dgram-flows',fmt(g.flows_active));
    setText('val-dgram-pkts',fmt(g.datagrams_in)+' / '+fmt(g.datagrams_out));
    setText('val-dgram-bytes',fmtBytes(g.bytes_in)+' / '+fmtBytes(g.bytes_out));
    setText('val-dgram-create',fmt(g.flow_create));
    setText('val-dgram-evict',fmt(g.flow_evict));}
  if(d.proxy_lb){var l=d.proxy_lb;
    setText('val-lb-picks',fmt(l.picks));
    setText('val-lb-noup',fmt(l.no_upstream));
    setText('val-lb-retries',fmt(l.retries));
    setText('val-lb-eject',fmt(l.ejections));
    setText('val-lb-hc',fmt(l.health_checks));
    setText('val-lb-hfr',fmt(l.health_failures)+' / '+fmt(l.health_recoveries));}
  if(d.proxy_upstream){var u=d.proxy_upstream;
    setText('val-up-bytes',fmtBytes(u.bytes_in)+' / '+fmtBytes(u.bytes_out));
    setText('val-up-cerr',fmt(u.connect_errors));}
  if(d.http_conns){
    setText('val-http-conns-active',d.http_conns.active);
    setText('val-http-conns-total',fmt(d.http_conns.total));}
  if(d.tls){
    setText('val-tls-hs',fmt(d.tls.handshakes));
    setText('val-tls-hs-fail',fmt(d.tls.failures));
    setText('val-tls-hs-to',fmt(d.tls.timeouts));}
  if(d.acme){
    setText('val-acme-iss',fmt(d.acme.issuances));
    setText('val-acme-iss-fail',fmt(d.acme.issuance_failures));
    setText('val-acme-ren',fmt(d.acme.renewals));
    setText('val-acme-ren-fail',fmt(d.acme.renewal_failures));}
  if(d.ocsp){
    setText('val-ocsp',fmt(d.ocsp.refreshes));
    setText('val-ocsp-fail',fmt(d.ocsp.refresh_failures));}
  if(d.oidc){var o=d.oidc;
    setText('val-oidc-disc',fmt(o.discoveries));
    setText('val-oidc-disc-fail',fmt(o.discovery_failures));
    setText('val-oidc-ref',fmt(o.refreshes));
    setText('val-oidc-ref-fail',fmt(o.refresh_failures));
    setText('val-oidc-logout',fmt(o.logouts));
    setText('val-oidc-bearer',fmt(o.bearer_validations));
    setText('val-oidc-bearer-fail',fmt(o.bearer_failures));
    setText('val-oidc-iss',fmt(o.callback_iss_mismatches));}
  if(d.rate_limit){
    setText('val-rl-triggers',fmt(d.rate_limit.triggers));
    setText('val-rl-keys',fmt(d.rate_limit.active_keys));}
  if(d.geoip){
    setText('val-geoip',fmt(d.geoip.lookups));
    setText('val-geoip-miss',fmt(d.geoip.misses));}
  if(d.compression){var c=d.compression;
    setText('val-cmp-resp',fmt(c.responses));
    setText('val-cmp-skip',fmt(c.skipped));
    setText('val-cmp-split',fmt(c.gzip)+' / '+fmt(c.brotli)+' / '+fmt(c.zstd));
    setText('val-cmp-bytes',fmtBytes(c.bytes_in)+' → '+fmtBytes(c.bytes_out));
    var saved=c.bytes_in>0?
      (Math.max(0,(1-c.bytes_out/c.bytes_in))*100).toFixed(1)+'%':'—';
    setText('val-cmp-saved',saved);}
  if(d.backends){var b=d.backends;
    ['fcgi','scgi'].forEach(function(k){
      if(b[k]){setText('val-'+k+'-req',fmt(b[k].requests));
        setText('val-'+k+'-err',fmt(b[k].errors));
        setText('val-'+k+'-inf',b[k].in_flight);}});
    if(b.cgi){setText('val-cgi-req',fmt(b.cgi.requests));
      setText('val-cgi-err',fmt(b.cgi.errors));
      setText('val-cgi-inf',b.cgi.in_flight);
      setText('val-cgi-spawn',fmt(b.cgi.spawn_failures));
      setText('val-cgi-to',fmt(b.cgi.timeouts));}
    if(b.static){setText('val-static-bytes',fmtBytes(b.static.bytes_served));
      setText('val-static-304',fmt(b.static.not_modified));
      setText('val-static-206',fmt(b.static.range));}}
}

".

Definition js_poll : string := html "function updateUpstreams(ups){
  var card=document.getElementById('upstreams-card');
  if(!card)return;
  if(!ups||!ups.length){card.style.display='none';return;}
  card.style.display='';
  var tbody=document.getElementById('upstreams-tbody');
  if(!tbody)return;
  tbody.innerHTML=ups.map(function(u){
    var cls=u.ejected?'cert-crit':(u.healthy?'cert-ok':'cert-warn');
    var st=u.ejected?'Ejected':(u.healthy?'Healthy':'Unhealthy');
    if(u.ejected&&u.ejected_remaining_ms>0){
      st+=' ('+Math.ceil(u.ejected_remaining_ms/1000)+'s)';}
    var errs=u.errors;
    if(u.consecutive_errors>0){errs+=' ('+u.consecutive_errors+' consec)';}
    return'<tr><td>'+escHtml(u.label)+'</td><td class=`mono`>'+escHtml(u.url)+
      (u.group?'<span class=`muted`> ['+escHtml(u.group)+']</span>':'')+
      '</td><td>'+u.weight+'</td><td>'+u.in_flight+
      '</td><td>'+fmt(u.requests)+'</td><td>'+errs+
      '</td><td><span class=`badge '+cls+'`>'+st+'</span></td></tr>';
  }).join('');
}

function poll(){
  fetch(location.pathname+'?format=json&period='+cur,{
    headers:{'Accept':'application/json'},cache:'no-store'
  })
  .then(function(r){if(!r.ok)throw new Error('HTTP '+r.status);return r.json();})
  .then(function(d){
    setOnline(true);lastData=d;
    setText('val-uptime',d.uptime_human);
    setText('val-active',d.requests_active);
    setText('val-total',fmt(d.requests_total));
    setText('val-rps',d.rates.current_per_sec.toFixed(2));
    setText('val-rate-cur',d.rates.current_per_sec.toFixed(2));
    setText('val-rate-1m',d.rates.avg_1min.toFixed(2));
    setText('val-rate-5m',d.rates.avg_5min.toFixed(2));
    setText('val-rate-15m',d.rates.avg_15min.toFixed(2));
    setText('val-2xx',fmt(d.status['2xx']));
    setText('val-3xx',fmt(d.status['3xx']));
    setText('val-4xx',fmt(d.status['4xx']));
    setText('val-5xx',fmt(d.status['5xx']));
    setText('val-auth-total',fmt(d.auth_failures_total));
    setText('val-jwt-fail-total',fmt(d.jwt_failures_total));
    setText('val-jwt-exp-total',fmt(d.jwt_expiries_total));
    setText('val-jwt-issued-total',fmt(d.jwt_issued_total));
    setText('val-auth-1h',fmt(d.auth_fail_1h));
    setText('val-jwt-fail-1h',fmt(d.jwt_fail_1h));
    setText('val-jwt-exp-1h',fmt(d.jwt_expiry_1h));
    setText('val-jwt-issued-1h',fmt(d.jwt_issued_1h));
    if(d.memory_kb!=null)setText('val-mem',Math.round(d.memory_kb/1024)+' MiB');
    if(d.cpu_percent!=null)setText('val-cpu',d.cpu_percent.toFixed(1)+'%');
    var lk=['lt_1','lt_10','lt_50','lt_200','lt_1000','ge_1000'];
    var tot=lk.reduce(function(s,k){return s+(d.latency_ms[k]||0);},0);
    lk.forEach(function(k){
      var c=d.latency_ms[k]||0;
      var pct=tot>0?(c/tot*100).toFixed(1):'0.0';
      var fill=document.querySelector('.bar-fill[data-lat=`'+k+'`]');
      var cnt=document.querySelector('.bar-count[data-lat=`'+k+'`]');
      if(fill)fill.style.width=pct+'%';
      if(cnt)cnt.textContent=fmt(c);
    });
    if(d.sparkline){
      var sp=d.sparkline,step=sp.step_secs;
      if(sp.req_rate&&sp.req_rate.length)
        drawSparkline('spark-rate',sp.req_rate,'var(--spark-stroke)',
          function(v){return v.toFixed(1)+' req/s';},step);
      if(sp.mem_kb&&sp.mem_kb.length)
        drawSparkline('spark-mem',sp.mem_kb,'var(--mem-color)',
          function(v){return Math.round(v/1024)+' MiB';},step);
      if(sp.cpu_pct&&sp.cpu_pct.length)
        drawSparkline('spark-cpu',sp.cpu_pct,'var(--cpu-color)',
          function(v){return v.toFixed(1)+'%';},step);
      if(sp.auth_fail)
        drawSparkline('spark-auth',sp.auth_fail,'var(--auth-color)',
          function(v){return v.toFixed(0)+' failures';},step);
      if(sp.jwt_fail)
        drawSparkline('spark-jwt-fail',sp.jwt_fail,'var(--jwt-color)',
          function(v){return v.toFixed(0)+' bad sig';},step);
      if(sp.jwt_expiry)
        drawSparkline('spark-jwt-expiry',sp.jwt_expiry,'var(--jwt-color)',
          function(v){return v.toFixed(0)+' expired';},step);
      if(sp.jwt_issued)
        drawSparkline('spark-jwt-issued',sp.jwt_issued,
          'var(--jwt-issued-color)',
          function(v){return v.toFixed(0)+' issued';},step);
      if(sp.err4xx)
        drawSparkline('spark-4xx',sp.err4xx,'var(--amber)',
          function(v){return v.toFixed(0)+' 4xx';},step);
      if(sp.err5xx)
        drawSparkline('spark-5xx',sp.err5xx,'var(--red)',
          function(v){return v.toFixed(0)+' 5xx';},step);
      if(sp.active){
        setText('val-active-hist',fmt(d.requests_active));
        drawSparkline('spark-active',sp.active,'var(--active-color)',
          function(v){return v.toFixed(0)+' req';},step);
      }
    }
    updateCerts(d.certs);
    updatePaths(d);
    updateExtra(d);
    updateUpstreams(d.upstreams);
  })
  .catch(function(){setOnline(false);});
}

poll();
timer=setInterval(poll,POLL_MS);
})();
</script>".

Definition LIVE_JS : string := js_charts +:+ js_tables +:+ js_counters +:+ js_poll.

(** * Formatting *)

Definition html_escape (s : string) : string :=
  Errors.replace_char QUOTE "&quot;" (Errors.replace_char ">" "&gt;" (Errors.replace_char "<" "&lt;" (Errors.replace_char "&" "&amp;" s))).

(** The digits from the last on, a comma before every third. *)
Fixpoint group_digits (i : nat) (digits : list ascii) : list ascii :=
  match digits with
  | [] => []
  | ch :: r => (if (0 <? i)%nat && (i mod 3 =? 0)%nat then [","%char; ch] else [ch]) ++ group_digits (S i) r
  end.

Definition fmt_num (n : N) : string :=
  String.string_of_list_ascii (rev (group_digits 0 (rev (String.list_ascii_of_string (dec n))))).

Definition fmt_duration_secs (secs : N) : string :=
  if secs =? 0 then "0s"
  else
    let d := secs / 86400 in
    let h := (secs mod 86400) / 3600 in
    let m := (secs mod 3600) / 60 in
    let s := secs mod 60 in
    if 0 <? d then dec d +:+ "d " +:+ dec h +:+ "h"
    else if 0 <? h then dec h +:+ "h " +:+ dec m +:+ "m"
    else if 0 <? m then dec m +:+ "m " +:+ dec s +:+ "s"
    else dec s +:+ "s".

Definition fmt_unix_ts (ts : Z) : string :=
  if (ts <=? 0)%Z then "expired"
  else
    let secs_of_day := (ts `rem` 86400)%Z in
    let hh := (secs_of_day / 3600)%Z in
    let mm := (secs_of_day mod 3600 / 60)%Z in
    let z := (ts `quot` 86400 + 719468)%Z in
    let era := ((if (0 <=? z)%Z then z else z - 146096) `quot` 146097)%Z in
    let doe := (z - era * 146097)%Z in
    let yoe := ((doe - doe `quot` 1460 + doe `quot` 36524 - doe `quot` 146096) `quot` 365)%Z in
    let y := (yoe + era * 400)%Z in
    let doy := (doe - (365 * yoe + yoe `quot` 4 - yoe `quot` 100))%Z in
    let mp := ((5 * doy + 2) `quot` 153)%Z in
    let d := (doy - (153 * mp + 2) `quot` 5 + 1)%Z in
    let m := (if mp <? 10 then mp + 3 else mp - 9)%Z in
    let y := (if m <=? 2 then y + 1 else y)%Z in
    Calendar.pad 4 y +:+ "-" +:+ Calendar.pad 2 m +:+ "-" +:+ Calendar.pad 2 d +:+ " " +:+ Calendar.pad 2 hh +:+ ":" +:+
    Calendar.pad 2 mm +:+ " UTC".

Definition mrow (label id val : string) : string :=
  html "<tr><td style=`width:11rem;color:var(--muted)`>" +:+
  label +:+
  html "</td><td id=`" +:+
  id +:+
  html "`>" +:+
  val +:+
  "</td></tr>".

Definition mcard (title rows : string) : string :=
  html "<div class=`card`><h2>" +:+
  title +:+
  html "</h2><table class=`info-table`><tbody>" +:+
  rows +:+
  "</tbody></table></div>".

Definition nonempty (s : string) : bool := negb (String.eqb s "").

(** [iter().map(f).collect()]. *)
Definition concat_map {A} (f : A → string) (l : list A) : string := String.concat "" (f <$> l).

Section page.
Context {f64 : Type} `{!Floats f64}.

Definition fmt_bytes (n : N) : string :=
  if 2 ^ 30 <=? n then fixed 1 (f_div (of_u64 n) (of_u64 (2 ^ 30))) +:+ " GiB"
  else if 2 ^ 20 <=? n then fixed 1 (f_div (of_u64 n) (of_u64 (2 ^ 20))) +:+ " MiB"
  else if 2 ^ 10 <=? n then fixed 1 (f_div (of_u64 n) (of_u64 (2 ^ 10))) +:+ " KiB"
  else dec n +:+ " B".

(** * Sections *)

Definition LABELS : list string :=
  ["&lt;&nbsp;1&nbsp;ms"; "&lt;&nbsp;10&nbsp;ms"; "&lt;&nbsp;50&nbsp;ms"; "&lt;&nbsp;200&nbsp;ms"; "&lt;&nbsp;1&nbsp;s";
   "&#8805;&nbsp;1&nbsp;s"].
Definition KEYS : list string := ["lt_1"; "lt_10"; "lt_50"; "lt_200"; "lt_1000"; "ge_1000"].

Definition latency_bars_html (counts : list N) (total : N) : string :=
  concat_map (λ '(count, label, key),
    let pct := if 0 <? total then f_mul (f_div (of_u64 count) (of_u64 total)) f_100 else f_0 in
    html "<div class=`bar-row`><span class=`bar-label`>" +:+
  label +:+
  html "</span><div class=`bar-track`><div class=`bar-fill` data-lat=`" +:+
  key +:+
  html "` style=`width:" +:+
  fixed 1 (pct) +:+
  html "%`></div></div><span class=`bar-count` data-lat=`" +:+
  key +:+
  html "`>" +:+
  dec count +:+
  "</span></div>") (zip (zip counts LABELS) KEYS).

Definition resource_section (memory_kb : option N) (cpu_percent : option f64) : string :=
  let mem := match memory_kb with
             | None => ""
             | Some kb => html "<div class=`card`><h2>Memory</h2><div class=`big-val` id=`val-mem`>" +:+
  dec (kb / 1024) +:+
  html " MiB</div><div class=`stat-label`>Resident set size</div><svg id=`spark-mem` class=`sparkline` aria-hidden=`true`></svg></div>"
             end in
  let cpu := match cpu_percent with
             | None => ""
             | Some pct => html "<div class=`card`><h2>CPU</h2><div class=`big-val` id=`val-cpu`>" +:+
  fixed 1 (pct) +:+
  html "%</div><div class=`stat-label`>Process CPU usage</div><svg id=`spark-cpu` class=`sparkline` aria-hidden=`true`></svg></div>"
             end in
  let active := html "<div class=`card`><h2>Active Requests</h2><div class=`big-val` id=`val-active-hist`>0</div><div class=`stat-label`>In-flight now</div><svg id=`spark-active` class=`sparkline` aria-hidden=`true`></svg></div>" in
  if negb (nonempty mem) && negb (nonempty cpu) then ""
  else html "<section class=`section` id=`sec-system`><h2>System</h2><div class=`grid-2`>" +:+
  mem +:+
  cpu +:+
  active +:+
  "</div></section>".

Definition auth_section (auth : option AuthDesc) : string :=
  match auth with
  | None => ""
  | Some a =>
      let jwt_row :=
        if has_jwt_session a then
          html "<tr><td style=`color:var(--muted)`>Session</td><td>JWT (ES256, " +:+
  fmt_duration_secs (default 0 (jwt_validity_secs a)) +:+
  ")</td></tr>"
        else match jwt_validity_secs a with
             | Some v => html "<tr><td style=`color:var(--muted)`>Token validity</td><td>" +:+
  fmt_duration_secs v +:+
  "</td></tr>"
             | None => ""
             end in
      html "<section class=`section` id=`sec-security`>
  <h2>Security</h2>
  <div class=`grid-2` style=`margin-bottom:.75rem`>
    <div class=`sec-card sec-card-auth`>
      <div class=`sec-card-title`>Auth Failures</div>
      <div class=`sec-card-val` id=`val-auth-total`>0</div>
      <div class=`sec-card-sub`>lifetime &bull;
        <span id=`val-auth-1h`>0</span> last hour</div>
      <svg id=`spark-auth` class=`sparkline` aria-hidden=`true`></svg>
    </div>
    <div class=`sec-card sec-card-jwt-fail`>
      <div class=`sec-card-title`>JWT &mdash; Bad Signature</div>
      <div class=`sec-card-val` id=`val-jwt-fail-total`>0</div>
      <div class=`sec-card-sub`>lifetime &bull;
        <span id=`val-jwt-fail-1h`>0</span> last hour</div>
      <svg id=`spark-jwt-fail` class=`sparkline` aria-hidden=`true`></svg>
    </div>
    <div class=`sec-card sec-card-jwt-exp`>
      <div class=`sec-card-title`>JWT &mdash; Expired</div>
      <div class=`sec-card-val` id=`val-jwt-exp-total`>0</div>
      <div class=`sec-card-sub`>lifetime &bull;
        <span id=`val-jwt-exp-1h`>0</span> last hour</div>
      <svg id=`spark-jwt-expiry` class=`sparkline` aria-hidden=`true`></svg>
    </div>
    <div class=`sec-card sec-card-jwt-issued`>
      <div class=`sec-card-title`>JWT &mdash; Issued</div>
      <div class=`sec-card-val` id=`val-jwt-issued-total`>0</div>
      <div class=`sec-card-sub`>lifetime &bull;
        <span id=`val-jwt-issued-1h`>0</span> last hour</div>
      <svg id=`spark-jwt-issued` class=`sparkline` aria-hidden=`true`></svg>
    </div>
  </div>
  <div class=`card`>
    <h2>Auth Backend</h2>
    <table class=`info-table`>
      <tbody>
        <tr><td style=`width:8rem;color:var(--muted)`>Method</td>
            <td>" +:+
  kind a +:+
  html "</td></tr>
        <tr><td style=`color:var(--muted)`>Detail</td>
            <td class=`mono`>" +:+
  html_escape (detail a) +:+
  "</td></tr>
        " +:+
  jwt_row +:+
  "
      </tbody>
    </table>
  </div>
</section>"
  end.

Definition cert_class (expiry_secs : Z) : string :=
  if (expiry_secs <? 7 * 86400)%Z then "cert-crit"
  else if (expiry_secs <? 30 * 86400)%Z then "cert-warn" else "cert-ok".

Definition cert_row (now : Z) (c : Acme.CertState) : string :=
  let cls := cert_class (Acme.expiry_ts c - now) in
  let status := if String.eqb cls "cert-ok" then "OK" else if String.eqb cls "cert-warn" then "Expiring soon" else "Critical" in
  html "<tr><td class=`mono`>" +:+
  html_escape (String.concat ", " (Acme.cs_domains c)) +:+
  html "</td><td class=`" +:+
  cls +:+
  html " mono`>" +:+
  html_escape (fmt_unix_ts (Acme.expiry_ts c)) +:+
  html "</td><td class=`mono`>" +:+
  html_escape (fmt_unix_ts (Acme.next_renewal_ts c)) +:+
  html "</td><td><span class=`badge " +:+
  cls +:+
  html "`>" +:+
  status +:+
  "</span></td></tr>".

Definition certs_section (now : Z) (certs : list Acme.CertState) : string :=
  let display := match certs with [] => html " style=`display:none`" | _ => "" end in
  let rows := concat_map (cert_row now) certs in
  html "<section id=`certs-section` class=`section`" +:+
  display +:+
  html ">
  <h2>TLS Certificates</h2>
  <div class=`card`>
    <table class=`info-table`>
      <thead>
        <tr>
          <th>Domain(s)</th>
          <th>Expires</th>
          <th>Renewal</th>
          <th>Status</th>
        </tr>
      </thead>
      <tbody>" +:+
  rows +:+
  "</tbody>
    </table>
  </div>
</section>".

Definition listener_row (l : ListenerSummary) : string :=
  let domains := match acme_domains l with [] => "&mdash;" | ds => html_escape (String.concat ", " ds) end in
  let max_conn := match max_connections l with None => "&mdash;" | Some n => fmt_num n end in
  let timeout := match handler_timeout_secs l with None => "&mdash;" | Some s => dec s +:+ " s" end in
  html "<tr><td class=`mono`>" +:+
  html_escape (address l) +:+
  "</td><td>" +:+
  html_escape (protocol l) +:+
  "</td><td>" +:+
  domains +:+
  "</td><td>" +:+
  max_conn +:+
  "</td><td>" +:+
  timeout +:+
  "</td></tr>".

Definition listeners_section (ls : list ListenerSummary) : string :=
  match ls with
  | [] => ""
  | _ => let rows := concat_map listener_row ls in
      html "<section class=`section` id=`sec-config`>
  <h2>Listeners</h2>
  <div class=`card`>
    <table class=`info-table`>
      <thead>
        <tr>
          <th>Bind Address</th>
          <th>Protocol</th>
          <th>ACME Domains</th>
          <th>Max Conn</th>
          <th>Handler Timeout</th>
        </tr>
      </thead>
      <tbody>" +:+
  rows +:+
  "</tbody>
    </table>
  </div>
</section>"
  end.

Definition vhost_row (v : VHostSummary) : string :=
  let aliases := match vs_aliases v with [] => "&mdash;" | l => html_escape (String.concat ", " l) end in
  let locs := String.concat ", " ((λ l, html "<span class=`mono`>" +:+ html_escape (ls_path l) +:+ html "</span> (" +:+
                html_escape (ls_handler l) +:+ ")") <$> vs_locations v) in
  html "<tr><td class=`mono`>" +:+
  html_escape (vs_name v) +:+
  "</td><td>" +:+
  aliases +:+
  "</td><td>" +:+
  locs +:+
  "</td></tr>".

Definition vhosts_section (vs : list VHostSummary) : string :=
  match vs with
  | [] => ""
  | _ => let rows := concat_map vhost_row vs in
      html "<section class=`section` id=`sec-vhosts`>
  <h2>Virtual Hosts</h2>
  <div class=`card`>
    <table class=`info-table`>
      <thead>
        <tr>
          <th>Name</th>
          <th>Aliases</th>
          <th>Locations</th>
        </tr>
      </thead>
      <tbody>" +:+
  rows +:+
  "</tbody>
    </table>
  </div>
</section>"
  end.

Definition has_proxy_listener (sum : ServerSummary) : bool :=
  existsb (λ l, String.eqb (protocol l) "stream" || starts_with "TLS-stream" (protocol l) ||
                String.eqb (protocol l) "dgram-proxy") (sm_listeners sum).

Definition upstream_row_html (u : UpstreamRow) : string :=
  let '(cls, state) := if u_ejected u then ("cert-crit", "Ejected") else if u_healthy u then ("cert-ok", "Healthy")
                       else ("cert-warn", "Unhealthy") in
  let group := match u_group u with
               | None => ""
               | Some g => html "<span class=`muted`> [" +:+
  html_escape g +:+
  "]</span>"
               end in
  "<tr><td>" +:+
  html_escape (u_label u) +:+
  html "</td><td class=`mono`>" +:+
  html_escape (u_url u) +:+
  group +:+
  "</td><td>" +:+
  dec (u_weight u) +:+
  "</td><td>" +:+
  dec (u_in_flight u) +:+
  "</td><td>" +:+
  fmt_num (u_requests u) +:+
  "</td><td>" +:+
  fmt_num (u_errors u) +:+
  html "</td><td><span class=`badge " +:+
  cls +:+
  html "`>" +:+
  state +:+
  "</span></td></tr>".

Definition upstream_health_table (ups : list UpstreamRow) : string :=
  let hidden := match ups with [] => html " style=`display:none`" | _ => "" end in
  let rows := concat_map upstream_row_html ups in
  html "<div class=`card` id=`upstreams-card`" +:+
  hidden +:+
  html " style=`margin-top:1rem`>
  <h2>Upstream Health</h2>
  <table class=`info-table`>
    <thead><tr><th>Location</th><th>Upstream</th><th>Weight</th><th>In flight</th><th>Requests</th><th>Errors</th><th>State</th></tr></thead>
    <tbody id=`upstreams-tbody`>" +:+
  rows +:+
  "</tbody>
  </table>
</div>".

Definition class_row (name : string) (c : ClassCounters) : string :=
  html "<tr><td class=`mono`>" +:+
  html_escape name +:+
  "</td><td>" +:+
  fmt_num (total c) +:+
  "</td><td>" +:+
  fmt_num (s2xx c) +:+
  "</td><td>" +:+
  fmt_num (s3xx c) +:+
  "</td><td>" +:+
  fmt_num (s4xx c) +:+
  "</td><td>" +:+
  fmt_num (s5xx c) +:+
  "</td></tr>".

Definition breakdown_table (title head rows : string) : string :=
  html "<div class=`card`><h2>" +:+
  title +:+
  html "</h2><table class=`info-table`><thead><tr><th>" +:+
  head +:+
  "</th><th>Total</th><th>2xx</th><th>3xx</th><th>4xx</th><th>5xx</th></tr></thead><tbody>" +:+
  rows +:+
  "</tbody></table></div>".

Section snapshot.
Context (s : Snapshot f64).

Definition stream_card : string :=
  mcard ("TCP Stream Proxy")
    (mrow ("Active connections") ("val-stream-active") (show_Z (stream_conns_active (s_stream s))) +:+
     mrow ("Total connections") ("val-stream-total") (fmt_num (stream_conns_total (s_stream s))) +:+
     mrow ("Bytes client&rarr;upstream") ("val-stream-in") (fmt_bytes (stream_bytes_in (s_stream s))) +:+
     mrow ("Bytes upstream&rarr;client") ("val-stream-out") (fmt_bytes (stream_bytes_out (s_stream s)))).

Definition dgram_card : string :=
  mcard ("UDP / Datagram Proxy")
    (mrow ("Active flows") ("val-dgram-flows") (fmt_num (dg_flows_active (s_datagram s))) +:+
     mrow ("Datagrams in / out") ("val-dgram-pkts") (fmt_num (dg_datagrams_in (s_datagram s)) +:+ " / " +:+ fmt_num (dg_datagrams_out (s_datagram s))) +:+
     mrow ("Bytes in / out") ("val-dgram-bytes") (fmt_bytes (dg_bytes_in (s_datagram s)) +:+ " / " +:+ fmt_bytes (dg_bytes_out (s_datagram s))) +:+
     mrow ("Flows created") ("val-dgram-create") (fmt_num (dg_flow_create (s_datagram s))) +:+
     mrow ("Flows evicted") ("val-dgram-evict") (fmt_num (dg_flow_evict (s_datagram s)))).

Definition lb_card : string :=
  mcard ("Reverse-Proxy Load Balancer")
    (mrow ("Upstream picks") ("val-lb-picks") (fmt_num (lb_picks (s_lb s))) +:+
     mrow ("No upstream available") ("val-lb-noup") (fmt_num (lb_no_upstream (s_lb s))) +:+
     mrow ("Retries") ("val-lb-retries") (fmt_num (lb_retries (s_lb s))) +:+
     mrow ("Passive ejections") ("val-lb-eject") (fmt_num (lb_ejections (s_lb s))) +:+
     mrow ("Health: checks") ("val-lb-hc") (fmt_num (lb_health_checks (s_lb s))) +:+
     mrow ("Health: failures / recoveries") ("val-lb-hfr") (fmt_num (lb_health_failures (s_lb s)) +:+ " / " +:+ fmt_num (lb_health_recoveries (s_lb s))) +:+
     mrow ("Upstream bytes in / out") ("val-up-bytes") (fmt_bytes (up_bytes_in (s_upstream s)) +:+ " / " +:+ fmt_bytes (up_bytes_out (s_upstream s))) +:+
     mrow ("Upstream connect errors") ("val-up-cerr") (fmt_num (up_connect_errors (s_upstream s)))).

Definition proxying_section (sum : ServerSummary) (upstreams : list UpstreamRow) : string :=
  let active :=
    has_proxy_listener sum ||
    match upstreams with [] => false | _ => true end ||
    (0 <? stream_conns_total (s_stream s)) ||
    (0 <? dg_flow_create (s_datagram s)) ||
    (0 <? lb_picks (s_lb s)) ||
    (0 <? up_bytes_in (s_upstream s)) ||
    (0 <? up_bytes_out (s_upstream s)) in
  if negb active then ""
  else html "<section class=`section` id=`sec-proxying`><h2>Proxying</h2><div class=`grid-2`>" +:+
  stream_card +:+
  dgram_card +:+
  lb_card +:+
  "</div>" +:+
  upstream_health_table upstreams +:+
  "</section>".

Definition conns_card : string :=
  mcard ("Connections")
    (mrow ("HTTP connections active") ("val-http-conns-active") (show_Z (hc_active (s_http_conns s))) +:+
     mrow ("HTTP connections total") ("val-http-conns-total") (fmt_num (hc_total (s_http_conns s))) +:+
     mrow ("TLS handshakes") ("val-tls-hs") (fmt_num (tls_handshakes (s_tls s))) +:+
     mrow ("TLS handshake failures") ("val-tls-hs-fail") (fmt_num (tls_failures (s_tls s))) +:+
     mrow ("TLS handshake timeouts") ("val-tls-hs-to") (fmt_num (tls_timeouts (s_tls s)))).

Definition lifecycle_card : string :=
  mcard ("Certificate Lifecycle")
    (mrow ("ACME issuances") ("val-acme-iss") (fmt_num (acme_issuances (s_acme s))) +:+
     mrow ("ACME issuance failures") ("val-acme-iss-fail") (fmt_num (acme_issuance_failures (s_acme s))) +:+
     mrow ("ACME renewals") ("val-acme-ren") (fmt_num (acme_renewals (s_acme s))) +:+
     mrow ("ACME renewal failures") ("val-acme-ren-fail") (fmt_num (acme_renewal_failures (s_acme s))) +:+
     mrow ("OCSP refreshes") ("val-ocsp") (fmt_num (ocsp_refreshes (s_ocsp s))) +:+
     mrow ("OCSP refresh failures") ("val-ocsp-fail") (fmt_num (ocsp_refresh_failures (s_ocsp s)))).

Definition network_section : string :=
  let active :=
    (0 <? tls_handshakes (s_tls s)) ||
    (0 <? hc_total (s_http_conns s)) ||
    (0 <? ocsp_refreshes (s_ocsp s)) ||
    (0 <? ocsp_refresh_failures (s_ocsp s)) ||
    (0 <? acme_issuances (s_acme s)) ||
    (0 <? acme_renewals (s_acme s)) ||
    (0 <? acme_issuance_failures (s_acme s)) ||
    (0 <? acme_renewal_failures (s_acme s)) in
  if negb active then ""
  else html "<section class=`section` id=`sec-network`><h2>Network &amp; TLS</h2><div class=`grid-2`>" +:+
  conns_card +:+
  lifecycle_card +:+
  "</div></section>".

Definition oidc_active : bool :=
  (0 <? oidc_discoveries (s_oidc s)) ||
  (0 <? oidc_refreshes (s_oidc s)) ||
  (0 <? oidc_logouts (s_oidc s)) ||
  (0 <? oidc_bearer_validations (s_oidc s)) ||
  (0 <? oidc_discovery_failures (s_oidc s)) ||
  (0 <? oidc_bearer_failures (s_oidc s)).

Definition rl_active : bool := (0 <? rl_triggers (s_rate_limit s)) || (0 <? rl_active_keys (s_rate_limit s)).

Definition geo_active : bool := (0 <? geo_lookups (s_geoip s)).

Definition oidc_card : string :=
  mcard ("OIDC / OAuth")
    (mrow ("Discoveries") ("val-oidc-disc") (fmt_num (oidc_discoveries (s_oidc s))) +:+
     mrow ("Discovery failures") ("val-oidc-disc-fail") (fmt_num (oidc_discovery_failures (s_oidc s))) +:+
     mrow ("Token refreshes") ("val-oidc-ref") (fmt_num (oidc_refreshes (s_oidc s))) +:+
     mrow ("Refresh failures") ("val-oidc-ref-fail") (fmt_num (oidc_refresh_failures (s_oidc s))) +:+
     mrow ("Logouts") ("val-oidc-logout") (fmt_num (oidc_logouts (s_oidc s))) +:+
     mrow ("Bearer validations") ("val-oidc-bearer") (fmt_num (oidc_bearer_validations (s_oidc s))) +:+
     mrow ("Bearer failures") ("val-oidc-bearer-fail") (fmt_num (oidc_bearer_failures (s_oidc s))) +:+
     mrow ("Issuer mismatches") ("val-oidc-iss") (fmt_num (oidc_callback_iss_mismatches (s_oidc s)))).

Definition rate_limit_card : string :=
  mcard ("Rate Limiting")
    (mrow ("Requests denied (429)") ("val-rl-triggers") (fmt_num (rl_triggers (s_rate_limit s))) +:+
     mrow ("Active bucket keys") ("val-rl-keys") (fmt_num (rl_active_keys (s_rate_limit s)))).

Definition geoip_card : string :=
  mcard ("GeoIP")
    (mrow ("Lookups") ("val-geoip") (fmt_num (geo_lookups (s_geoip s))) +:+
     mrow ("No-country misses") ("val-geoip-miss") (fmt_num (geo_misses (s_geoip s)))).

Definition security_extra_section : string :=
  if negb oidc_active && negb rl_active && negb geo_active then ""
  else
    let cards := (if oidc_active then oidc_card else "") +:+ (if rl_active then rate_limit_card else "") +:+
                 (if geo_active then geoip_card else "") in
    html "<section class=`section` id=`sec-security-extra`><h2>Access &amp; Identity</h2><div class=`grid-2`>" +:+
  cards +:+
  "</div></section>".

Definition compression_section : string :=
  if (comp_responses (s_compression s) =? 0) && (comp_skipped (s_compression s) =? 0) then ""
  else
    let saved :=
      if 0 <? comp_bytes_in (s_compression s) then
        let r := f_sub f_1 (f_div (of_u64 (comp_bytes_out (s_compression s))) (of_u64 (comp_bytes_in (s_compression s)))) in
        fixed 1 (f_max (f_mul r f_100) f_0) +:+ "%"
      else "—" in
    let card := mcard ("Response Compression")
    (mrow ("Responses encoded") ("val-cmp-resp") (fmt_num (comp_responses (s_compression s))) +:+
     mrow ("Negotiated but skipped") ("val-cmp-skip") (fmt_num (comp_skipped (s_compression s))) +:+
     mrow ("gzip / brotli / zstd") ("val-cmp-split") (fmt_num (comp_gzip (s_compression s)) +:+ " / " +:+ fmt_num (comp_brotli (s_compression s)) +:+ " / " +:+ fmt_num (comp_zstd (s_compression s))) +:+
     mrow ("Bytes in &rarr; out") ("val-cmp-bytes") (fmt_bytes (comp_bytes_in (s_compression s)) +:+ " &rarr; " +:+ fmt_bytes (comp_bytes_out (s_compression s))) +:+
     mrow ("Bandwidth saved") ("val-cmp-saved") (saved)) in
    html "<section class=`section` id=`sec-compression`><h2>Compression</h2><div class=`grid-2`>" +:+
  card +:+
  "</div></section>".

Definition be (title id : string) (b : BackendSnap) : string :=
  mcard (title)
    (mrow ("Requests") (id) (fmt_num (be_requests b)) +:+
     mrow ("Errors") (("val-" +:+
  id +:+
  "-err")) (fmt_num (be_errors b)) +:+
     mrow ("In flight") (("val-" +:+
  id +:+
  "-inf")) (show_Z (be_in_flight b))).

Definition cgi_card : string :=
  mcard ("CGI")
    (mrow ("Requests") ("val-cgi-req") (fmt_num (cgi_requests (s_cgi s))) +:+
     mrow ("Errors") ("val-cgi-err") (fmt_num (cgi_errors (s_cgi s))) +:+
     mrow ("In flight") ("val-cgi-inf") (show_Z (cgi_in_flight (s_cgi s))) +:+
     mrow ("Spawn failures") ("val-cgi-spawn") (fmt_num (cgi_spawn_failures (s_cgi s))) +:+
     mrow ("Timeouts") ("val-cgi-to") (fmt_num (cgi_timeouts (s_cgi s)))).

Definition static_card : string :=
  mcard ("Static Files")
    (mrow ("Bytes served") ("val-static-bytes") (fmt_bytes (static_bytes_served (s_static_files s))) +:+
     mrow ("304 Not Modified") ("val-static-304") (fmt_num (static_not_modified (s_static_files s))) +:+
     mrow ("206 Range responses") ("val-static-206") (fmt_num (static_range (s_static_files s)))).

Definition backends_section : string :=
  let active :=
    (0 <? be_requests (s_fcgi s)) ||
    (0 <? be_requests (s_scgi s)) ||
    (0 <? cgi_requests (s_cgi s)) ||
    (0 <? static_bytes_served (s_static_files s)) ||
    (0 <? static_not_modified (s_static_files s)) in
  if negb active then ""
  else html "<section class=`section` id=`sec-backends`><h2>Backends</h2><div class=`grid-2`>" +:+
  be "FastCGI" "fcgi" (s_fcgi s) +:+
  be "SCGI" "scgi" (s_scgi s) +:+
  cgi_card +:+
  static_card +:+
  "</div></section>".

Definition breakdown_section : string :=
  let handler_rows := concat_map (λ r, class_row r.1 r.2) (List.filter (λ r, 0 <? total r.2) (s_by_handler s)) in
  let vhost_rows := concat_map (λ r, class_row r.1 r.2) (s_by_vhost s) in
  if negb (nonempty handler_rows) && negb (nonempty vhost_rows) then ""
  else html "<section class=`section` id=`sec-breakdown`><h2>Traffic Breakdown</h2><div class=`grid-2`>" +:+
  breakdown_table "By Handler" "Handler" handler_rows +:+
  breakdown_table "By Vhost" "Vhost" vhost_rows +:+
  "</div></section>".

Definition nav (present : bool) (href label : string) : string :=
  if present then html "<a class=`nav-link` href=`" +:+
  href +:+
  html "`>" +:+
  label +:+
  "</a>" else "".

Definition group (present : bool) (label : string) : string :=
  if present then html "<div class=`nav-group-label`>" +:+
  label +:+
  "</div>" else "".

Definition trim_slashes (s : string) : string := trim_end_by (λ c, Ascii.eqb c "/") s.

Section parts.
Context (sum : ServerSummary) (certs : list Acme.CertState) (upstreams : list UpstreamRow) (matched_prefix : string)
  (now : Z) (pid : N).

(** The head of the page and its side bar. *)
Definition sidebar : string :=
  let icon_src := trim_slashes matched_prefix +:+ "/" +:+ ICON_FILE in
  let favicon_src := trim_slashes matched_prefix +:+ "/" +:+ FAVICON_FILE in
  let proxying_sec := proxying_section sum upstreams in
  let has_auth := match sm_auth sum with Some _ => true | None => false end in
  let has_system := match s_memory_kb s, s_cpu_percent s with None, None => false | _, _ => true end in
  let auth_nav := nav has_auth "#sec-security" "Security" in
  let mem_nav := nav has_system "#sec-system" "System" in
  let proxying_nav := nav (nonempty proxying_sec) "#sec-proxying" "Proxying" in
  let network_nav := nav (nonempty network_section) "#sec-network" "Network & TLS" in
  let security_extra_nav := nav (nonempty security_extra_section) "#sec-security-extra" "Access & Identity" in
  let compression_nav := nav (nonempty compression_section) "#sec-compression" "Compression" in
  let backends_nav := nav (nonempty backends_section) "#sec-backends" "Backends" in
  let breakdown_nav := nav (nonempty breakdown_section) "#sec-breakdown" "Traffic Breakdown" in
  let proxying_nav_group := group (nonempty proxying_sec) "Proxying" in
  let network_nav_group := group (nonempty network_section) "Network &amp; TLS" in
  let security_group := group (has_auth || nonempty security_extra_section) "Security" in
  let backends_nav_group := group (nonempty backends_section) "Backends" in
  let mem_nav_group := group has_system "System" in
  html "<!DOCTYPE html>
<html lang=`en`>
<head>
<meta charset=`UTF-8`>
<meta name=`viewport` content=`width=device-width,initial-scale=1`>
<title>hypershunt — Status</title>
<link rel=`icon` type=`image/svg+xml` href=`" +:+
  favicon_src +:+
  html "`>
<style>" +:+
  CSS +:+
  html "</style>
</head>
<body>

<aside class=`sidebar`>
  <div class=`sidebar-brand`>
    <a id=`logo-link` href=`/` style=`display:block`><img class=`brand-logo` src=`" +:+
  icon_src +:+
  html "` alt=`hypershunt` width=`140`></a>
  </div>
  <div class=`sidebar-live`>
    <span class=`live-dot` id=`live-dot`></span>
    <span id=`live-label`>Live</span>
  </div>
  <details>
    <summary>Navigation</summary>
    <nav class=`sidebar-nav`>
      <div class=`nav-group-label`>Traffic</div>
      <a class=`nav-link` href=`#sec-overview`>Overview</a>
      <a class=`nav-link` href=`#sec-rates`>Request Rate</a>
      <a class=`nav-link` href=`#sec-status`>Status Codes</a>
      <a class=`nav-link` href=`#sec-latency`>Latency</a>
      <a class=`nav-link` href=`#sec-paths`>Top Paths</a>
      " +:+
  compression_nav +:+
  "
      " +:+
  breakdown_nav +:+
  "
      " +:+
  proxying_nav_group +:+
  proxying_nav +:+
  "
      " +:+
  network_nav_group +:+
  network_nav +:+
  "
      " +:+
  security_group +:+
  auth_nav +:+
  security_extra_nav +:+
  "
      " +:+
  backends_nav_group +:+
  backends_nav +:+
  "
      " +:+
  mem_nav_group +:+
  mem_nav +:+
  html "
      <div class=`nav-group-label`>Configuration</div>
      <a class=`nav-link` href=`#sec-certs`>Certificates</a>
      <a class=`nav-link` href=`#sec-config`>Listeners</a>
      <a class=`nav-link` href=`#sec-vhosts`>Virtual Hosts</a>
      <a class=`nav-link` href=`#sec-server`>Server</a>
    </nav>
  </details>
  <div class=`sidebar-controls`>
    <div>
      <label for=`period-sel`>Period</label>
      <select id=`period-sel`>
        <option value=`5min`>5 min</option>
        <option value=`15min` selected>15 min</option>
        <option value=`1h`>1 hour</option>
        <option value=`3h`>3 hours</option>
        <option value=`6h`>6 hours</option>
        <option value=`12h`>12 hours</option>
        <option value=`1d`>1 day</option>
        <option value=`7d`>7 days</option>
        <option value=`30d`>30 days</option>
        <option value=`1mo`>1 month</option>
        <option value=`3mo`>3 months</option>
        <option value=`6mo`>6 months</option>
        <option value=`1y`>1 year</option>
      </select>
    </div>
    <div>
      <label for=`refresh-sel`>Refresh</label>
      <select id=`refresh-sel`>
        <option value=`3000` selected>3 s</option>
        <option value=`5000`>5 s</option>
        <option value=`15000`>15 s</option>
        <option value=`30000`>30 s</option>
        <option value=`60000`>60 s</option>
      </select>
    </div>
  </div>
  <div class=`sidebar-footer`>hypershunt v" +:+
  version sum +:+
  "</div>
</aside>

".

(** The counters every page has. *)
Definition traffic : string :=
  let lat6 := legacy6 (s_latency s) in
  html "<main class=`main`>
<div class=`main-inner`>

<h1 style=`font-size:1.25rem;font-weight:700;color:var(--accent);
  margin:0 0 1.5rem;letter-spacing:-.02em`>Server Status</h1>

<section class=`section` id=`sec-overview`>
  <div class=`grid-3`>
    <div class=`card`>
      <div class=`stat-label`>Uptime</div>
      <div class=`stat-val` id=`val-uptime`>" +:+
  uptime_human (s_uptime s) +:+
  html "</div>
    </div>
    <div class=`card`>
      <div class=`stat-label`>Active Requests</div>
      <div class=`stat-val` id=`val-active`>" +:+
  show_Z (s_requests_active s) +:+
  html "</div>
    </div>
    <div class=`card`>
      <div class=`stat-label`>Total Requests</div>
      <div class=`stat-val` id=`val-total`>" +:+
  fmt_num (s_requests_total s) +:+
  html "</div>
    </div>
  </div>
</section>

<section class=`section` id=`sec-rates`>
  <h2>Request Rate</h2>
  <div class=`grid-2`>
    <div class=`card`>
      <table class=`rate-table`>
        <thead><tr><th>Window</th><th>req&thinsp;/&thinsp;s</th></tr></thead>
        <tbody>
          <tr><td>Last 5 s</td>
              <td id=`val-rate-cur`>" +:+
  fixed 2 (s_rate_current s) +:+
  html "</td></tr>
          <tr><td>1 min avg</td>
              <td id=`val-rate-1m`>" +:+
  fixed 2 (s_rate_1min s) +:+
  html "</td></tr>
          <tr><td>5 min avg</td>
              <td id=`val-rate-5m`>" +:+
  fixed 2 (s_rate_5min s) +:+
  html "</td></tr>
          <tr><td>15 min avg</td>
              <td id=`val-rate-15m`>" +:+
  fixed 2 (s_rate_15min s) +:+
  html "</td></tr>
        </tbody>
      </table>
      <svg id=`spark-rate` class=`sparkline` aria-hidden=`true`></svg>
    </div>
    <div class=`card` id=`sec-status`>
      <h2>Status Codes</h2>
      <div class=`sc-grid`>
        <div class=`sc sc-2xx`>
          <div class=`sc-val` id=`val-2xx`>" +:+
  fmt_num (s_status_2xx s) +:+
  html "</div>
          <div class=`sc-label`>2xx</div>
        </div>
        <div class=`sc sc-3xx`>
          <div class=`sc-val` id=`val-3xx`>" +:+
  fmt_num (s_status_3xx s) +:+
  html "</div>
          <div class=`sc-label`>3xx</div>
        </div>
        <div class=`sc sc-4xx`>
          <div class=`sc-val` id=`val-4xx`>" +:+
  fmt_num (s_status_4xx s) +:+
  html "</div>
          <div class=`sc-label`>4xx</div>
        </div>
        <div class=`sc sc-5xx`>
          <div class=`sc-val` id=`val-5xx`>" +:+
  fmt_num (s_status_5xx s) +:+
  html "</div>
          <div class=`sc-label`>5xx</div>
        </div>
      </div>
    </div>
    <div class=`card`>
      <div class=`stat-label`>4xx Error Rate</div>
      <svg id=`spark-4xx` class=`sparkline` aria-hidden=`true`></svg>
    </div>
    <div class=`card`>
      <div class=`stat-label`>5xx Error Rate</div>
      <svg id=`spark-5xx` class=`sparkline` aria-hidden=`true`></svg>
    </div>
  </div>
</section>

<section class=`section` id=`sec-latency`>
  <h2>Latency Distribution</h2>
  <div class=`card`>" +:+
  latency_bars_html lat6 (Archive.sum64 lat6) +:+
  "</div>
</section>

".

(** The sections, the server and the script. *)
Definition sections : string :=
  let resource_sec := resource_section (s_memory_kb s) (s_cpu_percent s) in
  let auth_sec := auth_section (sm_auth sum) in
  let compression_sec := compression_section in
  let breakdown_sec := breakdown_section in
  let proxying_sec := proxying_section sum upstreams in
  let network_sec := network_section in
  let security_extra_sec := security_extra_section in
  let backends_sec := backends_section in
  let certs_sec := certs_section now certs in
  let listeners_sec := listeners_section (sm_listeners sum) in
  let vhosts_sec := vhosts_section (sm_vhosts sum) in
  resource_sec +:+
  "

" +:+
  auth_sec +:+
  html "

<section class=`section` id=`sec-paths`>
  <h2>Top Paths</h2>
  <div class=`card`>
    <table class=`info-table`>
      <thead>
        <tr><th>Path</th><th style=`text-align:right`>Hits</th></tr>
      </thead>
      <tbody id=`paths-tbody`>
        <tr><td colspan=`2`
          style=`color:var(--muted);font-style:italic`
          >Loading&hellip;</td></tr>
      </tbody>
    </table>
  </div>
</section>

" +:+
  compression_sec +:+
  "

" +:+
  breakdown_sec +:+
  "

" +:+
  proxying_sec +:+
  "

" +:+
  network_sec +:+
  "

" +:+
  security_extra_sec +:+
  "

" +:+
  backends_sec +:+
  "

" +:+
  certs_sec +:+
  "

" +:+
  listeners_sec +:+
  "

" +:+
  vhosts_sec +:+
  html "

<section class=`section` id=`sec-server`>
  <h2>Server</h2>
  <div class=`card`>
    <table class=`info-table`>
      <tbody>
        <tr><td style=`width:8rem;color:var(--muted)`>Version</td>
            <td><span class=`badge`>v" +:+
  version sum +:+
  html "</span></td></tr>
        <tr><td style=`color:var(--muted)`>PID</td>
            <td>" +:+
  dec pid +:+
  "</td></tr>
      </tbody>
    </table>
  </div>
</section>

</div><!-- main-inner -->
</main>
" +:+
  LIVE_JS +:+
  "
</body>
</html>".

Definition page : string := sidebar +:+ traffic +:+ sections.

End parts.

End snapshot.

(** The answer with the page. *)
Definition render_html `{Http} (s : Snapshot f64) (sum : ServerSummary) (certs : list Acme.CertState)
    (upstreams : list UpstreamRow) (matched_prefix : string) (now : Z) (pid : N) : option HttpResponse :=
  Errors.build 200 [("Content-Type", "text/html; charset=utf-8")] (page s sum certs upstreams matched_prefix now pid).

(** * The handler *)

Record StatusHandler := {
  h_summary : ServerSummary;
  h_cert_state : option (list Acme.CertState);
  h_lb_registry : option (list LbPoolEntry);
}.

Section handler.
Context `{Http} (to_string : Json f64 → string) (icon_svg favicon_svg : string).
Context (rate : N → N → f64) (cpu_pct_from_hp : N → option f64) (iter_map : gmap string N → list (string * N)).

(** [StatusHandler::handle]; [None] is a panic. *)
Definition handle (h : StatusHandler) (s : Snapshot f64) (a : Archive.Archives) (current : gmap string N)
    (path matched_prefix : string) (query accept if_none_match : option string) (now_ms pid : N) : option HttpResponse :=
  let read period (k : list Archive.Slot * N → list (string * N) → option HttpResponse) :=
    sp ← Archive.sparkline_for_period a period;
    top_paths ← Archive.paths_for_period iter_map a current period;
    k sp top_paths in
  let certs := default [] (h_cert_state h) in
  let upstreams := read_upstreams (h_lb_registry h) now_ms in
  match asked path query accept with
  | Icon => serve_cached_asset icon_svg "image/svg+xml" if_none_match
  | Favicon => serve_cached_asset favicon_svg "image/svg+xml" if_none_match
  | JsonDoc period => read period (λ sp top_paths,
      json_response to_string (render_json s (sparkline_data rate cpu_pct_from_hp sp.1 sp.2) top_paths period (h_summary h)
        certs upstreams pid))
  | HtmlPage period => read period (λ _ _,
      render_html s (h_summary h) certs upstreams matched_prefix (Z.of_N (now_ms / 1000)) pid)
  end.

End handler.

(** * Names *)

(** What a configuration or a client chooses: every name replaced by [f]. *)
Section rename.
Context (f : string → string).

Definition map_fst {B} (p : string * B) : string * B := (f p.1, p.2).

Definition rename_auth (a : AuthDesc) : AuthDesc :=
  {| kind := kind a; detail := f (detail a); has_jwt_session := has_jwt_session a; jwt_validity_secs := jwt_validity_secs a |}.

Definition rename_listener (l : ListenerSummary) : ListenerSummary :=
  {| address := f (address l); protocol := protocol l; acme_domains := f <$> acme_domains l;
     max_connections := max_connections l; handler_timeout_secs := handler_timeout_secs l |}.

Definition rename_vhost (v : VHostSummary) : VHostSummary :=
  {| vs_name := f (vs_name v); vs_aliases := f <$> vs_aliases v;
     vs_locations := (λ l, {| ls_path := f (ls_path l); ls_handler := ls_handler l |}) <$> vs_locations v |}.

Definition rename_summary (sum : ServerSummary) : ServerSummary :=
  {| version := version sum; sm_listeners := rename_listener <$> sm_listeners sum;
     sm_vhosts := rename_vhost <$> sm_vhosts sum; sm_auth := rename_auth <$> sm_auth sum |}.

Definition rename_cert (c : Acme.CertState) : Acme.CertState :=
  {| Acme.cs_domains := f <$> Acme.cs_domains c; Acme.expiry_ts := Acme.expiry_ts c;
     Acme.next_renewal_ts := Acme.next_renewal_ts c |}.

Definition rename_upstream (u : UpstreamRow) : UpstreamRow :=
  {| u_label := f (u_label u); u_url := f (u_url u); u_weight := u_weight u; u_in_flight := u_in_flight u;
     u_healthy := u_healthy u; u_ejected := u_ejected u; u_group := f <$> u_group u;
     u_consecutive_errors := u_consecutive_errors u; u_ejected_remaining_ms := u_ejected_remaining_ms u;
     u_requests := u_requests u; u_errors := u_errors u |}.

Definition rename_snapshot (s : Snapshot f64) : Snapshot f64 :=
  {| s_uptime := s_uptime s; s_requests_total := s_requests_total s; s_requests_active := s_requests_active s;
     s_status_2xx := s_status_2xx s; s_status_3xx := s_status_3xx s; s_status_4xx := s_status_4xx s;
     s_status_5xx := s_status_5xx s; s_latency := s_latency s; s_latency_sum_us := s_latency_sum_us s;
     s_rate_current := s_rate_current s; s_rate_1min := s_rate_1min s; s_rate_5min := s_rate_5min s;
     s_rate_15min := s_rate_15min s; s_memory_kb := s_memory_kb s; s_cpu_percent := s_cpu_percent s;
     s_auth_failures_total := s_auth_failures_total s; s_jwt_failures_total := s_jwt_failures_total s;
     s_jwt_expiries_total := s_jwt_expiries_total s; s_jwt_issued_total := s_jwt_issued_total s;
     s_auth_fail_1h := s_auth_fail_1h s; s_jwt_fail_1h := s_jwt_fail_1h s; s_jwt_expiry_1h := s_jwt_expiry_1h s;
     s_jwt_issued_1h := s_jwt_issued_1h s; s_quic_handshakes_total := s_quic_handshakes_total s;
     s_quic_handshake_failures_total := s_quic_handshake_failures_total s;
     s_quic_connections_active := s_quic_connections_active s; s_quic_requests_total := s_quic_requests_total s;
     s_quic_outbound_handshakes_total := s_quic_outbound_handshakes_total s; s_stream := s_stream s;
     s_datagram := s_datagram s; s_compression := s_compression s; s_tls := s_tls s; s_geoip := s_geoip s;
     s_shutdown := s_shutdown s; s_acme := s_acme s; s_ocsp := s_ocsp s; s_lb := s_lb s;
     s_upstream := s_upstream s; s_rate_limit := s_rate_limit s; s_cache := s_cache s; s_oidc := s_oidc s;
     s_http_conns := s_http_conns s; s_fcgi := s_fcgi s; s_scgi := s_scgi s; s_cgi := s_cgi s;
     s_static_files := s_static_files s; s_by_handler := map_fst <$> s_by_handler s;
     s_by_vhost := map_fst <$> s_by_vhost s; s_by_listener := s_by_listener s |}.

End rename.

End page.

(** * Escaping *)

(** What a browser shows for one of the entities. *)
Fixpoint unescape (s : string) : string :=
  match s with
  | String "&" (String "a" (String "m" (String "p" (String ";" s')))) => String "&" (unescape s')
  | String "&" (String "l" (String "t" (String ";" s'))) => String "<" (unescape s')
  | String "&" (String "g" (String "t" (String ";" s'))) => String ">" (unescape s')
  | String "&" (String "q" (String "u" (String "o" (String "t" (String ";" s'))))) => String QUOTE (unescape s')
  | String c s' => String c (unescape s')
  | "" => ""
  end.

Definition escape1 (c : ascii) : string :=
  if Ascii.eqb c "&" then "&amp;" else if Ascii.eqb c "<" then "&lt;" else if Ascii.eqb c ">" then "&gt;"
  else if Ascii.eqb c QUOTE then "&quot;" else String c "".

Lemma html_escape_cons c s : html_escape (String c s) = escape1 c +:+ html_escape s.
Proof.
  unfold html_escape, escape1. cbn [Errors.replace_char].
  destruct (Ascii.eqb_spec c "&") as [->|Ha]; [done|].
  destruct (Ascii.eqb_spec c "<") as [->|Hl]; [done|]. cbn [Errors.replace_char].
  apply Ascii.eqb_neq in Ha, Hl. rewrite Hl. cbn [Errors.replace_char].
  destruct (Ascii.eqb_spec c ">") as [->|Hg]; [done|]. cbn [Errors.replace_char].
  by destruct (Ascii.eqb c QUOTE).
Qed.

Lemma unescape_plain c s : Ascii.eqb c "&" = false → unescape (String c s) = String c (unescape s).
Proof. intros Hc%Ascii.eqb_neq. destruct c as [[] [] [] [] [] [] [] []]; try done. Qed.

(** Escaped text shows what it was made from. *)
Theorem escape_shows s : unescape (html_escape s) = s.
Proof.
  induction s as [|c s IH]; [done|]. rewrite html_escape_cons. unfold escape1.
  revert IH. generalize (html_escape s). intros t IH.
  destruct (Ascii.eqb_spec c "&") as [->|Ha]; [exact (f_equal (String _) IH)|].
  destruct (Ascii.eqb_spec c "<") as [->|Hl]; [exact (f_equal (String _) IH)|].
  destruct (Ascii.eqb_spec c ">") as [->|Hg]; [exact (f_equal (String _) IH)|].
  destruct (Ascii.eqb_spec c QUOTE) as [->|Hq]; [exact (f_equal (String _) IH)|].
  change (String c EmptyString +:+ t) with (String c t). rewrite unescape_plain, IH; [done|]. by apply Ascii.eqb_neq.
Qed.

(** * Reading markup *)

(** A reader goes through a text with a state, and keeps some characters. *)
Section scan.
Context {S : Type} (next : S → ascii → S * bool).

Fixpoint scan (q : S) (s : string) : string * S :=
  match s with
  | "" => ("", q)
  | String c s' =>
      let '(q', keep) := next q c in
      let '(out, q'') := scan q' s' in
      (if keep then String c out else out, q'')
  end.

Lemma scan_app q a b :
  scan q (a +:+ b) = let '(o, q') := scan q a in let '(o', q'') := scan q' b in (o +:+ o', q'').
Proof.
  revert q. induction a as [|c a IH]; intros q.
  - change ("" +:+ b) with b. cbn. by destruct (scan q b).
  - change (String c a +:+ b) with (String c (a +:+ b)). cbn [scan]. destruct (next q c) as [q' keep]. rewrite IH.
    destruct (scan q' a) as [o q1]. destruct (scan q1 b) as [o' q2]. by destruct keep.
Qed.

End scan.

(** Where a browser is: in the text of an element, in a tag, or in the quoted
    value of an attribute. *)
Inductive Place := InText | InTag | InValue.

#[global] Instance Place_eq_dec : EqDecision Place.
Proof. solve_decision. Defined.

(** The structure: the tags with their names and the names of their
    attributes, and where values begin and end; not the values. *)
Definition structure_next (q : Place) (c : ascii) : Place * bool :=
  match q with
  | InText => if Ascii.eqb c "<" then (InTag, true) else (InText, false)
  | InTag => if Ascii.eqb c ">" then (InText, true) else if Ascii.eqb c QUOTE then (InValue, true) else (InTag, true)
  | InValue => if Ascii.eqb c QUOTE then (InTag, true) else (InValue, false)
  end.

(** All that stands between a [<] and the next [>], values included. *)
Definition verbatim_next (q : bool) (c : ascii) : bool * bool :=
  if q then (negb (Ascii.eqb c ">"), true) else (Ascii.eqb c "<", Ascii.eqb c "<").

Definition markup (s : string) : string * string :=
  ((scan structure_next InText s).1, (scan verbatim_next false s).1).

(** * Names write no markup *)

(** Two texts that a browser reads alike wherever it is. *)
Definition same_markup (a b : string) : Prop :=
  (∀ q, scan structure_next q a = scan structure_next q b) ∧ (∀ q, scan verbatim_next q a = scan verbatim_next q b).

(** Two texts that it reads alike when it is not among the attributes of a
    tag. *)
Definition same_text (a b : string) : Prop :=
  (∀ q, q ≠ InTag → scan structure_next q a = scan structure_next q b) ∧
  scan verbatim_next false a = scan verbatim_next false b.

#[global] Instance same_markup_equiv : Equivalence same_markup.
Proof. split; unfold same_markup; [done|intros a b []; by split|]. intros a b c [] []. split; congruence. Qed.

#[global] Instance app_same_markup : Proper (same_markup ==> same_markup ==> same_markup) String.append.
Proof.
  intros a a' [Ha Ha'] b b' [Hb Hb']. split; intros q; rewrite !scan_app.
  - rewrite Ha. destruct (scan structure_next q a') as [o q']. by rewrite Hb.
  - rewrite Ha'. destruct (scan verbatim_next q a') as [o q']. by rewrite Hb'.
Qed.

Lemma same_markup_text a b : same_markup a b → same_text a b.
Proof. intros [Ha Hb]. by split. Qed.

(** Markup after which the browser is not among the attributes of a tag. *)
Definition closes (s : string) : bool :=
  forallb (λ q, negb (bool_decide ((scan structure_next q s).2 = InTag))) [InText; InTag; InValue] &&
  forallb (λ q, negb (scan verbatim_next q s).2) [true; false].

Lemma closes_spec s :
  closes s = true →
  (∀ q, (scan structure_next q s).2 ≠ InTag) ∧ ∀ q, (scan verbatim_next q s).2 = false.
Proof.
  unfold closes. rewrite andb_true_iff, !forallb_forall. intros [Hs Hv]. split; intros q.
  - specialize (Hs q ltac:(destruct q; cbn; auto)). by apply negb_true_iff, bool_decide_eq_false in Hs.
  - specialize (Hv q ltac:(destruct q; cbn; auto)). by apply negb_true_iff in Hv.
Qed.

(** A text after markup that leaves no tag open. *)
Lemma text_same l a a' : closes l = true → same_text a a' → same_markup (l +:+ a) (l +:+ a').
Proof.
  intros [Hs Hv]%closes_spec [Ha Ha']. split; intros q; rewrite !scan_app.
  - specialize (Hs q). destruct (scan structure_next q l) as [o q']. cbn in Hs. by rewrite Ha.
  - specialize (Hv q). destruct (scan verbatim_next q l) as [o q']. cbn in Hv. subst q'. by rewrite Ha'.
Qed.

Lemma text_same_app l a a' r r' :
  closes l = true → same_text a a' → same_markup r r' → same_markup (l +:+ a +:+ r) (l +:+ a' +:+ r').
Proof. intros Hl Ha Hr. rewrite <- !str_app_assoc. apply app_same_markup; [by apply text_same|done]. Qed.

(** A name, escaped, leaves the browser where it is. *)
Lemma escape_silent s :
  (∀ q, q ≠ InTag → scan structure_next q (html_escape s) = ("", q)) ∧
  scan verbatim_next false (html_escape s) = ("", false).
Proof.
  assert (∀ c,
    (∀ q, q ≠ InTag → scan structure_next q (escape1 c) = ("", q)) ∧ scan verbatim_next false (escape1 c) = ("", false)) as H1.
  { intros c. unfold escape1.
    destruct (Ascii.eqb c "&") eqn:Ea; [split; [by intros []|done]|].
    destruct (Ascii.eqb c "<") eqn:El; [split; [by intros []|done]|].
    destruct (Ascii.eqb c ">") eqn:Eg; [split; [by intros []|done]|].
    destruct (Ascii.eqb c QUOTE) eqn:Eq; [split; [by intros []|done]|].
    split; [intros [] ?|]; cbn; by rewrite ?El, ?Eq. }
  induction s as [|c s [IHs IHv]]; [done|]. rewrite html_escape_cons. destruct (H1 c) as [Hs Hv]. split.
  - intros q Hq. by rewrite scan_app, Hs, IHs.
  - by rewrite scan_app, Hv, IHv.
Qed.

Lemma escape_same a b : same_text (html_escape a) (html_escape b).
Proof.
  destruct (escape_silent a) as [Ha Ha'], (escape_silent b) as [Hb Hb']. split; [|congruence].
  intros q Hq. by rewrite Ha, Hb.
Qed.

Lemma concat_same sep l l' : Forall2 same_markup l l' → same_markup (String.concat sep l) (String.concat sep l').
Proof.
  induction 1 as [|x x' l l' Hx Hl IH]; [done|]. destruct Hl as [|y y' m m' Hy Hm]; [done|].
  change (same_markup (x +:+ sep +:+ String.concat sep (y :: m)) (x' +:+ sep +:+ String.concat sep (y' :: m'))).
  apply app_same_markup; [done|]. by apply app_same_markup.
Qed.

Lemma concat_map_same {A} (g : A → string) (r : A → A) l :
  (∀ x, same_markup (g (r x)) (g x)) → same_markup (concat_map g (r <$> l)) (concat_map g l).
Proof.
  intros Hg. apply concat_same. rewrite <- list_fmap_compose. apply Forall2_fmap, Forall_Forall2_diag, Forall_true. done.
Qed.

Lemma concat_map_nonempty {A} (g : A → string) l :
  (∀ x, nonempty (g x) = true) → nonempty (concat_map g l) = match l with [] => false | _ => true end.
Proof.
  intros Hg. destruct l as [|x [|y l]]; [done|apply Hg|]. specialize (Hg x). unfold concat_map. cbn [fmap list_fmap].
  by destruct (g x).
Qed.

Create HintDb page.

(** Goes through a template: the names after the markup that precedes them,
    then the rest; what is left are holes that [page] does not know. *)
Ltac same :=
  repeat match goal with
  | |- same_markup (?l +:+ html_escape _ +:+ _) (?l +:+ html_escape _ +:+ _) =>
      apply text_same_app; [vm_compute; reflexivity|apply escape_same|]
  | |- same_markup (_ +:+ _) (_ +:+ _) => apply app_same_markup
  | |- same_markup ?a ?a => reflexivity
  end; first [solve [auto 1 with page nocore] | assumption | reflexivity | idtac].

Section same.
Context {f64 : Type} `{!Floats f64} (f : string → string).

Lemma auth_section_same a : same_markup (auth_section (rename_auth f <$> a)) (auth_section a).
Proof. destruct a as [a|]; [|done]. unfold auth_section. cbn [fmap option_fmap option_map]. cbv zeta. same. Qed.
#[local] Hint Resolve auth_section_same : page.

Lemma cert_row_same now c : same_markup (cert_row now (rename_cert f c)) (cert_row now c).
Proof. unfold cert_row. cbv zeta. same. Qed.

Lemma certs_section_same now certs : same_markup (certs_section now (rename_cert f <$> certs)) (certs_section now certs).
Proof.
  unfold certs_section. cbv zeta. same; [by destruct certs|]. apply concat_map_same. apply cert_row_same.
Qed.
#[local] Hint Resolve certs_section_same : page.

Lemma listener_row_same l : same_markup (listener_row (rename_listener f l)) (listener_row l).
Proof.
  destruct l as [a p [|d ds] m t]; unfold listener_row, rename_listener;
    cbn [acme_domains address protocol max_connections handler_timeout_secs fmap list_fmap]; cbv zeta; same.
Qed.

Lemma listeners_section_same ls : same_markup (listeners_section (rename_listener f <$> ls)) (listeners_section ls).
Proof.
  destruct ls as [|l ls]; [done|]. unfold listeners_section. cbn [fmap list_fmap]. cbv zeta. same.
  apply (concat_map_same listener_row (rename_listener f) (l :: ls)), listener_row_same.
Qed.
#[local] Hint Resolve listeners_section_same : page.

Lemma vhost_row_same v : same_markup (vhost_row (rename_vhost f v)) (vhost_row v).
Proof.
  destruct v as [n [|a l] ls]; unfold vhost_row, rename_vhost; cbn [vs_name vs_aliases vs_locations fmap list_fmap];
    cbv zeta; same; apply concat_same; rewrite <- list_fmap_compose;
    apply Forall2_fmap, Forall_Forall2_diag, Forall_true; intros loc; cbn [compose ls_path ls_handler]; same.
Qed.

Lemma vhosts_section_same vs : same_markup (vhosts_section (rename_vhost f <$> vs)) (vhosts_section vs).
Proof.
  destruct vs as [|v vs]; [done|]. unfold vhosts_section. cbn [fmap list_fmap]. cbv zeta. same.
  apply (concat_map_same vhost_row (rename_vhost f) (v :: vs)), vhost_row_same.
Qed.
#[local] Hint Resolve vhosts_section_same : page.

Lemma upstream_row_same u : same_markup (upstream_row_html (rename_upstream f u)) (upstream_row_html u).
Proof.
  unfold upstream_row_html. cbn [rename_upstream u_ejected u_healthy u_group]. destruct u as [? ? ? ? h e g ? ? ? ?].
  cbn [u_ejected u_healthy u_group u_label u_url u_weight u_in_flight u_requests u_errors].
  destruct (if e then _ else _) as [cls state]. cbv zeta. same. destruct g as [g|]; cbn [fmap option_fmap option_map]; same.
Qed.

Lemma health_table_same ups : same_markup (upstream_health_table (rename_upstream f <$> ups)) (upstream_health_table ups).
Proof.
  unfold upstream_health_table. cbv zeta. same; [by destruct ups|]. apply concat_map_same, upstream_row_same.
Qed.
#[local] Hint Resolve health_table_same : page.

Lemma class_row_same r : same_markup (class_row (map_fst f r).1 (map_fst f r).2) (class_row r.1 r.2).
Proof. unfold class_row, map_fst. cbn [fst snd]. same. Qed.

Lemma has_proxy_same sum : has_proxy_listener (rename_summary f sum) = has_proxy_listener sum.
Proof. unfold has_proxy_listener. cbn. induction (sm_listeners sum) as [|l ls IH]; cbn; [done|by rewrite IH]. Qed.

Lemma filter_map_fst (l : list (string * ClassCounters)) :
  List.filter (λ r, 0 <? total r.2) (map_fst f <$> l) = map_fst f <$> List.filter (λ r, 0 <? total r.2) l.
Proof. induction l as [|r l IH]; cbn; [done|]. destruct (0 <? total r.2); cbn; by rewrite IH. Qed.

Section page.
Context (s : Snapshot f64).
Abbreviation s' := (rename_snapshot f s).

Lemma proxying_same sum ups :
  let sec := proxying_section s' (rename_summary f sum) (rename_upstream f <$> ups) in
  same_markup sec (proxying_section s sum ups) ∧ nonempty sec = nonempty (proxying_section s sum ups).
Proof.
  cbv zeta. unfold proxying_section. rewrite has_proxy_same.
  replace (match rename_upstream f <$> ups with [] => false | _ => true end)
    with (match ups with [] => false | _ => true end) by by destruct ups.
  cbv zeta. destruct (negb _); [done|]. split; [|reflexivity]. same.
Qed.

Lemma network_same : network_section s' = network_section s.
Proof. reflexivity. Qed.

Lemma security_extra_same : security_extra_section s' = security_extra_section s.
Proof. reflexivity. Qed.

Lemma compression_same : compression_section s' = compression_section s.
Proof. reflexivity. Qed.

Lemma backends_same : backends_section s' = backends_section s.
Proof. reflexivity. Qed.

Lemma class_row_nonempty (r : string * ClassCounters) : nonempty (class_row r.1 r.2) = true.
Proof. unfold class_row. reflexivity. Qed.

Lemma rows_same (l : list (string * ClassCounters)) :
  let rows := concat_map (λ r, class_row r.1 r.2) (map_fst f <$> l) in
  same_markup rows (concat_map (λ r, class_row r.1 r.2) l) ∧
  nonempty rows = nonempty (concat_map (λ r, class_row r.1 r.2) l).
Proof.
  split; [apply (concat_map_same (λ r, class_row r.1 r.2) (map_fst f)), class_row_same|].
  rewrite !concat_map_nonempty by apply class_row_nonempty. by destruct l.
Qed.

Lemma breakdown_same :
  same_markup (breakdown_section s') (breakdown_section s) ∧
  nonempty (breakdown_section s') = nonempty (breakdown_section s).
Proof.
  unfold breakdown_section. change (s_by_handler s') with (map_fst f <$> s_by_handler s).
  change (s_by_vhost s') with (map_fst f <$> s_by_vhost s). rewrite filter_map_fst. cbv zeta.
  destruct (rows_same (List.filter (λ r, 0 <? total r.2) (s_by_handler s))) as [Hh Eh].
  destruct (rows_same (s_by_vhost s)) as [Hv Ev]. rewrite Eh, Ev.
  destruct (_ && _); [done|]. split; [|reflexivity]. unfold breakdown_table. same.
Qed.

End page.

(** C40: no name that a configuration, a certificate or an upstream brings to
    the page, the location path of the page itself excepted, changes its
    markup: replacing all of them by any other texts leaves a browser with the
    same tags and attributes, and all that stands between a [<] and the next
    [>] as it was, the values of the attributes included. *)
Theorem names_write_no_markup s sum certs ups matched_prefix now pid :
  markup (page (rename_snapshot f s) (rename_summary f sum) (rename_cert f <$> certs) (rename_upstream f <$> ups)
            matched_prefix now pid) =
  markup (page s sum certs ups matched_prefix now pid).
Proof.
  assert (same_markup (page (rename_snapshot f s) (rename_summary f sum) (rename_cert f <$> certs)
    (rename_upstream f <$> ups) matched_prefix now pid) (page s sum certs ups matched_prefix now pid)) as [Hs Hv];
    [|unfold markup; by rewrite Hs, Hv].
  destruct (proxying_same s sum ups) as [Hp Ep]. destruct (breakdown_same s) as [Hb Eb].
  unfold page, sidebar, traffic, sections. cbv zeta. rewrite network_same, security_extra_same, compression_same, backends_same, Ep, Eb.
  change (sm_listeners (rename_summary f sum)) with (rename_listener f <$> sm_listeners sum).
  change (sm_vhosts (rename_summary f sum)) with (rename_vhost f <$> sm_vhosts sum).
  change (sm_auth (rename_summary f sum)) with (rename_auth f <$> sm_auth sum).
  replace (match rename_auth f <$> sm_auth sum with Some _ => true | None => false end)
    with (match sm_auth sum with Some _ => true | None => false end) by by destruct (sm_auth sum).
  same.
Qed.

End same.

(** * Numbers and dates *)

Lemma pretty_N_go_app x s : pretty_N_go x s = pretty_N_go x "" +:+ s.
Proof.
  revert s. induction (N.lt_wf_0 x) as [x _ IH]. intros s. destruct (decide (0 < x)) as [Hx|Hx].
  - rewrite !(pretty_N_go_step x) by done. assert (x `div` 10 < x) as Hd by (apply N.div_lt; lia).
    rewrite (IH _ Hd (String _ s)), (IH _ Hd (String _ "")), str_app_assoc. done.
  - assert (x = 0) as -> by lia. done.
Qed.

Lemma dec_step n : 10 ≤ n → dec n = dec (n / 10) +:+ String (pretty_N_char (n mod 10)) "".
Proof.
  intros Hn. assert (0 < n / 10) by (apply N.div_str_pos; lia).
  rewrite !dec_pos by lia. rewrite pretty_N_go_step by lia. apply pretty_N_go_app.
Qed.

(** The digits from the last on. *)
Definition digits (n : N) : list ascii := rev (String.list_ascii_of_string (dec n)).

Lemma list_ascii_app a b :
  String.list_ascii_of_string (a +:+ b) = String.list_ascii_of_string a ++ String.list_ascii_of_string b.
Proof.
  induction a as [|c a IH]; [done|]. change (String c a +:+ b) with (String c (a +:+ b)). cbn. by rewrite IH.
Qed.

Lemma length_list_ascii s : length (String.list_ascii_of_string s) = String.length s.
Proof. induction s as [|c s IH]; cbn; [done|by rewrite IH]. Qed.

Lemma string_of_list_app a b :
  String.string_of_list_ascii (a ++ b) = String.string_of_list_ascii a +:+ String.string_of_list_ascii b.
Proof. induction a as [|c a IH]; [done|]. cbn. rewrite IH. done. Qed.

Lemma digits_step n : 10 ≤ n → digits n = pretty_N_char (n mod 10) :: digits (n / 10).
Proof. intros Hn. unfold digits. rewrite dec_step by done. by rewrite list_ascii_app, rev_app_distr. Qed.

Lemma group_digits_shift i l : (0 < i)%nat → group_digits (3 + i) l = group_digits i l.
Proof.
  revert i. induction l as [|c l IH]; intros i Hi; [done|]. cbn [group_digits].
  replace (S (3 + i)) with (3 + S i)%nat by lia. rewrite (IH (S i)) by lia. f_equal.
  replace (3 + i)%nat with (i + 1 * 3)%nat by lia. rewrite Nat.Div0.mod_add.
  replace (0 <? i + 1 * 3)%nat with (0 <? i)%nat; [done|]. destruct i; [lia|done].
Qed.

Lemma digits_nonempty n : digits n ≠ [].
Proof.
  unfold digits. destruct (dec_cons n) as (c & r & ->). cbn. intros E%(f_equal length). rewrite length_app in E. cbn in E. lia.
Qed.

(** The counts are printed in full: a number under a thousand as its digits, a
    larger one as the thousands, a comma and three digits. *)
Theorem fmt_num_groups n :
  (n < 1000 → fmt_num n = dec n) ∧
  (1000 ≤ n → fmt_num n = fmt_num (n / 1000) +:+ "," +:+
     String (pretty_N_char (n / 100 mod 10)) (String (pretty_N_char (n / 10 mod 10)) (String (pretty_N_char (n mod 10)) ""))).
Proof.
  split; intros Hn.
  - unfold fmt_num. assert (length (rev (String.list_ascii_of_string (dec n))) ≤ 3)%nat as Hl.
    { rewrite length_rev, length_list_ascii. apply (dec_length 3); lia. }
    rewrite <- (String.string_of_list_ascii_of_string (dec n)) at 2. f_equal.
    rewrite <- (rev_involutive (String.list_ascii_of_string (dec n))) at 2. f_equal.
    destruct (rev _) as [|a [|b [|c [|]]]]; cbn in Hl; try done; lia.
  - unfold fmt_num. fold (digits n) (digits (n / 1000)).
    assert (100 ≤ n / 10) as H1 by (apply N.div_le_lower_bound; lia).
    assert (10 ≤ n / 10 / 10) as H2 by (apply N.div_le_lower_bound; lia).
    rewrite (digits_step n), (digits_step (n / 10)), (digits_step (n / 10 / 10)) by lia.
    rewrite !N.Div0.div_div. change (10 * 10) with 100. change (100 * 10) with 1000.
    pose proof (digits_nonempty (n / 1000)) as Hne. destruct (digits (n / 1000)) as [|c r]; [done|].
    cbn [group_digits Nat.ltb Nat.leb Nat.modulo Nat.divmod Nat.sub andb Nat.eqb app fst snd].
    rewrite (group_digits_shift 1) by lia. cbn [rev app]. rewrite <- !(assoc_L (++)). cbn [app].
    rewrite string_of_list_app. cbn [String.string_of_list_ascii]. rewrite string_of_list_app. cbn [String.string_of_list_ascii].
    by rewrite str_app_assoc.
Qed.

(** The dates shown are those of the calendar, counted day by day from the
    epoch, with the time of the day. *)
Theorem fmt_unix_ts_calendar ts :
  (0 < ts)%Z →
  let '(y, m, d) := Nat.iter (Z.to_nat (ts / 86400)) Calendar.next_day (1970, 1, 1)%Z in
  fmt_unix_ts ts = Calendar.pad 4 y +:+ "-" +:+ Calendar.pad 2 m +:+ "-" +:+ Calendar.pad 2 d +:+ " " +:+
    Calendar.pad 2 (ts mod 86400 / 3600) +:+ ":" +:+ Calendar.pad 2 (ts mod 3600 / 60) +:+ " UTC".
Proof.
  intros Ht. assert (0 <= ts / 86400)%Z as Hd by (apply Z.div_pos; lia).
  destruct (Calendar.civil_march (Z.to_nat (ts / 86400))) as (era & yoe & doy & He & Hy & Hdoy & En & ->).
  rewrite Z2Nat.id in En by done. pose proof (Calendar.doe_bounds yoe doy Hy Hdoy) as Hb.
  unfold Calendar.march_date, fmt_unix_ts. destruct (Z.leb_spec ts 0); [lia|].
  rewrite (Z.quot_div_nonneg ts 86400), (Z.rem_mod_nonneg ts 86400), En by lia.
  set (doe := (365 * yoe + yoe / 4 - yoe / 100 + doy)%Z) in *.
  replace (era * 146097 + doe - 719468 + 719468)%Z with (era * 146097 + doe)%Z by lia.
  destruct (Z.leb_spec 0 (era * 146097 + doe)); [|lia].
  replace ((era * 146097 + doe) `quot` 146097)%Z with era by Calendar.div_lia.
  replace (era * 146097 + doe - era * 146097)%Z with doe by lia.
  rewrite !Z.quot_div_nonneg by Calendar.div_lia. rewrite (Calendar.yoe_recovered yoe doy doe) by done.
  replace (doe - (365 * yoe + yoe / 4 - yoe / 100))%Z with doy by lia.
  replace ((ts mod 86400) mod 3600)%Z with (ts mod 3600)%Z by Calendar.div_lia. reflexivity.
Qed.

(** * Answers *)

Section answers.
Context {f64 : Type} `{!Floats f64} `{HttpLaws} `{!HttpTextLaws}.
Context (to_string : Json f64 → string) (icon_svg favicon_svg : string).
Context (rate : N → N → f64) (cpu_pct_from_hp : N → option f64) (iter_map : gmap string N → list (string * N)).
Context (names : ∀ k, k ∈ ["Content-Type"; "Cache-Control"; "Content-Length"; "ETag"] → is_Some (hn_from_bytes k)).

Abbreviation handle := (handle to_string icon_svg favicon_svg rate cpu_pct_from_hp iter_map).

Lemma visible_value v : str_all visible v = true → is_Some (hv_from_str v).
Proof. intros (x & -> & _)%hv_from_str_visible. by eexists. Qed.

Lemma typed_answer v body :
  str_all visible v = true → ∃ r, Errors.build 200 [("Content-Type", v)] body = Some r ∧ resp_status r = 200 ∧ resp_body r = Full body.
Proof.
  intros Hv. destruct (Errors.build_is_Some 200 [("Content-Type", v)] body) as [r Hr]; [done| |].
  { intros k v' Hin. assert (k = "Content-Type" ∧ v' = v) as [-> ->] by set_solver.
    split; [apply names; set_solver|by apply visible_value]. }
  exists r. pose proof (Errors.build_inv _ _ _ _ Hr) as (? & ? & _). done.
Qed.

Lemma etag_visible n : str_all visible (String QUOTE (dec n +:+ String QUOTE "")) = true.
Proof.
  cbn [str_all]. rewrite str_all_app, (str_all_impl is_digit visible); [done| |apply dec_digits].
  intros c [?%N.leb_le ?%N.leb_le]%andb_true_iff. unfold visible. apply orb_true_iff. left. apply andb_true_iff.
  split; apply N.leb_le; lia.
Qed.

Lemma asset_answer asset inm : ∃ r, serve_cached_asset asset "image/svg+xml" inm = Some r ∧
  ((inm = Some (String QUOTE (dec (str_len asset) +:+ String QUOTE "")) ∧ resp_status r = 304 ∧ resp_body r = Full "") ∨
   resp_status r = 200 ∧ resp_body r = Full asset).
Proof.
  unfold serve_cached_asset. cbv zeta. case_bool_decide as E.
  - edestruct Errors.build_is_Some as [r Hr]; [..|exists r; split; [exact Hr|]]; [done| |].
    + intros k v Hin. apply list_elem_of_singleton in Hin as [= -> ->]. split; [apply names; set_solver|].
      apply visible_value, etag_visible.
    + left. apply Errors.build_inv in Hr as (? & ? & _). done.
  - edestruct Errors.build_is_Some as [r Hr]; [..|exists r; split; [exact Hr|]]; [done| |].
    + intros k v Hin. split; [apply names; set_solver|]. rewrite !elem_of_cons in Hin.
      destruct Hin as [[= -> ->]|[[= -> ->]|[[= -> ->]|[[= -> ->]|[]%elem_of_nil]]]].
      * by apply visible_value. * by apply visible_value.
      * apply hv_from_str_digits, dec_digits. * apply visible_value, etag_visible.
    + right. apply Errors.build_inv in Hr as (? & ? & _). done.
Qed.

(** The status endpoint answers every request without a panic, whatever was
    recorded before: the brand files with 304 exactly for their own entity
    tag, the document of the period asked for where JSON is asked for, and the
    page otherwise. *)
Theorem status_answers cpu_share ticks h s current path prefix query accept inm now_ms pid :
  N.of_nat (length ticks) < u64_mod →
  ∃ a r, Archive.run_ticks cpu_share iter_map ticks Archive.archives_new = Some a ∧
    handle h s a current path prefix query accept inm now_ms pid = Some r ∧
    match asked path query accept with
    | Icon | Favicon => resp_status r = 200 ∨ (resp_status r = 304 ∧ is_Some inm ∧ resp_body r = Full "")
    | JsonDoc p => resp_status r = 200 ∧ ∃ rows paths,
        Archive.sparkline_for_period a p = Some (rows, Archive.step_secs p) ∧
        Archive.paths_for_period iter_map a current p = Some paths ∧
        resp_body r = Full (to_string (render_json s (sparkline_data rate cpu_pct_from_hp rows (Archive.step_secs p)) paths p
          (h_summary h) (default [] (h_cert_state h)) (read_upstreams (h_lb_registry h) now_ms) pid))
    | HtmlPage _ => resp_status r = 200 ∧
        resp_body r = Full (page s (h_summary h) (default [] (h_cert_state h)) (read_upstreams (h_lb_registry h) now_ms)
          prefix (Z.of_N (now_ms / 1000)) pid)
    end.
Proof.
  intros Hn. destruct (Archive.archive_run cpu_share iter_map ticks Hn) as (a & b & Ha & Hs).
  destruct (Archive.charts_show_history cpu_share iter_map ticks Hn) as (a' & Ha' & Hc).
  rewrite Ha in Ha'. injection Ha' as <-. exists a. unfold StatusPage.handle. cbv zeta.
  destruct (asked path query accept) as [| |p|p].
  - destruct (asset_answer icon_svg inm) as (r & -> & Hr). exists r. split_and!; [done..|]. naive_solver.
  - destruct (asset_answer favicon_svg inm) as (r & -> & Hr). exists r. split_and!; [done..|]. naive_solver.
  - destruct (Archive.paths_total iter_map a _ b current p Hs) as [paths Hp]. rewrite Hc, Hp.
    destruct (typed_answer "application/json" (to_string (render_json s (sparkline_data rate cpu_pct_from_hp
      (reverse (Archive.recent (Archive.archive p).2 (Archive.period_rows (Archive.history_of cpu_share iter_map ticks) p)
        Archive.slot_zero)) (Archive.step_secs p)) paths p (h_summary h) (default [] (h_cert_state h))
      (read_upstreams (h_lb_registry h) now_ms) pid)) eq_refl) as (r & Hr & Hst & Hbody).
    exists r. split_and!; [done|exact Hr|done|]. eauto.
  - destruct (Archive.paths_total iter_map a _ b current p Hs) as [paths Hp]. rewrite Hc, Hp.
    destruct (typed_answer "text/html; charset=utf-8" (page s (h_summary h) (default [] (h_cert_state h))
      (read_upstreams (h_lb_registry h) now_ms) prefix (Z.of_N (now_ms / 1000)) pid) eq_refl) as (r & Hr & Hst & Hbody).
    exists r. split_and!; [done|exact Hr|done..].
Qed.

End answers.

(** * The script *)

(** The members of a document that [poll] and [updateExtra] read. *)
Definition script_reads : list (list string) :=
  [["uptime_human"]; ["requests_active"]; ["requests_total"]; ["rates"; "current_per_sec"];
   ["rates"; "avg_1min"]; ["rates"; "avg_5min"]; ["rates"; "avg_15min"]; ["status"; "2xx"]; ["status"; "3xx"];
   ["status"; "4xx"]; ["status"; "5xx"]; ["auth_failures_total"]; ["jwt_failures_total"];
   ["jwt_expiries_total"]; ["jwt_issued_total"]; ["auth_fail_1h"]; ["jwt_fail_1h"]; ["jwt_expiry_1h"];
   ["jwt_issued_1h"]; ["memory_kb"]; ["cpu_percent"]; ["certs"]; ["upstreams"]; ["latency_ms"; "lt_1"];
   ["latency_ms"; "lt_10"]; ["latency_ms"; "lt_50"]; ["latency_ms"; "lt_200"]; ["latency_ms"; "lt_1000"];
   ["latency_ms"; "ge_1000"]; ["sparkline"; "step_secs"]; ["sparkline"; "req_rate"]; ["sparkline"; "mem_kb"];
   ["sparkline"; "cpu_pct"]; ["sparkline"; "auth_fail"]; ["sparkline"; "jwt_fail"]; ["sparkline"; "jwt_expiry"];
   ["sparkline"; "jwt_issued"]; ["sparkline"; "err4xx"]; ["sparkline"; "err5xx"]; ["sparkline"; "active"];
   ["stream"; "conns_active"]; ["stream"; "conns_total"]; ["stream"; "bytes_in"]; ["stream"; "bytes_out"];
   ["datagram"; "flows_active"]; ["datagram"; "datagrams_in"]; ["datagram"; "datagrams_out"];
   ["datagram"; "bytes_in"]; ["datagram"; "bytes_out"]; ["datagram"; "flow_create"]; ["datagram"; "flow_evict"];
   ["proxy_lb"; "picks"]; ["proxy_lb"; "no_upstream"]; ["proxy_lb"; "retries"]; ["proxy_lb"; "ejections"];
   ["proxy_lb"; "health_checks"]; ["proxy_lb"; "health_failures"]; ["proxy_lb"; "health_recoveries"];
   ["proxy_upstream"; "bytes_in"]; ["proxy_upstream"; "bytes_out"]; ["proxy_upstream"; "connect_errors"];
   ["http_conns"; "active"]; ["http_conns"; "total"]; ["tls"; "handshakes"]; ["tls"; "failures"];
   ["tls"; "timeouts"]; ["acme"; "issuances"]; ["acme"; "issuance_failures"]; ["acme"; "renewals"];
   ["acme"; "renewal_failures"]; ["ocsp"; "refreshes"]; ["ocsp"; "refresh_failures"]; ["oidc"; "discoveries"];
   ["oidc"; "discovery_failures"]; ["oidc"; "refreshes"]; ["oidc"; "refresh_failures"]; ["oidc"; "logouts"];
   ["oidc"; "bearer_validations"]; ["oidc"; "bearer_failures"]; ["oidc"; "callback_iss_mismatches"];
   ["rate_limit"; "triggers"]; ["rate_limit"; "active_keys"]; ["geoip"; "lookups"]; ["geoip"; "misses"];
   ["compression"; "responses"]; ["compression"; "skipped"]; ["compression"; "gzip"]; ["compression"; "brotli"];
   ["compression"; "zstd"]; ["compression"; "bytes_in"]; ["compression"; "bytes_out"];
   ["backends"; "fcgi"; "requests"]; ["backends"; "fcgi"; "errors"]; ["backends"; "fcgi"; "in_flight"];
   ["backends"; "scgi"; "requests"]; ["backends"; "scgi"; "errors"]; ["backends"; "scgi"; "in_flight"];
   ["backends"; "cgi"; "requests"]; ["backends"; "cgi"; "errors"]; ["backends"; "cgi"; "in_flight"];
   ["backends"; "cgi"; "spawn_failures"]; ["backends"; "cgi"; "timeouts"];
   ["backends"; "static"; "bytes_served"]; ["backends"; "static"; "not_modified"];
   ["backends"; "static"; "range"]; ["top_paths"]].

(** Every document has all the members that the script of the page reads. *)
Theorem script_members_present {f64} (s : Snapshot f64) sp paths p sum certs ups pid path :
  path ∈ script_reads → is_Some (member path (render_json s sp paths p sum certs ups pid)).
Proof.
  intros Hp. assert (Forall (λ path, is_Some (member path (render_json s sp paths p sum certs ups pid))) script_reads) as Hf;
    [|by eapply Forall_forall in Hf].
  unfold script_reads. repeat (apply Forall_cons; split; [eexists; reflexivity|]). apply Forall_nil_2.
Qed.

(** The ids [setText] writes to, in the order of the text. *)
Fixpoint until_quote (s : string) : string :=
  match s with "" => "" | String c s' => if Ascii.eqb c "'" then "" else String c (until_quote s') end.

Fixpoint written_ids (s : string) : list string :=
  match s with
  | "" => []
  | String _ s' => match strip_prefix "setText('" s with
                   | Some r => until_quote r :: written_ids s'
                   | None => written_ids s'
                   end
  end.

Definition has_id (page id : string) : bool := contains_str (html ("id=`" +:+ id +:+ "`")) page.

Module Demo.

(** Numbers shown as the operations that give them. *)
#[local] Instance text_floats : Floats string := {
  of_u64 := dec;
  f_0 := "0";
  f_1 := "1";
  f_100 := "100";
  f_sub a b := "(" +:+ a +:+ " - " +:+ b +:+ ")";
  f_mul a b := a +:+ " * " +:+ b;
  f_div a b := a +:+ " / " +:+ b;
  f_max a b := "max(" +:+ a +:+ ", " +:+ b +:+ ")";
  fixed _ x := x;
}.

Definition hostile : string := html "`><script>&".

Definition ones : ClassCounters :=
  {| total := 1; s2xx := 1; s3xx := 0; s4xx := 0; s5xx := 0; latency := replicate LATENCY_BUCKETS 0; latency_sum_us := 0 |}.

(** All counters of the sections at [n], but those of the handshakes. *)
Definition counts (n : N) (tls : TlsSnap) : Snapshot string := let z := Z.of_N n in {|
  s_uptime := 0; s_requests_total := 1234567; s_requests_active := 3; s_status_2xx := 1000; s_status_3xx := 0; s_status_4xx := 0;
  s_status_5xx := 0; s_latency := replicate LATENCY_BUCKETS n; s_latency_sum_us := 0; s_rate_current := "0.50";
  s_rate_1min := "0.50"; s_rate_5min := "0.50"; s_rate_15min := "0.50"; s_memory_kb := Some 4096; s_cpu_percent := Some "1.5";
  s_auth_failures_total := 0; s_jwt_failures_total := 0; s_jwt_expiries_total := 0; s_jwt_issued_total := 0;
  s_auth_fail_1h := 0; s_jwt_fail_1h := 0; s_jwt_expiry_1h := 0; s_jwt_issued_1h := 0; s_quic_handshakes_total := 0;
  s_quic_handshake_failures_total := 0; s_quic_connections_active := 0; s_quic_requests_total := 0;
  s_quic_outbound_handshakes_total := 0; s_stream := Build_StreamSnap z n n n; s_datagram := Build_DatagramSnap n n n n n n n;
  s_compression := Build_CompressionSnap n n n n n n n; s_tls := tls; s_geoip := Build_GeoipSnap n n;
  s_shutdown := Build_ShutdownSnap 0 0; s_acme := Build_AcmeSnap n n n n; s_ocsp := Build_OcspSnap n n;
  s_lb := Build_LbSnap n n n n n n n; s_upstream := Build_UpstreamSnap n n n (replicate LATENCY_BUCKETS 0) 0;
  s_rate_limit := Build_RateLimitSnap n n; s_cache := Build_CacheSnap 0 0 0 0 0 0 0 0;
  s_oidc := Build_OidcSnap n n n n n n n n n n n n n; s_http_conns := Build_HttpConnSnap z n;
  s_fcgi := Build_BackendSnap n n z; s_scgi := Build_BackendSnap n n z; s_cgi := Build_CgiSnap n n z n n;
  s_static_files := Build_StaticSnap n n n; s_by_handler := [("static", ones)]; s_by_vhost := [(hostile, ones)];
  s_by_listener := [] |}.

Definition busy : Snapshot string := counts 1 (Build_TlsSnap 1 1 1).

Definition summary : ServerSummary :=
  {| version := "1.0";
     sm_listeners := [{| address := "tcp://0.0.0.0:443"; protocol := "HTTPS-ACME"; acme_domains := ["a.example"];
                         max_connections := Some 1000; handler_timeout_secs := None |}];
     sm_vhosts := [{| vs_name := "a.example"; vs_aliases := [];
                      vs_locations := [{| ls_path := hostile; ls_handler := "status" |}] |}];
     sm_auth := Some (plain_auth "PAM" "login") |}.

Definition cert : Acme.CertState :=
  {| Acme.cs_domains := ["a.example"]; Acme.expiry_ts := 1709251199; Acme.next_renewal_ts := 1709164800 |}.

Definition busy_page : string := page busy summary [cert] [] "/status/" 1707436799 7.

(** The name of a host that tries to open a tag stays text. *)
Example hostile_stays_text :
  html_escape hostile = "&quot;&gt;&lt;script&gt;&amp;" ∧ contains_str hostile busy_page = false ∧
  contains_str (html_escape hostile) busy_page = true.
Proof. split_and!; vm_compute; reflexivity. Qed.

(** The path of the location goes into attributes as it is. *)
Example prefix_writes_markup :
  contains_str (html "src=``><script>/hs-icon.svg`") (page busy summary [] [] (html "`><script>") 0 7) = true.
Proof. vm_compute. reflexivity. Qed.

(** What a browser keeps of a line, and that it notices a tag that a name
    would open. *)
Example markup_read :
  markup (html "<td class=`mono`>a.example</td>") = (html "<td class=``></td>", html "<td class=`mono`></td>") ∧
  bool_decide (markup (page busy summary [] [] (html "`><script>") 0 7) = markup (page busy summary [] [] "/status/" 0 7)) = false ∧
  bool_decide (markup (html "<td>" +:+ hostile +:+ "</td>") = markup "<td></td>") = false.
Proof. split_and!; vm_compute; reflexivity. Qed.

(** With every section shown the script writes to one id that no page has; the
    ids of the backends are put together at run time. *)
Example unknown_ids :
  List.filter (λ id, negb (has_id busy_page id)) (written_ids LIVE_JS) =
  ["val-"; "val-"; "val-"; "val-rps"].
Proof. vm_compute. reflexivity. Qed.

(** The link to the certificates leads nowhere. *)
Example dangling_link :
  contains_str "#sec-certs" busy_page = true ∧ has_id busy_page "sec-certs" = false ∧ has_id busy_page "certs-section" = true.
Proof. split_and!; vm_compute; reflexivity. Qed.

(** Handshakes that all fail do not show the section that counts them. *)
Example failed_handshakes_hidden : network_section (counts 0 (Build_TlsSnap 0 1000 1000)) = "".
Proof. reflexivity. Qed.

(** * Formats *)

Example formats :
  fmt_num 1234567 = "1,234,567" ∧ fmt_num 12 = "12" ∧ fmt_num 1000 = "1,000" ∧ fmt_duration_secs 90000 = "1d 1h" ∧
  fmt_duration_secs 61 = "1m 1s" ∧ fmt_unix_ts 1709251199 = "2024-02-29 23:59 UTC" ∧ fmt_unix_ts 0 = "expired" ∧
  fmt_bytes 512 = "512 B" ∧ fmt_bytes 2048 = "2048 / 1024 KiB".
Proof. split_and!; vm_compute; reflexivity. Qed.

Lemma fmt_unix_ts_calendar_witness : fmt_unix_ts 1709251199 = "2024-02-29 23:59 UTC".
Proof. exact (fmt_unix_ts_calendar 1709251199 eq_refl). Defined.

Lemma fmt_num_groups_witness : fmt_num 1234567 = fmt_num 1234 +:+ ",567".
Proof. exact (proj2 (fmt_num_groups 1234567) ltac:(vm_compute; discriminate)). Defined.

Lemma script_members_present_witness :
  ∃ v, member ["rates"; "avg_5min"]
    (render_json busy (sparkline_data (λ n d, dec n +:+ "/" +:+ dec d) (λ n, Some (dec n)) [] 5) [] Archive.Min5 summary [cert] [] 7) = Some v.
Proof. apply script_members_present. vm_compute. repeat constructor. Defined.

End Demo.

End StatusPage.
