(* ===== verification/Startup.v ===== *)
(** Starting and replacing the process: the sockets a process inherits
    ([src/inherit.rs]), binding the listeners ([src/listener/socket.rs]),
    dropping privileges ([src/privdrop.rs]), their order ([src/main.rs]) and
    the SIGUSR2 upgrade in the parent ([src/reload/lifecycle.rs]).

    The operating system is modelled as far as the code depends on it: sockets
    that processes share through their descriptors, the names of Unix sockets
    in the file system, descriptors that do not survive [execve], the rules of
    [setuid].  What else can make a call fail is a parameter. *)
From S2P Require Import Prelude RustStr Listeners.

Module Startup.

(** * The operating system *)

Inductive SockType := Stream | Dgram | Seqpacket.

#[global] Instance SockType_eq_dec : EqDecision SockType.
Proof. solve_decision. Defined.

Section startup.
Context {socket_addr : Type} `{EqDecision socket_addr, !Countable socket_addr} (port : socket_addr → N).
Abbreviation BoundAddr := (@Bind.BoundAddr socket_addr).

Inductive Local :=
  | AtInet (a : socket_addr)
  | AtPath (path : string)
  | Unnamed.

(** A socket; [accepting] is [SO_ACCEPTCONN]. *)
Record Sock := {
  stype : SockType;
  accepting : bool;
  local : Local;
}.

(** A descriptor: the socket it refers to, if any, and [FD_CLOEXEC]. *)
Record Entry := {
  obj : option N;
  cloexec : bool;
}.

(** The sockets, the names in the file system, and the descriptors of the
    processes. *)
Record World := {
  socks : gmap N Sock;
  paths : gmap string N;
  procs : gmap N (gmap N Entry);
}.

Definition fds (w : World) (pid : N) : gmap N Entry := default ∅ (procs w !! pid).

Definition set_fds (w : World) (pid : N) (m : gmap N Entry) : World :=
  {| socks := socks w; paths := paths w; procs := <[pid := m]> (procs w) |}.

Definition close (pid fd : N) (w : World) : World := set_fds w pid (delete fd (fds w pid)).

Definition exit (pid : N) (w : World) : World :=
  {| socks := socks w; paths := paths w; procs := delete pid (procs w) |}.

(** A descriptor of some process refers to the socket. *)
Definition is_open (w : World) (id : N) : bool :=
  existsb (λ p, existsb (λ e, bool_decide (obj e.2 = Some id)) (map_to_list p.2)) (map_to_list (procs w)).

(** [fork] and [execve]: the child has the descriptors without [FD_CLOEXEC]. *)
Definition fork_exec (parent child : N) (w : World) : World :=
  set_fds w child (filter (λ e, cloexec e.2 = false) (fds w parent)).

(** The lowest free descriptor. *)
Definition lowest {A} (m : gmap N A) : N :=
  default 3 (List.find (λ n, bool_decide (m !! n = None)) (N.of_nat <$> seq 3 (S (size m)))).

Definition new_id (w : World) : N := fresh (dom (socks w)).

(** A new socket with its descriptor; Rust opens sockets with [FD_CLOEXEC]. *)
Definition open_socket (pid : N) (s : Sock) (close_on_exec : bool) (w : World) : N * World :=
  let id := new_id w in
  let fd := lowest (fds w pid) in
  (fd, {| socks := <[id := s]> (socks w); paths := paths w;
          procs := <[pid := <[fd := {| obj := Some id; cloexec := close_on_exec |}]> (fds w pid)]> (procs w) |}).

(** Whether two addresses of a protocol exclude each other, and what else lets
    [bind] fail or a file stay. *)
Context (conflicts : socket_addr → socket_addr → bool) (bindable : socket_addr → bool) (creatable removable : string → bool).

Definition in_use (w : World) (ty : SockType) (a : socket_addr) : bool :=
  existsb (λ s, is_open w s.1 && bool_decide (stype s.2 = ty) &&
                match local s.2 with AtInet a' => conflicts a a' | _ => false end) (map_to_list (socks w)).

Definition bind_inet (pid : N) (ty : SockType) (listen : bool) (a : socket_addr) (w : World) : Result N * World :=
  if negb (bindable a) || in_use w ty a then (Err "bind", w)
  else
    let '(fd, w) := open_socket pid {| stype := ty; accepting := listen; local := AtInet a |} true w in
    (Ok fd, w).

Definition remove_file (path : string) (w : World) : World :=
  if removable path then {| socks := socks w; paths := delete path (paths w); procs := procs w |} else w.

Definition bind_unix (pid : N) (ty : SockType) (listen close_on_exec : bool) (path : string) (w : World) : Result N * World :=
  if negb (creatable path) || bool_decide (is_Some (paths w !! path)) then (Err "bind", w)
  else
    let id := new_id w in
    let '(fd, w) := open_socket pid {| stype := ty; accepting := listen; local := AtPath path |} close_on_exec w in
    (Ok fd, {| socks := socks w; paths := <[path := id]> (paths w); procs := procs w |}).

Definition clear_cloexec (pid fd : N) (w : World) : World :=
  set_fds w pid (alter (λ e, {| obj := obj e; cloexec := false |}) fd (fds w pid)).

(** * Inherited sockets *)

Record InheritedSockets := {
  tcp : gmap socket_addr N;
  udp : gmap socket_addr N;
  unix : gmap string N;
}.

Definition empty : InheritedSockets := {| tcp := ∅; udp := ∅; unix := ∅ |}.

(** [/proc/self/fd] in the order of the directory. *)
Context (read_dir : gmap N Entry → list N).

Definition open_fds (w : World) (pid : N) : list N := List.filter (λ fd, 2 <? fd) (read_dir (fds w pid)).

Definition classify_fd (w : World) (pid : N) (pool : InheritedSockets) (fd : N) : InheritedSockets :=
  match e ← fds w pid !! fd; id ← obj e; socks w !! id with
  | None => pool
  | Some s =>
      if accepting s then
        match local s with
        | AtInet a => {| tcp := <[a := fd]> (tcp pool); udp := udp pool; unix := unix pool |}
        | AtPath p => {| tcp := tcp pool; udp := udp pool; unix := <[p := fd]> (unix pool) |}
        | Unnamed => pool
        end
      else if bool_decide (stype s = Dgram) then
        match local s with
        | AtInet a => if port a =? 0 then pool
                      else {| tcp := tcp pool; udp := <[a := fd]> (udp pool); unix := unix pool |}
        | _ => pool
        end
      else pool
  end.

Definition scan (w : World) (pid : N) : InheritedSockets := fold_left (classify_fd w pid) (open_fds w pid) empty.

Definition take_tcp (a : socket_addr) (pool : InheritedSockets) : option N * InheritedSockets :=
  (tcp pool !! a, {| tcp := delete a (tcp pool); udp := udp pool; unix := unix pool |}).

Definition take_udp (a : socket_addr) (pool : InheritedSockets) : option N * InheritedSockets :=
  (udp pool !! a, {| tcp := tcp pool; udp := delete a (udp pool); unix := unix pool |}).

Definition take_unix (p : string) (pool : InheritedSockets) : option N * InheritedSockets :=
  (unix pool !! p, {| tcp := tcp pool; udp := udp pool; unix := delete p (unix pool) |}).

Definition close_unclaimed (pid : N) (pool : InheritedSockets) (w : World) : World :=
  fold_left (λ w fd, close pid fd w)
    ((map_to_list (tcp pool)).*2 ++ (map_to_list (unix pool)).*2 ++ (map_to_list (udp pool)).*2) w.

(** * Binding *)

(** What a listener runs on: a descriptor, and the pool without it. *)
Definition adopt (pid : N) (r : Result N * World) (pool : InheritedSockets) : Result (N * InheritedSockets) * World :=
  match r with
  | (Ok fd, w) => (Ok (fd, pool), clear_cloexec pid fd w)
  | (Err e, w) => (Err e, w)
  end.

Definition bind_socket (pid : N) (bind : BoundAddr) (pool : InheritedSockets) (w : World)
    : Result (N * InheritedSockets) * World :=
  match Bind.kind bind, Bind.location bind with
  | Bind.TcpStream, Bind.LInet a =>
      let '(inherited, pool) := take_tcp a pool in
      adopt pid (match inherited with Some fd => (Ok fd, w) | None => bind_inet pid Stream true a w end) pool
  | Bind.UdpDgram, Bind.LInet a =>
      let '(inherited, pool) := take_udp a pool in
      adopt pid (match inherited with Some fd => (Ok fd, w) | None => bind_inet pid Dgram false a w end) pool
  | Bind.UnixStream, Bind.LUnix path =>
      let '(inherited, pool) := take_unix path pool in
      adopt pid (match inherited with
                 | Some fd => (Ok fd, w)
                 | None => bind_unix pid Stream true true path (remove_file path w)
                 end) pool
  | Bind.UnixDgram, Bind.LUnix path => adopt pid (bind_unix pid Dgram false true path (remove_file path w)) pool
  | Bind.UnixSeqpacket, Bind.LUnix path => adopt pid (bind_unix pid Seqpacket true false path (remove_file path w)) pool
  | _, _ => (Err "unsupported combination", w)
  end.

Fixpoint bind_all (pid : N) (binds : list BoundAddr) (pool : InheritedSockets) (w : World)
    : Result (list (BoundAddr * N) * InheritedSockets) * World :=
  match binds with
  | [] => (Ok ([], pool), w)
  | b :: binds' =>
      match bind_socket pid b pool w with
      | (Ok (fd, pool), w) =>
          match bind_all pid binds' pool w with
          | (Ok (bound, pool), w) => (Ok ((b, fd) :: bound, pool), w)
          | (Err e, w) => (Err e, w)
          end
      | (Err e, w) => (Err e, w)
      end
  end.

(** The sockets of [main]: inherited or bound, and the rest closed. *)
Definition bind_listeners (pid : N) (binds : list BoundAddr) (w : World) : Result (list (BoundAddr * N)) * World :=
  match bind_all pid binds (scan w pid) w with
  | (Ok (bound, pool), w) => (Ok bound, close_unclaimed pid pool w)
  | (Err e, w) => (Err e, w)
  end.

(** * What is inherited *)

(** What a socket is found by. *)
Inductive Key :=
  | KTcp (a : socket_addr)
  | KUdp (a : socket_addr)
  | KUnix (path : string).

#[global] Instance Key_eq_dec : EqDecision Key.
Proof. solve_decision. Defined.

Definition key_of (s : Sock) : option Key :=
  if accepting s then match local s with AtInet a => Some (KTcp a) | AtPath p => Some (KUnix p) | Unnamed => None end
  else if bool_decide (stype s = Dgram) then
    match local s with AtInet a => if port a =? 0 then None else Some (KUdp a) | _ => None end
  else None.

Definition key_fd (w : World) (pid fd : N) : option Key := e ← fds w pid !! fd; id ← obj e; s ← socks w !! id; key_of s.

(** What a listener adopts. *)
Definition adopts (b : BoundAddr) : option Key :=
  match Bind.kind b, Bind.location b with
  | Bind.TcpStream, Bind.LInet a => Some (KTcp a)
  | Bind.UdpDgram, Bind.LInet a => Some (KUdp a)
  | Bind.UnixStream, Bind.LUnix p => Some (KUnix p)
  | _, _ => None
  end.

Definition pool_get (pool : InheritedSockets) (k : Key) : option N :=
  match k with KTcp a => tcp pool !! a | KUdp a => udp pool !! a | KUnix p => unix pool !! p end.

Definition pool_take (k : Key) (pool : InheritedSockets) : InheritedSockets :=
  match k with KTcp a => (take_tcp a pool).2 | KUdp a => (take_udp a pool).2 | KUnix p => (take_unix p pool).2 end.

Lemma classify_get w pid pool fd k :
  pool_get (classify_fd w pid pool fd) k = if decide (key_fd w pid fd = Some k) then Some fd else pool_get pool k.
Proof.
  unfold classify_fd, key_fd. destruct (fds w pid !! fd) as [e|]; cbn; [|done]. destruct (obj e) as [id|]; cbn; [|done].
  destruct (socks w !! id) as [s|]; cbn; [|done]. unfold key_of.
  destruct (accepting s), (local s) as [a|p|]; cbn; try (case_bool_decide; cbn); try destruct (port a =? 0); try done;
    destruct k as [a'|a'|p']; cbn; case_decide; simplify_eq; rewrite ?lookup_insert_eq; try done;
    rewrite lookup_insert_ne; congruence.
Qed.

Lemma pool_take_get k k' pool : pool_get (pool_take k pool) k' = if decide (k' = k) then None else pool_get pool k'.
Proof.
  destruct k, k'; cbn; case_decide; simplify_eq; rewrite ?lookup_delete_eq; try done; rewrite lookup_delete_ne; congruence.
Qed.

(** Every entry of the pool is a descriptor of its key. *)
Definition sound_pool (w : World) (pid : N) (pool : InheritedSockets) : Prop :=
  ∀ k fd, pool_get pool k = Some fd → 2 < fd ∧ key_fd w pid fd = Some k.

Lemma fold_classify w pid l pool k :
  pool_get (fold_left (classify_fd w pid) l pool) k =
  from_option Some (pool_get pool k) (last (filter (λ fd, key_fd w pid fd = Some k) l)).
Proof.
  revert pool. induction l as [|fd l IH]; intros pool; [done|]. cbn [fold_left]. rewrite IH, filter_cons, classify_get.
  case_decide; [|done]. destruct (filter _ l) as [|x l'] eqn:E; [done|].
  change (last (fd :: x :: l')) with (last (x :: l')). destruct (last (x :: l')) eqn:El; [done|]. by apply last_None in El.
Qed.

Context (read_dir_perm : ∀ m, read_dir m ≡ₚ (map_to_list m).*1).

Lemma elem_open_fds w pid fd : fd ∈ open_fds w pid ↔ 2 < fd ∧ is_Some (fds w pid !! fd).
Proof.
  unfold open_fds. rewrite list_elem_of_In, filter_In, <- list_elem_of_In, read_dir_perm, N.ltb_lt, list_elem_of_fmap.
  split.
  - intros [([fd' e] & -> & He%elem_of_map_to_list) ?]. eauto.
  - intros [? [e He]]. split; [|done]. exists (fd, e). split; [done|]. by apply elem_of_map_to_list.
Qed.

Lemma scan_sound w pid : sound_pool w pid (scan w pid).
Proof.
  intros k fd. unfold scan. rewrite fold_classify. destruct (last _) as [fd'|] eqn:E; cbn.
  - intros [= <-]. apply last_Some_elem_of, list_elem_of_filter in E as [Hk Hin]. by apply elem_open_fds in Hin as [? _].
  - by destruct k; cbn; rewrite lookup_empty.
Qed.

(** Each key has one descriptor. *)
Definition distinct_keys (w : World) (pid : N) : Prop :=
  ∀ k fd fd', 2 < fd → 2 < fd' → key_fd w pid fd = Some k → key_fd w pid fd' = Some k → fd = fd'.

Lemma scan_complete w pid k fd :
  distinct_keys w pid → 2 < fd → key_fd w pid fd = Some k → pool_get (scan w pid) k = Some fd.
Proof.
  intros Hd Hfd Hk. unfold scan. rewrite fold_classify.
  assert (fd ∈ open_fds w pid) as Hin.
  { apply elem_open_fds. split; [done|]. unfold key_fd in Hk. destruct (fds w pid !! fd); [eauto|done]. }
  destruct (last _) as [fd'|] eqn:E; cbn.
  - f_equal. apply last_Some_elem_of, list_elem_of_filter in E as [Hk' [? _]%elem_open_fds]. by eapply Hd.
  - apply last_None in E. assert (fd ∈ filter (λ fd, key_fd w pid fd = Some k) (open_fds w pid)) as Hf
      by by apply list_elem_of_filter. rewrite E in Hf. by apply elem_of_nil in Hf.
Qed.

(** ** Descriptors stay *)

Lemma lowest_fresh {A} (m : gmap N A) : m !! lowest m = None ∧ 2 < lowest m.
Proof.
  unfold lowest. destruct (List.find _ _) as [n|] eqn:E; cbn.
  - apply find_some in E as [Hin Hn%bool_decide_eq_true]. split; [done|].
    apply in_map_iff in Hin as (k & <- & Hk%in_seq). lia.
  - exfalso. assert (list_to_set (N.of_nat <$> seq 3 (S (size m))) ⊆ dom m) as Hsub.
    { intros n Hn%elem_of_list_to_set. apply elem_of_dom. rewrite list_elem_of_In in Hn.
      pose proof (find_none _ _ E n Hn) as Hf%bool_decide_eq_false. by apply not_eq_None_Some. }
    apply subseteq_size in Hsub. rewrite size_list_to_set, size_dom, length_fmap, length_seq in Hsub; [lia|].
    apply NoDup_fmap; [intros ???; lia|apply NoDup_seq].
Qed.

(** The descriptors of the process refer to the same sockets afterwards. *)
Definition kept (pid : N) (w w' : World) : Prop :=
  (∀ fd e, fds w pid !! fd = Some e → ∃ c, fds w' pid !! fd = Some {| obj := obj e; cloexec := c |}) ∧ socks w ⊆ socks w'.

#[global] Instance kept_preorder pid : PreOrder (kept pid).
Proof.
  split.
  - intros w. split; [|done]. intros fd [o c] He. by exists c.
  - intros w1 w2 w3 [H1 S1] [H2 S2]. split; [|by etrans]. intros fd e (c & Hc)%H1. apply H2 in Hc. exact Hc.
Qed.

Lemma kept_key pid w w' fd k : kept pid w w' → key_fd w pid fd = Some k → key_fd w' pid fd = Some k.
Proof.
  intros [Hf Hs]. unfold key_fd. intros (e & He & (id & Hid & (s & Hso & Hk)%bind_Some)%bind_Some)%bind_Some.
  destruct (Hf fd e He) as (c & ->). cbn. rewrite Hid. cbn. by rewrite (lookup_weaken _ _ _ _ Hso Hs).
Qed.

Lemma fds_set w pid m : fds (set_fds w pid m) pid = m.
Proof. unfold fds. cbn. by rewrite lookup_insert_eq. Qed.

Lemma open_socket_kept pid s c w : let '(fd, w') := open_socket pid s c w in
  kept pid w w' ∧ fds w pid !! fd = None ∧ is_Some (fds w' pid !! fd) ∧ 2 < fd.
Proof.
  unfold open_socket. cbv zeta. destruct (lowest_fresh (fds w pid)) as [Hn Hl].
  set (w' := {| socks := _; paths := _; procs := _ |}).
  assert (fds w' pid = <[lowest (fds w pid) := {| obj := Some (new_id w); cloexec := c |}]> (fds w pid)) as Hf.
  { unfold fds at 1. cbn. by rewrite lookup_insert_eq. }
  rewrite Hf. split_and!; [|done|by rewrite lookup_insert_eq; eauto|done]. split.
  - intros fd e He. rewrite Hf, lookup_insert_ne by congruence. destruct e as [o c']. by exists c'.
  - apply insert_subseteq. apply (not_elem_of_dom (D := gset N)). unfold new_id. apply is_fresh.
Qed.

Lemma remove_kept pid path w : kept pid w (remove_file path w) ∧ fds (remove_file path w) pid = fds w pid.
Proof. unfold remove_file. destruct (removable path); (split; [|done]); [|done]. split; [|done]. intros fd [o c] He. by exists c. Qed.

Lemma bind_inet_kept pid ty l a w fd w' :
  bind_inet pid ty l a w = (Ok fd, w') → kept pid w w' ∧ fds w pid !! fd = None ∧ is_Some (fds w' pid !! fd) ∧ 2 < fd.
Proof.
  unfold bind_inet. destruct (_ || _); [done|]. pose proof (open_socket_kept pid {| stype := ty; accepting := l; local := AtInet a |} true w) as Ho.
  destruct (open_socket _ _ _ _) as [fd' w1]. by intros [= <- <-].
Qed.

Lemma bind_unix_kept pid ty l c path w fd w' :
  bind_unix pid ty l c path (remove_file path w) = (Ok fd, w') →
  kept pid w w' ∧ fds w pid !! fd = None ∧ is_Some (fds w' pid !! fd) ∧ 2 < fd.
Proof.
  destruct (remove_kept pid path w) as [Hr Hf]. revert Hr Hf. generalize (remove_file path w). intros w0 Hr Hf.
  unfold bind_unix. destruct (_ || _); [done|].
  pose proof (open_socket_kept pid {| stype := ty; accepting := l; local := AtPath path |} c w0) as Ho.
  destruct (open_socket _ _ _ _) as [fd' w1]. destruct Ho as (Hk & Hn & Hs & Hl). intros [= <- <-].
  split_and!; [|by rewrite <- Hf|exact Hs|done]. etrans; [done|]. exact Hk.
Qed.

Lemma clear_kept pid fd w : kept pid w (clear_cloexec pid fd w).
Proof.
  split; [|done]. intros fd' [o c] He. unfold clear_cloexec. rewrite fds_set. destruct (decide (fd' = fd)) as [->|Hne].
  - rewrite lookup_alter_eq, He. cbn. by eexists.
  - rewrite lookup_alter_ne by done. by exists c.
Qed.

(** ** Binding a list of listeners *)

Lemma bind_socket_Ok pid b pool w fd pool' w' :
  bind_socket pid b pool w = (Ok (fd, pool'), w') →
  kept pid w w' ∧ pool' = from_option (λ k, pool_take k pool) pool (adopts b) ∧
  match adopts b ≫= pool_get pool with
  | Some fd' => fd = fd' ∧ w' = clear_cloexec pid fd w
  | None => fds w pid !! fd = None
  end.
Proof.
  assert (∀ r pool1, adopt pid r pool1 = (Ok (fd, pool'), w') →
    pool' = pool1 ∧ ∃ w1, r = (Ok fd, w1) ∧ w' = clear_cloexec pid fd w1) as Ha.
  { intros [[fd1|e] w1] pool1; cbn; [|done]. intros [= -> -> <-]. eauto. }
  assert (∀ ty l c path, bind_unix pid ty l c path (remove_file path w) = (Ok fd, w') →
    kept pid w w' ∧ fds w pid !! fd = None) as Hu by (intros; split; by eapply bind_unix_kept).
  unfold bind_socket, adopts. destruct (Bind.kind b), (Bind.location b) as [a|path]; try done; cbn -[bind_inet bind_unix adopt];
    intros (-> & w1 & E & ->)%Ha.
  1, 2: destruct (_ !! a) as [fd1|]; [by injection E as -> ->; split_and!; [apply clear_kept|..]|];
    apply bind_inet_kept in E as (Hk & Hn & _); split_and!; [etrans; [exact Hk|apply clear_kept]|done|done].
  1: destruct (_ !! path) as [fd1|]; [by injection E as -> ->; split_and!; [apply clear_kept|..]|].
  all: apply bind_unix_kept in E as (Hk & Hn & _); split_and!; [etrans; [exact Hk|apply clear_kept]|done|done].
Qed.

Lemma bind_all_Ok pid binds pool w bound pool' w' :
  bind_all pid binds pool w = (Ok (bound, pool'), w') →
  kept pid w w' ∧ bound.*1 = binds ∧
  (∀ k, pool_get pool' k = if decide (k ∈ omap adopts binds) then None else pool_get pool k) ∧
  (NoDup (omap adopts binds) → ∀ b k fd, b ∈ binds → adopts b = Some k → pool_get pool k = Some fd → (b, fd) ∈ bound).
Proof.
  revert pool w bound pool' w'. induction binds as [|b binds IH]; intros pool w bound pool' w'; cbn.
  { intros [= <- <- <-]. split_and!; [done|done|done|]. intros _ b k fd Hin. by apply elem_of_nil in Hin. }
  destruct (bind_socket pid b pool w) as [[[fd1 pool1]|] w1] eqn:E1; [|done].
  destruct (bind_all pid binds pool1 w1) as [[[bound1 pool2]|] w2] eqn:E2; [|done]. intros [= <- <- <-].
  apply bind_socket_Ok in E1 as (Hk1 & Hp1 & Hfd). apply IH in E2 as (Hk2 & Hb & Hp2 & Ha). clear IH. split_and!.
  - by etrans.
  - cbn. by rewrite Hb.
  - intros k. rewrite Hp2, Hp1. destruct (adopts b) as [k'|]; cbn; [|done]. rewrite pool_take_get.
    repeat case_decide; set_solver.
  - intros Hnd b' k fd Hin Hk Hg. destruct (adopts b) as [k1|] eqn:Eb; cbn in *.
    + apply NoDup_cons in Hnd as [Hni Hnd]. apply elem_of_cons in Hin as [->|Hin].
      * rewrite Eb in Hk. injection Hk as ->. rewrite Hg in Hfd. destruct Hfd as [-> _]. left.
      * right. apply (Ha Hnd b' k fd Hin Hk). rewrite Hp1, pool_take_get. case_decide as Hd; [|done].
        subst k1. destruct Hni. apply list_elem_of_omap. eauto.
    + apply elem_of_cons in Hin as [->|Hin]; [congruence|]. right. apply (Ha Hnd b' k fd Hin Hk). by rewrite Hp1.
Qed.

(** The descriptors left in a pool. *)
Definition pool_fds (pool : InheritedSockets) : list N :=
  (map_to_list (tcp pool)).*2 ++ (map_to_list (unix pool)).*2 ++ (map_to_list (udp pool)).*2.

Lemma elem_pool_fds pool fd : fd ∈ pool_fds pool ↔ ∃ k, pool_get pool k = Some fd.
Proof.
  unfold pool_fds. rewrite !elem_of_app, !list_elem_of_fmap. split.
  - intros [([a x] & -> & H%elem_of_map_to_list)|[([a x] & -> & H%elem_of_map_to_list)|([a x] & -> & H%elem_of_map_to_list)]];
      [by exists (KTcp a)|by exists (KUnix a)|by exists (KUdp a)].
  - intros [[a|a|a] H]; [left|right; right|right; left]; exists (a, fd); (split; [done|by apply elem_of_map_to_list]).
Qed.

Lemma close_list pid l w fd :
  fds (fold_left (λ w fd, close pid fd w) l w) pid !! fd = if decide (fd ∈ l) then None else fds w pid !! fd.
Proof.
  revert w. induction l as [|x l IH]; intros w; cbn [fold_left]; [by case_decide; [set_solver|]|].
  rewrite IH. unfold close at 1. rewrite fds_set. destruct (decide (fd = x)) as [->|Hne].
  - rewrite lookup_delete_eq. repeat case_decide; set_solver.
  - rewrite lookup_delete_ne by done. repeat case_decide; set_solver.
Qed.

Lemma close_socks pid l w : socks (fold_left (λ w fd, close pid fd w) l w) = socks w.
Proof. revert w. induction l as [|x l IH]; intros w; cbn; [done|]. by rewrite IH. Qed.

(** A start claims what it can and closes the rest: every inherited socket
    that a listener names is the socket of that listener, through the same
    descriptor, and every other one is closed. *)
Theorem start_claims_or_closes pid binds w bound w' fd k :
  bind_listeners pid binds w = (Ok bound, w') → distinct_keys w pid → NoDup (omap adopts binds) →
  2 < fd → key_fd w pid fd = Some k →
  bound.*1 = binds ∧
  if decide (k ∈ omap adopts binds)
  then (∃ b, adopts b = Some k ∧ (b, fd) ∈ bound) ∧ obj <$> fds w' pid !! fd = obj <$> fds w pid !! fd ∧ key_fd w' pid fd = Some k
  else fds w' pid !! fd = None.
Proof.
  unfold bind_listeners. destruct (bind_all _ _ _ _) as [[[bound1 pool1]|] w1] eqn:E; [|done]. intros [= <- <-] Hd Hnd Hfd Hk.
  apply bind_all_Ok in E as (Hkept & Hb & Hp & Ha). split; [done|].
  pose proof (scan_complete w pid k fd Hd Hfd Hk) as Hscan. unfold close_unclaimed. fold (pool_fds pool1).
  case_decide as Hin.
  - assert (fd ∉ pool_fds pool1) as Hni.
    { intros (k' & Hk')%elem_pool_fds. rewrite Hp in Hk'. case_decide as Hd'; [done|].
      apply scan_sound in Hk' as [_ Hk']. rewrite Hk in Hk'. injection Hk' as ->. done. }
    assert (fds (fold_left (λ w fd, close pid fd w) (pool_fds pool1) w1) pid !! fd = fds w1 pid !! fd) as Hsame.
    { rewrite close_list. by case_decide. }
    split_and!.
    + apply list_elem_of_omap in Hin as (b & Hbin & Hbk). exists b. split; [done|]. by eapply Ha.
    + rewrite Hsame. unfold key_fd in Hk. destruct (fds w pid !! fd) as [e|] eqn:He; [|done].
      destruct (proj1 Hkept fd e He) as (c & ->). done.
    + apply (kept_key pid w w1 fd k Hkept) in Hk. unfold key_fd in *. rewrite Hsame, close_socks. exact Hk.
  - rewrite close_list. case_decide as Hn; [done|]. destruct Hn. apply elem_pool_fds. exists k. rewrite Hp. by case_decide.
Qed.

(** ** Upgrades *)

Lemma adopts_inj b b' k : adopts b = Some k → adopts b' = Some k → b = b'.
Proof.
  unfold adopts. destruct b as [kd [a|p]], b' as [kd' [a'|p']]; cbn; destruct kd, kd'; try done; intros; by simplify_eq.
Qed.

Lemma fork_exec_fds parent child w fd :
  parent ≠ child → fds (fork_exec parent child w) child !! fd =
    e ← fds w parent !! fd; if cloexec e then None else Some e.
Proof.
  intros Hne. unfold fork_exec. rewrite fds_set, map_lookup_filter. destruct (fds w parent !! fd) as [e|]; cbn; [|done].
  destruct (cloexec e) eqn:E; case_guard as Hg; cbn in *; congruence.
Qed.

(** An upgrade shares the sockets: where a listener of the parent on TCP, UDP
    or a Unix stream socket is a listener of the new configuration, the child
    accepts from the very socket of the parent, so no connection in its
    backlog is lost and no moment is without a listener. *)
Theorem upgrade_shares_sockets parent child binds w bound w' b fd e k :
  parent ≠ child → bind_listeners child binds (fork_exec parent child w) = (Ok bound, w') →
  distinct_keys w parent → NoDup (omap adopts binds) →
  b ∈ binds → adopts b = Some k → 2 < fd → fds w parent !! fd = Some e → cloexec e = false → key_fd w parent fd = Some k →
  (b, fd) ∈ bound ∧ obj <$> fds w' child !! fd = Some (obj e).
Proof.
  intros Hne Hstart Hd Hnd Hb Hbk Hfd He Hc Hk.
  assert (∀ fd k, key_fd (fork_exec parent child w) child fd = Some k → key_fd w parent fd = Some k) as Hback.
  { intros fd' k'. unfold key_fd. rewrite fork_exec_fds by done. destruct (fds w parent !! fd') as [e'|]; cbn; [|done].
    by destruct (cloexec e'). }
  assert (key_fd (fork_exec parent child w) child fd = Some k) as Hk'.
  { unfold key_fd in *. rewrite fork_exec_fds, He by done. cbn. rewrite Hc, He in *. exact Hk. }
  destruct (start_claims_or_closes child binds (fork_exec parent child w) bound w' fd k Hstart) as [_ Hcase]; try done.
  { intros k1 f1 f2 ? ? H1%Hback H2%Hback. by eapply Hd. }
  rewrite decide_True in Hcase by (apply list_elem_of_omap; eauto). destruct Hcase as ((b' & Hb' & ?) & Ho & _).
  rewrite (adopts_inj b b' k) by done. split; [done|]. rewrite Ho, fork_exec_fds, He by done. cbn. by rewrite Hc.
Qed.

End startup.

(** * Privileges *)

(** The identities of a process. *)
Record Creds := {
  ruid : N;
  euid : N;
  suid : N;
  rgid : N;
  egid : N;
  sgid : N;
  groups : list N;
}.

Definition setgroups (gs : list N) (c : Creds) : Result Creds :=
  if euid c =? 0 then
    Ok {| ruid := ruid c; euid := euid c; suid := suid c; rgid := rgid c; egid := egid c; sgid := sgid c; groups := gs |}
  else Err "setgroups".

Definition setgid (g : N) (c : Creds) : Result Creds :=
  if euid c =? 0 then
    Ok {| ruid := ruid c; euid := euid c; suid := suid c; rgid := g; egid := g; sgid := g; groups := groups c |}
  else if (g =? rgid c) || (g =? sgid c) then
    Ok {| ruid := ruid c; euid := euid c; suid := suid c; rgid := rgid c; egid := g; sgid := sgid c; groups := groups c |}
  else Err "setgid".

Definition setuid (u : N) (c : Creds) : Result Creds :=
  if euid c =? 0 then
    Ok {| ruid := u; euid := u; suid := u; rgid := rgid c; egid := egid c; sgid := sgid c; groups := groups c |}
  else if (u =? ruid c) || (u =? suid c) then
    Ok {| ruid := ruid c; euid := u; suid := suid c; rgid := rgid c; egid := egid c; sgid := sgid c; groups := groups c |}
  else Err "setuid".

Section privileges.
(** The user and group data bases: an error, no entry, or the numbers. *)
Context (user_from_name : string → Result (option (N * N))) (group_from_name : string → Result (option N)).

Definition resolve_ids (user : string) (group : option string) : Result (N * N) :=
  pw ← user_from_name user;
  '(uid, primary) ← ok_or pw "user not found";
  gid ← match group with
        | Some name => g ← group_from_name name; ok_or g "group not found"
        | None => Ok primary
        end;
  Ok (uid, gid).

Definition drop_privileges (user : string) (group : option string) (inherit_supplementary_groups : bool) (c : Creds)
    : Result Creds :=
  if negb (ruid c =? 0) then Ok c
  else
    '(uid, gid) ← resolve_ids user group;
    c ← if inherit_supplementary_groups then Ok c else setgroups [gid] c;
    c ← setgid gid c;
    c ← setuid uid c;
    match setuid 0 c with
    | Ok _ => Err "setuid(0) succeeded after privilege drop"
    | Err _ => Ok c
    end.

(** Directories with their owners; [create] is [create_dir_all]. *)
Definition prepare_state_dir (create : string → bool) (path user : string) (group : option string) (c : Creds)
    (dirs : gmap string (N * N)) : Result unit * gmap string (N * N) :=
  if negb (ruid c =? 0) then (Ok tt, dirs)
  else if negb (create path) then (Err "creating", dirs)
  else
    let dirs := if decide (is_Some (dirs !! path)) then dirs else <[path := (euid c, egid c)]> dirs in
    match resolve_ids user group with
    | Err e => (Err e, dirs)
    | Ok ids => if euid c =? 0 then (Ok tt, <[path := ids]> dirs) else (Err "chown", dirs)
    end.

(** ** What a drop gives *)

(** The calls a process can make afterwards. *)
Inductive Call := Setuid (u : N) | Setgid (g : N) | Setgroups (gs : list N).

Definition call (x : Call) (c : Creds) : Creds :=
  match (match x with Setuid u => setuid u c | Setgid g => setgid g c | Setgroups gs => setgroups gs c end) with
  | Ok c' => c'
  | Err _ => c
  end.

(** The identities of a user, none of them of root. *)
Definition plain (uid gid : N) (gs : list N) (c : Creds) : Prop :=
  uid ≠ 0 ∧ ruid c = uid ∧ euid c = uid ∧ suid c = uid ∧ rgid c = gid ∧ egid c = gid ∧ sgid c = gid ∧ groups c = gs.

Lemma call_plain uid gid gs x c : plain uid gid gs c → plain uid gid gs (call x c).
Proof.
  intros (Hu & H1 & H2 & H3 & H4 & H5 & H6 & H7). pose proof Hu as Hz%N.eqb_neq. destruct x as [u|g|l]; unfold call.
  - unfold setuid. rewrite H2, Hz. destruct (_ || _) eqn:E; [|done]. rewrite H1, H3, orb_diag in E. apply N.eqb_eq in E.
    subst u. unfold plain. cbn. done.
  - unfold setgid. rewrite H2, Hz. destruct (_ || _) eqn:E; [|done]. rewrite H4, H6, orb_diag in E. apply N.eqb_eq in E.
    subst g. unfold plain. cbn. done.
  - unfold setgroups. rewrite H2, Hz. done.
Qed.

(** A process started by root that dropped its privileges has the identities
    of the user and the group configured, root's groups only where they were to
    be inherited, and no sequence of calls brings any privilege back. *)
Theorem drop_is_final user group keep c c' calls :
  drop_privileges user group keep c = Ok c' → ruid c = 0 → euid c = 0 →
  ∃ uid gid, resolve_ids user group = Ok (uid, gid) ∧
    plain uid gid (if keep then Startup.groups c else [gid]) (fold_left (λ c x, call x c) calls c').
Proof.
  unfold drop_privileges. intros Hd Hr He. rewrite Hr in Hd. cbn in Hd. apply bind_Ok in Hd as ([uid gid] & Hids & Hd).
  exists uid, gid. split; [done|].
  assert (plain uid gid (if keep then Startup.groups c else [gid]) c') as Hp.
  { apply bind_Ok in Hd as (c1 & H1 & Hd). apply bind_Ok in Hd as (c2 & H2 & Hd). apply bind_Ok in Hd as (c3 & H3 & Hd).
    assert (euid c1 = 0 ∧ groups c1 = (if keep then groups c else [gid])) as [E1 G1].
    { destruct keep; [by injection H1 as <-|]. unfold setgroups in H1. rewrite He in H1. by injection H1 as <-. }
    unfold setgid in H2. rewrite E1 in H2. injection H2 as <-. unfold setuid in H3. cbn in H3. injection H3 as <-.
    destruct uid as [|u]; [done|]. injection Hd as <-. unfold plain. cbn. done. }
  clear Hd. revert c' Hp. induction calls as [|x calls IH]; intros c' Hp; [done|]. cbn. by apply IH, call_plain.
Qed.

End privileges.


(** * The order of a start *)

Section start.
Context {socket_addr : Type} `{EqDecision socket_addr, !Countable socket_addr} (port : socket_addr → N).
Context (conflicts : socket_addr → socket_addr → bool) (may_bind : Creds → socket_addr → bool) (creatable removable : string → bool).
Context (read_dir : gmap N Entry → list N).
Context (user_from_name : string → Result (option (N * N))) (group_from_name : string → Result (option N)).
Context (create : string → bool).

Record Server := {
  sv_user : option string;
  sv_group : option string;
  sv_inherit_groups : bool;
  sv_state_dir : option string;
}.

(** [main] from the scan to the drop; an error ends the process. *)
Definition start (pid : N) (binds : list Bind.BoundAddr) (sv : Server) (c : Creds) (w : World) (dirs : gmap string (N * N))
    : Result (list (Bind.BoundAddr * N) * Creds) * World * gmap string (N * N) :=
  match bind_listeners port conflicts (may_bind c) creatable removable read_dir pid binds w with
  | (Err e, w) => (Err e, w, dirs)
  | (Ok bound, w) =>
      match sv_user sv with
      | None => (Ok (bound, c), w, dirs)
      | Some user =>
          let '(r, dirs) := match sv_state_dir sv with
                            | Some sd => prepare_state_dir user_from_name group_from_name create sd user (sv_group sv) c dirs
                            | None => (Ok tt, dirs)
                            end in
          (_ ← r;
           c ← drop_privileges user_from_name group_from_name user (sv_group sv) (sv_inherit_groups sv) c;
           Ok (bound, c), w, dirs)
      end
  end.

(** A server that starts as root with a user configured serves with the
    identities of that user, on sockets bound as root, and its state directory
    belongs to that user. *)
Theorem started_unprivileged pid binds sv user c w dirs bound c' w' dirs' :
  start pid binds sv c w dirs = (Ok (bound, c'), w', dirs') → sv_user sv = Some user → ruid c = 0 → euid c = 0 →
  ∃ uid gid, resolve_ids user_from_name group_from_name user (sv_group sv) = Ok (uid, gid) ∧
    plain uid gid (if sv_inherit_groups sv then groups c else [gid]) c' ∧
    bind_listeners port conflicts (may_bind c) creatable removable read_dir pid binds w = (Ok bound, w') ∧
    ∀ sd, sv_state_dir sv = Some sd → dirs' !! sd = Some (uid, gid).
Proof.
  unfold start. intros Hs Hu Hr He. destruct (bind_listeners _ _ _ _ _ _ _ _ _) as [[bound1|] w1]; [|done]. rewrite Hu in Hs.
  destruct (match sv_state_dir sv with Some _ => _ | None => _ end) as [r dirs1] eqn:Ep. injection Hs as Hs -> ->.
  apply bind_Ok in Hs as ([] & -> & Hs). apply bind_Ok in Hs as (c1 & Hd & [= -> ->]).
  destruct (drop_is_final _ _ _ _ _ _ _ [] Hd Hr He) as (uid & gid & Hids & Hp). exists uid, gid.
  split_and!; [done|done|done|]. intros sd Hsd. rewrite Hsd in Ep. unfold prepare_state_dir in Ep. rewrite Hr, Hids, He in Ep.
  cbn in Ep. destruct (create sd); [|done]. cbn in Ep. injection Ep as <-. by rewrite lookup_insert_eq.
Qed.

End start.

(** * Waiting for the child *)

(** Where [perform_upgrade] of the parent is; between the end of the wait and
    its own [close] other threads run. *)
Inductive Parent :=
  | Serving
  | Waiting (read_fd : N)
  | TimedOut (read_fd : N)
  | Draining.

Inductive Child := Starting | ReadySent | Gone.

(** Who opened a descriptor of the parent. *)
Inductive Owner := ReadEnd | Conn (n : N).

Record Upgrade := {
  parent : Parent;
  child : option Child;
  byte : bool;
  open : gmap N Owner;
  served : gset N;
  unreaped : nat;
}.

Definition set_parent (p : Parent) (u : Upgrade) : Upgrade :=
  {| parent := p; child := child u; byte := byte u; open := open u; served := served u; unreaped := unreaped u |}.
Definition set_child (c : Child) (b : bool) (u : Upgrade) : Upgrade :=
  {| parent := parent u; child := Some c; byte := b; open := open u; served := served u; unreaped := unreaped u |}.
Definition set_open (m : gmap N Owner) (s : gset N) (u : Upgrade) : Upgrade :=
  {| parent := parent u; child := child u; byte := byte u; open := m; served := s; unreaped := unreaped u |}.

Definition upgrade_init : Upgrade :=
  {| parent := Serving; child := None; byte := false; open := ∅; served := ∅; unreaped := 0 |}.

Inductive ustep : Upgrade → Upgrade → Prop :=
  (** SIGUSR2: a pipe and a child, which no call waits for. *)
  | UFork u fd : parent u = Serving → open u !! fd = None →
      ustep u {| parent := Waiting fd; child := Some Starting; byte := false; open := <[fd := ReadEnd]> (open u);
                 served := served u; unreaped := S (unreaped u) |}
  (** [signal_upgrade_ready]. *)
  | UReady u : child u = Some Starting → ustep u (set_child ReadySent true u)
  | UExit u : ustep u (set_child Gone (byte u) u)
  (** The byte: [read_one_byte] returns and drops its descriptor. *)
  | UByte u fd : parent u = Waiting fd → byte u = true →
      ustep u (set_parent Draining (set_open (delete fd (open u)) (served u) u))
  (** The end of the file: SIGTERM to the child. *)
  | UEof u fd : parent u = Waiting fd → byte u = false → child u = Some Gone →
      ustep u (set_parent Serving (set_open (delete fd (open u)) (served u) u))
  (** The time is up: the future is dropped with its descriptor. *)
  | UTimeout u fd : parent u = Waiting fd →
      ustep u (set_parent (TimedOut fd) (set_open (delete fd (open u)) (served u) u))
  (** SIGTERM to the child, and [close(read_fd)]. *)
  | UClose u fd : parent u = TimedOut fd →
      ustep u (set_parent Serving (set_open (delete fd (open u)) (served u) u))
  (** A connection of another thread. *)
  | UAccept u fd n : open u !! fd = None → n ∉ served u →
      ustep u (set_open (<[fd := Conn n]> (open u)) ({[n]} ∪ served u) u)
  | UEnd u fd n : open u !! fd = Some (Conn n) →
      ustep u (set_open (delete fd (open u)) (served u ∖ {[n]}) u).

(** The parent drains only after its child said that it serves. *)
Theorem drains_after_ready u : rtc ustep upgrade_init u → parent u = Draining → byte u = true.
Proof.
  assert (∀ u u', rtc ustep u u' → (parent u = Draining → byte u = true) → parent u' = Draining → byte u' = true) as Hinv.
  { intros u0 u1 Hs. induction Hs as [u0|u0 u1 u2 Hs Hr IH]; [done|]. intros Hi. apply IH. clear Hr IH. by destruct Hs. }
  intros Hr. by eapply Hinv.
Qed.

(** A failed upgrade closes a descriptor twice; a connection that another
    thread opened in between under the same number loses it. *)
Theorem timeout_closes_stranger :
  ∃ u, rtc ustep upgrade_init u ∧ parent u = Serving ∧ 7 ∈ served u ∧ ¬ ∃ fd, open u !! fd = Some (Conn 7).
Proof.
  exists {| parent := Serving; child := Some Starting; byte := false; open := ∅; served := {[7]}; unreaped := 1 |}.
  split_and!; [|done|set_solver|by intros (fd & ?)].
  eapply rtc_l; [by apply (UFork _ 5)|]. eapply rtc_l; [by apply (UTimeout _ 5)|].
  eapply rtc_l; [by apply (UAccept _ 5 7)|]. eapply rtc_l; [by apply (UClose _ 5)|]. apply rtc_refl.
Qed.

Module Demo.

(** Addresses are ports. *)
Abbreviation addr := N.

Definition same_port (a b : N) : bool := a =? b.

Definition run := bind_listeners (λ a : addr, a) same_port (λ _, true) (λ _, true) (λ _, true) (λ m : gmap N Entry, (map_to_list m).*1).

Definition at_port (k : Bind.SocketKind) (a : addr) : Bind.BoundAddr := {| Bind.kind := k; Bind.location := Bind.LInet a |}.
Definition at_path (k : Bind.SocketKind) (p : string) : Bind.BoundAddr (socket_addr := addr) :=
  {| Bind.kind := k; Bind.location := Bind.LUnix p |}.

Definition nothing : World (socket_addr := addr) := {| socks := ∅; paths := ∅; procs := ∅ |}.

Definition listeners : list Bind.BoundAddr :=
  [at_port Bind.TcpStream 443; at_port Bind.UdpDgram 443; at_path Bind.UnixStream "/run/a"; at_path Bind.UnixDgram "/run/b"].

Definition parent_world : World := (run 1 listeners nothing).2.
Definition child_start := run 2 listeners (fork_exec 1 2 parent_world).

(** The descriptors of the child and what they refer to. *)
Definition objects (w : World (socket_addr := addr)) (pid : N) : list (N * option N) :=
  (λ e, (e.1, obj e.2)) <$> map_to_list (fds w pid).

Example first_start : (run 1 listeners nothing).1 = Ok (zip listeners [3; 4; 5; 6]).
Proof. vm_compute. reflexivity. Qed.

(** The child shares three sockets and has a datagram socket of its own. *)
Example second_start :
  child_start.1 = Ok (zip listeners [3; 4; 5; 7]) ∧
  (paths parent_world !! "/run/b", paths child_start.2 !! "/run/b") = (Some 3, Some 4) ∧
  (paths parent_world !! "/run/a", paths child_start.2 !! "/run/a") = (Some 2, Some 2).
Proof. vm_compute. done. Qed.

(** A child that ends before it is ready takes the name of the datagram socket
    with it: the parent serves on, on a socket that nobody can reach. *)
Example failed_upgrade_strands_path :
  let w := exit 2 child_start.2 in
  is_open w 3 = true ∧ paths w !! "/run/b" = Some 4 ∧ is_open w 4 = false.
Proof. vm_compute. done. Qed.

(** Of two sockets with one address the scan keeps one; the other stays open
    and nobody accepts from it. *)
Definition twice : World (socket_addr := addr) :=
  {| socks := {[0 := {| stype := Stream; accepting := true; local := AtInet 80 |};
                1 := {| stype := Stream; accepting := true; local := AtInet 80 |}]};
     paths := ∅;
     procs := {[2 := {[3 := {| obj := Some 0; cloexec := false |}; 4 := {| obj := Some 1; cloexec := false |}]}]} |}.

Example duplicate_stays_open :
  let '(r, w) := run 2 [] twice in r = Ok [] ∧ size (fds w 2) = 1%nat.
Proof. vm_compute. done. Qed.

Lemma upgrade_shares_sockets_witness :
  (at_port Bind.TcpStream 443, 3) ∈ zip listeners [3; 4; 5; 7] ∧ obj <$> fds child_start.2 2 !! 3 = Some (Some 0).
Proof.
  apply (upgrade_shares_sockets (λ a : addr, a) same_port (λ _, true) (λ _, true) (λ _, true) (λ m : gmap N Entry, (map_to_list m).*1)
    (λ m, Permutation_refl _) 1 2 listeners parent_world (zip listeners [3; 4; 5; 7]) child_start.2 (at_port Bind.TcpStream 443) 3
    {| obj := Some 0; cloexec := false |} (KTcp 443)); try done.
  - intros k fd fd' _ _.
    assert (∀ fd k, key_fd (λ a : addr, a) parent_world 1 fd = Some k →
      (fd, k) ∈ [(3, KTcp 443); (4, KUdp 443); (5, KUnix "/run/a")]) as Hkeys.
    { intros f k'. unfold key_fd. replace (fds parent_world 1) with ({[3 := {| obj := Some 0; cloexec := false |};
        4 := {| obj := Some 1; cloexec := false |}; 5 := {| obj := Some 2; cloexec := false |};
        6 := {| obj := Some 3; cloexec := false |}]} : gmap N Entry) by (vm_compute; reflexivity).
      intros (e & He & Hk)%bind_Some. repeat (apply lookup_insert_Some in He as [[<- <-]|[_ He]];
        [vm_compute in Hk; simplify_eq; set_solver|]). apply lookup_singleton_Some in He as [<- <-]. vm_compute in Hk. done. }
    intros H1%Hkeys H2%Hkeys. set_solver.
  - vm_compute. repeat constructor; set_solver.
  - left.
Defined.

Definition root : Creds := {| ruid := 0; euid := 0; suid := 0; rgid := 0; egid := 0; sgid := 0; groups := [0; 4; 27] |}.
Definition users (name : string) : Result (option (N * N)) := Ok (if String.eqb name "www" then Some (33, 33) else None).
Definition no_group (name : string) : Result (option N) := Ok None.

Lemma drop_is_final_witness :
  ∃ uid gid, resolve_ids users no_group "www" None = Ok (uid, gid) ∧
    plain uid gid [gid] (fold_left (λ c x, call x c) [Setuid 0; Setgid 0; Setgroups [0]]
      {| ruid := 33; euid := 33; suid := 33; rgid := 33; egid := 33; sgid := 33; groups := [33] |}).
Proof. apply (drop_is_final users no_group "www" None false root); reflexivity. Defined.

(** The user root is refused, and a group that does not exist. *)
Example drop_refused :
  drop_privileges (λ _, Ok (Some (0, 0))) no_group "root" None false root = Err "setuid(0) succeeded after privilege drop" ∧
  drop_privileges users no_group "www" (Some "web") false root = Err "group not found".
Proof. done. Qed.

(** A program with the set-user-id bit of root keeps its privileges: the test
    looks at the real user. *)
Example setuid_program_keeps_root :
  let c := {| ruid := 1000; euid := 0; suid := 0; rgid := 1000; egid := 1000; sgid := 1000; groups := [] |} in
  drop_privileges users no_group "www" None false c = Ok c.
Proof. done. Qed.

End Demo.

End Startup.
